(* ===== verification/_CoqProject ===== *)
-Q . S2P
Prelude.v
MathExt.v
Messages.v
LowEntropy.v
Metadata.v
GoStd.v
GoFloat.v
GoNet.v
Ascii.v
Cipher.v
Rng.v
Replay.v
SourceCache.v
ServerUser.v
Metrics.v
Segment.v
Underlay.v
Padding.v
Packet.v
Stream.v
Congestion.v
Session.v
Hoare.v
Delivery.v
Lifecycle.v
SessionMap.v
PacketUnderlay.v
StreamUnderlay.v
Scheduler.v
UnderlayClass.v
Mux.v
Network.v
Writing.v
GoIP.v
Effects.v
Socks.v
Egress.v
SocksServer.v
UDPRelay.v
UDPCopy.v
TrafficConfig.v
AppCommon.v
ServerConfig.v
ClientConfig.v
NetURL.v
ShareURL.v
