(* ===== verification/Prelude.v ===== *)
(** * mieru: a verification development of the proxy

    mieru is a SOCKS5 proxy whose client and server talk over encrypted TCP
    connections or UDP datagrams that look random.  The application's requests
    reach the client's SOCKS5 server; the multiplexer picks or dials an underlay
    (a TCP connection or a UDP socket) to the proxy server and puts a session on
    it; the session cuts bytes into numbered segments; the underlay encrypts,
    pads and sends them.  At the other end the underlay finds the user whose key
    opens a segment, hands it to the session, and the server's SOCKS5 code reads
    the request from the session and dials, if the egress rules allow it.  What
    both ends are configured with comes from stored messages and from links.

    ** Conventions

    Definitions follow the source under src/ function by function and keep its
    names; PROJECT.json maps them to lines.  A Go integer is a [Z] with its width
    written out ([wrap], [in_width]); bytes and strings are lists of [Z]; a
    pointer or an optional field is an [option]; a map is a [gmap], or a list of
    pairs where the order of an iteration matters.  A function that returns
    [(A, error)] gives a [result]: [Ok], [Err] with the error value, or [Panic]
    for what would be a run-time panic in Go.  Records are updated with the
    notation [r<|f := v|>] below.  Where a goroutine waits, either the step is not
    enabled, or the operation returns [ErrNotReady] or [None].  Clocks, random
    draws, the outcomes of the network and the choices of a select statement or
    of the iteration over a map are arguments, labels of steps, or a record of
    them ([env]), so that the theorems hold for all of them.

    Code that is not under src/ is a class with its documented laws: [Crypto]
    (XChaCha20-Poly1305 and PBKDF2), [BTree] (google/btree), [GoFloat] (floating
    point), or an argument (the codecs of messages, [maphash]); every class has an
    instance that the examples compute with.  What the program computes with from
    the standard library is written out: GoStd.v (SHA-256, hex, FNV), GoNet.v and
    GoIP.v (addresses and their text), NetURL.v (URLs and base64).  [UnderlayOps]
    with [UnderlayLaws] is the interface between underlays and multiplexer: both
    underlays and their sum implement it, and Mux.v is proved against it.

    ** Files

    The packages at the bottom: MathExt.v (pkg/mathext), Rng.v (pkg/rng), Ascii.v
    (pkg/common/ascii.go), Replay.v (pkg/replay), Metrics.v (pkg/metrics),
    Congestion.v (pkg/congestion), Cipher.v (pkg/cipher), Messages.v (the traffic
    pattern messages).

    The wire format, pkg/protocol: LowEntropy.v (low_entropy.go), Metadata.v
    (metadata.go), Padding.v (padding.go), Segment.v (segment.go), Underlay.v
    (underlay_base.go), Packet.v (a segment as a datagram, underlay_packet.go) and
    Stream.v (segments in a byte stream, underlay_stream.go).

    Users: SourceCache.v and ServerUser.v (pkg/protocol/serveruser).

    Sessions: Session.v (session.go), with its triples in Hoare.v, reliable
    delivery in Delivery.v, what never goes back in Lifecycle.v, and what a write
    numbers in Writing.v; Network.v composes two sessions and a network.

    Underlays and multiplexer: SessionMap.v (underlay_base.go), PacketUnderlay.v
    (underlay_packet.go), StreamUnderlay.v (underlay_stream.go), Scheduler.v
    (scheduler.go), UnderlayClass.v (underlay.go), Mux.v (mux.go).

    SOCKS5: Effects.v (programs of network calls, their runs and interleavings),
    Socks.v (apis/model, apis/common/packet_over_stream.go), Egress.v
    (pkg/socks5/egress.go), SocksServer.v (socks5.go, handler.go, auth.go,
    dialer.go), UDPRelay.v and UDPCopy.v (udp.go, copy.go).

    Configuration: TrafficConfig.v (apis/trafficpattern), AppCommon.v
    (pkg/appctl/appctlcommon), ServerConfig.v (pkg/appctl/server.go and the
    commands of pkg/cli that call it), ClientConfig.v (pkg/appctl/client.go and the
    commands of pkg/cli that change or run a configuration), ShareURL.v
    (pkg/appctl/url.go).

    ** What is shown

    Delivery: over a network that loses, duplicates and reorders, each
    application reads a prefix of the bytes that its peer has written, in every
    interleaving ([Network.reliable_delivery]); what the peer lacks is held
    ([Network.unreceived_is_held]); a session only moves forward
    ([Lifecycle.session_moves_forward]).

    Wire format: every segment that is written is read back from a datagram
    ([Packet.packet_roundtrip]), or, after any others, from a stream
    ([Stream.stream_roundtrip]), low entropy or not
    ([LowEntropy.lowEntropy_roundtrip]), and no bytes of a peer make a reader
    panic; the messages of a stream are sealed with nonces that are all different
    ([Cipher.implicit_nonce_no_reuse]).

    Authentication: discovery ends and finds the user whose key was used
    ([ServerUser]); a session is opened only for such a user, with its policy, and
    a connection has one user ([PacketUnderlay], [StreamUnderlay]); a datagram
    that one UDP underlay of the process has read is not accepted again from
    another address by any of them, through the replay cache that they share
    ([PacketUnderlay.replayed_datagram_dropped]); and an open request of a known
    user does open a session.

    Multiplexing: a dial ends with a session on an open underlay
    ([Mux.dial_succeeds]); cleaning leaves an underlay alone while a dial to it is
    pending that is no older than the idle time
    ([Mux.pending_dial_keeps_underlay]); and a packet underlay that takes sessions
    has a key that the server tries, if the clocks are close enough
    ([Mux.packet_session_key_known]).

    SOCKS5: the server dials only for a request that it has read from an accepted
    client and whose destination the user may use, and then that destination or
    an egress proxy ([SocksServer.dials_are_allowed]);
    client and server agree on the outcome of the authentication and on the
    address, in every interleaving; the relays of datagrams pass each at most
    once, in order, and refine a definition on the history ([UDPRelay], [UDPCopy]).

    Configuration: commands keep what is stored valid, as long as no write of the
    file stops half-way, and what is valid starts or dials exactly the configured
    endpoints and users ([ServerConfig], [ClientConfig]); a shared profile that
    links can express is imported with the same endpoints and settings, its dialer
    apart ([ShareURL]); a traffic
    pattern that is accepted is usable ([TrafficConfig]).

    What is wrong in the code is shown where it can be: a reload leaves revoked
    permissions in force ([ServerConfig.revoked_permission_remains]), a traffic
    pattern may have an effective one that is refused
    ([TrafficConfig.effective_pattern_valid_iff]); the others are in PROJECT.json.

    ** Bounds and fuel

    A loop that is not structural has a natural number as fuel, chosen where it is
    called: the length of the input (writing, parsing durations and addresses),
    the number of segments that a tree holds (the loops of a session), 64 rounds
    for PDEP and PEXT.  A loop that runs out gives [Panic] or [None], and the
    theorems that nothing panics, or that give the value, show that it does not.
    The loop of user discovery has no bound in the code either: it repeats while
    users are reloaded, and [ServerUser.discover_terminates] gives the fuel.
    Sequence numbers have 32 bits, and the code does not handle their wrap-around;
    the theorems on delivery are about runs in which a session numbers fewer than
    2^32 segments.

    ** Not modelled

    Sockets, files, clocks and random sources themselves; logs, the registry and
    dumps of metrics, profiles and thread dumps; the RPC transport and the parsing
    of command lines; copying between connections with [io.Copy] and the HTTP
    proxy (pkg/common/copy.go, pkg/socks5/http2socks.go), which are calls of the
    standard library; the public API (apis/client, apis/server), which wraps the
    multiplexer; internal/deque, which nothing imports; updates, test tools and
    generated serialization.  Go's memory model is not: what runs under a mutex or
    is one atomic operation is one step. *)
From stdpp Require Export base option list list_numbers sorting gmap strings.
From Stdlib Require Export ZArith Lia.
#[export] Set Default Goal Selector "!".
#[global] Open Scope Z_scope.

(** ** Machine integers *)

(** A [w]-bit unsigned integer is a [Z] in [0, 2^w); [wrap w] is Go's
    conversion to (and the wrap-around of) such a type. *)
Definition wrap (w z : Z) : Z := z mod 2 ^ w.
Abbreviation u8 := (wrap 8).
Abbreviation u16 := (wrap 16).
Abbreviation u32 := (wrap 32).
Abbreviation u64 := (wrap 64).

Definition in_width (w z : Z) : Prop := 0 <= z < 2 ^ w.
Abbreviation is_u8 := (in_width 8).
Abbreviation is_u16 := (in_width 16).
Abbreviation is_u32 := (in_width 32).
Abbreviation is_u64 := (in_width 64).

#[global] Instance in_width_dec w z : Decision (in_width w z).
Proof. unfold in_width. apply _. Defined.

(** Bytes are [Z]s in [0, 256); a Go [[]byte] is a list of them. *)
Definition bytes_ok (l : list Z) : Prop := Forall is_u8 l.
#[global] Instance bytes_ok_dec l : Decision (bytes_ok l).
Proof. unfold bytes_ok. apply _. Defined.

(** Go's [len]. *)
Definition len {A} (l : list A) : Z := Z.of_nat (length l).

(** Go's [l[lo:hi]] (the bounds are checked where the code relies on them). *)
Definition slice {A} (lo hi : Z) (l : list A) : list A :=
  take (Z.to_nat (hi - lo)) (drop (Z.to_nat lo) l).
Definition slice_from {A} (lo : Z) (l : list A) : list A := drop (Z.to_nat lo) l.
Definition slice_to {A} (hi : Z) (l : list A) : list A := take (Z.to_nat hi) l.

(** Go's [b[i]] on a byte slice whose bounds the caller has checked. *)
Definition byte_at (i : nat) (l : list Z) : Z := nth i l 0.

(** [copy(buf[off:], data)]: overwrites as many elements as both sides have. *)
Definition copy_at {A} (off : nat) (data buf : list A) : list A :=
  let n := Nat.min (length data) (length buf - off) in
  take off buf ++ take n data ++ drop (off + n) buf.

(** ** Errors and panics *)

(** pkg/stderror's [ErrorType]. *)
Inductive errorType :=
  NO_ERROR | UNKNOWN_ERROR | PROTOCOL_ERROR | NETWORK_ERROR | CRYPTO_ERROR | REPLAY_ERROR.
#[global] Instance errorType_eq_dec : EqDecision errorType.
Proof. solve_decision. Defined.

(** Error values: the sentinels of package [io] and pkg/stderror that the
    program compares against, [fmt.Errorf] with the constant part of its
    message (with [%w]: the wrapped error), and [stderror.TypedError]. *)
Inductive error :=
| EOF | ErrUnexpectedEOF | ErrClosedPipe | ErrShortWrite | ErrShortBuffer
| ErrAlreadyExist | ErrEmpty | ErrInvalidArgument | ErrInvalidOperation
| ErrNotReady | ErrNullPointer | ErrTimeout | ErrUnsupported
| Errorf (msg : string)
| Wrapf (msg : string) (e : error)
| TypedError (t : errorType) (e : error).
#[global] Instance error_eq_dec : EqDecision error.
Proof. solve_decision. Defined.

(** What a Go function that returns [(A, error)] does: it returns a value,
    returns an error, or panics. *)
Inductive result (A : Type) :=
| Ok (a : A)
| Err (e : error)
| Panic (msg : string).
Arguments Ok {A} a.
Arguments Err {A} e.
Arguments Panic {A} msg.

#[global] Instance result_ret : MRet result := @Ok.
#[global] Instance result_bind : MBind result := λ A B f r,
  match r with Ok a => f a | Err e => Err e | Panic m => Panic m end.
#[global] Instance result_fmap : FMap result := λ A B f r,
  match r with Ok a => Ok (f a) | Err e => Err e | Panic m => Panic m end.
#[global] Instance result_eq_dec {A} `{EqDecision A} : EqDecision (result A).
Proof. solve_decision. Defined.

Lemma bind_Ok {A B} (f : A → result B) a : (Ok a ≫= f) = f a.
Proof. done. Qed.

(** [if b { return err }]. *)
Definition guard_err (b : bool) (e : error) : result unit := if b then Err e else Ok tt.

Definition is_Ok {A} (r : result A) : Prop := ∃ a, r = Ok a.
Definition is_Err {A} (r : result A) : Prop := ∃ e, r = Err e.
Definition is_Panic {A} (r : result A) : Prop := ∃ m, r = Panic m.

(** ** Record update

    [r <| field := v |>] is Go's assignment to a field: for a record with a
    [Settable] instance (its eta expansion) the setter of a projection is found
    by replacing that projection in the expansion. *)
Class Settable (R : Type) := settable_eta : R → R.
Class Setter {R T : Type} (proj : R → T) := set_field : (T → T) → R → R.
Arguments set_field {R T} proj {_} f r.
Ltac find_setter :=
  match goal with
  | |- @Setter ?R ?T ?proj =>
    let inst := constr:(_ : Settable R) in
    let e := eval hnf in inst in
    let e := eval pattern proj in e in
    match e with ?F _ => exact (λ f : T → T, F (λ r, f (proj r))) end
  end.
#[export] Hint Extern 0 (Setter _) => find_setter : typeclass_instances.
Notation "r <| p := v |>" := (set_field p (λ _, v) r)
  (at level 1, left associativity, p at level 8, v at level 200, format "r <| p  :=  v |>") : stdpp_scope.

(** ** encoding/binary, big endian *)

(** [PutUint16/32/64]: [n] bytes, most significant first. *)
Fixpoint be_put (n : nat) (v : Z) : list Z :=
  match n with
  | O => []
  | S m => (v / 256 ^ Z.of_nat m) mod 256 :: be_put m v
  end.
(** [Uint16/32/64]. *)
Definition be_get (l : list Z) : Z := foldl (λ acc b, acc * 256 + b) 0 l.

(** ** The development's automation *)

Create HintDb mieru.
Create Rewrite HintDb mieru.

Ltac inv_result :=
  repeat match goal with
  | H : Ok _ = Ok _ |- _ => injection H as H; try subst
  | H : Err _ = Err _ |- _ => injection H as H; try subst
  | H : Ok _ = Err _ |- _ => discriminate H
  | H : Ok _ = Panic _ |- _ => discriminate H
  | H : Err _ = Ok _ |- _ => discriminate H
  | H : Panic _ = Ok _ |- _ => discriminate H
  | H : Err _ = Panic _ |- _ => discriminate H
  | H : Panic _ = Err _ |- _ => discriminate H
  end.

(** Turns the code's boolean tests, in hypotheses, into propositions. *)
Ltac bool_to_prop :=
  repeat match goal with
  | H : (_ && _)%bool = true |- _ => apply andb_true_iff in H as [? ?]
  | H : (_ || _)%bool = false |- _ => apply orb_false_iff in H as [? ?]
  | H : negb _ = true |- _ => apply negb_true_iff in H
  | H : negb _ = false |- _ => apply negb_false_iff in H
  | H : (_ =? _) = true |- _ => apply Z.eqb_eq in H
  | H : (_ =? _) = false |- _ => apply Z.eqb_neq in H
  | H : (_ <? _) = true |- _ => apply Z.ltb_lt in H
  | H : (_ <? _) = false |- _ => apply Z.ltb_ge in H
  | H : (_ <=? _) = true |- _ => apply Z.leb_le in H
  | H : (_ <=? _) = false |- _ => apply Z.leb_gt in H
  | H : (_ >? _) = true |- _ => rewrite Z.gtb_ltb in H
  | H : (_ >? _) = false |- _ => rewrite Z.gtb_ltb in H
  | H : (_ >=? _) = true |- _ => rewrite Z.geb_leb in H
  | H : (_ >=? _) = false |- _ => rewrite Z.geb_leb in H
  | H : bool_decide _ = true |- _ => apply bool_decide_eq_true in H
  | H : bool_decide _ = false |- _ => apply bool_decide_eq_false in H
  end.

(** Case analysis on the tests of the goal, with arithmetic to close the
    branches that cannot happen. *)
Ltac case_test :=
  match goal with
  | |- context [if ?b then _ else _] => let E := fresh "E" in destruct b eqn:E; bool_to_prop
  | H : context [if ?b then _ else _] |- _ => let E := fresh "E" in destruct b eqn:E; bool_to_prop
  end.
Ltac case_tests := repeat (case_test; try (exfalso; lia); inv_result; try done).

(** ** Shared lemmas *)

Section integers.
Context (w : Z) (Hw : 0 <= w).

Lemma wrap_in_width z : in_width w (wrap w z).
Proof using Hw. apply Z.mod_pos_bound, Z.pow_pos_nonneg; lia. Qed.

Lemma wrap_id z : in_width w z → wrap w z = z.
Proof using. intros. by apply Z.mod_small. Qed.

Lemma wrap_idemp z : wrap w (wrap w z) = wrap w z.
Proof using Hw. apply wrap_id, wrap_in_width. Qed.

Lemma wrap_land z : wrap w z = Z.land z (Z.ones w).
Proof using Hw. by rewrite Z.land_ones. Qed.

Lemma wrap_testbit z i : 0 <= i → Z.testbit (wrap w z) i = (i <? w) && Z.testbit z i.
Proof using Hw.
  intros. unfold wrap. destruct (Z.ltb_spec i w).
  - by rewrite Z.mod_pow2_bits_low.
  - by rewrite Z.mod_pow2_bits_high by lia.
Qed.

Lemma in_width_bits z : 0 <= z → (∀ i, w <= i → Z.testbit z i = false) → in_width w z.
Proof using Hw.
  intros Hz Hb. split; [done|].
  destruct (Z.eq_dec z 0) as [->|]; [apply Z.pow_pos_nonneg; lia|].
  apply Z.log2_lt_pow2; [lia|]. destruct (Z.lt_ge_cases (Z.log2 z) w); [done|].
  pose proof (Z.bit_log2 z ltac:(lia)) as Hl. by rewrite Hb in Hl.
Qed.

Lemma in_width_high z i : in_width w z → w <= i → Z.testbit z i = false.
Proof using Hw.
  intros Hz Hi. rewrite <-(wrap_id z Hz), wrap_testbit by lia.
  by rewrite (proj2 (Z.ltb_ge i w) Hi).
Qed.
End integers.
#[export] Hint Resolve wrap_in_width : mieru.

Section lists.
Context {A : Type}.
Implicit Types l k : list A.

Lemma len_nonneg l : 0 <= len l.
Proof. unfold len. lia. Qed.
Lemma len_nil : len (A:=A) [] = 0.
Proof. done. Qed.
Lemma len_cons x l : len (x :: l) = 1 + len l.
Proof. unfold len. simpl. lia. Qed.
Lemma len_app l k : len (l ++ k) = len l + len k.
Proof. unfold len. rewrite length_app. lia. Qed.
Lemma len_take n l : len (take n l) = Z.min (Z.of_nat n) (len l).
Proof. unfold len. rewrite length_take. lia. Qed.
Lemma len_drop n l : len (drop n l) = Z.max 0 (len l - Z.of_nat n).
Proof. unfold len. rewrite length_drop. lia. Qed.
Lemma len_zero l : len l = 0 ↔ l = [].
Proof. unfold len. destruct l; simpl; split; intros; try done; lia. Qed.

Lemma length_copy_at off data (buf : list A) :
  (off <= length buf)%nat → length (copy_at off data buf) = length buf.
Proof.
  intros. unfold copy_at. rewrite !length_app, !length_take, length_drop. lia.
Qed.

Lemma slice_to_app n l k : n = len l → slice_to n (l ++ k) = l.
Proof. intros ->. unfold slice_to, len. by rewrite Nat2Z.id, take_app_length. Qed.
Lemma slice_from_app n l k : n = len l → slice_from n (l ++ k) = k.
Proof. intros ->. unfold slice_from, len. by rewrite Nat2Z.id, drop_app_length. Qed.
Lemma slice_to_from n l : slice_to n l ++ slice_from n l = l.
Proof. apply take_drop. Qed.
Lemma len_slice_to n l : 0 <= n <= len l → len (slice_to n l) = n.
Proof. intros. unfold slice_to. rewrite len_take. lia. Qed.
Lemma len_slice_from n l : 0 <= n <= len l → len (slice_from n l) = len l - n.
Proof. intros. unfold slice_from. rewrite len_drop. lia. Qed.
Lemma slice_to_all n l : len l <= n → slice_to n l = l.
Proof. intros. unfold slice_to. apply take_ge. unfold len in *. lia. Qed.
Lemma slice_from_all n l : len l <= n → slice_from n l = [].
Proof. intros. unfold slice_from. apply drop_ge. unfold len in *. lia. Qed.

Lemma slice_from_slice_from m n l : 0 <= m → 0 <= n → slice_from m (slice_from n l) = slice_from (n + m) l.
Proof. intros. unfold slice_from. rewrite drop_drop. f_equal. lia. Qed.

(** Writing right behind a prefix that is already in place. *)
Lemma copy_at_app pre data (buf : list A) :
  (length data <= length buf)%nat →
  copy_at (length pre) data (pre ++ buf) = pre ++ data ++ drop (length data) buf.
Proof.
  intros. unfold copy_at. rewrite take_app_length, length_app.
  replace (_ `min` _)%nat with (length data) by lia.
  rewrite firstn_all, <-drop_drop, drop_app_length. done.
Qed.
End lists.

Lemma be_put_length n v : length (be_put n v) = n.
Proof. induction n; simpl; auto. Qed.

Lemma be_put_bytes n v : bytes_ok (be_put n v).
Proof.
  induction n; constructor; [|done]. split; [apply Z.mod_pos_bound|apply Z.mod_pos_bound]; lia.
Qed.
#[export] Hint Resolve be_put_bytes : mieru.

Lemma be_get_nil : be_get [] = 0.
Proof. done. Qed.
Lemma be_get_one x : be_get [x] = x.
Proof. done. Qed.
Lemma be_get_snoc l x : be_get (l ++ [x]) = be_get l * 256 + x.
Proof. unfold be_get. by rewrite foldl_app. Qed.

Lemma be_get_app l k : be_get (l ++ k) = be_get l * 256 ^ len k + be_get k.
Proof.
  induction k as [|x k IH] using rev_ind.
  - rewrite app_nil_r, len_nil, be_get_nil. lia.
  - rewrite app_assoc, !be_get_snoc, IH, len_app.
    rewrite Z.pow_add_r by (pose proof (len_nonneg k); pose proof (len_nonneg [x]); lia).
    replace (len [x]) with 1 by done. lia.
Qed.

Lemma be_get_bound l : bytes_ok l → 0 <= be_get l < 256 ^ len l.
Proof.
  induction l as [|x l IH] using rev_ind; intros Hl.
  - unfold be_get, len. simpl. lia.
  - apply Forall_app in Hl as [Hl Hx]. apply Forall_singleton in Hx as [Hx1 Hx2].
    specialize (IH Hl). rewrite be_get_snoc, len_app.
    replace (len [x]) with 1 by done.
    rewrite Z.pow_add_r by (pose proof (len_nonneg l); lia). lia.
Qed.

Lemma be_get_put n v : be_get (be_put n v) = v mod 256 ^ Z.of_nat n.
Proof.
  induction n as [|n IH]; [rewrite Z.mod_1_r; done|].
  cbn [be_put]. change (?a :: ?l) with ([a] ++ l).
  rewrite be_get_app, be_get_one, IH. unfold len. rewrite be_put_length, Nat2Z.inj_succ, Z.pow_succ_r by lia.
  rewrite (Z.mul_comm 256), Z.rem_mul_r by (try apply Z.pow_nonzero; lia). lia.
Qed.

Lemma be_put_mod n m v : (n <= m)%nat → be_put n (v mod 256 ^ Z.of_nat m) = be_put n v.
Proof.
  intros Hm. induction n as [|n IH]; [done|]. cbn [be_put]. f_equal; [|apply IH; lia].
  replace (Z.of_nat m) with (Z.of_nat n + (1 + Z.of_nat (m - S n))) by lia.
  rewrite !Z.pow_add_r, Z.rem_mul_r by (try apply Z.pow_nonzero; lia).
  rewrite Z.mul_comm, Z.div_add, Z.div_small, Z.add_0_l
    by (try apply Z.mod_pos_bound; try apply Z.pow_nonzero; try apply Z.pow_pos_nonneg; lia).
  rewrite (Z.pow_1_r 256), Z.rem_mul_r by (try apply Z.pow_nonzero; lia).
  by rewrite Z.mul_comm, Z.mod_add, Z.mod_mod by lia.
Qed.

Lemma be_put_get l : bytes_ok l → be_put (length l) (be_get l) = l.
Proof.
  induction l as [|x l IH]; intros Hl; [done|].
  apply Forall_cons in Hl as [[Hx1 Hx2] Hl]. specialize (IH Hl).
  pose proof (be_get_bound l Hl) as Hb.
  change (x :: l) with ([x] ++ l) at 2. rewrite be_get_app.
  rewrite be_get_one.
  assert (0 < 256 ^ len l) by (apply Z.pow_pos_nonneg; pose proof (len_nonneg l); lia).
  cbn [length be_put]. f_equal.
  - fold (len l). rewrite Z.div_add_l, Z.div_small, Z.add_0_r by lia. apply Z.mod_small. lia.
  - rewrite <-(be_put_mod _ (length l)) by lia. fold (len l).
    rewrite Z.add_comm, Z.mod_add, Z.mod_small by lia. done.
Qed.

Lemma be_put_drop m n v : drop m (be_put (m + n) v) = be_put n v.
Proof. induction m as [|m IH]; [by rewrite drop_0|]. apply IH. Qed.

Lemma be_get_zeros k l : be_get (replicate k 0 ++ l) = be_get l.
Proof.
  rewrite be_get_app. replace (be_get (replicate k 0)) with 0; [lia|].
  induction k as [|k IH]; [done|]. rewrite replicate_S_end, be_get_snoc, <-IH. lia.
Qed.

Lemma bytes_ok_app l k : bytes_ok (l ++ k) ↔ bytes_ok l ∧ bytes_ok k.
Proof. apply Forall_app. Qed.
Lemma bytes_ok_take n l : bytes_ok l → bytes_ok (take n l).
Proof. apply Forall_take. Qed.
Lemma bytes_ok_drop n l : bytes_ok l → bytes_ok (drop n l).
Proof. apply Forall_drop. Qed.
#[export] Hint Resolve bytes_ok_take bytes_ok_drop : mieru.
Lemma byte_at_u8 i b : bytes_ok b → is_u8 (byte_at i b).
Proof.
  intros Hb. unfold byte_at. destruct (nth_in_or_default i b 0) as [Hi| ->]; [|done].
  apply list_elem_of_In in Hi. by eapply Forall_forall in Hi.
Qed.
#[export] Hint Resolve byte_at_u8 : mieru.

Lemma pow_256 n : 0 <= n → 256 ^ n = 2 ^ (8 * n).
Proof. intros. change 256 with (2 ^ 8). by rewrite Z.pow_mul_r by lia. Qed.

#[global] Arguments be_put : simpl never.
#[global] Arguments be_get : simpl never.

Lemma filter_all {A} (P : A → Prop) `{∀ x, Decision (P x)} (l : list A) : (∀ x, x ∈ l → P x) → filter P l = l.
Proof.
  induction l as [|x l IH]; intros Hl; [done|]. rewrite filter_cons, decide_True by (apply Hl; left).
  f_equal. apply IH. intros y Hy. apply Hl. by right.
Qed.

Lemma filter_ext_in {A} (P Q : A → Prop) `{∀ x, Decision (P x), ∀ x, Decision (Q x)} (l : list A) :
  (∀ x, x ∈ l → P x ↔ Q x) → filter P l = filter Q l.
Proof.
  induction l as [|x l IH]; intros Hl; [done|]. assert (filter P l = filter Q l) as E by (apply IH; intros; apply Hl; by right).
  pose proof (Hl x ltac:(left)) as Hx. rewrite !filter_cons, E. destruct (decide (P x)), (decide (Q x)); tauto.
Qed.
Lemma filter_none {A} (P : A → Prop) `{∀ x, Decision (P x)} (l : list A) : (∀ x, x ∈ l → ¬ P x) → filter P l = [].
Proof.
  induction l as [|x l IH]; intros Hl; [done|]. rewrite filter_cons, decide_False by (apply Hl; left).
  apply IH. intros y Hy. apply Hl. by right.
Qed.

Lemma lor_in_width w x y : 0 <= w → in_width w x → in_width w y → in_width w (Z.lor x y).
Proof.
  intros Hw Hx Hy. apply in_width_bits; [done| |].
  - apply Z.lor_nonneg. unfold in_width in *. lia.
  - intros i Hi. by rewrite Z.lor_spec, (in_width_high w Hw x), (in_width_high w Hw y).
Qed.
