(* ===== verification/MathExt.v ===== *)
(** * pkg/mathext: numbers.go and bit.go

    The generic [Min], [Max], [Mid], [Abs] and [WithinRange] at the integer
    types the protocol uses, and the PDEP / PEXT bit-manipulation routines with
    their 64-bit loops.  The reference semantics of PDEP and PEXT is by the list
    of positions of the mask's one-bits ([scatter] and [gather]); the loops of
    [pdepGeneric] and [pextGeneric] are proved equal to it, from which the two
    round trips that the low entropy codec relies on follow. *)
From S2P Require Import Prelude.

(** ** numbers.go *)

Definition Min (a b : Z) : Z := if a <=? b then a else b.
Definition Max (a b : Z) : Z := if a >=? b then a else b.

(** [Mid] sorts a three-element slice with three conditional swaps. *)
Definition Mid (a b c : Z) : Z :=
  let '(v0, v1) := if a >? b then (b, a) else (a, b) in
  let '(v0, v2) := if v0 >? c then (c, v0) else (v0, c) in
  let '(v1, v2) := if v1 >? v2 then (v2, v1) else (v1, v2) in
  v1.

Definition Abs (a : Z) : Z := if a >=? 0 then a else - a.

(** [WithinRange] at an unsigned type of width [w]: [target-margin] and
    [target+margin] wrap around. *)
Definition WithinRange (w v target margin : Z) : bool :=
  Mid v (wrap w (target - margin)) (wrap w (target + margin)) =? v.

Lemma Min_spec a b : Min a b = Z.min a b.
Proof. unfold Min. case_tests; lia. Qed.
Lemma Max_spec a b : Max a b = Z.max a b.
Proof. unfold Max. case_tests; lia. Qed.
#[export] Hint Rewrite Min_spec Max_spec : mieru.

Lemma Mid_between a b c : b <= c → (Mid a b c =? a) = (b <=? a) && (a <=? c).
Proof.
  intros. unfold Mid.
  destruct (Z.gtb_spec a b), (Z.leb_spec b a), (Z.leb_spec a c); simpl; try lia;
    repeat match goal with |- context [?x >? ?y] => destruct (Z.gtb_spec x y); simpl; try lia end;
    try apply Z.eqb_eq; try apply Z.eqb_neq; lia.
Qed.

(** Away from the ends of the type the test is the interval test that its
    comment promises. *)
Lemma WithinRange_interval w v target margin :
  0 <= w → 0 <= margin → margin <= target → target + margin < 2 ^ w →
  WithinRange w v target margin = (target - margin <=? v) && (v <=? target + margin).
Proof.
  intros. unfold WithinRange, wrap. rewrite !Z.mod_small by lia.
  apply Mid_between. lia.
Qed.

(** ** bit.go *)

(** [RepeatUint32]: [uint64(v)<<32 | uint64(v)]. *)
Definition RepeatUint32 (v : Z) : Z := Z.lor (u64 (Z.shiftl v 32)) v.

(** The loop of [pdepGeneric]; [None] when the fuel runs out. *)
Fixpoint pdepLoop (fuel : nat) (x srcBit mask result : Z) : option Z :=
  if mask =? 0 then Some result else
  match fuel with
  | O => None
  | S fuel =>
    let maskBit := Z.land mask (u64 (- mask)) in
    let result := if Z.land x srcBit =? 0 then result else Z.lor result maskBit in
    let mask := Z.land mask (u64 (mask - 1)) in
    pdepLoop fuel x (u64 (Z.shiftl srcBit 1)) mask result
  end.

(** Each round clears one bit of a 64-bit mask, so 64 rounds are enough
    (lemma [pdepLoop_enough]). *)
Definition pdepGeneric (x mask : Z) : Z := default 0 (pdepLoop 64 x 1 mask 0).

Fixpoint pextLoop (fuel : nat) (x resultBit mask result : Z) : option Z :=
  if mask =? 0 then Some result else
  match fuel with
  | O => None
  | S fuel =>
    let maskBit := Z.land mask (u64 (- mask)) in
    let result := if Z.land x maskBit =? 0 then result else Z.lor result resultBit in
    let mask := Z.land mask (u64 (mask - 1)) in
    pextLoop fuel x (u64 (Z.shiftl resultBit 1)) mask result
  end.

Definition pextGeneric (x mask : Z) : Z := default 0 (pextLoop 64 x 1 mask 0).

(** [PDEP] and [PEXT] dispatch to the generic routines (or to the BMI2
    instructions of the same name, which are assembly). *)
Definition PDEP (x mask : Z) : Z := pdepGeneric x mask.
Definition PEXT (x mask : Z) : Z := pextGeneric x mask.

(** [bits.OnesCount64] as a count of the positions below [w]. *)
Definition ones_below (w : nat) (m : Z) : list Z :=
  filter (λ i, Z.testbit m i = true) (seqZ 0 (Z.of_nat w)).
Definition OnesCount (w : nat) (m : Z) : Z := len (ones_below w m).

(** ** Reference semantics *)

(** Deposit bit [k], [k+1], ... of [x] at the positions [ps]. *)
Fixpoint scatter (ps : list Z) (k x : Z) : Z :=
  match ps with
  | [] => 0
  | p :: ps => Z.lor (if Z.testbit x k then 2 ^ p else 0) (scatter ps (k + 1) x)
  end.

(** Collect the bits of [x] at the positions [ps] into bit [k], [k+1], ... *)
Fixpoint gather (ps : list Z) (k x : Z) : Z :=
  match ps with
  | [] => 0
  | p :: ps => Z.lor (if Z.testbit x p then 2 ^ k else 0) (gather ps (k + 1) x)
  end.

(** The mask with exactly the one-bits [ps]. *)
Fixpoint mask_of (ps : list Z) : Z :=
  match ps with [] => 0 | p :: ps => Z.lor (2 ^ p) (mask_of ps) end.

(** ** Bit-level lemmas *)

Lemma pow2_testbit p i : 0 <= p → Z.testbit (2 ^ p) i = (i =? p).
Proof. intros. rewrite Z.pow2_bits_eqb by lia. apply Z.eqb_sym. Qed.

Lemma testbit_land_pow2 x p : 0 <= p → (Z.land x (2 ^ p) =? 0) = negb (Z.testbit x p).
Proof.
  intros. destruct (Z.testbit x p) eqn:E; simpl.
  - apply Z.eqb_neq. intros H0. apply (f_equal (λ z, Z.testbit z p)) in H0.
    by rewrite Z.land_spec, E, pow2_testbit, Z.eqb_refl, Z.testbit_0_l in H0.
  - apply Z.eqb_eq, Z.bits_inj'. intros i Hi.
    rewrite Z.land_spec, pow2_testbit, Z.testbit_0_l by lia.
    destruct (Z.eqb_spec i p) as [->|]; [by rewrite E|by rewrite andb_false_r].
Qed.

(** [m & -m] isolates the lowest one-bit. *)
Lemma land_opp_lowest p q :
  0 <= p → Z.land (2 ^ p * (2 * q + 1)) (- (2 ^ p * (2 * q + 1))) = 2 ^ p.
Proof.
  intros. replace (- (2 ^ p * (2 * q + 1))) with (2 ^ p * (2 * Z.lnot q + 1))
    by (rewrite Z.lnot_eq_pred_opp; lia).
  rewrite !(Z.mul_comm (2 ^ p)), <-!Z.shiftl_mul_pow2, <-Z.shiftl_land by lia.
  replace (Z.land (2 * q + 1) (2 * Z.lnot q + 1)) with 1.
  - by rewrite Z.shiftl_1_l.
  - apply Z.bits_inj'. intros i Hi. rewrite Z.land_spec.
    destruct (Z.eq_dec i 0) as [->|]; [by rewrite !Z.testbit_odd_0|].
    replace i with (Z.succ (i - 1)) by lia. rewrite !Z.testbit_odd_succ by lia.
    rewrite Z.lnot_spec, andb_negb_r by lia.
    change 1 with (2 * 0 + 1). by rewrite Z.testbit_odd_succ, Z.testbit_0_l by lia.
Qed.

(** [m & (m-1)] clears it. *)
Lemma land_pred_lowest p q :
  0 <= p → Z.land (2 ^ p * (2 * q + 1)) (2 ^ p * (2 * q + 1) - 1) = 2 ^ p * (2 * q).
Proof.
  intros Hp. apply Z.bits_inj'. intros i Hi. rewrite Z.land_spec.
  rewrite !(Z.mul_comm (2 ^ p)). destruct (Z.lt_ge_cases i p) as [Hlt|Hge].
  { by rewrite !Z.mul_pow2_bits_low by lia. }
  rewrite !Z.mul_pow2_bits by lia.
  replace ((2 * q + 1) * 2 ^ p - 1) with (2 * q * 2 ^ p + (2 ^ p - 1)) by lia.
  replace i with (i - p + p) at 2 by lia. rewrite <-Z.div_pow2_bits by lia.
  pose proof (Z.pow_pos_nonneg 2 p ltac:(lia) Hp).
  rewrite Z.div_add_l, Z.div_small, Z.add_0_r by lia.
  destruct (Z.eq_dec (i - p) 0) as [->|]; [by rewrite Z.testbit_odd_0, Z.testbit_even_0|].
  replace (i - p) with (Z.succ (i - p - 1)) by lia.
  by rewrite Z.testbit_odd_succ, Z.testbit_even_succ, andb_diag by lia.
Qed.

(** ** Masks as lists of positions *)

Definition positions (ps : list Z) : Prop := StronglySorted Z.lt ps ∧ Forall (λ p, 0 <= p < 64) ps.

Lemma positions_cons p ps :
  positions (p :: ps) → 0 <= p < 64 ∧ Forall (Z.lt p) ps ∧ positions ps.
Proof.
  intros [Hs Hb]. apply StronglySorted_cons in Hs as [??]. by apply Forall_cons in Hb as [??].
Qed.

Lemma mask_of_testbit ps i :
  Forall (λ p, 0 <= p < 64) ps → Z.testbit (mask_of ps) i = bool_decide (i ∈ ps).
Proof.
  induction 1 as [|p ps ? ? IH]; simpl; [apply Z.testbit_0_l|].
  rewrite Z.lor_spec, pow2_testbit, IH by lia.
  destruct (Z.eqb_spec i p) as [->|]; simpl.
  - symmetry. apply bool_decide_eq_true. by left.
  - apply bool_decide_ext. rewrite elem_of_cons. tauto.
Qed.

Lemma mask_of_nonneg ps : Forall (λ p, 0 <= p < 64) ps → 0 <= mask_of ps.
Proof.
  induction 1; simpl; [done|]. apply Z.lor_nonneg. split; [apply Z.pow_nonneg; lia|done].
Qed.

Lemma mask_of_u64 ps : Forall (λ p, 0 <= p < 64) ps → is_u64 (mask_of ps).
Proof.
  intros Hps. apply in_width_bits; [lia|by apply mask_of_nonneg|]. intros i Hi.
  rewrite mask_of_testbit by done. apply bool_decide_eq_false. intros Hin.
  rewrite Forall_forall in Hps. specialize (Hps i Hin). lia.
Qed.

Lemma mask_of_above p ps :
  0 <= p → Forall (λ p, 0 <= p < 64) ps → Forall (Z.lt p) ps →
  ∃ q, mask_of ps = 2 ^ (p + 1) * q.
Proof.
  intros Hp Hb Ha. exists (mask_of ps / 2 ^ (p + 1)). symmetry.
  rewrite <-(Z.add_0_r (_ * _)). rewrite (Z.div_mod (mask_of ps) (2 ^ (p + 1))) at 2
    by (apply Z.pow_nonzero; lia). f_equal. symmetry. apply Z.bits_inj'. intros i Hi.
  rewrite Z.testbit_0_l. destruct (Z.lt_ge_cases i (p + 1)).
  - rewrite Z.mod_pow2_bits_low, mask_of_testbit by (done || lia).
    apply bool_decide_eq_false. intros Hin. rewrite Forall_forall in Ha. specialize (Ha i Hin). lia.
  - apply Z.mod_pow2_bits_high. lia.
Qed.

Lemma mask_of_cons_lowest p ps :
  positions (p :: ps) → ∃ q, mask_of (p :: ps) = 2 ^ p * (2 * q + 1) ∧ mask_of ps = 2 ^ p * (2 * q).
Proof.
  intros ((?&?)&Ha&[_ Hb])%positions_cons. destruct (mask_of_above p ps) as [q Hq]; [done..|].
  exists q. rewrite Hq, Z.pow_add_r by lia. split; [|lia]. simpl.
  replace (2 ^ p * (2 * q + 1)) with (2 ^ p + mask_of ps) by (rewrite Hq, Z.pow_add_r; lia).
  rewrite Z.add_nocarry_lxor, Z.lxor_lor; [done|..].
  all: apply Z.bits_inj'; intros i Hi; rewrite Z.land_spec, pow2_testbit, Z.testbit_0_l by lia;
    destruct (Z.eqb_spec i p) as [->|]; [|done]; rewrite mask_of_testbit by done;
    apply bool_decide_eq_false; intros Hin; rewrite Forall_forall in Ha; specialize (Ha p Hin); lia.
Qed.

(** One round of either loop takes the lowest position off the mask. *)
Lemma mask_round p ps :
  positions (p :: ps) →
  let m := mask_of (p :: ps) in
  m ≠ 0 ∧ Z.land m (u64 (- m)) = 2 ^ p ∧ Z.land m (u64 (m - 1)) = mask_of ps.
Proof.
  intros Hps. pose proof (mask_of_u64 (p :: ps) (proj2 Hps)) as Hm.
  destruct (mask_of_cons_lowest p ps Hps) as (q & Hq & Hq').
  assert (0 <= p) by (apply positions_cons in Hps; lia).
  pose proof (Z.pow_pos_nonneg 2 p ltac:(lia) ltac:(done)).
  assert (Hu : ∀ z, Z.land (mask_of (p :: ps)) (u64 z) = Z.land (mask_of (p :: ps)) z).
  { intros z. rewrite wrap_land, Z.land_comm, <-Z.land_assoc, (Z.land_comm (Z.ones 64)) by lia.
    by rewrite <-wrap_land, wrap_id, Z.land_comm by (done || lia). }
  split_and!; [|rewrite Hu, Hq; by apply land_opp_lowest
               |rewrite Hu, Hq, Hq'; by apply land_pred_lowest].
  rewrite Hq. intros Hz. apply Z.mul_eq_0 in Hz. lia.
Qed.

Lemma sorted_lt_NoDup ps : StronglySorted Z.lt ps → NoDup ps.
Proof.
  induction 1 as [|p ps ? IH Ha]; constructor; [|done].
  intros Hin. rewrite Forall_forall in Ha. specialize (Ha p Hin). lia.
Qed.

Lemma length_positions ps : positions ps → (length ps <= 64)%nat.
Proof.
  intros [Hs Hb]. change 64%nat with (length (seqZ 0 64)).
  apply submseteq_length, NoDup_submseteq; [by apply sorted_lt_NoDup|].
  intros p Hp. rewrite Forall_forall in Hb. apply elem_of_seqZ. specialize (Hb p Hp). lia.
Qed.

Lemma u64_pow2 k : 0 <= k < 64 → u64 (2 ^ k) = 2 ^ k.
Proof. intros. apply wrap_id. split; [apply Z.pow_nonneg; lia|apply Z.pow_lt_mono_r; lia]. Qed.

Lemma u64_shiftl1_pow2 k : 0 <= k → u64 (Z.shiftl (u64 (2 ^ k)) 1) = u64 (2 ^ (k + 1)).
Proof.
  intros. rewrite Z.shiftl_mul_pow2, Z.pow_add_r, !Z.pow_1_r by lia.
  unfold wrap. by rewrite Z.mul_mod_idemp_l by lia.
Qed.

(** ** The loops compute the reference semantics *)

Lemma pdepLoop_spec fuel ps k x r :
  positions ps → (length ps <= fuel)%nat → 0 <= k → k + len ps <= 64 →
  pdepLoop fuel x (u64 (2 ^ k)) (mask_of ps) r = Some (Z.lor r (scatter ps k x)).
Proof.
  revert ps k r. induction fuel as [|fuel IH]; intros [|p ps] k r Hps Hf Hk Hk2; simpl in Hf; try lia.
  1,2: simpl; by rewrite Z.lor_0_r.
  destruct (mask_round p ps Hps) as (Hm & Hlow & Hclr).
  apply positions_cons in Hps as (?&?&Hps). rewrite len_cons in Hk2. pose proof (len_nonneg ps).
  cbn [pdepLoop]. rewrite (proj2 (Z.eqb_neq _ _) Hm), Hlow, Hclr, u64_shiftl1_pow2 by done.
  rewrite IH by (done || lia). rewrite u64_pow2, testbit_land_pow2 by lia.
  cbn [scatter]. destruct (Z.testbit x k); simpl; [by rewrite Z.lor_assoc|done].
Qed.

Lemma pextLoop_spec fuel ps k x r :
  positions ps → (length ps <= fuel)%nat → 0 <= k → k + len ps <= 64 →
  pextLoop fuel x (u64 (2 ^ k)) (mask_of ps) r = Some (Z.lor r (gather ps k x)).
Proof.
  revert ps k r. induction fuel as [|fuel IH]; intros [|p ps] k r Hps Hf Hk Hk2; simpl in Hf; try lia.
  1,2: simpl; by rewrite Z.lor_0_r.
  destruct (mask_round p ps Hps) as (Hm & Hlow & Hclr).
  apply positions_cons in Hps as (?&?&Hps). rewrite len_cons in Hk2. pose proof (len_nonneg ps).
  cbn [pextLoop]. rewrite (proj2 (Z.eqb_neq _ _) Hm), Hlow, Hclr, u64_shiftl1_pow2 by done.
  rewrite IH by (done || lia). rewrite u64_pow2, testbit_land_pow2 by lia.
  cbn [gather]. destruct (Z.testbit x p); simpl; [by rewrite Z.lor_assoc|done].
Qed.

Lemma StronglySorted_filter {A} (R : relation A) (P : A → Prop) `{∀ x, Decision (P x)} l :
  StronglySorted R l → StronglySorted R (filter P l).
Proof.
  induction 1 as [|x l ? IH Hx]; [constructor|]. rewrite filter_cons.
  case_decide; [|done]. constructor; [done|].
  rewrite Forall_forall in *. intros y [_ Hy]%list_elem_of_filter. auto.
Qed.

Lemma seqZ_sorted m n : StronglySorted Z.lt (seqZ m (Z.of_nat n)).
Proof.
  revert m. induction n as [|n IH]; intros m; [constructor|].
  rewrite seqZ_cons by lia. replace (Z.pred (Z.of_nat (S n))) with (Z.of_nat n) by lia.
  constructor; [apply IH|]. apply Forall_forall. intros y Hy%elem_of_seqZ. lia.
Qed.

Lemma ones_below_positions m : positions (ones_below 64 m).
Proof.
  split; [apply StronglySorted_filter, seqZ_sorted|].
  apply Forall_forall. intros y [_ Hy%elem_of_seqZ]%list_elem_of_filter. lia.
Qed.

Lemma mask_of_ones m : is_u64 m → mask_of (ones_below 64 m) = m.
Proof.
  intros Hm. apply Z.bits_inj'. intros i Hi.
  rewrite mask_of_testbit by apply ones_below_positions.
  destruct (Z.testbit m i) eqn:E.
  - apply bool_decide_eq_true, list_elem_of_filter. split; [done|]. apply elem_of_seqZ.
    destruct (Z.lt_ge_cases i 64); [lia|]. by rewrite (in_width_high 64) in E.
  - apply bool_decide_eq_false. intros [E' _]%list_elem_of_filter. congruence.
Qed.

Lemma pdepLoop_enough x m : is_u64 m → pdepLoop 64 x 1 m 0 = Some (scatter (ones_below 64 m) 0 x).
Proof.
  intros Hm. pose proof (ones_below_positions m) as Hp.
  rewrite <-(mask_of_ones m Hm) at 1. change 1 with (u64 (2 ^ 0)).
  pose proof (length_positions _ Hp). rewrite pdepLoop_spec by (done || unfold len; lia).
  by rewrite Z.lor_0_l.
Qed.

Lemma pextLoop_enough x m : is_u64 m → pextLoop 64 x 1 m 0 = Some (gather (ones_below 64 m) 0 x).
Proof.
  intros Hm. pose proof (ones_below_positions m) as Hp.
  rewrite <-(mask_of_ones m Hm) at 1. change 1 with (u64 (2 ^ 0)).
  pose proof (length_positions _ Hp). rewrite pextLoop_spec by (done || unfold len; lia).
  by rewrite Z.lor_0_l.
Qed.

Lemma PDEP_scatter x m : is_u64 m → PDEP x m = scatter (ones_below 64 m) 0 x.
Proof. intros. unfold PDEP, pdepGeneric. by rewrite pdepLoop_enough. Qed.
Lemma PEXT_gather x m : is_u64 m → PEXT x m = gather (ones_below 64 m) 0 x.
Proof. intros. unfold PEXT, pextGeneric. by rewrite pextLoop_enough. Qed.

(** ** What the reference semantics does to each bit *)

Section bits.
Context (ps : list Z) (Hps : positions ps).

Lemma scatter_in k x j p :
  ps !! j = Some p → Z.testbit (scatter ps k x) p = Z.testbit x (k + Z.of_nat j).
Proof using Hps.
  clear -Hps. revert k j p. induction ps as [|q qs IH]; intros k j p Hj; [done|].
  apply positions_cons in Hps as (?&Ha&Hqs). rewrite Forall_forall in Ha.
  assert (Hout : ∀ k i, i <= q → Z.testbit (scatter qs k x) i = false).
  { clear IH Hj. intros k' i Hi. revert k'. induction qs as [|r rs IHr]; intros k'; [apply Z.testbit_0_l|].
    simpl. rewrite Z.lor_spec, IHr; [| |by apply positions_cons in Hqs as (?&?&?)].
    2:{ intros y Hy. apply Ha. by right. }
    rewrite orb_false_r. assert (q < r) by (apply Ha; by left).
    case_match; [|apply Z.testbit_0_l]. rewrite pow2_testbit by lia. apply Z.eqb_neq. lia. }
  simpl. rewrite Z.lor_spec. destruct j as [|j]; simpl in Hj.
  - injection Hj as ->. rewrite Hout by lia. rewrite orb_false_r, Z.add_0_r.
    case_match; [by rewrite pow2_testbit, Z.eqb_refl by lia|apply Z.testbit_0_l].
  - rewrite (IH Hqs _ _ _ Hj). assert (q < p) by (apply Ha, list_elem_of_lookup; eauto).
    replace (k + 1 + Z.of_nat j) with (k + Z.of_nat (S j)) by lia.
    case_match; [rewrite pow2_testbit by lia|by rewrite Z.testbit_0_l].
    destruct (Z.eqb_spec p q); [lia|done].
Qed.

Lemma scatter_out k x i : 0 <= i → i ∉ ps → Z.testbit (scatter ps k x) i = false.
Proof using Hps.
  clear -Hps. revert k. induction ps as [|q qs IH]; intros k Hi Hout; [apply Z.testbit_0_l|].
  apply positions_cons in Hps as (?&_&Hqs). simpl. rewrite Z.lor_spec, IH; [|set_solver..].
  rewrite orb_false_r. case_match; [|apply Z.testbit_0_l].
  rewrite pow2_testbit by lia. apply Z.eqb_neq. set_solver.
Qed.

Lemma gather_testbit k x i :
  0 <= k → 0 <= i →
  Z.testbit (gather ps k x) i =
    bool_decide (k <= i) && from_option (Z.testbit x) false (ps !! Z.to_nat (i - k)).
Proof using.
  clear. revert k. induction ps as [|q qs IH]; intros k Hk Hi.
  { simpl. by rewrite Z.testbit_0_l, andb_false_r. }
  simpl gather. rewrite Z.lor_spec, IH by lia.
  destruct (decide (i = k)) as [->|].
  { rewrite Z.sub_diag. rewrite (bool_decide_eq_false_2 (k + 1 <= k)) by lia.
    rewrite bool_decide_eq_true_2 by lia. simpl. rewrite orb_false_r.
    case_match; [by rewrite pow2_testbit, Z.eqb_refl by lia|apply Z.testbit_0_l]. }
  rewrite (bool_decide_ext (k + 1 <= i) (k <= i)) by lia.
  replace (Z.testbit (if Z.testbit x q then 2 ^ k else 0) i) with false.
  2:{ symmetry. case_match; [|apply Z.testbit_0_l]. rewrite pow2_testbit by lia. by apply Z.eqb_neq. }
  simpl. case_bool_decide; [|done]. simpl.
  by replace (Z.to_nat (i - k)) with (S (Z.to_nat (i - (k + 1)))) by lia.
Qed.
End bits.

Section pdep_pext.
Context (m : Z) (Hm : is_u64 m).
Abbreviation ones := (ones_below 64 m).

Lemma PDEP_in x j p : ones !! j = Some p → Z.testbit (PDEP x m) p = Z.testbit x (Z.of_nat j).
Proof using Hm.
  intros Hj. rewrite PDEP_scatter by done.
  by rewrite (scatter_in _ (ones_below_positions m) 0 x j p Hj).
Qed.

Lemma PDEP_out x i : 0 <= i → Z.testbit m i = false → Z.testbit (PDEP x m) i = false.
Proof using Hm.
  intros Hi Hb. rewrite PDEP_scatter by done. apply scatter_out; [apply ones_below_positions|done|].
  intros [? _]%list_elem_of_filter. congruence.
Qed.

Lemma PEXT_testbit x j :
  0 <= j → Z.testbit (PEXT x m) j = from_option (Z.testbit x) false (ones !! Z.to_nat j).
Proof using Hm.
  intros. rewrite PEXT_gather, gather_testbit by done.
  by rewrite bool_decide_eq_true_2, Z.sub_0_r by lia.
Qed.

(** The [j]-th one-bit exists exactly below the population count. *)
Lemma ones_lookup_None j : 0 <= j → ones !! Z.to_nat j = None ↔ OnesCount 64 m <= j.
Proof using. intros. rewrite lookup_ge_None. unfold OnesCount, len. lia. Qed.

Lemma ones_lookup_bit j p : ones !! j = Some p → 0 <= p < 64 ∧ Z.testbit m p = true.
Proof using.
  intros Hj. apply list_elem_of_lookup_2, list_elem_of_filter in Hj as [? Hj%elem_of_seqZ]. split; [lia|done].
Qed.

(** Every one-bit of the mask is the [j]-th for some [j]. *)
Lemma ones_bit_lookup i : 0 <= i < 64 → Z.testbit m i = true → ∃ j, ones !! j = Some i.
Proof using.
  intros Hi Hb. apply list_elem_of_lookup, list_elem_of_filter. split; [done|].
  apply elem_of_seqZ. lia.
Qed.

Lemma PDEP_u64 x : is_u64 (PDEP x m).
Proof using Hm.
  assert (∀ ps k, positions ps → 0 <= scatter ps k x) as Hnn.
  { intros ps. induction ps as [|p ps IH]; intros k Hp; [done|].
    apply positions_cons in Hp as (?&_&?). simpl. apply Z.lor_nonneg. split; [|by apply IH].
    case_match; [apply Z.pow_nonneg|]; lia. }
  apply in_width_bits; [lia|rewrite PDEP_scatter by done; apply Hnn, ones_below_positions|].
  intros i Hi. apply PDEP_out; [lia|]. by apply (in_width_high 64).
Qed.

Lemma OnesCount_range : 0 <= OnesCount 64 m <= 64.
Proof using.
  pose proof (length_positions _ (ones_below_positions m)). unfold OnesCount, len. lia.
Qed.
End pdep_pext.

(** PEXT undoes PDEP: extracting at a 64-bit mask what was deposited there
    gives back as many low bits of the source as the mask has one-bits. *)
Theorem pext_pdep (x m : Z) :
  is_u64 m → PEXT (PDEP x m) m = x mod 2 ^ OnesCount 64 m.
Proof.
  intros Hm. pose proof (OnesCount_range m). apply Z.bits_inj'. intros j Hj. rewrite PEXT_testbit by done.
  destruct (ones_below 64 m !! Z.to_nat j) as [p|] eqn:E; simpl.
  - rewrite (PDEP_in m Hm x _ p E), Z2Nat.id by lia. rewrite Z.mod_pow2_bits_low; [done|].
    apply lookup_lt_Some in E. unfold OnesCount, len. lia.
  - apply ones_lookup_None in E; [|done]. by rewrite Z.mod_pow2_bits_high by lia.
Qed.
Lemma pext_pdep_witness :
  is_u64 0x0f0f0f0f0f0f0f0f ∧ PEXT (PDEP 0x12345678 0x0f0f0f0f0f0f0f0f) 0x0f0f0f0f0f0f0f0f = 0x12345678.
Proof. split; [done|]. rewrite pext_pdep by done. vm_compute. reflexivity. Defined.

(** PDEP undoes PEXT: depositing at a 64-bit mask what was extracted there
    keeps exactly the masked bits of the word; in particular both bit loops
    stop within 64 rounds. *)
Theorem pdep_pext (x m : Z) :
  is_u64 m →
  PDEP (PEXT x m) m = Z.land x m ∧
  is_Some (pdepLoop 64 x 1 m 0) ∧ is_Some (pextLoop 64 x 1 m 0).
Proof.
  intros Hm. split; [|by rewrite pdepLoop_enough, pextLoop_enough].
  apply Z.bits_inj'. intros i Hi. rewrite Z.land_spec.
  destruct (Z.testbit m i) eqn:E; [|by rewrite PDEP_out, andb_false_r].
  assert (i < 64). { destruct (Z.lt_ge_cases i 64); [done|]. by rewrite (in_width_high 64) in E. }
  destruct (ones_bit_lookup m i) as [j Hj]; [done..|].
  rewrite (PDEP_in m Hm _ j i Hj), PEXT_testbit, Nat2Z.id, Hj by (done || lia).
  by rewrite andb_true_r.
Qed.
Lemma pdep_pext_witness :
  is_u64 0xff00 ∧ PDEP (PEXT 0x1234 0xff00) 0xff00 = 0x1200.
Proof. split; [done|]. rewrite (proj1 (pdep_pext 0x1234 0xff00 ltac:(done))). vm_compute. reflexivity. Defined.

(** From here on the two routines are used through the lemmas above;
    [vm_compute] still evaluates them. *)
#[global] Opaque PDEP PEXT.
