(* ===== verification/Messages.v ===== *)
(** * pkg/appctl/appctlpb: the traffic pattern messages

    The protobuf messages that configure the shape of the traffic.  A pointer
    field is an [option]; a pointer to a message is an [option] of its record;
    enumerations are their int32 numbers (an unknown number is representable,
    as it is in Go). *)
From S2P Require Import Prelude.

Definition NONCE_TYPE_RANDOM : Z := 0.
Definition NONCE_TYPE_PRINTABLE : Z := 1.
Definition NONCE_TYPE_PRINTABLE_SUBSET : Z := 2.
Definition NONCE_TYPE_FIXED : Z := 3.

Definition LOW_ENTROPY_MODE_OFF : Z := 0.
Definition LOW_ENTROPY_MODE_32 : Z := 1.
Definition LOW_ENTROPY_MODE_40 : Z := 2.
Definition LOW_ENTROPY_MODE_48 : Z := 3.
Definition LOW_ENTROPY_MODE_56 : Z := 4.

Definition LOW_ENTROPY_MASK_NO_ROTATION : Z := 0.
Definition LOW_ENTROPY_MASK_ROTATE_RIGHT_1 : Z := 1.
Definition LOW_ENTROPY_MASK_ROTATE_RIGHT_15 : Z := 15.
Definition LOW_ENTROPY_MASK_ROTATE_LEFT_1 : Z := 16.
Definition LOW_ENTROPY_MASK_ROTATE_LEFT_15 : Z := 240.

(** The keys of the generated maps [LowEntropyMode_name] and
    [LowEntropyMaskRotation_name]. *)
Definition LowEntropyMode_name : list Z := [0; 1; 2; 3; 4].
Definition LowEntropyMaskRotation_name : list Z :=
  seqZ 0 16 ++ ((λ i, 16 * i) <$> seqZ 1 15).

Record TCPFragment := mkTCPFragment {
  Enable : option bool;
  MaxSleepMs : option Z
}.
Record NoncePattern := mkNoncePattern {
  NType : option Z;
  ApplyToAllUDPPacket : option bool;
  MinLen : option Z;
  MaxLen : option Z;
  CustomHexStrings : list string
}.
Record PaddingPattern := mkPaddingPattern {
  MaxMiddlePaddingLen : option Z;
  MaxEndPaddingLen : option Z
}.
Record LowEntropyPattern := mkLowEntropyPattern {
  Mode : option Z;
  MaskRotation : option Z
}.
Record TrafficPattern := mkTrafficPattern {
  Seed : option Z;
  UnlockAll : option bool;
  TcpFragment : option TCPFragment;
  Nonce : option NoncePattern;
  Padding : option PaddingPattern;
  LowEntropy : option LowEntropyPattern
}.

(** Getters: the zero value for a nil message or an unset field. *)
Definition GetEnable (x : option TCPFragment) : bool := default false (x ≫= Enable).
Definition GetMaxSleepMs (x : option TCPFragment) : Z := default 0 (x ≫= MaxSleepMs).
Definition GetType (x : option NoncePattern) : Z := default NONCE_TYPE_RANDOM (x ≫= NType).
Definition GetApplyToAllUDPPacket (x : option NoncePattern) : bool :=
  default false (x ≫= ApplyToAllUDPPacket).
Definition GetMinLen (x : option NoncePattern) : Z := default 0 (x ≫= MinLen).
Definition GetMaxLen (x : option NoncePattern) : Z := default 0 (x ≫= MaxLen).
Definition GetCustomHexStrings (x : option NoncePattern) : list string :=
  from_option CustomHexStrings [] x.
Definition GetMaxMiddlePaddingLen (x : option PaddingPattern) : Z := default 0 (x ≫= MaxMiddlePaddingLen).
Definition GetMaxEndPaddingLen (x : option PaddingPattern) : Z := default 0 (x ≫= MaxEndPaddingLen).
Definition GetMode (x : option LowEntropyPattern) : Z := default LOW_ENTROPY_MODE_OFF (x ≫= Mode).
Definition GetMaskRotation (x : option LowEntropyPattern) : Z :=
  default LOW_ENTROPY_MASK_NO_ROTATION (x ≫= MaskRotation).
Definition GetSeed (x : option TrafficPattern) : Z := default 0 (x ≫= Seed).
Definition GetUnlockAll (x : option TrafficPattern) : bool := default false (x ≫= UnlockAll).
Definition GetTcpFragment (x : option TrafficPattern) : option TCPFragment := x ≫= TcpFragment.
Definition GetNonce (x : option TrafficPattern) : option NoncePattern := x ≫= Nonce.
Definition GetPadding (x : option TrafficPattern) : option PaddingPattern := x ≫= Padding.
Definition GetLowEntropy (x : option TrafficPattern) : option LowEntropyPattern := x ≫= LowEntropy.
