(* ===== verification/LowEntropy.v ===== *)
(** * pkg/protocol/low_entropy.go: the low entropy payload codec

    A ciphertext body is cut into chunks of 4 to 7 bytes; each chunk is
    deposited into the one-bits of a 64-bit mask (rotated from chunk to chunk)
    and every other bit is one uniform padding bit.  The decoder checks that the
    padding is uniform and extracts the body.

    Theorems: the decoder inverts the encoder for either padding polarity; what
    the decoder accepts is exactly what the encoder produces (no second wire
    image of the same body and mask); the encoded length is the documented one. *)
From S2P Require Import Prelude MathExt Messages.

Definition lowEntropyChunkLen : Z := 8.
Definition MaxUint16 : Z := 65535.

Record lowEntropyModeParams := mkParams { sourceBytesPerChunk : Z; halfMaskOnes : Z }.

Definition extractLowEntropyConfig (pattern : option TrafficPattern) : Z * Z * bool :=
  match pattern ≫= LowEntropy with
  | None => (LOW_ENTROPY_MODE_OFF, LOW_ENTROPY_MASK_NO_ROTATION, false)
  | Some le =>
    let mode := GetMode (Some le) in
    if mode =? LOW_ENTROPY_MODE_OFF then (mode, LOW_ENTROPY_MASK_NO_ROTATION, false)
    else (mode, GetMaskRotation (Some le), true)
  end.

Definition buildLowEntropyParams (mode : Z) : result lowEntropyModeParams :=
  if mode =? LOW_ENTROPY_MODE_32 then Ok (mkParams 4 16)
  else if mode =? LOW_ENTROPY_MODE_40 then Ok (mkParams 5 20)
  else if mode =? LOW_ENTROPY_MODE_48 then Ok (mkParams 6 24)
  else if mode =? LOW_ENTROPY_MODE_56 then Ok (mkParams 7 28)
  else Err (Errorf "invalid low entropy mode").

Definition lowEntropyEncodedPayloadLen (extractedPayloadLen mode : Z) : result Z :=
  params ← buildLowEntropyParams mode;
  if extractedPayloadLen <=? 0 then Err (Errorf "invalid extracted payload length") else
  let chunkCount := extractedPayloadLen `quot` sourceBytesPerChunk params in
  let chunkCount :=
    if extractedPayloadLen `rem` sourceBytesPerChunk params =? 0 then chunkCount else chunkCount + 1 in
  if chunkCount >? MaxUint16 `quot` lowEntropyChunkLen
  then Err (Errorf "encoded payload length exceeds MaxUint16")
  else Ok (u16 (chunkCount * lowEntropyChunkLen)).

Definition isValidLowEntropyRotation (rotation : Z) : bool :=
  (rotation =? LOW_ENTROPY_MASK_NO_ROTATION)
  || ((rotation >=? LOW_ENTROPY_MASK_ROTATE_RIGHT_1) && (rotation <=? LOW_ENTROPY_MASK_ROTATE_RIGHT_15))
  || ((rotation >=? LOW_ENTROPY_MASK_ROTATE_LEFT_1) && (rotation <=? LOW_ENTROPY_MASK_ROTATE_LEFT_15)
      && (rotation `rem` 16 =? 0)).

(** math/bits.RotateLeft64: the shift count is taken modulo 64. *)
Definition RotateLeft64 (x k : Z) : Z :=
  let s := k mod 64 in Z.lor (u64 (Z.shiftl x s)) (Z.shiftr x (64 - s)).

Definition rotateLowEntropyMask (initialMask rotation chunkIndex : Z) : Z :=
  if (rotation =? LOW_ENTROPY_MASK_NO_ROTATION) || (chunkIndex =? 0) then initialMask
  else if rotation <=? LOW_ENTROPY_MASK_ROTATE_RIGHT_15
  then RotateLeft64 initialMask (- ((chunkIndex `rem` 64) * rotation))
  else RotateLeft64 initialMask ((chunkIndex `rem` 64) * (rotation `quot` 16)).

Definition lowEntropyChunkMask (initialMask rotation chunkIndex : Z) : result Z :=
  if negb (isValidLowEntropyRotation rotation) then Err (Errorf "invalid low entropy mask rotation")
  else if chunkIndex <? 0 then Err (Errorf "invalid low entropy chunk index")
  else Ok (rotateLowEntropyMask initialMask rotation chunkIndex).

Definition validateLowEntropyCodecParams (mode halfMask rotation : Z) : result lowEntropyModeParams :=
  params ← buildLowEntropyParams mode;
  if negb (OnesCount 32 halfMask =? halfMaskOnes params) then Err (Errorf "low entropy mask one-bits")
  else if negb (isValidLowEntropyRotation rotation) then Err (Errorf "invalid low entropy mask rotation")
  else Ok params.

Definition lowBits (n : Z) : Z := if n >=? 64 then 2 ^ 64 - 1 else u64 (Z.shiftl 1 n - 1).

(** [^x] on uint64. *)
Definition not64 (x : Z) : Z := u64 (Z.lnot x).

(** [scratch[8-n:] = part; Uint64(scratch)]. *)
Definition scratchUint64 (part : list Z) : Z :=
  be_get (copy_at (Z.to_nat (lowEntropyChunkLen - len part)) part (replicate 8 0)).

(** The encoding loop.  Every round consumes at least one byte, so [length src]
    rounds are enough; [PutUint64] panics if fewer than 8 bytes are left. *)
Fixpoint encodeLoop (fuel : nat) (spc initialMask rotation paddingBit : Z)
    (src encoded : list Z) (chunkIndex srcOffset : Z) : result (list Z) :=
  if negb (srcOffset <? len src) then Ok encoded else
  match fuel with
  | O => Panic "out of fuel"
  | S fuel =>
    let remaining := len src - srcOffset in
    let sourceLen := if remaining <? spc then remaining else spc in
    let source := scratchUint64 (slice srcOffset (srcOffset + sourceLen) src) in
    let chunkMask := rotateLowEntropyMask initialMask rotation chunkIndex in
    let dataMask := PDEP (lowBits (sourceLen * 8)) chunkMask in
    let chunk := PDEP source chunkMask in
    let chunk := if paddingBit =? 1 then Z.lor chunk (not64 dataMask) else chunk in
    let off := chunkIndex * lowEntropyChunkLen in
    if len encoded <? off + 8 then Panic "index out of range" else
    encodeLoop fuel spc initialMask rotation paddingBit src
      (copy_at (Z.to_nat off) (be_put 8 chunk) encoded) (chunkIndex + 1) (srcOffset + spc)
  end.

Definition encodeLowEntropyPayloadWithPaddingBit (src : list Z) (mode halfMask rotation paddingBit : Z)
    : result (list Z) :=
  params ← validateLowEntropyCodecParams mode halfMask rotation;
  if paddingBit >? 1 then Err (Errorf "invalid low entropy padding bit") else
  encodedLen ← lowEntropyEncodedPayloadLen (len src) mode;
  let encoded := replicate (Z.to_nat encodedLen) 0 in
  let initialMask := RepeatUint32 halfMask in
  encodeLoop (length src) (sourceBytesPerChunk params) initialMask rotation paddingBit src encoded 0 0.

(** The production wrapper; [lowEntropyPaddingBit] is the package variable
    [uint8(rng.FixedIntVH(2))], fixed at start-up. *)
Definition encodeLowEntropyPayload (lowEntropyPaddingBit : Z) (src : list Z) (mode halfMask rotation : Z) :=
  encodeLowEntropyPayloadWithPaddingBit src mode halfMask rotation lowEntropyPaddingBit.

(** The padding polarity after a chunk: inferred from the first one, required
    to stay the same in the others. *)
Definition inferPadding (chunkIndex paddingBit padding paddingMask : Z) : result Z :=
  if chunkIndex =? 0 then
    if padding =? 0 then Ok 0
    else if padding =? paddingMask then Ok 1
    else Err (Errorf "low entropy chunk has mixed padding bits")
  else if ((paddingBit =? 0) && negb (padding =? 0))
          || ((paddingBit =? 1) && negb (padding =? paddingMask))
  then Err (Errorf "low entropy chunk has non-uniform padding bits")
  else Ok paddingBit.

Fixpoint decodeLoop (fuel : nat) (spc initialMask rotation extractedPayloadLen : Z)
    (encoded decoded : list Z) (paddingBit chunkIndex dstOffset : Z) : result (list Z) :=
  if negb (dstOffset <? extractedPayloadLen) then Ok decoded else
  match fuel with
  | O => Panic "out of fuel"
  | S fuel =>
    let remaining := extractedPayloadLen - dstOffset in
    let sourceLen := if remaining <? spc then remaining else spc in
    let off := chunkIndex * lowEntropyChunkLen in
    if len encoded <? off + 8 then Panic "index out of range" else
    let chunk := be_get (slice off (off + 8) encoded) in
    let chunkMask := rotateLowEntropyMask initialMask rotation chunkIndex in
    let dataMask := PDEP (lowBits (sourceLen * 8)) chunkMask in
    let paddingMask := not64 dataMask in
    let padding := Z.land chunk paddingMask in
    paddingBit ← inferPadding chunkIndex paddingBit padding paddingMask;
    let source := PEXT chunk chunkMask in
    let scratch := be_put 8 source in
    decodeLoop fuel spc initialMask rotation extractedPayloadLen encoded
      (copy_at (Z.to_nat dstOffset)
         (slice_to sourceLen (slice_from (lowEntropyChunkLen - sourceLen) scratch)) decoded)
      paddingBit (chunkIndex + 1) (dstOffset + spc)
  end.

Definition decodeLowEntropyPayload (encoded : list Z) (extractedPayloadLen mode halfMask rotation : Z)
    : result (list Z) :=
  params ← validateLowEntropyCodecParams mode halfMask rotation;
  expectedEncodedLen ← lowEntropyEncodedPayloadLen extractedPayloadLen mode;
  if negb (len encoded =? expectedEncodedLen) then Err (Errorf "encoded payload length") else
  let decoded := replicate (Z.to_nat extractedPayloadLen) 0 in
  let initialMask := RepeatUint32 halfMask in
  decodeLoop (Z.to_nat extractedPayloadLen) (sourceBytesPerChunk params) initialMask rotation
    extractedPayloadLen encoded decoded 0 0 0.

(** The example of docs/protocol.md. *)
Example doc_example_0 :
  encodeLowEntropyPayloadWithPaddingBit [0x12; 0x34; 0x56; 0x78] 1 0x0f0f0f0f 0 0
  = Ok [1; 2; 3; 4; 5; 6; 7; 8].
Proof. vm_compute. reflexivity. Qed.
Example doc_example_1 :
  encodeLowEntropyPayloadWithPaddingBit [0x12; 0x34; 0x56; 0x78] 1 0x0f0f0f0f 0 1
  = Ok [0xf1; 0xf2; 0xf3; 0xf4; 0xf5; 0xf6; 0xf7; 0xf8].
Proof. vm_compute. reflexivity. Qed.

(** ** Masks and their rotations *)

Lemma not64_testbit x i : 0 <= i → Z.testbit (not64 x) i = (i <? 64) && negb (Z.testbit x i).
Proof. intros. unfold not64. by rewrite wrap_testbit, Z.lnot_spec by lia. Qed.

Lemma lowBits_testbit n i : 0 <= n <= 64 → 0 <= i → Z.testbit (lowBits n) i = (i <? n).
Proof.
  intros. unfold lowBits. destruct (Z.geb_spec n 64).
  - replace n with 64 by lia. change (2 ^ 64 - 1) with (Z.ones 64).
    rewrite Z.testbit_ones by lia. by destruct (Z.leb_spec 0 i); [|lia].
  - rewrite Z.shiftl_1_l. change (2 ^ n - 1) with (Z.pred (2 ^ n)). rewrite <-Z.ones_equiv.
    rewrite wrap_testbit, Z.testbit_ones by lia.
    destruct (Z.leb_spec 0 i); [|lia]. destruct (Z.ltb_spec i 64), (Z.ltb_spec i n); simpl; lia || done.
Qed.

Lemma RotateLeft64_testbit x k i :
  is_u64 x → 0 <= i < 64 → Z.testbit (RotateLeft64 x k) i = Z.testbit x ((i - k) mod 64).
Proof.
  intros Hx Hi. unfold RotateLeft64. pose proof (Z.mod_pos_bound k 64 ltac:(lia)) as Hs.
  rewrite <-(Zminus_mod_idemp_r i k 64). set (s := k mod 64) in *.
  rewrite Z.lor_spec, wrap_testbit, Z.shiftl_spec, Z.shiftr_spec by lia.
  destruct (Z.ltb_spec i 64); [simpl|lia]. destruct (Z.lt_ge_cases i s).
  - rewrite Z.testbit_neg_r by lia. simpl. f_equal.
    rewrite <-(Z.mod_add _ 1) by lia. rewrite Z.mod_small; lia.
  - rewrite (in_width_high 64 ltac:(lia) x (i + (64 - s))), orb_false_r by (done || lia).
    by rewrite Z.mod_small by lia.
Qed.

Lemma RotateLeft64_u64 x k : is_u64 x → is_u64 (RotateLeft64 x k).
Proof.
  intros Hx. unfold RotateLeft64. pose proof (Z.mod_pos_bound k 64 ltac:(lia)).
  pose proof (wrap_in_width 64 ltac:(lia) (Z.shiftl x (k mod 64))) as Hw.
  apply in_width_bits; [lia| |].
  - apply Z.lor_nonneg. split; [apply Hw|apply Z.shiftr_nonneg, Hx].
  - intros i Hi. rewrite Z.lor_spec, (in_width_high 64 ltac:(lia) _ i Hw) by lia.
    rewrite Z.shiftr_spec by lia. apply (in_width_high 64); [lia|done|lia].
Qed.

Lemma OnesCount_rotate x k : is_u64 x → OnesCount 64 (RotateLeft64 x k) = OnesCount 64 x.
Proof.
  intros Hx. unfold OnesCount, len. f_equal.
  rewrite <-(length_fmap (λ p, (p + k) mod 64) (ones_below 64 x)).
  apply Permutation_length, NoDup_Permutation.
  - apply sorted_lt_NoDup, ones_below_positions.
  - apply NoDup_fmap_2_strong; [|apply sorted_lt_NoDup, ones_below_positions].
    intros p q [_ Hp%elem_of_seqZ]%list_elem_of_filter [_ Hq%elem_of_seqZ]%list_elem_of_filter Heq.
    apply (f_equal (λ z, (z - k) mod 64)) in Heq. rewrite !Zminus_mod_idemp_l in Heq.
    replace (p + k - k) with p in Heq by lia. replace (q + k - k) with q in Heq by lia.
    rewrite !Z.mod_small in Heq by lia. done.
  - intros i. unfold ones_below. rewrite list_elem_of_fmap, list_elem_of_filter, elem_of_seqZ. split.
    + intros [Hb Hi]. rewrite RotateLeft64_testbit in Hb by (done || lia).
      exists ((i - k) mod 64). rewrite list_elem_of_filter, elem_of_seqZ.
      pose proof (Z.mod_pos_bound (i - k) 64 ltac:(lia)).
      split_and!; [|done|lia..]. rewrite Zplus_mod_idemp_l.
      replace (i - k + k) with i by lia. by rewrite Z.mod_small by lia.
    + intros (p & -> & [Hb Hp%elem_of_seqZ]%list_elem_of_filter).
      pose proof (Z.mod_pos_bound (p + k) 64 ltac:(lia)).
      rewrite RotateLeft64_testbit by (done || lia). rewrite Zminus_mod_idemp_l.
      replace (p + k - k) with p by lia. rewrite Z.mod_small by lia. split; [done|lia].
Qed.

Lemma RepeatUint32_u64 v : is_u32 v → is_u64 (RepeatUint32 v).
Proof.
  intros Hv. unfold RepeatUint32.
  pose proof (wrap_in_width 64 ltac:(lia) (Z.shiftl v 32)) as Hw. unfold in_width in Hv.
  apply in_width_bits; [lia|apply Z.lor_nonneg; split; [apply Hw|lia]|].
  intros i Hi. rewrite Z.lor_spec, (in_width_high 64 ltac:(lia) _ i Hw) by lia.
  by rewrite (in_width_high 32 ltac:(lia) v) by (done || lia).
Qed.

Lemma RepeatUint32_testbit v i :
  is_u32 v → 0 <= i < 64 → Z.testbit (RepeatUint32 v) i = Z.testbit v (i mod 32).
Proof.
  intros Hv Hi. unfold RepeatUint32. rewrite Z.lor_spec, wrap_testbit, Z.shiftl_spec by lia.
  destruct (Z.ltb_spec i 64); [simpl|lia]. destruct (Z.lt_ge_cases i 32).
  - by rewrite Z.testbit_neg_r, Z.mod_small by lia.
  - rewrite (in_width_high 32 ltac:(lia) v i), orb_false_r by (done || lia).
    f_equal. rewrite <-(Z.mod_add i (-1)) by lia. by rewrite Z.mod_small by lia.
Qed.

Lemma len_filter_shift (P Q : Z → Prop) `{∀ i, Decision (P i), ∀ i, Decision (Q i)} o m n :
  (∀ i, m <= i < m + Z.of_nat n → P (o + i) ↔ Q i) →
  len (filter P (seqZ (o + m) (Z.of_nat n))) = len (filter Q (seqZ m (Z.of_nat n))).
Proof.
  revert m. induction n as [|n IH]; intros m HPQ; [done|].
  rewrite !(seqZ_cons _ (Z.of_nat (S n))), !filter_cons by lia.
  replace (Z.pred (Z.of_nat (S n))) with (Z.of_nat n) by lia.
  replace (Z.succ (o + m)) with (o + Z.succ m) by lia.
  specialize (IH (Z.succ m) ltac:(intros; apply HPQ; lia)).
  pose proof (HPQ m ltac:(lia)). repeat case_decide; rewrite ?len_cons, IH; tauto || lia.
Qed.

Lemma OnesCount_repeat v : is_u32 v → OnesCount 64 (RepeatUint32 v) = 2 * OnesCount 32 v.
Proof.
  intros Hv. unfold OnesCount, ones_below. change (Z.of_nat 64) with (Z.of_nat 32 + Z.of_nat 32).
  rewrite seqZ_app, filter_app, len_app by lia.
  set (P := λ i, Z.testbit (RepeatUint32 v) i = true). set (Q := λ i, Z.testbit v i = true).
  assert (len (filter P (seqZ (0 + 0) (Z.of_nat 32))) = len (filter Q (seqZ 0 (Z.of_nat 32)))) as Hlo.
  { apply len_filter_shift. intros i Hi. unfold P, Q.
    by rewrite Z.add_0_l, RepeatUint32_testbit, Z.mod_small by (done || lia). }
  assert (len (filter P (seqZ (32 + 0) (Z.of_nat 32))) = len (filter Q (seqZ 0 (Z.of_nat 32)))) as Hhi.
  { apply len_filter_shift. intros i Hi. unfold P, Q.
    rewrite RepeatUint32_testbit by (done || lia).
    by rewrite Z.add_comm, <-(Z.mul_1_l 32), Z.mod_add, Z.mod_small by lia. }
  change (0 + Z.of_nat 32) with (32 + 0). rewrite Hhi. change (0 + 0) with 0 in Hlo. lia.
Qed.

(** Every chunk mask of a valid codec configuration has as many one-bits as a
    chunk has source bits. *)
Lemma rotate_mask_ok halfMask rotation idx :
  is_u32 halfMask →
  let m := rotateLowEntropyMask (RepeatUint32 halfMask) rotation idx in
  is_u64 m ∧ OnesCount 64 m = 2 * OnesCount 32 halfMask.
Proof.
  intros Hh. pose proof (RepeatUint32_u64 _ Hh). unfold rotateLowEntropyMask.
  repeat case_match; (split; [auto using RotateLeft64_u64|]);
    rewrite ?OnesCount_rotate by done; by apply OnesCount_repeat.
Qed.

(** ** One chunk *)

(** The word the encoder stores for [part] under the chunk mask [cm]. *)
Definition encChunk (cm paddingBit : Z) (part : list Z) : Z :=
  let dataMask := PDEP (lowBits (len part * 8)) cm in
  let chunk := PDEP (be_get part) cm in
  if paddingBit =? 1 then Z.lor chunk (not64 dataMask) else chunk.

(** The part the decoder reads from the word [chunk]. *)
Definition decChunk (cm n chunk : Z) : list Z := be_put (Z.to_nat n) (PEXT chunk cm).

Section chunk.
Context (cm spc : Z) (Hcm : is_u64 cm) (Hones : OnesCount 64 cm = 8 * spc) (Hspc : 0 < spc <= 7).

Definition dataMask (n : Z) : Z := PDEP (lowBits (n * 8)) cm.

Lemma dataMask_bit n i :
  0 <= n <= spc → 0 <= i < 64 → Z.testbit (dataMask n) i = true →
  ∃ j, ones_below 64 cm !! j = Some i ∧ Z.of_nat j < 8 * n.
Proof using Hcm Hspc.
  intros Hn Hi Hb. destruct (Z.testbit cm i) eqn:E.
  2:{ unfold dataMask in Hb. rewrite PDEP_out in Hb; done || lia. }
  destruct (ones_bit_lookup cm i) as [j Hj]; [done..|]. exists j. split; [done|].
  unfold dataMask in Hb. rewrite (PDEP_in cm Hcm _ j i Hj), lowBits_testbit in Hb by lia.
  bool_to_prop. lia.
Qed.

Lemma dataMask_nobit n i x :
  0 <= n <= spc → 0 <= i < 64 → Z.testbit (dataMask n) i = false → in_width (8 * n) x →
  Z.testbit (PDEP x cm) i = false.
Proof using Hcm Hspc.
  intros Hn Hi Hb Hx. destruct (Z.testbit cm i) eqn:E; [|by apply PDEP_out; [|lia|]].
  destruct (ones_bit_lookup cm i) as [j Hj]; [done..|].
  unfold dataMask in Hb. rewrite (PDEP_in cm Hcm _ j i Hj), lowBits_testbit in Hb by lia.
  bool_to_prop. rewrite (PDEP_in cm Hcm _ j i Hj).
  apply (in_width_high (8 * n)); [lia|done|lia].
Qed.

Lemma dataMask_lookup n j :
  0 <= n <= spc → 0 <= j < 8 * n →
  ∃ p, ones_below 64 cm !! Z.to_nat j = Some p ∧ 0 <= p < 64 ∧ Z.testbit (dataMask n) p = true.
Proof using Hcm Hones Hspc.
  intros Hn Hj. destruct (ones_below 64 cm !! Z.to_nat j) as [p|] eqn:E.
  2:{ apply ones_lookup_None in E; lia. }
  exists p. split; [done|]. split; [by apply ones_lookup_bit in E as [??]|].
  unfold dataMask. rewrite (PDEP_in cm Hcm _ _ p E), lowBits_testbit, Z2Nat.id by lia.
  apply Z.ltb_lt. lia.
Qed.

Lemma part_width part : bytes_ok part → in_width (8 * len part) (be_get part).
Proof using.
  intros Hp. pose proof (be_get_bound _ Hp). rewrite pow_256 in * by apply len_nonneg. done.
Qed.

Lemma encChunk_u64 paddingBit part : is_u64 (encChunk cm paddingBit part).
Proof using Hcm.
  unfold encChunk. case_match; [|by apply PDEP_u64].
  apply lor_in_width; [lia|by apply PDEP_u64|]. apply wrap_in_width. lia.
Qed.

(** The padding positions of an encoded chunk carry the padding bit. *)
Lemma encChunk_padding paddingBit part :
  bytes_ok part → len part <= spc →
  Z.land (encChunk cm paddingBit part) (not64 (dataMask (len part))) =
    if paddingBit =? 1 then not64 (dataMask (len part)) else 0.
Proof using Hcm Hspc.
  intros Hp Hl. pose proof (len_nonneg part). pose proof (part_width part Hp) as Hw.
  apply Z.bits_inj'. intros i Hi. rewrite Z.land_spec, not64_testbit by lia.
  destruct (Z.ltb_spec i 64); simpl.
  2:{ rewrite andb_false_r. case_match; [|by rewrite Z.testbit_0_l].
      rewrite not64_testbit by lia. by destruct (Z.ltb_spec i 64); [lia|]. }
  unfold encChunk. fold (dataMask (len part)).
  destruct (Z.testbit (dataMask (len part)) i) eqn:E; simpl; rewrite ?andb_false_r, ?andb_true_r.
  - case_match; [|by rewrite Z.testbit_0_l]. rewrite not64_testbit, E by lia. by rewrite andb_false_r.
  - case_match.
    + rewrite Z.lor_spec, not64_testbit, E by lia. by rewrite (proj2 (Z.ltb_lt i 64)), orb_true_r by lia.
    + rewrite Z.testbit_0_l. by apply (dataMask_nobit (len part)).
Qed.

(** Extraction gives back the part. *)
Lemma decChunk_encChunk paddingBit part :
  bytes_ok part → len part <= spc → decChunk cm (len part) (encChunk cm paddingBit part) = part.
Proof using Hcm Hones Hspc.
  intros Hp Hl. pose proof (len_nonneg part). unfold decChunk.
  rewrite <-(be_put_get part Hp) at 3. unfold len at 1. rewrite Nat2Z.id.
  rewrite <-(be_put_mod _ (length part)) by lia. f_equal. fold (len part).
  pose proof (part_width part Hp) as Hw. rewrite pow_256 by lia.
  apply Z.bits_inj'. intros j Hj. destruct (Z.lt_ge_cases j (8 * len part)).
  2:{ rewrite Z.mod_pow2_bits_high by lia. symmetry. apply (in_width_high (8 * len part)); [lia|done|lia]. }
  rewrite Z.mod_pow2_bits_low, PEXT_testbit by (done || lia).
  destruct (dataMask_lookup (len part) j) as (p & Hj' & Hp64 & Hdm); [lia..|].
  rewrite Hj'. simpl. unfold encChunk. fold (dataMask (len part)).
  assert (Z.testbit (PDEP (be_get part) cm) p = Z.testbit (be_get part) j) as Hbit.
  { rewrite (PDEP_in cm Hcm _ _ p Hj'). f_equal. lia. }
  case_match; [|done]. rewrite Z.lor_spec, not64_testbit, Hdm, Hbit, andb_false_r by lia.
  by rewrite orb_false_r.
Qed.

(** Conversely, a word with uniform padding is the encoding of what is
    extracted from it. *)
Lemma encChunk_decChunk paddingBit n chunk :
  is_u64 chunk → 0 <= n <= spc → (paddingBit = 0 ∨ paddingBit = 1) →
  Z.land chunk (not64 (dataMask n)) = (if paddingBit =? 1 then not64 (dataMask n) else 0) →
  encChunk cm paddingBit (decChunk cm n chunk) = chunk.
Proof using Hcm Hspc.
  intros Hc Hn Hpad Hland. unfold encChunk, decChunk.
  assert (len (be_put (Z.to_nat n) (PEXT chunk cm)) = n) as Hlen
    by (unfold len; rewrite be_put_length; lia).
  rewrite Hlen. fold (dataMask n).
  rewrite be_get_put, Z2Nat.id, pow_256 by lia.
  apply Z.bits_inj'. intros i Hi.
  apply (f_equal (λ z, Z.testbit z i)) in Hland. rewrite Z.land_spec, not64_testbit in Hland by lia.
  destruct (Z.lt_ge_cases i 64) as [Hi64|Hi64].
  2:{ rewrite (in_width_high 64 ltac:(lia) chunk) by (done || lia).
      pose proof (PDEP_u64 cm Hcm (PEXT chunk cm mod 2 ^ (8 * n))) as Hpd.
      case_match; rewrite ?Z.lor_spec, ?not64_testbit, (in_width_high 64 ltac:(lia) _ i Hpd) by lia; [|done].
      by destruct (Z.ltb_spec i 64); [lia|]. }
  rewrite (proj2 (Z.ltb_lt i 64)) in Hland by lia. simpl in Hland.
  destruct (Z.testbit (dataMask n) i) eqn:E.
  - destruct (dataMask_bit n i) as (j & Hj & Hjn); [done..|].
    assert (Z.testbit (PDEP (PEXT chunk cm mod 2 ^ (8 * n)) cm) i = Z.testbit chunk i) as Hbit.
    { rewrite (PDEP_in cm Hcm _ j i Hj), Z.mod_pow2_bits_low, PEXT_testbit, Nat2Z.id, Hj by (done || lia).
      done. }
    case_match; rewrite ?Z.lor_spec, ?not64_testbit, Hbit, ?E by lia; [|done].
    by rewrite andb_false_r, orb_false_r.
  - simpl in Hland. rewrite andb_true_r in Hland.
    assert (Z.testbit (PDEP (PEXT chunk cm mod 2 ^ (8 * n)) cm) i = false) as Hbit.
    { apply (dataMask_nobit n); [lia..|done|]. apply Z.mod_pos_bound, Z.pow_pos_nonneg; lia. }
    destruct Hpad as [-> | ->]; simpl in *.
    + by rewrite Hbit, Hland, Z.testbit_0_l.
    + rewrite Z.lor_spec, Hbit, Hland. done.
Qed.
End chunk.

(** ** The loops *)

(** The encoder without its buffer: the chunks of [rest], from index [idx]. *)
Fixpoint encRef (fuel : nat) (spc im rotation paddingBit : Z) (rest : list Z) (idx : Z) : list Z :=
  match fuel with
  | O => []
  | S fuel =>
    match rest with
    | [] => []
    | _ => be_put 8 (encChunk (rotateLowEntropyMask im rotation idx) paddingBit (slice_to spc rest))
           ++ encRef fuel spc im rotation paddingBit (slice_from spc rest) (idx + 1)
    end
  end.

(** Number of chunks of [n] bytes. *)
Definition chunkCount (spc n : Z) : Z := (n + spc - 1) / spc.

Lemma chunkCount_step spc n :
  0 < spc → 0 < n → chunkCount spc n = 1 + chunkCount spc (Z.max 0 (n - spc)).
Proof.
  intros. unfold chunkCount. destruct (Z.le_gt_cases spc n).
  - rewrite Z.max_r by lia. rewrite <-(Z.div_add_l 1 spc) by lia. f_equal. lia.
  - rewrite Z.max_l by lia. rewrite (Z.div_small (0 + spc - 1)) by lia.
    symmetry. apply Z.div_unique with (n - 1); lia.
Qed.

Lemma chunkCount_ge spc n : 0 < spc <= 8 → 0 <= n → n <= 8 * chunkCount spc n.
Proof.
  intros Hs Hn. unfold chunkCount. pose proof (Z.div_mod (n + spc - 1) spc ltac:(lia)).
  pose proof (Z.mod_pos_bound (n + spc - 1) spc ltac:(lia)). pose proof (Z.div_pos (n + spc - 1) spc ltac:(lia) ltac:(lia)). nia.
Qed.
Lemma chunkCount_nonneg spc n : 0 < spc → 0 <= n → 0 <= chunkCount spc n.
Proof. intros. apply Z.div_pos; lia. Qed.

Lemma len_encRef fuel spc im rotation paddingBit rest idx :
  0 < spc → (length rest <= fuel)%nat →
  len (encRef fuel spc im rotation paddingBit rest idx) = 8 * chunkCount spc (len rest).
Proof.
  intros Hs. revert rest idx. induction fuel as [|fuel IH]; intros rest idx Hf.
  { destruct rest; [|simpl in Hf; lia]. unfold chunkCount, len. simpl. rewrite Z.div_small; lia. }
  destruct rest as [|b rest]; [unfold chunkCount, len; simpl; rewrite Z.div_small; lia|].
  cbn [encRef]. rewrite len_app, IH.
  2:{ unfold slice_from. rewrite length_drop. simpl in *. lia. }
  rewrite (chunkCount_step spc (len (b :: rest))) by (rewrite ?len_cons; pose proof (len_nonneg rest); lia).
  unfold slice_from. rewrite len_drop, Z2Nat.id by lia. unfold len at 1. rewrite be_put_length. lia.
Qed.

Lemma scratchUint64_be_get part : len part <= 8 → scratchUint64 part = be_get part.
Proof.
  unfold len. intros. unfold scratchUint64, copy_at, lowEntropyChunkLen, len.
  rewrite length_replicate, take_replicate. rewrite firstn_all2, drop_ge, app_nil_r.
  - apply be_get_zeros.
  - rewrite length_replicate. lia.
  - lia.
Qed.

Lemma slice_prefix_take {A} (off n : Z) (l : list A) :
  0 <= off → 0 <= n → slice off (off + n) l = slice_to n (slice_from off l).
Proof. intros. unfold slice, slice_to, slice_from. do 2 f_equal. lia. Qed.

Section loops.
Context (halfMask rotation spc : Z) (Hh : is_u32 halfMask)
  (Hones : OnesCount 32 halfMask = 4 * spc) (Hspc : 0 < spc <= 7).
Abbreviation im := (RepeatUint32 halfMask).
Abbreviation cm idx := (rotateLowEntropyMask im rotation idx).

Lemma chunk_mask idx : is_u64 (cm idx) ∧ OnesCount 64 (cm idx) = 8 * spc.
Proof using Hh Hones. destruct (rotate_mask_ok halfMask rotation idx Hh). split; [done|lia]. Qed.

(** What is left of [src] at chunk [idx]. *)
Definition restAt (src : list Z) (idx : Z) : list Z := slice_from (idx * spc) src.

Lemma restAt_next src idx : 0 <= idx → restAt src (idx + 1) = slice_from spc (restAt src idx).
Proof using Hspc. intros. unfold restAt. rewrite slice_from_slice_from by lia. f_equal. lia. Qed.

Lemma len_restAt src idx : 0 <= idx → len (restAt src idx) = Z.max 0 (len src - idx * spc).
Proof using Hspc. intros. unfold restAt, slice_from. rewrite len_drop. lia. Qed.

Lemma chunkCount_0 : chunkCount spc 0 = 0.
Proof using Hspc. apply Z.div_small. lia. Qed.

(** The part taken from a non-empty rest, however the code computes its length. *)
Lemma part_at src idx :
  0 <= idx → idx * spc < len src →
  let n := if len src - idx * spc <? spc then len src - idx * spc else spc in
  slice (idx * spc) (idx * spc + n) src = slice_to spc (restAt src idx) ∧
  len (slice_to spc (restAt src idx)) = n ∧ 0 < n <= spc ∧ n = Z.min spc (len (restAt src idx)).
Proof using Hspc.
  intros Hi Hlt n. pose proof (len_restAt src idx Hi).
  assert (n = Z.min spc (len (restAt src idx))) as Hn by (unfold n; case_tests; lia).
  split_and!; [|unfold slice_to; rewrite len_take; lia|lia..].
  rewrite slice_prefix_take by lia. fold (restAt src idx). unfold slice_to.
  destruct (Z.le_gt_cases spc (len (restAt src idx))); [by replace n with spc by lia|].
  rewrite !firstn_all2; unfold len in *; done || lia.
Qed.

Lemma encodeLoop_step fuel paddingBit src pre buf idx :
  0 <= idx → length pre = Z.to_nat (8 * idx) → idx * spc < len src → 8 <= len buf →
  encodeLoop (S fuel) spc im rotation paddingBit src (pre ++ buf) idx (idx * spc) =
  encodeLoop fuel spc im rotation paddingBit src
    ((pre ++ be_put 8 (encChunk (cm idx) paddingBit (slice_to spc (restAt src idx)))) ++ drop 8 buf)
    (idx + 1) ((idx + 1) * spc).
Proof using Hspc.
  intros Hi Hpre Hlt Hbuf. destruct (part_at src idx Hi Hlt) as (Hpart & Hlen & Hn & _).
  cbn [encodeLoop]. rewrite (proj2 (Z.ltb_lt _ _) Hlt). simpl. rewrite Hpart, scratchUint64_be_get by lia.
  rewrite len_app. unfold lowEntropyChunkLen.
  destruct (Z.ltb_spec (len pre + len buf) (idx * 8 + 8)) as [Hbad|_]; [unfold len in Hbad at 1; lia|].
  rewrite (Z.mul_comm idx 8), <-Hpre, copy_at_app by (rewrite be_put_length; unfold len in *; lia).
  rewrite be_put_length, app_assoc. unfold encChunk. rewrite Hlen.
  by replace (idx * spc + spc) with ((idx + 1) * spc) by lia.
Qed.

Lemma encodeLoop_spec fuel paddingBit src pre buf idx :
  0 <= idx → length pre = Z.to_nat (8 * idx) → (length (restAt src idx) <= fuel)%nat →
  len buf = 8 * chunkCount spc (len (restAt src idx)) →
  encodeLoop fuel spc im rotation paddingBit src (pre ++ buf) idx (idx * spc)
  = Ok (pre ++ encRef fuel spc im rotation paddingBit (restAt src idx) idx).
Proof using Hspc.
  revert pre buf idx. induction fuel as [|fuel IH]; intros pre buf idx Hi Hpre Hf Hbuf;
    pose proof (len_restAt src idx Hi) as Hlr;
    (destruct (Z.lt_ge_cases (idx * spc) (len src)) as [Hlt|Hge];
     [|assert (restAt src idx = []) as Hr by (apply len_zero; lia); rewrite Hr in *;
       rewrite len_nil, chunkCount_0 in Hbuf; apply len_zero in Hbuf; rewrite Hbuf;
       simpl; by rewrite (proj2 (Z.ltb_ge _ _) Hge)]).
  { unfold len in *. lia. }
  rewrite chunkCount_step in Hbuf by lia.
  pose proof (chunkCount_nonneg spc (Z.max 0 (len (restAt src idx) - spc)) ltac:(lia) ltac:(lia)).
  rewrite encodeLoop_step by (done || lia).
  assert (Hlen8 : ∀ c, length (pre ++ be_put 8 c) = Z.to_nat (8 * (idx + 1)))
    by (intros; rewrite length_app, be_put_length; lia).
  rewrite IH; rewrite ?restAt_next, <-?app_assoc by lia; unfold slice_from; [|lia|apply Hlen8|..].
  - destruct (restAt src idx) eqn:E; [rewrite len_nil in *; lia|done].
  - rewrite length_drop. unfold len in *. lia.
  - rewrite !len_drop, Z2Nat.id by lia. lia.
Qed.

Lemma decodeLoop_step fuel N pre w tail preD bufD pad idx :
  0 <= idx → length pre = Z.to_nat (8 * idx) → length w = 8%nat → idx * spc < N →
  length preD = Z.to_nat (idx * spc) → len bufD = N - idx * spc →
  let n := if N - idx * spc <? spc then N - idx * spc else spc in
  let pm := not64 (dataMask (cm idx) n) in
  decodeLoop (S fuel) spc im rotation N (pre ++ w ++ tail) (preD ++ bufD) pad idx (idx * spc) =
  (pad' ← inferPadding idx pad (Z.land (be_get w) pm) pm;
   decodeLoop fuel spc im rotation N (pre ++ w ++ tail)
     ((preD ++ decChunk (cm idx) n (be_get w)) ++ drop (Z.to_nat n) bufD) pad' (idx + 1) ((idx + 1) * spc)).
Proof using Hspc.
  intros Hi Hpre Hw Hlt HpreD HbufD n pm. cbn [decodeLoop]. rewrite (proj2 (Z.ltb_lt _ _) Hlt). cbn [negb].
  fold n. assert (0 < n <= spc ∧ n <= N - idx * spc) as [??] by (unfold n; case_tests; lia).
  unfold lowEntropyChunkLen. rewrite !len_app.
  destruct (Z.ltb_spec (len pre + (len w + len tail)) (idx * 8 + 8)) as [Hbad|_];
    [unfold len in Hbad; lia|].
  assert (slice (idx * 8) (idx * 8 + 8) (pre ++ w ++ tail) = w) as ->.
  { rewrite slice_prefix_take by lia. unfold slice_to, slice_from.
    replace (Z.to_nat (idx * 8)) with (length pre) by lia.
    change (Z.to_nat 8) with 8%nat. by rewrite drop_app_length, <-Hw, take_app_length. }
  fold (dataMask (cm idx) n). fold pm. destruct (inferPadding _ _ _ _) as [pad'|e|m]; simpl; [|done..].
  assert (slice_to n (slice_from (8 - n) (be_put 8 (PEXT (be_get w) (cm idx)))) = decChunk (cm idx) n (be_get w)) as ->.
  { unfold slice_to, slice_from, decChunk.
    replace 8%nat with (Z.to_nat (8 - n) + Z.to_nat n)%nat at 1 by lia.
    rewrite be_put_drop, firstn_all2; [done|rewrite be_put_length; lia]. }
  rewrite <-HpreD, copy_at_app by (unfold decChunk; rewrite be_put_length; unfold len in *; lia).
  rewrite <-app_assoc. unfold decChunk at 2. rewrite be_put_length.
  by replace (idx * spc + spc) with ((idx + 1) * spc) by lia.
Qed.

Lemma decodeLoop_done fuel N enc dec pad idx off :
  N <= off → decodeLoop fuel spc im rotation N enc dec pad idx off = Ok dec.
Proof using. intros Hge. destruct fuel; simpl; by rewrite (proj2 (Z.ltb_ge _ _) Hge). Qed.

(** A chunk mask leaves padding positions. *)
Lemma paddingMask_nonzero idx n : 0 <= n <= spc → not64 (dataMask (cm idx) n) ≠ 0.
Proof using Hh Hones Hspc.
  intros Hn Hz. destruct (chunk_mask idx) as [Hu Hc].
  assert (∀ i, 0 <= i < 64 → Z.testbit (cm idx) i = true) as Hall.
  { intros i Hi. apply (f_equal (λ z, Z.testbit z i)) in Hz.
    rewrite not64_testbit, Z.testbit_0_l, (proj2 (Z.ltb_lt i 64)) in Hz by lia. simpl in Hz.
    destruct (Z.testbit (cm idx) i) eqn:E; [done|].
    unfold dataMask in Hz. rewrite PDEP_out in Hz; done || lia. }
  assert (OnesCount 64 (cm idx) = 64); [|lia].
  unfold OnesCount, ones_below. rewrite filter_all; [done|].
  intros i Hi%elem_of_seqZ. apply Hall. lia.
Qed.

Lemma inferPadding_enc idx pad pad0 part :
  bytes_ok part → len part <= spc → (pad = 0 ∨ pad = 1) → (idx = 0 ∨ pad0 = pad) →
  let pm := not64 (dataMask (cm idx) (len part)) in
  inferPadding idx pad0 (Z.land (encChunk (cm idx) pad part) pm) pm = Ok pad.
Proof using Hh Hones Hspc.
  intros Hb Hl Hp Hi pm. destruct (chunk_mask idx) as [Hu Hc]. pose proof (len_nonneg part).
  unfold pm. rewrite (encChunk_padding (cm idx) spc) by done.
  pose proof (paddingMask_nonzero idx (len part) ltac:(lia)) as Hnz. apply Z.eqb_neq in Hnz.
  unfold inferPadding. destruct Hp as [-> | ->]; simpl; rewrite ?Z.eqb_refl, ?Hnz; simpl;
    destruct (Z.eqb_spec idx 0); try done; destruct Hi as [?| ->]; try lia; simpl; done.
Qed.

(** Decoding the encoder's chunks writes the source back. *)
Lemma decodeLoop_enc fuel src pre bufD pad pad0 idx :
  bytes_ok src → (pad = 0 ∨ pad = 1) → (idx = 0 ∨ pad0 = pad) → 0 <= idx →
  length pre = Z.to_nat (8 * idx) → (length (restAt src idx) <= fuel)%nat →
  len bufD = len (restAt src idx) →
  decodeLoop fuel spc im rotation (len src)
    (pre ++ encRef fuel spc im rotation pad (restAt src idx) idx)
    (slice_to (idx * spc) src ++ bufD) pad0 idx (idx * spc) = Ok src.
Proof using Hh Hones Hspc.
  intros Hb Hp. revert pre bufD pad0 idx. induction fuel as [|fuel IH]; intros pre bufD pad0 idx Hp0 Hi Hpre Hf Hbuf;
    pose proof (len_restAt src idx Hi) as Hlr;
    (destruct (Z.lt_ge_cases (idx * spc) (len src)) as [Hlt|Hge];
     [|rewrite decodeLoop_done by lia; rewrite Hlr in Hbuf; rewrite (proj1 (len_zero bufD)), app_nil_r by lia;
       unfold slice_to; rewrite firstn_all2; [done|unfold len in *; lia]]).
  { unfold len in *. lia. }
  destruct (part_at src idx Hi Hlt) as (_ & Hlen & Hn & Hmin).
  destruct (restAt src idx) as [|b r] eqn:Er; [rewrite len_nil in *; lia|]. rewrite <-Er in *.
  assert (encRef (S fuel) spc im rotation pad (restAt src idx) idx =
    be_put 8 (encChunk (cm idx) pad (slice_to spc (restAt src idx)))
    ++ encRef fuel spc im rotation pad (restAt src (idx + 1)) (idx + 1)) as ->
    by (rewrite restAt_next, Er by done; done).
  assert (bytes_ok (slice_to spc (restAt src idx))) as Hbp by (unfold slice_to, restAt, slice_from; auto with mieru).
  assert (is_u64 (encChunk (cm idx) pad (slice_to spc (restAt src idx)))) as Hcu by (by apply encChunk_u64, chunk_mask).
  rewrite decodeLoop_step; [|done|done|apply be_put_length|done| |lia].
  2:{ unfold slice_to. rewrite length_take. unfold len in *. lia. }
  rewrite be_get_put. change (256 ^ Z.of_nat 8) with (2 ^ 64). rewrite Z.mod_small by apply Hcu.
  rewrite <-Hlen, inferPadding_enc, bind_Ok by (done || lia).
  destruct (chunk_mask idx) as [Hu Hc].
  rewrite (decChunk_encChunk (cm idx) spc) by (done || lia).
  assert (slice_to (idx * spc) src ++ slice_to spc (restAt src idx) = slice_to ((idx + 1) * spc) src) as ->.
  { unfold slice_to, restAt, slice_from. rewrite take_take_drop. f_equal. lia. }
  rewrite (app_assoc pre). apply IH; [lia..| | |].
  - rewrite length_app, be_put_length. lia.
  - rewrite restAt_next by lia. unfold slice_from. rewrite length_drop. unfold len in *. lia.
  - rewrite restAt_next by lia. unfold slice_from. rewrite !len_drop. lia.
Qed.

Lemma inferPadding_inv idx pad0 padding pm pad :
  (0 < idx → pad0 = 0 ∨ pad0 = 1) → 0 <= idx → inferPadding idx pad0 padding pm = Ok pad →
  (pad = 0 ∨ pad = 1) ∧ (0 < idx → pad = pad0) ∧ padding = if pad =? 1 then pm else 0.
Proof using.
  intros Hp Hi. unfold inferPadding. destruct (Z.eqb_spec idx 0) as [->|].
  { intros. case_tests; split_and!; try lia; by subst. }
  destruct (Hp ltac:(lia)) as [-> | ->]; simpl; intros; case_tests; split_and!; try lia; done.
Qed.

Lemma encRef_cons fuel pad part rest idx :
  0 < len part <= spc → (len part < spc → rest = []) →
  encRef (S fuel) spc im rotation pad (part ++ rest) idx =
  be_put 8 (encChunk (cm idx) pad part) ++ encRef fuel spc im rotation pad rest (idx + 1).
Proof using Hspc.
  intros Hl Hr.
  assert (slice_to spc (part ++ rest) = part ∧ slice_from spc (part ++ rest) = rest) as [Ht Hd].
  { unfold slice_to, slice_from, len in *. destruct (Z.lt_ge_cases (Z.of_nat (length part)) spc).
    - rewrite Hr, app_nil_r by lia. split; [apply firstn_all2; lia|apply drop_ge; lia].
    - replace (Z.to_nat spc) with (length part) by lia. by rewrite take_app_length, drop_app_length. }
  destruct part as [|b part]; [rewrite len_nil in *; lia|]. cbn [encRef app].
  change (b :: part ++ rest) with ((b :: part) ++ rest). by rewrite Ht, Hd.
Qed.

Definition canonicalTail (fuel : nat) (m idx pad0 : Z) (tail preD d : list Z) : Prop :=
  ∃ pad rest, (pad = 0 ∨ pad = 1) ∧ (0 < idx → pad = pad0) ∧ d = preD ++ rest ∧ bytes_ok rest ∧
    len rest = m ∧ tail = encRef fuel spc im rotation pad rest idx.

Lemma canonicalTail_done fuel idx pad0 preD :
  0 <= idx → (0 < idx → pad0 = 0 ∨ pad0 = 1) → canonicalTail fuel 0 idx pad0 [] preD preD.
Proof using.
  intros Hi Hp. exists (if decide (idx = 0) then 0 else pad0), [].
  split_and!; [case_decide; lia|case_decide; lia|by rewrite app_nil_r|constructor|done|by destruct fuel].
Qed.

Lemma canonicalTail_cons fuel m n idx pad0 pad w tail preD d :
  0 <= idx → 0 < n <= spc → (n < spc → m = 0) → is_u64 (be_get w) → length w = 8%nat → bytes_ok w →
  (pad = 0 ∨ pad = 1) → (0 < idx → pad = pad0) →
  Z.land (be_get w) (not64 (dataMask (cm idx) n)) = (if pad =? 1 then not64 (dataMask (cm idx) n) else 0) →
  canonicalTail fuel m (idx + 1) pad tail (preD ++ decChunk (cm idx) n (be_get w)) d →
  canonicalTail (S fuel) (n + m) idx pad0 (w ++ tail) preD d.
Proof using Hh Hones Hspc.
  intros Hi Hn Hm Hwu Hw Hbw Hpad Hpad0 Hland (pad' & rest & _ & Hpi & -> & Hbr & Hlr & ->).
  destruct (chunk_mask idx) as [Hu Hc]. rewrite (Hpi ltac:(lia)) in *.
  assert (len (decChunk (cm idx) n (be_get w)) = n) as Hln
    by (unfold decChunk, len; rewrite be_put_length; lia).
  exists pad, (decChunk (cm idx) n (be_get w) ++ rest).
  split_and!; [done|done|by rewrite app_assoc| |rewrite len_app; lia|].
  - apply bytes_ok_app. split; [apply be_put_bytes|done].
  - rewrite encRef_cons; [|lia|intros; apply len_zero; lia].
    rewrite (encChunk_decChunk (cm idx) spc) by (done || lia). by rewrite <-Hw, be_put_get by done.
Qed.

(** Whatever the decoder accepts is a sequence of the encoder's chunks. *)
Lemma decodeLoop_canonical fuel N tail pre preD bufD pad0 idx d :
  let m := Z.max 0 (N - idx * spc) in
  bytes_ok tail → 0 <= idx → (0 < idx → pad0 = 0 ∨ pad0 = 1) → length pre = Z.to_nat (8 * idx) →
  (idx * spc < N → length preD = Z.to_nat (idx * spc)) → len bufD = m → m <= Z.of_nat fuel →
  len tail = 8 * chunkCount spc m →
  decodeLoop fuel spc im rotation N (pre ++ tail) (preD ++ bufD) pad0 idx (idx * spc) = Ok d →
  canonicalTail fuel m idx pad0 tail preD d.
Proof using Hh Hones Hspc.
  revert tail pre preD bufD pad0 idx. induction fuel as [|fuel IH];
    intros tail pre preD bufD pad0 idx m Hb Hi Hp Hpre HpreD Hbuf Hm Htail;
    (destruct (Z.lt_ge_cases (idx * spc) N) as [Hlt|Hge];
     [|assert (m = 0) as Hm0 by lia; rewrite Hm0, ?chunkCount_0 in *; apply len_zero in Hbuf, Htail; subst;
       rewrite decodeLoop_done, app_nil_r by lia; intros [= <-]; by apply canonicalTail_done]).
  { lia. }
  unfold m in Htail. rewrite Z.max_r, chunkCount_step in Htail by lia.
  pose proof (chunkCount_nonneg spc (Z.max 0 (N - idx * spc - spc)) ltac:(lia) ltac:(lia)).
  rewrite <-(take_drop 8 tail) in Hb |- *. set (w := take 8 tail) in *. set (tail' := drop 8 tail) in *.
  assert (length w = 8%nat) as Hw by (unfold w; rewrite length_take; unfold len in *; lia).
  assert (len tail' = len tail - 8) as Ht' by (unfold tail'; rewrite len_drop; lia).
  apply bytes_ok_app in Hb as [Hbw Hbt].
  rewrite decodeLoop_step by (auto; unfold m in *; lia). set (n := if _ <? spc then _ else _).
  assert (n = Z.min spc (N - idx * spc)) as Hn by (unfold n; case_tests; lia).
  destruct (inferPadding _ _ _ _) as [pad|e|msg] eqn:Einf; [rewrite bind_Ok|done..].
  apply inferPadding_inv in Einf as (Hpad & Hpad0 & Hland); [|done..].
  assert (is_u64 (be_get w)) as Hwu.
  { pose proof (be_get_bound w Hbw) as Hbd. unfold len in Hbd. rewrite Hw in Hbd. apply Hbd. }
  rewrite (app_assoc pre). intros Hdec.
  replace m with (n + Z.max 0 (N - (idx + 1) * spc)) by lia.
  eapply (canonicalTail_cons _ _ n); eauto; [lia|lia|]. eapply IH; [..|exact Hdec]; auto; [lia| | | | |].
  - rewrite length_app. lia.
  - intros. rewrite length_app, HpreD by lia. unfold decChunk. rewrite be_put_length. lia.
  - rewrite len_drop. lia.
  - lia.
  - rewrite Ht', Htail. replace (N - (idx + 1) * spc) with (N - idx * spc - spc) by lia. lia.
Qed.

(** With a buffer of the expected length the decoder never runs out of it. *)
Lemma decodeLoop_safe fuel N enc preD pad0 idx :
  0 <= idx → Z.max 0 (N - idx * spc) <= Z.of_nat fuel →
  8 * idx + 8 * chunkCount spc (Z.max 0 (N - idx * spc)) <= len enc →
  ∀ msg, decodeLoop fuel spc im rotation N enc preD pad0 idx (idx * spc) ≠ Panic msg.
Proof using Hspc.
  revert preD pad0 idx. induction fuel as [|fuel IH]; intros preD pad0 idx Hi Hf Hl msg;
    (destruct (Z.lt_ge_cases (idx * spc) N) as [Hlt|Hge]; [|by rewrite decodeLoop_done by lia]); [lia|].
  cbn [decodeLoop]. rewrite (proj2 (Z.ltb_lt _ _) Hlt). cbn [negb]. unfold lowEntropyChunkLen.
  rewrite Z.max_r, chunkCount_step in Hl by lia.
  pose proof (chunkCount_nonneg spc (Z.max 0 (N - idx * spc - spc)) ltac:(lia) ltac:(lia)).
  destruct (Z.ltb_spec (len enc) (idx * 8 + 8)); [lia|].
  set (pm := not64 _). destruct (inferPadding _ _ _ pm) as [pad|e|m] eqn:E; [|done|].
  2:{ exfalso. revert E. unfold inferPadding. by repeat case_match. }
  rewrite bind_Ok. replace (idx * spc + spc) with ((idx + 1) * spc) by lia.
  apply IH; [lia|lia|]. replace (N - (idx + 1) * spc) with (N - idx * spc - spc) by lia. lia.
Qed.
End loops.

(** ** The codec *)

Lemma buildLowEntropyParams_inv mode params :
  buildLowEntropyParams mode = Ok params →
  4 <= sourceBytesPerChunk params <= 7 ∧ halfMaskOnes params = 4 * sourceBytesPerChunk params.
Proof. unfold buildLowEntropyParams. intros. case_tests; subst; simpl; lia. Qed.

Lemma validate_inv mode halfMask rotation params :
  validateLowEntropyCodecParams mode halfMask rotation = Ok params →
  buildLowEntropyParams mode = Ok params ∧
  OnesCount 32 halfMask = 4 * sourceBytesPerChunk params ∧ isValidLowEntropyRotation rotation = true.
Proof.
  unfold validateLowEntropyCodecParams. destruct (buildLowEntropyParams mode) as [ps|e|m] eqn:E; simpl; [|done..].
  apply buildLowEntropyParams_inv in E as [_ Ho]. intros. case_tests. split_and!; [done|lia|done].
Qed.

Lemma chunkCount_quot spc n :
  0 < spc → 0 < n →
  (if n `rem` spc =? 0 then n `quot` spc else n `quot` spc + 1) = chunkCount spc n.
Proof.
  intros. unfold chunkCount. rewrite Z.quot_div_nonneg, Z.rem_mod_nonneg by lia.
  destruct (Z.eqb_spec (n mod spc) 0) as [Hz|Hz];
    pose proof (Z.div_mod n spc ltac:(lia)); pose proof (Z.mod_pos_bound n spc ltac:(lia)).
  - apply Z.div_unique with (spc - 1); lia.
  - apply Z.div_unique with (n mod spc - 1); lia.
Qed.

Lemma encodedPayloadLen_spec n mode params :
  buildLowEntropyParams mode = Ok params →
  lowEntropyEncodedPayloadLen n mode =
    if n <=? 0 then Err (Errorf "invalid extracted payload length")
    else if chunkCount (sourceBytesPerChunk params) n >? 8191
    then Err (Errorf "encoded payload length exceeds MaxUint16")
    else Ok (8 * chunkCount (sourceBytesPerChunk params) n).
Proof.
  intros Hb. pose proof (buildLowEntropyParams_inv _ _ Hb) as [Hs _].
  unfold lowEntropyEncodedPayloadLen. rewrite Hb. simpl. destruct (Z.leb_spec n 0); [done|].
  rewrite chunkCount_quot by lia. change (MaxUint16 `quot` lowEntropyChunkLen) with 8191.
  destruct (Z.gtb_spec (chunkCount (sourceBytesPerChunk params) n) 8191); [done|].
  pose proof (chunkCount_nonneg (sourceBytesPerChunk params) n ltac:(lia) ltac:(lia)).
  f_equal. unfold lowEntropyChunkLen. rewrite wrap_id; [lia|]. unfold in_width. lia.
Qed.

Lemma encode_spec src mode halfMask rotation paddingBit params :
  validateLowEntropyCodecParams mode halfMask rotation = Ok params →
  0 < len src → chunkCount (sourceBytesPerChunk params) (len src) <= 8191 → paddingBit <= 1 →
  encodeLowEntropyPayloadWithPaddingBit src mode halfMask rotation paddingBit =
    Ok (encRef (length src) (sourceBytesPerChunk params) (RepeatUint32 halfMask) rotation paddingBit src 0).
Proof.
  intros Hv Hl Hc Hp. destruct (validate_inv _ _ _ _ Hv) as (Hb & Ho & Hr).
  pose proof (buildLowEntropyParams_inv _ _ Hb) as [Hs _].
  unfold encodeLowEntropyPayloadWithPaddingBit. rewrite Hv, bind_Ok.
  rewrite (encodedPayloadLen_spec _ _ _ Hb).
  destruct (Z.gtb_spec paddingBit 1), (Z.leb_spec (len src) 0),
    (Z.gtb_spec (chunkCount (sourceBytesPerChunk params) (len src)) 8191); try lia. rewrite bind_Ok.
  pose proof (chunkCount_nonneg (sourceBytesPerChunk params) (len src) ltac:(lia) ltac:(lia)).
  pose proof (encodeLoop_spec halfMask rotation (sourceBytesPerChunk params) ltac:(lia)
    (length src) paddingBit src [] (replicate (Z.to_nat (8 * chunkCount (sourceBytesPerChunk params) (len src))) 0) 0) as He.
  unfold restAt, slice_from in He. rewrite Z.mul_0_l in He. change (drop (Z.to_nat 0) src) with src in He.
  apply He; [lia|done|lia|]. unfold len at 1. rewrite length_replicate. lia.
Qed.

Lemma encode_decode (src : list Z) (mode halfMask rotation paddingBit : Z) params :
  validateLowEntropyCodecParams mode halfMask rotation = Ok params →
  is_u32 halfMask → bytes_ok src → 0 < len src →
  8 * chunkCount (sourceBytesPerChunk params) (len src) <= MaxUint16 →
  (paddingBit = 0 ∨ paddingBit = 1) →
  ∃ encoded,
    encodeLowEntropyPayloadWithPaddingBit src mode halfMask rotation paddingBit = Ok encoded ∧
    len encoded = 8 * chunkCount (sourceBytesPerChunk params) (len src) ∧
    decodeLowEntropyPayload encoded (len src) mode halfMask rotation = Ok src.
Proof.
  unfold MaxUint16. intros Hv Hh Hbs Hl Hc Hp. destruct (validate_inv _ _ _ _ Hv) as (Hb & Ho & Hr).
  pose proof (buildLowEntropyParams_inv _ _ Hb) as [Hs _]. set (spc := sourceBytesPerChunk params) in *.
  eexists. split; [apply encode_spec; [done|done|fold spc; lia|lia]|]. fold spc.
  assert (len (encRef (length src) spc (RepeatUint32 halfMask) rotation paddingBit src 0)
          = 8 * chunkCount spc (len src)) as Hle by (apply len_encRef; lia).
  split; [done|]. unfold decodeLowEntropyPayload. rewrite Hv, bind_Ok, (encodedPayloadLen_spec _ _ _ Hb).
  fold spc. destruct (Z.leb_spec (len src) 0), (Z.gtb_spec (chunkCount spc (len src)) 8191); try lia.
  rewrite bind_Ok, Hle, Z.eqb_refl. cbn [negb].
  replace (Z.to_nat (len src)) with (length src) by (unfold len; lia).
  pose proof (decodeLoop_enc halfMask rotation spc Hh Ho ltac:(lia) (length src) src []
    (replicate (length src) 0) paddingBit 0 0) as He.
  unfold restAt, slice_from, slice_to in He. rewrite Z.mul_0_l in He. change (drop (Z.to_nat 0) src) with src in He.
  apply He; auto; try lia. unfold len. by rewrite length_replicate.
Qed.

(** C32. Low entropy round trip: for a valid mode, mask and rotation, a
    non-empty body whose encoding fits the 16-bit length field is encoded (the
    encoder returns a result, with either padding polarity), the encoding has
    8 bytes per started source chunk, and the decoder gives the body back. *)
Theorem lowEntropy_roundtrip (src : list Z) (mode halfMask rotation paddingBit : Z) params :
  validateLowEntropyCodecParams mode halfMask rotation = Ok params →
  is_u32 halfMask → bytes_ok src → 0 < len src →
  8 * chunkCount (sourceBytesPerChunk params) (len src) <= MaxUint16 →
  (paddingBit = 0 ∨ paddingBit = 1) →
  ∃ encoded,
    encodeLowEntropyPayloadWithPaddingBit src mode halfMask rotation paddingBit = Ok encoded ∧
    len encoded = 8 * chunkCount (sourceBytesPerChunk params) (len src) ∧
    decodeLowEntropyPayload encoded (len src) mode halfMask rotation = Ok src.
Proof. apply encode_decode. Qed.
Lemma lowEntropy_roundtrip_witness :
  ∃ encoded,
    encodeLowEntropyPayloadWithPaddingBit [0x12; 0x34; 0x56; 0x78; 0x9a] 1 0x0f0f0f0f 0 1 = Ok encoded ∧
    len encoded = 16 ∧
    decodeLowEntropyPayload encoded 5 1 0x0f0f0f0f 0 = Ok [0x12; 0x34; 0x56; 0x78; 0x9a].
Proof.
  apply (lowEntropy_roundtrip [0x12; 0x34; 0x56; 0x78; 0x9a] 1 0x0f0f0f0f 0 1 (mkParams 4 16));
    try (vm_compute; intuition congruence). by apply (bool_decide_unpack _).
Defined.

Lemma decode_canonical (encoded src : list Z) (n mode halfMask rotation : Z) :
  decodeLowEntropyPayload encoded n mode halfMask rotation = Ok src →
  is_u32 halfMask → bytes_ok encoded →
  len src = n ∧ bytes_ok src ∧
  (encodeLowEntropyPayloadWithPaddingBit src mode halfMask rotation 0 = Ok encoded ∨
   encodeLowEntropyPayloadWithPaddingBit src mode halfMask rotation 1 = Ok encoded).
Proof.
  intros Hdec Hh Hbe. unfold decodeLowEntropyPayload in Hdec.
  destruct (validateLowEntropyCodecParams _ _ _) as [params|e|m] eqn:Hv; [rewrite bind_Ok in Hdec|done..].
  destruct (validate_inv _ _ _ _ Hv) as (Hb & Ho & Hr).
  pose proof (buildLowEntropyParams_inv _ _ Hb) as [Hs _]. rewrite (encodedPayloadLen_spec _ _ _ Hb) in Hdec.
  destruct (Z.leb_spec n 0); [done|].
  destruct (Z.gtb_spec (chunkCount (sourceBytesPerChunk params) n) 8191); [done|]. rewrite bind_Ok in Hdec.
  destruct (Z.eqb_spec (len encoded) (8 * chunkCount (sourceBytesPerChunk params) n)) as [Hle|]; [|done].
  cbn [negb] in Hdec.
  apply (decodeLoop_canonical halfMask rotation (sourceBytesPerChunk params) Hh Ho ltac:(lia)
    (Z.to_nat n) n encoded [] [] (replicate (Z.to_nat n) 0) 0 0) in Hdec;
    [|first [done|lia|unfold len; rewrite length_replicate; lia|by rewrite Z.mul_0_l, Z.sub_0_r, Z.max_r by lia]..].
  destruct Hdec as (pad & rest & Hp & _ & Hsrc & Hbr & Hlr & Henc). simpl in Hsrc. subst src.
  assert (len rest = n) as Hn by lia. split_and!; [done|done|].
  assert (encodeLowEntropyPayloadWithPaddingBit rest mode halfMask rotation pad = Ok encoded) as Hok.
  { rewrite (encode_spec rest mode halfMask rotation pad params) by (rewrite ?Hn; done || lia).
    rewrite Henc. do 2 f_equal. unfold len in Hn. lia. }
  destruct Hp as [-> | ->]; auto.
Qed.

(** Canonical wire form: a byte string that the decoder accepts for a given
    mask is the encoder's output for the decoded body with one of the two
    padding bits, so mixed or non-uniform padding is never accepted. *)
Theorem lowEntropy_canonical (encoded src : list Z) (n mode halfMask rotation : Z) :
  decodeLowEntropyPayload encoded n mode halfMask rotation = Ok src →
  is_u32 halfMask → bytes_ok encoded →
  len src = n ∧ bytes_ok src ∧
  (encodeLowEntropyPayloadWithPaddingBit src mode halfMask rotation 0 = Ok encoded ∨
   encodeLowEntropyPayloadWithPaddingBit src mode halfMask rotation 1 = Ok encoded).
Proof. apply decode_canonical. Qed.
Lemma lowEntropy_canonical_witness :
  decodeLowEntropyPayload [0xf1; 0xf2; 0xf3; 0xf4; 0xf5; 0xf6; 0xf7; 0xf8] 4 1 0x0f0f0f0f 0
    = Ok [0x12; 0x34; 0x56; 0x78] ∧ len [0x12; 0x34; 0x56; 0x78] = 4.
Proof.
  assert (decodeLowEntropyPayload [0xf1; 0xf2; 0xf3; 0xf4; 0xf5; 0xf6; 0xf7; 0xf8] 4 1 0x0f0f0f0f 0
    = Ok [0x12; 0x34; 0x56; 0x78]) as H by (vm_compute; reflexivity).
  split; [exact H|]. apply (lowEntropy_canonical _ _ _ _ _ _ H); by apply (bool_decide_unpack _).
Defined.

Lemma decode_total (encoded : list Z) (n mode halfMask rotation : Z) :
  ∀ msg, decodeLowEntropyPayload encoded n mode halfMask rotation ≠ Panic msg.
Proof.
  intros msg. unfold decodeLowEntropyPayload.
  destruct (validateLowEntropyCodecParams _ _ _) as [params|e|m] eqn:Hv; [rewrite bind_Ok|done|].
  2:{ exfalso. revert Hv. unfold validateLowEntropyCodecParams, buildLowEntropyParams.
      repeat case_match; simpl; by repeat case_match. }
  destruct (validate_inv _ _ _ _ Hv) as (Hb & _). pose proof (buildLowEntropyParams_inv _ _ Hb) as [Hs _].
  rewrite (encodedPayloadLen_spec _ _ _ Hb). destruct (Z.leb_spec n 0); [done|].
  destruct (Z.gtb_spec (chunkCount (sourceBytesPerChunk params) n) 8191); [done|]. rewrite bind_Ok.
  destruct (Z.eqb_spec (len encoded) (8 * chunkCount (sourceBytesPerChunk params) n)) as [Hle|]; [|done].
  apply (decodeLoop_safe halfMask rotation (sourceBytesPerChunk params) ltac:(lia)); [lia|lia|].
  rewrite Z.mul_0_l, Z.sub_0_r, Z.max_r by lia. lia.
Qed.

(** The decoder is total on untrusted input: for every byte string, length,
    mode, mask and rotation it returns a body or an error, and never reads out
    of range. *)
Theorem decodeLowEntropyPayload_safe (encoded : list Z) (n mode halfMask rotation : Z) :
  ∀ msg, decodeLowEntropyPayload encoded n mode halfMask rotation ≠ Panic msg.
Proof. apply decode_total. Qed.
