(* ===== verification/Metadata.v ===== *)
(** * pkg/protocol/metadata.go: the 32-byte segment metadata

    [sessionStruct] opens and closes sessions, [dataAckStruct] carries data and
    acknowledgements; both are marshalled to 32 bytes before encryption.  The
    clock is an argument: [now] is [time.Now().Unix()].

    Theorems: Unmarshal inverts Marshal while the two clocks are within a
    minute; the accepted time window exactly; every low entropy metadata that
    Unmarshal accepts satisfies the codec's preconditions; the type assertions
    of [toSessionStruct] and [toDataAckStruct] never fail on metadata that came
    out of Unmarshal. *)
From S2P Require Import Prelude MathExt Messages LowEntropy.

(** [protocolType] is a byte. *)
Definition closeConnRequest : Z := 0.
Definition closeConnResponse : Z := 1.
Definition openSessionRequest : Z := 2.
Definition openSessionResponse : Z := 3.
Definition closeSessionRequest : Z := 4.
Definition closeSessionResponse : Z := 5.
Definition dataClientToServer : Z := 6.
Definition dataServerToClient : Z := 7.
Definition ackClientToServer : Z := 8.
Definition ackServerToClient : Z := 9.
Definition dataClientToServerLowEntropy : Z := 10.
Definition dataServerToClientLowEntropy : Z := 11.

Definition protocolType_Equals (p other : Z) : bool := p =? other.

Definition statusOK : Z := 0.
Definition statusQuotaExhausted : Z := 1.

Definition MetadataLength : Z := 32.
Definition MaxSessionOpenPayload : Z := 1024.
(** pkg/protocol/segment.go's [maxPDU]. *)
Definition maxPDU : Z := 32 * 1024.

(** [baseStruct] is embedded in both. *)
Record baseStruct := mkBase { protocol : Z; timestamp : Z }.
Record sessionStruct := mkSession {
  ss_base : baseStruct;
  ss_sessionID : Z; ss_seq : Z; ss_statusCode : Z; ss_payloadLen : Z; ss_suffixLen : Z
}.
Record dataAckStruct := mkDataAck {
  das_base : baseStruct;
  das_lowEntropyMode : Z;
  das_sessionID : Z; das_seq : Z; das_unAckSeq : Z; das_windowSize : Z;
  das_fragment : Z; das_prefixLen : Z; das_payloadLen : Z; das_suffixLen : Z;
  das_lowEntropyMask : Z; das_extractedPayloadLen : Z; das_lowEntropyMaskRotation : Z
}.
#[export] Instance dataAckStruct_eta : Settable dataAckStruct := λ d,
  mkDataAck (das_base d) (das_lowEntropyMode d) (das_sessionID d) (das_seq d) (das_unAckSeq d) (das_windowSize d)
    (das_fragment d) (das_prefixLen d) (das_payloadLen d) (das_suffixLen d) (das_lowEntropyMask d)
    (das_extractedPayloadLen d) (das_lowEntropyMaskRotation d).
#[global] Instance baseStruct_eq_dec : EqDecision baseStruct.
Proof. solve_decision. Defined.
#[global] Instance sessionStruct_eq_dec : EqDecision sessionStruct.
Proof. solve_decision. Defined.
#[global] Instance dataAckStruct_eq_dec : EqDecision dataAckStruct.
Proof. solve_decision. Defined.

(** The [metadata] interface: its two implementations. *)
Inductive metadata := MSession (ss : sessionStruct) | MDataAck (das : dataAckStruct).
#[global] Instance metadata_eq_dec : EqDecision metadata.
Proof. solve_decision. Defined.

Definition ss_Protocol (ss : sessionStruct) : Z := protocol (ss_base ss).
Definition das_Protocol (das : dataAckStruct) : Z := protocol (das_base das).
Definition Protocol (m : metadata) : Z :=
  match m with MSession ss => ss_Protocol ss | MDataAck das => das_Protocol das end.

Definition isSessionProtocol (p : Z) : bool :=
  (p =? openSessionRequest) || (p =? openSessionResponse)
  || (p =? closeSessionRequest) || (p =? closeSessionResponse).
Definition isLowEntropyProtocol (p : Z) : bool :=
  (p =? dataClientToServerLowEntropy) || (p =? dataServerToClientLowEntropy).
Definition isDataProtocol (p : Z) : bool :=
  (p =? dataClientToServer) || (p =? dataServerToClient) || isLowEntropyProtocol p.
Definition isAckProtocol (p : Z) : bool := (p =? ackClientToServer) || (p =? ackServerToClient).
Definition isDataAckProtocol (p : Z) : bool := isDataProtocol p || isAckProtocol p.

(** The type assertion panics when the protocol byte and the dynamic type
    disagree. *)
Definition toSessionStruct (m : metadata) : result (option sessionStruct) :=
  if isSessionProtocol (Protocol m)
  then match m with MSession ss => Ok (Some ss) | MDataAck _ => Panic "interface conversion" end
  else Ok None.
Definition toDataAckStruct (m : metadata) : result (option dataAckStruct) :=
  if isDataAckProtocol (Protocol m)
  then match m with MDataAck das => Ok (Some das) | MSession _ => Panic "interface conversion" end
  else Ok None.

(** ** Marshal *)

(** [b[i] = v] and [binary.BigEndian.PutUint16/32(b[i:], v)]. *)
Definition setByte (i : nat) (v : Z) (b : list Z) : list Z := copy_at i [v] b.
Definition putUint16 (i : nat) (v : Z) (b : list Z) : list Z := copy_at i (be_put 2 v) b.
Definition putUint32 (i : nat) (v : Z) (b : list Z) : list Z := copy_at i (be_put 4 v) b.
Definition getUint16 (i : nat) (b : list Z) : Z := be_get (take 2 (drop i b)).
Definition getUint32 (i : nat) (b : list Z) : Z := be_get (take 4 (drop i b)).

(** [uint32(time.Now().Unix() / 60)]. *)
Definition minuteOf (now : Z) : Z := u32 (now `quot` 60).

Definition ss_with_timestamp (ts : Z) (ss : sessionStruct) : sessionStruct :=
  mkSession (mkBase (protocol (ss_base ss)) ts)
    (ss_sessionID ss) (ss_seq ss) (ss_statusCode ss) (ss_payloadLen ss) (ss_suffixLen ss).
Definition das_with_timestamp (ts : Z) (das : dataAckStruct) : dataAckStruct :=
  mkDataAck (mkBase (protocol (das_base das)) ts) (das_lowEntropyMode das)
    (das_sessionID das) (das_seq das) (das_unAckSeq das) (das_windowSize das) (das_fragment das)
    (das_prefixLen das) (das_payloadLen das) (das_suffixLen das)
    (das_lowEntropyMask das) (das_extractedPayloadLen das) (das_lowEntropyMaskRotation das).

(** Marshal also stores the timestamp in its receiver. *)
Definition ss_Marshal (now : Z) (ss : sessionStruct) : list Z * sessionStruct :=
  let b := replicate 32 0 in
  let b := setByte 0 (protocol (ss_base ss)) b in
  let ss := ss_with_timestamp (minuteOf now) ss in
  let b := putUint32 2 (timestamp (ss_base ss)) b in
  let b := putUint32 6 (ss_sessionID ss) b in
  let b := putUint32 10 (ss_seq ss) b in
  let b := setByte 14 (ss_statusCode ss) b in
  let b := putUint16 15 (ss_payloadLen ss) b in
  let b := setByte 17 (ss_suffixLen ss) b in
  (b, ss).

Definition das_Marshal (now : Z) (das : dataAckStruct) : list Z * dataAckStruct :=
  let b := replicate 32 0 in
  let b := setByte 0 (protocol (das_base das)) b in
  let b := if isLowEntropyProtocol (das_Protocol das) then setByte 1 (das_lowEntropyMode das) b else b in
  let das := das_with_timestamp (minuteOf now) das in
  let b := putUint32 2 (timestamp (das_base das)) b in
  let b := putUint32 6 (das_sessionID das) b in
  let b := putUint32 10 (das_seq das) b in
  let b := putUint32 14 (das_unAckSeq das) b in
  let b := putUint16 18 (das_windowSize das) b in
  let b := setByte 20 (das_fragment das) b in
  let b := setByte 21 (das_prefixLen das) b in
  let b := putUint16 22 (das_payloadLen das) b in
  let b := setByte 24 (das_suffixLen das) b in
  let b :=
    if isLowEntropyProtocol (das_Protocol das) then
      let b := putUint32 25 (das_lowEntropyMask das) b in
      let b := putUint16 29 (das_extractedPayloadLen das) b in
      setByte 31 (das_lowEntropyMaskRotation das) b
    else b in
  (b, das).

(** ** Unmarshal *)

Definition ss_Unmarshal (now : Z) (b : list Z) : result sessionStruct :=
  if negb (len b =? MetadataLength) then Err (Errorf "input bytes") else
  if negb (protocolType_Equals openSessionRequest (byte_at 0 b))
     && negb (protocolType_Equals openSessionResponse (byte_at 0 b))
     && negb (protocolType_Equals closeSessionRequest (byte_at 0 b))
     && negb (protocolType_Equals closeSessionResponse (byte_at 0 b))
  then Err (Errorf "invalid protocol") else
  let originalTimestamp := getUint32 2 b in
  let currentTimestamp := minuteOf now in
  if negb (WithinRange 32 currentTimestamp originalTimestamp 1) then Err (Errorf "invalid timestamp") else
  let payloadLen := getUint16 15 b in
  if payloadLen >? MaxSessionOpenPayload then Err (Errorf "payload size exceed maximum value") else
  Ok (mkSession (mkBase (byte_at 0 b) originalTimestamp)
        (getUint32 6 b) (getUint32 10 b) (byte_at 14 b) payloadLen (byte_at 17 b)).

Definition validateLowEntropyDataAckMetadata (das : dataAckStruct) : result unit :=
  if negb (isLowEntropyProtocol (das_Protocol das)) then Err (Errorf "protocol is not low entropy data") else
  if das_extractedPayloadLen das >? maxPDU then Err (Errorf "invalid extracted payload length") else
  if negb (das_payloadLen das `rem` lowEntropyChunkLen =? 0)
  then Err (Errorf "invalid low entropy payload length") else
  _ ← validateLowEntropyCodecParams (das_lowEntropyMode das) (das_lowEntropyMask das)
        (das_lowEntropyMaskRotation das);
  if das_extractedPayloadLen das =? 0 then
    if negb (das_payloadLen das =? 0) then Err (Errorf "low entropy payload length, want 0") else Ok tt
  else
    expectedPayloadLen ← lowEntropyEncodedPayloadLen (das_extractedPayloadLen das) (das_lowEntropyMode das);
    if negb (das_payloadLen das =? expectedPayloadLen)
    then Err (Errorf "low entropy payload length") else Ok tt.

Definition das_Unmarshal (now : Z) (b : list Z) : result dataAckStruct :=
  if negb (len b =? MetadataLength) then Err (Errorf "input bytes") else
  let protocol := byte_at 0 b in
  if negb (isDataAckProtocol protocol) then Err (Errorf "invalid protocol") else
  let originalTimestamp := getUint32 2 b in
  let currentTimestamp := minuteOf now in
  if negb (WithinRange 32 currentTimestamp originalTimestamp 1) then Err (Errorf "invalid timestamp") else
  '(lowEntropyMode, lowEntropyMask, extractedPayloadLen, lowEntropyMaskRotation) ←
    (if isLowEntropyProtocol protocol then
       let lowEntropyMode := byte_at 1 b in
       let lowEntropyMask := getUint32 25 b in
       let extractedPayloadLen := getUint16 29 b in
       let lowEntropyMaskRotation := byte_at 31 b in
       let candidate := mkDataAck (mkBase protocol 0) lowEntropyMode 0 0 0 0 0 0 (getUint16 22 b) 0
                          lowEntropyMask extractedPayloadLen lowEntropyMaskRotation in
       _ ← validateLowEntropyDataAckMetadata candidate;
       Ok (lowEntropyMode, lowEntropyMask, extractedPayloadLen, lowEntropyMaskRotation)
     else Ok (0, 0, 0, 0));
  Ok (mkDataAck (mkBase protocol originalTimestamp) lowEntropyMode
        (getUint32 6 b) (getUint32 10 b) (getUint32 14 b) (getUint16 18 b)
        (byte_at 20 b) (byte_at 21 b) (getUint16 22 b) (byte_at 24 b)
        lowEntropyMask extractedPayloadLen lowEntropyMaskRotation).

Lemma dataAck_not_session p : isDataAckProtocol p = true → isSessionProtocol p = false.
Proof.
  unfold isDataAckProtocol, isDataProtocol, isLowEntropyProtocol, isAckProtocol. rewrite !orb_true_iff, !Z.eqb_eq.
  by intros [[[-> | ->]|[-> | ->]]|[-> | ->]].
Qed.
Lemma session_not_dataAck p : isSessionProtocol p = true → isDataAckProtocol p = false.
Proof. unfold isSessionProtocol. rewrite !orb_true_iff, !Z.eqb_eq. by intros [[[-> | ->]| ->]| ->]. Qed.

(** ** Well-formed structs: every field fits its Go type *)

Definition base_wf (bs : baseStruct) : Prop := is_u8 (protocol bs) ∧ is_u32 (timestamp bs).
Definition ss_wf (ss : sessionStruct) : Prop :=
  base_wf (ss_base ss) ∧ is_u32 (ss_sessionID ss) ∧ is_u32 (ss_seq ss) ∧
  is_u8 (ss_statusCode ss) ∧ is_u16 (ss_payloadLen ss) ∧ is_u8 (ss_suffixLen ss).
Definition das_wf (das : dataAckStruct) : Prop :=
  base_wf (das_base das) ∧ is_u8 (das_lowEntropyMode das) ∧
  is_u32 (das_sessionID das) ∧ is_u32 (das_seq das) ∧ is_u32 (das_unAckSeq das) ∧
  is_u16 (das_windowSize das) ∧ is_u8 (das_fragment das) ∧ is_u8 (das_prefixLen das) ∧
  is_u16 (das_payloadLen das) ∧ is_u8 (das_suffixLen das) ∧
  is_u32 (das_lowEntropyMask das) ∧ is_u16 (das_extractedPayloadLen das) ∧
  is_u8 (das_lowEntropyMaskRotation das).
#[global] Instance base_wf_dec bs : Decision (base_wf bs).
Proof. unfold base_wf. apply _. Defined.
#[global] Instance ss_wf_dec ss : Decision (ss_wf ss).
Proof. unfold ss_wf. apply _. Defined.
#[global] Instance das_wf_dec das : Decision (das_wf das).
Proof. unfold das_wf. apply _. Defined.

(** A [dataAckStruct] that is not low entropy data has no low entropy fields
    on the wire. *)
Definition das_plain (das : dataAckStruct) : Prop :=
  das_lowEntropyMode das = 0 ∧ das_lowEntropyMask das = 0 ∧
  das_extractedPayloadLen das = 0 ∧ das_lowEntropyMaskRotation das = 0.

(** ** Layout lemmas *)

Lemma ss_Marshal_layout now ss :
  (ss_Marshal now ss).1 =
    [protocol (ss_base ss); 0] ++ be_put 4 (minuteOf now) ++ be_put 4 (ss_sessionID ss) ++
    be_put 4 (ss_seq ss) ++ [ss_statusCode ss] ++ be_put 2 (ss_payloadLen ss) ++
    [ss_suffixLen ss] ++ replicate 14 0.
Proof. reflexivity. Qed.

Lemma das_Marshal_layout now das :
  let le := isLowEntropyProtocol (das_Protocol das) in
  (das_Marshal now das).1 =
    [protocol (das_base das); if le then das_lowEntropyMode das else 0] ++
    be_put 4 (minuteOf now) ++ be_put 4 (das_sessionID das) ++ be_put 4 (das_seq das) ++
    be_put 4 (das_unAckSeq das) ++ be_put 2 (das_windowSize das) ++
    [das_fragment das; das_prefixLen das] ++ be_put 2 (das_payloadLen das) ++ [das_suffixLen das] ++
    be_put 4 (if le then das_lowEntropyMask das else 0) ++
    be_put 2 (if le then das_extractedPayloadLen das else 0) ++
    [if le then das_lowEntropyMaskRotation das else 0].
Proof.
  unfold das_Marshal. change (das_Protocol (das_with_timestamp _ _)) with (das_Protocol das).
  destruct (isLowEntropyProtocol (das_Protocol das)); reflexivity.
Qed.

(** ** The clock *)

(** The minute counter of a clock reading, away from the ends of uint32 (that
    is, between 1970-01-01 00:01 and the year 10136). *)
Definition clock_ok (now : Z) : Prop := 60 <= now < 60 * (2 ^ 32 - 1).
#[global] Instance clock_ok_dec now : Decision (clock_ok now).
Proof. unfold clock_ok. apply _. Defined.

Lemma minuteOf_div now : clock_ok now → minuteOf now = now / 60 ∧ 1 <= now / 60 <= 2 ^ 32 - 2.
Proof.
  unfold clock_ok, minuteOf. intros Hn. rewrite Z.quot_div_nonneg by lia.
  assert (1 <= now / 60) by (apply Z.div_le_lower_bound; lia).
  assert (now / 60 < 2 ^ 32 - 1) by (apply Z.div_lt_upper_bound; lia).
  split; [|lia]. apply wrap_id. unfold in_width. lia.
Qed.

(** The time check at [uint32], including the wrap-around of its bounds: the
    two end values of the type pass at every time. *)
Lemma WithinRange_minute m ts :
  1 <= m <= 2 ^ 32 - 2 → is_u32 ts →
  WithinRange 32 m ts 1 = true ↔ Z.abs (ts - m) <= 1 ∨ ts = 0 ∨ ts = 2 ^ 32 - 1.
Proof.
  intros Hm Hts. unfold in_width in Hts.
  destruct (Z.eq_dec ts 0) as [->|]; [|destruct (Z.eq_dec ts (2 ^ 32 - 1)) as [->|]].
  - split; [lia|intros _]. unfold WithinRange, Mid.
    change (wrap 32 (0 - 1)) with (2 ^ 32 - 1). change (wrap 32 (0 + 1)) with 1.
    case_tests; lia.
  - split; [lia|intros _]. unfold WithinRange, Mid.
    change (wrap 32 (2 ^ 32 - 1 - 1)) with (2 ^ 32 - 2). change (wrap 32 (2 ^ 32 - 1 + 1)) with 0.
    case_tests; lia.
  - rewrite WithinRange_interval by lia. rewrite andb_true_iff, !Z.leb_le. lia.
Qed.

Lemma WithinRange_clocks now now' :
  clock_ok now → clock_ok now' →
  WithinRange 32 (minuteOf now') (minuteOf now) 1 = bool_decide (Z.abs (now / 60 - now' / 60) <= 1).
Proof.
  intros Hn Hn'. destruct (minuteOf_div _ Hn) as [-> Hm]. destruct (minuteOf_div _ Hn') as [-> Hm'].
  apply eq_bool_prop_intro. rewrite Is_true_true, WithinRange_minute by (unfold in_width; lia).
  rewrite bool_decide_spec. lia.
Qed.

(** ** Reading back what was written *)

Lemma be_get_put_id n v : in_width (8 * Z.of_nat n) v → be_get (be_put n v) = v.
Proof. intros [??]. rewrite be_get_put. apply Z.mod_small. rewrite pow_256 by lia. done. Qed.

Lemma minuteOf_u32 now : is_u32 (minuteOf now).
Proof. unfold minuteOf. apply wrap_in_width. lia. Qed.
#[export] Hint Resolve minuteOf_u32 : mieru.

(** What Unmarshal reads at each offset of a marshalled struct. *)
Lemma ss_Unmarshal_Marshal now now' ss :
  ss_wf ss →
  ss_Unmarshal now' (ss_Marshal now ss).1 =
    if negb (isSessionProtocol (ss_Protocol ss)) then Err (Errorf "invalid protocol") else
    if negb (WithinRange 32 (minuteOf now') (minuteOf now) 1) then Err (Errorf "invalid timestamp") else
    if ss_payloadLen ss >? MaxSessionOpenPayload
    then Err (Errorf "payload size exceed maximum value")
    else Ok (ss_with_timestamp (minuteOf now) ss).
Proof.
  intros ((Hp & _) & Hid & Hseq & Hst & Hpl & Hsl). rewrite ss_Marshal_layout. set (b := _ ++ _).
  assert (getUint32 2 b = minuteOf now) as E2 by exact (be_get_put_id 4 _ (minuteOf_u32 now)).
  assert (getUint32 6 b = ss_sessionID ss) as E6 by exact (be_get_put_id 4 _ Hid).
  assert (getUint32 10 b = ss_seq ss) as E10 by exact (be_get_put_id 4 _ Hseq).
  assert (getUint16 15 b = ss_payloadLen ss) as E15 by exact (be_get_put_id 2 _ Hpl).
  unfold ss_Unmarshal. change (len b =? MetadataLength) with true. rewrite E2, E6, E10, E15.
  change (byte_at 0 b) with (ss_Protocol ss). change (byte_at 14 b) with (ss_statusCode ss).
  change (byte_at 17 b) with (ss_suffixLen ss). unfold isSessionProtocol, protocolType_Equals.
  rewrite !negb_orb, !(Z.eqb_sym (ss_Protocol ss)). done.
Qed.

(** The candidate that Unmarshal validates has the low entropy fields of the
    result. *)
Lemma validate_fields das das' :
  das_Protocol das = das_Protocol das' → das_lowEntropyMode das = das_lowEntropyMode das' →
  das_payloadLen das = das_payloadLen das' → das_lowEntropyMask das = das_lowEntropyMask das' →
  das_extractedPayloadLen das = das_extractedPayloadLen das' →
  das_lowEntropyMaskRotation das = das_lowEntropyMaskRotation das' →
  validateLowEntropyDataAckMetadata das = validateLowEntropyDataAckMetadata das'.
Proof. unfold validateLowEntropyDataAckMetadata. by intros -> -> -> -> -> ->. Qed.

Lemma das_Unmarshal_Marshal now now' das :
  das_wf das → isDataAckProtocol (das_Protocol das) = true →
  (if isLowEntropyProtocol (das_Protocol das)
   then validateLowEntropyDataAckMetadata das = Ok tt else das_plain das) →
  das_Unmarshal now' (das_Marshal now das).1 =
    if negb (WithinRange 32 (minuteOf now') (minuteOf now) 1) then Err (Errorf "invalid timestamp")
    else Ok (das_with_timestamp (minuteOf now) das).
Proof.
  intros ((Hp & _) & Hmode & Hid & Hseq & Hua & Hws & Hfr & Hpf & Hpl & Hsl & Hmask & Hext & Hrot) Hdap Hle.
  rewrite das_Marshal_layout. set (le := isLowEntropyProtocol _) in *. set (b := _ ++ _).
  assert (getUint32 2 b = minuteOf now) as E2 by exact (be_get_put_id 4 _ (minuteOf_u32 now)).
  assert (getUint32 6 b = das_sessionID das) as E6 by exact (be_get_put_id 4 _ Hid).
  assert (getUint32 10 b = das_seq das) as E10 by exact (be_get_put_id 4 _ Hseq).
  assert (getUint32 14 b = das_unAckSeq das) as E14 by exact (be_get_put_id 4 _ Hua).
  assert (getUint16 18 b = das_windowSize das) as E18 by exact (be_get_put_id 2 _ Hws).
  assert (getUint16 22 b = das_payloadLen das) as E22 by exact (be_get_put_id 2 _ Hpl).
  unfold das_Unmarshal. change (len b =? MetadataLength) with true. rewrite E2, E6, E10, E14, E18, E22.
  change (byte_at 0 b) with (das_Protocol das). rewrite Hdap. fold le. cbn [negb].
  destruct (WithinRange 32 (minuteOf now') (minuteOf now) 1); [|done]. cbn [negb].
  destruct le.
  - assert (getUint32 25 b = das_lowEntropyMask das) as E25 by exact (be_get_put_id 4 _ Hmask).
    assert (getUint16 29 b = das_extractedPayloadLen das) as E29 by exact (be_get_put_id 2 _ Hext).
    rewrite E25, E29, (validate_fields _ das), Hle, !bind_Ok by done. done.
  - rewrite bind_Ok. unfold das_with_timestamp. by destruct Hle as (-> & -> & -> & ->).
Qed.

(** Session metadata round trip: a well-formed open or close struct with at
    most 1024 payload bytes, marshalled at [now] and unmarshalled at [now'],
    comes back with the sender's minute as its timestamp when the two clocks
    show the same or adjacent minutes, and is refused otherwise. *)
Theorem session_metadata_roundtrip (now now' : Z) (ss : sessionStruct) :
  ss_wf ss → isSessionProtocol (ss_Protocol ss) = true → ss_payloadLen ss <= MaxSessionOpenPayload →
  clock_ok now → clock_ok now' →
  ss_Unmarshal now' (ss_Marshal now ss).1 =
    if decide (Z.abs (now / 60 - now' / 60) <= 1)
    then Ok (ss_with_timestamp (now / 60) ss) else Err (Errorf "invalid timestamp").
Proof.
  intros Hwf Hp Hl Hn Hn'. rewrite ss_Unmarshal_Marshal, Hp, WithinRange_clocks by done.
  destruct (minuteOf_div _ Hn) as [-> _]. cbn [negb].
  destruct (Z.gtb_spec (ss_payloadLen ss) MaxSessionOpenPayload); [lia|].
  by destruct (decide (Z.abs (now / 60 - now' / 60) <= 1)); [rewrite bool_decide_eq_true_2|rewrite bool_decide_eq_false_2].
Qed.
Definition example_session : sessionStruct := mkSession (mkBase openSessionRequest 0) 0x11223344 7 0 1000 255.
Lemma session_metadata_roundtrip_witness :
  ss_Unmarshal 1700000060 (ss_Marshal 1700000000 example_session).1
    = Ok (ss_with_timestamp 28333333 example_session).
Proof.
  refine (session_metadata_roundtrip 1700000000 1700000060 example_session _ _ _ _ _);
    [apply (bool_decide_unpack _); vm_compute; done|vm_compute; congruence..|
     apply (bool_decide_unpack _); vm_compute; done|apply (bool_decide_unpack _); vm_compute; done].
Defined.

(** Data and acknowledgement metadata round trip, for low entropy data
    whose fields pass the validator and for the other data and ack protocols. *)
Theorem dataAck_metadata_roundtrip (now now' : Z) (das : dataAckStruct) :
  das_wf das → isDataAckProtocol (das_Protocol das) = true →
  (if isLowEntropyProtocol (das_Protocol das)
   then validateLowEntropyDataAckMetadata das = Ok tt else das_plain das) →
  clock_ok now → clock_ok now' →
  das_Unmarshal now' (das_Marshal now das).1 =
    if decide (Z.abs (now / 60 - now' / 60) <= 1)
    then Ok (das_with_timestamp (now / 60) das) else Err (Errorf "invalid timestamp").
Proof.
  intros Hwf Hp Hle Hn Hn'. rewrite das_Unmarshal_Marshal, WithinRange_clocks by done.
  destruct (minuteOf_div _ Hn) as [-> _].
  by destruct (decide (Z.abs (now / 60 - now' / 60) <= 1)); [rewrite bool_decide_eq_true_2|rewrite bool_decide_eq_false_2].
Qed.
Definition example_dataAck : dataAckStruct :=
  mkDataAck (mkBase dataClientToServerLowEntropy 0) LOW_ENTROPY_MODE_32
    0x11223344 7 5 1024 3 200 256 10 0x0f0f0f0f 125 LOW_ENTROPY_MASK_ROTATE_LEFT_1.
Lemma dataAck_metadata_roundtrip_witness :
  das_Unmarshal 1700000060 (das_Marshal 1700000000 example_dataAck).1
    = Ok (das_with_timestamp 28333333 example_dataAck).
Proof.
  refine (dataAck_metadata_roundtrip 1700000000 1700000060 example_dataAck _ _ _ _ _);
    [apply (bool_decide_unpack _); vm_compute; done|vm_compute; done..|
     apply (bool_decide_unpack _); vm_compute; done|apply (bool_decide_unpack _); vm_compute; done].
Defined.

(** ** Metadata from the wire *)

Lemma getUint_bound n i b : bytes_ok b → in_width (8 * Z.of_nat n) (be_get (take n (drop i b))).
Proof.
  intros Hb. destruct (be_get_bound (take n (drop i b))) as [H1 H2]; [auto with mieru|].
  split; [done|]. eapply Z.lt_le_trans; [done|]. rewrite <-pow_256 by lia.
  apply Z.pow_le_mono_r; [lia|]. rewrite len_take. lia.
Qed.
Lemma getUint32_u32 i b : bytes_ok b → is_u32 (getUint32 i b).
Proof. apply (getUint_bound 4). Qed.
Lemma getUint16_u16 i b : bytes_ok b → is_u16 (getUint16 i b).
Proof. apply (getUint_bound 2). Qed.
#[export] Hint Resolve getUint32_u32 getUint16_u16 : mieru.

(** Everything that acceptance by Unmarshal says. *)
Lemma ss_Unmarshal_inv now b ss :
  ss_Unmarshal now b = Ok ss →
  len b = MetadataLength ∧ isSessionProtocol (ss_Protocol ss) = true ∧
  WithinRange 32 (minuteOf now) (timestamp (ss_base ss)) 1 = true ∧
  ss_payloadLen ss <= MaxSessionOpenPayload ∧
  ss = mkSession (mkBase (byte_at 0 b) (getUint32 2 b))
        (getUint32 6 b) (getUint32 10 b) (byte_at 14 b) (getUint16 15 b) (byte_at 17 b).
Proof.
  unfold ss_Unmarshal. destruct (Z.eqb_spec (len b) MetadataLength); [|done]. cbn [negb].
  rewrite <-!negb_orb. destruct (_ || _) eqn:Hp; [|done]. cbn [negb].
  destruct (WithinRange _ _ _ _) eqn:Hw; [|done]. cbn [negb].
  destruct (Z.gtb_spec (getUint16 15 b) MaxSessionOpenPayload); [done|]. intros [= <-]. split_and!; try done.
  unfold isSessionProtocol, protocolType_Equals in *.
  change (ss_Protocol _) with (byte_at 0 b). by rewrite !(Z.eqb_sym (byte_at 0 b)).
Qed.

Lemma das_Unmarshal_inv now b das :
  das_Unmarshal now b = Ok das →
  len b = MetadataLength ∧ isDataAckProtocol (das_Protocol das) = true ∧
  WithinRange 32 (minuteOf now) (timestamp (das_base das)) 1 = true ∧
  (if isLowEntropyProtocol (das_Protocol das)
   then validateLowEntropyDataAckMetadata das = Ok tt ∧
        das_lowEntropyMode das = byte_at 1 b ∧ das_lowEntropyMask das = getUint32 25 b ∧
        das_extractedPayloadLen das = getUint16 29 b ∧ das_lowEntropyMaskRotation das = byte_at 31 b
   else das_plain das) ∧
  das_base das = mkBase (byte_at 0 b) (getUint32 2 b) ∧
  das_sessionID das = getUint32 6 b ∧ das_seq das = getUint32 10 b ∧ das_unAckSeq das = getUint32 14 b ∧
  das_windowSize das = getUint16 18 b ∧ das_fragment das = byte_at 20 b ∧ das_prefixLen das = byte_at 21 b ∧
  das_payloadLen das = getUint16 22 b ∧ das_suffixLen das = byte_at 24 b.
Proof.
  unfold das_Unmarshal. destruct (Z.eqb_spec (len b) MetadataLength); [|done]. cbn [negb].
  destruct (isDataAckProtocol _) eqn:Hp; [|done]. cbn [negb].
  destruct (WithinRange _ _ _ _) eqn:Hw; [|done]. cbn [negb].
  destruct (isLowEntropyProtocol (byte_at 0 b)) eqn:Hle.
  - destruct (validateLowEntropyDataAckMetadata _) as [[]|err|m] eqn:Hv; [|done..]. rewrite !bind_Ok.
    intros [= <-]. rewrite <-Hv. change (das_Protocol _) with (byte_at 0 b). rewrite Hle. done.
  - rewrite bind_Ok. intros [= <-]. change (das_Protocol _) with (byte_at 0 b). rewrite Hle. done.
Qed.

Lemma ss_Unmarshal_wf now b ss : bytes_ok b → ss_Unmarshal now b = Ok ss → ss_wf ss.
Proof.
  intros Hb (_ & _ & _ & _ & ->)%ss_Unmarshal_inv. unfold ss_wf, base_wf. simpl. auto 10 with mieru.
Qed.
Lemma das_Unmarshal_wf now b das : bytes_ok b → das_Unmarshal now b = Ok das → das_wf das.
Proof.
  intros Hb (_ & _ & _ & Hle & Hbase & Hf)%das_Unmarshal_inv. unfold das_wf, base_wf.
  rewrite Hbase. destruct Hf as (-> & -> & -> & -> & -> & -> & -> & ->).
  destruct (isLowEntropyProtocol _).
  - destruct Hle as (_ & -> & -> & -> & ->). simpl. auto 20 with mieru.
  - destruct Hle as (-> & -> & -> & ->). simpl. split_and!; auto with mieru; done.
Qed.

Lemma validate_metadata_inv das :
  0 <= das_extractedPayloadLen das →
  validateLowEntropyDataAckMetadata das = Ok tt →
  isLowEntropyProtocol (das_Protocol das) = true ∧
  das_extractedPayloadLen das <= maxPDU ∧
  ∃ params,
    validateLowEntropyCodecParams (das_lowEntropyMode das) (das_lowEntropyMask das)
      (das_lowEntropyMaskRotation das) = Ok params ∧
    das_payloadLen das = 8 * chunkCount (sourceBytesPerChunk params) (das_extractedPayloadLen das).
Proof.
  intros Hext. unfold validateLowEntropyDataAckMetadata.
  destruct (isLowEntropyProtocol _); [|done]. cbn [negb].
  destruct (Z.gtb_spec (das_extractedPayloadLen das) maxPDU); [done|].
  destruct (_ =? 0); [|done]. cbn [negb].
  destruct (validateLowEntropyCodecParams _ _ _) as [params|e|m] eqn:Hv; [rewrite bind_Ok|done..].
  intros Hr. split_and!; [done|done|]. exists params. split; [done|].
  destruct (validate_inv _ _ _ _ Hv) as (Hb & _). pose proof (buildLowEntropyParams_inv _ _ Hb) as [Hs _].
  destruct (Z.eqb_spec (das_extractedPayloadLen das) 0) as [E|E].
  - rewrite E, chunkCount_0 by lia. by case_tests.
  - rewrite (encodedPayloadLen_spec _ _ _ Hb) in Hr.
    destruct (Z.leb_spec (das_extractedPayloadLen das) 0); [lia|].
    destruct (Z.gtb_spec (chunkCount (sourceBytesPerChunk params) (das_extractedPayloadLen das)) 8191); [done|].
    rewrite bind_Ok in Hr. by case_tests.
Qed.

(** Acceptance of untrusted low entropy metadata: whatever bytes arrive, an
    accepted low entropy struct has a valid mode, mask and rotation, at most
    32 KiB of extracted body, and a payload length that is exactly the encoded
    length of that body. *)
Theorem lowEntropy_metadata_accepted (now : Z) (b : list Z) (das : dataAckStruct) :
  bytes_ok b → das_Unmarshal now b = Ok das → isLowEntropyProtocol (das_Protocol das) = true →
  0 <= das_extractedPayloadLen das <= maxPDU ∧
  ∃ params,
    validateLowEntropyCodecParams (das_lowEntropyMode das) (das_lowEntropyMask das)
      (das_lowEntropyMaskRotation das) = Ok params ∧
    das_payloadLen das = 8 * chunkCount (sourceBytesPerChunk params) (das_extractedPayloadLen das).
Proof.
  intros Hb Hu Hle. pose proof (das_Unmarshal_wf _ _ _ Hb Hu) as (_ & _ & _ & _ & _ & _ & _ & _ & _ & _ & _ & [? _] & _).
  apply das_Unmarshal_inv in Hu as (_ & _ & _ & Hv & _). rewrite Hle in Hv. destruct Hv as [Hv _].
  apply validate_metadata_inv in Hv as (_ & ? & ?); done.
Qed.
Lemma lowEntropy_metadata_accepted_witness :
  das_payloadLen example_dataAck = 8 * chunkCount 4 125.
Proof.
  destruct (lowEntropy_metadata_accepted 1700000060 (das_Marshal 1700000000 example_dataAck).1
    (das_with_timestamp 28333333 example_dataAck)) as [_ (params & Hp & He)];
    [apply (bool_decide_unpack _); vm_compute; done|vm_compute; done|vm_compute; done|].
  vm_compute in Hp. injection Hp as <-. exact He.
Defined.

(** Time window of untrusted metadata: an accepted struct carries a minute
    within one of the receiver's clock, or one of the two end values of uint32. *)
Theorem metadata_time_window (now : Z) (b : list Z) (bs : baseStruct) :
  clock_ok now → bytes_ok b →
  (ss_base <$> ss_Unmarshal now b) = Ok bs ∨ (das_base <$> das_Unmarshal now b) = Ok bs →
  Z.abs (timestamp bs - now / 60) <= 1 ∨ timestamp bs = 0 ∨ timestamp bs = 2 ^ 32 - 1.
Proof.
  intros Hn Hb H. assert (is_u32 (timestamp bs) ∧ WithinRange 32 (minuteOf now) (timestamp bs) 1 = true) as [? Hw].
  { destruct H as [H|H].
    - destruct (ss_Unmarshal now b) as [ss|e|m] eqn:E; [|done..]. injection H as <-.
      destruct (ss_Unmarshal_wf _ _ _ Hb E) as ((_ & ?) & _). by apply ss_Unmarshal_inv in E as (_ & _ & ? & _).
    - destruct (das_Unmarshal now b) as [das|e|m] eqn:E; [|done..]. injection H as <-.
      destruct (das_Unmarshal_wf _ _ _ Hb E) as ((_ & ?) & _). by apply das_Unmarshal_inv in E as (_ & _ & ? & _). }
  destruct (minuteOf_div _ Hn) as [Em Hm]. rewrite Em in Hw. by apply WithinRange_minute in Hw.
Qed.
Lemma metadata_time_window_witness :
  Z.abs (28333333 - 1700000060 / 60) <= 1 ∨ 28333333 = 0 ∨ 28333333 = 2 ^ 32 - 1.
Proof.
  apply (metadata_time_window 1700000060 (ss_Marshal 1700000000 example_session).1
           (mkBase openSessionRequest 28333333));
    [apply (bool_decide_unpack _); vm_compute; done|apply (bool_decide_unpack _); vm_compute; done|].
  left. vm_compute. done.
Defined.

(** The margin of the time check wraps around: metadata with timestamp 0 or
    2^32-1 passes it at every time, so such a struct never expires. *)
Theorem extreme_timestamp_never_expires (now : Z) (b : list Z) :
  clock_ok now → len b = MetadataLength → isSessionProtocol (byte_at 0 b) = true →
  getUint16 15 b <= MaxSessionOpenPayload →
  getUint32 2 b = 0 ∨ getUint32 2 b = 2 ^ 32 - 1 →
  is_Ok (ss_Unmarshal now b).
Proof.
  intros Hn Hl Hp Hpl Hts. unfold ss_Unmarshal. rewrite Hl. cbn [negb Z.eqb MetadataLength Pos.eqb].
  unfold isSessionProtocol in Hp. rewrite !(Z.eqb_sym (byte_at 0 b)) in Hp.
  rewrite <-!negb_orb. unfold protocolType_Equals. rewrite Hp.
  destruct (minuteOf_div _ Hn) as [-> Hm].
  assert (WithinRange 32 (now / 60) (getUint32 2 b) 1 = true) as ->
    by (apply WithinRange_minute; [done|unfold in_width; lia|tauto]).
  destruct (Z.gtb_spec (getUint16 15 b) MaxSessionOpenPayload); [lia|]. by eexists.
Qed.
Lemma extreme_timestamp_never_expires_witness :
  is_Ok (ss_Unmarshal 1700000000 (openSessionRequest :: replicate 31 0)).
Proof.
  apply (extreme_timestamp_never_expires 1700000000 (openSessionRequest :: replicate 31 0));
    [apply (bool_decide_unpack _); vm_compute; done|done|done|vm_compute; done|left; done].
Defined.

(** Interface conversions: on metadata that Unmarshal accepted, the struct
    conversions return the struct of the matching kind and nothing for the
    other kind, and never panic. *)
Theorem metadata_conversion_safe (now : Z) (b : list Z) :
  (∀ ss, ss_Unmarshal now b = Ok ss →
     toSessionStruct (MSession ss) = Ok (Some ss) ∧ toDataAckStruct (MSession ss) = Ok None) ∧
  (∀ das, das_Unmarshal now b = Ok das →
     toDataAckStruct (MDataAck das) = Ok (Some das) ∧ toSessionStruct (MDataAck das) = Ok None).
Proof.
  split.
  - intros ss (_ & Hp & _)%ss_Unmarshal_inv. unfold toSessionStruct, toDataAckStruct. simpl.
    rewrite Hp. split; [done|]. unfold isSessionProtocol in Hp.
    rewrite !orb_true_iff, !Z.eqb_eq in Hp. by destruct Hp as [[[-> | ->]| ->]| ->].
  - intros das (_ & Hp & _)%das_Unmarshal_inv. unfold toSessionStruct, toDataAckStruct. simpl.
    rewrite Hp. split; [done|]. unfold isDataAckProtocol, isDataProtocol, isLowEntropyProtocol, isAckProtocol in Hp.
    rewrite !orb_true_iff, !Z.eqb_eq in Hp. by destruct Hp as [[[-> | ->]|[-> | ->]]|[-> | ->]].
Qed.
