(* ===== verification/GoStd.v ===== *)
(** * The parts of the Go standard library that the program computes with

    crypto/sha256, encoding/hex, hash/fnv and the rounding of package time.
    They are executable definitions of the published algorithms; the test
    vectors below are the standard ones. *)
From S2P Require Import Prelude.

(** ** Bytes of a Go string *)

Definition bytes_of_string (s : string) : list Z :=
  (λ a, Z.of_N (Ascii.N_of_ascii a)) <$> String.list_ascii_of_string s.

(** ** crypto/sha256 *)
Module Sha256.

(** The constants of the standard, from their definition: the first 32 bits of
    the fractional parts of the cube roots of the first 64 primes, and of the
    square roots of the first eight. *)
Definition isPrime (p : Z) : bool := forallb (λ d, negb (p mod d =? 0)) (seqZ 2 (p - 2)).
Definition primes : list Z := List.filter isPrime (seqZ 2 310).
(** Integer cube root by bits, from bit [i] down. *)
Fixpoint cbrtBits (i : nat) (n r : Z) : Z :=
  let r' := r + 2 ^ Z.of_nat i in
  let r := if r' * r' * r' <=? n then r' else r in
  match i with O => r | S i => cbrtBits i n r end.
Definition K : list Z := Eval vm_compute in (λ p, u32 (cbrtBits 35 (p * 2 ^ 96) 0)) <$> primes.
Definition H0 : list Z := Eval vm_compute in (λ p, u32 (Z.sqrt (p * 2 ^ 64))) <$> take 8 primes.

Definition ror (x n : Z) : Z := Z.lor (Z.shiftr x n) (u32 (Z.shiftl x (32 - n))).
Definition xor3 (x y z : Z) : Z := Z.lxor x (Z.lxor y z).
Definition at_ (l : list Z) (i : nat) : Z := nth i l 0.

(** The message schedule, kept newest first. *)
Fixpoint schedule (n : nat) (w : list Z) : list Z :=
  match n with
  | O => w
  | S n =>
    let w15 := at_ w 14 in
    let w2 := at_ w 1 in
    let s0 := xor3 (ror w15 7) (ror w15 18) (Z.shiftr w15 3) in
    let s1 := xor3 (ror w2 17) (ror w2 19) (Z.shiftr w2 10) in
    schedule n (u32 (at_ w 15 + s0 + at_ w 6 + s1) :: w)
  end.

Definition round (s : list Z) (kw : Z * Z) : list Z :=
  let '(k, w) := kw in
  match s with
  | [a; b; c; d; e; f; g; h] =>
    let S1 := xor3 (ror e 6) (ror e 11) (ror e 25) in
    let ch := Z.lxor (Z.land e f) (Z.land (u32 (Z.lnot e)) g) in
    let t1 := h + S1 + ch + k + w in
    let S0 := xor3 (ror a 2) (ror a 13) (ror a 22) in
    let maj := xor3 (Z.land a b) (Z.land a c) (Z.land b c) in
    [u32 (t1 + S0 + maj); a; b; c; u32 (d + t1); e; f; g]
  | _ => s
  end.

Fixpoint words (n : nat) (l : list Z) : list Z :=
  match n with O => [] | S n => be_get (take 4 l) :: words n (drop 4 l) end.

Definition compress (h block : list Z) : list Z :=
  let w := reverse (schedule 48 (reverse (words 16 block))) in
  let s := foldl round h (zip K w) in
  (λ p, u32 (p.1 + p.2)) <$> zip h s.

Definition pad (msg : list Z) : list Z :=
  msg ++ [0x80] ++ replicate (Z.to_nat ((55 - len msg) mod 64)) 0 ++ be_put 8 (8 * len msg).

Fixpoint blocks (n : nat) (h msg : list Z) : list Z :=
  match n with O => h | S n => blocks n (compress h (take 64 msg)) (drop 64 msg) end.

Definition sum256 (msg : list Z) : list Z :=
  let p := pad msg in
  let h := blocks (length p / 64) H0 p in
  List.concat (be_put 4 <$> h).
End Sha256.
(** [sha256.Sum256]. *)
Definition Sum256 (msg : list Z) : list Z := Sha256.sum256 msg.

Example Sum256_abc : be_get (Sum256 [97; 98; 99]) =
  0xba7816bf8f01cfea414140de5dae2223b00361a396177a9cb410ff61f20015ad.
Proof. vm_compute. reflexivity. Qed.
Example Sum256_two_blocks :
  be_get (Sum256 (bytes_of_string "abcdbcdecdefdefgefghfghighijhijkijkljklmklmnlmnomnopnopq")) =
  0x248d6a61d20638b8e5c026930c3e6039a33ce45964ff2167f6ecedd419db06c1.
Proof. vm_compute. reflexivity. Qed.

Section sha256.
Import Sha256.

Lemma round_length s kw : length s = 8%nat → length (round s kw) = 8%nat.
Proof. destruct kw. intros H. by repeat (destruct s as [|? s]; try done). Qed.

Lemma schedule_length n w : length (schedule n w) = (n + length w)%nat.
Proof. revert w. induction n as [|n IH]; intros w; [done|]. cbn [schedule]. rewrite IH. simpl. lia. Qed.

Lemma compress_length h b : length h = 8%nat → length (compress h b) = 8%nat.
Proof.
  intros Hh. unfold compress. rewrite length_fmap, length_zip_with.
  assert (∀ l s, length s = 8%nat → length (foldl round s l) = 8%nat) as Hf.
  { induction l as [|kw l IH]; intros s Hs; [done|]. apply IH, round_length, Hs. }
  rewrite Hf, Hh by done. done.
Qed.

Lemma blocks_length n h m : length h = 8%nat → length (blocks n h m) = 8%nat.
Proof. revert h m. induction n as [|n IH]; intros h m Hh; [done|]. apply IH, compress_length, Hh. Qed.

Lemma Sum256_length msg : length (Sum256 msg) = 32%nat.
Proof.
  unfold Sum256, sum256. pose proof (blocks_length (length (pad msg) / 64) H0 (pad msg) eq_refl) as Hl.
  set (h := blocks _ _ _) in *. by do 9 (destruct h as [|? h]; try done).
Qed.

Lemma Sum256_bytes msg : bytes_ok (Sum256 msg).
Proof.
  unfold Sum256, sum256. set (h := blocks _ _ _). clearbody h.
  induction h as [|x h IH]; [constructor|]. change (bytes_ok (be_put 4 x ++ List.concat (be_put 4 <$> h))). apply bytes_ok_app. auto with mieru.
Qed.
End sha256.
#[export] Hint Resolve Sum256_bytes : mieru.
#[global] Opaque Sum256.

(** ** hash/fnv: FNV-1a, 64 bits *)

Definition fnv_offset64 : Z := 14695981039346656037.
Definition fnv_prime64 : Z := 1099511628211.
Definition fnv1a64 (data : list Z) : Z :=
  foldl (λ h b, u64 (Z.lxor h b * fnv_prime64)) fnv_offset64 data.
Example fnv1a64_a : fnv1a64 [97] = 0xaf63dc4c8601ec8c.
Proof. vm_compute. reflexivity. Qed.

(** ** encoding/hex *)

Definition fromHexChar (c : Z) : option Z :=
  if (48 <=? c) && (c <=? 57) then Some (c - 48)
  else if (97 <=? c) && (c <=? 102) then Some (c - 97 + 10)
  else if (65 <=? c) && (c <=? 70) then Some (c - 65 + 10)
  else None.
Fixpoint hexDecode (l : list Z) : option (list Z) :=
  match l with
  | [] => Some []
  | [_] => None
  | a :: b :: l =>
    x ← fromHexChar a; y ← fromHexChar b; r ← hexDecode l; Some (x * 16 + y :: r)
  end.
(** [hex.DecodeString]. *)
Definition DecodeString (s : string) : option (list Z) := hexDecode (bytes_of_string s).

Lemma fromHexChar_nibble c x : fromHexChar c = Some x → 0 <= x < 16.
Proof.
  unfold fromHexChar. repeat (case_match; [intros [= <-]; rewrite !andb_true_iff, !Z.leb_le in *; lia|]). done.
Qed.
Lemma hexDecode_bytes l k : hexDecode l = Some k → bytes_ok k.
Proof.
  revert k. induction l as [l IH] using (induction_ltof1 _ length); intros k. unfold ltof in IH.
  destruct l as [|a [|b l]]; [by intros [= <-]; constructor|done|]. cbn [hexDecode]. destruct (fromHexChar a) as [x|] eqn:Ex; [|done]. destruct (fromHexChar b) as [y|] eqn:Ey; [|done].
  apply fromHexChar_nibble in Ex, Ey. cbn. destruct (hexDecode l) as [r|] eqn:Er; [|done]. intros [= <-].
  constructor; [unfold in_width; lia|apply (IH l); [simpl; lia|done]].
Qed.

(** ** package time *)

(** Instants and durations are nanoseconds; instants count from the Unix
    epoch.  [Round] works on the time since the year 1. *)
Definition Nanosecond : Z := 1.
Definition Microsecond : Z := 1000.
Definition Millisecond : Z := 1000 * Microsecond.
Definition Second : Z := 1000 * Millisecond.
Definition Minute : Z := 60 * Second.
(** [t.Sub(u)] saturates at the bounds of int64. *)
Definition Time_Sub (t u : Z) : Z := Z.max (- 2 ^ 63) (Z.min (2 ^ 63 - 1) (t - u)).
Definition unixToInternal : Z := 62135596800 * Second.
Definition Unix (t : Z) : Z := t / Second.
Definition Time_Round (t d : Z) : Z :=
  if d <=? 0 then t else
  let r := (t + unixToInternal) mod d in
  if r + r <? d then t - r else t + (d - r).
