(* ===== verification/GoFloat.v ===== *)
(** * Go's floating point arithmetic

    The class [GoFloat] holds the operations that the program applies to
    float64 and float32 values, with the two laws its integer results need; the
    instance [fractionFloat] computes with fractions, for examples. *)
From S2P Require Import Prelude.

Class GoFloat := {
  f64 : Type;
  f64_const : Z → Z → f64;           (* a constant, as a fraction *)
  f64_of : Z → f64;                  (* float64(i) *)
  f64_add : f64 → f64 → f64;
  f64_sub : f64 → f64 → f64;
  f64_mul : f64 → f64 → f64;
  f64_div : f64 → f64 → f64;
  f64_cbrt : f64 → f64;              (* math.Cbrt *)
  f64_sqrt : f64 → f64;              (* math.Sqrt *)
  f64_pow : f64 → f64 → f64;         (* math.Pow *)
  f64_ltb : f64 → f64 → bool;
  f64_leb : f64 → f64 → bool;
  f64_int : f64 → Z;                 (* int64(x) *)
  f64_uint32 : f64 → Z;              (* uint32(x) *)
  f32 : Type;
  f32_const : Z → Z → f32;
  f32_of : Z → f32;
  f32_add : f32 → f32 → f32;
  f32_mul : f32 → f32 → f32;
  f32_int : f32 → Z;
  Float64 : f64 → Prop               (* the values of math/rand.Float64 *)
}.
Class GoFloatLaws (F : GoFloat) : Prop := {
  f64_uint32_u32 x : is_u32 (f64_uint32 x);
  (** 0 < 0.325 <= 0.5. *)
  order_325 : f64_leb (f64_const 325 1000) (f64_const 0 1) = false ∧ f64_ltb (f64_const 1 2) (f64_const 325 1000) = false;
  (** A product with the root of the cube of a number in [0, 1) is not negative
      and stays below the other factor, also after rounding. *)
  scaled_range k b :
    Float64 b → 0 <= k < 2 ^ 53 →
    0 <= f64_int (f64_mul (f64_of k) (f64_sqrt (f64_mul (f64_mul b b) b))) <= k ∧
    (0 < k → f64_int (f64_mul (f64_of k) (f64_sqrt (f64_mul (f64_mul b b) b))) < k)
}.

(** ** An arithmetic of fractions *)

(** An instance to evaluate with: pairs of a numerator and a positive
    denominator. *)
Module Fraction.
Definition t : Type := Z * Z.
Definition trunc (x : t) : Z := x.1 `quot` x.2.
Definition add (x y : t) : t := (x.1 * y.2 + y.1 * x.2, x.2 * y.2).
Definition sub (x y : t) : t := (x.1 * y.2 - y.1 * x.2, x.2 * y.2).
Definition mul (x y : t) : t := (x.1 * y.1, x.2 * y.2).
Definition div (x y : t) : t := (x.1 * y.2 * Z.sgn y.1, x.2 * Z.abs y.1).
Fixpoint root (fuel : nat) (n r : Z) : Z :=
  match fuel with O => r | S fuel => if (r + 1) * (r + 1) * (r + 1) <=? n then root fuel n (r + 1) else r end.
Definition cbrt (x : t) : t := (root 200 (trunc x) 0, 1).
Definition sqrt (x : t) : t := (Z.sqrt (x.1 * x.2), x.2).
Definition ltb (x y : t) : bool := x.1 * y.2 <? y.1 * x.2.
Definition leb (x y : t) : bool := x.1 * y.2 <=? y.1 * x.2.
Definition unit (x : t) : Prop := 0 <= x.1 < x.2.
Definition pow (x y : t) : t := (x.1 ^ trunc y, x.2 ^ trunc y).
End Fraction.
Definition fractionFloat : GoFloat := {|
  f64 := Fraction.t; f64_const a b := (a, b); f64_of a := (a, 1);
  f64_add := Fraction.add; f64_sub := Fraction.sub; f64_mul := Fraction.mul; f64_div := Fraction.div;
  f64_cbrt := Fraction.cbrt; f64_sqrt := Fraction.sqrt; f64_ltb := Fraction.ltb; f64_leb := Fraction.leb;
  f64_pow := Fraction.pow; f64_int := Fraction.trunc; f64_uint32 x := u32 (Fraction.trunc x);
  f32 := Fraction.t; f32_const a b := (a, b); f32_of a := (a, 1);
  f32_add := Fraction.add; f32_mul := Fraction.mul; f32_int := Fraction.trunc;
  Float64 := Fraction.unit
|}.
Lemma fractionFloat_laws : GoFloatLaws fractionFloat.
Proof.
  split; [intros x; apply wrap_in_width; lia|by split|]. intros k [a d] [Ha Hd] Hk. cbn in *.
  unfold Fraction.trunc, Fraction.mul, Fraction.sqrt. cbn. set (n := a * a * a) in *. set (m := d * d * d) in *.
  assert (0 <= n < m) as Hn.
  { assert (a ^ 3 < d ^ 3) by (apply Z.pow_lt_mono_l; lia). unfold n, m. split; [|by replace (a * a * a) with (a ^ 3) by ring; replace (d * d * d) with (d ^ 3) by ring].
    apply Z.mul_nonneg_nonneg; [apply Z.mul_nonneg_nonneg|]; lia. }
  pose proof (Z.sqrt_nonneg (n * m)). assert (Z.sqrt (n * m) < m) by (apply Z.sqrt_lt_square; [nia|lia|apply Z.mul_lt_mono_pos_r; lia]).
  rewrite Z.quot_div_nonneg by nia.
  assert (0 <= k * Z.sqrt (n * m) / (1 * m)) by (apply Z.div_pos; nia).
  destruct (Z.eq_dec k 0) as [->|]; [rewrite Z.mul_0_l, Z.div_0_l by nia; lia|].
  assert (k * Z.sqrt (n * m) / (1 * m) < k) by (apply Z.div_lt_upper_bound; nia). lia.
Qed.
