(* ===== verification/GoNet.v ===== *)
(** * What the program uses of package [net]

    Addresses as values: an IP is its bytes.  [String] follows the standard
    library: dotted decimals, the IPv6 text form with the longest run of zero
    groups compressed, brackets around a host with a colon.

    Theorem: [isSamePacketAddr] of Packet.v relies on [IP_Equal], which is an
    equivalence that identifies IPv4 addresses with their IPv6-mapped form. *)
From S2P Require Import Prelude GoStd.

Record inetAddr := mkAddr { IP : list Z; Port : Z; Zone : list Z }.
#[global] Instance inetAddr_eq_dec : EqDecision inetAddr.
Proof. solve_decision. Defined.
(** The dynamic types of [net.Addr]; the pointers may be nil.  Any other type is
    given by its [String]; [SpecAddr] is model.NetAddrSpec. *)
Inductive netAddr := TCPAddr (a : option inetAddr) | UDPAddr (a : option inetAddr) | SpecAddr (network : string) (s : list Z) | OtherAddr (s : list Z).
#[global] Instance netAddr_eq_dec : EqDecision netAddr.
Proof. solve_decision. Defined.

Definition v4InV6Prefix : list Z := replicate 10 0 ++ [255; 255].

(** [IP.Equal]. *)
Definition IP_Equal (ip x : list Z) : bool :=
  if len ip =? len x then bool_decide (ip = x)
  else if (len ip =? 4) && (len x =? 16) then bool_decide (take 12 x = v4InV6Prefix) && bool_decide (ip = drop 12 x)
  else if (len ip =? 16) && (len x =? 4) then bool_decide (take 12 ip = v4InV6Prefix) && bool_decide (drop 12 ip = x)
  else false.
(** [IP.To4]. *)
Definition To4 (ip : list Z) : option (list Z) :=
  if len ip =? 4 then Some ip
  else if (len ip =? 16) && bool_decide (take 12 ip = v4InV6Prefix) then Some (drop 12 ip)
  else None.
(** [netip.AddrFromSlice(ip)], then [Unmap().As16()]. *)
Definition canonicalIP (ip : list Z) : option (list Z) :=
  if len ip =? 4 then Some (v4InV6Prefix ++ ip) else if len ip =? 16 then Some ip else None.

(** ** Text *)

Definition ascii_colon : Z := 58.
(** Digits of [n] in [base], most significant first; a number below
    [base^fuel] needs at most [fuel] of them. *)
Definition digit (d : Z) : Z := if d <? 10 then 48 + d else 97 + (d - 10).
Fixpoint digits (fuel : nat) (base n : Z) : list Z :=
  match fuel with
  | O => []
  | S fuel => if n <? base then [digit n] else digits fuel base (n / base) ++ [digit (n mod base)]
  end.
(** [strconv.Itoa] of an int. *)
Definition Itoa (n : Z) : list Z := if n <? 0 then 45 :: digits 20 10 (- n) else digits 20 10 n.
Definition dotted (ip : list Z) : list Z :=
  match ip with
  | [a; b; c; d] => Itoa a ++ [46] ++ Itoa b ++ [46] ++ Itoa c ++ [46] ++ Itoa d
  | _ => []
  end.

(** The eight 16-bit groups, the longest run of at least two zero groups (the
    first one of several), and the text around it. *)
Definition groups (ip : list Z) : list Z := (λ i, be_get (take 2 (drop (2 * i) ip))) <$> seq 0 8.
Fixpoint zeroRun (g : list Z) : nat := match g with x :: g => if x =? 0 then S (zeroRun g) else 0 | [] => 0 end.
Definition zeroRuns (g : list Z) : nat * nat :=
  foldl (λ best i, let n := zeroRun (drop i g) in if (2 <=? n)%nat && (best.2 - best.1 <? n)%nat then (i, (i + n)%nat) else best)
    (255%nat, 255%nat) (seq 0 (length g)).
Fixpoint groupText (zeros : nat * nat) (i : nat) (skip : nat) (g : list Z) : list Z :=
  match g with
  | [] => []
  | x :: g =>
    match skip with
    | S skip => groupText zeros (S i) skip g
    | O =>
      if (i =? zeros.1)%nat then [ascii_colon; ascii_colon] ++ groupText zeros (S i) (zeros.2 - zeros.1 - 1) g
      else (if (0 <? i)%nat && negb (i =? zeros.2)%nat then [ascii_colon] else []) ++ digits 4 16 x ++ groupText zeros (S i) 0 g
    end
  end.
Definition ipv6Text (ip : list Z) : list Z := groupText (zeroRuns (groups ip)) 0 0 (groups ip).

Definition IP_String (ip : list Z) : list Z :=
  if len ip =? 0 then bytes_of_string "<nil>"
  else match To4 ip with
       | Some p4 => dotted p4
       | None => if len ip =? 16 then ipv6Text ip
                 else bytes_of_string "?" ++ mjoin ((λ x, [digit (x / 16); digit (x mod 16)]) <$> ip)
       end.
Definition JoinHostPort (host port : list Z) : list Z :=
  if existsb (Z.eqb ascii_colon) host then bytes_of_string "[" ++ host ++ bytes_of_string "]:" ++ port
  else host ++ [ascii_colon] ++ port.
Definition inet_String (a : inetAddr) : list Z :=
  let ip := if len (IP a) =? 0 then [] else IP_String (IP a) in
  if len (Zone a) =? 0 then JoinHostPort ip (Itoa (Port a)) else JoinHostPort (ip ++ bytes_of_string "%" ++ Zone a) (Itoa (Port a)).
Definition addr_String (a : netAddr) : list Z :=
  match a with
  | TCPAddr None | UDPAddr None => bytes_of_string "<nil>"
  | TCPAddr (Some a) | UDPAddr (Some a) => inet_String a
  | SpecAddr _ s | OtherAddr s => s
  end.

Example inet_string4 : inet_String (mkAddr [127; 0; 0; 1] 8080 []) = bytes_of_string "127.0.0.1:8080".
Proof. reflexivity. Qed.
Example inet_string6 : inet_String (mkAddr ([254; 128] ++ replicate 13 0 ++ [1]) 53 (bytes_of_string "eth0"))
  = bytes_of_string "[fe80::1%eth0]:53".
Proof. reflexivity. Qed.
Example ip_string6 : IP_String ([32; 1; 13; 184] ++ replicate 4 0 ++ [0; 1] ++ replicate 5 0 ++ [171])
  = bytes_of_string "2001:db8::1:0:0:ab".
Proof. reflexivity. Qed.
Example ip_string_end : IP_String ([0; 1] ++ replicate 14 0) = bytes_of_string "1::" ∧ IP_String (replicate 16 0) = bytes_of_string "::".
Proof. split; reflexivity. Qed.

(** ** Equality of addresses *)

Lemma v4InV6_length : length v4InV6Prefix = 12%nat.
Proof. done. Qed.
(** Equality is equality of the canonical forms, for IPv4 and IPv6 addresses. *)
Lemma IP_Equal_canonical ip x :
  is_Some (canonicalIP ip) → is_Some (canonicalIP x) → IP_Equal ip x = bool_decide (canonicalIP ip = canonicalIP x).
Proof.
  unfold canonicalIP, IP_Equal. intros [a Ha] [b Hb].
  assert (∀ l k : list Z, len l = 16 → take 12 l = v4InV6Prefix ∧ k = drop 12 l ↔ v4InV6Prefix ++ k = l) as Hsplit.
  { intros l k Hl. split; [intros [<- ->]; apply take_drop|intros <-]. rewrite take_app_le, drop_app_ge by (rewrite v4InV6_length; lia).
    rewrite v4InV6_length, Nat.sub_diag. by split. }
  destruct (Z.eqb_spec (len ip) 4) as [E4|N4], (Z.eqb_spec (len x) 4) as [F4|M4].
  - rewrite E4, F4. cbn. apply bool_decide_ext. split; [by intros ->|]. intros [= E]. done.
  - destruct (Z.eqb_spec (len x) 16) as [F|]; [|done]. rewrite E4, F. cbn [Z.eqb Pos.eqb andb].
    rewrite <-bool_decide_and. apply bool_decide_ext. rewrite Hsplit by done. split; [by intros ->|]. by intros [= E].
  - destruct (Z.eqb_spec (len ip) 16) as [E|]; [|done]. rewrite E, F4. cbn [Z.eqb Pos.eqb andb].
    rewrite <-bool_decide_and. apply bool_decide_ext. rewrite (eq_comm (drop 12 ip)), Hsplit by done.
    split; [by intros <-|]. by intros [= E'].
  - destruct (Z.eqb_spec (len ip) 16) as [E|]; [|done]. destruct (Z.eqb_spec (len x) 16) as [F|]; [|done]. rewrite E, F. cbn.
    apply bool_decide_ext. split; [by intros ->|]. by intros [= E'].
Qed.
