(* ===== verification/Ascii.v ===== *)
(** * pkg/common/ascii.go: printable nonces

    [ToPrintableChar] and [ToCommon64Set] rewrite a range of a buffer in place.
    The random bytes come from crypto/rand: [batches] is the sequence of buffers
    that the successful reads return.  The model stops with a panic value if the
    sequence runs out, which stands for a loop that has not finished yet.

    Theorem: with enough random draws the rewritten range is printable and the
    rest of the buffer is untouched. *)
From S2P Require Import Prelude GoStd.

Definition PrintableCharSub : Z := 0x20.
Definition PrintableCharSup : Z := 0x7E.
Definition printableCharLen : Z := PrintableCharSup - PrintableCharSub + 1.
Definition Common64Set : string := "WKYu29q87rl6ifoVgGGyiAN7JwYx8sgTSAebhHsySEeTfZKzWDOzhX6D1xneQlx0".
Definition printableUint16Limit : Z := 65536 - 65536 `rem` printableCharLen.
Definition printableRandBatch : nat := 128.

Definition isPrintable (c : Z) : bool := (PrintableCharSub <=? c) && (c <=? PrintableCharSup).

(** The first loop: bytes whose low seven bits are printable lose the top bit,
    the others are counted. *)
Fixpoint printableScan (n i : nat) (b : list Z) (randCount : nat) : list Z * nat :=
  match n with
  | O => (b, randCount)
  | S n =>
    let c := byte_at i b in
    if (c <? PrintableCharSub) || (c >? PrintableCharSup) then
      let lowBits := Z.land c 0x7F in
      if (Z.land c 0x80 >? 0) && ((lowBits >=? PrintableCharSub) && (lowBits <=? PrintableCharSup))
      then printableScan n (S i) (<[i:=lowBits]> b) randCount
      else printableScan n (S i) b (S randCount)
    else printableScan n (S i) b randCount
  end.

(** [for b[next] is printable { next++ }]; indexing past the end panics. *)
Fixpoint skipPrintable (fuel : nat) (b : list Z) (next : nat) : result nat :=
  match b !! next with
  | None => Panic "index out of range"
  | Some c =>
    if isPrintable c then
      match fuel with O => Panic "out of fuel" | S fuel => skipPrintable fuel b (S next) end
    else Ok next
  end.

(** One batch of [n] draws, from draw [i] on. *)
Fixpoint placeBatch (n i : nat) (randBuf b : list Z) (next randCount : nat) : result (list Z * nat * nat) :=
  match n with
  | O => Ok (b, next, randCount)
  | S n =>
    let r := Z.lor (Z.shiftl (byte_at (2 * i) randBuf) 8) (byte_at (2 * i + 1) randBuf) in
    if r >=? printableUint16Limit then placeBatch n (S i) randBuf b next randCount else
    next ← skipPrintable (length b) b next;
    placeBatch n (S i) randBuf (<[next:=u8 (r `rem` printableCharLen + PrintableCharSub)]> b)
      (S next) (Nat.pred randCount)
  end.

Fixpoint placeLoop (batches : list (list Z)) (b : list Z) (next randCount : nat) : result (list Z) :=
  match randCount with
  | O => Ok b
  | S _ =>
    match batches with
    | [] => Panic "out of random draws"
    | randBuf :: batches =>
      let drawCount := if (printableRandBatch <? randCount)%nat then printableRandBatch else randCount in
      '(b, next, randCount) ← placeBatch drawCount 0 randBuf b next randCount;
      placeLoop batches b next randCount
    end
  end.

Definition ToPrintableChar (batches : list (list Z)) (b : list Z) (beginIdx endIdx : nat) : result (list Z) :=
  if (endIdx <? beginIdx)%nat then Panic "begin index > end index" else
  if (length b <? endIdx)%nat then Panic "index out of range" else
  let '(b, randCount) := printableScan (endIdx - beginIdx) beginIdx b 0 in
  placeLoop batches b beginIdx randCount.

Fixpoint common64Loop (n i : nat) (b : list Z) : list Z :=
  match n with
  | O => b
  | S n =>
    let setIdx := Z.land (byte_at i b) 0x3f in
    common64Loop n (S i) (<[i:=byte_at (Z.to_nat setIdx) (bytes_of_string Common64Set)]> b)
  end.
Definition ToCommon64Set (b : list Z) (beginIdx endIdx : nat) : result (list Z) :=
  if (endIdx <? beginIdx)%nat then Panic "begin index > end index" else
  if (length b <? endIdx)%nat then Panic "index out of range" else
  Ok (common64Loop (endIdx - beginIdx) beginIdx b).

(** [MaxConsecutivePrintableLength]. *)
Fixpoint maxPrintableLoop (b : list Z) (maxLen currentLen : nat) : nat :=
  match b with
  | [] => maxLen
  | c :: b =>
    if isPrintable c then
      let currentLen := S currentLen in
      maxPrintableLoop b (if (maxLen <? currentLen)%nat then currentLen else maxLen) currentLen
    else maxPrintableLoop b maxLen 0
  end.
Definition MaxConsecutivePrintableLength (b : list Z) : nat := maxPrintableLoop b 0 0.

(** ** The rewritten range *)

Section range.
Context (lo hi : nat) (b0 : list Z).

(** [b] agrees with the initial buffer outside of the range. *)
Definition outside (b : list Z) : Prop :=
  length b = length b0 ∧ ∀ i, (i < lo ∨ hi <= i)%nat → b !! i = b0 !! i.

Lemma outside_insert b i x : outside b → (lo <= i < hi)%nat → outside (<[i:=x]> b).
Proof using.
  intros [Hl Ho] Hi. split; [by rewrite length_insert|].
  intros j Hj. rewrite list_lookup_insert_ne by lia. auto.
Qed.
End range.

(** The number of bytes at [lo, lo + n) that are not printable. *)
Fixpoint unprintable (n lo : nat) (b : list Z) : nat :=
  match n with
  | O => O
  | S n => (if isPrintable (byte_at lo b) then 0 else 1) + unprintable n (S lo) b
  end.
Definition printable_range (lo hi : nat) (b : list Z) : Prop :=
  ∀ i, (lo <= i < hi)%nat → isPrintable (byte_at i b) = true.

Lemma byte_at_lookup i b c : b !! i = Some c → byte_at i b = c.
Proof. intros. unfold byte_at. by apply nth_lookup_Some. Qed.
Lemma byte_at_insert i x b : (i < length b)%nat → byte_at i (<[i:=x]> b) = x.
Proof. intros. apply byte_at_lookup. by apply list_lookup_insert_eq. Qed.
Lemma byte_at_insert_ne i j x b : i ≠ j → byte_at j (<[i:=x]> b) = byte_at j b.
Proof. intros. unfold byte_at. rewrite !nth_lookup, list_lookup_insert_ne; done. Qed.

Lemma unprintable_insert n lo i x b : (i < lo)%nat → unprintable n lo (<[i:=x]> b) = unprintable n lo b.
Proof.
  revert lo. induction n as [|n IH]; intros lo Hi; [done|]. simpl.
  rewrite byte_at_insert_ne, IH by lia. done.
Qed.

Lemma unprintable_le n lo b : (unprintable n lo b <= n)%nat.
Proof. revert lo. induction n as [|n IH]; intros lo; simpl; [lia|]. specialize (IH (S lo)). case_match; lia. Qed.

Lemma unprintable_none n lo b :
  unprintable n lo b = 0%nat → printable_range lo (lo + n) b.
Proof.
  revert lo. induction n as [|n IH]; intros lo Hu i Hi; [lia|]. simpl in Hu.
  destruct (isPrintable (byte_at lo b)) eqn:E; [|done].
  destruct (decide (i = lo)) as [->|]; [done|]. apply (IH (S lo)); [done|lia].
Qed.

Lemma not_printable_test c : (c <? PrintableCharSub) || (c >? PrintableCharSup) = negb (isPrintable c).
Proof. unfold isPrintable. by rewrite negb_andb, Z.gtb_ltb, !Z.ltb_antisym. Qed.

(** The first loop leaves the counted bytes, and only them, unprintable. *)
Lemma printableScan_spec lo hi b0 n i b rc :
  (i + n = hi)%nat → (lo <= i)%nat → (hi <= length b0)%nat → outside lo hi b0 b →
  let '(b', rc') := printableScan n i b rc in
  outside lo hi b0 b' ∧ rc' = (rc + unprintable n i b')%nat ∧
  (∀ j, (j < i)%nat → byte_at j b' = byte_at j b).
Proof.
  revert i b rc. induction n as [|n IH]; intros i b rc Hn Hlo Hhi Ho; simpl; [split_and!; [done|lia|done]|].
  assert (length b = length b0) as Hl by apply Ho.
  set (c := byte_at i b). set (c' := Z.land c 0x7f).
  destruct ((c <? PrintableCharSub) || (c >? PrintableCharSup)) eqn:Ec.
  - destruct ((Z.land c 0x80 >? 0) && ((c' >=? PrintableCharSub) && (c' <=? PrintableCharSup))) eqn:Elow.
    + specialize (IH (S i) (<[i:=c']> b) rc ltac:(lia) ltac:(lia) Hhi (outside_insert lo hi b0 b i c' Ho ltac:(lia))).
      destruct (printableScan n (S i) _ rc) as [b' rc']. destruct IH as (Ho' & -> & Hpre).
      split_and!; [done| |].
      * assert (isPrintable (byte_at i b') = true) as ->; [|done].
        rewrite Hpre, byte_at_insert by lia. unfold isPrintable.
        apply andb_true_iff in Elow as [_ Elow]. by rewrite Z.geb_leb in Elow.
      * intros j Hj. rewrite Hpre, byte_at_insert_ne by lia. done.
    + specialize (IH (S i) b (S rc) ltac:(lia) ltac:(lia) Hhi Ho).
      destruct (printableScan n (S i) b (S rc)) as [b' rc']. destruct IH as (Ho' & -> & Hpre).
      split_and!; [done| |intros; apply Hpre; lia].
      assert (isPrintable (byte_at i b') = false) as ->; [|simpl; lia].
      rewrite Hpre by lia. fold c. rewrite not_printable_test in Ec. by apply negb_true_iff.
  - specialize (IH (S i) b rc ltac:(lia) ltac:(lia) Hhi Ho).
    destruct (printableScan n (S i) b rc) as [b' rc']. destruct IH as (Ho' & -> & Hpre).
    split_and!; [done| |intros; apply Hpre; lia].
    assert (isPrintable (byte_at i b') = true) as ->; [|done].
    rewrite Hpre by lia. fold c. rewrite not_printable_test in Ec. by apply negb_false_iff.
Qed.

(** Skipping finds the next byte that is not printable, if the range has one. *)
Lemma skipPrintable_spec fuel n lo b :
  (lo + n <= length b)%nat → (n <= fuel)%nat → (0 < unprintable n lo b)%nat →
  ∃ i, skipPrintable fuel b lo = Ok i ∧ (lo <= i < lo + n)%nat ∧ printable_range lo i b ∧
       unprintable n lo b = S (unprintable (lo + n - S i) (S i) b).
Proof.
  revert n lo. induction fuel as [|fuel IH]; intros n lo Hl Hf Hu; (destruct n as [|n]; [simpl in Hu; lia|]); [lia|].
  simpl in Hu |- *. destruct (lookup_lt_is_Some_2 b lo ltac:(lia)) as [c Hc].
  rewrite Hc. rewrite (byte_at_lookup _ _ _ Hc) in *. destruct (isPrintable c) eqn:E.
  - destruct (IH n (S lo)) as (i & Hi & Hr & Hp & He); [lia|lia|done|].
    exists i. split_and!; [done|lia|lia| |].
    + intros j Hj. destruct (decide (j = lo)) as [->|]; [by rewrite (byte_at_lookup _ _ _ Hc)|apply Hp; lia].
    + by replace (lo + S n - S i)%nat with (S lo + n - S i)%nat by lia.
  - exists lo. split_and!; [done|lia|lia|intros j Hj; lia|]. by replace (lo + S n - S lo)%nat with n by lia.
Qed.

(** What both loops of the second phase keep: printable before [next], and
    [randCount] unprintable bytes from there on. *)
Record placing (lo hi : nat) (b0 b : list Z) (next randCount : nat) : Prop := {
  placing_outside : outside lo hi b0 b;
  placing_next : (lo <= next <= hi)%nat;
  placing_done : printable_range lo next b;
  placing_count : randCount = unprintable (hi - next) next b
}.

Lemma printable_char r : 0 <= r → isPrintable (u8 (r `rem` printableCharLen + PrintableCharSub)) = true.
Proof.
  intros. unfold isPrintable, printableCharLen, PrintableCharSub, PrintableCharSup.
  pose proof (Z.rem_bound_pos r 95 ltac:(lia) ltac:(lia)).
  change (0x7e - 0x20 + 1) with 95. rewrite wrap_id by (unfold in_width; lia).
  apply andb_true_iff. rewrite !Z.leb_le. lia.
Qed.

(** The 16-bit value of draw [i]. *)
Definition draw (randBuf : list Z) (i : nat) : Z :=
  Z.lor (Z.shiftl (byte_at (2 * i) randBuf) 8) (byte_at (2 * i + 1) randBuf).
Lemma draw_nonneg randBuf i : bytes_ok randBuf → 0 <= draw randBuf i.
Proof.
  intros Hb. apply Z.lor_nonneg. rewrite Z.shiftl_nonneg. split; by apply byte_at_u8.
Qed.

(** A batch never runs past the range, and its first accepted draw makes
    progress. *)
Lemma placeBatch_spec lo hi b0 n i randBuf b next rc :
  (hi <= length b0)%nat → bytes_ok randBuf → placing lo hi b0 b next rc → (n <= rc)%nat →
  ∃ b' next' rc', placeBatch n i randBuf b next rc = Ok (b', next', rc') ∧
    placing lo hi b0 b' next' rc' ∧ (rc' <= rc)%nat ∧
    ((0 < n)%nat → draw randBuf i < printableUint16Limit → (rc' < rc)%nat).
Proof.
  intros Hhi Hb. revert i b next rc. induction n as [|n IH]; intros i b next rc Hpl Hn.
  { exists b, next, rc. split_and!; [done|done|lia|lia]. }
  cbn [placeBatch]. fold (draw randBuf i). rewrite Z.geb_leb.
  destruct (Z.leb_spec printableUint16Limit (draw randBuf i)) as [Hr|Hr].
  { assert (n ≤ rc)%nat by lia. destruct (IH (S i) b next rc) as (b' & next' & rc' & ? & ? & ? & ?); [done|done|].
    exists b', next', rc'. split_and!; [done|done|done|lia]. }
  destruct Hpl as [[Hlb Ho] Hnx Hd Hc].
  destruct (skipPrintable_spec (length b) (hi - next) next b) as (k & -> & Hk & Hpk & Hu); [lia|lia|lia|].
  rewrite bind_Ok. destruct (IH (S i) (<[k:=u8 (draw randBuf i `rem` printableCharLen + PrintableCharSub)]> b) (S k) (Nat.pred rc))
    as (b' & next' & rc' & ? & ? & ? & ?); [|lia|].
  - split; [apply outside_insert; [done|lia]|lia| |].
    + intros j Hj. destruct (decide (j = k)) as [->|].
      * rewrite byte_at_insert by lia. apply printable_char, draw_nonneg, Hb.
      * rewrite byte_at_insert_ne by done. destruct (decide (j < next)%nat); [apply Hd|apply Hpk]; lia.
    + rewrite unprintable_insert by lia. replace (next + (hi - next) - S k)%nat with (hi - S k)%nat in Hu by lia. lia.
  - exists b', next', rc'. split_and!; [done|done|lia|lia].
Qed.

Lemma placeLoop_spec lo hi b0 batches b next rc :
  (hi <= length b0)%nat →
  Forall (λ randBuf, bytes_ok randBuf ∧ draw randBuf 0 < printableUint16Limit) batches →
  placing lo hi b0 b next rc → (rc <= length batches)%nat →
  ∃ b', placeLoop batches b next rc = Ok b' ∧ outside lo hi b0 b' ∧ printable_range lo hi b'.
Proof.
  intros Hhi Hbs. revert b next rc. induction Hbs as [|randBuf batches [Hb Hd] Hbs IH]; intros b next rc Hpl Hrc.
  all: destruct rc as [|rc];
    [exists b; split_and!; [done|apply Hpl|];
     destruct Hpl as [_ Hnx Hpr Hc]; intros j Hj; destruct (decide (j < next)%nat); [apply Hpr; lia|];
     apply (unprintable_none (hi - next) next b); [done|lia]|].
  - simpl in Hrc. lia.
  - cbn [placeLoop]. set (n := if (_ <? _)%nat then _ else _).
    assert (0 < n <= S rc)%nat as [Hn0 Hn] by (subst n; unfold printableRandBatch; destruct (Nat.ltb_spec 128 (S rc)); lia).
    destruct (placeBatch_spec lo hi b0 n 0 randBuf b next (S rc)) as (b' & next' & rc' & -> & Hpl' & _ & Hlt); [done..|].
    rewrite bind_Ok. apply IH; [done|]. specialize (Hlt Hn0 Hd). simpl in Hrc. lia.
Qed.

Lemma ToPrintableChar_spec (batches : list (list Z)) (b : list Z) (beginIdx endIdx : nat) :
  (beginIdx <= endIdx <= length b)%nat →
  Forall (λ randBuf, bytes_ok randBuf ∧ draw randBuf 0 < printableUint16Limit) batches →
  (endIdx - beginIdx <= length batches)%nat →
  ∃ b', ToPrintableChar batches b beginIdx endIdx = Ok b' ∧
    length b' = length b ∧
    (∀ i, (i < beginIdx ∨ endIdx <= i)%nat → b' !! i = b !! i) ∧
    (∀ i, (beginIdx <= i < endIdx)%nat → isPrintable (byte_at i b') = true).
Proof.
  intros Hr Hbs Hn. unfold ToPrintableChar.
  destruct (Nat.ltb_spec endIdx beginIdx); [lia|]. destruct (Nat.ltb_spec (length b) endIdx); [lia|].
  pose proof (printableScan_spec beginIdx endIdx b (endIdx - beginIdx) beginIdx b 0
    ltac:(lia) ltac:(lia) ltac:(lia) ltac:(done)) as Hs.
  destruct (printableScan _ _ _ _) as [b1 rc]. destruct Hs as (Ho & Hrc & _).
  pose proof (unprintable_le (endIdx - beginIdx) beginIdx b1).
  destruct (placeLoop_spec beginIdx endIdx b batches b1 beginIdx rc) as (b' & -> & [Hl Ho'] & Hp); [lia|done| |lia|].
  - split; [done|lia|intros j Hj; lia|lia].
  - exists b'. split_and!; [done|done|exact Ho'|exact Hp].
Qed.

(** Printable nonces: when every batch of random bytes holds an acceptable
    draw and there are as many batches as bytes to rewrite, [ToPrintableChar]
    returns; every byte of the range is then a printable ASCII character and
    every byte outside of it is unchanged. *)
Theorem ToPrintableChar_printable (batches : list (list Z)) (b : list Z) (beginIdx endIdx : nat) :
  (beginIdx <= endIdx <= length b)%nat →
  Forall (λ randBuf, bytes_ok randBuf ∧ draw randBuf 0 < printableUint16Limit) batches →
  (endIdx - beginIdx <= length batches)%nat →
  ∃ b', ToPrintableChar batches b beginIdx endIdx = Ok b' ∧
    length b' = length b ∧
    (∀ i, (i < beginIdx ∨ endIdx <= i)%nat → b' !! i = b !! i) ∧
    (∀ i, (beginIdx <= i < endIdx)%nat → isPrintable (byte_at i b') = true).
Proof. exact (ToPrintableChar_spec batches b beginIdx endIdx). Qed.
Lemma ToPrintableChar_printable_witness :
  ∃ b', ToPrintableChar [[0; 1]; [2; 3]] [0x00; 0xC1; 0x7F; 0x20; 0x01] 0 2 = Ok b' ∧
    length b' = 5%nat ∧
    (∀ i, (i < 0 ∨ 2 <= i)%nat → b' !! i = [0x00; 0xC1; 0x7F; 0x20; 0x01] !! i) ∧
    (∀ i, (0 <= i < 2)%nat → isPrintable (byte_at i b') = true).
Proof.
  apply (ToPrintableChar_printable [[0; 1]; [2; 3]] [0x00; 0xC1; 0x7F; 0x20; 0x01] 0 2);
    [simpl; lia| |simpl; lia].
  repeat constructor; vm_compute; congruence.
Defined.

Lemma common64Loop_spec n i b :
  (i + n <= length b)%nat →
  length (common64Loop n i b) = length b ∧
  (∀ j, (j < i ∨ i + n <= j)%nat → common64Loop n i b !! j = b !! j).
Proof.
  revert i b. induction n as [|n IH]; intros i b Hl; [done|]. cbn [common64Loop].
  destruct (IH (S i) (<[i:=byte_at (Z.to_nat (Z.land (byte_at i b) 0x3f)) (bytes_of_string Common64Set)]> b)) as [H1 H2];
    [rewrite length_insert; lia|].
  rewrite length_insert in H1. split; [done|]. intros j Hj. rewrite H2, list_lookup_insert_ne by lia. done.
Qed.

(** ** Lengths *)

Lemma printableScan_length n i b rc : length (printableScan n i b rc).1 = length b.
Proof.
  revert i b rc. induction n as [|n IH]; intros i b rc; [done|]. cbn [printableScan].
  repeat case_match; rewrite IH, ?length_insert; done.
Qed.
Lemma placeBatch_length n i randBuf b next rc b' next' rc' :
  placeBatch n i randBuf b next rc = Ok (b', next', rc') → length b' = length b.
Proof.
  revert i b next rc. induction n as [|n IH]; intros i b next rc; cbn [placeBatch]; [by intros [= <- _ _]|].
  destruct (_ >=? _); [apply IH|]. destruct (skipPrintable _ _ _) as [k|e|m]; [|done..].
  intros H%IH. by rewrite length_insert in H.
Qed.
Lemma placeLoop_length batches b next rc b' : placeLoop batches b next rc = Ok b' → length b' = length b.
Proof.
  revert b next rc. induction batches as [|rb batches IH]; intros b next [|rc]; cbn [placeLoop];
    [by intros [= <-]|done|by intros [= <-]|].
  destruct (placeBatch _ _ _ _ _ _) as [[[b1 n1] rc1]|e|m] eqn:E; [rewrite bind_Ok|done..].
  apply placeBatch_length in E as <-. apply IH.
Qed.
Lemma ToPrintableChar_length batches b lo hi b' : ToPrintableChar batches b lo hi = Ok b' → length b' = length b.
Proof.
  unfold ToPrintableChar. repeat (case_match; [done|]). destruct (printableScan _ _ _ _) as [b1 rc] eqn:E.
  intros ->%placeLoop_length. by rewrite <-(printableScan_length (hi - lo) lo b 0), E.
Qed.
Lemma ToCommon64Set_length b lo hi b' : ToCommon64Set b lo hi = Ok b' → length b' = length b.
Proof.
  unfold ToCommon64Set. destruct (Nat.ltb_spec hi lo); [done|]. destruct (Nat.ltb_spec (length b) hi); [done|].
  intros [= <-]. apply common64Loop_spec. lia.
Qed.

(** ** Bytes stay bytes *)

Lemma bytes_ok_insert i x b : is_u8 x → bytes_ok b → bytes_ok (<[i:=x]> b).
Proof. intros Hx Hb. by apply (Forall_insert is_u8). Qed.
Lemma land_7f_u8 x : is_u8 x → is_u8 (Z.land x 0x7F).
Proof.
  intros _. change 0x7F with (Z.ones 7). rewrite Z.land_ones by lia. unfold in_width.
  pose proof (Z.mod_pos_bound x (2 ^ 7)). lia.
Qed.
Lemma printableScan_bytes n i b rc : bytes_ok b → bytes_ok (printableScan n i b rc).1.
Proof.
  revert i b rc. induction n as [|n IH]; intros i b rc Hb; [done|]. cbn [printableScan].
  repeat case_match; apply IH; [|done..]. by apply bytes_ok_insert; [apply land_7f_u8, byte_at_u8|].
Qed.
Lemma placeBatch_bytes n i randBuf b next rc b' next' rc' :
  bytes_ok b → placeBatch n i randBuf b next rc = Ok (b', next', rc') → bytes_ok b'.
Proof.
  revert i b next rc. induction n as [|n IH]; intros i b next rc Hb; cbn [placeBatch]; [by intros [= <- _ _]|].
  destruct (_ >=? _); [by apply IH|]. destruct (skipPrintable _ _ _) as [k|e|m]; [|done..].
  apply IH. apply bytes_ok_insert; [apply wrap_in_width; lia|done].
Qed.
Lemma placeLoop_bytes batches b next rc b' : bytes_ok b → placeLoop batches b next rc = Ok b' → bytes_ok b'.
Proof.
  revert b next rc. induction batches as [|rb batches IH]; intros b next [|rc] Hb; cbn [placeLoop];
    [by intros [= <-]|done|by intros [= <-]|].
  destruct (placeBatch _ _ _ _ _ _) as [[[b1 n1] rc1]|e|m] eqn:E; [rewrite bind_Ok|done..].
  apply IH. by eapply placeBatch_bytes.
Qed.
Lemma ToPrintableChar_bytes batches b lo hi b' :
  bytes_ok b → ToPrintableChar batches b lo hi = Ok b' → bytes_ok b'.
Proof.
  intros Hb. unfold ToPrintableChar. repeat (case_match; [done|]).
  pose proof (printableScan_bytes (hi - lo) lo b 0 Hb) as H1. destruct (printableScan _ _ _ _) as [b1 rc].
  by apply placeLoop_bytes.
Qed.
Lemma Common64Set_bytes : bytes_ok (bytes_of_string Common64Set).
Proof. by apply (bool_decide_unpack _). Qed.
Lemma common64Loop_bytes n i b : bytes_ok b → bytes_ok (common64Loop n i b).
Proof.
  revert i b. induction n as [|n IH]; intros i b Hb; [done|]. cbn [common64Loop].
  apply IH, bytes_ok_insert; [apply byte_at_u8, Common64Set_bytes|done].
Qed.
Lemma ToCommon64Set_bytes b lo hi b' : bytes_ok b → ToCommon64Set b lo hi = Ok b' → bytes_ok b'.
Proof. intros Hb. unfold ToCommon64Set. repeat (case_match; [done|]). intros [= <-]. by apply common64Loop_bytes. Qed.
