(* ===== verification/Cipher.v ===== *)
(** * pkg/cipher: AEAD block ciphers, key schedule and cipher cache

    The AEAD (x/crypto chacha20poly1305) and PBKDF2 (x/crypto) are operations of
    the class [Crypto]; [CryptoLaws] states the documented facts about them that
    the package relies on.  Random sources are arguments ([nonceDraws]).  An
    [aeadBlockCipher] is a record; a method that mutates its receiver returns
    the new record.

    Theorems: the stateless and the implicit-nonce round trips; the implicit
    nonce is a counter that never repeats within 2^192 messages; the user hint
    that Encrypt leaves in a nonce is the one CheckUserFromHint looks for; the
    cipher cache is transparent; clocks up to two minutes apart find a key. *)
From S2P Require Import Prelude MathExt Messages GoStd Ascii.

Definition DefaultNonceSize : Z := 24.
Definition DefaultOverhead : Z := 16.
Definition DefaultKeyLen : Z := 32.
Definition NoncePrefixLenForUserHint : Z := 16.
Definition NonceSuffixLenForUserHint : Z := 4.
Definition MaxUserNameLen : Z := 64.
Definition KeyIter : Z := 64.
Definition KeyRefreshInterval : Z := 2 * Minute.
Definition cacheValidInterval : Z := KeyRefreshInterval `quot` 4.

Class Crypto := {
  (** [chacha20poly1305.NewX(key)], then [Seal] and [Open] without additional data. *)
  Seal : list Z → list Z → list Z → list Z;
  Open : list Z → list Z → list Z → option (list Z);
  (** [pbkdf2.Key(password, salt, iter, keyLen, sha256.New)]. *)
  pbkdf2Key : list Z → list Z → Z → Z → list Z
}.
Class CryptoLaws `(C : Crypto) : Prop := {
  Open_Seal key nonce p : Open key nonce (Seal key nonce p) = Some p;
  Seal_len key nonce p : len (Seal key nonce p) = len p + DefaultOverhead;
  Open_len key nonce c p : Open key nonce c = Some p → len c = len p + DefaultOverhead;
  Seal_bytes key nonce p : bytes_ok key → bytes_ok nonce → bytes_ok p → bytes_ok (Seal key nonce p);
  pbkdf2Key_len pw salt iter n : 0 <= n → len (pbkdf2Key pw salt iter n) = n
}.

Definition errCiphertextTooShort : error := Errorf "ciphertext is smaller than nonce size".
Definition errDestinationTooSmall : error := Errorf "destination capacity is too small".
Definition errUnableToDecrypt : error := Errorf "unable to decrypt from supplied cipher blocks".
Definition errOpen : error := Errorf "message authentication failed".

(** [BlockContext] is its only field, the user name; [aead] is determined by
    [key]; an empty [implicitNonce] is nil. *)
Record aeadBlockCipher := mkCipher {
  c_key : list Z;
  enableImplicitNonce : bool;
  implicitNonce : list Z;
  c_userName : list Z;
  noncePattern : option NoncePattern;
  noncePatternApplied : bool
}.

(** What the random sources return during the creation of one nonce. *)
Record nonceDraws := mkDraws {
  nd_bytes : option (list Z);        (* crypto/rand.Read of the nonce; None is an error *)
  nd_batches : list (list Z);        (* crypto/rand.Read calls of ToPrintableChar *)
  nd_rewrite : Z;                    (* math/rand.Intn(maxLen-minLen+1) *)
  nd_hexIdx : nat                    (* math/rand.Intn(len(hexStrings)) *)
}.

Record cachedCiphers := mkCached { cipherList : list aeadBlockCipher; createTime : Z; epoch : Z }.
(** [blockCipherCache], a sync.Map from passwords to entries. *)
Abbreviation cipherCache := (gmap (list Z) cachedCiphers).

Section cipher.
  Context `{C : Crypto}.

Definition newXChaCha20Poly1305BlockCipher (key : list Z) : result aeadBlockCipher :=
  if negb (len key =? 32) then Err (Errorf "XChaCha20-Poly1305 key length")
  else Ok (mkCipher key false [] [] None false).

Definition NonceSize (c : aeadBlockCipher) : Z := DefaultNonceSize.
Definition Overhead (c : aeadBlockCipher) : Z := DefaultOverhead.

Definition with_nonce (nonce : list Z) (c : aeadBlockCipher) : aeadBlockCipher :=
  mkCipher (c_key c) (enableImplicitNonce c) nonce (c_userName c) (noncePattern c) (noncePatternApplied c).
Definition with_applied (c : aeadBlockCipher) : aeadBlockCipher :=
  mkCipher (c_key c) (enableImplicitNonce c) (implicitNonce c) (c_userName c) (noncePattern c) true.

(** ** Nonces *)

Definition nonceRewriteLen (c : aeadBlockCipher) (nd : nonceDraws) : Z :=
  let minLen := GetMinLen (noncePattern c) in
  let maxLen := GetMaxLen (noncePattern c) in
  let maxLen := if maxLen >? NonceSize c then NonceSize c else maxLen in
  let minLen := if minLen >? maxLen then maxLen else minLen in
  if minLen =? maxLen then minLen else minLen + nd_rewrite nd.

(** [f(nonce, 0, rewriteLen)] of package common, whose indices are ints. *)
Definition rewritePrefix (f : list Z → nat → nat → result (list Z)) (nonce : list Z) (n : Z) : result (list Z) :=
  if n <? 0 then Panic "begin index > end index" else f nonce 0%nat (Z.to_nat n).

Definition newNonceTo (c : aeadBlockCipher) (nd : nonceDraws) (nonceLen : Z)
    : result (aeadBlockCipher * list Z) :=
  if nonceLen <? NonceSize c then Err errDestinationTooSmall else
  match nd_bytes nd with
  | None => Err (Errorf "crypto/rand.Read")
  | Some nonce =>
    match noncePattern c with
    | None => Ok (c, nonce)
    | Some pattern =>
      if negb (enableImplicitNonce c) && noncePatternApplied c && negb (GetApplyToAllUDPPacket (Some pattern))
      then Ok (c, nonce) else
      let type := GetType (Some pattern) in
      nonce ←
        (if type =? NONCE_TYPE_PRINTABLE
         then rewritePrefix (ToPrintableChar (nd_batches nd)) nonce (nonceRewriteLen c nd)
         else if type =? NONCE_TYPE_PRINTABLE_SUBSET
         then rewritePrefix ToCommon64Set nonce (nonceRewriteLen c nd)
         else if type =? NONCE_TYPE_FIXED then
           let hexStrings := GetCustomHexStrings (Some pattern) in
           if len hexStrings >? 0 then
             match DecodeString (nth (nd_hexIdx nd) hexStrings ""%string) with
             | Some prefix =>
               let copyLen := if len prefix >? NonceSize c then NonceSize c else len prefix in
               Ok (copy_at 0 (slice_to copyLen prefix) nonce)
             | None => Panic "fail to decode hex string"
             end
           else Ok nonce
         else Ok nonce);
      Ok (with_applied c, nonce)
    end
  end.

Definition newNonce (c : aeadBlockCipher) (nd : nonceDraws) : result (aeadBlockCipher * list Z) :=
  newNonceTo c nd (NonceSize c).

(** The bytes are incremented from the last one on while they wrap. *)
Fixpoint increaseLoop (n : nat) (l : list Z) : list Z :=
  match n with
  | O => l
  | S j =>
    let x := u8 (byte_at j l + 1) in
    let l := <[j:=x]> l in
    if negb (x =? 0) then l else increaseLoop j l
  end.
Definition increaseNonce (c : aeadBlockCipher) : result aeadBlockCipher :=
  if negb (enableImplicitNonce c) || (len (implicitNonce c) =? 0)
  then Panic "implicit nonce mode is not enabled"
  else Ok (with_nonce (increaseLoop (length (implicitNonce c)) (implicitNonce c)) c).

(** The hash input: the fixed array holds the name and the nonce prefix. *)
Definition hintOf (user nonce : list Z) : list Z :=
  slice_to NonceSuffixLenForUserHint (Sum256 (user ++ slice_to NoncePrefixLenForUserHint nonce)).

Definition addUserHintToNonce (c : aeadBlockCipher) (nonce : list Z) : result (list Z) :=
  if len (c_userName c) =? 0 then Ok nonce else
  if len (c_userName c) >? MaxUserNameLen then Panic "user name length exceeds maximum" else
  if len nonce <? NoncePrefixLenForUserHint + NonceSuffixLenForUserHint then Panic "nonce length is too short" else
  Ok (copy_at (Z.to_nat (len nonce - NonceSuffixLenForUserHint)) (hintOf (c_userName c) nonce) nonce).

Definition CheckUserFromHint (user nonce : list Z) : result bool :=
  if len user =? 0 then Panic "user is empty" else
  if len user >? MaxUserNameLen then Panic "user name length exceeds maximum" else
  if len nonce <? NoncePrefixLenForUserHint + NonceSuffixLenForUserHint then Panic "nonce length is too short" else
  Ok (bool_decide (hintOf user nonce = slice_from (len nonce - NonceSuffixLenForUserHint) nonce)).

(** ** Encryption and decryption *)

(** [Encrypt]: [room] is [cap(dst)-len(dst)], the result is what is appended to
    [dst].  An error leaves the cipher as it was. *)
Definition Encrypt (c : aeadBlockCipher) (nd : nonceDraws) (room : Z) (plaintext : list Z)
    : result (aeadBlockCipher * list Z) :=
  let needSendNonce := negb (enableImplicitNonce c) || (len (implicitNonce c) =? 0) in
  let resultLen := len plaintext + Overhead c in
  let resultLen := if needSendNonce then resultLen + NonceSize c else resultLen in
  if room <? resultLen then Err errDestinationTooSmall else
  '(c, nonce) ←
    (if enableImplicitNonce c then
       if len (implicitNonce c) =? 0 then
         '(c, nonce) ← newNonce c nd;
         nonce ← addUserHintToNonce c nonce;
         Ok (with_nonce nonce c, nonce)
       else
         c ← increaseNonce c;
         Ok (c, implicitNonce c)
     else
       '(c, nonce) ← newNonceTo c nd (NonceSize c);
       nonce ← addUserHintToNonce c nonce;
       Ok (c, nonce));
  Ok (c, (if needSendNonce then nonce else []) ++ Seal (c_key c) nonce plaintext).

Definition EncryptWithNonce (c : aeadBlockCipher) (room : Z) (nonce plaintext : list Z) : result (list Z) :=
  if enableImplicitNonce c then Err (Errorf "EncryptWithNonce() is not supported when implicit nonce is enabled") else
  if negb (len nonce =? NonceSize c) then Err (Errorf "want nonce size") else
  if room <? len plaintext + Overhead c then Err errDestinationTooSmall else
  Ok (Seal (c_key c) nonce plaintext).

Definition openWith (c : aeadBlockCipher) (nonce ciphertext : list Z) : result (list Z) :=
  match Open (c_key c) nonce ciphertext with
  | Some plaintext => Ok plaintext
  | None => Err (Wrapf "cipher.AEAD.Open() failed" errOpen)
  end.

(** [Decrypt] moves the implicit nonce even when the ciphertext does not open,
    so the new state comes with every outcome. *)
Definition Decrypt (c : aeadBlockCipher) (ciphertext : list Z) : aeadBlockCipher * result (list Z) :=
  if enableImplicitNonce c then
    if len (implicitNonce c) =? 0 then
      if len ciphertext <? NonceSize c then (c, Err errCiphertextTooShort) else
      let c := with_nonce (slice_to (NonceSize c) ciphertext) c in
      (c, openWith c (implicitNonce c) (slice_from (NonceSize c) ciphertext))
    else
      match increaseNonce c with
      | Ok c => (c, openWith c (implicitNonce c) ciphertext)
      | Err e => (c, Err e)
      | Panic m => (c, Panic m)
      end
  else
    if len ciphertext <? NonceSize c then (c, Err errCiphertextTooShort) else
    (c, openWith c (slice_to (NonceSize c) ciphertext) (slice_from (NonceSize c) ciphertext)).

Definition DecryptWithNonce (c : aeadBlockCipher) (ciphertext nonce : list Z) : result (list Z) :=
  if enableImplicitNonce c then Err (Errorf "EncryptWithNonce() is not supported when implicit nonce is enabled") else
  if negb (len nonce =? NonceSize c) then Err (Errorf "want nonce size") else
  openWith c nonce ciphertext.

(** [DecryptStatelessTo] appends to [dst]. *)
Definition DecryptStatelessTo (c : aeadBlockCipher) (ciphertext dst : list Z) : result (list Z) :=
  if len ciphertext <? NonceSize c then Err errCiphertextTooShort else
  match Open (c_key c) (slice_to (NonceSize c) ciphertext) (slice_from (NonceSize c) ciphertext) with
  | Some plaintext => Ok (dst ++ plaintext)
  | None => Err errOpen
  end.

Definition Clone (c : aeadBlockCipher) : result aeadBlockCipher :=
  match newXChaCha20Poly1305BlockCipher (c_key c) with
  | Ok n => Ok (mkCipher (c_key n) (enableImplicitNonce c)
                  (if negb (len (implicitNonce c) =? 0) then implicitNonce c else implicitNonce n)
                  (c_userName c) (noncePattern c) (noncePatternApplied n))
  | Err _ => Panic "newXChaCha20Poly1305BlockCipher"
  | Panic m => Panic m
  end.
Definition cloneStatelessFast (c : aeadBlockCipher) : aeadBlockCipher := mkCipher (c_key c) false [] [] None false.
Definition SetImplicitNonceMode (enable : bool) (c : aeadBlockCipher) : aeadBlockCipher :=
  mkCipher (c_key c) enable (if enable then implicitNonce c else []) (c_userName c) (noncePattern c)
    (noncePatternApplied c).
Definition IsStateless (c : aeadBlockCipher) : bool := negb (enableImplicitNonce c).
Definition SetBlockContext (userName : list Z) (c : aeadBlockCipher) : aeadBlockCipher :=
  mkCipher (c_key c) (enableImplicitNonce c) (implicitNonce c) userName (noncePattern c) (noncePatternApplied c).
Definition SetNoncePattern (pattern : option NoncePattern) (c : aeadBlockCipher) : aeadBlockCipher :=
  mkCipher (c_key c) (enableImplicitNonce c) (implicitNonce c) (c_userName c) pattern (noncePatternApplied c).

(** [selectDecrypt] runs on mutable clones: the one that opens the data is
    returned in its new state, the others are dropped. *)
Fixpoint selectDecrypt (data : list Z) (blocks : list aeadBlockCipher) : result (aeadBlockCipher * list Z) :=
  match blocks with
  | [] => Err errUnableToDecrypt
  | block :: blocks =>
    match Decrypt block data with
    | (block, Ok decrypted) => Ok (block, decrypted)
    | (_, Err _) => selectDecrypt data blocks
    | (_, Panic m) => Panic m
    end
  end.
Fixpoint selectDecryptStateless (ciphertext dst : list Z) (blocks : list aeadBlockCipher)
    : result (aeadBlockCipher * list Z) :=
  match blocks with
  | [] => Err errUnableToDecrypt
  | block :: blocks =>
    match DecryptStatelessTo block ciphertext dst with
    | Ok decrypted => Ok (block, decrypted)
    | Err _ => selectDecryptStateless ciphertext dst blocks
    | Panic m => Panic m
    end
  end.

(** ** Keys *)

Definition HashPassword (rawPassword uniqueValue : list Z) : list Z := Sum256 (rawPassword ++ [0] ++ uniqueValue).

Definition NewKey (salt : list Z) (iter : Z) (password : list Z) (keyLen : Z) : result (list Z) :=
  if len password =? 0 then Err (Errorf "password is empty") else Ok (pbkdf2Key password salt iter keyLen).

Definition saltTimes (t : Z) : list Z :=
  let rounded := Time_Round t KeyRefreshInterval in
  [rounded - KeyRefreshInterval; rounded; rounded + KeyRefreshInterval].
Definition saltFromTime (t : Z) : list (list Z) :=
  (λ t, Sum256 (be_put 8 (u64 (Unix t)))) <$> saltTimes t.

Definition cipherKeyEpoch (t : Z) : Z := Unix (Time_Round t KeyRefreshInterval).

Fixpoint newBlockCiphers (password : list Z) (salts : list (list Z)) : result (list aeadBlockCipher) :=
  match salts with
  | [] => Ok []
  | salt :: salts =>
    cipherKey ← NewKey salt KeyIter password DefaultKeyLen;
    block ← newXChaCha20Poly1305BlockCipher cipherKey;
    blocks ← newBlockCiphers password salts;
    Ok (block :: blocks)
  end.
Definition newBlockCipherList (password : list Z) (now : Z) : result (list aeadBlockCipher) :=
  newBlockCiphers password (saltFromTime now).

(** ** The cipher cache *)


(** [jitterMs] is [mrand.Intn(cacheValidMaxJitterMs)]. *)
Definition getCachedCiphers (cache : cipherCache) (password : list Z) (now jitterMs : Z)
    : cipherCache * result cachedCiphers :=
  let hit :=
    entry ← cache !! password;
    let jitter := jitterMs * Millisecond in
    if negb (epoch entry =? cipherKeyEpoch now) || (createTime entry + (cacheValidInterval - jitter) <? now)
    then None else Some entry in
  match hit with
  | Some entry => (cache, Ok entry)
  | None =>
    match newBlockCipherList password now with
    | Ok blockCiphers =>
      let entry := mkCached blockCiphers now (cipherKeyEpoch now) in
      (<[password:=entry]> cache, Ok entry)
    | Err e => (cache, Err (Wrapf "newBlockCipherList() failed" e))
    | Panic m => (cache, Panic m)
    end
  end.

Definition getBlockCipherList (cache : cipherCache) (password : list Z) (stateless : bool) (now jitterMs : Z)
    : cipherCache * result (list aeadBlockCipher) :=
  let '(cache, r) := getCachedCiphers cache password now jitterMs in
  (cache, entry ← r;
     Ok ((λ block, if stateless then block else SetImplicitNonceMode true (cloneStatelessFast block))
           <$> cipherList entry)).

(** [BlockCipherFromPassword]: the middle cipher of the three. *)
Definition BlockCipherFromPassword (cache : cipherCache) (password : list Z) (stateless : bool) (now jitterMs : Z)
    : cipherCache * result aeadBlockCipher :=
  let '(cache, r) := getCachedCiphers cache password now jitterMs in
  (cache, entry ← r;
     match cipherList entry !! 1%nat with
     | None => Panic "index out of range"
     | Some template =>
       let block := cloneStatelessFast template in
       Ok (if stateless then block else SetImplicitNonceMode true block)
     end).
Definition BlockCipherListFromPassword (cache : cipherCache) (password : list Z) (stateless : bool) (now jitterMs : Z)
    : cipherCache * result (list aeadBlockCipher) :=
  let '(cache, r) := getCachedCiphers cache password now jitterMs in
  (cache, entry ← r;
     Ok ((λ template, let block := cloneStatelessFast template in
                      if stateless then block else SetImplicitNonceMode true block)
           <$> cipherList entry)).

Definition TryDecrypt (cache : cipherCache) (data password : list Z) (stateless : bool) (now jitterMs : Z)
    : cipherCache * result (aeadBlockCipher * list Z) :=
  if stateless then
    let '(cache, r) := getCachedCiphers cache password now jitterMs in
    (cache,
     match r with
     | Err e => Err (Wrapf "getBlockCipherList() failed" e)
     | Panic m => Panic m
     | Ok entry =>
       match selectDecryptStateless data [] (cipherList entry) with
       | Ok (block, plaintext) => Ok (cloneStatelessFast block, plaintext)
       | Err _ => Err errUnableToDecrypt
       | Panic m => Panic m
       end
     end)
  else
    let '(cache, r) := getBlockCipherList cache password stateless now jitterMs in
    (cache,
     match r with
     | Err e => Err (Wrapf "getBlockCipherList() failed" e)
     | Panic m => Panic m
     | Ok blocks => selectDecrypt data blocks
     end).

(** [StatelessDecryptor]: its own copy of the last cache entry. *)
Record StatelessDecryptor := mkDecryptor { d_password : list Z; d_ciphers : option cachedCiphers }.
Definition NewStatelessDecryptor (password : list Z) : result StatelessDecryptor :=
  if len password =? 0 then Err (Errorf "password is empty") else Ok (mkDecryptor password None).
Definition tryDecryptAt (cache : cipherCache) (d : StatelessDecryptor) (ciphertext dst : list Z) (now jitterMs : Z)
    : cipherCache * StatelessDecryptor * result (aeadBlockCipher * list Z) :=
  let fresh := match d_ciphers d with
               | Some entry => if epoch entry =? cipherKeyEpoch now then Some entry else None
               | None => None
               end in
  let '(cache, r) := match fresh with
                     | Some entry => (cache, Ok entry)
                     | None => getCachedCiphers cache (d_password d) now jitterMs
                     end in
  match r with
  | Err e => (cache, d, Err e)
  | Panic m => (cache, d, Panic m)
  | Ok entry =>
    (cache, mkDecryptor (d_password d) (Some entry),
     '(block, plaintext) ← selectDecryptStateless ciphertext dst (cipherList entry);
     Ok (cloneStatelessFast block, plaintext))
  end.
End cipher.

(** ** The nonce counter *)

Lemma be_put_snoc n v : be_put (S n) v = be_put n (v / 256) ++ [v mod 256].
Proof.
  revert v. induction n as [|n IH]; intros v;
    [change ([(v / 1) mod 256] = [v mod 256]); by rewrite Z.div_1_r|].
  change (be_put (S (S n)) v) with ((v / 256 ^ Z.of_nat (S n)) mod 256 :: be_put (S n) v). rewrite IH.
  change (be_put (S n) (v / 256)) with ((v / 256 / 256 ^ Z.of_nat n) mod 256 :: be_put n (v / 256)).
  rewrite Z.div_div, Nat2Z.inj_succ, Z.pow_succ_r by (try apply Z.pow_pos_nonneg; lia). done.
Qed.

Lemma increaseLoop_spec pre suf :
  bytes_ok pre → increaseLoop (length pre) (pre ++ suf) = be_put (length pre) (be_get pre + 1) ++ suf.
Proof.
  revert suf. induction pre as [|x p IH] using rev_ind; intros suf Hb; [done|].
  apply bytes_ok_app in Hb as [Hp Hx]. apply Forall_singleton in Hx as [Hx0 Hx1]. change (2 ^ 8) with 256 in Hx1.
  rewrite length_app, Nat.add_1_r, be_put_snoc, be_get_snoc. cbn [increaseLoop].
  assert (byte_at (length p) ((p ++ [x]) ++ suf) = x) as ->.
  { unfold byte_at. rewrite <-app_assoc, app_nth2, Nat.sub_diag by lia. done. }
  rewrite <-!app_assoc. cbn [app]. rewrite insert_app_r_alt, Nat.sub_diag by lia. cbn [insert list_insert].
  destruct (Z.eq_dec x 255) as [->|Hn].
  - change (u8 (255 + 1)) with 0. cbn [negb Z.eqb]. rewrite IH by done.
    replace (be_get p * 256 + 255 + 1) with ((be_get p + 1) * 256) by lia.
    by rewrite Z.div_mul, Z.mod_mul by lia.
  - rewrite wrap_id by (unfold in_width; lia). destruct (Z.eqb_spec (x + 1) 0); [lia|]. cbn [negb].
    rewrite <-Z.add_assoc, Z.div_add_l, Z.div_small, Z.add_0_r, be_put_get by (done || lia).
    by rewrite (Z.add_comm (_ * 256)), Z.mod_add, Z.mod_small by lia.
Qed.

Definition nonce_wf (nonce : list Z) : Prop := len nonce = DefaultNonceSize ∧ bytes_ok nonce.

Lemma increaseLoop_nonce l :
  bytes_ok l → increaseLoop (length l) l = be_put (length l) (be_get l + 1).
Proof. intros. rewrite <-(app_nil_r l) at 2. by rewrite increaseLoop_spec, app_nil_r. Qed.

Lemma increaseNonce_spec c :
  enableImplicitNonce c = true → nonce_wf (implicitNonce c) →
  increaseNonce c = Ok (with_nonce (be_put 24 (be_get (implicitNonce c) + 1)) c).
Proof.
  intros He [Hl Hb]. unfold increaseNonce. rewrite He, Hl, increaseLoop_nonce by done.
  replace (length (implicitNonce c)) with 24%nat; [done|]. unfold len, DefaultNonceSize in Hl. lia.
Qed.

Lemma be_put_nonce_wf v : nonce_wf (be_put 24 v).
Proof. split; [|auto with mieru]. unfold len. by rewrite be_put_length. Qed.
#[export] Hint Resolve be_put_nonce_wf : mieru.

Definition example_cipher : aeadBlockCipher :=
  mkCipher (replicate 32 7) true (replicate 23 255 ++ [254]) (bytes_of_string "alice") None false.

(** ** The user hint *)

Lemma hintOf_length user nonce : length (hintOf user nonce) = 4%nat.
Proof. unfold hintOf, slice_to. rewrite length_take, Sum256_length. done. Qed.

Lemma addUserHint_spec c nonce :
  0 < len (c_userName c) <= MaxUserNameLen → len nonce = DefaultNonceSize →
  addUserHintToNonce c nonce = Ok (take 20 nonce ++ hintOf (c_userName c) nonce).
Proof.
  intros [Hu1 Hu2] Hl. unfold addUserHintToNonce. rewrite Hl.
  destruct (Z.eqb_spec (len (c_userName c)) 0); [lia|]. rewrite Z.gtb_ltb.
  destruct (Z.ltb_spec MaxUserNameLen (len (c_userName c))); [lia|].
  change (24 <? _) with false. cbn [negb].
  change (Z.to_nat (DefaultNonceSize - NonceSuffixLenForUserHint)) with 20%nat.
  unfold copy_at. rewrite hintOf_length. unfold len, DefaultNonceSize in Hl.
  replace (length nonce) with 24%nat by lia. change (Nat.min 4 (24 - 20)) with 4%nat.
  rewrite (firstn_all2 (hintOf _ _)) by (rewrite hintOf_length; lia).
  rewrite (drop_ge nonce) by lia. by rewrite app_nil_r.
Qed.

Lemma hintOf_prefix user nonce nonce' :
  take 16 nonce = take 16 nonce' → hintOf user nonce = hintOf user nonce'.
Proof. unfold hintOf, slice_to. change (Z.to_nat NoncePrefixLenForUserHint) with 16%nat. by intros ->. Qed.

Lemma CheckUserFromHint_added c nonce nonce' :
  0 < len (c_userName c) <= MaxUserNameLen → len nonce = DefaultNonceSize →
  addUserHintToNonce c nonce = Ok nonce' →
  len nonce' = DefaultNonceSize ∧ CheckUserFromHint (c_userName c) nonce' = Ok true.
Proof.
  intros Hu Hl. rewrite addUserHint_spec by done. intros [= <-].
  assert (length (take 20 nonce) = 20%nat) as Ht by (unfold len, DefaultNonceSize in Hl; rewrite length_take; lia).
  assert (len (take 20 nonce ++ hintOf (c_userName c) nonce) = 24) as Hl'
    by (unfold len; rewrite length_app, Ht, hintOf_length; done).
  split; [done|]. unfold CheckUserFromHint. rewrite Hl', Z.gtb_ltb.
  destruct (Z.eqb_spec (len (c_userName c)) 0); [lia|].
  destruct (Z.ltb_spec MaxUserNameLen (len (c_userName c))); [lia|]. change (24 <? _) with false. cbn [negb].
  f_equal. apply bool_decide_eq_true. unfold slice_from. change (Z.to_nat (24 - _)) with 20%nat.
  rewrite <-Ht at 2. rewrite drop_app_length. apply hintOf_prefix.
  rewrite take_app_le by lia. by rewrite take_take.
Qed.

(** User hint: for a user name of 1 to 64 bytes, the nonce that
    [addUserHintToNonce] returns passes [CheckUserFromHint] for the same name,
    and its first 20 bytes are those of the random nonce. *)
Theorem user_hint_check (c : aeadBlockCipher) (nonce : list Z) :
  0 < len (c_userName c) <= MaxUserNameLen → len nonce = DefaultNonceSize →
  ∃ nonce', addUserHintToNonce c nonce = Ok nonce' ∧ len nonce' = DefaultNonceSize ∧
    take 20 nonce' = take 20 nonce ∧ CheckUserFromHint (c_userName c) nonce' = Ok true.
Proof.
  intros Hu Hl. eexists. split; [by apply addUserHint_spec|].
  destruct (CheckUserFromHint_added c nonce _ Hu Hl (addUserHint_spec _ _ Hu Hl)) as [H1 H2].
  split_and!; [done| |done].
  rewrite take_app_le by (rewrite length_take; unfold len, DefaultNonceSize in Hl; lia). by rewrite take_take.
Qed.
Lemma user_hint_check_witness :
  ∃ nonce', addUserHintToNonce example_cipher (seqZ 0 24) = Ok nonce' ∧ len nonce' = DefaultNonceSize ∧
    take 20 nonce' = take 20 (seqZ 0 24) ∧ CheckUserFromHint (c_userName example_cipher) nonce' = Ok true.
Proof. apply (user_hint_check example_cipher (seqZ 0 24)); [vm_compute; split; congruence|done]. Defined.

(** ** Round trips *)

(** A read of the random source fills the nonce. *)
Definition draws_ok (nd : nonceDraws) : Prop := ∀ bs, nd_bytes nd = Some bs → len bs = DefaultNonceSize.

Lemma rewritePrefix_length f nonce n nonce' :
  (∀ hi b', f nonce 0%nat hi = Ok b' → length b' = length nonce) →
  rewritePrefix f nonce n = Ok nonce' → length nonce' = length nonce.
Proof. intros Hf. unfold rewritePrefix. case_match; [done|]. apply Hf. Qed.

Lemma newNonceTo_inv c nd n c' nonce :
  draws_ok nd → newNonceTo c nd n = Ok (c', nonce) →
  len nonce = DefaultNonceSize ∧ (c' = c ∨ c' = with_applied c).
Proof.
  intros Hd. unfold newNonceTo. destruct (n <? _); [done|].
  destruct (nd_bytes nd) as [bs|] eqn:Eb; [|done]. specialize (Hd _ Eb).
  destruct (noncePattern c) as [pat|]; [|by intros [= <- <-]; auto].
  destruct (_ && _ && _); [by intros [= <- <-]; auto|].
  assert (∀ l : list Z, length l = length bs → len l = DefaultNonceSize) as Hlen by (unfold len in *; congruence).
  set (r := if _ =? NONCE_TYPE_PRINTABLE then _ else _).
  assert (∀ l, r = Ok l → length l = length bs) as Hr.
  { subst r. intros l. destruct (_ =? NONCE_TYPE_PRINTABLE).
    { apply rewritePrefix_length. intros ??. apply ToPrintableChar_length. }
    destruct (_ =? NONCE_TYPE_PRINTABLE_SUBSET).
    { apply rewritePrefix_length. intros ??. apply ToCommon64Set_length. }
    destruct (_ =? NONCE_TYPE_FIXED); [|by intros [= <-]].
    destruct (_ >? 0); [|by intros [= <-]]. destruct (DecodeString _); [|done].
    intros [= <-]. apply length_copy_at. lia. }
  destruct r as [l|e|m]; [rewrite bind_Ok|done..]. intros [= <- <-]. auto.
Qed.

Lemma addUserHint_len c nonce nonce' :
  len nonce = DefaultNonceSize → addUserHintToNonce c nonce = Ok nonce' → len nonce' = DefaultNonceSize.
Proof.
  intros Hl. unfold addUserHintToNonce. repeat (case_match; [intros; by inv_result|]). intros [= <-].
  unfold len in *. rewrite length_copy_at; [done|]. rewrite Hl. unfold NonceSuffixLenForUserHint, DefaultNonceSize in *. lia.
Qed.

(** The hint is added whenever the name is not too long. *)
Lemma addUserHint_total c nonce :
  len (c_userName c) <= MaxUserNameLen → len nonce = DefaultNonceSize → is_Ok (addUserHintToNonce c nonce).
Proof.
  intros Hu Hl. destruct (Z.eq_dec (len (c_userName c)) 0) as [E|E].
  - unfold addUserHintToNonce. rewrite E. by eexists.
  - eexists. apply addUserHint_spec; [|done]. pose proof (len_nonneg (c_userName c)). lia.
Qed.

(** What a nonce generation that succeeds gives. *)
Lemma newNonce_hint c nd c1 n1 :
  draws_ok nd → len (c_userName c) <= MaxUserNameLen → newNonceTo c nd (NonceSize c) = Ok (c1, n1) →
  (c1 = c ∨ c1 = with_applied c) ∧
  ∃ n2, addUserHintToNonce c1 n1 = Ok n2 ∧ len n2 = DefaultNonceSize ∧
    (0 < len (c_userName c) → CheckUserFromHint (c_userName c) n2 = Ok true).
Proof.
  intros Hd Hu Hn. destruct (newNonceTo_inv _ _ _ _ _ Hd Hn) as [Hl Hc]. split; [done|].
  assert (c_userName c1 = c_userName c) as Eu by (by destruct Hc as [-> | ->]).
  destruct (addUserHint_total c1 n1) as [n2 Hn2]; [by rewrite Eu|done|]. exists n2. split_and!; [done| |].
  - by eapply addUserHint_len.
  - intros. rewrite <-Eu in *. by eapply CheckUserFromHint_added.
Qed.

(** A generated nonce is bytes when the random source's are. *)
Definition draws_bytes (nd : nonceDraws) : Prop := ∀ bs, nd_bytes nd = Some bs → bytes_ok bs.

Lemma bytes_ok_copy_at off data buf : bytes_ok data → bytes_ok buf → bytes_ok (copy_at off data buf).
Proof. intros. unfold copy_at. rewrite !bytes_ok_app. split_and!; auto with mieru. Qed.
Lemma rewritePrefix_bytes f nonce n nonce' :
  (∀ hi b', f nonce 0%nat hi = Ok b' → bytes_ok b') → rewritePrefix f nonce n = Ok nonce' → bytes_ok nonce'.
Proof. intros Hf. unfold rewritePrefix. case_match; [done|]. apply Hf. Qed.
Lemma newNonceTo_bytes c nd n c' nonce : draws_bytes nd → newNonceTo c nd n = Ok (c', nonce) → bytes_ok nonce.
Proof.
  intros Hd. unfold newNonceTo. destruct (n <? _); [done|].
  destruct (nd_bytes nd) as [bs|] eqn:Eb; [|done]. specialize (Hd _ Eb).
  destruct (noncePattern c) as [pat|]; [|by intros [= <- <-]].
  destruct (_ && _ && _); [by intros [= <- <-]|].
  set (r := if _ =? NONCE_TYPE_PRINTABLE then _ else _).
  assert (∀ l, r = Ok l → bytes_ok l) as Hr.
  { subst r. intros l. destruct (_ =? NONCE_TYPE_PRINTABLE).
    { apply rewritePrefix_bytes. intros ??. by apply ToPrintableChar_bytes. }
    destruct (_ =? NONCE_TYPE_PRINTABLE_SUBSET).
    { apply rewritePrefix_bytes. intros ??. by apply ToCommon64Set_bytes. }
    destruct (_ =? NONCE_TYPE_FIXED); [|by intros [= <-]].
    destruct (_ >? 0); [|by intros [= <-]]. destruct (DecodeString _) as [prefix|] eqn:Ep; [|done].
    intros [= <-]. apply bytes_ok_copy_at; [|done]. unfold slice_to. apply bytes_ok_take. by eapply hexDecode_bytes. }
  destruct r as [l|e|m]; [rewrite bind_Ok|done..]. intros [= <- <-]. auto.
Qed.
Lemma addUserHint_bytes c n1 n2 : bytes_ok n1 → addUserHintToNonce c n1 = Ok n2 → bytes_ok n2.
Proof.
  intros Hb. unfold addUserHintToNonce. repeat (case_match; [intros; by inv_result|]). intros [= <-].
  apply bytes_ok_copy_at; [|done]. unfold hintOf, slice_to. auto with mieru.
Qed.

Section roundtrips.
Context `{CL : CryptoLaws}.

Lemma openWith_Seal c1 c2 nonce p : c_key c1 = c_key c2 → openWith c2 nonce (Seal (c_key c1) nonce p) = Ok p.
Proof. intros ->. unfold openWith. by rewrite Open_Seal. Qed.

Lemma split_nonce (nonce ct : list Z) :
  len nonce = DefaultNonceSize →
  (len (nonce ++ ct) <? DefaultNonceSize) = false ∧
  slice_to DefaultNonceSize (nonce ++ ct) = nonce ∧ slice_from DefaultNonceSize (nonce ++ ct) = ct.
Proof.
  intros Hl. unfold slice_to, slice_from. rewrite len_app.
  replace (Z.to_nat DefaultNonceSize) with (length nonce) by (unfold len in Hl; lia).
  rewrite take_app_length, drop_app_length. pose proof (len_nonneg ct). split_and!; [|done..].
  apply Z.ltb_ge. lia.
Qed.

Lemma encrypt_stateless (c c2 c1 : aeadBlockCipher) (nd : nonceDraws) (room : Z) (pt dst n1 : list Z) :
  enableImplicitNonce c = false → enableImplicitNonce c2 = false → c_key c = c_key c2 →
  draws_ok nd → len (c_userName c) <= MaxUserNameLen → newNonceTo c nd (NonceSize c) = Ok (c1, n1) →
  len pt + DefaultOverhead + DefaultNonceSize <= room →
  ∃ ct, Encrypt c nd room pt = Ok (c1, ct) ∧
    len ct = DefaultNonceSize + len pt + DefaultOverhead ∧
    Decrypt c2 ct = (c2, Ok pt) ∧ DecryptStatelessTo c2 ct dst = Ok (dst ++ pt) ∧
    (0 < len (c_userName c) → CheckUserFromHint (c_userName c) (slice_to DefaultNonceSize ct) = Ok true).
Proof using CL.
  intros He He2 Hk Hd Hu Hn Hroom.
  destruct (newNonce_hint _ _ _ _ Hd Hu Hn) as (Hc & n2 & Hn2 & Hl & Hchk).
  assert (c_key c1 = c_key c) as Hk1 by (by destruct Hc as [-> | ->]).
  destruct (split_nonce n2 (Seal (c_key c1) n2 pt) Hl) as (H1 & H2 & H3).
  exists (n2 ++ Seal (c_key c1) n2 pt). split_and!.
  - unfold Encrypt. rewrite He. cbn [negb orb]. destruct (Z.ltb_spec room (len pt + Overhead c + NonceSize c)) as [Hr|Hr].
    { unfold Overhead, NonceSize in Hr. lia. }
    rewrite Hn, !bind_Ok, Hn2, !bind_Ok. done.
  - rewrite len_app, Seal_len. lia.
  - unfold Decrypt, NonceSize. rewrite He2, H1, H2, H3, openWith_Seal by congruence. done.
  - unfold DecryptStatelessTo, NonceSize. rewrite H1, H2, H3, Hk1, Hk, Open_Seal. done.
  - by rewrite H2.
Qed.

(** Stateless round trip: with enough room and a nonce source that works,
    [Encrypt] produces nonce, ciphertext and tag (40 bytes more than the
    plaintext), any stateless cipher with the same key decrypts it, with
    [Decrypt] and with [DecryptStatelessTo], and the nonce carries the user's
    hint. *)
Theorem stateless_roundtrip (c c2 c1 : aeadBlockCipher) (nd : nonceDraws) (room : Z) (pt dst n1 : list Z) :
  enableImplicitNonce c = false → enableImplicitNonce c2 = false → c_key c = c_key c2 →
  draws_ok nd → len (c_userName c) <= MaxUserNameLen → newNonceTo c nd (NonceSize c) = Ok (c1, n1) →
  len pt + DefaultOverhead + DefaultNonceSize <= room →
  ∃ ct, Encrypt c nd room pt = Ok (c1, ct) ∧
    len ct = DefaultNonceSize + len pt + DefaultOverhead ∧
    Decrypt c2 ct = (c2, Ok pt) ∧ DecryptStatelessTo c2 ct dst = Ok (dst ++ pt) ∧
    (0 < len (c_userName c) → CheckUserFromHint (c_userName c) (slice_to DefaultNonceSize ct) = Ok true).
Proof using CL. apply encrypt_stateless. Qed.

(** *** Implicit nonces *)

(** Consecutive messages of one stateful sender and one stateful receiver. *)
Fixpoint encryptAll (c : aeadBlockCipher) (nd : nonceDraws) (pts : list (list Z))
    : result (aeadBlockCipher * list (list Z)) :=
  match pts with
  | [] => Ok (c, [])
  | pt :: pts =>
    '(c, ct) ← Encrypt c nd (len pt + DefaultOverhead + DefaultNonceSize) pt;
    '(c, cts) ← encryptAll c nd pts;
    Ok (c, ct :: cts)
  end.
Fixpoint decryptAll (c : aeadBlockCipher) (cts : list (list Z)) : aeadBlockCipher * result (list (list Z)) :=
  match cts with
  | [] => (c, Ok [])
  | ct :: cts =>
    match Decrypt c ct with
    | (c, Ok pt) => let '(c, r) := decryptAll c cts in (c, pts ← r; Ok (pt :: pts))
    | (c, Err e) => (c, Err e)
    | (c, Panic m) => (c, Panic m)
    end
  end.

(** Sender and receiver are in step. *)
Definition in_step (s r : aeadBlockCipher) : Prop :=
  enableImplicitNonce s = true ∧ enableImplicitNonce r = true ∧ c_key s = c_key r ∧
  implicitNonce s = implicitNonce r ∧ len (implicitNonce s) = DefaultNonceSize.

Lemma length_increaseLoop n l : length (increaseLoop n l) = length l.
Proof.
  revert l. induction n as [|n IH]; intros l; [done|]. cbn [increaseLoop]. case_match; [by rewrite length_insert|].
  by rewrite IH, length_insert.
Qed.

Lemma encrypt_in_step s r nd room pt :
  in_step s r → len pt + DefaultOverhead <= room →
  ∃ s' r' ct, Encrypt s nd room pt = Ok (s', ct) ∧ len ct = len pt + DefaultOverhead ∧
    Decrypt r ct = (r', Ok pt) ∧ in_step s' r'.
Proof using CL.
  intros (He & He2 & Hk & Hn & Hl) Hroom.
  set (n' := increaseLoop (length (implicitNonce s)) (implicitNonce s)).
  assert (increaseNonce s = Ok (with_nonce n' s)) as Hs by (unfold increaseNonce; by rewrite He, Hl).
  assert (increaseNonce r = Ok (with_nonce n' r)) as Hr by (unfold increaseNonce; by rewrite He2, <-Hn, Hl).
  exists (with_nonce n' s), (with_nonce n' r), (Seal (c_key s) n' pt). split_and!.
  - unfold Encrypt. rewrite He, Hl, Hs. change (DefaultNonceSize =? 0) with false. cbn [negb orb].
    destruct (Z.ltb_spec room (len pt + Overhead s)) as [Hx|Hx]; [unfold Overhead in Hx; lia|].
    rewrite !bind_Ok. done.
  - apply Seal_len.
  - unfold Decrypt. rewrite He2, <-Hn, Hl, Hr. change (DefaultNonceSize =? 0) with false. cbn iota.
    f_equal. by apply (openWith_Seal s (with_nonce n' r)).
  - unfold in_step. simpl. split_and!; try done. unfold len, n'. by rewrite length_increaseLoop.
Qed.

Lemma all_in_step nd pts s r :
  in_step s r →
  ∃ s' r' cts, encryptAll s nd pts = Ok (s', cts) ∧ decryptAll r cts = (r', Ok pts) ∧ in_step s' r'.
Proof using CL.
  revert s r. induction pts as [|pt pts IH]; intros s r Hst; [by exists s, r, []|].
  destruct (encrypt_in_step s r nd (len pt + DefaultOverhead + DefaultNonceSize) pt Hst) as
    (s1 & r1 & ct & E1 & _ & D1 & Hst1); [unfold DefaultNonceSize; lia|].
  destruct (IH s1 r1 Hst1) as (s2 & r2 & cts & E2 & D2 & Hst2). exists s2, r2, (ct :: cts). split_and!; [| |done].
  - cbn [encryptAll]. by rewrite E1, bind_Ok, E2.
  - cbn [decryptAll]. by rewrite D1, D2.
Qed.

(** The first message of a stream carries its nonce. *)
Lemma Encrypt_first c nd pt s1 n1 n2 :
  enableImplicitNonce c = true → implicitNonce c = [] → newNonce c nd = Ok (s1, n1) → addUserHintToNonce s1 n1 = Ok n2 →
  Encrypt c nd (len pt + DefaultOverhead + DefaultNonceSize) pt = Ok (with_nonce n2 s1, n2 ++ Seal (c_key s1) n2 pt).
Proof using.
  intros He Hs Hn Hn2. unfold Encrypt. rewrite He, Hs. cbn [negb orb]. change (len [] =? 0) with true. cbn iota.
  destruct (Z.ltb_spec (len pt + DefaultOverhead + DefaultNonceSize) (len pt + Overhead c + NonceSize c)) as [Hx|Hx].
  { unfold Overhead, NonceSize in Hx. lia. }
  by rewrite Hn, !bind_Ok, Hn2, !bind_Ok.
Qed.

(** Implicit-nonce streams: a fresh stateful sender and a fresh stateful
    receiver with the same key stay in step over any sequence of messages; the
    first ciphertext carries the nonce, the others do not, and the receiver
    decrypts the sequence to the plaintexts in order. *)
Theorem stateful_stream_roundtrip (s r s1 : aeadBlockCipher) (nd : nonceDraws) (n1 : list Z) (pts : list (list Z)) :
  enableImplicitNonce s = true → enableImplicitNonce r = true → c_key s = c_key r →
  implicitNonce s = [] → implicitNonce r = [] →
  draws_ok nd → len (c_userName s) <= MaxUserNameLen → newNonce s nd = Ok (s1, n1) → pts ≠ [] →
  ∃ s' r' cts, encryptAll s nd pts = Ok (s', cts) ∧ decryptAll r cts = (r', Ok pts) ∧ in_step s' r'.
Proof using CL.
  intros He He2 Hk Hs Hr Hd Hu Hn Hne. destruct pts as [|pt pts]; [done|].
  destruct (newNonce_hint _ _ _ _ Hd Hu Hn) as (Hc & n2 & Hn2 & Hl & _).
  assert (c_key s1 = c_key s ∧ enableImplicitNonce s1 = true) as [Hk1 He1] by (by destruct Hc as [-> | ->]).
  destruct (split_nonce n2 (Seal (c_key s1) n2 pt) Hl) as (H1 & H2 & H3).
  destruct (all_in_step nd pts (with_nonce n2 s1) (with_nonce n2 r)) as (s' & r' & cts & E & D & Hst).
  { unfold in_step. simpl. split_and!; congruence. }
  exists s', r', ((n2 ++ Seal (c_key s1) n2 pt) :: cts). split_and!; [| |done].
  - cbn [encryptAll]. by rewrite (Encrypt_first s nd pt s1 n1 n2), bind_Ok, E.
  - cbn [decryptAll]. unfold Decrypt at 1, NonceSize. rewrite He2, Hr. change (len [] =? 0) with true. cbn iota.
    rewrite H1, H2, H3. simpl implicitNonce. rewrite openWith_Seal by (simpl; congruence). by rewrite D.
Qed.

(** *** No nonce twice *)

(** A stream that can be written to: it runs already, or it is new, with a user
    name of a length that is allowed, and its first nonce can be drawn. *)
Definition stream_ready (c : aeadBlockCipher) (nd : nonceDraws) : Prop :=
  enableImplicitNonce c = true ∧
  (nonce_wf (implicitNonce c) ∨
   implicitNonce c = [] ∧ len (c_userName c) <= MaxUserNameLen ∧ draws_ok nd ∧ draws_bytes nd ∧ is_Ok (newNonce c nd)).

(** The [k] values that the counter takes after [start]. *)
Definition countFrom (start : Z) (k : nat) : list (list Z) := be_put 24 <$> seqZ (start + 1) (Z.of_nat k).

Lemma countFrom_S start k : countFrom start (S k) = be_put 24 (start + 1) :: countFrom (start + 1) k.
Proof. unfold countFrom. rewrite Nat2Z.inj_succ, seqZ_cons by lia. by rewrite Z.pred_succ. Qed.
Lemma countFrom_mod start start' k :
  start mod 2 ^ 192 = start' mod 2 ^ 192 → countFrom start k = countFrom start' k.
Proof.
  revert start start'. induction k as [|k IH]; intros start start' E; [done|].
  assert ((start + 1) mod 2 ^ 192 = (start' + 1) mod 2 ^ 192) as E1.
  { by rewrite <-Z.add_mod_idemp_l, E, Z.add_mod_idemp_l. }
  rewrite !countFrom_S. f_equal; [|by apply IH].
  rewrite <-(be_put_mod 24 24 (start + 1)), <-(be_put_mod 24 24 (start' + 1)) by done.
  change (256 ^ Z.of_nat 24) with (2 ^ 192). by rewrite E1.
Qed.
Lemma countFrom_wf start k : Forall nonce_wf (countFrom start k).
Proof. apply Forall_fmap, Forall_true. intros v. apply be_put_nonce_wf. Qed.
Lemma countFrom_NoDup start k : Z.of_nat k <= 2 ^ 192 → NoDup (countFrom start k).
Proof.
  intros Hk. apply NoDup_fmap_2_strong; [|apply NoDup_seqZ].
  intros x y Hx%elem_of_seqZ Hy%elem_of_seqZ E.
  apply (f_equal be_get) in E. rewrite !be_get_put in E. change (256 ^ Z.of_nat 24) with (2 ^ 192) in E.
  apply (f_equal (λ z, (z - (start + 1)) mod 2 ^ 192)) in E.
  rewrite !Zminus_mod_idemp_l, !Z.mod_small in E by lia. lia.
Qed.
Lemma nonce_wf_be nonce : nonce_wf nonce → be_put 24 (be_get nonce) = nonce.
Proof.
  intros [Hl Hb]. replace 24%nat with (length nonce) by (unfold len, DefaultNonceSize in Hl; lia). by apply be_put_get.
Qed.

Lemma countFrom_length start k : length (countFrom start k) = k.
Proof. unfold countFrom. rewrite length_fmap, length_seqZ. lia. Qed.
(** The counter does not come back to where it was. *)
Lemma countFrom_cons_NoDup nonce k :
  nonce_wf nonce → Z.of_nat k + 1 <= 2 ^ 192 →
  (nonce ∉ countFrom (be_get nonce) k) ∧ NoDup (countFrom (be_get nonce) k).
Proof.
  intros Hn Hk. apply NoDup_cons.
  assert (NoDup (countFrom (be_get nonce - 1) (S k))) as H by (apply countFrom_NoDup; lia).
  rewrite countFrom_S in H. replace (be_get nonce - 1 + 1) with (be_get nonce) in H by lia. by rewrite nonce_wf_be in H.
Qed.

(** A stream that runs: every message takes the next value of the counter. *)
Lemma encryptAll_started c nd pts :
  enableImplicitNonce c = true → nonce_wf (implicitNonce c) →
  ∃ c', encryptAll c nd pts =
    Ok (c', zip_with (Seal (c_key c)) (countFrom (be_get (implicitNonce c)) (length pts)) pts).
Proof using CL.
  revert c. induction pts as [|pt pts IH]; intros c He Hn; [by exists c|].
  set (n' := be_put 24 (be_get (implicitNonce c) + 1)).
  destruct (IH (with_nonce n' c)) as [c' E]; [done|apply be_put_nonce_wf|]. exists c'.
  cbn [encryptAll]. unfold Encrypt at 1. destruct Hn as [Hl Hb]. rewrite He, Hl.
  change (DefaultNonceSize =? 0) with false. cbn [negb orb].
  destruct (Z.ltb_spec (len pt + DefaultOverhead + DefaultNonceSize) (len pt + Overhead c)) as [Hx|Hx].
  { unfold Overhead, DefaultNonceSize in Hx. lia. }
  rewrite increaseNonce_spec, !bind_Ok by done. fold n'. rewrite E, bind_Ok. cbn [length]. rewrite countFrom_S.
  cbn [zip_with app implicitNonce with_nonce c_key]. do 4 f_equal.
  apply countFrom_mod. unfold n'. rewrite be_get_put. change (256 ^ Z.of_nat 24) with (2 ^ 192).
  by rewrite Z.mod_mod by lia.
Qed.

(** C30. Consecutive messages on an implicit-nonce cipher, whether the stream
    runs already or is new and can draw its first nonce: every message is encrypted, each under the cipher's
    key and a nonce of its own.  The nonces of up to 2^192 - 1 messages are
    pairwise different, and different from the one the stream was at before;
    message [i] of the output is the sealed plaintext [i], with the nonce in
    front only where the message is the first of its stream. *)
Theorem implicit_nonce_no_reuse (c : aeadBlockCipher) (nd : nonceDraws) (pts : list (list Z)) :
  stream_ready c nd → len pts < 2 ^ 192 →
  ∃ c' cts nonces, encryptAll c nd pts = Ok (c', cts) ∧ length cts = length pts ∧ length nonces = length pts ∧
    Forall nonce_wf nonces ∧ NoDup nonces ∧ (implicitNonce c ∉ nonces) ∧
    ∀ i nonce pt, nonces !! i = Some nonce → pts !! i = Some pt →
      cts !! i = Some ((if bool_decide (i = 0%nat ∧ implicitNonce c = []) then nonce else []) ++ Seal (c_key c) nonce pt).
Proof using CL.
  intros [He [Hn | (Hn & Hu & Hd & Hdb & Hok)]] Hl.
  - destruct (encryptAll_started c nd pts He Hn) as [c' E].
    set (nonces := countFrom _ _) in E. assert (length nonces = length pts) as Hln by apply countFrom_length.
    exists c', (zip_with (Seal (c_key c)) nonces pts), nonces.
    destruct (countFrom_cons_NoDup (implicitNonce c) (length pts) Hn ltac:(unfold len in Hl; lia)) as [Hnot Hnd].
    split_and!; [done|by rewrite length_zip_with_l_eq|done|apply countFrom_wf|done|done|].
    + intros i nonce pt H1 H2. rewrite bool_decide_false by (intros [_ E']; by destruct Hn; rewrite E' in *).
      rewrite lookup_zip_with, H1, H2. done.
  - destruct Hok as [[s1 n1] Hn1]. destruct (newNonce_hint _ _ _ _ Hd Hu Hn1) as (Hc & n2 & Hn2 & Hl2 & _).
    assert (c_key s1 = c_key c ∧ enableImplicitNonce s1 = true) as [Hk1 He1] by (by destruct Hc as [-> | ->]).
    assert (nonce_wf n2) as Hw2 by (split; [done|eapply addUserHint_bytes, Hn2; by eapply newNonceTo_bytes]).
    destruct pts as [|pt pts].
    { exists c, [], []. rewrite Hn. split_and!; try done; [constructor|apply not_elem_of_nil]. }
    destruct (encryptAll_started (with_nonce n2 s1) nd pts He1 Hw2) as [c' E]. simpl in E.
    destruct (countFrom_cons_NoDup n2 (length pts) Hw2 ltac:(unfold len in Hl; simpl in Hl; lia)) as [Hnot Hnd].
    set (nonces := countFrom _ _) in *.
    exists c', ((n2 ++ Seal (c_key s1) n2 pt) :: zip_with (Seal (c_key s1)) nonces pts), (n2 :: nonces).
    assert (length nonces = length pts) as Hln by apply countFrom_length.
    split_and!.
    + cbn [encryptAll]. rewrite (Encrypt_first c nd pt s1 n1 n2), bind_Ok, E by done. done.
    + simpl. by rewrite length_zip_with_l_eq, Hln.
    + simpl. by rewrite Hln.
    + constructor; [done|apply countFrom_wf].
    + by constructor.
    + rewrite Hn. intros Hin. pose proof (proj1 (Forall_forall _ _) (Forall_cons_2 _ _ _ Hw2 (countFrom_wf _ _)) _ Hin) as [Hw _].
      done.
    + intros [|i] nonce pt' H1 H2; simpl in H1, H2.
      * injection H1 as <-. injection H2 as <-. rewrite bool_decide_true by done. by rewrite Hk1.
      * rewrite bool_decide_false by (by intros [??]). simpl. rewrite lookup_zip_with, H1, H2, <-Hk1. done.
Qed.
End roundtrips.

(** ** Time and keys *)

Definition roundIndex (t : Z) : Z := (t + unixToInternal + KeyRefreshInterval / 2) / KeyRefreshInterval.

Lemma Time_Round_index t :
  Time_Round t KeyRefreshInterval = KeyRefreshInterval * roundIndex t - unixToInternal.
Proof.
  unfold Time_Round, roundIndex. set (D := KeyRefreshInterval). set (x := t + unixToInternal).
  change (D <=? 0) with false. cbn iota. assert (0 < D) by done. assert (D / 2 * 2 = D) as Hhalf by done.
  pose proof (Z.div_mod x D ltac:(lia)) as Hx. pose proof (Z.mod_pos_bound x D ltac:(lia)) as Hr.
  set (r := x mod D) in *. set (q := x / D) in *.
  destruct (Z.ltb_spec (r + r) D) as [Hlt|Hge].
  - assert ((x + D / 2) / D = q) as -> by (symmetry; apply Z.div_unique with (r + D / 2); lia). lia.
  - assert ((x + D / 2) / D = q + 1) as -> by (symmetry; apply Z.div_unique with (r + D / 2 - D); lia). lia.
Qed.

Lemma roundIndex_step t t' :
  t <= t' <= t + KeyRefreshInterval → roundIndex t <= roundIndex t' <= roundIndex t + 1.
Proof.
  intros [H1 H2]. unfold roundIndex. set (D := KeyRefreshInterval) in *. assert (0 < D) by done. split.
  - apply Z.div_le_mono; lia.
  - rewrite <-Z.div_add, Z.mul_1_l by lia. apply Z.div_le_mono; lia.
Qed.

Lemma epoch_round t t' : cipherKeyEpoch t = cipherKeyEpoch t' → roundIndex t = roundIndex t'.
Proof.
  unfold cipherKeyEpoch, Unix. rewrite !Time_Round_index.
  replace (KeyRefreshInterval * roundIndex t - unixToInternal) with ((120 * roundIndex t - 62135596800) * Second)
    by (unfold KeyRefreshInterval, Minute, unixToInternal; lia).
  replace (KeyRefreshInterval * roundIndex t' - unixToInternal) with ((120 * roundIndex t' - 62135596800) * Second)
    by (unfold KeyRefreshInterval, Minute, unixToInternal; lia).
  rewrite !Z.div_mul by done. lia.
Qed.

Section keys.
Context `{CL : CryptoLaws}.

(** The key for the salt of time [s]. *)
Definition keyAt (password : list Z) (s : Z) : list Z :=
  pbkdf2Key password (Sum256 (be_put 8 (u64 (Unix s)))) KeyIter DefaultKeyLen.
Definition templateAt (password : list Z) (s : Z) : aeadBlockCipher := mkCipher (keyAt password s) false [] [] None false.

Lemma newBlockCipherList_spec password now :
  password ≠ [] → newBlockCipherList password now = Ok (templateAt password <$> saltTimes now).
Proof using CL.
  intros Hp. unfold newBlockCipherList, saltFromTime. generalize (saltTimes now) as ts.
  induction ts as [|s ts IH]; [done|]. rewrite !fmap_cons. cbn [newBlockCiphers].
  unfold NewKey. destruct (Z.eqb_spec (len password) 0) as [E%len_zero|_]; [done|]. rewrite bind_Ok.
  unfold newXChaCha20Poly1305BlockCipher. rewrite pbkdf2Key_len by done. cbn [negb Z.eqb DefaultKeyLen Pos.eqb].
  rewrite bind_Ok, IH. done.
Qed.

(** Every entry is what a fresh derivation at its creation time gives. *)
Definition cache_wf (cache : cipherCache) : Prop :=
  ∀ pw e, cache !! pw = Some e →
    newBlockCipherList pw (createTime e) = Ok (cipherList e) ∧ epoch e = cipherKeyEpoch (createTime e).

Lemma same_epoch_ciphers pw t t' :
  cipherKeyEpoch t = cipherKeyEpoch t' → newBlockCipherList pw t = newBlockCipherList pw t'.
Proof.
  intros He%epoch_round. unfold newBlockCipherList, saltFromTime, saltTimes. by rewrite !Time_Round_index, He.
Qed.

Lemma cache_lookup cache password now jitterMs :
  cache_wf cache → password ≠ [] →
  ∃ cache' entry, getCachedCiphers cache password now jitterMs = (cache', Ok entry) ∧
    newBlockCipherList password now = Ok (cipherList entry) ∧
    epoch entry = cipherKeyEpoch now ∧ cache_wf cache' ∧ cache' !! password = Some entry.
Proof using CL.
  intros Hwf Hp. unfold getCachedCiphers. destruct (cache !! password) as [e|] eqn:Ec; simpl.
  1: destruct (Z.eqb_spec (epoch e) (cipherKeyEpoch now)) as [He|He]; simpl.
  1: destruct (_ <? now).
  2:{ exists cache, e. destruct (Hwf _ _ Ec) as [Hn Hep]. split_and!; [done| |done|done|done].
      rewrite <-Hn. apply same_epoch_ciphers. congruence. }
  all: rewrite newBlockCipherList_spec by done; eexists _, _; split_and!; [done|done|done| |by rewrite lookup_insert_eq].
  all: intros pw e'; rewrite lookup_insert_Some; intros [[<- <-]|[_ H]]; [|by apply Hwf].
  all: split; [by apply newBlockCipherList_spec|done].
Qed.

(** The cipher cache is transparent: from any cache whose entries are
    fresh derivations, a lookup returns the three ciphers that a derivation at
    [now] gives, whatever the expiry jitter, and leaves such a cache. *)
Theorem cipher_cache_transparent (cache : cipherCache) (password : list Z) (now jitterMs : Z) :
  cache_wf cache → password ≠ [] →
  ∃ cache' entry, getCachedCiphers cache password now jitterMs = (cache', Ok entry) ∧
    newBlockCipherList password now = Ok (cipherList entry) ∧
    epoch entry = cipherKeyEpoch now ∧ cache_wf cache'.
Proof using CL.
  intros Hwf Hp. destruct (cache_lookup cache password now jitterMs Hwf Hp) as (cache' & e & ? & ? & ? & ? & _). by exists cache', e.
Qed.

Lemma skew_member tc ts :
  Z.abs (tc - ts) <= KeyRefreshInterval →
  ∃ s, s ∈ saltTimes ts ∧ Time_Round tc KeyRefreshInterval = s.
Proof.
  intros Ht. exists (Time_Round tc KeyRefreshInterval). split; [|done].
  unfold saltTimes. rewrite !Time_Round_index, !elem_of_cons.
  assert (roundIndex tc = roundIndex ts ∨ roundIndex tc = roundIndex ts + 1 ∨ roundIndex ts = roundIndex tc + 1) as Hi.
  { destruct (Z.le_ge_cases tc ts).
    - pose proof (roundIndex_step tc ts ltac:(lia)). lia.
    - pose proof (roundIndex_step ts tc ltac:(lia)). lia. }
  lia.
Qed.

(** Clock skew: when the two clocks differ by at most two minutes, the key
    that a client derives is one of the three that the server tries. *)
Theorem key_skew_two_minutes (password : list Z) (tc ts : Z) :
  password ≠ [] → Z.abs (tc - ts) <= KeyRefreshInterval →
  ∃ client servers, newBlockCipherList password tc ≫= (λ l, from_option Ok (Panic "index out of range") (l !! 1%nat)) = Ok client ∧
    newBlockCipherList password ts = Ok servers ∧ client ∈ servers.
Proof using CL.
  intros Hp Ht. exists (templateAt password (Time_Round tc KeyRefreshInterval)), (templateAt password <$> saltTimes ts).
  rewrite !newBlockCipherList_spec by done. split_and!; [done|done|].
  destruct (skew_member tc ts Ht) as [s [Hs ->]]. by apply list_elem_of_fmap_2.
Qed.
End keys.

Section discovery.
Context `{CL : CryptoLaws}.

(** No server key but [key] opens the ciphertext: what the authentication tag
    is for. *)
Definition only_key (key ct : list Z) (blocks : list aeadBlockCipher) : Prop :=
  ∀ b, b ∈ blocks → c_key b ≠ key →
    Open (c_key b) (slice_to DefaultNonceSize ct) (slice_from DefaultNonceSize ct) = None.

Lemma selectDecryptStateless_finds key ct dst pt blocks :
  len ct >= DefaultNonceSize →
  Open key (slice_to DefaultNonceSize ct) (slice_from DefaultNonceSize ct) = Some pt →
  only_key key ct blocks → (∃ b, b ∈ blocks ∧ c_key b = key) →
  ∃ b, selectDecryptStateless ct dst blocks = Ok (b, dst ++ pt) ∧ c_key b = key.
Proof.
  intros Hl Ho Hkey Hex. induction blocks as [|b blocks IH]; [by destruct Hex as (b & Hb%elem_of_nil & _)|].
  cbn [selectDecryptStateless]. unfold DecryptStatelessTo, NonceSize.
  destruct (Z.ltb_spec (len ct) DefaultNonceSize); [lia|].
  destruct (decide (c_key b = key)) as [E|E].
  - rewrite E, Ho. by exists b.
  - rewrite (Hkey b) by (done || left). apply IH.
    + intros b' Hb'. apply Hkey. by right.
    + destruct Hex as (b' & [->|Hb']%elem_of_cons & Hk); [done|]. by exists b'.
Qed.

Definition decryptor_wf (d : StatelessDecryptor) : Prop :=
  ∀ e, d_ciphers d = Some e →
    newBlockCipherList (d_password d) (createTime e) = Ok (cipherList e) ∧ epoch e = cipherKeyEpoch (createTime e).

(** The ciphers a decryptor uses are those of a fresh derivation. *)
Lemma tryDecryptAt_spec cache d ct dst now jitterMs :
  cache_wf cache → decryptor_wf d → d_password d ≠ [] →
  ∃ cache' d', tryDecryptAt cache d ct dst now jitterMs =
      (cache', d', '(b, pt) ← selectDecryptStateless ct dst (templateAt (d_password d) <$> saltTimes now);
                   Ok (cloneStatelessFast b, pt)) ∧
    cache_wf cache' ∧ decryptor_wf d' ∧ d_password d' = d_password d.
Proof using CL.
  intros Hc Hd Hp. unfold tryDecryptAt.
  set (fresh := match d_ciphers d with Some _ => _ | None => _ end).
  assert (∃ cache' entry, (match fresh with Some entry => (cache, Ok entry)
            | None => getCachedCiphers cache (d_password d) now jitterMs end) = (cache', Ok entry) ∧
          newBlockCipherList (d_password d) now = Ok (cipherList entry) ∧
          cache_wf cache' ∧ decryptor_wf (mkDecryptor (d_password d) (Some entry))) as (cache' & entry & -> & Hn & Hc' & Hd').
  { subst fresh. destruct (d_ciphers d) as [e|] eqn:Ee; [destruct (Z.eqb_spec (epoch e) (cipherKeyEpoch now)) as [He|He]|].
    - destruct (Hd _ Ee) as [Hn Hep]. exists cache, e. split_and!; [done| |done|intros e' [= <-]; by apply Hd].
      rewrite <-Hn. apply same_epoch_ciphers. congruence.
    - destruct (cache_lookup cache (d_password d) now jitterMs Hc Hp) as (cache' & e' & ? & ? & ? & Hc' & Hl').
      exists cache', e'. split_and!; try done. intros e'' [= <-]. by apply Hc'.
    - destruct (cache_lookup cache (d_password d) now jitterMs Hc Hp) as (cache' & e' & ? & ? & ? & Hc' & Hl').
      exists cache', e'. split_and!; try done. intros e'' [= <-]. by apply Hc'. }
  rewrite newBlockCipherList_spec in Hn by done. injection Hn as <-. eauto 10.
Qed.

(** Discovery of a stateless client: a client that derives its cipher at
    [tc], sets its user name and encrypts, is decrypted by the server's
    [StatelessDecryptor] at any [ts] within two minutes, whatever the two
    caches hold, to the plaintext and a cipher with the client's key, provided
    the ciphertext does not also open under another of the server's keys. *)
Theorem stateless_discovery (cacheC cacheS : cipherCache) (d : StatelessDecryptor) (user pt : list Z)
    (nd : nonceDraws) (tc ts jc js : Z) :
  cache_wf cacheC → cache_wf cacheS → decryptor_wf d → d_password d ≠ [] →
  Z.abs (tc - ts) <= KeyRefreshInterval → draws_ok nd → len user <= MaxUserNameLen →
  ∃ client, (BlockCipherFromPassword cacheC (d_password d) true tc jc).2 = Ok client ∧
   ∀ c1 n1, newNonceTo (SetBlockContext user client) nd DefaultNonceSize = Ok (c1, n1) →
   ∃ c2 ct, Encrypt (SetBlockContext user client) nd (len pt + DefaultOverhead + DefaultNonceSize) pt = Ok (c2, ct) ∧
    (only_key (c_key client) ct (templateAt (d_password d) <$> saltTimes ts) →
     ∃ cache' d' block, tryDecryptAt cacheS d ct [] ts js = (cache', d', Ok (block, pt)) ∧
       c_key block = c_key client ∧ cache_wf cache' ∧ decryptor_wf d').
Proof using CL.
  intros HcC HcS Hd Hp Ht Hdr Hu.
  set (client := templateAt (d_password d) (Time_Round tc KeyRefreshInterval)). exists client. split.
  { unfold BlockCipherFromPassword.
    destruct (cache_lookup cacheC (d_password d) tc jc HcC Hp) as (cache' & e & -> & Hn & _).
    rewrite newBlockCipherList_spec in Hn by done. injection Hn as Hn. cbn [snd]. rewrite bind_Ok, <-Hn. done. }
  intros c1' n1' Hn1.
  destruct (encrypt_stateless (SetBlockContext user client) (SetBlockContext user client) c1' nd
    (len pt + DefaultOverhead + DefaultNonceSize) pt [] n1') as (ct & He & Hlen & _ & Hds & _); [done..|lia|].
  exists c1', ct. split; [done|]. intros Hkey.
  unfold DecryptStatelessTo, NonceSize in Hds. pose proof (len_nonneg pt).
  destruct (Z.ltb_spec (len ct) DefaultNonceSize); [done|].
  destruct (Open _ _ _) as [pt'|] eqn:Ho; [|done]. injection Hds as ->.
  destruct (tryDecryptAt_spec cacheS d ct [] ts js HcS Hd Hp) as (cache' & d' & -> & ? & ? & ?).
  destruct (selectDecryptStateless_finds (c_key client) ct [] pt (templateAt (d_password d) <$> saltTimes ts))
    as (b & -> & Hb); [lia|done|done| |].
  - destruct (skew_member tc ts Ht) as [s [Hs1 Hs2]].
    eexists. split; [by apply list_elem_of_fmap_2, Hs1|]. by subst.
  - rewrite bind_Ok. exists cache', d', (cloneStatelessFast b). split_and!; done.
Qed.
End discovery.

(** ** An instance of the interface *)

(** A concrete [Crypto] that satisfies the laws: the plaintext followed by a
    16-byte tag hashed from key, nonce and plaintext. *)
Module Tagged.
Definition tag (key nonce p : list Z) : list Z := take 16 (Sum256 (key ++ nonce ++ p)).
Definition open (key nonce c : list Z) : option (list Z) :=
  let p := take (length c - 16) c in
  if decide (drop (length c - 16) c = tag key nonce p) then Some p else None.
Definition derive (pw salt : list Z) (n : Z) : list Z :=
  take (Z.to_nat n) (Sum256 (pw ++ salt) ++ replicate (Z.to_nat n) 0).

Lemma tag_length key nonce p : length (tag key nonce p) = 16%nat.
Proof. unfold tag. by rewrite length_take, Sum256_length. Qed.
End Tagged.

#[local] Instance taggedCrypto : Crypto := {
  Seal key nonce p := p ++ Tagged.tag key nonce p;
  Open := Tagged.open;
  pbkdf2Key pw salt iter n := Tagged.derive pw salt n
}.
#[local] Instance taggedCrypto_laws : CryptoLaws taggedCrypto.
Proof.
  split.
  - intros key nonce p. simpl. unfold Tagged.open. rewrite length_app, Tagged.tag_length, Nat.add_sub.
    rewrite take_app_length, drop_app_length, decide_True; done.
  - intros. simpl. rewrite len_app. unfold len at 2. by rewrite Tagged.tag_length.
  - intros key nonce c p. simpl. unfold Tagged.open. case_decide as Hd; [|done]. intros [= <-].
    apply (f_equal length) in Hd. rewrite length_drop, Tagged.tag_length in Hd.
    unfold len. rewrite length_take. unfold DefaultOverhead. lia.
  - intros. simpl. apply bytes_ok_app. split; [done|]. unfold Tagged.tag. auto with mieru.
  - intros. simpl. unfold Tagged.derive, len. rewrite length_take, length_app, length_replicate. lia.
Qed.

Definition example_stateless : aeadBlockCipher :=
  mkCipher (replicate 32 7) false [] (bytes_of_string "alice") None false.
Definition example_draws : nonceDraws := mkDraws (Some (seqZ 0 24)) [] 0 0.
Lemma example_draws_ok : draws_ok example_draws.
Proof. by intros bs [= <-]. Qed.

Lemma stateless_roundtrip_witness :
  ∃ ct, Encrypt example_stateless example_draws 45 [1; 2; 3; 4; 5] = Ok (example_stateless, ct) ∧
    len ct = 45 ∧
    Decrypt example_stateless ct = (example_stateless, Ok [1; 2; 3; 4; 5]) ∧
    DecryptStatelessTo example_stateless ct [9] = Ok [9; 1; 2; 3; 4; 5] ∧
    (0 < 5 → CheckUserFromHint (bytes_of_string "alice") (slice_to 24 ct) = Ok true).
Proof.
  apply (stateless_roundtrip example_stateless example_stateless example_stateless example_draws 45
    [1; 2; 3; 4; 5] [9] (seqZ 0 24)); [done|done|done|apply example_draws_ok|vm_compute; congruence|done|vm_compute; congruence].
Defined.

Definition example_sender : aeadBlockCipher := SetImplicitNonceMode true example_stateless.
Lemma stateful_stream_roundtrip_witness :
  ∃ s' r' cts, encryptAll example_sender example_draws [[1; 2]; []; [3]] = Ok (s', cts) ∧
    decryptAll (SetBlockContext [] example_sender) cts = (r', Ok [[1; 2]; []; [3]]) ∧ in_step s' r'.
Proof.
  apply (stateful_stream_roundtrip example_sender (SetBlockContext [] example_sender) example_sender
    example_draws (seqZ 0 24) [[1; 2]; []; [3]]); [done..|apply example_draws_ok|vm_compute; congruence|done|done].
Defined.

(** The running stream wraps around 2^192 between its two messages; the new one
    starts with a nonce that carries the user's hint. *)
Lemma implicit_nonce_no_reuse_witness :
  (∃ c' cts nonces, encryptAll example_cipher example_draws [[1]; [2]] = Ok (c', cts) ∧
    length cts = 2%nat ∧ length nonces = 2%nat ∧
    Forall nonce_wf nonces ∧ NoDup nonces ∧ (implicitNonce example_cipher ∉ nonces) ∧
    ∀ i nonce pt, nonces !! i = Some nonce → [[1]; [2]] !! i = Some pt →
      cts !! i = Some ((if bool_decide (i = 0%nat ∧ implicitNonce example_cipher = []) then nonce else []) ++
                       Seal (c_key example_cipher) nonce pt)) ∧
  stream_ready example_sender example_draws.
Proof.
  split.
  - apply (implicit_nonce_no_reuse example_cipher example_draws [[1]; [2]]); [|done].
    split; [done|]. left. split; [done|]. by apply (bool_decide_unpack _).
  - split; [done|]. right. split_and!; [done|vm_compute; congruence|apply example_draws_ok| |by eexists].
    intros bs [= <-]. by apply (bool_decide_unpack _).
Defined.

Lemma cache_wf_empty `{CL : CryptoLaws} : cache_wf ∅.
Proof. by intros pw e. Qed.
Lemma cipher_cache_transparent_witness :
  ∃ cache' entry, getCachedCiphers ∅ [112] 1700000000000000000 10 = (cache', Ok entry) ∧
    newBlockCipherList [112] 1700000000000000000 = Ok (cipherList entry) ∧
    epoch entry = cipherKeyEpoch 1700000000000000000 ∧ cache_wf cache'.
Proof. apply (cipher_cache_transparent ∅ [112] 1700000000000000000 10); [apply cache_wf_empty|done]. Defined.
Lemma key_skew_two_minutes_witness :
  ∃ client servers, newBlockCipherList [112] 1700000000000000000 ≫= (λ l, from_option Ok (Panic "index out of range") (l !! 1%nat)) = Ok client ∧
    newBlockCipherList [112] 1700000120000000000 = Ok servers ∧ client ∈ servers.
Proof. apply (key_skew_two_minutes [112] 1700000000000000000 1700000120000000000); [done|vm_compute; congruence]. Defined.

Definition example_decryptor : StatelessDecryptor := mkDecryptor [112] None.
Definition example_client : aeadBlockCipher := templateAt [112] (Time_Round 1700000000000000000 KeyRefreshInterval).
Definition example_ct : list Z := seqZ 0 24 ++ Seal (c_key example_client) (seqZ 0 24) [1; 2; 3].

Lemma example_only_key :
  only_key (c_key example_client) example_ct (templateAt [112] <$> saltTimes 1700000090000000000).
Proof.
  intros b Hb Hk.
  assert (Forall (λ b, c_key b = c_key example_client ∨
     Open (c_key b) (slice_to DefaultNonceSize example_ct) (slice_from DefaultNonceSize example_ct) = None)
     (templateAt [112] <$> saltTimes 1700000090000000000)) as H
    by (apply (bool_decide_unpack _); vm_compute; exact I).
  rewrite Forall_forall in H. destruct (H b Hb) as [E|E]; [by destruct (Hk E)|exact E].
Qed.

Lemma stateless_discovery_witness :
  ∃ cache' d' block,
      tryDecryptAt ∅ example_decryptor example_ct [] 1700000090000000000 0 = (cache', d', Ok (block, [1; 2; 3])) ∧
      c_key block = c_key example_client.
Proof.
  destruct (stateless_discovery ∅ ∅ example_decryptor [] [1; 2; 3] example_draws
    1700000000000000000 1700000090000000000 0 0) as (client & Hc & Hrest);
    [apply cache_wf_empty|apply cache_wf_empty|by intros e|done|vm_compute; congruence|apply example_draws_ok|vm_compute; congruence|].
  assert ((BlockCipherFromPassword ∅ (d_password example_decryptor) true 1700000000000000000 0).2 = Ok example_client) as E
    by (vm_compute; reflexivity).
  rewrite E in Hc. injection Hc as <-. specialize (Hrest (SetBlockContext [] example_client) (seqZ 0 24)).
  destruct Hrest as (c2 & ct & He & Hd); [reflexivity|].
  assert (Encrypt (SetBlockContext [] example_client) example_draws (len [1; 2; 3] + DefaultOverhead + DefaultNonceSize)
    [1; 2; 3] = Ok (SetBlockContext [] example_client, example_ct)) as E2 by (vm_compute; reflexivity).
  rewrite E2 in He. injection He as <- <-.
  destruct (Hd example_only_key) as (cache' & d' & block & H1 & H2 & _). exists cache', d', block. split; [exact H1|exact H2].
Defined.
