(* ===== verification/Rng.v ===== *)
(** * pkg/rng: scaled, fixed and bit-counted random numbers

    The outcomes of math/rand are arguments: [k] of [mrand.Intn], [base] of
    [mrand.Float64], [draw i] of the [i]-th [mrand.Intn] of a loop.  The maps
    [fixed] and [fixedV] that cache hashed hints are explicit state; the host
    name and the version of the program are arguments.

    Theorems: [Uint32WithBits n] has exactly [n] one-bits, so that every half
    mask a sender draws passes the validation of its receiver; the fixed
    integers are in range and depend on the hint alone, whatever was cached
    before. *)
From S2P Require Import Prelude MathExt Messages LowEntropy GoStd GoFloat.

(** ** Scaled down distributions *)

Section scaled.
Context `{F : GoFloat}.

Definition scaleDown (base : f64) : f64 := f64_sqrt (f64_mul (f64_mul base base) base).
(** [mrand.Intn(n+1)] panics unless its argument is positive. *)
Definition Intn (k : Z) (base : f64) (n : Z) : result Z :=
  if n + 1 <=? 0 then Panic "invalid argument to Intn" else Ok (f64_int (f64_mul (f64_of k) (scaleDown base))).
Definition Int63n (k : Z) (base : f64) (n : Z) : result Z :=
  if n + 1 <=? 0 then Panic "invalid argument to Int63n" else Ok (f64_int (f64_mul (f64_of k) (scaleDown base))).
Definition IntRange (k : Z) (base : f64) (m n : Z) : result Z := x ← Intn k base (n - m); Ok (m + x).
Definition IntRange64 (k : Z) (base : f64) (m n : Z) : result Z := x ← Int63n k base (n - m); Ok (m + x).
(** Times are nanoseconds since the Unix epoch; seconds and nanoseconds of the
    second are put together again. *)
Definition RandTime (k : Z) (base : f64) (begin end_ : Z) : result Z :=
  randNano ← IntRange64 k base begin end_;
  let randSec := randNano `quot` 1000000000 in
  let randNano := randNano `rem` 1000000000 in
  Ok (randSec * Second + randNano).

Context `{FL : !GoFloatLaws F}.

(** The documented range [0, n): the end is excluded also after rounding. *)
Lemma Intn_range k base n :
  Float64 base → 0 <= k < n + 1 → n < 2 ^ 53 →
  ∃ x, Intn k base n = Ok x ∧ 0 <= x <= n ∧ (0 < n → x < n).
Proof using FL.
  intros Hb Hk Hn. unfold Intn. destruct (Z.leb_spec (n + 1) 0); [lia|]. eexists. split; [done|].
  unfold scaleDown. pose proof (scaled_range k base Hb ltac:(lia)) as [H1 H2].
  split; [lia|]. intros Hp. destruct (Z.eq_dec k 0) as [->|]; lia.
Qed.
End scaled.

(** ** Uint32WithBits *)

(** Swap of two elements of the array; out of range it panics. *)
Definition swap (i j : nat) (l : list Z) : result (list Z) :=
  match l !! i, l !! j with
  | Some x, Some y => Ok (<[j:=x]> (<[i:=y]> l))
  | _, _ => Panic "index out of range"
  end.

Fixpoint withBitsLoop (draw : nat → Z) (n i : nat) (bitPositions : list Z) (res : Z) : result Z :=
  match n with
  | O => Ok res
  | S n =>
    let j := Z.of_nat i + draw i in
    if j <? 0 then Panic "index out of range" else
    bitPositions ← swap i (Z.to_nat j) bitPositions;
    withBitsLoop draw n (S i) bitPositions (Z.lor res (u32 (Z.shiftl 1 (nth i bitPositions 0))))
  end.
Definition Uint32WithBits (draw : nat → Z) (n : Z) : result Z :=
  if (n <? 0) || (n >? 32) then Panic "number of set bits must be between 0 and 32"
  else withBitsLoop draw (Z.to_nat n) 0 (seqZ 0 32) 0.

Definition newLowEntropyHalfMask (draw : nat → Z) (mode : Z) : result Z :=
  params ← buildLowEntropyParams mode;
  Uint32WithBits draw (halfMaskOnes params).

(** What [mrand.Intn(32-i)] returns. *)
Definition draws_in_range (draw : nat → Z) : Prop := ∀ i, (i < 32)%nat → 0 <= draw i < 32 - Z.of_nat i.

Lemma swap_spec i j l :
  (i < length l)%nat → (i <= j < length l)%nat →
  ∃ l', swap i j l = Ok l' ∧ l' ≡ₚ l ∧ take i l' = take i l.
Proof.
  intros Hi Hj. destruct (lookup_lt_is_Some_2 l i Hi) as [x Ex], (lookup_lt_is_Some_2 l j) as [y Ey]; [lia|].
  unfold swap. rewrite Ex, Ey. eexists. split_and!; [done|by apply Permutation_insert_swap|].
  by rewrite !take_insert_ge by lia.
Qed.

(** The positions chosen so far, and the bits they set. *)
Definition chosen (i : nat) (l : list Z) (res : Z) : Prop :=
  l ≡ₚ seqZ 0 32 ∧ 0 <= res ∧ ∀ k, 0 <= k → Z.testbit res k = bool_decide (k ∈ take i l).

Lemma seqZ_32_length (l : list Z) : l ≡ₚ seqZ 0 32 → length l = 32%nat.
Proof. intros H. apply Permutation_length in H. by rewrite H. Qed.

Lemma chosen_step i l l' res :
  (i < 32)%nat → chosen i l res → l' ≡ₚ l → take i l' = take i l →
  chosen (S i) l' (Z.lor res (u32 (Z.shiftl 1 (nth i l' 0)))).
Proof.
  intros Hi (Hl & Hr & Hb) Hp Ht. assert (l' ≡ₚ seqZ 0 32) as Hl' by (by rewrite Hp).
  pose proof (seqZ_32_length l' Hl') as Hlen.
  destruct (lookup_lt_is_Some_2 l' i) as [p Ep]; [lia|].
  assert (0 <= p < 32) as Hp32.
  { assert (p ∈ l') as Hin by by eapply list_elem_of_lookup_2. rewrite Hl' in Hin. apply elem_of_seqZ in Hin. lia. }
  rewrite (nth_lookup_Some _ _ _ _ Ep), Z.shiftl_1_l.
  assert (u32 (2 ^ p) = 2 ^ p) as ->.
  { apply wrap_id. split; [lia|]. apply Z.pow_lt_mono_r; lia. }
  split_and!; [done|apply Z.lor_nonneg; split; [done|lia]|]. intros k Hk.
  rewrite Z.lor_spec, Hb by done. rewrite (take_S_r _ _ _ Ep), Ht. apply eq_bool_prop_intro.
  rewrite orb_True, !bool_decide_spec, elem_of_app, list_elem_of_singleton.
  rewrite Z.pow2_bits_eqb by lia. rewrite Is_true_true, Z.eqb_eq. naive_solver.
Qed.

Lemma withBitsLoop_spec draw n i l res :
  draws_in_range draw → (i + n <= 32)%nat → chosen i l res →
  ∃ l' r, withBitsLoop draw n i l res = Ok r ∧ chosen (i + n) l' r.
Proof.
  intros Hd. revert i l res. induction n as [|n IH]; intros i l res Hn Hc.
  { exists l, res. rewrite Nat.add_0_r. done. }
  cbn [withBitsLoop]. specialize (Hd i ltac:(lia)) as Hdi. destruct (Z.ltb_spec (Z.of_nat i + draw i) 0); [lia|].
  pose proof (seqZ_32_length l (proj1 Hc)) as Hlen.
  destruct (swap_spec i (Z.to_nat (Z.of_nat i + draw i)) l) as (l' & -> & Hp & Ht); [lia|lia|]. rewrite bind_Ok.
  rewrite Nat.add_succ_r, <-Nat.add_succ_l. eapply IH; [lia|]. eapply chosen_step; [lia|done..].
Qed.

Lemma chosen_OnesCount n l r : (n <= 32)%nat → chosen n l r → OnesCount 32 r = Z.of_nat n ∧ is_u32 r.
Proof.
  intros Hn (Hl & Hr & Hb). pose proof (seqZ_32_length l Hl) as Hlen.
  assert (∀ k, k ∈ take n l → 0 <= k < 32) as Hk.
  { intros k Hin. assert (k ∈ l) as Hin' by (apply (subseteq_take n l); done). rewrite Hl in Hin'.
    apply elem_of_seqZ in Hin'. lia. }
  split.
  - assert (ones_below 32 r ≡ₚ take n l) as E%Permutation_length.
    { apply NoDup_Permutation.
      - apply NoDup_filter, NoDup_seqZ.
      - pose proof (NoDup_seqZ 0 32) as Hnd. rewrite <-Hl, <-(take_drop n l) in Hnd. by apply NoDup_app in Hnd as [? _].
      - intros k. unfold ones_below. rewrite list_elem_of_filter, elem_of_seqZ. split.
        + intros [Ht Hr']. rewrite Hb, bool_decide_eq_true in Ht by lia. done.
        + intros Hin. specialize (Hk k Hin). rewrite Hb, bool_decide_eq_true by lia. split; [done|lia]. }
    unfold OnesCount, len. rewrite E, length_take. lia.
  - apply in_width_bits; [lia|done|]. intros k Hk32. rewrite Hb by lia. apply bool_decide_eq_false. intros Hin.
    specialize (Hk k Hin). lia.
Qed.

Lemma Uint32WithBits_spec draw n :
  draws_in_range draw → 0 <= n <= 32 → ∃ r, Uint32WithBits draw n = Ok r ∧ OnesCount 32 r = n ∧ is_u32 r.
Proof.
  intros Hd Hn. unfold Uint32WithBits. destruct (Z.ltb_spec n 0); [lia|]. rewrite Z.gtb_ltb.
  destruct (Z.ltb_spec 32 n); [lia|]. cbn [orb].
  destruct (withBitsLoop_spec draw (Z.to_nat n) 0 (seqZ 0 32) 0) as (l & r & -> & Hc); [done|lia| |].
  { split_and!; [done|done|]. intros k _. by rewrite Z.testbit_0_l. }
  exists r. split; [done|]. apply chosen_OnesCount in Hc; [|lia]. destruct Hc as [H1 H2]. split; [lia|done].
Qed.

Lemma newLowEntropyHalfMask_spec (draw : nat → Z) (mode rotation : Z) :
  draws_in_range draw → isValidLowEntropyRotation rotation = true →
  match buildLowEntropyParams mode with
  | Ok params => ∃ m, newLowEntropyHalfMask draw mode = Ok m ∧ is_u32 m ∧
                   validateLowEntropyCodecParams mode m rotation = Ok params
  | Err e => newLowEntropyHalfMask draw mode = Err e
  | Panic _ => False
  end.
Proof.
  intros Hd Hr. unfold newLowEntropyHalfMask, validateLowEntropyCodecParams.
  destruct (buildLowEntropyParams mode) as [params|e|p] eqn:Hb; cbn [mbind result_bind]; [|done|].
  - pose proof (buildLowEntropyParams_inv _ _ Hb) as [Hs Ho].
    destruct (Uint32WithBits_spec draw (halfMaskOnes params)) as (m & -> & Hm & Hu); [done|lia|].
    exists m. split_and!; [done|apply Hu..|]. by rewrite Hm, Z.eqb_refl, Hr.
  - revert Hb. unfold buildLowEntropyParams. by repeat case_match.
Qed.

(** Every half mask a sender draws is valid: for each low entropy mode and
    any random draws, [newLowEntropyHalfMask] returns a 32-bit mask that
    [validateLowEntropyCodecParams] accepts together with any valid rotation;
    for any other mode it fails as the validation does. *)
Theorem half_mask_valid (draw : nat → Z) (mode rotation : Z) :
  draws_in_range draw → isValidLowEntropyRotation rotation = true →
  match buildLowEntropyParams mode with
  | Ok params => ∃ m, newLowEntropyHalfMask draw mode = Ok m ∧ is_u32 m ∧
                   validateLowEntropyCodecParams mode m rotation = Ok params
  | Err e => newLowEntropyHalfMask draw mode = Err e
  | Panic _ => False
  end.
Proof. apply newLowEntropyHalfMask_spec. Qed.
Lemma half_mask_valid_witness :
  ∃ m, newLowEntropyHalfMask (λ _, 0) LOW_ENTROPY_MODE_40 = Ok m ∧ is_u32 m ∧
    validateLowEntropyCodecParams LOW_ENTROPY_MODE_40 m LOW_ENTROPY_MASK_ROTATE_LEFT_1 = Ok (mkParams 5 20).
Proof. apply (half_mask_valid (λ _, 0) LOW_ENTROPY_MODE_40 LOW_ENTROPY_MASK_ROTATE_LEFT_1); [intros i Hi; lia|done]. Defined.

(** ** Integers that are fixed per hint *)

Abbreviation hintCache := (gmap (list Z) Z).

(** The first four bytes of the hash without the sign bit. *)
Definition hintValue (seed : list Z) : Z :=
  match Sum256 seed with
  | b0 :: b => be_get (take 4 (Z.land b0 127 :: b))
  | [] => 0
  end.

Definition FixedInt (fixed : hintCache) (n : Z) (hint : list Z) : hintCache * Z :=
  if n <=? 0 then (fixed, 0) else
  match fixed !! hint with
  | Some v => (fixed, v `rem` n)
  | None => let v := hintValue hint in (<[hint:=v]> fixed, v `rem` n)
  end.
(** The seed of a hint in one version of the program. *)
Definition versioned (appVersion hint : list Z) : list Z := hint ++ bytes_of_string " " ++ appVersion.
Definition FixedIntV (appVersion : list Z) (fixedV : hintCache) (n : Z) (hint : list Z) : hintCache * Z :=
  if n <=? 0 then (fixedV, 0) else
  match fixedV !! hint with
  | Some v => (fixedV, v `rem` n)
  | None =>
    let v := hintValue (versioned appVersion hint) in (<[hint:=v]> fixedV, v `rem` n)
  end.
Definition FixedIntVH (appVersion hostName : list Z) (fixedV : hintCache) (n : Z) : hintCache * Z :=
  FixedIntV appVersion fixedV n hostName.

(** Everything cached is the value of its hint. *)
Definition cache_of (seed : list Z → list Z) (c : hintCache) : Prop :=
  ∀ hint v, c !! hint = Some v → v = hintValue (seed hint).

(** 31 bits, as the comments promise. *)
Lemma hintValue_range seed : 0 <= hintValue seed < 2 ^ 31.
Proof.
  unfold hintValue. pose proof (Sum256_bytes seed) as Hb. pose proof (Sum256_length seed) as Hl.
  destruct (Sum256 seed) as [|b0 b]; [done|]. apply Forall_cons in Hb as [Hb0 Hb].
  change (take 4 (Z.land b0 127 :: b)) with ([Z.land b0 127] ++ take 3 b). rewrite be_get_app, be_get_one.
  assert (len (take 3 b) = 3) as -> by (unfold len; rewrite length_take; simpl in Hl; lia).
  pose proof (be_get_bound (take 3 b) (bytes_ok_take _ _ Hb)) as Hr.
  assert (len (take 3 b) = 3) as E by (unfold len; rewrite length_take; simpl in Hl; lia). rewrite E in Hr.
  change 127 with (Z.ones 7). rewrite Z.land_ones by done.
  pose proof (Z.mod_pos_bound b0 (2 ^ 7) ltac:(done)). change (256 ^ 3) with (2 ^ 24) in *. lia.
Qed.

Lemma FixedInt_spec c n hint :
  cache_of (λ h, h) c → 0 < n →
  (FixedInt c n hint).2 = hintValue hint mod n ∧ cache_of (λ h, h) (FixedInt c n hint).1.
Proof.
  intros Hc Hn. unfold FixedInt. destruct (Z.leb_spec n 0); [lia|]. pose proof (hintValue_range hint).
  destruct (c !! hint) as [v|] eqn:E; cbn.
  - rewrite (Hc _ _ E), Z.rem_mod_nonneg by lia. done.
  - rewrite Z.rem_mod_nonneg by lia. split; [done|]. intros h v. rewrite lookup_insert_Some.
    intros [[<- <-]|[_ Hv]]; [done|by apply Hc].
Qed.

Lemma FixedIntV_spec ver c n hint :
  cache_of (versioned ver) c → 0 < n →
  (FixedIntV ver c n hint).2 = hintValue (versioned ver hint) mod n ∧ cache_of (versioned ver) (FixedIntV ver c n hint).1.
Proof.
  intros Hc Hn. unfold FixedIntV. destruct (Z.leb_spec n 0); [lia|]. pose proof (hintValue_range (versioned ver hint)).
  destruct (c !! hint) as [v|] eqn:E; cbn.
  - rewrite (Hc _ _ E), Z.rem_mod_nonneg by lia. done.
  - rewrite Z.rem_mod_nonneg by lia. split; [done|]. intros h v. rewrite lookup_insert_Some.
    intros [[<- <-]|[_ Hv]]; [done|by apply Hc].
Qed.

(** Fixed integers: after any history of calls with any hints and bounds,
    [FixedInt] and [FixedIntV] give a value in [0, n) that only depends on the
    hint (and the version of the program), so the cache is transparent. *)
Theorem fixed_integers_stable (ver : list Z) (calls : list (Z * list Z)) (n : Z) (hint : list Z) :
  0 < n →
  let run f := foldl (λ c call, (f c call.1 call.2).1) (∅ : hintCache) calls in
  (0 <= (FixedInt (run FixedInt) n hint).2 < n ∧ (FixedInt (run FixedInt) n hint).2 = (FixedInt ∅ n hint).2) ∧
  (0 <= (FixedIntV ver (run (FixedIntV ver)) n hint).2 < n ∧
   (FixedIntV ver (run (FixedIntV ver)) n hint).2 = (FixedIntV ver ∅ n hint).2).
Proof.
  intros Hn run.
  assert (∀ seed (f : hintCache → Z → list Z → hintCache * Z),
    (∀ c n hint, n <= 0 → (f c n hint).1 = c) →
    (∀ c n hint, cache_of seed c → 0 < n → (f c n hint).2 = hintValue (seed hint) mod n ∧ cache_of seed (f c n hint).1) →
    0 <= (f (run f) n hint).2 < n ∧ (f (run f) n hint).2 = (f ∅ n hint).2) as H.
  { intros seed f Hneg Hf. assert (cache_of seed ∅) as H0 by (intros h v; by rewrite lookup_empty).
    assert (cache_of seed (run f)) as Hr.
    { unfold run. clear run. revert H0. generalize (∅ : hintCache). induction calls as [|[m h] calls IH]; intros c Hc; [done|].
      cbn. apply IH. destruct (Z.le_gt_cases m 0); [by rewrite Hneg|by apply Hf]. }
    destruct (Hf _ n hint Hr Hn) as [-> _], (Hf _ n hint H0 Hn) as [-> _]. split; [|done]. by apply Z.mod_pos_bound. }
  split.
  - apply (H (λ h, h)); [|intros; by apply FixedInt_spec]. intros c m h Hm. unfold FixedInt. by rewrite (proj2 (Z.leb_le _ _) Hm).
  - apply (H (versioned ver)); [|intros; by apply FixedIntV_spec]. intros c m h Hm. unfold FixedIntV. by rewrite (proj2 (Z.leb_le _ _) Hm).
Qed.
Lemma fixed_integers_stable_witness :
  0 <= (FixedInt (FixedInt ∅ 9 [1; 2]).1 5 [1; 2]).2 < 5 ∧
  (FixedInt (FixedInt ∅ 9 [1; 2]).1 5 [1; 2]).2 = (FixedInt ∅ 5 [1; 2]).2.
Proof. apply (fixed_integers_stable [] [(9, [1; 2])] 5 [1; 2]). lia. Defined.
