(* ===== verification/Replay.v ===== *)
(** * pkg/replay: the replay cache

    Signatures of recent packets, with the tag (network address) they came
    with, in two generations.  Instants are nanoseconds; the clock is an
    argument.  [hash/fnv] is GoStd.v's.

    Theorems: a repetition within the expiry interval and fewer than [capacity]
    packets is found, also after a rotation of the generations, unless the packet
    came before with the same nonempty tag; what has only
    been seen from the same address, or never, is not a duplicate; memory is
    bounded whatever arrives. *)
From S2P Require Import Prelude GoStd.

Definition EmptyTag : list Z := [].

(** [mu] serializes the methods: each is one step. *)
Record ReplayCache := mkReplay {
  capacity : Z;
  expireTime : Z;
  expireInterval : Z;
  current : gmap Z (list Z);
  previous : gmap Z (list Z)
}.
#[export] Instance ReplayCache_eta : Settable ReplayCache := λ c,
  mkReplay (capacity c) (expireTime c) (expireInterval c) (current c) (previous c).

Definition NewCache (now capacity expireInterval : Z) : result ReplayCache :=
  if capacity <? 0 then Panic "replay cache capacity can't be negative"
  else if expireInterval <=? 0 then Panic "replay cache expire interval must be a positive time range"
  else Ok (mkReplay capacity (now + expireInterval) expireInterval ∅ ∅).

Definition computeSignature (data : list Z) : Z := fnv1a64 data.

(** How an entry compares with a tag. *)
Definition sameEntry (existingTag tag : list Z) : bool :=
  if bool_decide (existingTag = EmptyTag) || bool_decide (tag = EmptyTag) then true
  else negb (bool_decide (existingTag = tag)).

(** The two steps that drop old generations. *)
Definition expireAll (now : Z) (c : ReplayCache) : ReplayCache :=
  if Time_Sub now (expireTime c) >? expireInterval c
  then c<|current := ∅|><|previous := ∅|><|expireTime := now + expireInterval c|> else c.
Definition rotate (now : Z) (c : ReplayCache) : ReplayCache :=
  if (Z.of_nat (size (current c)) >=? capacity c) || (now >? expireTime c)
  then c<|previous := current c|><|current := ∅|><|expireTime := now + expireInterval c|> else c.

Definition IsDuplicate (now : Z) (data tag : list Z) (c : ReplayCache) : ReplayCache * bool :=
  if capacity c =? 0 then (c, false) else
  let signature := computeSignature data in
  let c := rotate now (expireAll now c) in
  match current c !! signature with
  | Some existingTag => (c, sameEntry existingTag tag)
  | None =>
    let c := c<|current := <[signature := tag]> (current c)|> in
    match previous c !! signature with
    | Some existingTag => (c, sameEntry existingTag tag)
    | None => (c, false)
    end
  end.

Definition Sizes (c : ReplayCache) : Z * Z := (Z.of_nat (size (current c)), Z.of_nat (size (previous c))).
Definition Clear (c : ReplayCache) : ReplayCache := c<|current := ∅|><|previous := ∅|>.

(** ** Histories *)

Record call := mkCall { at_time : Z; content : list Z; tag : list Z }.
Definition step (c : ReplayCache) (k : call) : ReplayCache := (IsDuplicate (at_time k) (content k) (tag k) c).1.
Definition run (c : ReplayCache) (h : list call) : ReplayCache := foldl step c h.

(** The entries of one signature, in both generations. *)
Definition entry (s : Z) (c : ReplayCache) (t : list Z) : Prop := current c !! s = Some t ∨ previous c !! s = Some t.
(** The tags that a history used for one signature. *)
Definition used (s : Z) (h : list call) (t : list Z) : Prop :=
  ∃ k, k ∈ h ∧ computeSignature (content k) = s ∧ tag k = t.

Definition prepare (now : Z) (c : ReplayCache) : ReplayCache := rotate now (expireAll now c).

Lemma entry_prepare now s c t : entry s (prepare now c) t → entry s c t.
Proof.
  unfold prepare, rotate, expireAll, entry. repeat case_match; cbn; rewrite ?lookup_empty; naive_solver.
Qed.
Lemma prepare_config now c : capacity (prepare now c) = capacity c ∧ expireInterval (prepare now c) = expireInterval c.
Proof. unfold prepare, rotate, expireAll. by repeat case_match. Qed.

(** What a call leaves behind, and what it says. *)
Lemma step_spec k c :
  capacity c ≠ 0 →
  let s := computeSignature (content k) in
  let c1 := prepare (at_time k) c in
  step c k = match current c1 !! s with Some _ => c1 | None => c1<|current := <[s := tag k]> (current c1)|> end ∧
  (IsDuplicate (at_time k) (content k) (tag k) c).2 =
    match current c1 !! s, previous c1 !! s with
    | Some t, _ | None, Some t => sameEntry t (tag k)
    | None, None => false
    end.
Proof.
  intros Hc s c1. unfold step, IsDuplicate. rewrite (proj2 (Z.eqb_neq _ _) Hc). fold (prepare (at_time k) c) s c1.
  destruct (current c1 !! s) eqn:E; [done|]. cbn. by destruct (previous c1 !! s).
Qed.

Lemma step_config k c : capacity (step c k) = capacity c ∧ expireInterval (step c k) = expireInterval c.
Proof.
  destruct (Z.eq_dec (capacity c) 0) as [E|E].
  - unfold step, IsDuplicate. by rewrite E.
  - destruct (step_spec k c E) as [-> _]. rewrite <-!(proj1 (prepare_config (at_time k) c)), <-!(proj2 (prepare_config (at_time k) c)).
    by case_match.
Qed.
Lemma run_config h c : capacity (run c h) = capacity c ∧ expireInterval (run c h) = expireInterval c.
Proof.
  revert c. induction h as [|k h IH]; intros c; [done|].
  change (run c (k :: h)) with (run (step c k) h). destruct (IH (step c k)) as [-> ->]. apply step_config.
Qed.
Lemma run_snoc c h k : run c (h ++ [k]) = step (run c h) k.
Proof. unfold run. by rewrite foldl_app. Qed.

(** Every entry comes from a call of the history. *)
Lemma entry_used s h c t : capacity c ≠ 0 → (∀ t, ¬ entry s c t) → entry s (run c h) t → used s h t.
Proof.
  intros Hc H0. revert t. induction h as [|k h IH] using rev_ind; intros t; [by intros ?%H0|].
  rewrite run_snoc. intros He. assert (entry s (run c h) t ∨ computeSignature (content k) = s ∧ tag k = t) as [H|[H1 H2]].
  { destruct (step_spec k (run c h)) as [E _]; [by rewrite (proj1 (run_config h c))|]. rewrite E in He.
    case_match; [left; by eapply entry_prepare|]. destruct He as [He|He]; cbn in He.
    - apply lookup_insert_Some in He as [[<- <-]|[_ He]]; [by right|]. left. eapply entry_prepare. by left.
    - left. eapply entry_prepare. by right. }
  - destruct (IH t H) as (k' & ? & ?). exists k'. split; [apply elem_of_app; by left|done].
  - exists k. split_and!; [apply elem_of_app; right; by apply list_elem_of_singleton|done..].
Qed.

(** ** What a duplicate is *)

(** A signature from a call at [t1] on: still in the current generation, or in
    the previous one with at most [n] newer entries. *)
Definition remembered (s t1 n : Z) (c : ReplayCache) : Prop :=
  is_Some (current c !! s) ∧ t1 <= expireTime c ∨
  is_Some (previous c !! s) ∧ t1 + expireInterval c <= expireTime c ∧ Z.of_nat (size (current c)) <= n.

Lemma remembered_prepare s t1 n now c :
  0 < expireInterval c → n < capacity c → 0 <= n → t1 <= now <= t1 + expireInterval c → 
  remembered s t1 n c → remembered s t1 n (prepare now c).
Proof.
  intros Hi Hn Hn0 Ht Hr.
  assert (expireAll now c = c) as E.
  { unfold expireAll, Time_Sub. destruct (Z.gtb_spec (Z.max (-2 ^ 63) (Z.min (2 ^ 63 - 1) (now - expireTime c))) (expireInterval c));
      [|done]. unfold remembered in Hr. lia. }
  unfold prepare, rotate. rewrite E. destruct Hr as [[Hs Ht1]|(Hs & Ht1 & Hsz)].
  - case_match; [|by left]. right. cbn. split_and!; [done|lia|]. rewrite map_size_empty. lia.
  - rewrite Z.geb_leb, Z.gtb_ltb, (proj2 (Z.leb_gt _ _)), (proj2 (Z.ltb_ge _ _)) by lia. by right.
Qed.

Lemma remembered_step s t1 n k c :
  0 < expireInterval c → n < capacity c → 0 <= n → t1 <= at_time k <= t1 + expireInterval c →
  remembered s t1 n c → remembered s t1 (n + 1) (step c k).
Proof.
  intros Hi Hn Hn0 Ht Hr. destruct (step_spec k c) as [-> _]; [lia|].
  pose proof (remembered_prepare s t1 n (at_time k) c Hi Hn Hn0 Ht Hr) as Hr'.
  set (c1 := prepare (at_time k) c) in *. case_match.
  - destruct Hr' as [?|(? & ? & ?)]; [by left|right; split_and!; [done..|lia]].
  - destruct Hr' as [[Hs ?]|(? & ? & Hsz)].
    + left. cbn. split; [|done]. destruct (decide (computeSignature (content k) = s)) as [->|];
        [by rewrite lookup_insert_eq|by rewrite lookup_insert_ne].
    + right. cbn. split_and!; [done..|]. rewrite map_size_insert_None by done. lia.
Qed.

Lemma remembered_run s t1 h c :
  0 < expireInterval c → len h < capacity c →
  Forall (λ k, t1 <= at_time k <= t1 + expireInterval c) h →
  remembered s t1 0 c → remembered s t1 (len h) (run c h).
Proof.
  intros Hi Hl Hh H0. induction h as [|k h IH] using rev_ind; [done|].
  rewrite len_app, len_cons, len_nil in *. apply Forall_app in Hh as [Hh Hk]. apply (proj1 (Forall_singleton _ _)) in Hk. cbn in Hk.
  rewrite run_snoc. destruct (run_config h c) as [E1 E2]. pose proof (len_nonneg h).
  apply remembered_step; rewrite ?E1, ?E2; [lia..|by apply IH; [lia|]].
Qed.

Lemma remembered_first k c :
  capacity c ≠ 0 → 0 < expireInterval c → remembered (computeSignature (content k)) (at_time k) 0 (step c k).
Proof.
  intros Hc Hi. destruct (step_spec k c Hc) as [-> _]. left.
  assert (at_time k <= expireTime (prepare (at_time k) c)) as Ht.
  { unfold prepare, rotate, expireAll. repeat case_match; cbn in *; bool_to_prop; lia. }
  case_match eqn:E; [by rewrite E|]. cbn. by rewrite lookup_insert_eq.
Qed.

Lemma remembered_entry s t1 n c : remembered s t1 n c → ∃ t, entry s c t.
Proof. intros [[[t Ht] _]|[[t Ht] _]]; exists t; [by left|by right]. Qed.

(** The answer of a call is about some entry of its signature, if there is one. *)
Lemma duplicate_entry k c :
  capacity c ≠ 0 →
  let s := computeSignature (content k) in
  let dup := (IsDuplicate (at_time k) (content k) (tag k) c).2 in
  (∃ t, entry s (prepare (at_time k) c) t ∧ dup = sameEntry t (tag k)) ∨
  (∀ t, ¬ entry s (prepare (at_time k) c) t) ∧ dup = false.
Proof.
  intros Hc s dup. destruct (step_spec k c Hc) as [_ E]. unfold dup. rewrite E. fold s.
  destruct (current _ !! s) as [t|] eqn:E1; [left; exists t; split; [by left|done]|].
  destruct (previous _ !! s) as [t|] eqn:E2; [left; exists t; split; [by right|done]|].
  right. split; [|done]. intros t [?|?]; congruence.
Qed.

Lemma replay_found (now cap interval : Z) (c0 : ReplayCache) (before after : list call) (first again : call) :
  NewCache now cap interval = Ok c0 → cap ≠ 0 → len after < cap →
  Forall (λ k, at_time first <= at_time k <= at_time first + interval) (after ++ [again]) →
  content again = content first →
  (∀ t, used (computeSignature (content again)) (before ++ [first] ++ after) t → sameEntry t (tag again) = true) →
  (IsDuplicate (at_time again) (content again) (tag again) (run c0 (before ++ [first] ++ after))).2 = true.
Proof.
  intros Hnew Hc Hlen Ht Hd Htags. unfold NewCache in Hnew. case_tests.
  set (c0 := mkReplay _ _ _ _ _) in *. set (h := before ++ [first] ++ after) in *.
  destruct (run_config h c0) as [E1 E2]. set (s := computeSignature (content again)) in *.
  apply Forall_app in Ht as [Ha Hk]. apply (proj1 (Forall_singleton _ _)) in Hk. cbn in Hk.
  assert (remembered s (at_time first) (len after) (run c0 h)) as Hr.
  { unfold h. rewrite app_assoc. unfold run. rewrite foldl_app. fold (run c0 (before ++ [first])). rewrite run_snoc.
    destruct (run_config before c0) as [E3 E4], (step_config first (run c0 before)) as [E5 E6].
    fold (run (step (run c0 before) first) after).
    apply remembered_run; rewrite ?E5, ?E6, ?E3, ?E4; cbn; [lia..|done|].
    unfold s. rewrite Hd. apply remembered_first; rewrite ?E3, ?E4; cbn; lia. }
  apply (remembered_prepare _ _ _ (at_time again)) in Hr; [|rewrite ?E1, ?E2; cbn; pose proof (len_nonneg after); lia..].
  apply remembered_entry in Hr as [t He].
  destruct (duplicate_entry again (run c0 h)) as [(t' & Ht' & ->)|[Hn _]]; [by rewrite E1| |by destruct (Hn t)].
  apply Htags. apply (entry_used _ h c0); [exact Hc| |by eapply entry_prepare].
  intros u [?|?]; cbn in *; by rewrite lookup_empty in *.
Qed.

(** C39. Replays from elsewhere are found: in a new cache that has seen any
    history, a packet comes in, then fewer than [capacity] others, all within the
    expiry interval of it.  When the packet comes again within that interval, and
    the cache was never given its signature with the tag that it now has (or
    it has no tag), it is reported as a duplicate: no rotation or expiry of the
    generations loses it earlier.  A repetition with a nonempty tag that the
    signature already came with is a retransmission, which the cache lets
    through when it came with no other ([retransmission_accepted]). *)
Theorem replay_detected (now cap interval : Z) (c0 : ReplayCache) (before after : list call) (first again : call) :
  NewCache now cap interval = Ok c0 → cap ≠ 0 → len after < cap →
  Forall (λ k, at_time first <= at_time k <= at_time first + interval) (after ++ [again]) →
  content again = content first →
  (∀ t, used (computeSignature (content again)) (before ++ [first] ++ after) t → sameEntry t (tag again) = true) →
  (IsDuplicate (at_time again) (content again) (tag again) (run c0 (before ++ [first] ++ after))).2 = true.
Proof. apply replay_found. Qed.
Lemma replay_detected_witness :
  ∃ c0, NewCache 0 3 1000 = Ok c0 ∧
  (IsDuplicate 1005 [1; 2] [] (run c0 ([mkCall 0 [9] [7]] ++ [mkCall 5 [1; 2] [8]] ++ [mkCall 10 [3] [8]; mkCall 900 [4] [8]]))).2 = true.
Proof.
  eexists. split; [reflexivity|].
  apply (replay_detected 0 3 1000 _ _ [mkCall 10 [3] [8]; mkCall 900 [4] [8]] (mkCall 5 [1; 2] [8]) (mkCall 1005 [1; 2] [])).
  - reflexivity.
  - done.
  - vm_compute. reflexivity.
  - repeat (constructor; [cbn; lia|]). constructor.
  - done.
  - intros t _. unfold sameEntry. cbn. by rewrite orb_true_r.
Defined.

(** No false alarm: a packet whose signature never came before in the
    history of the cache, or only with the same nonempty tag (a retransmission
    from the same address), is not a duplicate. *)
Theorem retransmission_accepted (now cap interval : Z) (c0 : ReplayCache) (h : list call) (k : call) :
  NewCache now cap interval = Ok c0 →
  (∀ t, used (computeSignature (content k)) h t → t = tag k ∧ t ≠ EmptyTag) →
  (IsDuplicate (at_time k) (content k) (tag k) (run c0 h)).2 = false.
Proof.
  intros Hnew Htags. unfold NewCache in Hnew. case_tests. set (c0 := mkReplay _ _ _ _ _).
  destruct (run_config h c0) as [E1 _]. destruct (Z.eq_dec cap 0) as [->|Hc].
  { unfold IsDuplicate. by rewrite E1. }
  destruct (duplicate_entry k (run c0 h)) as [(t & Ht & ->)|[_ E3]]; [by rewrite E1| |done].
  destruct (Htags t) as [-> Hne].
  - apply (entry_used _ h c0); [exact Hc| |by eapply entry_prepare].
    intros u [?|?]; cbn in *; by rewrite lookup_empty in *.
  - unfold sameEntry. rewrite (bool_decide_eq_false_2 (tag k = EmptyTag)) by done. cbn. by rewrite bool_decide_eq_true_2.
Qed.
Lemma retransmission_accepted_witness :
  ∃ c0, NewCache 0 3 1000 = Ok c0 ∧ (IsDuplicate 20 [1; 2] [8] (run c0 [mkCall 5 [1; 2] [8]; mkCall 6 [3] [9]])).2 = false.
Proof.
  eexists. split; [reflexivity|]. apply (retransmission_accepted 0 3 1000 _ _ (mkCall 20 [1; 2] [8])); [reflexivity|].
  intros t (k & Hk & Hs & <-). repeat (apply elem_of_cons in Hk as [->|Hk]; [first [done | by vm_compute in Hs]|]).
  by apply elem_of_nil in Hk.
Defined.

(** Memory is bounded: whatever comes at whatever times, neither
    generation ever has more than [capacity] entries. *)
Theorem replay_cache_bounded (now cap interval : Z) (c0 : ReplayCache) (h : list call) :
  NewCache now cap interval = Ok c0 →
  0 <= (Sizes (run c0 h)).1 <= cap ∧ 0 <= (Sizes (run c0 h)).2 <= cap.
Proof.
  intros Hnew. unfold NewCache in Hnew. case_tests. set (c0 := mkReplay _ _ _ _ _).
  unfold Sizes. cbn [fst snd]. induction h as [|k h IH] using rev_ind.
  { cbn. rewrite map_size_empty. lia. }
  rewrite run_snoc. destruct (run_config h c0) as [E1 _]. destruct (Z.eq_dec cap 0) as [->|Hc].
  { unfold step, IsDuplicate. rewrite E1. exact IH. }
  assert (Z.of_nat (size (current (prepare (at_time k) (run c0 h)))) < cap ∧
          Z.of_nat (size (previous (prepare (at_time k) (run c0 h)))) <= cap) as Hp.
  { unfold prepare, rotate, expireAll. repeat case_match; cbn in *; bool_to_prop; rewrite ?map_size_empty; rewrite ?E1 in *; cbn in *; lia. }
  destruct (step_spec k (run c0 h)) as [-> _]; [by rewrite E1|]. case_match; [lia|]. cbn.
  rewrite map_size_insert_None by done. lia.
Qed.
Lemma replay_cache_bounded_witness :
  ∃ c0, NewCache 0 1 1000 = Ok c0 ∧ 0 <= (Sizes (run c0 [mkCall 5 [1] []; mkCall 5 [2] []; mkCall 6 [3] []])).1 <= 1 ∧
    0 <= (Sizes (run c0 [mkCall 5 [1] []; mkCall 5 [2] []; mkCall 6 [3] []])).2 <= 1.
Proof. eexists. split; [reflexivity|]. apply (replay_cache_bounded 0 1 1000). reflexivity. Defined.
