(* ===== verification/SourceCache.v ===== *)
(** * pkg/protocol/serveruser: the source to user cache

    source_user_cache.go and source_user_cache_stats.go: a hash table from source
    addresses to the users that authenticated from them, with [Ways] entries in
    a bucket and [Users] slots in an entry.  Ticks are uint32 seconds that wrap
    around.  hash/maphash, whose seed is random, is the variable [maphash].  The atomic
    operations make every method one step (a compare-and-swap that fails starts
    over with a fresh snapshot).

    Theorems: a recorded user is found while it lives, also across the
    wrap-around of ticks; a lookup returns live users, each once, most recently
    used first; the table keeps its shape, with at most one entry per source;
    the victim of a full bucket is the least recently used entry. *)
From S2P Require Import Prelude GoNet.

Definition sourceUserCacheBucketCount : Z := 4096.
Definition sourceUserCacheWays : nat := 4.
Definition sourceUserCacheUsers : nat := 16.
Definition sourceUserCacheLifeSeconds : Z := 10 * 60.

(** ** source_user_cache_stats.go *)

Record sourceUserCacheStats := mkStats {
  lookups : Z; sourceHits : Z; sourceMisses : Z; authenticationHits : Z;
  fullFallbacks : Z; insertions : Z; expiries : Z; evictions : Z
}.
#[export] Instance stats_eta : Settable sourceUserCacheStats := λ s,
  mkStats (lookups s) (sourceHits s) (sourceMisses s) (authenticationHits s) (fullFallbacks s) (insertions s)
    (expiries s) (evictions s).
Definition noStats : sourceUserCacheStats := mkStats 0 0 0 0 0 0 0 0.
(** [Add(1)] on an atomic uint64. *)
Definition inc (n : Z) : Z := u64 (n + 1).

(** [flushSourceUserCacheCounter] of one counter: what was published before and
    the value of its metric (an int64 that never wraps here) come back. *)
Definition flushSourceUserCacheCounter (total published metric : Z) : Z * Z :=
  if total =? published then (published, metric) else (total, metric + u64 (total - published)).

(** ** Entries *)

Record sourceUserCacheEntry := mkEntry { key : list Z; lastActive : Z; users : list Z }.
#[export] Instance entry_eta : Settable sourceUserCacheEntry := λ e, mkEntry (key e) (lastActive e) (users e).
Abbreviation sourceUserCacheBucket := (list (option sourceUserCacheEntry)).
Record sourceUserCacheCandidate := mkCandidate { id : Z; age : Z }.
Record sourceUserCacheWaySelection := mkSelection { way : nat; entry : option sourceUserCacheEntry; expired : bool }.
Record sourceUserCacheRecordTransition := mkTransition { t_inserted : bool; t_expired : bool; t_evicted : bool }.

(** [table]: None after retirement.  A bucket that is not in the map has four
    nil ways. *)
Record sourceUserCache := mkCache { table : option (gmap Z sourceUserCacheBucket); stats : sourceUserCacheStats }.
#[export] Instance cache_eta : Settable sourceUserCache := λ c, mkCache (table c) (stats c).
Definition newSourceUserCache (s : sourceUserCacheStats) : sourceUserCache := mkCache (Some ∅) s.
Definition retire (c : sourceUserCache) : sourceUserCache := c<|table := None|>.
Definition emptyBucket : sourceUserCacheBucket := replicate sourceUserCacheWays None.
Definition bucketAt (t : gmap Z sourceUserCacheBucket) (i : Z) : sourceUserCacheBucket := default emptyBucket (t !! i).

(** ** Addresses *)

Record Source := mkSource { source_key : list Z; source_valid : bool }.

Definition sourceUserCachePackUser (userID tick : Z) : Z := Z.lor (u64 (Z.shiftl userID 32)) tick.
Definition sourceUserCacheUnpackUser (packed : Z) : Z * Z := (u32 (Z.shiftr packed 32), u32 packed).
Definition sourceUserCacheAge (now then_ : Z) : Z := u32 (now - then_).
Definition sourceUserCacheExpired (now then_ : Z) : bool := sourceUserCacheAge now then_ >=? sourceUserCacheLifeSeconds.

(** ** Lookup *)

(** One slot: a live user is added to the candidates, or refreshes its age. *)
Definition addCandidate (now : Z) (candidates : list sourceUserCacheCandidate) (packed : Z)
    : list sourceUserCacheCandidate :=
  let '(userID, seen) := sourceUserCacheUnpackUser packed in
  if (userID =? 0) || sourceUserCacheExpired now seen then candidates else
  let age_ := sourceUserCacheAge now seen in
  match list_find (λ c, id c = userID) candidates with
  | Some (duplicate, c) => if age_ <? age c then <[duplicate := mkCandidate userID age_]> candidates else candidates
  | None => candidates ++ [mkCandidate userID age_]
  end.
(** The inner loop of the insertion sort, on the reversed prefix. *)
Fixpoint shiftRight (candidate : sourceUserCacheCandidate) (rev_prefix : list sourceUserCacheCandidate)
    : list sourceUserCacheCandidate :=
  match rev_prefix with
  | [] => [candidate]
  | c :: rest => if age candidate <? age c then c :: shiftRight candidate rest else candidate :: rev_prefix
  end.
Definition sortCandidates (l : list sourceUserCacheCandidate) : list sourceUserCacheCandidate :=
  rev (foldl (λ rev_prefix c, shiftRight c rev_prefix) [] l).

(** The scan of the ways: it ends at the first one with the key. *)
Definition findWay (k : list Z) (bucket : sourceUserCacheBucket) : option (nat * sourceUserCacheEntry) :=
  '(i, e) ← list_find (λ e, key <$> e = Some k) bucket;
  e ← e; Some (i, e).

Section cache.
Variable maphash : list Z → Z.

Definition sourceUserCacheKey (addr : netAddr) : option (list Z) :=
  match addr with
  | TCPAddr (Some a) | UDPAddr (Some a) => canonicalIP (IP a)
  | _ => None
  end.
Definition SourceFromAddr (addr : netAddr) : Source :=
  match sourceUserCacheKey addr with
  | Some k => mkSource k true
  | None => mkSource (replicate 16 0) false
  end.
Definition sourceUserCacheBucketIndex (k : list Z) : Z := Z.land (u32 (maphash k)) (sourceUserCacheBucketCount - 1).

Definition sourceUserCache_lookup (now : Z) (k : list Z) (c : sourceUserCache) : sourceUserCache * list Z :=
  let c := c<|stats := (stats c)<|lookups := inc (lookups (stats c))|>|> in
  let miss := (c<|stats := (stats c)<|sourceMisses := inc (sourceMisses (stats c))|>|>, []) in
  match table c with
  | None => miss
  | Some t =>
    match findWay k (bucketAt t (sourceUserCacheBucketIndex k)) with
    | None => miss
    | Some (_, e) =>
      if sourceUserCacheExpired now (lastActive e) then miss else
      let candidates := foldl (addCandidate now) [] (users e) in
      let result := id <$> sortCandidates candidates in
      if len result >? 0 then (c<|stats := (stats c)<|sourceHits := inc (sourceHits (stats c))|>|>, result) else miss
    end
  end.

(** ** Recording *)

(** The first slot of each kind, and the oldest live one with its age. *)
Record slotScan := mkScan { same : option nat; empty_ : option nat; expired_ : option nat; oldest : option (nat * Z) }.
Definition orFirst (o : option nat) (i : nat) : option nat := match o with None => Some i | Some _ => o end.
Definition scanSlot (userID now : Z) (s : slotScan) (i : nat) (slot : Z) : slotScan :=
  let '(id_, seen) := sourceUserCacheUnpackUser slot in
  if (id_ =? userID) && bool_decide (same s = None) then mkScan (Some i) (empty_ s) (expired_ s) (oldest s)
  else if (id_ =? 0) && bool_decide (empty_ s = None) then mkScan (same s) (Some i) (expired_ s) (oldest s)
  else if negb (id_ =? 0) && sourceUserCacheExpired now seen && bool_decide (expired_ s = None)
  then mkScan (same s) (empty_ s) (Some i) (oldest s)
  else if negb (id_ =? 0) && negb (sourceUserCacheExpired now seen) then
    let age_ := sourceUserCacheAge now seen in
    match oldest s with
    | Some (_, oldestAge) => if age_ >? oldestAge then mkScan (same s) (empty_ s) (expired_ s) (Some (i, age_)) else s
    | None => mkScan (same s) (empty_ s) (expired_ s) (Some (i, age_))
    end
  else s.
Fixpoint scanSlots (userID now : Z) (s : slotScan) (i : nat) (slots : list Z) : slotScan :=
  match slots with
  | [] => s
  | x :: slots => scanSlots userID now (scanSlot userID now s i x) (S i) slots
  end.
Definition chooseSlot (userID now : Z) (slots : list Z) : option nat :=
  let s := scanSlots userID now (mkScan None None None None) 0 slots in
  match same s with
  | Some i => Some i
  | None =>
    match empty_ s with
    | Some i => Some i
    | None => match expired_ s with Some i => Some i | None => fst <$> oldest s end
    end
  end.

(** [slots[slot]] with no slot chosen panics. *)
Definition recordUser (e : sourceUserCacheEntry) (userID now : Z)
    : result (sourceUserCacheEntry * sourceUserCacheRecordTransition) :=
  match (slot ← chooseSlot userID now (users e); old ← users e !! slot; Some (slot, old)) with
  | None => Panic "index out of range"
  | Some (slot, old) =>
    let '(oldID, oldTick) := sourceUserCacheUnpackUser old in
    if (oldID =? userID) && (oldTick =? now) then Ok (e, mkTransition false false false) else
    let oldExpired := negb (oldID =? 0) && sourceUserCacheExpired now oldTick in
    Ok (e<|users := <[slot := sourceUserCachePackUser userID now]> (users e)|>,
        mkTransition ((oldID =? 0) || oldExpired || negb (oldID =? userID)) oldExpired
          (negb (oldID =? 0) && negb oldExpired && negb (oldID =? userID)))
  end.

Definition recordTransition (t : sourceUserCacheRecordTransition) (s : sourceUserCacheStats) : sourceUserCacheStats :=
  let s := if t_inserted t then s<|insertions := inc (insertions s)|> else s in
  let s := if t_expired t then s<|expiries := inc (expiries s)|> else s in
  if t_evicted t then s<|evictions := inc (evictions s)|> else s.

(** The first empty way, else the first expired one, else the oldest (the first
    of equally old ones). *)
Fixpoint oldestWay (now : Z) (i best : nat) (bestAge : Z) (ticks : list Z) : nat :=
  match ticks with
  | [] => best
  | t :: ticks =>
    let age_ := sourceUserCacheAge now t in
    if age_ >? bestAge then oldestWay now (S i) i age_ ticks else oldestWay now (S i) best bestAge ticks
  end.
Definition selectSourceUserCacheWay (ways : sourceUserCacheBucket) (now : Z) : sourceUserCacheWaySelection :=
  match list_find (λ e, e = None) ways with
  | Some (i, _) => mkSelection i None false
  | None =>
    let entries := omap (λ e, e) ways in
    match list_find (λ e, sourceUserCacheExpired now (lastActive e) = true) entries with
    | Some (i, e) => mkSelection i (Some e) true
    | None =>
      match lastActive <$> entries with
      | [] => mkSelection 0 None false
      | t :: ticks =>
        let i := oldestWay now 1 0 (sourceUserCacheAge now t) ticks in
        mkSelection i (entries !! i) false
      end
    end
  end.

Definition recordAuthenticatedInTable (t : gmap Z sourceUserCacheBucket) (k : list Z) (userID now : Z)
    (s : sourceUserCacheStats) : result (gmap Z sourceUserCacheBucket * sourceUserCacheStats) :=
  if userID =? 0 then Ok (t, s) else
  let bucketIndex := sourceUserCacheBucketIndex k in
  let ways := bucketAt t bucketIndex in
  match findWay k ways with
  | Some (match_, e) =>
    let sourceExpired := sourceUserCacheExpired now (lastActive e) in
    '(e, transition) ← recordUser e userID now;
    let transition := if sourceExpired then mkTransition true true false else transition in
    let e := e<|lastActive := now|> in
    Ok (<[bucketIndex := <[match_ := Some e]> ways]> t, recordTransition transition s)
  | None =>
    let selection := selectSourceUserCacheWay ways now in
    let replacement := mkEntry k now (sourceUserCachePackUser userID now :: replicate (pred sourceUserCacheUsers) 0) in
    Ok (<[bucketIndex := <[way selection := Some replacement]> ways]> t,
        recordTransition (mkTransition true (expired selection)
          (bool_decide (is_Some (entry selection)) && negb (expired selection))) s)
  end.
Definition recordAuthenticated (k : list Z) (userID now : Z) (c : sourceUserCache) : result sourceUserCache :=
  if userID =? 0 then Ok c else
  match table c with
  | None => Ok c
  | Some t =>
    '(t, s) ← recordAuthenticatedInTable t k userID now (stats c);
    Ok (mkCache (Some t) s)
  end.
End cache.

(** ** Packed slots and ages *)

Lemma unpack_pack userID tick : is_u32 userID → is_u32 tick → sourceUserCacheUnpackUser (sourceUserCachePackUser userID tick) = (userID, tick).
Proof.
  intros Hu Ht. unfold sourceUserCacheUnpackUser, sourceUserCachePackUser.
  assert (u64 (Z.shiftl userID 32) = Z.shiftl userID 32) as ->.
  { apply wrap_id. rewrite Z.shiftl_mul_pow2 by lia. unfold in_width in *. lia. }
  f_equal.
  - rewrite Z.shiftr_lor, Z.shiftr_shiftl_l, Z.sub_diag, Z.shiftl_0_r by lia.
    replace (Z.shiftr tick 32) with 0; [rewrite Z.lor_0_r; by apply wrap_id|].
    rewrite Z.shiftr_div_pow2 by lia. unfold in_width in *. symmetry. by apply Z.div_small.
  - apply Z.bits_inj'. intros i Hi. rewrite wrap_testbit, Z.lor_spec, Z.shiftl_spec by lia.
    destruct (Z.ltb_spec i 32); cbn [andb].
    + by rewrite (Z.testbit_neg_r userID) by lia.
    + symmetry. by apply (in_width_high 32).
Qed.
Lemma pack_u64 userID tick : is_u32 userID → is_u32 tick → is_u64 (sourceUserCachePackUser userID tick).
Proof.
  intros Hu Ht. apply lor_in_width; [lia|apply wrap_in_width; lia|]. unfold in_width in *. lia.
Qed.
Lemma unpack_u32 packed : is_u32 (sourceUserCacheUnpackUser packed).1.
Proof. apply wrap_in_width. lia. Qed.

(** The age of a tick is exact across the wrap-around of uint32. *)
Lemma age_exact seconds elapsed :
  0 <= elapsed < 2 ^ 32 → sourceUserCacheAge (u32 (seconds + elapsed)) (u32 seconds) = elapsed.
Proof.
  intros He. unfold sourceUserCacheAge, wrap. rewrite <-Zminus_mod. replace (seconds + elapsed - seconds) with elapsed by lia.
  by apply Z.mod_small.
Qed.

(** ** Candidates *)

(** A slot that holds a live user. *)
Definition liveSlot (now : Z) (u a : Z) (packed : Z) : Prop :=
  u ≠ 0 ∧ (sourceUserCacheUnpackUser packed).1 = u ∧
  a = sourceUserCacheAge now (sourceUserCacheUnpackUser packed).2 ∧ a < sourceUserCacheLifeSeconds.
(** The candidates are the live users with the age of their freshest slot. *)
Definition freshest (now : Z) (slots : list Z) (u a : Z) : Prop :=
  (∃ p, p ∈ slots ∧ liveSlot now u a p) ∧ ∀ p a', p ∈ slots → liveSlot now u a' p → a <= a'.
Definition candidates_of (now : Z) (slots : list Z) (cs : list sourceUserCacheCandidate) : Prop :=
  NoDup (id <$> cs) ∧ (∀ c, c ∈ cs → freshest now slots (id c) (age c)) ∧
  (∀ p u a, p ∈ slots → liveSlot now u a p → u ∈ id <$> cs).

Lemma freshest_dead now slots u a p : freshest now slots u a → (∀ a', ¬ liveSlot now u a' p) → freshest now (slots ++ [p]) u a.
Proof.
  intros [(q & Hq & Hl) Hmin] Hp. split.
  - exists q. split; [by apply elem_of_app; left|done].
  - intros r a' [Hr| ->%list_elem_of_singleton]%elem_of_app Hl'; [by eapply Hmin|by destruct (Hp a')].
Qed.

Lemma liveSlot_fun now u a u' a' p : liveSlot now u a p → liveSlot now u' a' p → u = u' ∧ a = a'.
Proof. unfold liveSlot. intros (_ & <- & -> & _) (_ & <- & -> & _). done. Qed.

Lemma addCandidate_spec now slots cs packed :
  candidates_of now slots cs → candidates_of now (slots ++ [packed]) (addCandidate now cs packed).
Proof.
  intros (Hnd & Hf & Hin). unfold addCandidate. destruct (sourceUserCacheUnpackUser packed) as [u seen] eqn:E.
  destruct (decide (u ≠ 0 ∧ sourceUserCacheAge now seen < sourceUserCacheLifeSeconds)) as [[Hu Ha]|Hdead].
  2:{ assert (((u =? 0) || sourceUserCacheExpired now seen) = true) as ->.
      { unfold sourceUserCacheExpired. rewrite Z.geb_leb. destruct (Z.eqb_spec u 0); [done|]. cbn. apply Z.leb_le. lia. }
      assert (∀ u' a', ¬ liveSlot now u' a' packed) as Hnl.
      { unfold liveSlot. rewrite E. cbn. intros u' a' (? & <- & -> & ?). tauto. }
      split_and!; [done| |].
      - intros c Hc. apply freshest_dead; [by apply Hf|apply Hnl].
      - intros p u' a' [Hp| ->%list_elem_of_singleton]%elem_of_app Hl; [by eapply Hin|by destruct (Hnl u' a')]. }
  assert (((u =? 0) || sourceUserCacheExpired now seen) = false) as ->.
  { unfold sourceUserCacheExpired. rewrite Z.geb_leb, (proj2 (Z.eqb_neq _ _) Hu), (proj2 (Z.leb_gt _ _)) by lia. done. }
  assert (liveSlot now u (sourceUserCacheAge now seen) packed) as Hl by (unfold liveSlot; by rewrite E).
  set (a := sourceUserCacheAge now seen) in *.
  destruct (list_find _ cs) as [[j c]|] eqn:Ej.
  - apply list_find_Some in Ej as (Hj & Hid & _).
    assert (∀ d, d ∈ cs → id d ≠ u → freshest now (slots ++ [packed]) (id d) (age d)) as Hother.
    { intros d Hd Hne. apply freshest_dead; [by apply Hf|]. intros a' Hl'. by destruct (liveSlot_fun _ _ _ _ _ _ Hl' Hl). }
    assert (∀ i d, cs !! i = Some d → id d = u → i = j) as Huniq.
    { intros i d Hi Hd. apply (NoDup_lookup (id <$> cs) i j u); [done|by rewrite list_lookup_fmap, Hi; cbn; rewrite Hd|
        by rewrite list_lookup_fmap, Hj; cbn; rewrite Hid]. }
    destruct (Hf c ltac:(by eapply list_elem_of_lookup_2)) as [(q & Hq & Hql) Hmin]. rewrite Hid in Hql, Hmin.
    destruct (Z.ltb_spec a (age c)).
    + assert (id <$> <[j:=mkCandidate u a]> cs = id <$> cs) as Eid.
      { rewrite list_fmap_insert. apply list_insert_id. by rewrite list_lookup_fmap, Hj, <-Hid. }
      split_and!; [by rewrite Eid| |].
      * intros d [i Hi]%list_elem_of_lookup. apply list_lookup_insert_Some in Hi as [(<- & <- & _)|[Hij Hi]]; cbn.
        -- split; [exists packed; split; [apply elem_of_app; right; by apply list_elem_of_singleton|done]|].
           intros p a' [Hp| ->%list_elem_of_singleton]%elem_of_app Hl'.
           ++ specialize (Hmin p a' Hp Hl'). lia.
           ++ destruct (liveSlot_fun _ _ _ _ _ _ Hl' Hl). lia.
        -- apply Hother; [by eapply list_elem_of_lookup_2|]. intros Hd. by destruct Hij; rewrite (Huniq _ _ Hi Hd).
      * intros p u' a' [Hp| ->%list_elem_of_singleton]%elem_of_app Hl'; rewrite Eid; [by eapply Hin|].
        destruct (liveSlot_fun _ _ _ _ _ _ Hl' Hl) as [-> _]. eapply Hin; [exact Hq|done].
    + split_and!; [done| |].
      * intros d Hd. destruct (decide (id d = u)) as [Hdu|]; [|by apply Hother].
        pose proof Hd as [i Hi]%list_elem_of_lookup. rewrite (Huniq _ _ Hi Hdu), Hj in Hi. injection Hi as <-. rewrite Hid. split.
        -- exists q. split; [by apply elem_of_app; left|done].
        -- intros p a' [Hp| ->%list_elem_of_singleton]%elem_of_app Hl'; [by eapply Hmin|].
           destruct (liveSlot_fun _ _ _ _ _ _ Hl' Hl). lia.
      * intros p u' a' [Hp| ->%list_elem_of_singleton]%elem_of_app Hl'; [by eapply Hin|].
        destruct (liveSlot_fun _ _ _ _ _ _ Hl' Hl) as [-> _]. eapply Hin; [exact Hq|done].
  - assert (∀ d, d ∈ cs → id d ≠ u) as Hnone.
    { intros d Hd. apply list_find_None in Ej. rewrite Forall_forall in Ej. by apply Ej. }
    split_and!.
    + rewrite fmap_app. apply NoDup_app. split_and!; [done| |apply NoDup_singleton].
      intros x (d & -> & Hd)%list_elem_of_fmap. intros Hx%list_elem_of_singleton. by destruct (Hnone d Hd).
    + intros d [Hd| ->%list_elem_of_singleton]%elem_of_app.
      * apply freshest_dead; [by apply Hf|]. intros a' Hl'. destruct (liveSlot_fun _ _ _ _ _ _ Hl' Hl). by destruct (Hnone d Hd).
      * cbn. split; [exists packed; split; [apply elem_of_app; right; by apply list_elem_of_singleton|done]|].
        intros p a' [Hp| ->%list_elem_of_singleton]%elem_of_app Hl'.
        -- specialize (Hin _ _ _ Hp Hl'). apply list_elem_of_fmap in Hin as (d & Hd & Hdc). by destruct (Hnone d Hdc).
        -- destruct (liveSlot_fun _ _ _ _ _ _ Hl' Hl). lia.
    + intros p u' a' [Hp| ->%list_elem_of_singleton]%elem_of_app Hl'; rewrite fmap_app; apply elem_of_app.
      * left. by eapply Hin.
      * right. destruct (liveSlot_fun _ _ _ _ _ _ Hl' Hl) as [-> _]. by apply list_elem_of_singleton.
Qed.

Lemma candidates_spec now slots : candidates_of now slots (foldl (addCandidate now) [] slots).
Proof.
  assert (∀ done_ rest cs, candidates_of now done_ cs → candidates_of now (done_ ++ rest) (foldl (addCandidate now) cs rest)) as H.
  { intros done_ rest. revert done_. induction rest as [|p rest IH]; intros done_ cs Hc; [by rewrite app_nil_r|].
    cbn [foldl]. rewrite (cons_middle p done_ rest), app_assoc. apply IH. by apply addCandidate_spec. }
  apply (H []). split_and!; [constructor|by intros c ?%elem_of_nil|by intros p u a ?%elem_of_nil].
Qed.

(** ** Sorting *)

Definition older (c d : sourceUserCacheCandidate) : Prop := age d <= age c.
Lemma shiftRight_perm c l : shiftRight c l ≡ₚ c :: l.
Proof. induction l as [|d l IH]; [done|]. cbn. case_match; [|done]. rewrite IH. apply Permutation_swap. Qed.
Lemma shiftRight_sorted c l : StronglySorted older l → StronglySorted older (shiftRight c l).
Proof.
  induction l as [|d l IH]; intros Hs; [repeat constructor|]. cbn. apply StronglySorted_inv in Hs as [Hs Hd].
  destruct (Z.ltb_spec (age c) (age d)).
  - constructor; [by apply IH|]. rewrite shiftRight_perm. constructor; [unfold older; lia|done].
  - constructor; [by constructor|]. constructor; [done|]. eapply Forall_impl; [done|]. unfold older. intros; lia.
Qed.
Lemma sortCandidates_spec l :
  sortCandidates l ≡ₚ l ∧ StronglySorted (λ c d, age c <= age d) (sortCandidates l).
Proof.
  assert (∀ acc, StronglySorted older acc →
    foldl (λ rev_prefix c, shiftRight c rev_prefix) acc l ≡ₚ acc ++ l ∧
    StronglySorted older (foldl (λ rev_prefix c, shiftRight c rev_prefix) acc l)) as H.
  { induction l as [|c l IH]; intros acc Hs; [by rewrite app_nil_r|]. cbn [foldl].
    destruct (IH (shiftRight c acc)) as [Hp Hs']; [by apply shiftRight_sorted|]. split; [|done].
    rewrite Hp, shiftRight_perm. cbn. by rewrite Permutation_middle. }
  destruct (H []) as [Hp Hs]; [constructor|]. unfold sortCandidates. split; [by rewrite <-Permutation_rev|].
  revert Hs. generalize (foldl (λ rev_prefix c, shiftRight c rev_prefix) [] l) as k. clear H Hp.
  induction k as [|c k IH]; intros Hs; [constructor|]. apply StronglySorted_inv in Hs as [Hs Hc]. cbn.
  apply StronglySorted_app. split_and!; [|by apply IH|repeat constructor].
  intros x y Hx ->%list_elem_of_singleton. rewrite Forall_forall in Hc. apply Hc. apply list_elem_of_In.
  apply list_elem_of_In in Hx. by apply in_rev in Hx.
Qed.

(** ** Choosing a slot *)

Definition deadSlot (now : Z) (packed : Z) : Prop :=
  let '(u, seen) := sourceUserCacheUnpackUser packed in u = 0 ∨ sourceUserCacheExpired now seen = true.

(** After the scan of a prefix: each choice is in range, and there is one. *)
Lemma scanSlot_range userID now s i slot n :
  let ok (o : option nat) := ∀ j, o = Some j → (j < n)%nat in
  (i < n)%nat → ok (same s) → ok (empty_ s) → ok (expired_ s) → ok (fst <$> oldest s) →
  let s' := scanSlot userID now s i slot in
  (ok (same s') ∧ ok (empty_ s') ∧ ok (expired_ s') ∧ ok (fst <$> oldest s')) ∧
  (is_Some (same s') ∨ is_Some (empty_ s') ∨ is_Some (expired_ s') ∨ is_Some (oldest s')).
Proof.
  intros ok Hi H1 H2 H3 H4 s'. unfold ok in *. unfold s', scanSlot. clear s'.
  destruct (sourceUserCacheUnpackUser slot) as [id_ seen].
  destruct ((id_ =? userID) && _) eqn:E1; [cbn; split; [split_and!; auto; intros j [= <-]; lia|left; by eexists]|].
  destruct ((id_ =? 0) && _) eqn:E2; [cbn; split; [split_and!; auto; intros j [= <-]; lia|right; left; by eexists]|].
  destruct (negb (id_ =? 0) && sourceUserCacheExpired now seen && _) eqn:E3;
    [cbn; split; [split_and!; auto; intros j [= <-]; lia|right; right; left; by eexists]|].
  destruct (negb (id_ =? 0) && negb _) eqn:E4.
  - destruct (oldest s) as [[o oa]|] eqn:Eo.
    + case_match; cbn; rewrite ?Eo; (split; [split_and!; auto|by right; right; right; eexists]).
      intros j [= <-]. lia.
    + cbn. split; [split_and!; auto; intros j [= <-]; lia|by right; right; right; eexists].
  - split; [split_and!; auto|]. rewrite andb_false_iff in E1, E2, E3, E4. rewrite !bool_decide_eq_false in *.
    destruct (Z.eqb_spec id_ 0) as [->|]; cbn in *.
    + destruct E2 as [?|E2]; [done|]. right; left. by apply not_eq_None_Some.
    + destruct E4 as [?|E4%negb_false_iff]; [done|]. rewrite E4 in E3. destruct E3 as [?|E3]; [done|].
      right; right; left. by apply not_eq_None_Some.
Qed.

Lemma chooseSlot_spec userID now slots :
  slots ≠ [] → ∃ i, chooseSlot userID now slots = Some i ∧ (i < length slots)%nat.
Proof.
  intros Hne. pose (ok := λ o : option nat, ∀ j, o = Some j → (j < length slots)%nat).
  assert (∀ rest i s, (i + length rest = length slots)%nat → ok (same s) → ok (empty_ s) → ok (expired_ s) →
    ok (fst <$> oldest s) →
    (rest ≠ [] ∨ is_Some (same s) ∨ is_Some (empty_ s) ∨ is_Some (expired_ s) ∨ is_Some (oldest s)) →
    let s' := scanSlots userID now s i rest in
    (ok (same s') ∧ ok (empty_ s') ∧ ok (expired_ s') ∧ ok (fst <$> oldest s')) ∧
    (is_Some (same s') ∨ is_Some (empty_ s') ∨ is_Some (expired_ s') ∨ is_Some (oldest s'))) as H.
  { induction rest as [|x rest IH]; intros i s Hi H1 H2 H3 H4 Hs.
    - cbn. split; [done|]. destruct Hs as [?|?]; done.
    - cbn [scanSlots length] in *.
      destruct (scanSlot_range userID now s i x (length slots)) as [(?&?&?&?) ?]; [lia|done..|].
      apply IH; [lia|done..|by right]. }
  destruct (H slots 0%nat (mkScan None None None None)) as [(H1 & H2 & H3 & H4) Hs]; [done|done..|by left|].
  unfold chooseSlot. destruct (same _) as [i|]; [exists i; split; [done|by apply H1]|].
  destruct (empty_ _) as [i|]; [exists i; split; [done|by apply H2]|].
  destruct (expired_ _) as [i|]; [exists i; split; [done|by apply H3]|].
  destruct (oldest _) as [[i ?]|]; [exists i; split; [done|by apply H4]|].
  destruct Hs as [[? ?]|[[? ?]|[[? ?]|[? ?]]]]; done.
Qed.

Lemma recordUser_spec e userID now :
  length (users e) = sourceUserCacheUsers → Forall is_u64 (users e) → is_u32 userID → is_u32 now →
  ∃ e' t, recordUser e userID now = Ok (e', t) ∧ key e' = key e ∧ lastActive e' = lastActive e ∧
    length (users e') = sourceUserCacheUsers ∧ Forall is_u64 (users e') ∧
    ∃ p, p ∈ users e' ∧ sourceUserCacheUnpackUser p = (userID, now).
Proof.
  intros Hl Hu Hid Hnow. destruct (chooseSlot_spec userID now (users e)) as (i & Hi & Hlt); [by destruct (users e)|].
  destruct (lookup_lt_is_Some_2 _ _ Hlt) as [old Hold]. unfold recordUser. rewrite Hi. cbn. rewrite Hold. cbn.
  destruct ((_ =? userID) && _) eqn:E.
  - eexists e, _. split_and!; [done..|]. exists old. split; [by eapply list_elem_of_lookup_2|].
    apply andb_true_iff in E as [E1%Z.eqb_eq E2%Z.eqb_eq]. unfold sourceUserCacheUnpackUser. congruence.
  - eexists _, _. split; [reflexivity|]. cbn. split_and!; [done|done|by rewrite length_insert| |].
    + apply Forall_insert; [done|]. by apply pack_u64.
    + exists (sourceUserCachePackUser userID now). split; [|by apply unpack_pack].
      apply list_elem_of_lookup_2 with i. by apply list_lookup_insert_eq.
Qed.

(** ** Choosing a way *)

Lemma oldestWay_spec now ticks i best bestAge :
  let r := oldestWay now i best bestAge ticks in
  (r = best ∧ (∀ t, t ∈ ticks → sourceUserCacheAge now t <= bestAge)) ∨
  (∃ j t, r = (i + j)%nat ∧ ticks !! j = Some t ∧ bestAge < sourceUserCacheAge now t ∧
     (∀ t', t' ∈ ticks → sourceUserCacheAge now t' <= sourceUserCacheAge now t)).
Proof.
  revert i best bestAge. induction ticks as [|t ticks IH]; intros i best bestAge; cbn [oldestWay].
  { left. split; [done|]. by intros t ?%elem_of_nil. }
  destruct (Z.gtb_spec (sourceUserCacheAge now t) bestAge).
  - right. destruct (IH (S i) i (sourceUserCacheAge now t)) as [[-> Hall]|(j & t' & -> & Hj & Hlt & Hall)].
    + exists 0%nat, t. split_and!; [lia|done|done|]. intros t' [->|Ht]%elem_of_cons; [lia|by apply Hall].
    + exists (S j), t'. split_and!; [lia|done|lia|]. intros t'' [->|Ht]%elem_of_cons; [lia|by apply Hall].
  - destruct (IH (S i) best bestAge) as [[-> Hall]|(j & t' & -> & Hj & Hlt & Hall)].
    + left. split; [done|]. intros t' [->|Ht]%elem_of_cons; [lia|by apply Hall].
    + right. exists (S j), t'. split_and!; [lia|done|lia|]. intros t'' [->|Ht]%elem_of_cons; [lia|by apply Hall].
Qed.

(** A bucket without an empty way. *)
Lemma full_bucket (b : sourceUserCacheBucket) : Forall (λ e, e ≠ None) b → b = Some <$> omap (λ e, e) b.
Proof.
  induction b as [|[e|] b IH]; intros Hf; [done| |by apply Forall_cons in Hf as [[] _]].
  apply Forall_cons in Hf as [_ Hf]. cbn. by rewrite <-IH.
Qed.

Lemma selectWay_lt b now : b ≠ [] → (way (selectSourceUserCacheWay b now) < length b)%nat.
Proof.
  intros Hne. unfold selectSourceUserCacheWay. destruct (list_find _ b) as [[i x]|] eqn:E.
  { apply list_find_Some in E as (Hi & _). cbn. by eapply lookup_lt_Some. }
  apply list_find_None in E. pose proof (full_bucket b E) as Eb. set (es := omap (λ e, e) b) in *.
  assert (length b = length es) as Hlen by (rewrite Eb at 1; apply length_fmap).
  destruct (list_find _ es) as [[i x]|] eqn:E2.
  { apply list_find_Some in E2 as (Hi & _). cbn. rewrite Hlen. by eapply lookup_lt_Some. }
  destruct (lastActive <$> es) as [|t ticks] eqn:Et; cbn; [destruct b; [done|cbn; lia]|].
  apply (f_equal length) in Et. rewrite length_fmap in Et. cbn in Et.
  destruct (oldestWay_spec now ticks 1 0 (sourceUserCacheAge now t)) as [[-> _]|(j & t' & -> & Hj & _)]; [lia|].
  apply lookup_lt_Some in Hj. lia.
Qed.

(** The victim of a new source: an empty way if there is one; else an entry
    that has expired; else, when all entries live, one that no other entry of
    the bucket has been idle longer than. *)
Theorem least_recently_used_way (b : sourceUserCacheBucket) (now : Z) :
  b ≠ [] →
  let s := selectSourceUserCacheWay b now in
  b !! way s = Some (entry s) ∧
  match entry s with
  | None => expired s = false
  | Some victim =>
    (∀ e, e ∈ b → e ≠ None) ∧
    expired s = sourceUserCacheExpired now (lastActive victim) ∧
    (expired s = false → ∀ e, Some e ∈ b →
       sourceUserCacheExpired now (lastActive e) = false ∧
       sourceUserCacheAge now (lastActive e) <= sourceUserCacheAge now (lastActive victim))
  end.
Proof.
  intros Hne s. unfold s, selectSourceUserCacheWay. clear s. destruct (list_find _ b) as [[i x]|] eqn:E.
  { apply list_find_Some in E as (Hi & -> & _). done. }
  apply list_find_None in E. pose proof (full_bucket b E) as Eb. rewrite Forall_forall in E.
  set (es := omap (λ e, e) b) in *. assert (∀ e, Some e ∈ b → e ∈ es) as Hmem.
  { intros e He. rewrite Eb in He. by apply list_elem_of_fmap in He as (e' & [= ->] & ?). }
  assert (∀ i e, es !! i = Some e → b !! i = Some (Some e)) as Hlk by (intros i e Hi; by rewrite Eb, list_lookup_fmap, Hi).
  destruct (list_find _ es) as [[i x]|] eqn:E2.
  { apply list_find_Some in E2 as (Hi & Hx & _). cbn. split_and!; [by apply Hlk|exact E|by symmetry|done]. }
  apply list_find_None in E2. rewrite Forall_forall in E2.
  assert (∀ e, e ∈ es → sourceUserCacheExpired now (lastActive e) = false) as Hlive.
  { intros e He. specialize (E2 e He). by destruct (sourceUserCacheExpired now (lastActive e)). }
  destruct es as [|e0 es'] eqn:Ees; [by rewrite Eb in Hne|]. rewrite <-Ees in *.
  assert (lastActive <$> es = lastActive e0 :: (lastActive <$> es')) as -> by (by rewrite Ees).
  assert (es !! 0%nat = Some e0) as Hhead by (by rewrite Ees).
  destruct (oldestWay_spec now (lastActive <$> es') 1 0 (sourceUserCacheAge now (lastActive e0)))
    as [[-> Hall]|(j & t & -> & Hj & Hlt & Hall)].
  - cbn [way entry expired]. rewrite Hhead. split_and!; [by apply Hlk|exact E| |].
    + symmetry. apply Hlive. rewrite Ees. left.
    + intros _ e He%Hmem. split; [by apply Hlive|]. rewrite Ees in He.
      apply elem_of_cons in He as [->|He]; [lia|]. apply Hall. by apply list_elem_of_fmap_2.
  - rewrite list_lookup_fmap in Hj. destruct (es' !! j) as [ej|] eqn:Ej; [|done]. injection Hj as <-.
    assert (es !! (1 + j)%nat = Some ej) as Hej by (by rewrite Ees). cbn [way entry expired]. rewrite Hej.
    split_and!; [by apply Hlk|exact E| |].
    + symmetry. apply Hlive. by eapply list_elem_of_lookup_2.
    + intros _ e He%Hmem. split; [by apply Hlive|]. rewrite Ees in He.
      apply elem_of_cons in He as [->|He]; [lia|]. apply Hall. by apply list_elem_of_fmap_2.
Qed.
Definition example_entry (k t : Z) : sourceUserCacheEntry := mkEntry (replicate 16 k) t (replicate 16 0).
Lemma least_recently_used_way_witness :
  let b := [Some (example_entry 1 900); Some (example_entry 2 700); Some (example_entry 3 800); Some (example_entry 4 950)] in
  way (selectSourceUserCacheWay b 1000) = 1%nat ∧ b !! 1%nat = Some (entry (selectSourceUserCacheWay b 1000)).
Proof.
  intros b. split; [reflexivity|]. exact (proj1 (least_recently_used_way b 1000 ltac:(done))).
Defined.

(** ** The table *)

Section theorems.
Context (maphash : list Z → Z).

Record entry_wf (e : sourceUserCacheEntry) : Prop := {
  wf_lastActive : is_u32 (lastActive e);
  wf_length : length (users e) = sourceUserCacheUsers;
  wf_users : Forall is_u64 (users e)
}.
(** The shape of bucket [i]: its ways, and at most one of them for a source of
    that bucket. *)
Record bucket_wf (i : Z) (b : sourceUserCacheBucket) : Prop := {
  wf_ways : length b = sourceUserCacheWays;
  wf_entries : ∀ e, Some e ∈ b → entry_wf e ∧ sourceUserCacheBucketIndex maphash (key e) = i;
  wf_unique : ∀ j j' e e', b !! j = Some (Some e) → b !! j' = Some (Some e') → key e = key e' → j = j'
}.
Definition table_wf (t : gmap Z sourceUserCacheBucket) : Prop := ∀ i b, t !! i = Some b → bucket_wf i b.

Lemma bucket_wf_empty i : bucket_wf i emptyBucket.
Proof.
  split; [done| |].
  - intros e He. apply list_elem_of_lookup in He as [j Hj]. by apply lookup_replicate in Hj as [? _].
  - intros j j' e e' Hj. by apply lookup_replicate in Hj as [? _].
Qed.
Lemma bucketAt_wf t i : table_wf t → bucket_wf i (bucketAt t i).
Proof. intros Ht. unfold bucketAt. destruct (t !! i) eqn:E; [by apply Ht|apply bucket_wf_empty]. Qed.

Lemma findWay_Some k b i e : findWay k b = Some (i, e) → b !! i = Some (Some e) ∧ key e = k.
Proof.
  unfold findWay. destruct (list_find _ b) as [[j x]|] eqn:E; [|done]. apply list_find_Some in E as (Hj & Hx & _).
  destruct x as [x|]; [|done]. cbn in *. intros [= <- <-]. by injection Hx.
Qed.
Lemma findWay_None k b : findWay k b = None → ∀ e, Some e ∈ b → key e ≠ k.
Proof.
  unfold findWay. destruct (list_find _ b) as [[j x]|] eqn:E.
  - apply list_find_Some in E as (_ & Hx & _). by destruct x.
  - intros _ e He <-. apply list_find_None in E. rewrite Forall_forall in E. by destruct (E _ He).
Qed.
Lemma findWay_unique k b i j e : bucket_wf i b → b !! j = Some (Some e) → key e = k → findWay k b = Some (j, e).
Proof.
  intros Hb Hj Hk. destruct (findWay k b) as [[j' e']|] eqn:E.
  - apply findWay_Some in E as [Hj' Hk']. assert (j = j') as <- by (eapply (wf_unique _ _ Hb); [done..|congruence]). congruence.
  - exfalso. by eapply findWay_None; [done|eapply list_elem_of_lookup_2|].
Qed.

(** Replacing a way by an entry of the key that it, and no other, has. *)
Lemma bucket_wf_insert i b j e :
  bucket_wf i b → entry_wf e → sourceUserCacheBucketIndex maphash (key e) = i →
  (∀ j' e', b !! j' = Some (Some e') → key e' = key e → j' = j) → bucket_wf i (<[j:=Some e]> b).
Proof.
  intros Hb He Hi Hother. split.
  - rewrite length_insert. apply (wf_ways _ _ Hb).
  - intros e' He'. apply list_elem_of_lookup in He' as [j' Hj']. apply list_lookup_insert_Some in Hj' as [(_ & [= ->] & _)|[_ Hj']]; [done|].
    apply (wf_entries _ _ Hb). by eapply list_elem_of_lookup_2.
  - intros j1 j2 e1 e2 H1 H2 Hk. apply list_lookup_insert_Some in H1 as [(<- & [= ->] & _)|[Hn1 H1]];
      apply list_lookup_insert_Some in H2 as [(<- & [= ->] & _)|[Hn2 H2]]; [done| | |].
    + symmetry. by eapply Hother.
    + by eapply Hother.
    + by eapply (wf_unique _ _ Hb).
Qed.

(** What a record does: the entry of the source, in its bucket, holds the user
    with the current tick; everything else of the table is as before. *)
Lemma record_spec t k userID now s :
  table_wf t → is_u32 userID → userID ≠ 0 → is_u32 now →
  let i := sourceUserCacheBucketIndex maphash k in
  ∃ b s' j e p,
    recordAuthenticatedInTable maphash t k userID now s = Ok (<[i:=b]> t, s') ∧ bucket_wf i b ∧
    b !! j = Some (Some e) ∧ key e = k ∧ lastActive e = now ∧
    p ∈ users e ∧ sourceUserCacheUnpackUser p = (userID, now).
Proof.
  intros Ht Hu Hu0 Hnow i. pose proof (bucketAt_wf t i Ht) as Hb. unfold recordAuthenticatedInTable.
  rewrite (proj2 (Z.eqb_neq _ _) Hu0). fold i. cbv zeta. set (ways := bucketAt t i) in *.
  destruct (findWay k ways) as [[j e]|] eqn:E.
  - apply findWay_Some in E as [Hj Hk].
    destruct (wf_entries _ _ Hb e ltac:(by eapply list_elem_of_lookup_2)) as [He Hi].
    destruct (recordUser_spec e userID now) as (e' & tr & -> & Hk' & Hla & Hl' & Hu' & p & Hp & Hup); [apply He|apply He|done|done|].
    rewrite bind_Ok. eexists _, _, j, (e'<|lastActive := now|>), p.
    split_and!; [reflexivity| | |by cbn; congruence|done|done|done].
    + apply bucket_wf_insert; [done|by split|cbn; by rewrite Hk'|]. cbn. intros j' e'' Hj' Hke. rewrite Hk' in Hke.
      by eapply (wf_unique _ _ Hb).
    + apply list_lookup_insert_eq. by eapply lookup_lt_Some.
  - pose proof (findWay_None _ _ E) as Hnone. set (sel := selectSourceUserCacheWay ways now).
    set (e := mkEntry k now _). eexists _, _, (way sel), e, (sourceUserCachePackUser userID now).
    split_and!; [reflexivity| | |done|done|left|by apply unpack_pack].
    + apply bucket_wf_insert; [done| |done|].
      * split; [done|done|]. cbn [users e]. constructor; [by apply pack_u64|]. by apply Forall_replicate.
      * intros j' e' Hj' Hke. by destruct (Hnone e' ltac:(by eapply list_elem_of_lookup_2)).
    + apply list_lookup_insert_eq. apply selectWay_lt. pose proof (wf_ways _ _ Hb) as Hw. by destruct ways.
Qed.

Lemma recordAuthenticated_wf (t : gmap Z sourceUserCacheBucket) (k : list Z) (userID now : Z) (s : sourceUserCacheStats) :
  table_wf t → is_u32 userID → is_u32 now →
  ∃ t' s', recordAuthenticated maphash k userID now (mkCache (Some t) s) = Ok (mkCache (Some t') s') ∧ table_wf t'.
Proof.
  intros Ht Hu Hnow. unfold recordAuthenticated. destruct (Z.eqb_spec userID 0) as [->|Hu0]; [by exists t, s|]. cbn [table stats].
  destruct (record_spec t k userID now s Ht Hu Hu0 Hnow) as (b & s' & j & e & p & -> & Hb & _). rewrite bind_Ok.
  exists (<[sourceUserCacheBucketIndex maphash k:=b]> t), s'. split; [done|].
  intros i b' Hi. apply lookup_insert_Some in Hi as [[<- <-]|[_ Hi]]; [done|by apply Ht].
Qed.

(** C40. The table keeps its shape: [recordAuthenticated] never panics, and keeps
    four ways to a bucket and sixteen slots to an entry, every entry in the
    bucket of its source, and at most one entry per source. *)
Theorem source_table_invariant (t : gmap Z sourceUserCacheBucket) (k : list Z) (userID now : Z) (s : sourceUserCacheStats) :
  table_wf t → is_u32 userID → is_u32 now →
  ∃ t' s', recordAuthenticated maphash k userID now (mkCache (Some t) s) = Ok (mkCache (Some t') s') ∧ table_wf t'.
Proof. apply recordAuthenticated_wf. Qed.

(** What a lookup returns. *)
Lemma lookup_result now k c t :
  table c = Some t → table_wf t →
  (sourceUserCache_lookup maphash now k c).2 =
    match findWay k (bucketAt t (sourceUserCacheBucketIndex maphash k)) with
    | Some (_, e) => if sourceUserCacheExpired now (lastActive e) then []
                     else id <$> sortCandidates (foldl (addCandidate now) [] (users e))
    | None => []
    end.
Proof.
  intros Hc Ht. unfold sourceUserCache_lookup. cbn. rewrite Hc. destruct (findWay _ _) as [[j e]|]; [|done].
  case_match; [done|]. destruct (Z.gtb_spec (len (id <$> sortCandidates (foldl (addCandidate now) [] (users e)))) 0); [done|].
  cbn. symmetry. apply len_zero. pose proof (len_nonneg (id <$> sortCandidates (foldl (addCandidate now) [] (users e)))). lia.
Qed.

(** A cache that is retired or has a table of the right shape. *)
Definition sourceCache_wf (c : sourceUserCache) : Prop := ∀ t, table c = Some t → table_wf t.

Lemma length_candidates now slots cs : (length (foldl (addCandidate now) cs slots) <= length cs + length slots)%nat.
Proof.
  revert cs. induction slots as [|p slots IH]; intros cs; cbn [foldl length]; [lia|]. etransitivity; [apply IH|].
  assert (length (addCandidate now cs p) <= S (length cs))%nat; [|lia].
  unfold addCandidate. destruct (sourceUserCacheUnpackUser p) as [u seen]. case_match; [lia|].
  destruct (list_find _ cs) as [[j x]|]; [case_match; rewrite ?length_insert; lia|]. rewrite length_app. cbn. lia.
Qed.
Lemma lookup_bounds now k c :
  sourceCache_wf c → NoDup (sourceUserCache_lookup maphash now k c).2 ∧
    (length (sourceUserCache_lookup maphash now k c).2 <= sourceUserCacheUsers)%nat.
Proof.
  intros Hc. destruct (table c) as [t|] eqn:Et.
  2:{ unfold sourceUserCache_lookup. cbn. rewrite Et. split; [constructor|cbn; lia]. }
  rewrite (lookup_result now k c t) by (done || by apply Hc).
  destruct (findWay _ _) as [[j e]|] eqn:Ef; [|split; [constructor|cbn; lia]]. case_match; [split; [constructor|cbn; lia]|].
  apply findWay_Some in Ef as [Hj _].
  destruct (wf_entries _ _ (bucketAt_wf t _ (Hc _ Et)) e ltac:(by eapply list_elem_of_lookup_2)) as [He _].
  destruct (sortCandidates_spec (foldl (addCandidate now) [] (users e))) as [Hp _]. rewrite Hp. split.
  - apply (candidates_spec now (users e)).
  - rewrite length_fmap. etransitivity; [apply length_candidates|]. cbn. by rewrite (wf_length _ He).
Qed.

(** A lookup is a set of live users in most recently used order: each user
    once; every one of them, and no other, has a slot in the source's entry that
    has not expired; and the ages of their freshest slots ascend. *)
Theorem lookup_most_recent_first (now : Z) (k : list Z) (c : sourceUserCache) (t : gmap Z sourceUserCacheBucket)
    (i : nat) (e : sourceUserCacheEntry) :
  table c = Some t → table_wf t →
  findWay k (bucketAt t (sourceUserCacheBucketIndex maphash k)) = Some (i, e) →
  sourceUserCacheExpired now (lastActive e) = false →
  let l := (sourceUserCache_lookup maphash now k c).2 in
  NoDup l ∧ (∀ u, u ∈ l ↔ ∃ p a, p ∈ users e ∧ liveSlot now u a p) ∧
  ∃ ages, length ages = length l ∧ StronglySorted Z.le ages ∧
    ∀ j u a, l !! j = Some u → ages !! j = Some a → freshest now (users e) u a.
Proof.
  intros Hc Ht Hf He l. unfold l. rewrite (lookup_result now k c t), Hf, He by done. clear l.
  destruct (candidates_spec now (users e)) as (Hnd & Hfr & Hin). set (cs := foldl _ _ _) in *.
  destruct (sortCandidates_spec cs) as [Hp Hs]. split_and!.
  - by rewrite Hp.
  - intros u. rewrite Hp. split.
    + intros (x & -> & Hx)%list_elem_of_fmap. destruct (Hfr x Hx) as [(p & Hpi & Hl) _]. by exists p, (age x).
    + intros (p & a & Hpi & Hl). by eapply Hin.
  - exists (age <$> sortCandidates cs). split_and!; [by rewrite !length_fmap| |].
    + clear -Hs. induction Hs as [|x l Hs IH Hall]; constructor; [done|]. apply Forall_fmap. done.
    + intros j u a. rewrite !list_lookup_fmap. destruct (sortCandidates cs !! j) as [x|] eqn:E; [|done].
      intros [= <-] [= <-]. apply Hfr. rewrite <-Hp. by eapply list_elem_of_lookup_2.
Qed.

(** What was recorded is found: in a table of any history, a user recorded
    for a source is among the users of a lookup of that source less than ten
    minutes later, also when the uint32 tick wraps around in between. *)
Theorem recorded_user_found (t : gmap Z sourceUserCacheBucket) (k : list Z) (userID seconds elapsed : Z) (s : sourceUserCacheStats) :
  table_wf t → is_u32 userID → userID ≠ 0 → 0 <= elapsed < sourceUserCacheLifeSeconds →
  ∃ c, recordAuthenticated maphash k userID (u32 seconds) (mkCache (Some t) s) = Ok c ∧
    userID ∈ (sourceUserCache_lookup maphash (u32 (seconds + elapsed)) k c).2.
Proof.
  intros Ht Hu Hu0 Hel. assert (is_u32 (u32 seconds)) as Hnow by (apply wrap_in_width; lia).
  destruct (record_spec t k userID (u32 seconds) s Ht Hu Hu0 Hnow) as (b & s' & j & e & p & Hr & Hb & Hj & Hk & Hla & Hp & Hup).
  unfold recordAuthenticated. rewrite (proj2 (Z.eqb_neq _ _) Hu0). cbn [table stats]. rewrite Hr, bind_Ok.
  set (i := sourceUserCacheBucketIndex maphash k) in *. eexists. split; [reflexivity|].
  assert (table_wf (<[i:=b]> t)) as Ht'.
  { intros i' b' Hi. apply lookup_insert_Some in Hi as [[<- <-]|[_ Hi]]; [done|by apply Ht]. }
  rewrite (lookup_result _ k _ (<[i:=b]> t)) by done. fold i. unfold bucketAt. rewrite lookup_insert_eq. change (default emptyBucket (Some b)) with b.
  rewrite (findWay_unique k b i j e Hb Hj Hk).
  assert (sourceUserCacheAge (u32 (seconds + elapsed)) (u32 seconds) = elapsed) as Hage
    by (apply age_exact; unfold sourceUserCacheLifeSeconds in *; lia).
  assert (sourceUserCacheExpired (u32 (seconds + elapsed)) (lastActive e) = false) as ->.
  { unfold sourceUserCacheExpired. rewrite Hla, Hage, Z.geb_leb. apply Z.leb_gt. lia. }
  destruct (candidates_spec (u32 (seconds + elapsed)) (users e)) as (_ & _ & Hin).
  destruct (sortCandidates_spec (foldl (addCandidate (u32 (seconds + elapsed))) [] (users e))) as [Hperm _]. rewrite Hperm.
  apply (Hin p userID elapsed Hp). unfold liveSlot. rewrite Hup. cbn. rewrite Hage. split_and!; [done..|lia].
Qed.
End theorems.

Lemma table_wf_empty maphash : table_wf maphash ∅.
Proof. intros i b. by rewrite lookup_empty. Qed.

(** A hash for the examples. *)
Definition exampleHash (k : list Z) : Z := be_get k.
Definition example_cache : sourceUserCache := Eval vm_compute in
  match recordAuthenticated exampleHash (replicate 16 7) 3 4294967000 (newSourceUserCache noStats) with Ok c => c | _ => mkCache None noStats end.
Lemma source_table_invariant_witness :
  ∃ t' s', recordAuthenticated exampleHash (replicate 16 7) 3 100 (newSourceUserCache noStats) = Ok (mkCache (Some t') s') ∧
    table_wf exampleHash t'.
Proof. apply (source_table_invariant exampleHash ∅); [apply table_wf_empty|done|done]. Defined.
Lemma recorded_user_found_witness :
  ∃ c, recordAuthenticated exampleHash (replicate 16 7) 3 4294967000 (newSourceUserCache noStats) = Ok c ∧
    3 ∈ (sourceUserCache_lookup exampleHash 204 (replicate 16 7) c).2.
Proof. apply (recorded_user_found exampleHash ∅ (replicate 16 7) 3 4294967000 500); [apply table_wf_empty|done|done|done]. Defined.
Lemma lookup_most_recent_first_witness :
  ∃ t, table example_cache = Some t ∧ NoDup (sourceUserCache_lookup exampleHash 204 (replicate 16 7) example_cache).2.
Proof.
  destruct (source_table_invariant exampleHash ∅ (replicate 16 7) 3 4294967000 noStats) as (t & s & Hr & Ht); [apply table_wf_empty|done|done|].
  assert (example_cache = mkCache (Some t) s) as E.
  { apply (f_equal (λ r, match r with Ok c => c | _ => mkCache None noStats end)) in Hr. rewrite <-Hr. vm_compute. reflexivity. }
  assert (t = default ∅ (table example_cache)) as -> by (by rewrite E). rewrite E. eexists. split; [done|].
  destruct (findWay (replicate 16 7) (bucketAt (default ∅ (table example_cache)) (sourceUserCacheBucketIndex exampleHash (replicate 16 7)))) as [[i e]|] eqn:Ef.
  - destruct (sourceUserCacheExpired 204 (lastActive e)) eqn:Ee; [|by eapply (lookup_most_recent_first exampleHash 204 (replicate 16 7) (mkCache _ s) _ i e)].
    vm_compute in Ef. injection Ef as <- <-. by vm_compute in Ee.
  - by vm_compute in Ef.
Defined.
