(* ===== verification/ServerUser.v ===== *)
(** * pkg/protocol/serveruser/registry.go: users and their discovery

    A generation ([state]) is compiled from the configured users and published
    in the [Registry].  Discovery finds the user whose key opens the encrypted
    metadata, in the order: cached users with a matching hint, other users with
    a matching hint, and, unless a hint is mandatory, cached and then other
    users without one.

    The decryptors are objects that discovery changes: they are kept in
    [decryptors] by generation number and user id, next to the process-wide
    cipher cache.  One discovery attempt happens at one instant [now]; [jitter]
    is the random source of the cipher cache, per user.

    Theorems: the compiled users have dense ids and distinct valid names; a
    discovery attempt is exactly the first success along the candidate order,
    which tries every user at most once and prefers hints; so an attempt is
    complete, and its result does not depend on the cache when only one user can
    open the metadata; with [requireCurrent] discovery ends as soon as
    publications pause, with a result of the current generation. *)
From S2P Require Import Prelude MathExt Messages GoStd Ascii Cipher SourceCache.

(** ** The configuration message (proto User and Quota) and its getters *)

Record QuotaMsg := mkQuotaMsg { Days : option Z; Megabytes : option Z }.
Record User := mkUserMsg { Name : option (list Z); Password : option (list Z); HashedPassword : option (list Z); Quotas : list QuotaMsg;
  AllowPrivateIP : option bool; AllowLoopbackIP : option bool }.
Definition GetName (u : option User) : list Z := default [] (u ≫= Name).
Definition GetPassword (u : option User) : list Z := default [] (u ≫= Password).
Definition GetHashedPassword (u : option User) : list Z := default [] (u ≫= HashedPassword).
Definition GetQuotas (u : option User) : list QuotaMsg := default [] (Quotas <$> u).
Definition GetAllowPrivateIP (u : option User) : bool := default false (u ≫= AllowPrivateIP).
Definition GetAllowLoopbackIP (u : option User) : bool := default false (u ≫= AllowLoopbackIP).
Definition GetDays (q : QuotaMsg) : Z := default 0 (Days q).
Definition GetMegabytes (q : QuotaMsg) : Z := default 0 (Megabytes q).

(** ** Generations *)

Record Quota := mkQuota { days : Z; megabytes : Z }.
Record Policy := mkPolicy { policy_name : list Z; policy_quotas : list Quota }.
Record user := mkUser { uid : Z; name : list Z; credential : list Z; policy : Policy }.
#[global] Instance Quota_eq_dec : EqDecision Quota.
Proof. solve_decision. Defined.
#[global] Instance Policy_eq_dec : EqDecision Policy.
Proof. solve_decision. Defined.
#[global] Instance user_eq_dec : EqDecision user.
Proof. solve_decision. Defined.
(** [number] tells generations apart, as their addresses do. *)
Record state := mkState { number : Z; users : list user; cache : sourceUserCache }.
#[export] Instance state_eta : Settable state := λ s, mkState (number s) (users s) (cache s).

(** Go's order of strings. *)
Fixpoint bytesLtb (a b : list Z) : bool :=
  match a, b with
  | [], [] => false
  | [], _ :: _ => true
  | _ :: _, [] => false
  | x :: a, y :: b => if x <? y then true else if y <? x then false else bytesLtb a b
  end.

Record inputUser := mkInput { mapKey : list Z; input_user : option User; input_name : list Z }.
Definition inputLess (a b : inputUser) : bool :=
  if bool_decide (input_name a = input_name b) then bytesLtb (mapKey a) (mapKey b)
  else bytesLtb (input_name a) (input_name b).
(** [sort.Slice]: with a strict total order there is one sorted list, whatever
    the algorithm; this is insertion. *)
Fixpoint insertInput (x : inputUser) (l : list inputUser) : list inputUser :=
  match l with
  | [] => [x]
  | y :: l' => if inputLess x y then x :: l else y :: insertInput x l'
  end.
Definition sortInputs (l : list inputUser) : list inputUser := foldr insertInput [] l.

Definition buildCredential (u : option User) (nm : list Z) : result (list Z) :=
  match u with
  | None => Err (Errorf "user record is nil")
  | Some _ =>
    if negb (len (GetHashedPassword u) =? 0) then
      match hexDecode (GetHashedPassword u) with
      | None => Err (Errorf "hashed credential is not valid hexadecimal")
      | Some decoded => if negb (len decoded =? 32) then Err (Errorf "hashed credential decodes to the wrong size") else Ok decoded
      end
    else if len (GetPassword u) =? 0 then Err (Errorf "credential is empty")
    else Ok (HashPassword (GetPassword u) nm)
  end.

Definition buildPolicy (u : option User) : Policy :=
  mkPolicy (GetName u) ((λ q, mkQuota (GetDays q) (GetMegabytes q)) <$> GetQuotas u).

(** The loop over the sorted inputs: users that can not be used are skipped. *)
Definition compileStep (nameCounts : list Z → Z) (compiled : list user) (input : inputUser) : list user :=
  let nm := input_name input in
  if len nm =? 0 then compiled
  else if nameCounts nm >? 1 then compiled
  else if len nm >? MaxUserNameLen then compiled
  else match buildCredential (input_user input) nm with
       | Ok cred =>
         match NewStatelessDecryptor cred with
         | Ok _ => compiled ++ [mkUser (u32 (len compiled + 1)) nm cred (buildPolicy (input_user input))]
         | _ => compiled
         end
       | _ => compiled
       end.
Definition inputsOf (users : gmap (list Z) (option User)) : list inputUser :=
  (λ '(k, u), mkInput k u (GetName u)) <$> map_to_list users.
Definition buildState (n : Z) (users : gmap (list Z) (option User)) (stats : sourceUserCacheStats) : state :=
  let inputs := inputsOf users in
  let nameCounts nm := len (filter (λ i, input_name i = nm) inputs) in
  mkState n (foldl (compileStep nameCounts) [] (sortInputs inputs)) (newSourceUserCache stats).

(** [BuildPolicies]: a map, here from the pairs it stores in iteration order. *)
Definition BuildPolicies (users : gmap (list Z) (option User)) : gmap (list Z) Policy :=
  foldl (λ policies '(_, u),
    match u with
    | None => policies
    | Some _ => if len (GetName u) =? 0 then policies else <[GetName u := buildPolicy u]> policies
    end) ∅ (map_to_list users).

Definition userByID (s : state) (userID : Z) : option user :=
  if (userID =? 0) || (userID >? u32 (len (users s))) then None
  else match users s !! Z.to_nat (userID - 1) with
       | Some u => if negb (uid u =? userID) then None else Some u
       | None => None
       end.
(** The array of attempted cached ids and its count are a list. *)
Definition userIDWasAttempted (attempted : list Z) (userID : Z) : bool := existsb (Z.eqb userID) attempted.
Definition markUserIDAttempted (attempted : list Z) (userID : Z) : list Z :=
  if (len attempted <? Z.of_nat sourceUserCacheUsers) && negb (userIDWasAttempted attempted userID)
  then attempted ++ [userID] else attempted.

(** ** Discovery *)

Inductive matchOrigin := matchUnknown | matchCachedHint | matchRegistryHint | matchCachedFallback | matchRegistryFallback.
Record discoveryResult := mkDiscovery {
  r_block : aeadBlockCipher;
  r_decryptedMetadata : list Z;
  r_userID : Z;
  r_userContext : list Z;
  r_policy : Policy;
  r_origin : matchOrigin;
  r_generation : option Z
}.
Record Authentication := mkAuth {
  a_userID : Z;
  a_policy : Policy;
  a_origin : matchOrigin;
  a_generation : option Z;
  a_source : Source
}.
Definition noAuthentication : Authentication := mkAuth 0 (mkPolicy [] []) matchUnknown None (mkSource (replicate 16 0) false).
Definition authentication (r : discoveryResult) (source : Source) : Authentication :=
  mkAuth (r_userID r) (r_policy r) (r_origin r) (r_generation r) source.
Definition Valid (a : Authentication) : bool := negb (a_userID a =? 0) && bool_decide (is_Some (a_generation a)).

(** What discovery changes outside of the generation. *)
Record world := mkWorld { ciphers : cipherCache; decryptors : gmap (Z * Z) StatelessDecryptor }.
(** The users tried so far among the cached ones, and how often a key was tried. *)
Record trial := mkTrial { t_world : world; t_attempted : list Z; t_attempts : Z }.

Record Registry := mkRegistry { r_users : option state; hintMandatory : bool }.

Section discovery.
Context `{C : Crypto}.
Variable maphash : list Z → Z.
Variable jitter : Z → Z.

Definition decryptorOf (w : world) (n : Z) (u : user) : StatelessDecryptor :=
  default (mkDecryptor (credential u) None) (decryptors w !! (n, uid u)).

Definition tryUser (w : world) (n : Z) (u : user) (encryptedMeta : list Z) (now : Z) (origin : matchOrigin)
    : result (world * option discoveryResult) :=
  let '(cache', d, r) := tryDecryptAt (ciphers w) (decryptorOf w n u) encryptedMeta [] now (jitter (uid u)) in
  let w := mkWorld cache' (<[(n, uid u) := d]> (decryptors w)) in
  match r with
  | Ok (block, plaintext) => Ok (w, Some (mkDiscovery block plaintext (uid u) (name u) (policy u) origin None))
  | Err _ => Ok (w, None)
  | Panic m => Panic m
  end.

Section attempt.
Variable s : state.
Variable encryptedMeta : list Z.
Variable now : Z.
Definition nonceOf : list Z := slice_to DefaultNonceSize encryptedMeta.

(** One round of a loop over cached ids: the first loop tries users with a
    matching hint, the third one those without. *)
Fixpoint tryCached (hint : bool) (ids : list Z) (t : trial) : result (trial * option discoveryResult) :=
  match ids with
  | [] => Ok (t, None)
  | i :: ids =>
    match userByID s i with
    | None => tryCached hint ids t
    | Some u =>
      if userIDWasAttempted (t_attempted t) (uid u) then tryCached hint ids t else
      h ← CheckUserFromHint (name u) nonceOf;
      if negb (eqb h hint) then tryCached hint ids t else
      '(w, r) ← tryUser (t_world t) (number s) u encryptedMeta now (if hint then matchCachedHint else matchCachedFallback);
      let t := mkTrial w (markUserIDAttempted (t_attempted t) (uid u)) (t_attempts t + 1) in
      match r with
      | Some r => Ok (t, Some r)
      | None => tryCached hint ids t
      end
    end
  end.
(** One round of a loop over all users. *)
Fixpoint tryRegistry (hint : bool) (us : list user) (t : trial) : result (trial * option discoveryResult) :=
  match us with
  | [] => Ok (t, None)
  | u :: us =>
    if userIDWasAttempted (t_attempted t) (uid u) then tryRegistry hint us t else
    h ← CheckUserFromHint (name u) nonceOf;
    if negb (eqb h hint) then tryRegistry hint us t else
    '(w, r) ← tryUser (t_world t) (number s) u encryptedMeta now (if hint then matchRegistryHint else matchRegistryFallback);
    let t := mkTrial w (t_attempted t) (t_attempts t + 1) in
    match r with
    | Some r => Ok (t, Some r)
    | None => tryRegistry hint us t
    end
  end.
End attempt.

(** [lookup] is only called for a valid source. *)
Definition cachedIDs (s : state) (source : Source) (tick : Z) : sourceUserCache * list Z :=
  if source_valid source then sourceUserCache_lookup maphash tick (source_key source) (cache s) else (cache s, []).

(** The result with the cache, whose counters move. *)
Definition tryState (w : world) (s : state) (encryptedMeta : list Z) (source : Source) (mandatory : bool) (now tick : Z)
    : result (trial * sourceUserCache * option discoveryResult) :=
  let '(c, ids) := cachedIDs s source tick in
  '(t, r) ← tryCached s encryptedMeta now true ids (mkTrial w [] 0);
  match r with
  | Some r => Ok (t, c, Some r)
  | None =>
    let c := c<|stats := (stats c)<|fullFallbacks := inc (fullFallbacks (stats c))|>|> in
    '(t, r) ← tryRegistry s encryptedMeta now true (users s) t;
    match r with
    | Some r => Ok (t, c, Some r)
    | None =>
      if mandatory then Ok (t, c, None) else
      '(t, r) ← tryCached s encryptedMeta now false ids t;
      match r with
      | Some r => Ok (t, c, Some r)
      | None =>
        '(t, r) ← tryRegistry s encryptedMeta now false (users s) t;
        Ok (t, c, r)
      end
    end
  end.

(** The loop: [loads i] is what the [i]-th [publisher.Load()] returns, while
    other goroutines may publish.  With every outcome come what changed: the
    ciphers, and the last generation with its cache. *)
Fixpoint discoverLoop (fuel i : nat) (loads : nat → option state) (mandatory : bool) (w : world)
    (encryptedMeta : list Z) (source : Source) (requireCurrent : bool) (now tick : Z)
    : world * option state * result discoveryResult :=
  match fuel with
  | O => (w, None, Panic "out of fuel")
  | S fuel =>
    match loads i with
    | None => (w, None, Err (Errorf "no server user found"))
    | Some s =>
      if len (users s) =? 0 then (w, None, Err (Errorf "no server user found")) else
      match tryState w s encryptedMeta source mandatory now tick with
      | Panic m => (w, None, Panic m)
      | Err e => (w, None, Err e)
      | Ok (t, c, r) =>
        let w := t_world t in
        if requireCurrent && negb (bool_decide (number <$> loads (S i) = Some (number s)))
        then discoverLoop fuel (S (S i)) loads mandatory w encryptedMeta source requireCurrent now tick else
        match r with
        | None => (w, Some (s<|cache := c|>), Err (Errorf "cipher.TryDecrypt() failed for all users"))
        | Some r =>
          let hit := match r_origin r with matchCachedHint | matchCachedFallback => true | _ => false end in
          let c := if hit then c<|stats := (stats c)<|authenticationHits := inc (authenticationHits (stats c))|>|> else c in
          (w, Some (s<|cache := c|>),
           Ok (mkDiscovery (r_block r) (r_decryptedMetadata r) (r_userID r) (r_userContext r) (r_policy r) (r_origin r) (Some (number s))))
        end
      end
    end
  end.
Definition discoverUser (fuel : nat) (loads : nat → option state) (mandatory : bool) (w : world)
    (encryptedMeta : list Z) (source : Source) (requireCurrent : bool) (now tick : Z)
    : world * option state * result discoveryResult :=
  if len encryptedMeta <? DefaultNonceSize then (w, None, Err (Errorf "encrypted metadata is shorter than nonce")) else
  discoverLoop fuel 0 loads mandatory w encryptedMeta source requireCurrent now tick.

(** [Discover]: the cipher carries the user's name. *)
Definition Discover (fuel : nat) (loads : nat → option state) (mandatory : bool) (w : world)
    (encryptedMeta : list Z) (source : Source) (requireCurrent : bool) (now tick : Z)
    : world * option state * result (aeadBlockCipher * list Z * Authentication) :=
  let '(w, s, r) := discoverUser fuel loads mandatory w encryptedMeta source requireCurrent now tick in
  (w, s, r ← r; Ok (SetBlockContext (r_userContext r) (r_block r), r_decryptedMetadata r, authentication r source)).

(** ** The registry *)

(** [SetUsers]: the counters move on to the cache of the new generation. *)
Definition SetUsers (n : Z) (us : gmap (list Z) (option User)) (r : Registry) : Registry :=
  let stats_ := match r_users r with Some s => stats (cache s) | None => noStats end in
  mkRegistry (Some (buildState n us stats_)) (hintMandatory r).
Definition SetHintMandatory (mandatory : bool) (r : Registry) : Registry := mkRegistry (r_users r) mandatory.
Definition HasUsers (r : Registry) : bool :=
  match r_users r with Some s => negb (len (users s) =? 0) | None => false end.
(** [Record]: into the generation of the discovery; after a reload its cache is
    retired and nothing happens.  The authentication can be used once. *)
Definition Record_ (tick : Z) (a : Authentication) (r : Registry) : result (Authentication * Registry) :=
  if negb (Valid a) then Ok (a, r) else
  let a' := mkAuth (a_userID a) (a_policy a) (a_origin a) None (a_source a) in
  match r_users r with
  | Some s =>
    if source_valid (a_source a) && bool_decide (a_generation a = Some (number s)) then
      c ← recordAuthenticated maphash (source_key (a_source a)) (a_userID a) tick (cache s);
      Ok (a', mkRegistry (Some (s<|cache := c|>)) (hintMandatory r))
    else Ok (a', r)
  | None => Ok (a', r)
  end.
End discovery.

(** ** Compilation *)

Definition compileOne (nameCounts : list Z → Z) (input : inputUser) : option (list Z * list Z * Policy) :=
  let nm := input_name input in
  if (len nm =? 0) || (nameCounts nm >? 1) || (len nm >? MaxUserNameLen) then None else
  match buildCredential (input_user input) nm with
  | Ok cred => if len cred =? 0 then None else Some (nm, cred, buildPolicy (input_user input))
  | _ => None
  end.
Definition numberUser (i : nat) (x : list Z * list Z * Policy) : user := mkUser (u32 (Z.of_nat i + 1)) x.1.1 x.1.2 x.2.

Lemma compileStep_one counts compiled input :
  compileStep counts compiled input =
    match compileOne counts input with
    | Some x => compiled ++ [numberUser (length compiled) x]
    | None => compiled
    end.
Proof.
  unfold compileStep, compileOne. destruct (len _ =? 0); [done|]. destruct (_ >? 1); [done|].
  destruct (_ >? MaxUserNameLen); [done|]. cbn [orb]. destruct (buildCredential _ _) as [cred|e|m]; [|done..].
  unfold NewStatelessDecryptor. by destruct (len cred =? 0).
Qed.
Lemma compile_spec counts l : foldl (compileStep counts) [] l = imap numberUser (omap (compileOne counts) l).
Proof.
  induction l as [|x l IH] using rev_ind; [done|].
  rewrite foldl_app, omap_app, imap_app, <-IH. cbn [foldl]. rewrite compileStep_one. cbn [omap list_omap].
  destruct (compileOne counts x); [|by rewrite app_nil_r]. cbn. rewrite IH, length_imap. by rewrite Nat.add_0_r.
Qed.

Lemma insertInput_perm x l : insertInput x l ≡ₚ x :: l.
Proof. induction l as [|y l IH]; [done|]. cbn. case_match; [done|]. rewrite IH. apply Permutation_swap. Qed.
Lemma sortInputs_perm l : sortInputs l ≡ₚ l.
Proof. induction l as [|x l IH]; [done|]. cbn. by rewrite insertInput_perm, IH. Qed.

Lemma buildCredential_length u nm cred : buildCredential u nm = Ok cred → len cred = 32.
Proof.
  unfold buildCredential. destruct u; [|done]. destruct (negb _); [|case_match; [done|]].
  - destruct (hexDecode _) as [decoded|]; [|done]. destruct (Z.eqb_spec (len decoded) 32); [|done]. by intros [= <-].
  - intros [= <-]. unfold HashPassword, len. by rewrite Sum256_length.
Qed.

(** What holds of the users of a generation. *)
Record users_wf (us : list user) : Prop := {
  wf_ids : ∀ i u, us !! i = Some u → uid u = Z.of_nat i + 1;
  wf_names : ∀ u, u ∈ us → 0 < len (name u) <= MaxUserNameLen;
  wf_credentials : ∀ u, u ∈ us → len (credential u) = 32;
  wf_distinct : NoDup (name <$> us);
  wf_count : len us < 2 ^ 32
}.

(** An entry of the configuration that can be used: its name is valid and no
    other entry has it, and it has a credential. *)
Definition usable (us : gmap (list Z) (option User)) (k : list Z) (m : option User) (cred : list Z) : Prop :=
  us !! k = Some m ∧ 0 < len (GetName m) <= MaxUserNameLen ∧
  (∀ k' m', us !! k' = Some m' → GetName m' = GetName m → k' = k) ∧ buildCredential m (GetName m) = Ok cred.

Lemma elem_of_inputs us x : x ∈ inputsOf us ↔ us !! mapKey x = Some (input_user x) ∧ input_name x = GetName (input_user x).
Proof.
  unfold inputsOf. rewrite list_elem_of_fmap. split.
  - intros ([k m] & -> & Hk). cbn. by apply elem_of_map_to_list in Hk.
  - intros [Hk Hn]. exists (mapKey x, input_user x). split; [|by apply elem_of_map_to_list]. destruct x. cbn in *. by subst.
Qed.
Lemma NoDup_inputs us : NoDup (mapKey <$> inputsOf us).
Proof.
  assert (mapKey <$> inputsOf us = fst <$> map_to_list us) as ->; [|apply NoDup_fst_map_to_list].
  unfold inputsOf. rewrite <-list_fmap_compose. by apply list_fmap_ext; intros i [k m].
Qed.

Lemma NoDup_fmap_filter {A B} (f : A → B) (P : A → Prop) `{∀ x, Decision (P x)} (l : list A) :
  NoDup (f <$> l) → NoDup (f <$> filter P l).
Proof.
  induction l as [|x l IH]; [done|]. rewrite fmap_cons, NoDup_cons. intros [Hx Hl]. rewrite filter_cons.
  case_decide; [|by apply IH]. rewrite fmap_cons. apply NoDup_cons. split; [|by apply IH].
  intros (y & Hy & Hin)%list_elem_of_fmap. apply list_elem_of_filter in Hin as [_ Hin]. apply Hx. rewrite Hy. by apply list_elem_of_fmap_2.
Qed.

Lemma length_omap_le {A B} (f : A → option B) (l : list A) : (length (omap f l) <= length l)%nat.
Proof. induction l as [|x l IH]; [done|]. cbn. destruct (f x); cbn; lia. Qed.
Lemma NoDup_fmap_omap {A B K} (f : A → option B) (g : B → K) (l : list A) :
  NoDup l → (∀ x x' y y', x ∈ l → x' ∈ l → f x = Some y → f x' = Some y' → g y = g y' → x = x') → NoDup (g <$> omap f l).
Proof.
  induction l as [|x l IH]; intros Hl Hinj; [constructor|]. apply NoDup_cons in Hl as [Hx Hl].
  assert (NoDup (g <$> omap f l)) as IH' by (apply IH; [done|]; intros; eapply Hinj; try done; by right).
  cbn. destruct (f x) as [y|] eqn:E; [|done]. cbn. apply NoDup_cons. split; [|done].
  intros (y' & Hg & Hy')%list_elem_of_fmap. apply list_elem_of_omap in Hy' as (x' & Hx' & E').
  apply Hx. rewrite (Hinj x x' y y'); [done|left|by right|done..].
Qed.

(** How many entries have a name. *)
Lemma count_le_one us k m :
  us !! k = Some m →
  (len (filter (λ i, input_name i = GetName m) (inputsOf us)) <= 1 ↔ ∀ k' m', us !! k' = Some m' → GetName m' = GetName m → k' = k).
Proof.
  intros Hk. set (l := filter _ _).
  assert (∀ x, x ∈ l ↔ x ∈ inputsOf us ∧ input_name x = GetName m) as Hl by (intros x; unfold l; rewrite list_elem_of_filter; tauto).
  assert (NoDup (mapKey <$> l)) as Hnd by (unfold l; apply NoDup_fmap_filter, NoDup_inputs). split.
  - intros Hle k' m' Hk' Hn.
    assert (mkInput k m (GetName m) ∈ l) as H1 by (apply Hl; rewrite elem_of_inputs; done).
    assert (mkInput k' m' (GetName m') ∈ l) as H2 by (apply Hl; rewrite elem_of_inputs; done).
    destruct l as [|a [|b l']]; [by apply elem_of_nil in H1| |unfold len in Hle; cbn in Hle; lia].
    apply list_elem_of_singleton in H1, H2. congruence.
  - intros Huniq. destruct l as [|a [|b l']] eqn:E; [unfold len; cbn; lia..|]. exfalso.
    destruct (proj1 (Hl a) ltac:(left)) as [Ha Han], (proj1 (Hl b) ltac:(right; left)) as [Hb Hbn].
    apply elem_of_inputs in Ha as [Ha1 Ha2], Hb as [Hb1 Hb2].
    cbn in Hnd. apply NoDup_cons in Hnd as [Hnd _]. apply Hnd, elem_of_cons. left.
    rewrite (Huniq (mapKey a) (input_user a)), (Huniq (mapKey b) (input_user b)); congruence.
Qed.

Lemma compileOne_Some us x y :
  x ∈ inputsOf us →
  compileOne (λ nm, len (filter (λ i, input_name i = nm) (inputsOf us))) x = Some y ↔
  ∃ cred, usable us (mapKey x) (input_user x) cred ∧ y = (input_name x, cred, buildPolicy (input_user x)).
Proof.
  intros [Hk Hn]%elem_of_inputs. unfold compileOne, usable. rewrite Hn. pose proof (count_le_one us _ _ Hk) as Hc.
  pose proof (len_nonneg (GetName (input_user x))). split.
  - destruct (_ || _) eqn:E; [done|]. bool_to_prop.
    destruct (buildCredential _ _) as [cred|e|m] eqn:Ec; [|done..]. rewrite (buildCredential_length _ _ _ Ec). cbn.
    intros [= <-]. exists cred. split_and!; [done|lia|lia| |done|done]. apply Hc. lia.
  - intros (cred & (_ & Hl & Hu & Hb) & ->). rewrite Hb, (buildCredential_length _ _ _ Hb). cbn.
    destruct (Z.eqb_spec (len (GetName (input_user x))) 0); [lia|]. rewrite !Z.gtb_ltb.
    apply Hc in Hu. destruct (Z.ltb_spec 1 (len (filter (λ i, input_name i = GetName (input_user x)) (inputsOf us)))); [lia|].
    by destruct (Z.ltb_spec MaxUserNameLen (len (GetName (input_user x)))); [lia|].
Qed.

Lemma buildState_users (n : Z) (us : gmap (list Z) (option User)) (st : sourceUserCacheStats) :
  Z.of_nat (size us) < 2 ^ 32 - 1 →
  let s := buildState n us st in
  users_wf (users s) ∧
  ∀ nm cred p, (∃ u, u ∈ users s ∧ name u = nm ∧ credential u = cred ∧ policy u = p) ↔
    ∃ k m, usable us k m cred ∧ GetName m = nm ∧ p = buildPolicy m.
Proof.
  intros Hsize s. unfold s, buildState. cbn [users]. rewrite compile_spec. set (counts := λ nm, _).
  set (l := omap (compileOne counts) (sortInputs (inputsOf us))).
  assert (∀ y, y ∈ l ↔ ∃ k m cred, usable us k m cred ∧ y = (GetName m, cred, buildPolicy m)) as Hl.
  { intros y. unfold l. rewrite list_elem_of_omap. setoid_rewrite sortInputs_perm. split.
    - intros (x & Hx & Hy). apply compileOne_Some in Hy as (cred & Hu & ->); [|done].
      exists (mapKey x), (input_user x), cred. split; [done|]. apply elem_of_inputs in Hx as [_ ->]. done.
    - intros (k & m & cred & Hu & ->). assert (mkInput k m (GetName m) ∈ inputsOf us) as Hin by (by apply elem_of_inputs; split; [apply Hu|]).
      exists (mkInput k m (GetName m)). split; [done|]. apply compileOne_Some; [done|]. by exists cred. }
  assert (∀ u, u ∈ imap numberUser l ↔ ∃ i y, l !! i = Some y ∧ u = numberUser i y) as Hi.
  { intros u. rewrite list_elem_of_lookup. setoid_rewrite list_lookup_imap. split.
    - intros (i & H). destruct (l !! i) as [y|] eqn:E; [|done]. injection H as <-. by exists i, y.
    - intros (i & y & E & ->). exists i. by rewrite E. }
  assert (len l <= Z.of_nat (size us)) as Hlen.
  { assert (length l <= length (inputsOf us))%nat as Hle.
    { rewrite <-(Permutation_length (sortInputs_perm (inputsOf us))). apply length_omap_le. }
    unfold inputsOf in Hle. rewrite length_fmap, length_map_to_list in Hle. unfold len. lia. }
  split; [split|].
  - intros i u Hu. rewrite list_lookup_imap in Hu. destruct (l !! i) as [y|] eqn:E; [|done]. injection Hu as <-. cbn.
    apply lookup_lt_Some in E. apply wrap_id. unfold in_width, len in *. lia.
  - intros u (i & y & E & ->)%Hi. cbn. apply list_elem_of_lookup_2, Hl in E as (k & m & cred & Hu & ->). apply Hu.
  - intros u (i & y & E & ->)%Hi. cbn. apply list_elem_of_lookup_2, Hl in E as (k & m & cred & Hu & ->).
    eapply buildCredential_length. apply Hu.
  - assert (name <$> imap numberUser l = (λ y, y.1.1) <$> l) as ->.
    { apply list_eq. intros i. rewrite !list_lookup_fmap, list_lookup_imap. by destruct (l !! i). }
    unfold l. apply NoDup_fmap_omap.
    + rewrite sortInputs_perm. apply (NoDup_fmap_1 mapKey), NoDup_inputs.
    + intros x x' y y'. rewrite !sortInputs_perm. intros Hx Hx' Hy Hy' Hn.
      apply compileOne_Some in Hy as (c & Hu & ->), Hy' as (c' & Hu' & ->); [|done..]. cbn in Hn.
      apply elem_of_inputs in Hx as [Hx Hxn], Hx' as [Hx' Hxn'].
      assert (mapKey x' = mapKey x) as Ek by (destruct Hu as (_ & _ & Hu & _); eapply Hu; [done|congruence]).
      destruct x as [k m nm], x' as [k' m' nm']. cbn in *. subst k'. rewrite Hx' in Hx. injection Hx as ->. congruence.
  - unfold len. rewrite length_imap. unfold len in Hlen. lia.
  - intros nm cred p. split.
    + intros (u & (i & y & E & ->)%Hi & <- & <- & <-). cbn. apply list_elem_of_lookup_2, Hl in E as (k & m & cred & Hu & ->).
      by exists k, m.
    + intros (k & m & Hu & <- & ->). assert ((GetName m, cred, buildPolicy m) ∈ l) as [i E]%list_elem_of_lookup by (apply Hl; by exists k, m, cred).
      exists (numberUser i (GetName m, cred, buildPolicy m)). split; [|done]. apply Hi. by eexists _, _.
Qed.

(** Compilation of a configuration: the users of the new generation have
    dense ids from 1 in their order, valid and distinct names, and 32-byte
    credentials; and a name is there, with the credential and policy of its
    entry, exactly when its entry is usable: a valid name that no other entry
    of the map has, and a credential. *)
Theorem compiled_users (n : Z) (us : gmap (list Z) (option User)) (st : sourceUserCacheStats) :
  Z.of_nat (size us) < 2 ^ 32 - 1 →
  let s := buildState n us st in
  users_wf (users s) ∧
  ∀ nm cred p, (∃ u, u ∈ users s ∧ name u = nm ∧ credential u = cred ∧ policy u = p) ↔
    ∃ k m, usable us k m cred ∧ GetName m = nm ∧ p = buildPolicy m.
Proof. apply buildState_users. Qed.

Lemma attempted_true a i : userIDWasAttempted a i = true ↔ i ∈ a.
Proof.
  unfold userIDWasAttempted. rewrite existsb_exists. setoid_rewrite Z.eqb_eq. setoid_rewrite <-list_elem_of_In. split.
  - by intros (x & Hx & ->).
  - intros Hi. by exists i.
Qed.
Lemma attempted_false a i : userIDWasAttempted a i = false ↔ i ∉ a.
Proof. rewrite <-attempted_true. by destruct (userIDWasAttempted a i). Qed.

Lemma len_filter_partition {A} (f : A → bool) (l : list A) :
  len (filter (λ x, f x = true) l) + len (filter (λ x, f x = false) l) = len l.
Proof.
  induction l as [|x l IH]; [done|]. rewrite !filter_cons.
  destruct (f x) eqn:E; [rewrite decide_True, decide_False by done|rewrite decide_False, decide_True by done]; rewrite !len_cons; lia.
Qed.
Lemma head_app_match {A} (l k : list A) : head (l ++ k) = match head l with Some x => Some x | None => head k end.
Proof. by destruct l. Qed.

(** ** Discovery *)

Lemma tryState_table `{C : Crypto} maphash jitter w s em source mandatory now tick t c r :
  tryState maphash jitter w s em source mandatory now tick = Ok (t, c, r) → table c = table (cache s).
Proof.
  unfold tryState. destruct (cachedIDs maphash s source tick) as [c0 ids] eqn:Ec.
  assert (table c0 = table (cache s)) as E0.
  { revert Ec. unfold cachedIDs, sourceUserCache_lookup. repeat case_match; by intros [= <- _]. }
  rewrite <-E0. destruct (tryCached _ _ _ _ _ _ _) as [[t1 [r1|]]|e|m]; cbn; [by intros [= _ <- _]| |done..].
  destruct (tryRegistry _ _ _ _ _ _ _) as [[t2 [r2|]]|e|m]; cbn; [by intros [= _ <- _]| |done..].
  destruct mandatory; [by intros [= _ <- _]|]. destruct (tryCached _ _ _ _ _ _ _) as [[t3 [r3|]]|e|m]; cbn; [by intros [= _ <- _]| |done..].
  destruct (tryRegistry _ _ _ _ _ _ _) as [[t4 r4]|e|m]; cbn; [by intros [= _ <- _]|done..].
Qed.

Section theorems.
Context `{CL : CryptoLaws} (jitter : Z → Z).
(** The users of every generation, by number. *)
Context (gen : Z → option (list user)).

Definition state_wf (s : state) : Prop := users_wf (users s) ∧ gen (number s) = Some (users s).
(** The decryptors belong to the users of their generations. *)
Definition world_wf (w : world) : Prop :=
  cache_wf (ciphers w) ∧
  ∀ n i d, decryptors w !! (n, i) = Some d →
    decryptor_wf d ∧ ∀ us u, gen n = Some us → u ∈ us → uid u = i → d_password d = credential u.

(** The keys of a user that the server would use now, tried in order. *)
Definition opens (now : Z) (encryptedMeta : list Z) (u : user) : option (aeadBlockCipher * list Z) :=
  match selectDecryptStateless encryptedMeta [] (templateAt (credential u) <$> saltTimes now) with
  | Ok (block, plaintext) => Some (cloneStatelessFast block, plaintext)
  | _ => None
  end.
Definition resultOf (now : Z) (encryptedMeta : list Z) (o : matchOrigin) (u : user) : option discoveryResult :=
  (λ '(block, plaintext), mkDiscovery block plaintext (uid u) (name u) (policy u) o None) <$> opens now encryptedMeta u.
(** Does the user's hint match? *)
Definition hintOK (encryptedMeta : list Z) (u : user) : bool :=
  bool_decide (hintOf (name u) (nonceOf encryptedMeta) = slice_from (DefaultNonceSize - NonceSuffixLenForUserHint) (nonceOf encryptedMeta)).

Lemma selectDecryptStateless_total ct dst blocks : (∃ r, selectDecryptStateless ct dst blocks = Ok r) ∨ (∃ e, selectDecryptStateless ct dst blocks = Err e).
Proof.
  induction blocks as [|b blocks IH]; [right; by eexists|]. cbn. unfold DecryptStatelessTo.
  destruct (_ <? _); [exact IH|]. destruct (Open _ _ _); [left; by eexists|exact IH].
Qed.

Lemma ids_unique us i j u v : users_wf us → us !! i = Some u → us !! j = Some v → uid u = uid v → i = j.
Proof. intros Hwf Hi Hj. rewrite (wf_ids _ Hwf _ _ Hi), (wf_ids _ Hwf _ _ Hj). lia. Qed.
Lemma same_uid us u v : users_wf us → u ∈ us → v ∈ us → uid u = uid v → u = v.
Proof.
  intros Hwf [i Hi]%list_elem_of_lookup [j Hj]%list_elem_of_lookup E.
  rewrite (ids_unique us i j u v Hwf Hi Hj E) in Hi. congruence.
Qed.
Lemma users_NoDup us : users_wf us → NoDup us.
Proof. intros Hwf. apply (NoDup_fmap_1 name), (wf_distinct _ Hwf). Qed.

Lemma userByID_spec s i : users_wf (users s) → userByID s i = list_find (λ u, uid u = i) (users s) ≫= λ p, Some p.2.
Proof.
  intros Hwf. unfold userByID. pose proof (wf_count _ Hwf) as Hc. pose proof (len_nonneg (users s)).
  assert (u32 (len (users s)) = len (users s)) as -> by (apply wrap_id; unfold in_width; lia).
  destruct (list_find _ (users s)) as [[j v]|] eqn:E.
  - apply list_find_Some in E as (Hj & Hv & _). pose proof (wf_ids _ Hwf _ _ Hj) as Hid. apply lookup_lt_Some in Hj as Hlt. cbn.
    destruct (Z.eqb_spec i 0); [lia|]. rewrite Z.gtb_ltb. destruct (Z.ltb_spec (len (users s)) i); [unfold len in *; lia|]. cbn.
    replace (Z.to_nat (i - 1)) with j by lia. rewrite Hj, Hv, Z.eqb_refl. done.
  - apply list_find_None in E. rewrite Forall_forall in E. cbn. case_match; [done|].
    destruct (users s !! Z.to_nat (i - 1)) as [v|] eqn:Ev; [|done]. specialize (E v ltac:(by eapply list_elem_of_lookup_2)).
    destruct (Z.eqb_spec (uid v) i); [done|]. done.
Qed.
Lemma userByID_Some s i u : users_wf (users s) → userByID s i = Some u ↔ u ∈ users s ∧ uid u = i.
Proof.
  intros Hwf. rewrite userByID_spec by done. destruct (list_find _ (users s)) as [[j v]|] eqn:E; cbn.
  - apply list_find_Some in E as (Hj & Hv & _). split.
    + intros [= <-]. split; [by eapply list_elem_of_lookup_2|done].
    + intros [Hu Hi]. f_equal. eapply same_uid; [done|by eapply list_elem_of_lookup_2|done|congruence].
  - apply list_find_None in E. rewrite Forall_forall in E. split; [done|]. intros [Hu Hi]. by destruct (E u Hu).
Qed.

Section attempt.
Context (s : state) (em : list Z) (now : Z).
Context (Hs : state_wf s) (Hem : DefaultNonceSize <= len em).

Lemma CheckUserFromHint_ok u : u ∈ users s → CheckUserFromHint (name u) (nonceOf em) = Ok (hintOK em u).
Proof using Hs Hem.
  intros Hu. pose proof (wf_names _ (proj1 Hs) u Hu) as [Hn1 Hn2]. unfold CheckUserFromHint.
  destruct (Z.eqb_spec (len (name u)) 0); [lia|]. rewrite Z.gtb_ltb. destruct (Z.ltb_spec MaxUserNameLen (len (name u))); [lia|].
  assert (len (nonceOf em) = 24) as Hl by (unfold nonceOf, slice_to; rewrite len_take; unfold DefaultNonceSize in *; lia).
  rewrite Hl. done.
Qed.

Lemma tryUser_spec w u o :
  world_wf w → u ∈ users s →
  ∃ w', tryUser jitter w (number s) u em now o = Ok (w', resultOf now em o u) ∧ world_wf w'.
Proof using CL Hs.
  intros [Hc Hd] Hu. pose proof (wf_credentials _ (proj1 Hs) u Hu) as Hcred.
  assert (credential u ≠ []) as Hne by (intros E; rewrite E in Hcred; done).
  unfold tryUser. set (d := decryptorOf w (number s) u).
  assert (decryptor_wf d ∧ d_password d = credential u) as [Hdw Hdp].
  { unfold d, decryptorOf. destruct (decryptors w !! _) as [d'|] eqn:E; cbn.
    - destruct (Hd _ _ _ E) as [? Hp]. split; [done|]. eapply Hp; [apply Hs|done|done].
    - split; [by intros e|done]. }
  destruct (tryDecryptAt_spec (ciphers w) d em [] now (jitter (uid u)) Hc Hdw) as (cache' & d' & -> & Hc' & Hd' & Hp'); [congruence|].
  rewrite Hdp. unfold resultOf, opens. eexists (mkWorld cache' _). split.
  - destruct (selectDecryptStateless_total em [] (templateAt (credential u) <$> saltTimes now)) as [[[b pt] ->]|[e ->]]; [|reflexivity].
    rewrite bind_Ok. reflexivity.
  - split; [done|]. intros n i d0. cbn. intros [[[= <- <-] <-]|[_ H]]%lookup_insert_Some; [|by apply Hd].
    split; [done|]. intros us v Hus Hv Hid. rewrite Hp', Hdp. pose proof (proj2 Hs) as Hg. rewrite Hg in Hus. injection Hus as <-.
    by rewrite (same_uid _ _ _ (proj1 Hs) Hv Hu Hid).
Qed.

(** The first user of a list that opens the metadata. *)
Definition firstOpen (o : matchOrigin) (us : list user) : option discoveryResult := head (omap (resultOf now em o) us).

Lemma firstOpen_cons o u us :
  firstOpen o (u :: us) = match resultOf now em o u with Some r => Some r | None => firstOpen o us end.
Proof using. unfold firstOpen. cbn. by destruct (resultOf now em o u). Qed.

(** The users that the loop over all users tries. *)
Definition registryUsers (hint : bool) (skip : list Z) (us : list user) : list user :=
  filter (λ u, hintOK em u = hint ∧ uid u ∉ skip) us.
(** The users that a loop over the cached ids tries. *)
Definition cachedUsers (hint : bool) (ids : list Z) : list user :=
  filter (λ u, hintOK em u = hint) (omap (userByID s) ids).

Lemma tryRegistry_spec hint us t :
  world_wf (t_world t) → us ⊆ users s →
  ∃ t', tryRegistry jitter s em now hint us t =
      Ok (t', firstOpen (if hint then matchRegistryHint else matchRegistryFallback) (registryUsers hint (t_attempted t) us)) ∧
    world_wf (t_world t') ∧ t_attempted t' = t_attempted t ∧
    t_attempts t <= t_attempts t' <= t_attempts t + len (registryUsers hint (t_attempted t) us).
Proof using CL Hs Hem.
  intros Hw Hsub. revert t Hw. induction us as [|u us IH]; intros t Hw.
  { exists t. split_and!; [done|done|done|cbn; lia|unfold len; cbn; lia]. }
  assert (u ∈ users s) as Hu by (apply Hsub; left). assert (us ⊆ users s) as Hsub' by (intros x Hx; apply Hsub; by right).
  cbn [tryRegistry]. unfold registryUsers. rewrite filter_cons. fold (registryUsers hint (t_attempted t) us).
  destruct (userIDWasAttempted (t_attempted t) (uid u)) eqn:Ea.
  { apply attempted_true in Ea. rewrite decide_False by tauto. by apply IH. }
  apply attempted_false in Ea. rewrite CheckUserFromHint_ok, bind_Ok by done.
  destruct (eqb (hintOK em u) hint) eqn:Eh; cbn [negb].
  2:{ apply eqb_false_iff in Eh. rewrite decide_False by tauto. by apply IH. }
  apply eqb_prop in Eh. rewrite decide_True by done.
  destruct (tryUser_spec (t_world t) u (if hint then matchRegistryHint else matchRegistryFallback) Hw Hu) as (w' & -> & Hw').
  rewrite bind_Ok, firstOpen_cons, len_cons. destruct (resultOf _ _ _ u) as [r|] eqn:Er.
  - eexists. split; [done|]. cbn. split_and!; [done|done|lia|]. pose proof (len_nonneg (registryUsers hint (t_attempted t) us)). lia.
  - destruct (IH Hsub' (mkTrial w' (t_attempted t) (t_attempts t + 1)) Hw') as (t' & -> & ? & ? & ? & ?).
    cbn [t_attempted t_attempts] in *. exists t'. split_and!; [done|done|done|lia|lia].
Qed.

Lemma tryCached_spec hint ids t :
  world_wf (t_world t) → NoDup ids → len (t_attempted t) + len (cachedUsers hint ids) <= Z.of_nat sourceUserCacheUsers →
  (∀ u, u ∈ cachedUsers hint ids → uid u ∉ t_attempted t) →
  ∃ t', tryCached jitter s em now hint ids t =
      Ok (t', firstOpen (if hint then matchCachedHint else matchCachedFallback) (cachedUsers hint ids)) ∧
    world_wf (t_world t') ∧ t_attempts t <= t_attempts t' <= t_attempts t + len (cachedUsers hint ids) ∧
    (firstOpen (if hint then matchCachedHint else matchCachedFallback) (cachedUsers hint ids) = None →
     t_attempted t' = t_attempted t ++ (uid <$> cachedUsers hint ids)).
Proof using CL Hs Hem.
  intros Hw Hnd. revert t Hw. induction ids as [|i ids IH]; intros t Hw Hlen Hfresh.
  { exists t. split_and!; [done|done|lia|unfold len; cbn; lia|]. intros _. cbn. by rewrite app_nil_r. }
  apply NoDup_cons in Hnd as [Hi Hnd]. cbn [tryCached]. unfold cachedUsers in *. cbn [omap list_omap] in *.
  destruct (userByID s i) as [u|] eqn:Eu; [|by apply IH].
  pose proof Eu as [Hu Hid]%userByID_Some; [|apply Hs]. rewrite filter_cons in Hfresh, Hlen |- *. rewrite CheckUserFromHint_ok by done.
  destruct (decide (hintOK em u = hint)) as [Eh|Eh].
  - assert (userIDWasAttempted (t_attempted t) (uid u) = false) as -> by (apply attempted_false, Hfresh; left).
    rewrite bind_Ok, Eh, eqb_reflx. cbn [negb].
    destruct (tryUser_spec (t_world t) u (if hint then matchCachedHint else matchCachedFallback) Hw Hu) as (w' & -> & Hw').
    rewrite bind_Ok, firstOpen_cons. rewrite len_cons in *. set (rest := filter _ _) in *. pose proof (len_nonneg rest).
    destruct (resultOf _ _ _ u) as [r|] eqn:Er.
    { eexists. split; [done|]. cbn. split_and!; [done|lia|lia|done]. }
    assert (markUserIDAttempted (t_attempted t) (uid u) = t_attempted t ++ [uid u]) as ->.
    { unfold markUserIDAttempted. rewrite (proj2 (attempted_false _ _)) by (apply Hfresh; left).
      destruct (Z.ltb_spec (len (t_attempted t)) (Z.of_nat sourceUserCacheUsers)); [done|]. unfold sourceUserCacheUsers in *. lia. }
    destruct (IH Hnd (mkTrial w' (t_attempted t ++ [uid u]) (t_attempts t + 1)) Hw') as (t' & -> & ? & ? & Ha); cbn [t_attempted t_attempts] in *.
    + rewrite len_app, len_cons, len_nil. lia.
    + intros v Hv. rewrite elem_of_app, list_elem_of_singleton. intros [Hx|Hx].
      * eapply Hfresh; [right; exact Hv|done].
      * unfold rest in Hv. apply list_elem_of_filter in Hv as [_ Hv]. apply list_elem_of_omap in Hv as (j & Hj & Ej).
        apply userByID_Some in Ej as [_ Ej]; [|apply Hs]. apply Hi. congruence.
    + exists t'. split_and!; [done|done|lia|lia|]. intros Hn. rewrite Ha by done. cbn. by rewrite <-app_assoc.
  - destruct (IH Hnd t Hw) as (t' & Et & H); [done|done|]. exists t'. split; [|done]. rewrite <-Et.
    destruct (userIDWasAttempted _ _); [done|]. rewrite bind_Ok. by rewrite (proj2 (eqb_false_iff _ _)).
Qed.

(** ** The order of the candidates *)

Definition candidateOrder (ids : list Z) (mandatory : bool) : list (user * matchOrigin) :=
  let c1 := cachedUsers true ids in
  let c2 := cachedUsers false ids in
  ((λ u, (u, matchCachedHint)) <$> c1) ++
  ((λ u, (u, matchRegistryHint)) <$> registryUsers true (uid <$> c1) (users s)) ++
  (if mandatory then [] else
   ((λ u, (u, matchCachedFallback)) <$> c2) ++
   ((λ u, (u, matchRegistryFallback)) <$> registryUsers false ((uid <$> c1) ++ (uid <$> c2)) (users s))).

Lemma length_cachedUsers ids : len (cachedUsers true ids) + len (cachedUsers false ids) <= len ids.
Proof using. unfold cachedUsers. rewrite len_filter_partition. apply Nat2Z.inj_le, length_omap_le. Qed.
Lemma elem_of_cached hint ids u : u ∈ cachedUsers hint ids ↔ u ∈ users s ∧ uid u ∈ ids ∧ hintOK em u = hint.
Proof using Hs.
  unfold cachedUsers. rewrite list_elem_of_filter, list_elem_of_omap. split.
  - intros (Hh & i & Hi & Hu%userByID_Some); [|apply Hs]. destruct Hu as [? <-]. done.
  - intros (Hu & Hi & Hh). split; [done|]. exists (uid u). split; [done|]. by apply userByID_Some; [apply Hs|].
Qed.
Lemma NoDup_cached hint ids : NoDup ids → NoDup (cachedUsers hint ids).
Proof using Hs.
  intros Hids. apply NoDup_filter. rewrite <-(list_fmap_id (omap _ ids)). apply (NoDup_fmap_omap (userByID s) (λ u, u)); [done|].
  intros i j u v _ _ Hu%userByID_Some Hv%userByID_Some Huv; [|apply Hs..]. destruct Hu as [_ <-], Hv as [_ <-]. by rewrite Huv.
Qed.
Lemma elem_of_registry hint skip u : u ∈ registryUsers hint skip (users s) ↔ u ∈ users s ∧ hintOK em u = hint ∧ uid u ∉ skip.
Proof using. unfold registryUsers. rewrite list_elem_of_filter. by split; [intros ((?&?)&?)|intros (?&?&?)]. Qed.

(** Every user at most once, exactly those allowed, and hints first. *)
Lemma candidateOrder_spec ids mandatory :
  NoDup ids →
  NoDup (fst <$> candidateOrder ids mandatory) ∧
  (∀ u, u ∈ fst <$> candidateOrder ids mandatory ↔ u ∈ users s ∧ (mandatory = true → hintOK em u = true)) ∧
  ∃ l1 l2, fst <$> candidateOrder ids mandatory = l1 ++ l2 ∧ Forall (λ u, hintOK em u = true) l1 ∧ Forall (λ u, hintOK em u = false) l2.
Proof using Hs now jitter.
  intros Hids. set (c1 := cachedUsers true ids). set (c2 := cachedUsers false ids).
  set (g1 := registryUsers true (uid <$> c1) (users s)). set (g2 := registryUsers false ((uid <$> c1) ++ (uid <$> c2)) (users s)).
  assert (fst <$> candidateOrder ids mandatory = (c1 ++ g1) ++ (if mandatory then [] else c2 ++ g2)) as E.
  { unfold candidateOrder. fold c1 c2 g1 g2. rewrite !fmap_app, <-!list_fmap_compose, <-app_assoc.
    assert (∀ (o : matchOrigin) us, (fst ∘ λ u : user, (u, o)) <$> us = us) as Hid by (intros o us; apply list_fmap_id).
    rewrite !Hid. destruct mandatory; [done|]. by rewrite fmap_app, <-!list_fmap_compose, !Hid. }
  assert (Forall (λ u, hintOK em u = true) (c1 ++ g1)) as H1.
  { apply Forall_forall. intros u [Hu|Hu]%elem_of_app; [by apply elem_of_cached in Hu as (_ & _ & ?)|by apply elem_of_registry in Hu as (_ & ? & _)]. }
  assert (Forall (λ u, hintOK em u = false) (c2 ++ g2)) as H2.
  { apply Forall_forall. intros u [Hu|Hu]%elem_of_app; [by apply elem_of_cached in Hu as (_ & _ & ?)|by apply elem_of_registry in Hu as (_ & ? & _)]. }
  assert (∀ u, u ∈ c1 ++ g1 ↔ u ∈ users s ∧ hintOK em u = true) as M1.
  { intros u. rewrite elem_of_app. unfold c1, g1. rewrite elem_of_registry, elem_of_cached. fold c1. split; [tauto|]. intros [Hu Hh].
    destruct (decide (uid u ∈ uid <$> c1)) as [Hin|]; [left|right; done].
    apply list_elem_of_fmap in Hin as (v & Hv & Hin). apply elem_of_cached in Hin as (Hvu & Hvi & _).
    rewrite (same_uid _ u v (proj1 Hs)) by done. split_and!; [done|done|]. by rewrite <-(same_uid _ u v (proj1 Hs)). }
  assert (∀ u, u ∈ c2 ++ g2 ↔ u ∈ users s ∧ hintOK em u = false) as M2.
  { intros u. rewrite elem_of_app. unfold c2, g2. rewrite elem_of_registry, elem_of_cached, elem_of_app. fold c1 c2. split; [tauto|].
    intros [Hu Hh]. destruct (decide (uid u ∈ ids)); [by left|right]. split_and!; [done|done|].
    intros [(v & Hv & Hin)%list_elem_of_fmap|(v & Hv & Hin)%list_elem_of_fmap]; apply elem_of_cached in Hin as (_ & ? & _); congruence. }
  rewrite E. split_and!.
  - apply NoDup_app. split_and!.
    + apply NoDup_app. split_and!; [by apply NoDup_cached| |apply NoDup_filter, users_NoDup, Hs].
      intros u Hu Hg. apply elem_of_registry in Hg as (_ & _ & Hn). apply Hn. by apply list_elem_of_fmap_2.
    + intros u Hu%M1. destruct mandatory; [apply not_elem_of_nil|]. rewrite M2. naive_solver congruence.
    + destruct mandatory; [constructor|]. apply NoDup_app. split_and!; [by apply NoDup_cached| |apply NoDup_filter, users_NoDup, Hs].
      intros u Hu Hg. apply elem_of_registry in Hg as (_ & _ & Hn). apply Hn. apply elem_of_app. right. by apply list_elem_of_fmap_2.
  - intros u. rewrite elem_of_app, M1. destruct mandatory.
    + rewrite elem_of_nil. naive_solver.
    + rewrite M2. destruct (hintOK em u); naive_solver.
  - exists (c1 ++ g1), (if mandatory then [] else c2 ++ g2). by destruct mandatory.
Qed.

Definition firstResult (order : list (user * matchOrigin)) : option discoveryResult :=
  head (omap (λ '(u, o), resultOf now em o u) order).
Lemma firstResult_app l k : firstResult (l ++ k) = match firstResult l with Some x => Some x | None => firstResult k end.
Proof using. unfold firstResult. by rewrite omap_app, head_app_match. Qed.
Lemma firstResult_phase o us : firstResult ((λ u, (u, o)) <$> us) = firstOpen o us.
Proof using. unfold firstResult, firstOpen. f_equal. induction us as [|u us IH]; [done|]. cbn. by rewrite IH. Qed.

Lemma tryState_spec maphash w source mandatory tick :
  world_wf w → sourceCache_wf maphash (cache s) →
  let ids := (cachedIDs maphash s source tick).2 in
  NoDup ids ∧
  ∃ t c, tryState maphash jitter w s em source mandatory now tick = Ok (t, c, firstResult (candidateOrder ids mandatory)) ∧
    world_wf (t_world t) ∧ 0 <= t_attempts t <= len (candidateOrder ids mandatory).
Proof using CL Hs Hem.
  intros Hw Hc ids. unfold tryState. destruct (cachedIDs maphash s source tick) as [c0 ids0] eqn:Ec. cbn in ids. subst ids.
  assert (NoDup ids0 ∧ (length ids0 <= sourceUserCacheUsers)%nat) as [Hnd Hlen].
  { unfold cachedIDs in Ec. destruct (source_valid source); [|injection Ec as _ <-; split; [constructor|cbn; lia]].
    pose proof (lookup_bounds maphash tick (source_key source) (cache s) Hc) as H. by rewrite Ec in H. }
  split; [done|]. pose proof (length_cachedUsers ids0) as Hc12. unfold candidateOrder. set (c1 := cachedUsers true ids0) in *. set (c2 := cachedUsers false ids0) in *.
  set (g1 := registryUsers true (uid <$> c1) (users s)). set (g2 := registryUsers false ((uid <$> c1) ++ (uid <$> c2)) (users s)).
  pose proof (len_nonneg g1). pose proof (len_nonneg g2). pose proof (len_nonneg c1). pose proof (len_nonneg c2).
  rewrite firstResult_app, firstResult_phase.
  destruct (tryCached_spec true ids0 (mkTrial w [] 0)) as (t1 & -> & Hw1 & Hn1 & Ha1); [done|done|fold c1; unfold len in *; cbn; lia|intros u _; apply not_elem_of_nil|].
  fold c1 in Hn1, Ha1 |- *. cbn [t_attempts t_attempted] in *. rewrite bind_Ok.
  assert (∀ (o : matchOrigin) us, len ((λ u : user, (u, o)) <$> us) = len us) as Hlf by (intros; unfold len; by rewrite length_fmap).
  destruct (firstOpen matchCachedHint c1) as [r|] eqn:R1; cbn [t_attempts t_attempted] in *.
  { eexists _, _. split; [done|]. split; [done|]. rewrite !len_app, !Hlf. pose proof (len_nonneg (if mandatory then [] else
     ((λ u, (u, matchCachedFallback)) <$> c2) ++ ((λ u, (u, matchRegistryFallback)) <$> g2))). lia. }
  specialize (Ha1 eq_refl). cbn in Ha1. rewrite firstResult_app, firstResult_phase.
  destruct (tryRegistry_spec true (users s) t1 Hw1 ltac:(done)) as (t2 & -> & Hw2 & Ha2 & Hn2). rewrite Ha1 in Ha2, Hn2 |- *. fold g1 in Hn2 |- *.
  rewrite bind_Ok. destruct (firstOpen matchRegistryHint g1) as [r|] eqn:R2.
  { eexists _, _. split; [done|]. split; [done|]. rewrite !len_app, !Hlf. pose proof (len_nonneg (if mandatory then [] else
     ((λ u, (u, matchCachedFallback)) <$> c2) ++ ((λ u, (u, matchRegistryFallback)) <$> g2))). lia. }
  destruct mandatory.
  { eexists _, _. split; [done|]. split; [done|]. rewrite !len_app, !Hlf. change (len (@nil (user * matchOrigin))) with 0. lia. }
  rewrite firstResult_app, !firstResult_phase.
  destruct (tryCached_spec false ids0 t2) as (t3 & -> & Hw3 & Hn3 & Ha3); [done|done| | |].
  { fold c2. rewrite Ha2. unfold len in *. rewrite length_fmap. lia. }
  { intros u (Hu & _ & Hu2)%elem_of_cached. rewrite Ha2. intros (v & Hv & (Hvu & _ & Hv2)%elem_of_cached)%list_elem_of_fmap.
    rewrite (same_uid _ u v (proj1 Hs)) in Hu2 by done. congruence. }
  fold c2 in Hn3, Ha3 |- *. rewrite bind_Ok. destruct (firstOpen matchCachedFallback c2) as [r|] eqn:R3.
  { eexists _, _. split; [done|]. split; [done|]. rewrite !len_app, !Hlf. lia. }
  specialize (Ha3 eq_refl). rewrite Ha2 in Ha3.
  destruct (tryRegistry_spec false (users s) t3 Hw3 ltac:(done)) as (t4 & -> & Hw4 & Ha4 & Hn4). rewrite Ha3 in Hn4 |- *. fold g2 in Hn4 |- *.
  rewrite bind_Ok. eexists _, _. split; [done|]. split; [done|]. rewrite !len_app, !Hlf. lia.
Qed.
End attempt.

(** The first success of a list of candidates. *)
Lemma firstResult_Some em now order r :
  firstResult em now order = Some r → ∃ u o, (u, o) ∈ order ∧ resultOf now em o u = Some r.
Proof.
  unfold firstResult. induction order as [|[u o] order IH]; [done|]. cbn. destruct (resultOf now em o u) as [r'|] eqn:E; cbn.
  - intros [= <-]. exists u, o. split; [left|done].
  - intros H. destruct (IH H) as (v & o' & Hin & Hr). exists v, o'. split; [by right|done].
Qed.
Lemma firstResult_only em now order u :
  u ∈ fst <$> order → is_Some (opens now em u) → (∀ v, v ∈ fst <$> order → v ≠ u → opens now em v = None) →
  ∃ o, firstResult em now order = resultOf now em o u.
Proof.
  intros Hin [[b pt] Hu] Hother. unfold firstResult. induction order as [|[v o] order IH]; [by apply elem_of_nil in Hin|].
  cbn in *. destruct (opens now em v) as [[b' pt']|] eqn:Ev.
  - exists o. unfold resultOf at 1. rewrite Ev. cbn.
    destruct (decide (v = u)) as [->|Hne]; [unfold resultOf; by rewrite Ev|]. by rewrite (Hother v ltac:(left) Hne) in Ev.
  - unfold resultOf at 1. rewrite Ev. cbn. apply elem_of_cons in Hin as [->|Hin]; [congruence|].
    apply IH; [done|]. intros x Hx. apply Hother. by right.
Qed.

Section results.
Context (maphash : list Z → Z) (s : state) (em : list Z) (now tick : Z) (w : world) (source : Source) (mandatory : bool).
Context (Hs : state_wf s) (Hw : world_wf w) (Hc : sourceCache_wf maphash (cache s)) (Hem : DefaultNonceSize <= len em).

(** What a discovery attempt does: it never panics, and its result is the
    first success along the candidate order, which has every user of the
    generation (or, when hints are mandatory, every user with a matching hint)
    exactly once, whatever the source cache holds, and all users with a matching
    hint before the others.  No more keys are tried than the order has users. *)
Theorem discovery_order :
  let order := candidateOrder s em (cachedIDs maphash s source tick).2 mandatory in
  (∃ t c, tryState maphash jitter w s em source mandatory now tick = Ok (t, c, firstResult em now order) ∧
     world_wf (t_world t) ∧ 0 <= t_attempts t <= len order) ∧
  NoDup (fst <$> order) ∧
  (∀ u, u ∈ fst <$> order ↔ u ∈ users s ∧ (mandatory = true → hintOK em u = true)) ∧
  ∃ l1 l2, fst <$> order = l1 ++ l2 ∧ Forall (λ u, hintOK em u = true) l1 ∧ Forall (λ u, hintOK em u = false) l2.
Proof using All.
  destruct (tryState_spec s em now Hs Hem maphash w source mandatory tick Hw Hc) as [Hnd Ht]. split; [done|].
  by apply candidateOrder_spec.
Qed.

Lemma user_found (u : user) (b : aeadBlockCipher) (pt : list Z) :
  u ∈ users s → opens now em u = Some (b, pt) →
  (∀ v, v ∈ users s → v ≠ u → opens now em v = None) → (mandatory = true → hintOK em u = true) →
  ∃ t c r, tryState maphash jitter w s em source mandatory now tick = Ok (t, c, Some r) ∧
    r_block r = b ∧ r_decryptedMetadata r = pt ∧ r_userID r = uid u ∧ r_userContext r = name u ∧ r_policy r = policy u.
Proof using All.
  intros Hu Ho Hother Hm. destruct (tryState_spec s em now Hs Hem maphash w source mandatory tick Hw Hc) as (Hnd & t & c & Ht & _).
  destruct (candidateOrder_spec s em now Hs _ mandatory Hnd) as (_ & Hmem & _).
  destruct (firstResult_only em now (candidateOrder s em (cachedIDs maphash s source tick).2 mandatory) u) as [o Eo].
  - by apply Hmem.
  - by eexists.
  - intros v [Hv _]%Hmem. by apply Hother.
  - rewrite Eo in Ht. unfold resultOf in Ht. rewrite Ho in Ht. eexists t, c, _. split; [exact Ht|done].
Qed.

(** C37. Discovery is complete and the source cache is transparent: when one user
    of the generation, and no other, has a key that opens the metadata (and has
    a matching hint, if hints are mandatory), that user is found with its cipher
    and the plaintext, from every source and with every content of the caches. *)
Theorem discovery_finds_user (u : user) (b : aeadBlockCipher) (pt : list Z) :
  u ∈ users s → opens now em u = Some (b, pt) →
  (∀ v, v ∈ users s → v ≠ u → opens now em v = None) → (mandatory = true → hintOK em u = true) →
  ∃ t c r, tryState maphash jitter w s em source mandatory now tick = Ok (t, c, Some r) ∧
    r_block r = b ∧ r_decryptedMetadata r = pt ∧ r_userID r = uid u ∧ r_userContext r = name u ∧ r_policy r = policy u.
Proof using All. apply user_found. Qed.
End results.

(** What [discoverLoop] returns once a load is confirmed. *)
Definition discovered (loads : nat → option state) (i k : nat) (now : Z) (em : list Z)
    (o : world * option state * result discoveryResult) : Prop :=
  world_wf o.1.1 ∧
  match o.2 with
  | Ok r =>
      ∃ j s s', (j <= k)%nat ∧ loads (i + 2 * j)%nat = Some s ∧ number <$> loads (S (i + 2 * j)) = Some (number s) ∧
        o.1.2 = Some s' ∧ number s' = number s ∧ users s' = users s ∧ r_generation r = Some (number s) ∧
        ∃ u, u ∈ users s ∧ r_userID r = uid u ∧ r_userContext r = name u ∧ opens now em u = Some (r_block r, r_decryptedMetadata r)
  | Err _ => True
  | Panic _ => False
  end.

(** One attempt of the loop: its result counts if the load is confirmed. *)
Lemma discoverLoop_step maphash loads mandatory source now tick em i s w :
  loads i = Some s → state_wf s → sourceCache_wf maphash (cache s) → DefaultNonceSize <= len em → world_wf w → len (users s) ≠ 0 →
  ∃ w' r, world_wf w' ∧
    (∀ fuel, discoverLoop maphash jitter (S fuel) i loads mandatory w em source true now tick =
       if bool_decide (number <$> loads (S i) = Some (number s)) then r
       else discoverLoop maphash jitter fuel (S (S i)) loads mandatory w' em source true now tick) ∧
    (number <$> loads (S i) = Some (number s) → ∀ k, discovered loads i k now em r).
Proof using CL.
  intros Ei Hs Hc Hem Hw Hne. destruct (tryState_spec s em now Hs Hem maphash w source mandatory tick Hw Hc) as (Hnd & t & c & Et & Hw' & _).
  set (r := firstResult _ _ _) in *. set (final := match r with
    | None => (t_world t, Some (s<|cache := c|>), Err (Errorf "cipher.TryDecrypt() failed for all users"))
    | Some r => (t_world t,
         Some (s<|cache := if (match r_origin r with matchCachedHint | matchCachedFallback => true | _ => false end)
                     then c<|stats := (stats c)<|authenticationHits := inc (authenticationHits (stats c))|>|> else c|>),
         Ok (mkDiscovery (r_block r) (r_decryptedMetadata r) (r_userID r) (r_userContext r) (r_policy r) (r_origin r) (Some (number s))))
    end). exists (t_world t), final. split_and!; [done| |].
  - intros fuel. cbn [discoverLoop]. rewrite Ei, (proj2 (Z.eqb_neq _ _) Hne), Et. by destruct (bool_decide _).
  - intros HS k. unfold final. destruct r as [r'|] eqn:Er; [|by split].
    apply firstResult_Some in Er as (u & o & Hin & Hr). destruct (candidateOrder_spec s em now Hs _ mandatory Hnd) as (_ & Hmem & _).
    unfold resultOf in Hr. destruct (opens now em u) as [[b pt]|] eqn:Eo; [|done]. injection Hr as <-. split; [done|].
    exists 0%nat, s. eexists. rewrite Nat.mul_0_r, Nat.add_0_r. split_and!; [lia|done|done|reflexivity|done|done|done|].
    exists u. split_and!; [|done|done|done]. apply (Hmem u). by apply (list_elem_of_fmap_2 fst _ (u, o)).
Qed.

Lemma discovered_later loads i k now em r : discovered loads (S (S i)) k now em r → discovered loads i (S k) now em r.
Proof.
  unfold discovered. destruct r as [[w' s'] [r|e|m]]; [|done|done]. intros (Hw & j & s & s'' & Hj & H1 & H2 & H3). split; [done|].
  exists (S j), s, s''. replace (i + 2 * S j)%nat with (S (S i) + 2 * j)%nat by lia. split; [lia|done].
Qed.

Lemma discoverLoop_spec maphash loads mandatory source now tick em k :
  (∀ i s, loads i = Some s → state_wf s ∧ sourceCache_wf maphash (cache s)) → DefaultNonceSize <= len em →
  ∀ i w, world_wf w → number <$> loads (i + 2 * k)%nat = number <$> loads (S (i + 2 * k)) →
  discovered loads i k now em (discoverLoop maphash jitter (S k) i loads mandatory w em source true now tick).
Proof using CL.
  intros Hl Hem. induction k as [|k IH]; intros i w Hw Hk;
    (destruct (loads i) as [s|] eqn:Ei; [|by cbn [discoverLoop]; rewrite Ei]); destruct (Hl _ _ Ei) as [Hs Hc];
    (destruct (Z.eq_dec (len (users s)) 0) as [E0|E0]; [by cbn [discoverLoop]; rewrite Ei, E0|]);
    destruct (discoverLoop_step maphash loads mandatory source now tick em i s w Ei Hs Hc Hem Hw E0) as (w' & r & Hw' & -> & Hr).
  - rewrite Nat.mul_0_r, Nat.add_0_r, Ei in Hk. rewrite bool_decide_eq_true_2 by done. by apply Hr.
  - destruct (bool_decide _) eqn:Eb; [apply bool_decide_eq_true in Eb; by apply Hr|].
    apply discovered_later, IH; [done|]. by replace (S (S i) + 2 * k)%nat with (i + 2 * S k)%nat by lia.
Qed.

(** One attempt without confirmation, as for a datagram. *)
Lemma discover_once maphash s mandatory w em source rc now tick :
  state_wf s → sourceCache_wf maphash (cache s) → world_wf w →
  let o := discoverUser maphash jitter 1 (λ _, Some s) mandatory w em source rc now tick in
  world_wf o.1.1 ∧
  (∀ s', o.1.2 = Some s' → number s' = number s ∧ users s' = users s ∧ table (cache s') = table (cache s)) ∧
  match o.2 with
  | Ok r => ∃ u, u ∈ users s ∧ r_userID r = uid u ∧ r_userContext r = name u ∧ r_policy r = policy u ∧
              r_generation r = Some (number s) ∧ opens now em u = Some (r_block r, r_decryptedMetadata r)
  | Err _ => (∀ r, firstResult em now (candidateOrder s em (cachedIDs maphash s source tick).2 mandatory) = Some r →
                DefaultNonceSize <= len em → False)
  | Panic _ => False
  end.
Proof using CL.
  intros Hs Hc Hw. unfold discoverUser. destruct (Z.ltb_spec (len em) DefaultNonceSize) as [|Hem]; [split_and!; [done|done|cbn; intros ???; lia]|].
  cbn [discoverLoop]. destruct (Z.eqb_spec (len (users s)) 0) as [E0|E0].
  { split_and!; [done|done|]. intros r Hr _. apply firstResult_Some in Hr as (u & o & Hin & _).
    pose proof (lookup_bounds maphash tick (source_key source) (cache s) Hc) as Hb.
    destruct (tryState_spec s em now Hs Hem maphash w source mandatory tick Hw Hc) as (Hnd & _).
    destruct (candidateOrder_spec s em now Hs _ mandatory Hnd) as (_ & Hmem & _).
    destruct (Hmem u) as [Hu _]. destruct Hu as [Hu _]; [by apply (list_elem_of_fmap_2 fst _ (u, o))|].
    apply len_zero in E0. rewrite E0 in Hu. by apply elem_of_nil in Hu. }
  destruct (tryState_spec s em now Hs Hem maphash w source mandatory tick Hw Hc) as (Hnd & t & c & Et & Hw' & _).
  pose proof (tryState_table _ _ _ _ _ _ _ _ _ _ _ _ Et) as Htab. rewrite Et, bool_decide_true, andb_false_r by done.
  set (r := firstResult _ _ _) in *. destruct r as [r'|] eqn:Er.
  - split_and!; [done| |].
    + intros s' [= <-]. split_and!; [done|done|]. cbn. rewrite <-Htab. by destruct (r_origin r').
    + apply firstResult_Some in Er as (u & o & Hin & Hr). destruct (candidateOrder_spec s em now Hs _ mandatory Hnd) as (_ & Hmem & _).
      unfold resultOf in Hr. destruct (opens now em u) as [[b pt]|] eqn:Eo; [|done]. injection Hr as <-.
      exists u. split_and!; try done. apply (Hmem u). by apply (list_elem_of_fmap_2 fst _ (u, o)).
  - split_and!; [done| |done]. intros s' [= <-]. split_and!; done.
Qed.

(** ** What a registry keeps true *)

Definition registry_ok (maphash : list Z → Z) (reg : Registry) : Prop :=
  ∀ s, r_users reg = Some s → state_wf s ∧ sourceCache_wf maphash (cache s).

(** The ids of discovered users fit in their type. *)
Lemma uid_u32 us u : users_wf us → u ∈ us → is_u32 (uid u).
Proof using.
  intros Hwf [i Hi]%list_elem_of_lookup. rewrite (wf_ids _ Hwf i u Hi). apply lookup_lt_Some in Hi.
  pose proof (wf_count _ Hwf). unfold is_u32, in_width, len in *. lia.
Qed.

(** What an accepted discovery is: a user of the current generation has a key
    that opens the metadata. *)
Definition discoveredBy (reg : Registry) (em : list Z) (source : Source) (now : Z) (c : aeadBlockCipher) (pt : list Z) (a : Authentication) : Prop :=
  ∃ s u b, r_users reg = Some s ∧ u ∈ users s ∧ opens now em u = Some (b, pt) ∧ c = SetBlockContext (name u) b ∧
    a_userID a = uid u ∧ a_policy a = policy u ∧ a_generation a = Some (number s) ∧ a_source a = source.

Lemma Discover_ok maphash reg w em source rc now tick :
  registry_ok maphash reg → world_wf w →
  let o := Discover maphash jitter 1 (λ _, r_users reg) (hintMandatory reg) w em source rc now tick in
  world_wf o.1.1 ∧
  (∀ s', o.1.2 = Some s' → registry_ok maphash (mkRegistry (Some s') (hintMandatory reg))) ∧
  match o.2 with
  | Ok (c, pt, a) => discoveredBy reg em source now c pt a
  | Err _ => True
  | Panic _ => False
  end.
Proof using CL.
  intros Hr Hw. unfold Discover. destruct (r_users reg) as [s|] eqn:Es.
  - destruct (Hr s Es) as [Hs Hc]. pose proof (discover_once maphash s (hintMandatory reg) w em source rc now tick Hs Hc Hw) as H.
    destruct (discoverUser _ _ _ _ _ _ _ _ _ _ _) as [[w' s'] r]. cbn in H |- *. destruct H as (Hw' & Hst & Hres). split_and!; [done| |].
    + intros s1 ->. destruct (Hst s1 eq_refl) as (En & Eu & Et). intros s2 [= <-]. split.
      * destruct Hs as [H1 H2]. split; [by rewrite Eu|by rewrite En, Eu].
      * intros t. rewrite Et. apply Hc.
    + destruct r as [r|e|m]; cbn; [|done..]. destruct Hres as (u & Hu & Hid & Hn & Hp & Hg & Ho).
      exists s, u, (r_block r). unfold authentication. cbn. by rewrite Hn.
  - unfold discoverUser. destruct (_ <? _); [done|]. cbn [discoverLoop]. done.
Qed.

(** [Discover] of the only user whose key opens the metadata. *)
Lemma Discover_finds maphash reg s w em source rc now tick u b pt :
  registry_ok maphash reg → world_wf w → r_users reg = Some s → DefaultNonceSize <= len em →
  u ∈ users s → opens now em u = Some (b, pt) → (∀ v, v ∈ users s → v ≠ u → opens now em v = None) →
  (hintMandatory reg = true → hintOK em u = true) →
  ∃ w' s' o, Discover maphash jitter 1 (λ _, r_users reg) (hintMandatory reg) w em source rc now tick
    = (w', s', Ok (SetBlockContext (name u) b, pt, mkAuth (uid u) (policy u) o (Some (number s)) source)).
Proof using CL.
  intros Hr Hw Es Hem Hu Ho Hother Hm. destruct (Hr s Es) as [Hs Hc]. rewrite Es.
  destruct (user_found maphash s em now tick w source (hintMandatory reg) Hs Hw Hc Hem u b pt Hu Ho Hother Hm)
    as (t & c & r & Et & <- & <- & <- & <- & <-).
  unfold Discover, discoverUser. destruct (Z.ltb_spec (len em) DefaultNonceSize); [lia|]. cbn [discoverLoop].
  destruct (Z.eqb_spec (len (users s)) 0) as [E0|_]; [apply len_zero in E0; rewrite E0 in Hu; by apply elem_of_nil in Hu|].
  rewrite Et, bool_decide_true, andb_false_r by done. eexists _, _, _. reflexivity.
Qed.
(** The user that has a key of the sender opens what it sealed. *)
Lemma opens_finds now em u c pt t :
  DefaultNonceSize <= len em → enableImplicitNonce c = false → (Decrypt c em).2 = Ok pt →
  t ∈ saltTimes now → c_key c = keyAt (credential u) t → only_key (c_key c) em (templateAt (credential u) <$> saltTimes now) →
  ∃ b, opens now em u = Some (b, pt) ∧ c_key b = c_key c ∧ enableImplicitNonce b = false ∧ implicitNonce b = [].
Proof using.
  intros Hem Hi Hd Ht Hk Honly. unfold Decrypt, NonceSize in Hd. rewrite Hi in Hd.
  destruct (Z.ltb_spec (len em) DefaultNonceSize); [lia|]. cbn in Hd. unfold openWith in Hd. repeat case_match; try done.
  all: injection Hd as <-.
  destruct (selectDecryptStateless_finds (c_key c) em [] _ (templateAt (credential u) <$> saltTimes now) ltac:(lia) ltac:(eassumption) Honly) as (b & E & Hb).
  { eexists. split; [by apply list_elem_of_fmap_2, Ht|]. by rewrite Hk. }
  unfold opens. rewrite E. eexists. split; [reflexivity|]. done.
Qed.

Lemma hintOK_sender em us : 0 < len (name us) → DefaultNonceSize <= len em → len (name us) <= MaxUserNameLen →
  CheckUserFromHint (name us) (slice_to DefaultNonceSize em) = Ok true → hintOK em us = true.
Proof using.
  intros H1 H2 H3. unfold CheckUserFromHint, hintOK, nonceOf. destruct (Z.eqb_spec (len (name us)) 0); [lia|].
  rewrite Z.gtb_ltb. destruct (Z.ltb_spec MaxUserNameLen (len (name us))); [lia|].
  assert (len (slice_to DefaultNonceSize em) = DefaultNonceSize) as -> by (unfold slice_to; rewrite len_take; unfold DefaultNonceSize in *; lia).
  intros [= Heq]. exact Heq.
Qed.

Lemma Record_ok maphash reg a tick :
  registry_ok maphash reg → is_u32 (a_userID a) → is_u32 tick →
  ∃ a' reg', Record_ maphash tick a reg = Ok (a', reg') ∧ registry_ok maphash reg'.
Proof using.
  intros Hr Ha Ht. unfold Record_. destruct (negb _); [by eexists _, _|]. destruct (r_users reg) as [s|] eqn:Es; [|by eexists _, _].
  destruct (_ && _); [|by eexists _, _]. destruct (Hr s Es) as [Hs Hc]. destruct (cache s) as [[t|] st] eqn:Ec.
  - destruct (recordAuthenticated_wf maphash t (source_key (a_source a)) (a_userID a) tick st) as (t' & s' & -> & Ht'); [by apply Hc|done..|].
    rewrite bind_Ok. eexists _, _. split; [done|]. intros s2 [= <-]. split; [exact Hs|]. by intros t2 [= <-].
  - assert (recordAuthenticated maphash (source_key (a_source a)) (a_userID a) tick (mkCache None st) = Ok (mkCache None st)) as ->
      by (unfold recordAuthenticated; by case_match).
    rewrite bind_Ok. eexists _, _. split; [done|]. intros s2 [= <-]. by split.
Qed.

(** A reload: the new generation is that of its number. *)
Lemma SetUsers_ok maphash n us reg :
  Z.of_nat (size us) < 2 ^ 32 - 1 → gen n = Some (users (buildState n us noStats)) → registry_ok maphash (SetUsers n us reg).
Proof using.
  intros Hsize Hgen s [= <-]. set (st := match r_users reg with Some s => stats (cache s) | None => noStats end). split; [split|].
  - by apply (buildState_users n us st).
  - exact Hgen.
  - intros t [= <-]. apply table_wf_empty.
Qed.

(** C38. Discovery for a stream terminates with a current generation: however
    often users are reloaded, if between the two loads of the [k]-th attempt
    nothing is published, discovery ends within [k + 1] attempts; and the
    generation of its result is the one that was loaded before and after the
    attempt, with a user of it whose key opens the metadata. *)
Theorem discover_terminates (maphash : list Z → Z) (loads : nat → option state) (mandatory : bool) (w : world)
    (em : list Z) (source : Source) (now tick : Z) (k : nat) :
  (∀ i s, loads i = Some s → state_wf s ∧ sourceCache_wf maphash (cache s)) → world_wf w →
  number <$> loads (2 * k)%nat = number <$> loads (S (2 * k)) →
  discovered loads 0 k now em (discoverUser maphash jitter (S k) loads mandatory w em source true now tick).
Proof using CL.
  intros Hl Hw Hk. unfold discoverUser. destruct (Z.ltb_spec (len em) DefaultNonceSize); [by split|].
  by apply (discoverLoop_spec maphash).
Qed.
End theorems.

(** ** An example: two users, and metadata of the second one *)

#[local] Existing Instance taggedCrypto.
#[local] Existing Instance taggedCrypto_laws.
Definition example_config : gmap (list Z) (option User) :=
  {[ [1] := Some (mkUserMsg (Some [97]) (Some [112]) None [] None None); [2] := Some (mkUserMsg (Some [98]) (Some [113]) None [mkQuotaMsg (Some 1) None] None None);
     [3] := None; [4] := Some (mkUserMsg (Some [99]) None None [] None None); [5] := Some (mkUserMsg (Some [99]) (Some [112]) None [] None None) ]}.
Lemma compiled_users_witness :
  users_wf (users (buildState 7 example_config noStats)) ∧ len (users (buildState 7 example_config noStats)) = 2.
Proof.
  split; [|vm_compute; reflexivity]. apply (compiled_users 7 example_config noStats). vm_compute. reflexivity.
Defined.

Definition example_state : state := Eval vm_compute in buildState 7 example_config noStats.
Definition example_now : Z := 1700000000000000000.
Definition example_metadata : list Z := Eval vm_compute in
  seqZ 0 24 ++ Seal (keyAt (HashPassword [113] [98]) (Time_Round example_now KeyRefreshInterval)) (seqZ 0 24) [5; 6].
Definition example_gen (n : Z) : option (list user) := if n =? 7 then Some (users example_state) else None.
Definition example_world : world := mkWorld ∅ ∅.
Lemma example_state_wf : state_wf example_gen example_state.
Proof.
  split; [|done]. split.
  - intros [|[|i]] u; cbn; [intros [= <-]; done..|done].
  - apply Forall_forall, (bool_decide_unpack _). by vm_compute.
  - apply Forall_forall, (bool_decide_unpack _). by vm_compute.
  - apply (bool_decide_unpack _). by vm_compute.
  - done.
Qed.
Lemma example_world_wf : world_wf example_gen example_world.
Proof. split; [apply cache_wf_empty|]. intros n i d. cbn. by rewrite lookup_empty. Qed.
Lemma example_source_wf : sourceCache_wf exampleHash (cache example_state).
Proof. intros t [= <-]. apply table_wf_empty. Qed.
Definition example_source : Source := mkSource (replicate 16 7) true.
Lemma discovery_order_witness :
  let order := candidateOrder example_state example_metadata (cachedIDs exampleHash example_state example_source 5).2 false in
  ∃ t c, tryState exampleHash (λ _, 0) example_world example_state example_metadata example_source false example_now 5
    = Ok (t, c, firstResult example_metadata example_now order) ∧ len order = 2.
Proof.
  destruct (discovery_order (λ _, 0) example_gen exampleHash example_state example_metadata example_now 5 example_world example_source false)
    as [(t & c & Ht & _) _]; [apply example_state_wf|apply example_world_wf|apply example_source_wf|vm_compute; congruence|].
  exists t, c. split; [exact Ht|vm_compute; reflexivity].
Defined.
Lemma discovery_finds_user_witness :
  ∃ t c r, tryState exampleHash (λ _, 0) example_world example_state example_metadata example_source false example_now 5 = Ok (t, c, Some r) ∧
    r_decryptedMetadata r = [5; 6] ∧ r_userID r = 2.
Proof.
  assert (∃ b, opens example_now example_metadata (nth 1 (users example_state) (mkUser 0 [] [] (mkPolicy [] []))) = Some (b, [5; 6])) as [b Hb]
    by (eexists; vm_compute; reflexivity).
  destruct (discovery_finds_user (λ _, 0) example_gen exampleHash example_state example_metadata example_now 5 example_world example_source false
    example_state_wf example_world_wf example_source_wf ltac:(vm_compute; congruence) (nth 1 (users example_state) (mkUser 0 [] [] (mkPolicy [] []))) b [5; 6])
    as (t & c & r & Ht & _ & Hpt & Hid & _).
  - right. left.
  - exact Hb.
  - intros v Hv Hne. apply elem_of_cons in Hv as [->|Hv]; [vm_compute; reflexivity|]. exfalso.
    apply elem_of_cons in Hv as [->|Hv]; [apply Hne; reflexivity|apply elem_of_nil in Hv; exact Hv].
  - done.
  - exists t, c, r. split_and!; [exact Ht|exact Hpt|rewrite Hid; reflexivity].
Defined.
(** Two reloads happen during the first attempt. *)
Definition example_loads (i : nat) : option state :=
  match i with O => Some (mkState 6 (users example_state) (newSourceUserCache noStats)) | _ => Some example_state end.
Lemma discover_terminates_witness :
  discovered (λ n, if (n =? 6) || (n =? 7) then Some (users example_state) else None) example_loads 0 1 example_now example_metadata
    (discoverUser exampleHash (λ _, 0) 2 example_loads false example_world example_metadata example_source true example_now 5).
Proof.
  apply (discover_terminates (λ _, 0) _ exampleHash example_loads false example_world example_metadata example_source example_now 5 1).
  - intros i s H. assert (users s = users example_state ∧ (number s = 6 ∨ number s = 7) ∧ table (cache s) = Some ∅) as (Hu & Hn & Ht).
    { destruct i; injection H as <-; cbn; auto. }
    split; [split|].
    + rewrite Hu. apply example_state_wf.
    + rewrite Hu. by destruct Hn as [-> | ->].
    + intros t Ht'. rewrite Ht in Ht'. injection Ht' as <-. apply table_wf_empty.
  - split; [apply cache_wf_empty|]. intros n i d. cbn. by rewrite lookup_empty.
  - done.
Defined.
