(* ===== verification/Metrics.v ===== *)
(** * pkg/metrics: counters with a history, and their serialization

    counter.go, gauge.go and the conversions of export.go.  A time series counter
    keeps its increments in buckets of four resolutions; old buckets move to the
    next coarser tier.  int64 wraps around ([i64]).  Times are unix
    milliseconds; the methods under [mu] are one step each.

    Theorems: no increment is ever lost or counted twice in the history, whatever
    the clock does, and the tiers stay ordered; a query is the sum over the
    buckets of the interval; export and import give the same counter. *)
From S2P Require Import Prelude MathExt GoStd.

Definition i64 (z : Z) : Z := (z + 2 ^ 63) mod 2 ^ 64 - 2 ^ 63.

Inductive RollUpLabel := NO_ROLL_UP | ROLL_UP_TO_SECOND | ROLL_UP_TO_MINUTE | ROLL_UP_TO_HOUR | ROLL_UP_TO_DAY.
#[global] Instance RollUpLabel_eq_dec : EqDecision RollUpLabel.
Proof. solve_decision. Defined.

Definition compactIntervalMs : Z := 1000.
Record tier := mkTier { width : Z; retain : Z; label : RollUpLabel }.
Definition tiers : list tier :=
  [mkTier 1000 120000 ROLL_UP_TO_SECOND; mkTier 60000 7200000 ROLL_UP_TO_MINUTE;
   mkTier 3600000 691200000 ROLL_UP_TO_HOUR; mkTier 86400000 0 ROLL_UP_TO_DAY].
Definition tierAt (i : nat) : tier := nth i tiers (mkTier 1 0 NO_ROLL_UP).

Record bucket := mkBucket { start : Z; delta : Z }.
Record Counter := mkCounter {
  c_name : list Z;
  value : Z;
  timeSeries : bool;
  history : list (list bucket);   (* one list per tier *)
  lastUpdate : Z;
  nextCompact : Z
}.
#[export] Instance Counter_eta : Settable Counter := λ c,
  mkCounter (c_name c) (value c) (timeSeries c) (history c) (lastUpdate c) (nextCompact c).
Definition newCounter (nm : list Z) (series : bool) : Counter := mkCounter nm 0 series (replicate 4 []) 0 0.
Definition tierOf (i : nat) (h : list (list bucket)) : list bucket := nth i h [].

(** ** counter.go *)

Definition floorTo (ms width : Z) : Z :=
  let r := ms `rem` width in
  let r := if r <? 0 then r + width else r in
  ms - r.

(** [record] on the list of tier [i]: the last bucket takes what is not newer. *)
Definition recordIn (i : nat) (ms d : Z) (h : list bucket) : list bucket :=
  let start_ := floorTo ms (width (tierAt i)) in
  match last h with
  | Some b => if start_ <=? start b then take (pred (length h)) h ++ [mkBucket (start b) (i64 (delta b + d))]
              else h ++ [mkBucket start_ d]
  | None => h ++ [mkBucket start_ d]
  end.
Definition record (i : nat) (ms d : Z) (h : list (list bucket)) : list (list bucket) :=
  <[i := recordIn i ms d (tierOf i h)]> h.

(** The expired prefix of tier [i] goes to tier [i+1]: what is left of the one,
    and the other. *)
Fixpoint moveExpired (i : nat) (now : Z) (h next : list bucket) : list bucket * list bucket :=
  match h with
  | [] => ([], next)
  | b :: rest =>
    if now - start b >? retain (tierAt i) then moveExpired i now rest (recordIn (S i) (start b) (delta b) next)
    else (h, next)
  end.
Definition compactTier (now : Z) (h : list (list bucket)) (i : nat) : list (list bucket) :=
  let '(kept, next) := moveExpired i now (tierOf i h) (tierOf (S i) h) in
  <[i := kept]> (<[S i := next]> h).
Definition compact (now : Z) (h : list (list bucket)) : list (list bucket) := foldl (compactTier now) h [0%nat; 1%nat; 2%nat].

Definition addWithTime (d ms : Z) (c : Counter) : Counter :=
  if d =? 0 then c
  else if negb (timeSeries c) then c<|value := i64 (value c + d)|>
  else
    let c := c<|history := record 0 ms d (history c)|><|lastUpdate := Max (lastUpdate c) ms|> in
    let c := if ms >=? nextCompact c
             then c<|history := compact ms (history c)|><|nextCompact := ms + compactIntervalMs|> else c in
    c<|value := i64 (value c + d)|>.
(** [Add] at the time [now]; the new value is returned. *)
Definition Counter_Add (now d : Z) (c : Counter) : result (Counter * Z) :=
  if d <? 0 then Panic "Can't add a negative value to Counter" else
  let c := if negb (timeSeries c) then c<|value := i64 (value c + d)|> else addWithTime d now c in
  Ok (c, value c).
Definition Counter_Store (c : Counter) : result Counter := Panic "Store() is not supported by Counter".

(** [sort.Search], then the buckets up to [to]. *)
Fixpoint sumUpTo (to : Z) (h : list bucket) (sum : Z) : Z :=
  match h with
  | b :: h => if start b <=? to then sumUpTo to h (i64 (sum + delta b)) else sum
  | [] => sum
  end.
Fixpoint sumFrom (from to : Z) (h : list bucket) (sum : Z) : Z :=
  match h with
  | b :: h' => if start b >? from then sumUpTo to h sum else sumFrom from to h' sum
  | [] => sum
  end.
Definition DeltaBetween (t1 t2 : Z) (c : Counter) : result Z :=
  if t2 <? t1 then Panic "t2 must be later than t1"
  else if negb (timeSeries c) then Panic "not a time series Counter"
  else
    let from := t1 `div` Millisecond in
    let to := t2 `div` Millisecond in
    Ok (foldl (λ sum h, sumFrom from to h sum) 0 (history c)).
(** [LastUpdateTime]: None is the zero time. *)
Definition LastUpdateTime (c : Counter) : result (option Z) :=
  if negb (timeSeries c) then Panic "not a time series Counter"
  else Ok (if lastUpdate c =? 0 then None else Some (lastUpdate c)).

(** ** The protobuf form *)

Record History := mkHistory { TimeUnixMilli : Z; Delta : Z; RollUp : RollUpLabel }.
Inductive MetricType := COUNTER | COUNTER_TIME_SERIES | GAUGE.
#[global] Instance MetricType_eq_dec : EqDecision MetricType.
Proof. solve_decision. Defined.
Record MetricPB := mkMetricPB { m_name : list Z; m_type : option MetricType; m_value : Z; m_history : list History }.

Definition historyPB (c : Counter) : Z * list History :=
  (value c,
   List.concat ((λ i, (λ b, mkHistory (start b) (delta b) (label (tierAt i))) <$> tierOf i (history c)) <$> [3%nat; 2%nat; 1%nat; 0%nat])).

(** The tier of a label; other labels go to the finest one. *)
Definition tierOfLabel (l : RollUpLabel) : nat :=
  match list_find (λ t, label t = l) tiers with Some (i, _) => i | None => 0%nat end.
(** [sort.SliceStable] by start. *)
Fixpoint insertBucket (b : bucket) (h : list bucket) : list bucket :=
  match h with
  | [] => [b]
  | x :: h' => if start b <? start x then b :: h else x :: insertBucket b h'
  end.
Definition sortBuckets (h : list bucket) : list bucket := foldl (λ acc b, insertBucket b acc) [] h.
Definition loadedTier (records : list History) (i : nat) : list bucket :=
  (λ r, mkBucket (TimeUnixMilli r) (Delta r)) <$> filter (λ r, tierOfLabel (RollUp r) = i) records.

Definition loadHistory (records : list History) (c : Counter) : Counter :=
  let c := c<|history := replicate 4 []|><|lastUpdate := 0|><|nextCompact := 0|> in
  foldl (λ c i, foldl (λ c b, c<|history := record i (start b) (delta b) (history c)|><|lastUpdate := Max (lastUpdate c) (start b)|>)
                      c (sortBuckets (loadedTier records i)))
    c [0%nat; 1%nat; 2%nat; 3%nat].

Record Gauge := mkGauge { g_name : list Z; g_value : Z }.
Definition Gauge_Add (d : Z) (g : Gauge) : Gauge := mkGauge (g_name g) (i64 (g_value g + d)).
Definition Gauge_Store (v : Z) (g : Gauge) : Gauge := mkGauge (g_name g) v.

Inductive Metric := MCounter (c : Counter) | MGauge (g : Gauge).
Definition Type_ (m : Metric) : MetricType :=
  match m with MCounter c => if timeSeries c then COUNTER_TIME_SERIES else COUNTER | MGauge _ => GAUGE end.
Definition Name (m : Metric) : list Z := match m with MCounter c => c_name c | MGauge g => g_name g end.

Definition ToMetricPB (m : Metric) : MetricPB :=
  match m with
  | MCounter c =>
    if timeSeries c then let '(v, h) := historyPB c in mkMetricPB (Name m) (Some (Type_ m)) v h
    else mkMetricPB (Name m) (Some (Type_ m)) (value c) []
  | MGauge g => mkMetricPB (Name m) (Some (Type_ m)) (g_value g) []
  end.

Definition loadCounterFromMetricPB (now : Z) (dst : Counter) (src : MetricPB) : result Counter :=
  if negb (bool_decide (m_name src = c_name dst)) then Ok dst else
  if bool_decide (m_type src = Some (Type_ (MCounter dst))) then
    let d := Max 0 (i64 (m_value src - value dst)) in
    '(dst, _) ← Counter_Add now d dst;
    Ok (if timeSeries dst then loadHistory (m_history src) dst else dst)
  else Ok dst.
Definition loadGaugeFromMetricPB (dst : Gauge) (src : MetricPB) : Gauge :=
  if negb (bool_decide (m_name src = g_name dst)) then dst else Gauge_Store (m_value src) dst.
Definition FromMetricPB (now : Z) (src : MetricPB) : result Metric :=
  match m_type src with
  | Some COUNTER => MCounter <$> loadCounterFromMetricPB now (newCounter (m_name src) false) src
  | Some COUNTER_TIME_SERIES => MCounter <$> loadCounterFromMetricPB now (newCounter (m_name src) true) src
  | Some GAUGE => Ok (MGauge (loadGaugeFromMetricPB (mkGauge (m_name src) 0) src))
  | None => Err (Errorf "metric type is invalid")
  end.

(** ** Sums modulo 2^64 *)

Lemma i64_range z : - 2 ^ 63 <= i64 z < 2 ^ 63.
Proof. unfold i64. pose proof (Z.mod_pos_bound (z + 2 ^ 63) (2 ^ 64) ltac:(done)). lia. Qed.
Lemma i64_id z : - 2 ^ 63 <= z < 2 ^ 63 → i64 z = z.
Proof. intros. unfold i64. rewrite Z.mod_small by lia. lia. Qed.
Lemma i64_add_l a b : i64 (i64 a + b) = i64 (a + b).
Proof.
  unfold i64. f_equal. replace ((a + 2 ^ 63) mod 2 ^ 64 - 2 ^ 63 + b + 2 ^ 63) with ((a + 2 ^ 63) mod 2 ^ 64 + b) by lia.
  rewrite Zplus_mod_idemp_l. f_equal. lia.
Qed.
Lemma i64_add_r a b : i64 (a + i64 b) = i64 (a + b).
Proof. rewrite Z.add_comm, i64_add_l. f_equal. lia. Qed.

Lemma i64_frame u v x y : i64 u = i64 v → x - u = y - v → i64 x = i64 y.
Proof.
  intros E H. replace x with (x - u + u) by lia. by rewrite <-i64_add_r, E, i64_add_r, H; f_equal; lia.
Qed.

Fixpoint sumDeltas (h : list bucket) : Z := match h with [] => 0 | b :: h => delta b + sumDeltas h end.
Lemma sumDeltas_app h k : sumDeltas (h ++ k) = sumDeltas h + sumDeltas k.
Proof. induction h as [|b h IH]; cbn; lia. Qed.
Definition total (h : list (list bucket)) : Z := foldr (λ x n, sumDeltas x + n) 0 h.

(** ** Tiers *)

Lemma floorTo_spec ms w : 0 < w → floorTo ms w = ms - ms mod w.
Proof.
  intros Hw. unfold floorTo. pose proof (Z.quot_rem' ms w) as Hq. pose proof (Z.rem_bound_abs ms w ltac:(lia)) as Hb.
  destruct (Z.ltb_spec (ms `rem` w) 0).
  - rewrite <-(Z.mod_unique ms w (ms ÷ w - 1) (ms `rem` w + w)); lia.
  - rewrite <-(Z.mod_unique ms w (ms ÷ w) (ms `rem` w)); lia.
Qed.
Lemma width_pos i : 0 < width (tierAt i).
Proof. unfold tierAt. by do 5 (destruct i as [|i]; [done|]). Qed.

(** A tier is strictly ascending and aligned to its resolution. *)
Definition before (a b : bucket) : Prop := start a < start b.
Definition tier_ok (i : nat) (h : list bucket) : Prop :=
  StronglySorted before h ∧ Forall (λ b, start b mod width (tierAt i) = 0) h.

Lemma sorted_snoc (h : list bucket) b :
  StronglySorted before h → (∀ x, last h = Some x → start x < start b) → StronglySorted before (h ++ [b]).
Proof.
  intros Hs Hl. apply StronglySorted_app. split_and!; [|done|repeat constructor]. intros x y Hx ->%list_elem_of_singleton.
  destruct h as [|z h _] using rev_ind; [by apply elem_of_nil in Hx|]. rewrite last_snoc in Hl. specialize (Hl _ eq_refl).
  apply StronglySorted_app in Hs as (Hs & _ & _). apply elem_of_app in Hx as [Hx| ->%list_elem_of_singleton]; [|done].
  specialize (Hs x z Hx ltac:(by apply list_elem_of_singleton)). unfold before in *. lia.
Qed.

Lemma recordIn_spec i ms d h :
  tier_ok i h → tier_ok i (recordIn i ms d h) ∧ i64 (sumDeltas (recordIn i ms d h)) = i64 (sumDeltas h + d).
Proof.
  intros [Hs Ha]. pose proof (width_pos i) as Hw. unfold recordIn. rewrite floorTo_spec by done.
  set (s := ms - ms mod width (tierAt i)).
  assert (s mod width (tierAt i) = 0) as Hal.
  { unfold s. rewrite (Z.div_mod ms (width (tierAt i))) at 1 by lia.
    replace (_ * _ + _ - _) with ((ms / width (tierAt i)) * width (tierAt i)) by lia. apply Z.mod_mul. lia. }
  destruct h as [|b h _] using rev_ind.
  { cbn. split; [|f_equal; lia]. split; [repeat constructor|by constructor]. }
  rewrite last_snoc. destruct (Z.leb_spec s (start b)).
  - rewrite length_app. replace (pred (length h + length [b])) with (length h) by (cbn; lia). rewrite take_app_length.
    apply Forall_app in Ha as [Ha Hb]. apply (proj1 (Forall_singleton _ _)) in Hb. split.
    + apply StronglySorted_app in Hs as (Hx & Hh & _). split.
      * apply StronglySorted_app. split_and!; [|done|repeat constructor]. intros x y Hxh ->%list_elem_of_singleton.
        by apply (Hx x b Hxh), list_elem_of_singleton.
      * apply Forall_app. split; [done|by constructor].
    + rewrite !sumDeltas_app. cbn. rewrite !Z.add_0_r, i64_add_r. f_equal. lia.
  - split; [split|].
    + apply sorted_snoc; [done|]. rewrite last_snoc. intros x [= <-]. cbn. lia.
    + apply Forall_app. split; [done|by constructor].
    + rewrite !sumDeltas_app. cbn. f_equal. lia.
Qed.

Lemma moveExpired_spec i now h next :
  tier_ok i h → tier_ok (S i) next →
  let '(kept, next') := moveExpired i now h next in
  tier_ok i kept ∧ tier_ok (S i) next' ∧ i64 (sumDeltas kept + sumDeltas next') = i64 (sumDeltas h + sumDeltas next).
Proof.
  revert next. induction h as [|b h IH]; intros next Hh Hn; cbn [moveExpired]; [done|].
  destruct (now - start b >? retain (tierAt i)); [|done].
  destruct (recordIn_spec (S i) (start b) (delta b) next Hn) as [Hn' Hsum].
  assert (tier_ok i h) as Hh'.
  { destruct Hh as [Hs Ha]. apply StronglySorted_inv in Hs as [Hs _]. by apply Forall_cons in Ha as [_ Ha]. }
  specialize (IH _ Hh' Hn'). destruct (moveExpired _ _ _ _) as [kept next']. destruct IH as (? & ? & E). split_and!; [done|done|].
  rewrite E, <-i64_add_r, Hsum, i64_add_r. cbn. f_equal. lia.
Qed.

(** ** The invariant of the history *)

Definition history_ok (h : list (list bucket)) : Prop := length h = 4%nat ∧ ∀ i, tier_ok i (tierOf i h).

Lemma history_four (h : list (list bucket)) : length h = 4%nat → ∃ a b c d, h = [a; b; c; d].
Proof. destruct h as [|a [|b [|c [|d [|e h]]]]]; [done..| |done]. intros _. by exists a, b, c, d. Qed.
Lemma tier_ok_nil i : tier_ok i [].
Proof. split; constructor. Qed.
Lemma history_ok_intro a b c d :
  tier_ok 0 a → tier_ok 1 b → tier_ok 2 c → tier_ok 3 d → history_ok [a; b; c; d].
Proof. intros. split; [done|]. intros i. do 4 (destruct i as [|i]; [done|]). destruct i; apply tier_ok_nil. Qed.

Lemma counter_record_spec i ms d h :
  (i < 4)%nat → history_ok h → history_ok (record i ms d h) ∧ i64 (total (record i ms d h)) = i64 (total h + d).
Proof.
  intros Hi [Hl Hok]. destruct (history_four h Hl) as (a0 & a1 & a2 & a3 & ->). clear Hl.
  pose proof (Hok 0%nat) as H0. pose proof (Hok 1%nat) as H1. pose proof (Hok 2%nat) as H2. pose proof (Hok 3%nat) as H3. cbn in H0, H1, H2, H3.
  unfold record. destruct i as [|[|[|[|i]]]]; [..|lia]; cbn.
  - destruct (recordIn_spec 0 ms d a0 H0) as [Hk E]. split; [by apply history_ok_intro|].
    apply (i64_frame _ _ _ _ E). cbn. lia.
  - destruct (recordIn_spec 1 ms d a1 H1) as [Hk E]. split; [by apply history_ok_intro|].
    apply (i64_frame _ _ _ _ E). cbn. lia.
  - destruct (recordIn_spec 2 ms d a2 H2) as [Hk E]. split; [by apply history_ok_intro|].
    apply (i64_frame _ _ _ _ E). cbn. lia.
  - destruct (recordIn_spec 3 ms d a3 H3) as [Hk E]. split; [by apply history_ok_intro|].
    apply (i64_frame _ _ _ _ E). cbn. lia.
Qed.

Lemma compactTier_spec now h i :
  (i < 3)%nat → history_ok h → history_ok (compactTier now h i) ∧ i64 (total (compactTier now h i)) = i64 (total h).
Proof.
  intros Hi [Hl Hok]. destruct (history_four h Hl) as (a0 & a1 & a2 & a3 & ->). clear Hl.
  pose proof (Hok 0%nat) as H0. pose proof (Hok 1%nat) as H1. pose proof (Hok 2%nat) as H2. pose proof (Hok 3%nat) as H3. cbn in H0, H1, H2, H3.
  unfold compactTier. destruct i as [|[|[|i]]]; [..|lia]; cbn.
  - pose proof (moveExpired_spec 0 now a0 a1 H0 H1) as H. destruct (moveExpired _ _ _ _) as [x y]. destruct H as (? & ? & E).
    split; [by apply history_ok_intro|]. apply (i64_frame _ _ _ _ E). cbn. lia.
  - pose proof (moveExpired_spec 1 now a1 a2 H1 H2) as H. destruct (moveExpired _ _ _ _) as [x y]. destruct H as (? & ? & E).
    split; [by apply history_ok_intro|]. apply (i64_frame _ _ _ _ E). cbn. lia.
  - pose proof (moveExpired_spec 2 now a2 a3 H2 H3) as H. destruct (moveExpired _ _ _ _) as [x y]. destruct H as (? & ? & E).
    split; [by apply history_ok_intro|]. apply (i64_frame _ _ _ _ E). cbn. lia.
Qed.
Lemma compact_spec now h : history_ok h → history_ok (compact now h) ∧ i64 (total (compact now h)) = i64 (total h).
Proof.
  intros Hh. unfold compact. cbn [foldl].
  destruct (compactTier_spec now h 0) as [H0 E0]; [lia|done|]. destruct (compactTier_spec now _ 1 ltac:(lia) H0) as [H1 E1].
  destruct (compactTier_spec now _ 2 ltac:(lia) H1) as [H2 E2]. split; [done|]. congruence.
Qed.

#[local] Arguments compact : simpl never.
#[local] Arguments total : simpl never.
#[local] Arguments record : simpl never.
Lemma addWithTime_spec d ms c :
  timeSeries c = true → history_ok (history c) → value c = i64 (total (history c)) →
  let c' := addWithTime d ms c in
  timeSeries c' = true ∧ c_name c' = c_name c ∧ history_ok (history c') ∧ value c' = i64 (total (history c')) ∧ value c' = i64 (value c + d).
Proof.
  intros Ht Hh Hv. unfold addWithTime. destruct (Z.eqb_spec d 0) as [->|].
  { rewrite Z.add_0_r. split_and!; [done..|]. rewrite Hv. symmetry. apply i64_id, i64_range. }
  rewrite Ht. cbn [negb]. destruct (counter_record_spec 0 ms d (history c)) as [Hr Er]; [lia|done|].
  assert (i64 (value c + d) = i64 (total (record 0 ms d (history c)))) as E by (by rewrite Hv, i64_add_l, Er).
  destruct (ms >=? _); cbn; [|split_and!; done].
  destruct (compact_spec ms _ Hr) as [Hc Ec]. split_and!; [done|done|done|by rewrite Ec|done].
Qed.

(** The history is conserved: after any increments at any times (the clock
    may go back), the buckets of all tiers add up to the value of the counter,
    which is the sum of the increments, modulo 2^64; and every tier is strictly
    ascending and aligned to its resolution.  So merging and compaction neither
    lose nor duplicate an increment. *)
Theorem history_conserved (nm : list Z) (adds : list (Z * Z)) :
  let c := foldl (λ c '(d, ms), addWithTime d ms c) (newCounter nm true) adds in
  history_ok (history c) ∧ value c = i64 (total (history c)) ∧ value c = i64 (foldr (λ x n, x.1 + n) 0 adds).
Proof.
  assert (∀ adds c, timeSeries c = true → history_ok (history c) → value c = i64 (total (history c)) →
    let c' := foldl (λ c '(d, ms), addWithTime d ms c) c adds in
    history_ok (history c') ∧ value c' = i64 (total (history c')) ∧ value c' = i64 (value c + foldr (λ x n, x.1 + n) 0 adds)) as H.
  { clear. induction adds as [|[d ms] adds IH]; intros c Ht Hh Hv; cbn [foldl foldr].
    - split_and!; [done|done|]. rewrite Z.add_0_r, Hv. symmetry. apply i64_id, i64_range.
    - destruct (addWithTime_spec d ms c Ht Hh Hv) as (Ht' & _ & Hh' & Hv' & Hd).
      destruct (IH _ Ht' Hh' Hv') as (? & ? & E). split_and!; [done|done|]. rewrite E, Hd, i64_add_l. f_equal. cbn. lia. }
  destruct (H adds (newCounter nm true)) as (? & ? & E); [done|apply history_ok_intro; apply tier_ok_nil|done|]. done.
Qed.

(** ** Queries *)

Lemma sumUpTo_spec to h sum :
  StronglySorted before h → - 2 ^ 63 <= sum < 2 ^ 63 →
  sumUpTo to h sum = i64 (sum + sumDeltas (filter (λ b, start b <= to) h)).
Proof.
  intros Hs. revert sum. induction Hs as [|b h Hs IH Hb]; intros sum Hr; cbn [sumUpTo].
  { cbn. rewrite Z.add_0_r. symmetry. by apply i64_id. }
  rewrite filter_cons. destruct (Z.leb_spec (start b) to).
  - rewrite decide_True by done. rewrite IH by apply i64_range. cbn. rewrite i64_add_l. f_equal. lia.
  - rewrite decide_False by lia. enough (filter (λ b, start b <= to) h = []) as -> by (cbn; rewrite Z.add_0_r; symmetry; by apply i64_id).
    apply filter_none. intros x Hx. rewrite Forall_forall in Hb. specialize (Hb x Hx). unfold before in Hb. lia.
Qed.
Lemma sumFrom_spec from to h sum :
  StronglySorted before h → - 2 ^ 63 <= sum < 2 ^ 63 →
  sumFrom from to h sum = i64 (sum + sumDeltas (filter (λ b, from < start b <= to) h)).
Proof.
  intros Hs Hr. induction Hs as [|b h Hs IH Hb]; cbn [sumFrom].
  { cbn. rewrite Z.add_0_r. symmetry. by apply i64_id. }
  destruct (Z.gtb_spec (start b) from).
  - rewrite sumUpTo_spec by (done || by constructor). do 3 f_equal. apply filter_ext_in.
    intros x [->|Hx]%elem_of_cons; [lia|]. rewrite Forall_forall in Hb. specialize (Hb x Hx). unfold before in Hb. lia.
  - rewrite filter_cons, decide_False by lia. apply IH.
Qed.

(** A query is exact on the buckets: [DeltaBetween] of a counter whose tiers
    are in order is the sum, modulo 2^64, of all buckets of all tiers that start
    after the first and not after the second instant (in milliseconds). *)
Theorem DeltaBetween_sums (t1 t2 : Z) (c : Counter) :
  timeSeries c = true → history_ok (history c) → t1 <= t2 →
  DeltaBetween t1 t2 c = Ok (i64 (total ((λ h, filter (λ b, t1 `div` Millisecond < start b <= t2 `div` Millisecond) h) <$> history c))).
Proof.
  intros Ht [Hl Hok] Hle. unfold DeltaBetween. destruct (Z.ltb_spec t2 t1); [lia|]. rewrite Ht. cbn [negb]. f_equal.
  set (from := t1 `div` Millisecond). set (to := t2 `div` Millisecond).
  assert (∀ hs sum, (∀ h, h ∈ hs → StronglySorted before h) → - 2 ^ 63 <= sum < 2 ^ 63 →
    foldl (λ sum h, sumFrom from to h sum) sum hs = i64 (sum + total ((λ h, filter (λ b, from < start b <= to) h) <$> hs))) as Hsum.
  { induction hs as [|h hs IH]; intros sum Hs Hr; cbn [foldl].
    - change (total _) with 0. rewrite Z.add_0_r. symmetry. by apply i64_id.
    - rewrite sumFrom_spec by (done || apply Hs; left). rewrite IH by (apply i64_range || intros; apply Hs; by right).
      rewrite i64_add_l. f_equal. rewrite fmap_cons. unfold total. cbn [foldr]. lia. }
  rewrite Hsum; [done| |done]. intros h Hh. apply list_elem_of_lookup in Hh as [i Hi].
  specialize (Hok i). unfold tierOf in Hok. rewrite (nth_lookup_Some _ _ _ _ Hi) in Hok. apply Hok.
Qed.

(** ** Export and import *)

Lemma insertBucket_last b h : (∀ x, last h = Some x → start x < start b) → StronglySorted before h → insertBucket b h = h ++ [b].
Proof.
  intros Hl Hs. induction Hs as [|x h Hs IH Hx]; [done|]. cbn [insertBucket].
  assert (start x < start b) as Hxb.
  { destruct h as [|y h _] using rev_ind; [by apply (Hl x)|]. rewrite Forall_forall in Hx. specialize (Hx y ltac:(apply elem_of_app; right; left)).
    specialize (Hl y). rewrite last_cons, last_snoc in Hl. specialize (Hl eq_refl). unfold before in Hx. lia. }
  destruct (Z.ltb_spec (start b) (start x)); [lia|]. rewrite IH; [done|].
  intros z Hz. apply Hl. rewrite last_cons, Hz. done.
Qed.
Lemma sortBuckets_sorted h : StronglySorted before h → sortBuckets h = h.
Proof.
  intros Hs. unfold sortBuckets. induction h as [|b h IH] using rev_ind; [done|]. rewrite foldl_app. cbn.
  pose proof Hs as (Hx & Hh & _)%StronglySorted_app. rewrite IH by done. apply insertBucket_last; [|done].
  intros x Hl. apply (Hx x b); [by apply last_Some_elem_of|by apply list_elem_of_singleton].
Qed.

(** Recording the buckets of an ordered tier one by one gives that tier. *)
Lemma recordIn_next i h b :
  tier_ok i (h ++ [b]) → recordIn i (start b) (delta b) h = h ++ [b].
Proof.
  intros [Hs Ha]. unfold recordIn. rewrite floorTo_spec by apply width_pos.
  apply Forall_app in Ha as [_ Ha]. apply (proj1 (Forall_singleton _ _)) in Ha. rewrite Ha, Z.sub_0_r.
  assert (mkBucket (start b) (delta b) = b) as Eb by (by destruct b). rewrite Eb. destruct (last h) as [x|] eqn:E; [|done].
  apply StronglySorted_app in Hs as (Hx & _ & _). specialize (Hx x b ltac:(by apply last_Some_elem_of) ltac:(by apply list_elem_of_singleton)).
  unfold before in Hx. destruct (Z.leb_spec (start b) (start x)); [lia|done].
Qed.


(** What loading keeps of a counter. *)
Definition same_counter (c c' : Counter) : Prop := c_name c' = c_name c ∧ value c' = value c ∧ timeSeries c' = timeSeries c.

Definition loadBucket (i : nat) (c : Counter) (b : bucket) : Counter :=
  c<|history := record i (start b) (delta b) (history c)|><|lastUpdate := Max (lastUpdate c) (start b)|>.
Lemma loadBucket_fields i c b : same_counter c (loadBucket i c b) ∧ history (loadBucket i c b) = record i (start b) (delta b) (history c).
Proof. done. Qed.

Lemma load_tier i l pre c :
  (i < length (history c))%nat → tierOf i (history c) = pre → tier_ok i (pre ++ l) →
  let c' := foldl (loadBucket i) c l in same_counter c c' ∧ history c' = <[i := pre ++ l]> (history c).
Proof.
  revert pre c. induction l as [|b l IH]; intros pre c Hi Hp Hok; cbn [foldl].
  { split; [done|]. rewrite app_nil_r, list_insert_id; [done|]. rewrite <-Hp.
    unfold tierOf. destruct (lookup_lt_is_Some_2 _ _ Hi) as [x Hx]. by rewrite (nth_lookup_Some _ _ _ _ Hx). }
  replace (pre ++ b :: l) with ((pre ++ [b]) ++ l) in Hok |- * by (by rewrite <-app_assoc).
  assert (record i (start b) (delta b) (history c) = <[i := pre ++ [b]]> (history c)) as E.
  { unfold record. rewrite Hp, recordIn_next; [done|]. destruct Hok as [Hs Ha]. apply StronglySorted_app in Hs as (_ & Hs & _).
    apply Forall_app in Ha as [Ha _]. by split. }
  destruct (loadBucket_fields i c b) as [(En & Ev & Et) Eh]. rewrite E in Eh.
  destruct (IH (pre ++ [b]) (loadBucket i c b)) as [(En' & Ev' & Et') Eh'].
  - rewrite Eh. by rewrite length_insert.
  - rewrite Eh. unfold tierOf. erewrite nth_lookup_Some; [done|]. by apply list_lookup_insert_eq.
  - done.
  - split; [split_and!; congruence|]. rewrite Eh', Eh. apply list_insert_insert_eq.
Qed.

Lemma tierOfLabel_label i : (i < 4)%nat → tierOfLabel (label (tierAt i)) = i.
Proof. intros Hi. do 4 (destruct i as [|i]; [done|]). lia. Qed.
Lemma filter_const_label i j (h : list bucket) :
  (j < 4)%nat →
  filter (λ r, tierOfLabel (RollUp r) = i) ((λ b, mkHistory (start b) (delta b) (label (tierAt j))) <$> h)
  = if decide (j = i) then (λ b, mkHistory (start b) (delta b) (label (tierAt j))) <$> h else [].
Proof.
  intros Hj. induction h as [|b h IH]; [by destruct (decide _)|]. rewrite fmap_cons, filter_cons. cbn [RollUp].
  rewrite (tierOfLabel_label j Hj), IH. by destruct (decide (j = i)).
Qed.
(** Every tier gets its own buckets back. *)
Lemma loadedTier_historyPB c i : length (history c) = 4%nat → (i < 4)%nat → loadedTier (historyPB c).2 i = tierOf i (history c).
Proof.
  intros Hl Hi. destruct (history_four _ Hl) as (a0 & a1 & a2 & a3 & E).
  unfold loadedTier, historyPB. cbn [snd fmap list_fmap List.concat]. rewrite app_nil_r, !filter_app, !filter_const_label by lia.
  assert (∀ j (h : list bucket), (λ r, mkBucket (TimeUnixMilli r) (Delta r)) <$> ((λ b, mkHistory (start b) (delta b) (label (tierAt j))) <$> h) = h) as Hback.
  { intros j h. rewrite <-list_fmap_compose. rewrite <-(list_fmap_id h) at 2. apply list_fmap_ext. by intros ? []. }
  do 4 (destruct i as [|i]; [cbn [decide decide_rel Nat.eq_dec]; rewrite E; cbn -[label tierAt]; rewrite ?app_nil_r; apply Hback|]). lia.
Qed.

Lemma loadHistory_historyPB c d :
  history_ok (history c) → let d' := loadHistory (historyPB c).2 d in same_counter d d' ∧ history d' = history c.
Proof.
  intros [Hl Hok]. destruct (history_four _ Hl) as (a0 & a1 & a2 & a3 & E).
  assert (∀ i, (i < 4)%nat → sortBuckets (loadedTier (historyPB c).2 i) = tierOf i (history c)) as Hsorted.
  { intros i Hi. rewrite loadedTier_historyPB by done. apply sortBuckets_sorted, Hok. }
  unfold loadHistory. cbn [foldl]. rewrite !Hsorted by lia. rewrite E in Hok |- *. cbn [tierOf nth].
  set (d0 := d<|history := _|><|lastUpdate := _|><|nextCompact := _|>).
  assert (same_counter d d0) as (N0 & V0 & T0) by done. assert (history d0 = [[]; []; []; []]) as H0 by done. clearbody d0.
  destruct (load_tier 0 a0 [] d0) as [(N1 & V1 & T1) H1]; [by rewrite H0; cbn; lia|by rewrite H0|apply (Hok 0%nat)|].
  fold (loadBucket 0). set (d1 := foldl (loadBucket 0) d0 a0) in *. clearbody d1. rewrite H0 in H1.
  destruct (load_tier 1 a1 [] d1) as [(N2 & V2 & T2) H2]; [by rewrite H1; cbn; lia|by rewrite H1|apply (Hok 1%nat)|].
  fold (loadBucket 1). set (d2 := foldl (loadBucket 1) d1 a1) in *. clearbody d2. rewrite H1 in H2.
  destruct (load_tier 2 a2 [] d2) as [(N3 & V3 & T3) H3]; [by rewrite H2; cbn; lia|by rewrite H2|apply (Hok 2%nat)|].
  fold (loadBucket 2). set (d3 := foldl (loadBucket 2) d2 a2) in *. clearbody d3. rewrite H2 in H3.
  destruct (load_tier 3 a3 [] d3) as [(N4 & V4 & T4) H4]; [by rewrite H3; cbn; lia|by rewrite H3|apply (Hok 3%nat)|].
  fold (loadBucket 3). set (d4 := foldl (loadBucket 3) d3 a3) in *. clearbody d4. rewrite H3 in H4.
  split; [split_and!; congruence|]. by rewrite H4.
Qed.

Lemma Max_0 v : 0 <= v → Max 0 v = v.
Proof. intros. unfold Max. destruct (Z.geb_spec 0 v); lia. Qed.
Lemma loadCounter_plain now c :
  0 <= value c < 2 ^ 63 → timeSeries c = false →
  ∃ c', loadCounterFromMetricPB now (newCounter (c_name c) false) (ToMetricPB (MCounter c)) = Ok c' ∧ same_counter c c'.
Proof.
  intros Hv Ht. unfold ToMetricPB, loadCounterFromMetricPB, Counter_Add. cbn [Type_]. rewrite Ht. cbn.
  rewrite !bool_decide_true by done. cbn. rewrite Z.sub_0_r, i64_id, Max_0 by lia. destruct (Z.ltb_spec (value c) 0); [lia|]. cbn.
  eexists. split; [reflexivity|]. split_and!; cbn; [done|apply i64_id; lia|done].
Qed.
Lemma loadCounter_series now c :
  0 <= value c < 2 ^ 63 → timeSeries c = true → history_ok (history c) →
  ∃ c', loadCounterFromMetricPB now (newCounter (c_name c) true) (ToMetricPB (MCounter c)) = Ok c' ∧ same_counter c c' ∧ history c' = history c.
Proof.
  intros Hv Ht Hh. set (c0 := newCounter (c_name c) true).
  destruct (addWithTime_spec (value c) now c0) as (Ht1 & Hn1 & _ & _ & Hv1); [done|apply history_ok_intro; apply tier_ok_nil|done|].
  assert (Counter_Add now (value c) c0 = Ok (addWithTime (value c) now c0, value (addWithTime (value c) now c0))) as Hadd.
  { unfold Counter_Add. destruct (Z.ltb_spec (value c) 0); [lia|]. done. }
  unfold ToMetricPB. rewrite Ht. cbn [historyPB]. unfold loadCounterFromMetricPB. cbn [m_name m_type m_value m_history Name Type_].
  rewrite Ht, !bool_decide_true by done. cbn [negb]. change (value c0) with 0. rewrite Z.sub_0_r, i64_id, Max_0 by lia. rewrite Hadd.
  cbn [mbind result_bind]. rewrite Ht1.
  destruct (loadHistory_historyPB c (addWithTime (value c) now c0) Hh) as [(N & V & T) Eh].
  eexists. split; [reflexivity|]. split; [|exact Eh]. split_and!; [exact (eq_trans N Hn1)| |by etrans; [exact T|rewrite Ht1]].
  etrans; [exact V|]. rewrite Hv1. apply i64_id. lia.
Qed.

(** What [metric_roundtrip] asks of a metric: a counter is not negative, its
    history in order. *)
Definition exportable (m : Metric) : Prop :=
  match m with
  | MCounter c => 0 <= value c < 2 ^ 63 ∧ (timeSeries c = true → history_ok (history c))
  | MGauge _ => True
  end.
(** Equal up to the bookkeeping of the compaction. *)
Definition same_metric (m m' : Metric) : Prop :=
  match m, m' with
  | MCounter c, MCounter c' => same_counter c c' ∧ (timeSeries c = true → history c' = history c)
  | MGauge g, MGauge g' => g' = g
  | _, _ => False
  end.

(** Metrics survive a restart: what is exported and loaded again, at any later
    time, has the same name, type and value, and a time series counter has the
    same history, bucket for bucket and tier for tier; so it exports to the same
    message again. *)
Theorem metric_roundtrip (now : Z) (m : Metric) :
  exportable m →
  ∃ m', FromMetricPB now (ToMetricPB m) = Ok m' ∧ same_metric m m' ∧ ToMetricPB m' = ToMetricPB m.
Proof.
  destruct m as [c|[n v]]; cbn [exportable]; [intros [Hv Hh]|].
  2:{ intros _. eexists. unfold FromMetricPB, ToMetricPB, loadGaugeFromMetricPB. cbn. by rewrite bool_decide_true. }
  destruct (timeSeries c) eqn:Et.
  - destruct (loadCounter_series now c Hv Et (Hh eq_refl)) as (c' & E & (N & V & T) & Eh).
    exists (MCounter c'). split_and!; [|by split|].
    + unfold FromMetricPB. replace (m_type _) with (Some COUNTER_TIME_SERIES) by (cbn; by rewrite Et).
      replace (m_name _) with (c_name c) by (cbn; by rewrite Et). by rewrite E.
    + cbn. unfold historyPB. by rewrite T, Et, N, V, Eh.
  - destruct (loadCounter_plain now c Hv Et) as (c' & E & (N & V & T)).
    exists (MCounter c'). split_and!; [|split; [done|by rewrite Et]|].
    + unfold FromMetricPB. replace (m_type _) with (Some COUNTER) by (cbn; by rewrite Et).
      replace (m_name _) with (c_name c) by (cbn; by rewrite Et). by rewrite E.
    + cbn. by rewrite T, Et, N, V.
Qed.

(** Two increments a minute apart, then a third after the first has expired. *)
Definition exampleCounter : Counter :=
  foldl (λ c '(d, ms), addWithTime d ms c) (newCounter [98] true) [(5, 1000500); (7, 1060100); (2, 1125000)].
Lemma exampleCounter_ok : history_ok (history exampleCounter).
Proof. apply history_ok_intro; (split; [repeat constructor|repeat constructor]). Qed.

Lemma DeltaBetween_sums_witness :
  DeltaBetween (1000500 * Millisecond) (1125000 * Millisecond) exampleCounter = Ok 9
  ∧ DeltaBetween (1000500 * Millisecond) (1125000 * Millisecond) exampleCounter
    = Ok (i64 (total ((λ h, filter (λ b, (1000500 * Millisecond) `div` Millisecond < start b <= (1125000 * Millisecond) `div` Millisecond) h)
                      <$> history exampleCounter))).
Proof. split; [reflexivity|]. apply DeltaBetween_sums; [done|apply exampleCounter_ok|done]. Defined.

Lemma metric_roundtrip_witness :
  value exampleCounter = 14
  ∧ ∃ m', FromMetricPB 2000000 (ToMetricPB (MCounter exampleCounter)) = Ok m' ∧ same_metric (MCounter exampleCounter) m'
          ∧ ToMetricPB m' = ToMetricPB (MCounter exampleCounter).
Proof. split; [reflexivity|]. apply metric_roundtrip. split; [done|]. intros _. apply exampleCounter_ok. Defined.
