(* ===== verification/Segment.v ===== *)
(** * pkg/protocol/segment.go: segments and the segment tree

    A [segment] is metadata with a payload and its retransmission state.  The
    [segmentTree] is a bounded B-tree of segments ordered by sequence number.
    The B-tree itself (github.com/google/btree) is the class [BTree], with its
    documented behaviour as [BTreeLaws]; the tree holds pointers, so an iterator
    may also change the segments in place ([tr_Update]).

    Theorems: every operation keeps the tree ordered and within its capacity;
    the tree refines a finite map from sequence numbers to segments; the
    fragment sizes are within what the encodings and the MTU can carry. *)
From S2P Require Import Prelude MathExt Messages LowEntropy Metadata GoStd Ascii Cipher.

Inductive TransportProtocol := UnknownTransport | StreamTransport | PacketTransport.
#[global] Instance TransportProtocol_eq_dec : EqDecision TransportProtocol.
Proof. solve_decision. Defined.

Definition txCountLimit : Z := 20.
(** underlay_packet.go's and underlay_stream.go's header sizes. *)
Definition packetOverhead : Z := DefaultNonceSize + MetadataLength + DefaultOverhead * 2.
Definition packetNonHeaderPosition : Z := DefaultNonceSize + MetadataLength + DefaultOverhead.
Definition streamOverhead : Z := MetadataLength + DefaultOverhead * 2.

Definition maxFragmentSizeInternal (mtu : Z) (transport : TransportProtocol) : Z :=
  if decide (transport = StreamTransport) then maxPDU else
  let res := mtu - packetOverhead in
  Max 0 res.

Definition maxFragmentSize (mtu : Z) (transport : TransportProtocol) (mode : Z) : result Z :=
  if mode =? LOW_ENTROPY_MODE_OFF then Ok (maxFragmentSizeInternal mtu transport) else
  params ← buildLowEntropyParams mode;
  let maxEncodableChunkCount := MaxUint16 `quot` lowEntropyChunkLen in
  match transport with
  | StreamTransport =>
    let fragmentSize := maxFragmentSizeInternal mtu transport in
    let maxEncodableFragmentSize := maxEncodableChunkCount * sourceBytesPerChunk params in
    Ok (Min fragmentSize maxEncodableFragmentSize)
  | PacketTransport =>
    let mtuChunkCount := (mtu - packetOverhead) `quot` lowEntropyChunkLen in
    if mtuChunkCount <=? 0 then Err (Errorf "MTU has no capacity for a low entropy payload chunk")
    else Ok (mtuChunkCount * sourceBytesPerChunk params)
  | UnknownTransport => Ok (maxFragmentSizeInternal mtu transport)
  end.

(** [serverUserPolicy] and [serverUserAuthentication], which only carry the
    result of user discovery, are not part of the model. *)
Record segment := mkSegment {
  seg_metadata : metadata;
  seg_payload : list Z;
  seg_transport : TransportProtocol;
  seg_ackCount : Z;
  seg_txCount : Z;
  seg_txTime : Z;     (* microseconds since the Unix epoch *)
  seg_txTimeout : Z;  (* nanoseconds *)
  seg_block : option aeadBlockCipher
}.

Definition seg_Protocol (s : segment) : Z := Protocol (seg_metadata s).
(** [metadata] has two implementations, so the [ErrUnsupported] branches of
    these methods are not reachable. *)
Definition seg_SessionID (s : segment) : Z :=
  match seg_metadata s with MDataAck das => das_sessionID das | MSession ss => ss_sessionID ss end.
Definition Seq (s : segment) : Z :=
  match seg_metadata s with MDataAck das => das_seq das | MSession ss => ss_seq ss end.
Definition Fragment (s : segment) : Z :=
  match seg_metadata s with MDataAck das => das_fragment das | MSession _ => 0 end.
Definition Less (s other : segment) : bool := Seq s <? Seq other.

(** ** The B-tree *)

(** Inserting into an ordered list, replacing an equal element. *)
Fixpoint insertOrdered (s : segment) (l : list segment) : list segment :=
  match l with
  | [] => [s]
  | x :: l' =>
    if Less s x then s :: l
    else if Less x s then x :: insertOrdered s l'
    else s :: l'
  end.
Definition findEqual (s : segment) (l : list segment) : option segment :=
  List.find (λ x, negb (Less s x) && negb (Less x s)) l.

Definition seq_lt (a b : segment) : Prop := Seq a < Seq b.
Definition ordered (l : list segment) : Prop := StronglySorted seq_lt l.

Class BTree := {
  tree : Type;
  tr_New : tree;                                    (* btree.NewG(4, segmentLessFunc) *)
  tr_Items : tree → list segment;                   (* the order of Ascend *)
  tr_Len : tree → Z;
  tr_ReplaceOrInsert : segment → tree → option segment * tree;
  tr_DeleteMin : tree → option segment * tree;
  tr_Min : tree → option segment;
  tr_Max : tree → option segment;
  tr_Clear : tree → tree;
  tr_Update : list segment → tree → tree            (* the segments its pointers lead to, changed in place *)
}.
Class BTreeLaws (B : BTree) : Prop := {
  items_New : tr_Items tr_New = [];
  tr_Len_items t : tr_Len t = len (tr_Items t);
  items_ReplaceOrInsert s t :
    ordered (tr_Items t) →
    (tr_ReplaceOrInsert s t).1 = findEqual s (tr_Items t) ∧
    tr_Items (tr_ReplaceOrInsert s t).2 = insertOrdered s (tr_Items t);
  items_DeleteMin t :
    ordered (tr_Items t) →
    (tr_DeleteMin t).1 = head (tr_Items t) ∧ tr_Items (tr_DeleteMin t).2 = tail (tr_Items t);
  tr_Min_items t : ordered (tr_Items t) → tr_Min t = head (tr_Items t);
  tr_Max_items t : ordered (tr_Items t) → tr_Max t = last (tr_Items t);
  items_Clear t : tr_Items (tr_Clear t) = [];
  items_Update l t : Seq <$> l = Seq <$> tr_Items t → tr_Items (tr_Update l t) = l
}.

Section segment_tree.
Context `{B : BTree}.

(** [chanEmptyEvent] and [chanNotEmptyEvent] have capacity one and are written
    without blocking: a flag each. *)
Record segmentTree := mkTree {
  tr : tree;
  cap : Z;
  chanEmptyEvent : bool;
  chanNotEmptyEvent : bool
}.
Definition notifyEmpty (t : segmentTree) : segmentTree := mkTree (tr t) (cap t) true (chanNotEmptyEvent t).
Definition notifyNotEmpty (t : segmentTree) : segmentTree := mkTree (tr t) (cap t) (chanEmptyEvent t) true.
Definition with_tr (x : tree) (t : segmentTree) : segmentTree :=
  mkTree x (cap t) (chanEmptyEvent t) (chanNotEmptyEvent t).

Definition newSegmentTree (capacity : Z) : result segmentTree :=
  if capacity <=? 0 then Panic "segment tree capacity is <= 0"
  else Ok (mkTree tr_New capacity false false).

Definition checkProtocolType (seg : segment) : bool :=
  isSessionProtocol (seg_Protocol seg) || isDataProtocol (seg_Protocol seg).

Definition Insert (seg : segment) (t : segmentTree) : result (bool * segmentTree) :=
  if negb (checkProtocolType seg) then Panic "Inserting segment with unsupported type" else
  if tr_Len (tr t) >=? cap t then Ok (false, notifyNotEmpty t) else
  let '(prev, x) := tr_ReplaceOrInsert seg (tr t) in
  let t := with_tr x t in
  match prev with
  | Some _ => Ok (true, t)
  | None => Ok (true, notifyNotEmpty t)
  end.

Definition notifyLen (t : segmentTree) : segmentTree :=
  if tr_Len (tr t) >? 0 then notifyNotEmpty t else notifyEmpty t.

Definition DeleteMin (t : segmentTree) : result (option segment * segmentTree) :=
  if tr_Len (tr t) =? 0 then Ok (None, t) else
  match tr_DeleteMin (tr t) with
  | (None, _) => Panic "segmentTree.DeleteMin() is called when the tree is empty"
  | (Some seg, x) => Ok (Some seg, notifyLen (with_tr x t))
  end.

(** The segment comes back with whether it was deleted. *)
Definition DeleteMinIf (si : segment → bool) (t : segmentTree) : result (option segment * bool * segmentTree) :=
  if tr_Len (tr t) =? 0 then Ok (None, false, t) else
  match tr_Min (tr t) with
  | None => Panic "segmentTree.Min() is called when the tree is empty"
  | Some seg =>
    if si seg then
      match tr_DeleteMin (tr t) with
      | (None, _) => Panic "segmentTree.DeleteMin() is called when the tree is empty"
      | (Some seg, x) => Ok (Some seg, true, notifyLen (with_tr x t))
      end
    else Ok (Some seg, false, notifyLen t)
  end.

Definition DeleteAll (t : segmentTree) : segmentTree := notifyEmpty (with_tr (tr_Clear (tr t)) t).

(** [Ascend] folds an iterator that keeps state in its closure and stops when
    it returns false. *)
Fixpoint ascendItems {S} (si : segment → S → bool * S) (l : list segment) (s : S) : S :=
  match l with
  | [] => s
  | x :: l => let '(continue, s) := si x s in if continue then ascendItems si l s else s
  end.
Definition Ascend {S} (si : segment → S → bool * S) (t : segmentTree) (s : S) : S :=
  ascendItems si (tr_Items (tr t)) s.

(** The effect of an iterator of [Ascend] that changes the segments it visits:
    the tree then leads to the segments [l]. *)
Definition Update (l : list segment) (t : segmentTree) : segmentTree := with_tr (tr_Update l (tr t)) t.

Definition MinSeq (t : segmentTree) : result Z :=
  match tr_Min (tr t) with None => Err ErrEmpty | Some seg => Ok (Seq seg) end.
Definition MaxSeq (t : segmentTree) : result Z :=
  match tr_Max (tr t) with None => Err ErrEmpty | Some seg => Ok (Seq seg) end.
Definition Len (t : segmentTree) : Z := tr_Len (tr t).
Definition Remaining (t : segmentTree) : Z := cap t - tr_Len (tr t).

(** ** The invariant *)

Definition items (t : segmentTree) : list segment := tr_Items (tr t).
Definition tree_inv (t : segmentTree) : Prop := ordered (items t) ∧ 0 < cap t ∧ len (items t) <= cap t.
End segment_tree.

(** ** Ordered lists *)

Lemma ordered_cons s l : ordered (s :: l) ↔ ordered l ∧ ∀ x, x ∈ l → Seq s < Seq x.
Proof.
  unfold ordered. split.
  - intros H. apply StronglySorted_inv in H as [H1 H2]. rewrite Forall_forall in H2. done.
  - intros [H1 H2]. constructor; [done|]. by apply Forall_forall.
Qed.

Lemma elem_of_insertOrdered s l x :
  ordered l → x ∈ insertOrdered s l ↔ x = s ∨ (x ∈ l ∧ Seq x ≠ Seq s).
Proof.
  induction l as [|y l IH]; intros Ho; cbn [insertOrdered].
  { rewrite list_elem_of_singleton, elem_of_nil. tauto. }
  apply ordered_cons in Ho as [Ho Hy]. unfold Less.
  destruct (Z.ltb_spec (Seq s) (Seq y)) as [Hlt|Hge]; [|destruct (Z.ltb_spec (Seq y) (Seq s)) as [Hgt|Heq]].
  - rewrite elem_of_cons. split; [intros [->|Hx]; [by left|right; split; [done|]]|intros [->|[Hx _]]; auto].
    apply elem_of_cons in Hx as [->|Hx]; [lia|]. specialize (Hy _ Hx). lia.
  - rewrite !elem_of_cons, IH by done.
    split; [intros [->|[->|[? ?]]]|intros [->|[[->|?] ?]]]; auto. right. split; [by left|lia].
  - rewrite !elem_of_cons. assert (Seq s = Seq y) as E by lia.
    split; [intros [->|Hx]|intros [->|[[->|?] ?]]]; auto; [|congruence].
    right. split; [by right|]. specialize (Hy _ Hx). lia.
Qed.

Lemma ordered_insertOrdered s l : ordered l → ordered (insertOrdered s l).
Proof.
  induction l as [|y l IH]; intros Ho; cbn [insertOrdered].
  - apply ordered_cons. split; [done|]. intros x Hx. by apply elem_of_nil in Hx.
  - pose proof Ho as Ho'. apply ordered_cons in Ho as [Ho Hy]. unfold Less.
    destruct (Z.ltb_spec (Seq s) (Seq y)) as [Hlt|Hge]; [|destruct (Z.ltb_spec (Seq y) (Seq s)) as [Hgt|Heq]].
    + apply ordered_cons. split; [done|]. intros x [->|Hx]%elem_of_cons; [done|]. specialize (Hy _ Hx). lia.
    + apply ordered_cons. split; [by apply IH|]. intros x [->|[Hx _]]%elem_of_insertOrdered; auto.
    + apply ordered_cons. split; [done|]. intros x Hx. specialize (Hy _ Hx). lia.
Qed.

Lemma length_insertOrdered s l : (length (insertOrdered s l) <= S (length l))%nat.
Proof. induction l as [|y l IH]; cbn [insertOrdered]; [done|]. repeat case_match; simpl; lia. Qed.

Lemma ordered_tail l : ordered l → ordered (tail l).
Proof. destruct l; [done|]. by intros [? _]%ordered_cons. Qed.

Lemma ordered_same_seq l k : Seq <$> l = Seq <$> k → ordered k → ordered l.
Proof.
  revert k. induction l as [|x l IH]; intros [|y k] E Ho; try done. injection E as E1 E2. change (Seq <$> l = Seq <$> k) in E2.
  apply ordered_cons in Ho as [Ho Hy]. apply ordered_cons. split; [by eapply IH|].
  intros z Hz. rewrite E1. apply (list_elem_of_fmap_2 Seq) in Hz. rewrite E2 in Hz.
  apply list_elem_of_fmap in Hz as (z' & -> & Hz'). auto.
Qed.

Lemma ordered_seq_inj l x y : ordered l → x ∈ l → y ∈ l → Seq x = Seq y → x = y.
Proof.
  induction l as [|z l IH]; intros Ho Hx Hy E; [by apply elem_of_nil in Hx|]. apply ordered_cons in Ho as [Ho Hz].
  apply elem_of_cons in Hx, Hy. destruct Hx as [->|Hx], Hy as [->|Hy]; [done| | |auto].
  - specialize (Hz _ Hy). lia.
  - specialize (Hz _ Hx). lia.
Qed.

(** ** The abstract view: a finite map by sequence number *)

Definition map_of (l : list segment) : gmap Z segment := list_to_map ((λ s, (Seq s, s)) <$> l).

Lemma lookup_map_of l k x : ordered l → map_of l !! k = Some x ↔ x ∈ l ∧ Seq x = k.
Proof.
  intros Ho. unfold map_of. rewrite <-elem_of_list_to_map.
  - rewrite list_elem_of_fmap. split; [intros (y & [= -> ->] & ?); done|intros [? <-]; by exists x].
  - rewrite <-list_fmap_compose. induction l as [|y l IH]; [constructor|]. apply ordered_cons in Ho as [Ho Hy].
    constructor; [|by apply IH]. intros (z & E & Hz)%list_elem_of_fmap. simpl in E. specialize (Hy _ Hz). lia.
Qed.

Lemma map_of_insert s l : ordered l → map_of (insertOrdered s l) = <[Seq s:=s]> (map_of l).
Proof.
  intros Ho. apply map_eq. intros k. apply option_eq. intros x.
  rewrite lookup_map_of, elem_of_insertOrdered, lookup_insert_Some, lookup_map_of by auto using ordered_insertOrdered.
  split.
  - intros [[->|[Hx Hn]] <-]; [by left|]. right. split; [congruence|done].
  - intros [[<- <-]|(Hn & Hx & <-)]; [auto|]. split; [right; split; [done|congruence]|done].
Qed.

Lemma map_of_tail s l : ordered (s :: l) → map_of l = delete (Seq s) (map_of (s :: l)).
Proof.
  intros Ho. pose proof Ho as [Ho' Hs]%ordered_cons. apply map_eq. intros k. apply option_eq. intros x.
  rewrite lookup_delete_Some, !lookup_map_of, elem_of_cons by done. split.
  - intros [Hx <-]. specialize (Hs _ Hx). split; [lia|auto].
  - intros (Hk & [->|Hx] & <-); [done|auto].
Qed.

Lemma size_map_of l : ordered l → size (map_of l) = length l.
Proof.
  induction l as [|s l IH]; intros Ho; [done|]. pose proof Ho as [Ho' Hs]%ordered_cons.
  change (map_of (s :: l)) with (<[Seq s:=s]> (map_of l)). rewrite map_size_insert_None; [by rewrite IH|].
  apply eq_None_not_Some. intros [x [Hx E]%lookup_map_of]; [|done]. specialize (Hs _ Hx). lia.
Qed.

Section tree_theorems.
Context `{BL : BTreeLaws}.

Lemma tree_inv_notify t : tree_inv (notifyLen t) ↔ tree_inv t.
Proof. unfold notifyLen. by case_match. Qed.
Lemma items_notifyLen t : items (notifyLen t) = items t.
Proof. unfold notifyLen. by case_match. Qed.
Lemma cap_notifyLen t : cap (notifyLen t) = cap t.
Proof. unfold notifyLen. by case_match. Qed.

Lemma newSegmentTree_spec n :
  0 < n → ∃ t, newSegmentTree n = Ok t ∧ items t = [] ∧ cap t = n ∧ tree_inv t.
Proof using BL.
  intros Hn. unfold newSegmentTree. destruct (Z.leb_spec n 0); [lia|]. eexists. split_and!; [done|apply items_New|done|].
  unfold tree_inv, items. cbn [tr cap]. rewrite items_New. split_and!; [constructor|done|unfold len; simpl; lia].
Qed.

(** Insert, in terms of the items. *)
Lemma Insert_spec seg t :
  tree_inv t → checkProtocolType seg = true →
  ∃ ok t', Insert seg t = Ok (ok, t') ∧ tree_inv t' ∧ cap t' = cap t ∧
    if decide (len (items t) >= cap t) then ok = false ∧ items t' = items t
    else ok = true ∧ items t' = insertOrdered seg (items t).
Proof using BL.
  intros (Ho & Hc & Hl) Hp. unfold Insert. rewrite Hp, tr_Len_items, Z.geb_leb. cbn [negb]. fold (items t).
  destruct (Z.leb_spec (cap t) (len (items t))).
  { eexists _, _. split_and!; [done| | |]; [done..|]. rewrite decide_True by lia. done. }
  pose proof (items_ReplaceOrInsert seg (tr t) Ho) as [_ Hi].
  destruct (tr_ReplaceOrInsert seg (tr t)) as [prev x]. simpl in Hi.
  pose proof (length_insertOrdered seg (items t)).
  assert (tree_inv (with_tr x t)) as Hinv.
  { split_and!; [unfold items; simpl; rewrite Hi; by apply ordered_insertOrdered|done|].
    unfold items at 1. simpl. rewrite Hi. unfold len in *. fold (items t). lia. }
  destruct prev; (eexists _, _; split_and!; [done|done|done|]; rewrite decide_False by lia; done).
Qed.

Lemma DeleteMinIf_spec si t :
  tree_inv t →
  match items t with
  | [] => DeleteMinIf si t = Ok (None, false, t)
  | s :: l => ∃ t', DeleteMinIf si t = Ok (Some s, si s, t') ∧ tree_inv t' ∧ cap t' = cap t ∧
                items t' = if si s then l else s :: l
  end.
Proof using BL.
  intros (Ho & Hc & Hl). unfold DeleteMinIf. rewrite tr_Len_items, tr_Min_items by done.
  pose proof (items_DeleteMin (tr t) Ho) as [Hd Hi]. unfold items in *.
  destruct (tr_Items (tr t)) as [|s l] eqn:E; [done|]. rewrite len_cons in *. pose proof (len_nonneg l).
  destruct (Z.eqb_spec (1 + len l) 0); [lia|]. simpl. destruct (si s).
  - destruct (tr_DeleteMin (tr t)) as [m x]. simpl in Hd, Hi. subst m. eexists. split; [done|].
    rewrite tree_inv_notify, cap_notifyLen. fold (items (notifyLen (with_tr x t))). rewrite items_notifyLen.
    unfold tree_inv, items. simpl. rewrite Hi. apply ordered_cons in Ho as [Ho _]. split_and!; [done|done|lia|done|done].
  - eexists. split; [done|]. rewrite tree_inv_notify, cap_notifyLen. fold (items (notifyLen t)). rewrite items_notifyLen.
    unfold tree_inv, items. rewrite E, len_cons. done.
Qed.

Lemma DeleteMin_spec t :
  tree_inv t →
  match items t with
  | [] => DeleteMin t = Ok (None, t)
  | s :: l => ∃ t', DeleteMin t = Ok (Some s, t') ∧ tree_inv t' ∧ cap t' = cap t ∧ items t' = l
  end.
Proof using BL.
  intros Hinv. pose proof (DeleteMinIf_spec (λ _, true) t Hinv) as H. destruct Hinv as (Ho & Hc & Hl).
  unfold DeleteMin, DeleteMinIf in *. rewrite tr_Len_items, tr_Min_items in * by done. unfold items in *.
  destruct (tr_Items (tr t)) as [|s l] eqn:E; [done|]. rewrite len_cons in *. pose proof (len_nonneg l).
  destruct (Z.eqb_spec (1 + len l) 0); [lia|]. simpl in H. destruct H as (t' & H & H').
  destruct (tr_DeleteMin (tr t)) as [[s'|] x]; [|done]. injection H as -> <-. by eexists.
Qed.

Lemma Update_spec l t :
  Seq <$> l = Seq <$> items t → tree_inv t →
  tree_inv (Update l t) ∧ items (Update l t) = l ∧ cap (Update l t) = cap t.
Proof using BL.
  intros Hl (Ho & Hc & Hle). unfold tree_inv, items, Update, with_tr in *. cbn [tr cap]. rewrite items_Update by done.
  split_and!; [by eapply ordered_same_seq|done| |done|done].
  apply (f_equal length) in Hl. rewrite !length_fmap in Hl. unfold len in *. lia.
Qed.

Lemma DeleteAll_spec t : tree_inv t → tree_inv (DeleteAll t) ∧ items (DeleteAll t) = [].
Proof using BL.
  intros (Ho & Hc & Hl). unfold tree_inv, items, DeleteAll, notifyEmpty, with_tr. simpl. rewrite items_Clear.
  split_and!; [constructor|done|unfold len; simpl; lia|done].
Qed.

Lemma Remaining_items t : Remaining t = cap t - len (items t).
Proof using BL. unfold Remaining, items. by rewrite tr_Len_items. Qed.
Lemma Len_items t : Len t = len (items t).
Proof using BL. apply tr_Len_items. Qed.
Lemma MinSeq_items t : ordered (items t) → MinSeq t = match items t with [] => Err ErrEmpty | s :: _ => Ok (Seq s) end.
Proof using BL. intros Ho. unfold MinSeq. rewrite tr_Min_items by done. unfold items. by destruct (tr_Items (tr t)). Qed.

(** C33. The segment tree refines a bounded finite map from sequence numbers to
    segments and keeps its invariant (strictly ascending, never above
    capacity): [Insert] adds or replaces, and refuses exactly when the map is
    full; [DeleteMinIf] gives the segment of the smallest sequence number and
    removes it iff the iterator says so; [DeleteAll] empties the map; none of
    them panics on a session or data segment. *)
Theorem segmentTree_refines_map (t : segmentTree) :
  tree_inv t →
  (∀ seg, checkProtocolType seg = true → ∃ ok t', Insert seg t = Ok (ok, t') ∧ tree_inv t' ∧
     (Z.of_nat (size (map_of (items t))) < cap t → ok = true ∧ map_of (items t') = <[Seq seg:=seg]> (map_of (items t))) ∧
     (Z.of_nat (size (map_of (items t))) = cap t → ok = false ∧ map_of (items t') = map_of (items t))) ∧
  (∀ si, map_of (items t) = ∅ → DeleteMinIf si t = Ok (None, false, t)) ∧
  (∀ si, map_of (items t) ≠ ∅ → ∃ s t', DeleteMinIf si t = Ok (Some s, si s, t') ∧ tree_inv t' ∧
     map_of (items t) !! Seq s = Some s ∧ (∀ k x, map_of (items t) !! k = Some x → Seq s <= k) ∧
     map_of (items t') = if si s then delete (Seq s) (map_of (items t)) else map_of (items t)) ∧
  tree_inv (DeleteAll t) ∧ map_of (items (DeleteAll t)) = ∅.
Proof using BL.
  intros Hinv. pose proof Hinv as (Ho & Hc & Hl). split_and!.
  - intros seg Hp. destruct (Insert_spec seg t Hinv Hp) as (ok & t' & HI & Hinv' & _ & Hd).
    exists ok, t'. rewrite size_map_of by done. fold (len (items t)).
    split_and!; [done|done| |]; intros; [rewrite decide_False in Hd by lia|rewrite decide_True in Hd by lia].
    + destruct Hd as [-> ->]. split; [done|by apply map_of_insert].
    + destruct Hd as [-> ->]. done.
  - intros si Hm. pose proof (DeleteMinIf_spec si t Hinv) as H. destruct (items t) as [|s l]; [done|].
    assert (map_of (s :: l) !! Seq s = Some s) as Hs by (apply lookup_map_of; [done|]; split; [left|done]).
    by rewrite Hm in Hs.
  - intros si Hm. pose proof (DeleteMinIf_spec si t Hinv) as H. destruct (items t) as [|s l]; [done|].
    destruct H as (t' & HD & Hinv' & _ & Hi). exists s, t'. split_and!; [done|done| | |].
    + apply lookup_map_of; [done|]. split; [left|done].
    + intros k x [[->|Hx]%elem_of_cons <-]%lookup_map_of; [lia| |done].
      apply ordered_cons in Ho as [_ Hs]. specialize (Hs _ Hx). lia.
    + rewrite Hi. destruct (si s); [by apply map_of_tail|done].
  - by apply DeleteAll_spec.
  - by rewrite (proj2 (DeleteAll_spec t Hinv)).
Qed.
End tree_theorems.

(** ** An instance: the ordered list *)
#[local] Instance listTree : BTree := {|
  tree := list segment;
  tr_New := [];
  tr_Items l := l;
  tr_Len := len;
  tr_ReplaceOrInsert s l := (findEqual s l, insertOrdered s l);
  tr_DeleteMin l := (head l, tail l);
  tr_Min := head;
  tr_Max := last;
  tr_Clear _ := [];
  tr_Update l _ := l
|}.
#[local] Instance listTree_laws : BTreeLaws listTree.
Proof. by split. Qed.

Definition example_segment (seq : Z) : segment :=
  mkSegment (MDataAck (mkDataAck (mkBase dataClientToServer 0) 0 1 seq 0 0 0 0 0 0 0 0 0)) [seq] PacketTransport 0 0 0 0 None.
Definition example_tree : segmentTree (B:=listTree) :=
  mkTree (B:=listTree) [example_segment 3; example_segment 9] 3 false false.
Lemma segmentTree_refines_map_witness :
  ∃ ok t', Insert (example_segment 5) example_tree = Ok (ok, t') ∧
    ok = true ∧ map_of (items t') = <[5:=example_segment 5]> (map_of [example_segment 3; example_segment 9]).
Proof.
  destruct (segmentTree_refines_map example_tree) as [HI _].
  { split_and!; [|done|vm_compute; congruence]. repeat constructor. }
  destruct (HI (example_segment 5) eq_refl) as (ok & t' & HI' & _ & Hok & _). exists ok, t'.
  split; [done|]. apply Hok. done.
Defined.

(** ** Fragment sizes *)

Lemma chunkCount_le spc n cc : 0 < spc → n <= cc * spc → chunkCount spc n <= cc.
Proof.
  intros Hs Hn. unfold chunkCount. apply Z.lt_succ_r, Z.div_lt_upper_bound; lia.
Qed.

Lemma chunkCount_covers spc n : 0 < spc → n <= chunkCount spc n * spc.
Proof.
  intros Hs. unfold chunkCount. pose proof (Z.div_mod (n + spc - 1) spc ltac:(lia)).
  pose proof (Z.mod_pos_bound (n + spc - 1) spc ltac:(lia)). lia.
Qed.

(** Fragment sizes: for every low entropy mode, every fragment of at most
    [maxFragmentSize] bytes has an encoding that fits the 16-bit length field
    and the 32 KiB limit of the receiver, and in a packet the encoding, both
    tags, nonce and metadata fit the MTU. *)
Theorem maxFragmentSize_fits (mtu : Z) (transport : TransportProtocol) (mode n k : Z) :
  maxFragmentSize mtu transport mode = Ok n → mode ≠ LOW_ENTROPY_MODE_OFF →
  transport ≠ UnknownTransport → mtu <= maxPDU → 0 < k <= n →
  ∃ e, lowEntropyEncodedPayloadLen k mode = Ok e ∧ k <= maxPDU ∧ k <= e ∧
    (transport = PacketTransport → packetOverhead + e <= mtu).
Proof.
  intros Hf Hm Ht Hmtu Hk. unfold maxFragmentSize in Hf.
  destruct (Z.eqb_spec mode LOW_ENTROPY_MODE_OFF) as [|_]; [done|].
  destruct (buildLowEntropyParams mode) as [params|er|ms] eqn:Hb; [rewrite bind_Ok in Hf|done..].
  pose proof (buildLowEntropyParams_inv _ _ Hb) as [Hs _]. set (spc := sourceBytesPerChunk params) in *.
  rewrite (encodedPayloadLen_spec _ _ _ Hb). fold spc. destruct (Z.leb_spec k 0); [lia|].
  assert (∃ cc, n <= cc * spc ∧ cc <= 8191 ∧ n <= maxPDU ∧ (transport = PacketTransport → packetOverhead + 8 * cc <= mtu))
    as (cc & Hn & Hcc & Hpdu & Hpk).
  { destruct transport; [done| |].
    - injection Hf as <-. rewrite Min_spec. change (MaxUint16 `quot` lowEntropyChunkLen) with 8191.
      exists 8191. split_and!; [lia|lia| |done]. unfold maxFragmentSizeInternal. rewrite decide_True by done. lia.
    - destruct (Z.leb_spec ((mtu - packetOverhead) `quot` lowEntropyChunkLen) 0) as [|Hq]; [done|]. injection Hf as <-.
      exists ((mtu - packetOverhead) `quot` lowEntropyChunkLen).
      assert (0 <= mtu - packetOverhead).
      { destruct (Z.lt_ge_cases (mtu - packetOverhead) 0) as [Hneg|]; [|lia]. exfalso.
        assert ((mtu - packetOverhead) `quot` lowEntropyChunkLen <= 0); [|lia].
        rewrite <-(Z.opp_involutive (mtu - packetOverhead)), Z.quot_opp_l by done.
        pose proof (Z.quot_pos (- (mtu - packetOverhead)) lowEntropyChunkLen ltac:(lia) ltac:(done)). lia. }
      rewrite Z.quot_div_nonneg in * by done.
      pose proof (Z.mul_div_le (mtu - packetOverhead) lowEntropyChunkLen ltac:(done)) as Hd.
      set (q := (mtu - packetOverhead) / lowEntropyChunkLen) in *.
      unfold lowEntropyChunkLen, packetOverhead, DefaultNonceSize, MetadataLength, DefaultOverhead, maxPDU in *.
      split_and!; [lia|lia|nia|intros; lia]. }
  pose proof (chunkCount_le spc k cc ltac:(lia) ltac:(lia)).
  destruct (Z.gtb_spec (chunkCount spc k) 8191); [lia|]. eexists. split_and!; [done|lia| |intros E; specialize (Hpk E); lia].
  pose proof (chunkCount_covers spc k ltac:(lia)). nia.
Qed.
Lemma maxFragmentSize_fits_witness :
  ∃ e, lowEntropyEncodedPayloadLen 656 LOW_ENTROPY_MODE_32 = Ok e ∧ 656 <= maxPDU ∧ 656 <= e ∧
    (PacketTransport = PacketTransport → packetOverhead + e <= 1400).
Proof.
  apply (maxFragmentSize_fits 1400 PacketTransport LOW_ENTROPY_MODE_32 656 656); [done|done|done|vm_compute; congruence|lia].
Defined.
