(* ===== verification/Underlay.v ===== *)
(** * pkg/protocol/underlay_base.go: what both underlays share

    The low entropy form of an encrypted payload (the ciphertext body is encoded,
    the AEAD tag is kept), the preparation of its metadata, and the checks of the
    segments that may reach a server.

    Theorems: the low entropy form decodes to the same ciphertext; what the
    preparation accepts, the receiver's validation accepts. *)
From S2P Require Import Prelude MathExt Messages LowEntropy Metadata GoStd Ascii Cipher Rng Segment.

Definition sessionChanCapacity : Z := 64.
Definition sessionCleanInterval : Z := 5 * Second.

(** [das] is never nil. *)
Definition encodeLowEntropyEncryptedPayload (lowEntropyPaddingBit : Z) (encryptedPayload : list Z) (das : dataAckStruct)
    : result (list Z) :=
  let extractedPayloadLen := das_extractedPayloadLen das in
  let expectedEncryptedLen := extractedPayloadLen + DefaultOverhead in
  if negb (len encryptedPayload =? expectedEncryptedLen) then Err (Errorf "encrypted payload length") else
  encodedBody ← encodeLowEntropyPayload lowEntropyPaddingBit (slice_to extractedPayloadLen encryptedPayload)
                  (das_lowEntropyMode das) (das_lowEntropyMask das) (das_lowEntropyMaskRotation das);
  if negb (len encodedBody =? das_payloadLen das) then Err (Errorf "encoded payload length") else
  Ok (encodedBody ++ slice_from extractedPayloadLen encryptedPayload).

Definition decodeLowEntropyEncryptedPayload (encryptedPayload : list Z) (das : dataAckStruct) : result (list Z) :=
  _ ← validateLowEntropyDataAckMetadata das;
  let wirePayloadLen := das_payloadLen das + DefaultOverhead in
  if negb (len encryptedPayload =? wirePayloadLen) then Err (Errorf "low entropy encrypted payload length") else
  decodedBody ← decodeLowEntropyPayload (slice_to (das_payloadLen das) encryptedPayload) (das_extractedPayloadLen das)
                  (das_lowEntropyMode das) (das_lowEntropyMask das) (das_lowEntropyMaskRotation das);
  Ok (decodedBody ++ slice_from (das_payloadLen das) encryptedPayload).

Definition with_mask (mask : Z) (das : dataAckStruct) : dataAckStruct :=
  mkDataAck (das_base das) (das_lowEntropyMode das) (das_sessionID das) (das_seq das) (das_unAckSeq das) (das_windowSize das)
    (das_fragment das) (das_prefixLen das) (das_payloadLen das) (das_suffixLen das) mask (das_extractedPayloadLen das)
    (das_lowEntropyMaskRotation das).

(** The struct is changed in place: its new value comes with every outcome. *)
Definition prepareLowEntropyDataAckForSend (draw : nat → Z) (das : dataAckStruct) (plaintextPayloadLen : Z)
    : dataAckStruct * result unit :=
  if negb (isLowEntropyProtocol (das_Protocol das)) then (das, Err (Errorf "protocol is not low entropy data")) else
  if negb (plaintextPayloadLen =? das_extractedPayloadLen das) then (das, Err (Errorf "plaintext payload length")) else
  match lowEntropyEncodedPayloadLen plaintextPayloadLen (das_lowEntropyMode das) with
  | Err e => (das, Err e)
  | Panic m => (das, Panic m)
  | Ok expectedPayloadLen =>
    if negb (das_payloadLen das =? expectedPayloadLen) then (das, Err (Errorf "low entropy payload length")) else
    if negb (isValidLowEntropyRotation (das_lowEntropyMaskRotation das)) then (das, Err (Errorf "invalid low entropy mask rotation")) else
    match newLowEntropyHalfMask draw (das_lowEntropyMode das) with
    | Ok mask => let das := with_mask mask das in (das, validateLowEntropyDataAckMetadata das)
    | Err e => (with_mask 0 das, Err e)
    | Panic m => (das, Panic m)
    end
  end.

(** A segment without metadata does not exist here. *)
Definition validateNewServerSessionSegment (seg : segment) : result unit :=
  match seg_metadata seg with
  | MSession ss =>
    if negb (ss_Protocol ss =? openSessionRequest) then Err (Errorf "protocol can't create a server session")
    else if ss_sessionID ss =? 0 then Err (Errorf "reserved session ID is used")
    else Ok tt
  | MDataAck _ => Err (Errorf "protocol can't create a server session")
  end.

Definition validateServerSegmentDirection (seg : segment) : result unit :=
  let p := seg_Protocol seg in
  if (p =? openSessionRequest) || (p =? closeSessionRequest) || (p =? closeSessionResponse) || (p =? dataClientToServer)
     || (p =? dataClientToServerLowEntropy) || (p =? ackClientToServer)
  then Ok tt else Err (Errorf "protocol has the wrong direction for a server").

(** ** Preparing *)

Definition with_mask_fields m das :
  das_base (with_mask m das) = das_base das ∧ das_lowEntropyMask (with_mask m das) = m := conj eq_refl eq_refl.

(** What a successful preparation leaves: a struct that differs in its mask only. *)
Lemma prepare_inv draw das n das' :
  draws_in_range draw → prepareLowEntropyDataAckForSend draw das n = (das', Ok tt) →
  ∃ m params, das' = with_mask m das ∧ is_u32 m ∧ n = das_extractedPayloadLen das ∧ 0 < n ∧
    validateLowEntropyDataAckMetadata das' = Ok tt ∧
    validateLowEntropyCodecParams (das_lowEntropyMode das) m (das_lowEntropyMaskRotation das) = Ok params ∧
    das_payloadLen das = 8 * chunkCount (sourceBytesPerChunk params) n ∧ das_payloadLen das <= MaxUint16.
Proof.
  intros Hd. unfold prepareLowEntropyDataAckForSend. destruct (isLowEntropyProtocol _); [|done]. cbn [negb].
  destruct (Z.eqb_spec n (das_extractedPayloadLen das)) as [->|]; [|done]. cbn [negb].
  destruct (lowEntropyEncodedPayloadLen _ _) as [el|e|p] eqn:El; [|done..].
  destruct (Z.eqb_spec (das_payloadLen das) el) as [Ep|]; [|done]. cbn [negb].
  destruct (isValidLowEntropyRotation _) eqn:Er; [|done]. cbn [negb].
  pose proof (newLowEntropyHalfMask_spec draw (das_lowEntropyMode das) _ Hd Er) as Hm.
  destruct (buildLowEntropyParams (das_lowEntropyMode das)) as [params|e|p] eqn:Hb; [|by rewrite Hm|done].
  destruct Hm as (m & -> & Hu & Hv). intros [= <- Hval]. exists m, params.
  rewrite (encodedPayloadLen_spec _ _ _ Hb) in El. destruct (Z.leb_spec (das_extractedPayloadLen das) 0); [done|].
  destruct (Z.gtb_spec (chunkCount (sourceBytesPerChunk params) (das_extractedPayloadLen das)) 8191); [done|].
  injection El as El. unfold MaxUint16. split_and!; try done; lia.
Qed.

Section roundtrip.
Context (paddingBit : Z) (Hpad : paddingBit = 0 ∨ paddingBit = 1).

(** A validated struct with a body encodes any ciphertext of the matching length,
    and the decoder gives it back. *)
Lemma encrypted_payload_roundtrip das ct params :
  validateLowEntropyDataAckMetadata das = Ok tt → 0 < das_extractedPayloadLen das →
  validateLowEntropyCodecParams (das_lowEntropyMode das) (das_lowEntropyMask das) (das_lowEntropyMaskRotation das) = Ok params →
  das_payloadLen das = 8 * chunkCount (sourceBytesPerChunk params) (das_extractedPayloadLen das) →
  das_payloadLen das <= MaxUint16 → is_u32 (das_lowEntropyMask das) → bytes_ok ct →
  len ct = das_extractedPayloadLen das + DefaultOverhead →
  ∃ wire, encodeLowEntropyEncryptedPayload paddingBit ct das = Ok wire ∧ len wire = das_payloadLen das + DefaultOverhead ∧
    decodeLowEntropyEncryptedPayload wire das = Ok ct.
Proof using Hpad.
  intros Hval Hext Hv Hpl Hmax Hm Hb Hl. pose proof (len_nonneg ct) as Hct. unfold DefaultOverhead in *.
  assert (len (slice_to (das_extractedPayloadLen das) ct) = das_extractedPayloadLen das) as Hbody by (apply len_slice_to; lia).
  assert (len (slice_from (das_extractedPayloadLen das) ct) = 16) as Htag by (rewrite len_slice_from; lia).
  destruct (encode_decode (slice_to (das_extractedPayloadLen das) ct) (das_lowEntropyMode das) (das_lowEntropyMask das)
    (das_lowEntropyMaskRotation das) paddingBit params) as (encoded & He & Hle & Hd);
    [done|done|unfold slice_to; auto with mieru|lia|by rewrite Hbody, <-Hpl|done|].
  rewrite Hbody, <-Hpl in Hle. rewrite Hbody in Hd.
  exists (encoded ++ slice_from (das_extractedPayloadLen das) ct).
  unfold encodeLowEntropyEncryptedPayload, decodeLowEntropyEncryptedPayload, encodeLowEntropyPayload, DefaultOverhead.
  rewrite Hl, Z.eqb_refl. cbn [negb]. rewrite He, bind_Ok, Hle, Z.eqb_refl. cbn [negb].
  split; [done|]. rewrite Hval, bind_Ok, len_app, Hle, Htag, Z.eqb_refl. cbn [negb]. split; [done|].
  rewrite slice_to_app, slice_from_app by done. by rewrite Hd, bind_Ok, slice_to_from.
Qed.
End roundtrip.

(** The low entropy form of an encrypted payload: after a successful
    preparation with any random draws, every ciphertext of the announced body
    length is encoded to exactly the announced wire length plus the tag, the
    receiver's validation accepts the struct, and the receiver gets the
    ciphertext back, tag included, for either padding polarity. *)
Theorem prepared_payload_roundtrip (draw : nat → Z) (paddingBit n : Z) (das das' : dataAckStruct) (ct : list Z) :
  draws_in_range draw → (paddingBit = 0 ∨ paddingBit = 1) →
  prepareLowEntropyDataAckForSend draw das n = (das', Ok tt) →
  bytes_ok ct → len ct = n + DefaultOverhead →
  validateLowEntropyDataAckMetadata das' = Ok tt ∧
  ∃ wire, encodeLowEntropyEncryptedPayload paddingBit ct das' = Ok wire ∧ len wire = das_payloadLen das + DefaultOverhead ∧
    decodeLowEntropyEncryptedPayload wire das' = Ok ct.
Proof.
  intros Hd Hp Hprep Hb Hl. destruct (prepare_inv _ _ _ _ Hd Hprep) as (m & params & -> & Hm & -> & Hn & Hval & Hv & Hpl & Hmax).
  split; [done|]. by apply (encrypted_payload_roundtrip paddingBit Hp (with_mask m das) ct params).
Qed.
Definition example_prepared : dataAckStruct :=
  mkDataAck (mkBase dataClientToServerLowEntropy 0) LOW_ENTROPY_MODE_40 5 7 5 1024 0 0 8 0 0 3 LOW_ENTROPY_MASK_ROTATE_LEFT_1.
Lemma prepared_payload_roundtrip_witness :
  let das' := (prepareLowEntropyDataAckForSend (λ _, 0) example_prepared 3).1 in
  ∃ wire, encodeLowEntropyEncryptedPayload 1 (seqZ 3 19) das' = Ok wire ∧ len wire = 24
    ∧ decodeLowEntropyEncryptedPayload wire das' = Ok (seqZ 3 19).
Proof.
  apply (prepared_payload_roundtrip (λ _, 0) 1 3 example_prepared _ (seqZ 3 19));
    [intros i Hi; lia|by right|by vm_compute|by apply (bool_decide_unpack _)|done].
Defined.
