(* ===== verification/Padding.v ===== *)
(** * pkg/protocol/padding.go: random padding

    The padding of a segment is random bytes of a random length, either with a
    run of printable characters or with a given share of one-bits.  The random
    sources are the fields of [paddingDraws].

    Theorems: a datagram never exceeds the MTU because of padding; with the
    options the program builds, [newPadding] returns, its length is within the
    limits (so the one-byte length field is exact) and the printable run is
    there. *)
From S2P Require Import Prelude MathExt Messages LowEntropy Metadata GoStd GoFloat Ascii Cipher Rng Segment.

Section padding.
Context `{F : GoFloat}.

(** common.ToBitDistribution. *)
Record BitDistribution := mkBits { Bit0 : f64; Bit1 : f64; Bit0Count : Z; Bit1Count : Z }.
Definition countBits (bit : bool) (b : Z) : Z := len (filter (λ i, Z.testbit b i = bit) (seqZ 0 8)).
Definition ToBitDistribution (arr : list Z) : BitDistribution :=
  if len arr =? 0 then mkBits (f64_const 1 2) (f64_const 1 2) 0 0 else
  let bit0Count := foldl (λ n b, n + countBits false b) 0 arr in
  let bit1Count := foldl (λ n b, n + countBits true b) 0 arr in
  let total := f64_of (len arr * 8) in
  mkBits (f64_div (f64_of bit0Count) total) (f64_div (f64_of bit1Count) total) bit0Count bit1Count.
(** common.FillBytes. *)
Definition FillBytes (b : list Z) (value : Z) : list Z := replicate (length b) value.

(** [recommendedConsecutiveASCIILen] is [24 + rng.FixedIntVH(17)], fixed at
    start-up. *)
Definition recommendedTargetProbability : f64 := f64_const 325 1000.

Inductive paddingPosition := middlePadding | endPadding.

(** [paddingOpts]: the program sets one of the two kinds. *)
Inductive paddingKind :=
  | asciiPadding (minConsecutiveASCIILen : Z)
  | entropyPadding (existingData : list Z) (targetProbability : f64).
Record paddingOpts := mkOpts { maxLen : Z; kind : option paddingKind }.

Definition maxPaddingSize (mtu : Z) (transport : TransportProtocol) (fragmentSize existingPaddingSize : Z) : Z :=
  if decide (transport = StreamTransport) then 255 else
  let res := mtu - fragmentSize - packetOverhead in
  if res <=? existingPaddingSize then 0 else Min (res - existingPaddingSize) 255.

Definition maxPaddingSizeWithTrafficPattern (mtu : Z) (transport : TransportProtocol) (fragmentSize existingPaddingSize : Z)
    (trafficPattern : option TrafficPattern) (position : paddingPosition) : Z :=
  let max := maxPaddingSize mtu transport fragmentSize existingPaddingSize in
  match trafficPattern ≫= Padding with
  | None => max
  | Some p =>
    let configured := match position with
                      | middlePadding => MaxMiddlePaddingLen p
                      | endPadding => MaxEndPaddingLen p
                      end in
    match configured with
    | None => max
    | Some c => if c <? 0 then 0 else Min max c
    end
  end.

(** What the random sources return during one call. *)
Record paddingDraws := mkPadDraws {
  pd_mrand : Z → Z;                  (* the mrand.Intn inside rng.Intn *)
  pd_base : f64;                     (* the mrand.Float64 inside rng.Intn *)
  pd_read : nat → list Z;            (* crypto/rand.Read of a buffer *)
  pd_begin : Z → Z;                  (* mrand.Intn(length - minConsecutiveASCIILen) *)
  pd_batches : list (list Z);        (* the reads of ToPrintableChar *)
  pd_flip : nat → Z → Z              (* mrand.Intn(len(p) * 8), call by call *)
}.

Definition buildRecommendedPaddingOpts (appVersion : list Z) (fixedV : hintCache) (recommendedConsecutiveASCIILen : Z)
    (read : nat → list Z) (maxLen randomDataLen : Z) (strategySource : list Z) : hintCache * paddingOpts :=
  let '(fixedV, strategy) := FixedIntV appVersion fixedV 2 strategySource in
  (fixedV,
   if strategy =? 0 then mkOpts maxLen (Some (asciiPadding (Min maxLen recommendedConsecutiveASCIILen)))
   else mkOpts maxLen (Some (entropyPadding (read (Z.to_nat randomDataLen)) recommendedTargetProbability))).

(** Flip the bit at [j]; out of range it panics. *)
Definition flipBit (lowerBit j : Z) (p : list Z) : result (list Z) :=
  let byteIndex := j `quot` 8 in
  let bitIndex := j `rem` 8 in
  match p !! Z.to_nat byteIndex with
  | None => Panic "index out of range"
  | Some x => Ok (<[Z.to_nat byteIndex := if lowerBit =? 0 then Z.ldiff x (2 ^ bitIndex) else Z.lor x (2 ^ bitIndex)]> p)
  end.
Fixpoint flipLoop (flip : nat → Z → Z) (lowerBit : Z) (n i : nat) (p : list Z) : result (list Z) :=
  match n with
  | O => Ok p
  | S n =>
    if len p * 8 <=? 0 then Panic "invalid argument to Intn" else
    p ← flipBit lowerBit (flip i (len p * 8)) p;
    flipLoop flip lowerBit n (S i) p
  end.

Definition asciiPad (d : paddingDraws) (maxLen minLen : Z) : result (list Z) :=
  if maxLen <? minLen then Panic "Invalid padding options: maxLen is smaller than minConsecutiveASCIILen" else
  x ← Intn (pd_mrand d (maxLen - minLen + 1 + 1)) (pd_base d) (maxLen - minLen + 1);
  let length := x + minLen in
  if length <? 0 then Panic "makeslice: len out of range" else
  let p := pd_read d (Z.to_nat length) in
  let beginIdx := if length >? minLen then pd_begin d (length - minLen) else 0 in
  if (beginIdx <? 0) || (beginIdx + minLen <? 0) then Panic "index out of range" else
  ToPrintableChar (pd_batches d) p (Z.to_nat beginIdx) (Z.to_nat (beginIdx + minLen)).

Definition entropyPad (d : paddingDraws) (maxLen : Z) (existingData : list Z) (targetProbability : f64) : result (list Z) :=
  if f64_leb targetProbability (f64_const 0 1) || f64_ltb (f64_const 1 2) targetProbability
  then Panic "Invalid padding options: targetProbability is out of range" else
  let current := ToBitDistribution existingData in
  let '(lowerBit, lowerBitCount) :=
    if f64_ltb (Bit1 current) (Bit0 current) then (1, Bit1Count current) else (0, Bit0Count current) in
  let minPaddingBits :=
    Max (f64_int (f64_sub (f64_div (f64_of lowerBitCount) targetProbability) (f64_of (len existingData * 8)))) 0 in
  let minPaddingBytes := (minPaddingBits + 7) `quot` 8 in
  length ← (if minPaddingBytes >=? maxLen then Ok maxLen
            else x ← Intn (pd_mrand d (maxLen - minPaddingBytes + 1 + 1)) (pd_base d) (maxLen - minPaddingBytes + 1);
                 Ok (x + minPaddingBytes));
  if length <? 0 then Panic "makeslice: len out of range" else
  let p := replicate (Z.to_nat length) 0 in
  let flip := Max (f64_int (f64_mul (f64_mul (f64_of (len existingData + length)) (f64_const 8 1)) targetProbability)
                   - lowerBitCount) 0 in
  let flip := Min flip (length * 8) in
  let p := if lowerBit =? 0 then FillBytes p 0xFF else p in
  flipLoop (pd_flip d) lowerBit (Z.to_nat flip) 0 p.

Definition newPadding (d : paddingDraws) (opts : paddingOpts) : result (list Z) :=
  match kind opts with
  | Some (asciiPadding minLen) => asciiPad d (maxLen opts) minLen
  | Some (entropyPadding existingData targetProbability) => entropyPad d (maxLen opts) existingData targetProbability
  | None => Panic "Detailed padding options are not provided"
  end.

(** What the random sources document: values in range, buffers of the length
    asked for, and reads that sooner or later hold an acceptable draw. *)
Record draws_ok (d : paddingDraws) : Prop := {
  d_mrand : ∀ m, 0 < m → 0 <= pd_mrand d m < m;
  d_base : Float64 (pd_base d);
  d_read : ∀ n, length (pd_read d n) = n;
  d_begin : ∀ m, 0 < m → 0 <= pd_begin d m < m;
  d_batches : Forall (λ randBuf, bytes_ok randBuf ∧ draw randBuf 0 < printableUint16Limit) (pd_batches d);
  d_enough : (256 <= length (pd_batches d))%nat;
  d_flip : ∀ i m, 0 < m → 0 <= pd_flip d i m < m
}.
Definition opts_ok (o : paddingOpts) : Prop :=
  0 <= maxLen o <= 255 ∧
  match kind o with
  | Some (asciiPadding minLen) => 0 <= minLen <= maxLen o
  | Some (entropyPadding _ t) => t = recommendedTargetProbability
  | None => False
  end.
End padding.

(** ** Sizes *)

Lemma maxPaddingSize_range mtu transport fragment existing tp pos :
  0 <= maxPaddingSizeWithTrafficPattern mtu transport fragment existing tp pos <= 255.
Proof.
  assert (0 <= maxPaddingSize mtu transport fragment existing <= 255) as H.
  { unfold maxPaddingSize. case_decide; [lia|]. case_match eqn:E; [lia|]. apply Z.leb_gt in E. rewrite Min_spec. lia. }
  unfold maxPaddingSizeWithTrafficPattern. destruct (tp ≫= Padding) as [p|]; [|done].
  destruct pos; (case_match; [|done]); case_match eqn:E; try lia; rewrite Min_spec; apply Z.ltb_ge in E; lia.
Qed.

Lemma maxPaddingSize_le mtu transport fragment existing tp pos :
  maxPaddingSizeWithTrafficPattern mtu transport fragment existing tp pos <= maxPaddingSize mtu transport fragment existing.
Proof.
  pose proof (maxPaddingSize_range mtu transport fragment existing None pos) as H. cbn in H.
  unfold maxPaddingSizeWithTrafficPattern. destruct (tp ≫= Padding) as [p|]; [|done].
  destruct pos; (case_match; [|done]); case_match; rewrite ?Min_spec; lia.
Qed.

Lemma padding_fits (mtu payload prefix suffix : Z) (tp : option TrafficPattern) :
  packetOverhead + payload <= mtu →
  0 <= prefix <= maxPaddingSizeWithTrafficPattern mtu PacketTransport payload 0 tp middlePadding →
  0 <= suffix <= maxPaddingSizeWithTrafficPattern mtu PacketTransport payload prefix tp endPadding →
  packetOverhead + payload + prefix + suffix <= mtu ∧ u8 prefix = prefix ∧ u8 suffix = suffix.
Proof.
  intros Hm Hp Hs.
  pose proof (maxPaddingSize_range mtu PacketTransport payload 0 tp middlePadding).
  pose proof (maxPaddingSize_range mtu PacketTransport payload prefix tp endPadding).
  split; [|split; apply wrap_id; unfold in_width; lia].
  pose proof (maxPaddingSize_le mtu PacketTransport payload 0 tp middlePadding) as H1.
  pose proof (maxPaddingSize_le mtu PacketTransport payload prefix tp endPadding) as H2.
  unfold maxPaddingSize in H1, H2. rewrite decide_False in H1, H2 by done.
  destruct (Z.leb_spec (mtu - payload - packetOverhead) 0), (Z.leb_spec (mtu - payload - packetOverhead) prefix);
    rewrite ?Min_spec in *; lia.
Qed.

(** Padding keeps a datagram within the MTU: if nonce, metadata, both tags,
    the encoded payload and the prefix padding fit, they also fit with any
    prefix and any suffix padding within the computed limits, for every traffic
    pattern; and both lengths fit their byte of the metadata. *)
Theorem padded_datagram_fits (mtu payload prefix suffix : Z) (tp : option TrafficPattern) :
  packetOverhead + payload <= mtu →
  0 <= prefix <= maxPaddingSizeWithTrafficPattern mtu PacketTransport payload 0 tp middlePadding →
  0 <= suffix <= maxPaddingSizeWithTrafficPattern mtu PacketTransport payload prefix tp endPadding →
  packetOverhead + payload + prefix + suffix <= mtu ∧ u8 prefix = prefix ∧ u8 suffix = suffix.
Proof. apply padding_fits. Qed.
Lemma padded_datagram_fits_witness :
  packetOverhead + 1000 + 200 + 100 <= 1400 ∧ u8 200 = 200 ∧ u8 100 = 100.
Proof. apply (padded_datagram_fits 1400 1000 200 100 None); vm_compute; intuition congruence. Defined.

(** ** The padding itself *)

Section theorems.
Context `{F : GoFloat} {FL : GoFloatLaws F}.

Lemma flipBit_spec lowerBit j p : 0 <= j < len p * 8 → ∃ p', flipBit lowerBit j p = Ok p' ∧ length p' = length p.
Proof using.
  intros Hj. unfold flipBit. destruct (lookup_lt_is_Some_2 p (Z.to_nat (j `quot` 8))) as [x ->].
  - assert (j / 8 < len p) by (apply Z.div_lt_upper_bound; lia). rewrite Z.quot_div_nonneg by lia.
    pose proof (Z.div_pos j 8 ltac:(lia) ltac:(lia)). unfold len in *. lia.
  - eexists. split; [done|]. by rewrite length_insert.
Qed.
Lemma flipLoop_spec flip lowerBit n i p :
  (∀ i m, 0 < m → 0 <= flip i m < m) → (n ≠ 0%nat → 0 < len p) →
  ∃ p', flipLoop flip lowerBit n i p = Ok p' ∧ length p' = length p.
Proof using.
  intros Hf. revert i p. induction n as [|n IH]; intros i p Hp; [by exists p|]. cbn [flipLoop].
  specialize (Hp ltac:(done)). destruct (Z.leb_spec (len p * 8) 0); [lia|].
  destruct (flipBit_spec lowerBit (flip i (len p * 8)) p) as (p' & -> & Hl); [apply Hf; lia|]. rewrite bind_Ok.
  destruct (IH (S i) p') as (p'' & -> & Hl'); [unfold len in *; lia|]. exists p''. split; [done|congruence].
Qed.

(** [rng.Intn] under the documented behaviour of its sources. *)
Lemma Intn_draw d n :
  draws_ok d → 0 < n < 2 ^ 53 → ∃ x, Intn (pd_mrand d (n + 1)) (pd_base d) n = Ok x ∧ 0 <= x < n.
Proof using FL.
  intros Hd Hn. destruct (Intn_range (pd_mrand d (n + 1)) (pd_base d) n) as (x & -> & Hx & Hlt).
  - by apply (d_base d).
  - apply (d_mrand d); [done|lia].
  - lia.
  - exists x. split; [done|]. specialize (Hlt ltac:(lia)). lia.
Qed.

Lemma asciiPad_spec d max min :
  draws_ok d → 0 <= min <= max → max <= 255 →
  ∃ p begin, asciiPad d max min = Ok p ∧ min <= len p <= max ∧ (begin + Z.to_nat min <= length p)%nat ∧
    printable_range begin (begin + Z.to_nat min) p.
Proof using FL.
  intros Hd Hm Hmax. unfold asciiPad. destruct (Z.ltb_spec max min); [lia|].
  destruct (Intn_draw d (max - min + 1) Hd) as (x & -> & Hx); [lia|]. rewrite bind_Ok. cbv zeta.
  destruct (Z.ltb_spec (x + min) 0); [lia|].
  set (begin := if x + min >? min then pd_begin d (x + min - min) else 0).
  assert (0 <= begin <= x) as Hb.
  { unfold begin. destruct (Z.gtb_spec (x + min) min); [|lia].
    pose proof (d_begin d Hd (x + min - min) ltac:(lia)). lia. }
  destruct (Z.ltb_spec begin 0); [lia|]. destruct (Z.ltb_spec (begin + min) 0); [lia|]. cbn [orb].
  pose proof (d_read d Hd (Z.to_nat (x + min))) as Hread. pose proof (d_enough d Hd) as Hen.
  destruct (ToPrintableChar_spec (pd_batches d) (pd_read d (Z.to_nat (x + min))) (Z.to_nat begin) (Z.to_nat (begin + min)))
    as (p & -> & Hl & _ & Hp); [lia|by apply (d_batches d)|lia|].
  exists p, (Z.to_nat begin). split_and!; [done|unfold len; lia..|].
  intros i Hi. apply Hp. lia.
Qed.

Lemma entropyPad_spec d max data :
  draws_ok d → 0 <= max <= 255 → ∃ p, entropyPad d max data recommendedTargetProbability = Ok p ∧ len p <= max.
Proof using FL.
  intros Hd Hm. unfold entropyPad. destruct order_325 as [E1 E2]. unfold recommendedTargetProbability at 1 2.
  rewrite E1, E2. cbn [orb]. cbv zeta.
  destruct (if f64_ltb _ _ then _ else _) as [lowerBit lowerBitCount].
  set (minBits := Max _ 0). assert (0 <= minBits) as Hmin by (unfold minBits; rewrite Max_spec; lia). clearbody minBits.
  set (minBytes := (minBits + 7) `quot` 8).
  assert (0 <= minBytes) as Hmb by (apply Z.quot_pos; lia). clearbody minBytes.
  assert (∃ length, (if minBytes >=? max then Ok max
     else x ← Intn (pd_mrand d (max - minBytes + 1 + 1)) (pd_base d) (max - minBytes + 1); Ok (x + minBytes)) = Ok length ∧
     0 <= length <= max) as (length & -> & Hlen).
  { rewrite Z.geb_leb. destruct (Z.leb_spec max minBytes); [exists max; split; [done|lia]|].
    destruct (Intn_draw d (max - minBytes + 1) Hd) as (x & -> & Hx); [lia|]. eexists. split; [done|lia]. }
  rewrite bind_Ok. destruct (Z.ltb_spec length 0); [lia|].
  set (flip := Min (Max _ 0) (length * 8)).
  assert (0 <= flip <= length * 8) as Hflip by (unfold flip; rewrite Min_spec, Max_spec; lia). clearbody flip.
  set (p := if lowerBit =? 0 then _ else _).
  assert (List.length p = Z.to_nat length) as Hp.
  { unfold p, FillBytes. destruct (lowerBit =? 0); by rewrite !length_replicate. }
  destruct (flipLoop_spec (pd_flip d) lowerBit (Z.to_nat flip) 0 p) as (p' & -> & Hp').
  - apply (d_flip d Hd).
  - unfold len. lia.
  - exists p'. split; [done|]. unfold len. lia.
Qed.

(** The program only builds valid options. *)
Lemma recommended_opts_ok ver fixedV asciiLen read max n user :
  0 <= max <= 255 → 0 <= asciiLen → opts_ok (buildRecommendedPaddingOpts ver fixedV asciiLen read max n user).2.
Proof using.
  intros Hm Ha. unfold buildRecommendedPaddingOpts. destruct (FixedIntV ver fixedV 2 user) as [c s].
  destruct (s =? 0); split; cbn; try done. rewrite Min_spec. lia.
Qed.

Lemma newPadding_spec (d : paddingDraws) (o : paddingOpts) :
  draws_ok d → opts_ok o →
  ∃ p, newPadding d o = Ok p ∧ len p <= maxLen o ∧
    ∀ m, kind o = Some (asciiPadding m) →
      ∃ begin, (begin + Z.to_nat m <= length p)%nat ∧ printable_range begin (begin + Z.to_nat m) p.
Proof using FL.
  intros Hd [Hm Ho]. unfold newPadding. destruct (kind o) as [[m|data t]|]; [| |done].
  - destruct (asciiPad_spec d (maxLen o) m) as (p & begin & -> & Hl & Hb & Hp); [done|lia|lia|].
    exists p. split_and!; [done|lia|]. intros m' [= <-]. by exists begin.
  - subst t. destruct (entropyPad_spec d (maxLen o) data) as (p & -> & Hl); [done|lia|]. by exists p.
Qed.

(** [newPadding], with the options the program builds and random sources
    that behave as documented, returns without a panic; the padding is never
    longer than allowed, and ASCII padding has a run of printable characters of
    at least the configured length. *)
Theorem newPadding_in_limits (d : paddingDraws) (o : paddingOpts) :
  draws_ok d → opts_ok o →
  ∃ p, newPadding d o = Ok p ∧ len p <= maxLen o ∧
    ∀ m, kind o = Some (asciiPadding m) →
      ∃ begin, (begin + Z.to_nat m <= length p)%nat ∧ printable_range begin (begin + Z.to_nat m) p.
Proof using FL. apply newPadding_spec. Qed.
End theorems.

#[local] Existing Instance fractionFloat.
#[local] Existing Instance fractionFloat_laws.
Definition example_draws : paddingDraws :=
  mkPadDraws (λ m, m - 1) (1, 2) (λ n, replicate n 200) (λ _, 0) (replicate 256 [0; 1]) (λ _ _, 0).
Lemma newPadding_in_limits_witness :
  ∃ p, newPadding example_draws (mkOpts 60 (Some (asciiPadding 24))) = Ok p ∧ len p <= 60 ∧
    ∃ begin, (begin + 24 <= length p)%nat ∧ printable_range begin (begin + 24) p.
Proof.
  destruct (newPadding_in_limits example_draws (mkOpts 60 (Some (asciiPadding 24)))) as (p & H & Hl & Hp).
  - split; cbn; intros; try lia.
    + by split.
    + by apply length_replicate.
    + apply (Forall_replicate _ 256). split; [repeat constructor; done|done].
  - split; cbn; lia.
  - exists p. split_and!; [done|done|exact (Hp 24 eq_refl)].
Defined.
