(* ===== verification/Packet.v ===== *)
(** * pkg/protocol/underlay_packet.go: one segment, one datagram

    How [PacketUnderlay] turns a segment into a datagram and back: nonce and
    encrypted metadata, prefix padding, encrypted payload, suffix padding.  The
    writer fills a buffer of the pool whose old content is arbitrary.  Writing
    runs in a monad [W] over what it changes in place: the cipher, the metadata,
    and the cache of integers fixed per hint.

    Theorems: every datagram a sender writes is read back by a receiver with the
    same key as the same segment, while the clocks are within a minute of each
    other, low entropy or not; it fits the MTU and does not depend on what was in
    the buffer; the parsers of untrusted datagrams never panic. *)
From S2P Require Import Prelude MathExt Messages LowEntropy Metadata GoStd GoFloat Ascii Cipher Rng Segment Underlay Padding.

(** What the program draws once at start-up. *)
Record program := mkProgram { appVersion : list Z; lowEntropyPaddingBit : Z; recommendedConsecutiveASCIILen : Z }.

Section packet.
Context `{C : Crypto} `{F : GoFloat}.

(** What the random sources and the buffer pool return while a segment is written. *)
Record sendDraws := mkSendDraws {
  sd_nonce : nonceDraws;
  sd_halfMask : nat → Z;
  sd_existing : nat → list Z;          (* the random data of buildRecommendedPaddingOpts *)
  sd_pad1 : paddingDraws;
  sd_pad2 : paddingDraws;
  sd_buffer : Z → list Z               (* bufpool.Acquire(size).Bytes() *)
}.

Record sending := mkSending { w_block : aeadBlockCipher; w_metadata : metadata; w_fixedV : hintCache }.
Definition W (A : Type) : Type := sending → sending * result A.
#[export] Instance W_ret : MRet W := λ A a s, (s, Ok a).
#[export] Instance W_bind : MBind W := λ A B f m s,
  match m s with
  | (s, Ok a) => f a s
  | (s, Err e) => (s, Err e)
  | (s, Panic p) => (s, Panic p)
  end.
Definition wlift {A} (r : result A) : W A := λ s, (s, r).
Definition wblock : W aeadBlockCipher := λ s, (s, Ok (w_block s)).
Definition setBlock (c : aeadBlockCipher) : W unit := λ s, (mkSending c (w_metadata s) (w_fixedV s), Ok tt).
Definition setMetadata (m : metadata) : W unit := λ s, (mkSending (w_block s) m (w_fixedV s), Ok tt).
Definition wrap_error {A} (msg : string) (m : W A) : W A := λ s,
  match m s with
  | (s, Err e) => (s, Err (Wrapf msg e))
  | r => r
  end.

Definition Acquire (d : sendDraws) (size : Z) : result (list Z) :=
  if size <? 0 then Panic "bufpool: negative size" else Ok (sd_buffer d size).

(** [block.Encrypt(buf[:0], plaintext)]: an error leaves the cipher as it was. *)
Definition encryptTo (d : sendDraws) (buf plaintext : list Z) : W (list Z) :=
  c ← wblock;
  '(c, ct) ← wlift (Encrypt c (sd_nonce d) (len buf) plaintext);
  _ ← setBlock c;
  mret (copy_at 0 ct buf).
(** [block.EncryptWithNonce(buf[offset:offset], nonce, plaintext)]. *)
Definition encryptAt (offset : Z) (nonce buf plaintext : list Z) : W (list Z) :=
  if offset >? len buf then wlift (Panic "slice bounds out of range") else
  c ← wblock;
  ct ← wlift (EncryptWithNonce c (len buf - offset) nonce plaintext);
  mret (copy_at (Z.to_nat offset) ct buf).

Section write.
Variable p : program.
Variable d : sendDraws.
Variable mtu : Z.
Variable trafficPattern : option TrafficPattern.
Variable now : Z.

Definition recommendedPadding (maxLen randomDataLen : Z) : W (list Z) := λ s,
  let '(fixedV, opts) := buildRecommendedPaddingOpts (appVersion p) (w_fixedV s) (recommendedConsecutiveASCIILen p) (sd_existing d)
                           maxLen randomDataLen (c_userName (w_block s)) in
  (mkSending (w_block s) (w_metadata s) fixedV, newPadding (sd_pad1 d) opts).

Definition ss_with_suffix (n : Z) (ss : sessionStruct) : sessionStruct :=
  mkSession (ss_base ss) (ss_sessionID ss) (ss_seq ss) (ss_statusCode ss) (ss_payloadLen ss) n.
Definition das_with_padding (pre suf : Z) (das : dataAckStruct) : dataAckStruct :=
  das<|das_prefixLen := pre|><|das_suffixLen := suf|>.

(** The branch of [writeOneSegment] for open and close segments, up to the
    write to the connection. *)
Definition writeSessionSegment (ss : sessionStruct) (payload : list Z) : W (list Z) :=
  let maxPaddingSize := maxPaddingSizeWithTrafficPattern mtu PacketTransport (ss_payloadLen ss) 0 trafficPattern endPadding in
  padding ← recommendedPadding maxPaddingSize (packetOverhead + ss_payloadLen ss);
  let ss := ss_with_suffix (u8 (len padding)) ss in
  let '(plaintextMetadata, ss) := ss_Marshal now ss in
  _ ← setMetadata (MSession ss);
  c ← wblock;
  let encryptedMetadataLen := len plaintextMetadata + NonceSize c + Overhead c in
  let encryptedPayloadLen := if len payload >? 0 then len payload + Overhead c else 0 in
  buf ← wlift (Acquire d (encryptedMetadataLen + encryptedPayloadLen + len padding));
  buf ← wrap_error "Encrypt() failed" (encryptTo d buf plaintextMetadata);
  let nonce := slice_to (NonceSize c) buf in
  let offset := encryptedMetadataLen in
  '(buf, offset) ←
    (if len payload >? 0 then
       buf ← wrap_error "EncryptWithNonce() failed" (encryptAt offset nonce buf payload);
       mret (buf, offset + encryptedPayloadLen)
     else mret (buf, offset));
  mret (copy_at (Z.to_nat offset) padding buf).

Definition prepare (lowEntropy : bool) (das : dataAckStruct) (n : Z) : W dataAckStruct :=
  if lowEntropy then
    let '(das, r) := prepareLowEntropyDataAckForSend (sd_halfMask d) das n in
    _ ← setMetadata (MDataAck das);
    _ ← wrap_error "prepare low entropy payload failed" (wlift r);
    mret das
  else mret das.
Definition dataPadding (draws : paddingDraws) (fragmentSize existing : Z) (position : paddingPosition) : result (list Z) :=
  newPadding draws (mkOpts (maxPaddingSizeWithTrafficPattern mtu PacketTransport fragmentSize existing trafficPattern position)
                           (Some (asciiPadding 0))).

(** The low entropy form replaces the ciphertext in the buffer. *)
Definition replaceLowEntropy (das : dataAckStruct) (offset n : Z) (buf : list Z) : W (list Z) :=
  if offset + n >? len buf then wlift (Panic "slice bounds out of range") else
  encryptedPayload ← wrap_error "encode low entropy payload failed"
    (wlift (encodeLowEntropyEncryptedPayload (lowEntropyPaddingBit p) (slice offset (offset + n) buf) das));
  mret (copy_at (Z.to_nat offset) encryptedPayload buf).

(** The branch for data and acknowledgements. *)
Definition writeDataAckSegment (das : dataAckStruct) (payload : list Z) : W (list Z) :=
  let lowEntropy := isLowEntropyProtocol (das_Protocol das) in
  das ← prepare lowEntropy das (len payload);
  padding1 ← wlift (dataPadding (sd_pad1 d) (das_payloadLen das) 0 middlePadding);
  padding2 ← wlift (dataPadding (sd_pad2 d) (das_payloadLen das) (len padding1) endPadding);
  let das := das_with_padding (u8 (len padding1)) (u8 (len padding2)) das in
  let '(plaintextMetadata, das) := das_Marshal now das in
  _ ← setMetadata (MDataAck das);
  c ← wblock;
  let encryptedMetadataLen := len plaintextMetadata + NonceSize c + Overhead c in
  let wirePayloadLen :=
    if len payload >? 0 then if lowEntropy then das_payloadLen das + Overhead c else len payload + Overhead c else 0 in
  buf ← wlift (Acquire d (encryptedMetadataLen + len padding1 + wirePayloadLen + len padding2));
  buf ← wrap_error "Encrypt() failed" (encryptTo d buf plaintextMetadata);
  let nonce := slice_to (NonceSize c) buf in
  let offset := encryptedMetadataLen in
  let buf := copy_at (Z.to_nat offset) padding1 buf in
  let offset := offset + Z.min (len padding1) (len buf - offset) in
  '(buf, offset) ←
    (if len payload >? 0 then
       buf ← wrap_error "EncryptWithNonce() failed" (encryptAt offset nonce buf payload);
       buf ← (if lowEntropy then replaceLowEntropy das offset (len payload + Overhead c) buf else mret buf);
       mret (buf, offset + wirePayloadLen)
     else mret (buf, offset));
  let buf := copy_at (Z.to_nat offset) padding2 buf in
  if lowEntropy && (len buf >? mtu) then wlift (Err (Errorf "low entropy datagram length exceeds MTU")) else mret buf.

(** [writeOneSegment] from the choice of the cipher to the write. *)
Definition buildDatagram (payload : list Z) : W (list Z) := λ s,
  match toSessionStruct (w_metadata s) with
  | Panic m => (s, Panic m)
  | Ok (Some ss) => writeSessionSegment ss payload s
  | _ =>
    match toDataAckStruct (w_metadata s) with
    | Panic m => (s, Panic m)
    | Ok (Some das) => writeDataAckSegment das payload s
    | _ => (s, Err ErrInvalidArgument)
    end
  end.
End write.

(** ** Reading *)

(** [u.isClient] and [u.block], and the cipher that decrypted the metadata. *)
Definition payloadCipher (isClient : bool) (ublock blockCipher : option aeadBlockCipher) : result aeadBlockCipher :=
  match blockCipher with
  | Some c => Ok c
  | None => if isClient then match ublock with Some c => Ok c | None => Panic "nil pointer dereference" end
            else Panic "PacketUnderlay: block is nil"
  end.
Definition received (m : metadata) (payload : list Z) : segment := mkSegment m payload PacketTransport 0 0 0 0 None.

(** The length of the encrypted payload is a uint16 sum here. *)
Definition parseSessionSegment (isClient : bool) (ublock : option aeadBlockCipher) (ss : sessionStruct) (nonce remaining : list Z)
    (blockCipher : option aeadBlockCipher) : result segment :=
  if ss_payloadLen ss >? 0 then
    if len remaining <? ss_payloadLen ss + DefaultOverhead then Err (Errorf "payload: received incomplete packet") else
    c ← payloadCipher isClient ublock blockCipher;
    let encryptedPayload := slice_to (u16 (ss_payloadLen ss + DefaultOverhead)) remaining in
    match DecryptWithNonce c encryptedPayload nonce with
    | Err e => Err (Wrapf "DecryptWithNonce() failed" e)
    | Panic m => Panic m
    | Ok decryptedPayload =>
      if negb (ss_payloadLen ss + DefaultOverhead + ss_suffixLen ss =? len remaining) then Err (Errorf "padding: size not match")
      else Ok (received (MSession ss) decryptedPayload)
    end
  else if negb (ss_suffixLen ss =? len remaining) then Err (Errorf "padding: size not match")
  else Ok (received (MSession ss) []).

Definition parseDataAckSegment (isClient : bool) (ublock : option aeadBlockCipher) (das : dataAckStruct) (nonce remaining : list Z)
    (blockCipher : option aeadBlockCipher) : result segment :=
  let lowEntropy := isLowEntropyProtocol (das_Protocol das) in
  _ ← (if lowEntropy then validateLowEntropyDataAckMetadata das else Ok tt);
  if (das_prefixLen das >? 0) && (das_prefixLen das >? len remaining)
  then Err (Errorf "padding: prefix length exceeds remaining packet size") else
  let remaining := if das_prefixLen das >? 0 then slice_from (das_prefixLen das) remaining else remaining in
  if das_payloadLen das >? 0 then
    let wirePayloadLen := das_payloadLen das + DefaultOverhead in
    if len remaining <? wirePayloadLen then Err (Errorf "payload: received incomplete packet") else
    if negb (len remaining =? wirePayloadLen + das_suffixLen das) then Err (Errorf "padding: size not match") else
    c ← payloadCipher isClient ublock blockCipher;
    let encryptedPayload := slice_to wirePayloadLen remaining in
    encryptedPayload ←
      (if lowEntropy then
         match decodeLowEntropyEncryptedPayload encryptedPayload das with
         | Err e => Err (Wrapf "decode low entropy payload failed" e)
         | r => r
         end
       else Ok encryptedPayload);
    match DecryptWithNonce c encryptedPayload nonce with
    | Err e => Err (Wrapf "DecryptWithNonce() failed" e)
    | Panic m => Panic m
    | Ok decryptedPayload => Ok (received (MDataAck das) decryptedPayload)
    end
  else if negb (das_suffixLen das =? len remaining) then Err (Errorf "padding: size not match")
  else Ok (received (MDataAck das) []).

(** What [readOneSegment] does with a datagram once its metadata is decrypted; an
    error drops the datagram. *)
Definition parsePacket (now : Z) (isClient : bool) (ublock : option aeadBlockCipher) (b decryptedMeta : list Z)
    (blockCipher : option aeadBlockCipher) : result segment :=
  if negb (len decryptedMeta =? MetadataLength) then Err (Errorf "decrypted metadata size is unexpected") else
  let nonce := slice_to DefaultNonceSize b in
  let remaining := slice_from packetNonHeaderPosition b in
  if isSessionProtocol (byte_at 0 decryptedMeta) then
    ss ← ss_Unmarshal now decryptedMeta;
    parseSessionSegment isClient ublock ss nonce remaining blockCipher
  else if isDataAckProtocol (byte_at 0 decryptedMeta) then
    das ← das_Unmarshal now decryptedMeta;
    parseDataAckSegment isClient ublock das nonce remaining blockCipher
  else Err (Errorf "unknown protocol").
End packet.

(** ** The buffer *)

Definition buffer_ok (f : Z → list Z) : Prop := ∀ n, 0 <= n → len (f n) = n.
Definition with_buffer `{F : GoFloat} (f : Z → list Z) (d : sendDraws) : sendDraws :=
  mkSendDraws (sd_nonce d) (sd_halfMask d) (sd_existing d) (sd_pad1 d) (sd_pad2 d) f.

Lemma fill {A} off (pre data rest : list A) :
  off = len pre → len data <= len rest →
  copy_at (Z.to_nat off) data (pre ++ rest) = pre ++ data ++ slice_from (len data) rest.
Proof.
  intros -> Hl. unfold len in *. rewrite Nat2Z.id, copy_at_app by lia. unfold slice_from. by rewrite Nat2Z.id.
Qed.
Lemma fill_end {A} off (pre data rest : list A) :
  off = len pre → len data = len rest → copy_at (Z.to_nat off) data (pre ++ rest) = pre ++ data.
Proof. intros -> Hl. rewrite fill by lia. rewrite slice_from_all by lia. by rewrite app_nil_r. Qed.

Section writing.
Context `{CL : CryptoLaws} `{F : GoFloat} {FL : GoFloatLaws F}.

Lemma W_bind_Ok {A B} (m : W A) (f : A → W B) s s' a : m s = (s', Ok a) → (m ≫= f) s = f a s'.
Proof using. intros E. unfold mbind, W_bind. by rewrite E. Qed.
Lemma wrap_error_Ok {A} msg (m : W A) s s' a : m s = (s', Ok a) → wrap_error msg m s = (s', Ok a).
Proof using. intros E. unfold wrap_error. by rewrite E. Qed.
Lemma Acquire_Ok d f n : buffer_ok f → 0 <= n → Acquire (with_buffer f d) n = Ok (f n).
Proof using. intros _ Hn. unfold Acquire. by destruct (Z.ltb_spec n 0); [lia|]. Qed.

(** *** The metadata *)

(** The cipher of a sender, with a nonce source that works. *)
Record sender_ok (c c1 : aeadBlockCipher) (nd : nonceDraws) : Prop := {
  so_stateless : enableImplicitNonce c = false;
  so_name : len (c_userName c) <= MaxUserNameLen;
  so_key : bytes_ok (c_key c);
  so_draws : Cipher.draws_ok nd;
  so_nonce : ∃ n1, newNonceTo c nd (NonceSize c) = Ok (c1, n1) ∧ bytes_ok n1
}.
Lemma sender_after c c1 nd : sender_ok c c1 nd → enableImplicitNonce c1 = false ∧ c_key c1 = c_key c.
Proof using.
  intros [Hs _ _ Hd (n1 & Hn & _)]. destruct (newNonceTo_inv _ _ _ _ _ Hd Hn) as [_ [-> | ->]]; done.
Qed.

(** The nonce on the wire is bytes, as the random source's are. *)
Lemma Encrypt_nonce c c1 nd n1 room pt c' ct :
  enableImplicitNonce c = false → Cipher.draws_ok nd → newNonceTo c nd (NonceSize c) = Ok (c1, n1) → bytes_ok n1 →
  Encrypt c nd room pt = Ok (c', ct) → bytes_ok (slice_to DefaultNonceSize ct).
Proof using.
  intros Hst Hd Hn Hb. unfold Encrypt. rewrite Hst. cbn [negb orb]. destruct (_ <? _); [done|]. rewrite Hn, bind_Ok.
  destruct (addUserHintToNonce c1 n1) as [n2|e|m] eqn:Ea; [|done..]. rewrite !bind_Ok. intros [= _ <-].
  destruct (newNonceTo_inv _ _ _ _ _ Hd Hn) as [Hl _]. rewrite slice_to_app; [by eapply addUserHint_bytes|].
  symmetry. by eapply addUserHint_len.
Qed.

(** A receiver that shares the key. *)
Definition same_key (c c2 : aeadBlockCipher) : Prop := enableImplicitNonce c2 = false ∧ c_key c = c_key c2.

(** One encryption at the start of a large enough buffer. *)
Lemma encryptTo_spec d c c1 m fixedV pt :
  sender_ok c c1 (sd_nonce d) →
  ∃ ct, len ct = len pt + 40 ∧ bytes_ok (slice_to DefaultNonceSize ct) ∧ (∀ c2, same_key c c2 → Decrypt c2 ct = (c2, Ok pt)) ∧
    (0 < len (c_userName c) → CheckUserFromHint (c_userName c) (slice_to DefaultNonceSize ct) = Ok true) ∧
    ∀ f buf, len pt + 40 <= len buf →
      encryptTo (with_buffer f d) buf pt (mkSending c m fixedV) = (mkSending c1 m fixedV, Ok (ct ++ slice_from (len ct) buf)).
Proof using CL.
  intros [Hst Hname _ Hdraws (n1 & Hn & Hn1)].
  destruct (encrypt_stateless c c c1 (sd_nonce d) (len pt + DefaultOverhead + DefaultNonceSize) pt [] n1) as (ct & Henc & Hl & _ & _ & Hu);
    [done..|lia|].
  assert (∀ room, len pt + DefaultOverhead + DefaultNonceSize <= room → Encrypt c (sd_nonce d) room pt = Ok (c1, ct)) as Hroom.
  { intros room Hr. destruct (encrypt_stateless c c c1 (sd_nonce d) room pt [] n1) as (ct' & Henc' & _); [done..|].
    rewrite Henc'. unfold Encrypt in Henc, Henc'. rewrite Hst in Henc, Henc'. cbn [negb orb] in Henc, Henc'.
    unfold Overhead, NonceSize in Henc, Henc'. destruct (Z.ltb_spec room (len pt + DefaultOverhead + DefaultNonceSize)); [lia|].
    destruct (Z.ltb_spec (len pt + DefaultOverhead + DefaultNonceSize) (len pt + DefaultOverhead + DefaultNonceSize)); [lia|].
    rewrite <-Henc, <-Henc'. done. }
  exists ct. split_and!; [unfold DefaultNonceSize, DefaultOverhead in *; lia|by eapply Encrypt_nonce| |done|].
  - intros c2 [H2 Hk]. destruct (encrypt_stateless c c2 c1 (sd_nonce d) (len pt + DefaultOverhead + DefaultNonceSize) pt [] n1)
      as (ct' & Henc' & _ & Hdec & _); [done..|lia|]. rewrite Henc in Henc'. by injection Henc' as <-.
  - intros f buf Hb. unfold encryptTo. erewrite W_bind_Ok by reflexivity. cbn [w_block].
    erewrite W_bind_Ok by (unfold wlift; rewrite Hroom by (unfold DefaultNonceSize, DefaultOverhead; lia); reflexivity).
    cbn. f_equal. f_equal. change (copy_at 0 ct buf) with (copy_at (Z.to_nat 0) ct ([] ++ buf)).
    rewrite fill; [done|done|]. unfold DefaultNonceSize, DefaultOverhead in *. lia.
Qed.

(** One encryption behind what is already there, with the same nonce. *)
Lemma encryptAt_spec c1 m fixedV nonce pre rest pt :
  enableImplicitNonce c1 = false → len nonce = DefaultNonceSize → len pt + DefaultOverhead <= len rest →
  encryptAt (len pre) nonce (pre ++ rest) pt (mkSending c1 m fixedV) =
    (mkSending c1 m fixedV, Ok (pre ++ Seal (c_key c1) nonce pt ++ slice_from (len pt + DefaultOverhead) rest)).
Proof using CL.
  intros Hs Hn Hl. unfold encryptAt. rewrite len_app. pose proof (len_nonneg rest).
  destruct (Z.gtb_spec (len pre) (len pre + len rest)); [lia|].
  erewrite W_bind_Ok by reflexivity. cbn [w_block].
  erewrite W_bind_Ok.
  2:{ unfold wlift, EncryptWithNonce. rewrite Hs, Hn, Z.eqb_refl. cbn [negb].
      destruct (Z.ltb_spec (len pre + len rest - len pre) (len pt + Overhead c1)); [unfold Overhead in *; lia|]. reflexivity. }
  cbn. do 2 f_equal. rewrite fill by (done || rewrite Seal_len; lia). by rewrite Seal_len.
Qed.

(** *** The branches *)

Record padding_ok (p : program) (d : sendDraws) : Prop := {
  po_pad1 : Padding.draws_ok (sd_pad1 d);
  po_pad2 : Padding.draws_ok (sd_pad2 d);
  po_ascii : 0 <= recommendedConsecutiveASCIILen p
}.

Lemma len_u8 {A} (l : list A) : len l <= 255 → u8 (len l) = len l.
Proof using. intros. apply wrap_id. pose proof (len_nonneg l). unfold in_width. lia. Qed.

Lemma recommendedPadding_spec p d max n c m fixedV :
  padding_ok p d → 0 <= max <= 255 →
  ∃ fixedV' padding, len padding <= max ∧ ∀ f,
    recommendedPadding p (with_buffer f d) max n (mkSending c m fixedV) = (mkSending c m fixedV', Ok padding).
Proof using FL.
  intros [Hp _ Ha] Hm. unfold recommendedPadding. cbn [w_fixedV w_block w_metadata with_buffer sd_existing sd_pad1].
  pose proof (recommended_opts_ok (appVersion p) fixedV (recommendedConsecutiveASCIILen p) (sd_existing d) max n (c_userName c) Hm Ha) as Ho.
  destruct (buildRecommendedPaddingOpts _ _ _ _ _ _ _) as [fixedV' opts] eqn:E.
  assert (maxLen opts = max) as Hmax.
  { revert E. unfold buildRecommendedPaddingOpts. destruct (FixedIntV _ _ _ _) as [c' x]. by destruct (x =? 0); intros [= _ <-]. }
  destruct (newPadding_spec (sd_pad1 d) opts Hp Ho) as (padding & Hn & Hl & _).
  exists fixedV', padding. split; [by rewrite <-Hmax|]. intros f. by rewrite Hn.
Qed.

Lemma ss_Marshal_pair now ss : ss_Marshal now ss = ((ss_Marshal now ss).1, ss_with_timestamp (minuteOf now) ss).
Proof using. reflexivity. Qed.
Lemma ss_Marshal_len now ss : len (ss_Marshal now ss).1 = 32.
Proof using. reflexivity. Qed.

Lemma writeSession_spec p d mtu tp now ss payload c c1 m fixedV :
  sender_ok c c1 (sd_nonce d) → padding_ok p d →
  ∃ fixedV' padding ctm,
    let ss' := ss_with_suffix (len padding) ss in
    let ctp := if len payload >? 0 then Seal (c_key c) (slice_to DefaultNonceSize ctm) payload else [] in
    len padding <= maxPaddingSizeWithTrafficPattern mtu PacketTransport (ss_payloadLen ss) 0 tp endPadding ∧
    len ctm = packetNonHeaderPosition ∧ (∀ c2, same_key c c2 → Decrypt c2 ctm = (c2, Ok (ss_Marshal now ss').1)) ∧
    (0 < len (c_userName c) → CheckUserFromHint (c_userName c) (slice_to DefaultNonceSize ctm) = Ok true) ∧
    ∀ f, buffer_ok f →
      writeSessionSegment p (with_buffer f d) mtu tp now ss payload (mkSending c m fixedV) =
        (mkSending c1 (MSession (ss_with_timestamp (minuteOf now) ss')) fixedV', Ok (ctm ++ ctp ++ padding)).
Proof using CL FL.
  intros Hs Hp. pose proof (maxPaddingSize_range mtu PacketTransport (ss_payloadLen ss) 0 tp endPadding) as Hmax.
  destruct (recommendedPadding_spec p d _ (packetOverhead + ss_payloadLen ss) c m fixedV Hp Hmax) as (fixedV' & padding & Hpad & Hrec).
  pose proof (len_nonneg padding) as Hpad0. pose proof (len_nonneg payload) as Hpl0.
  set (ss' := ss_with_suffix (len padding) ss). set (m' := MSession (ss_with_timestamp (minuteOf now) ss')).
  destruct (encryptTo_spec d c c1 m' fixedV' (ss_Marshal now ss').1 Hs) as (ctm & Hl & Hbytes & Hdec & Hhint & Henc).
  rewrite ss_Marshal_len in Hl. destruct (sender_after _ _ _ Hs) as [Hst1 Hk1].
  exists fixedV', padding, ctm. cbv zeta. split_and!; [done|done|exact Hdec|exact Hhint|]. fold ss' m'.
  intros f Hf. unfold writeSessionSegment. rewrite (W_bind_Ok _ _ _ _ _ (Hrec f)), len_u8 by lia. fold ss'.
  cbv zeta. rewrite (ss_Marshal_pair now ss'). rewrite (W_bind_Ok (setMetadata _) _ _ (mkSending c m' fixedV') tt) by reflexivity.
  rewrite (W_bind_Ok wblock _ _ _ c) by reflexivity. rewrite ss_Marshal_len. unfold NonceSize, Overhead.
  set (epl := if len payload >? 0 then len payload + DefaultOverhead else 0).
  assert (0 <= epl) as Hepl by (unfold epl, DefaultOverhead; case_tests; lia).
  set (N := 32 + DefaultNonceSize + DefaultOverhead + epl + len padding). assert (0 <= N) as HN by (unfold N, DefaultNonceSize, DefaultOverhead; lia).
  rewrite (W_bind_Ok (wlift _) _ _ _ (f N)) by (unfold wlift; by rewrite Acquire_Ok).
  assert (len (f N) = N) as HfN by (by apply Hf).
  erewrite (W_bind_Ok (wrap_error _ _)).
  2:{ apply wrap_error_Ok, Henc. rewrite HfN, ss_Marshal_len. unfold N, DefaultNonceSize, DefaultOverhead. lia. }
  set (R := slice_from (len ctm) (f N)). assert (len R = epl + len padding) as HR.
  { unfold R. rewrite len_slice_from by (rewrite HfN; unfold N, DefaultNonceSize, DefaultOverhead; lia). rewrite HfN. unfold N, DefaultNonceSize, DefaultOverhead. lia. }
  replace (32 + DefaultNonceSize + DefaultOverhead) with (len ctm) by (rewrite Hl; done).
  assert (slice_to DefaultNonceSize (ctm ++ R) = slice_to DefaultNonceSize ctm) as Hnonce.
  { unfold slice_to. apply take_app_le. unfold len in Hl. unfold DefaultNonceSize. lia. }
  rewrite Hnonce. subst epl. destruct (Z.gtb_spec (len payload) 0).
  - rewrite (W_bind_Ok _ _ _ (mkSending c1 m' fixedV')
      (ctm ++ Seal (c_key c1) (slice_to DefaultNonceSize ctm) payload ++ slice_from (len payload + DefaultOverhead) R, len ctm + (len payload + DefaultOverhead))).
    2:{ erewrite W_bind_Ok; [reflexivity|]. apply wrap_error_Ok, encryptAt_spec; [done|rewrite len_slice_to by (rewrite Hl; done); done|lia]. }
    cbn. do 2 f_equal. rewrite (app_assoc ctm), fill_end, <-app_assoc, Hk1; [done|by rewrite len_app, Seal_len|].
    rewrite len_slice_from by lia. lia.
  - erewrite W_bind_Ok by reflexivity. cbn. do 2 f_equal. rewrite fill_end; [done|done|lia].
Qed.

Lemma dataPadding_spec draws mtu tp fragment existing pos :
  Padding.draws_ok draws →
  ∃ padding, dataPadding mtu tp draws fragment existing pos = Ok padding ∧
    len padding <= maxPaddingSizeWithTrafficPattern mtu PacketTransport fragment existing tp pos.
Proof using FL.
  intros Hd. unfold dataPadding. set (max := maxPaddingSizeWithTrafficPattern _ _ _ _ _ _).
  pose proof (maxPaddingSize_range mtu PacketTransport fragment existing tp pos) as Hmax. fold max in Hmax.
  destruct (newPadding_spec draws (mkOpts max (Some (asciiPadding 0))) Hd) as (padding & -> & Hl & _); [by split; cbn; lia|].
  by exists padding.
Qed.

(** What [prepare] gives a data segment to write. *)
Definition prepared (d : sendDraws) (das das1 : dataAckStruct) (n : Z) : Prop :=
  if isLowEntropyProtocol (das_Protocol das)
  then draws_in_range (sd_halfMask d) ∧ prepareLowEntropyDataAckForSend (sd_halfMask d) das n = (das1, Ok tt)
  else das1 = das.
Lemma prepare_spec d das das1 n c m fixedV :
  prepared d das das1 n → ∃ m', ∀ f,
    prepare (with_buffer f d) (isLowEntropyProtocol (das_Protocol das)) das n (mkSending c m fixedV) = (mkSending c m' fixedV, Ok das1).
Proof using.
  unfold prepared, prepare. destruct (isLowEntropyProtocol _); [|intros ->; by exists m]. intros [_ E].
  exists (MDataAck das1). intros f. cbn [with_buffer sd_halfMask]. by rewrite E.
Qed.
Lemma prepared_protocol d das das1 n : prepared d das das1 n → das_Protocol das1 = das_Protocol das ∧ das_payloadLen das1 = das_payloadLen das.
Proof using.
  unfold prepared. destruct (isLowEntropyProtocol _); [|by intros ->]. intros [Hd E].
  by destruct (prepare_inv _ _ _ _ Hd E) as (m & params & -> & _).
Qed.

(** What goes behind the prefix padding: the ciphertext, or its low entropy form. *)
Definition wire_payload (padBit : Z) (c : aeadBlockCipher) (nonce : list Z) (das : dataAckStruct) (payload wire : list Z) : Prop :=
  if len payload >? 0 then
    if isLowEntropyProtocol (das_Protocol das)
    then encodeLowEntropyEncryptedPayload padBit (Seal (c_key c) nonce payload) das = Ok wire ∧
         len wire = das_payloadLen das + DefaultOverhead ∧
         decodeLowEntropyEncryptedPayload wire das = Ok (Seal (c_key c) nonce payload)
    else wire = Seal (c_key c) nonce payload
  else wire = [].
Definition wire_len (das : dataAckStruct) (payload : list Z) : Z :=
  if len payload >? 0 then
    if isLowEntropyProtocol (das_Protocol das) then das_payloadLen das + DefaultOverhead else len payload + DefaultOverhead
  else 0.
Lemma wire_payload_len padBit c nonce das payload wire : wire_payload padBit c nonce das payload wire → len wire = wire_len das payload.
Proof using CL.
  unfold wire_payload, wire_len. destruct (_ >? 0); [|by intros ->]. destruct (isLowEntropyProtocol _); [by intros (_ & ? & _)|].
  intros ->. apply Seal_len.
Qed.
Lemma wire_payload_exists d padBit c nonce das das1 pre suf ts payload :
  (padBit = 0 ∨ padBit = 1) → bytes_ok (c_key c) → bytes_ok nonce → bytes_ok payload → prepared d das das1 (len payload) →
  ∃ wire, wire_payload padBit c nonce (das_with_timestamp ts (das_with_padding pre suf das1)) payload wire.
Proof using CL.
  intros Hp Hk Hn Hb Hprep. destruct (prepared_protocol _ _ _ _ Hprep) as [Ep _]. unfold wire_payload.
  destruct (len payload >? 0); [|by eexists].
  change (das_Protocol (das_with_timestamp ts (das_with_padding pre suf das1))) with (das_Protocol das1). rewrite Ep.
  unfold prepared in Hprep. destruct (isLowEntropyProtocol _) eqn:El; [|by eexists]. destruct Hprep as [Hd E].
  destruct (prepare_inv _ _ _ _ Hd E) as (m & params & -> & Hm & Hlen & Hpos & Hval & Hv & Hpl & Hmax).
  apply (encrypted_payload_roundtrip padBit Hp (das_with_timestamp ts (das_with_padding pre suf (with_mask m das))) (Seal (c_key c) nonce payload) params);
    [exact Hval|by rewrite Hlen in Hpos|exact Hv|by rewrite Hlen in Hpl|exact Hmax|exact Hm|by apply Seal_bytes|rewrite Seal_len, Hlen; done].
Qed.

Lemma das_Marshal_pair now das : das_Marshal now das = ((das_Marshal now das).1, das_with_timestamp (minuteOf now) das).
Proof using. reflexivity. Qed.
Lemma das_Marshal_len now das : len (das_Marshal now das).1 = 32.
Proof using. rewrite das_Marshal_layout. by destruct (isLowEntropyProtocol _). Qed.

(** Putting the payload, encrypted and possibly in its low entropy form, behind
    what is already in the buffer. *)
Definition payloadInto (p : program) (lowEntropy : bool) (das : dataAckStruct) (nonce payload buf : list Z) (offset n : Z) : W (list Z * Z) :=
  if len payload >? 0 then
    buf ← wrap_error "EncryptWithNonce() failed" (encryptAt offset nonce buf payload);
    buf ← (if lowEntropy then replaceLowEntropy p das offset (len payload + DefaultOverhead) buf else mret buf);
    mret (buf, offset + n)
  else mret (buf, offset).

Lemma slice_middle {A} (pre l rest : list A) : slice (len pre) (len pre + len l) (pre ++ l ++ rest) = l.
Proof using.
  unfold slice, len. replace (Z.of_nat (length pre) + Z.of_nat (length l) - Z.of_nat (length pre)) with (Z.of_nat (length l)) by lia.
  by rewrite !Nat2Z.id, drop_app_length, take_app_length.
Qed.

Lemma slice_from_app_ge {A} n (l k : list A) : len l <= n → slice_from n (l ++ k) = slice_from (n - len l) k.
Proof using. intros. unfold slice_from, len in *. rewrite drop_app_ge by lia. f_equal. lia. Qed.
Lemma payloadInto_spec p c1 m fixedV das nonce payload wire pre rest :
  enableImplicitNonce c1 = false → len nonce = DefaultNonceSize →
  wire_payload (lowEntropyPaddingBit p) c1 nonce das payload wire →
  (isLowEntropyProtocol (das_Protocol das) = true → 0 < len payload → len payload <= das_payloadLen das) →
  wire_len das payload <= len rest →
  payloadInto p (isLowEntropyProtocol (das_Protocol das)) das nonce payload (pre ++ rest) (len pre) (wire_len das payload) (mkSending c1 m fixedV) =
    (mkSending c1 m fixedV, Ok (pre ++ wire ++ slice_from (wire_len das payload) rest, len pre + wire_len das payload)).
Proof using CL.
  intros Hst Hn Hw Hle Hr. pose proof (wire_payload_len _ _ _ _ _ _ Hw) as Hwl. unfold payloadInto.
  unfold wire_payload in Hw. unfold wire_len in *. destruct (Z.gtb_spec (len payload) 0); [|subst wire; cbn; by rewrite Z.add_0_r].
  destruct (isLowEntropyProtocol (das_Protocol das)).
  - destruct Hw as (Henc & Hlw & _). specialize (Hle eq_refl ltac:(lia)).
    erewrite (W_bind_Ok (wrap_error _ _)) by (apply wrap_error_Ok, encryptAt_spec; [done|done|unfold DefaultOverhead in *; lia]).
    set (ct := Seal _ _ _) in *. set (rest' := slice_from _ rest).
    assert (len ct = len payload + DefaultOverhead) as Hct by apply Seal_len.
    assert (len rest' = len rest - (len payload + DefaultOverhead)) as Hrest'.
    { unfold rest'. rewrite len_slice_from; [done|unfold DefaultOverhead in *; lia]. }
    rewrite (W_bind_Ok _ _ _ (mkSending c1 m fixedV) (pre ++ wire ++ slice_from (das_payloadLen das + DefaultOverhead) rest)); [done|].
    unfold replaceLowEntropy. rewrite !len_app, Hct, Hrest'.
    match goal with |- context [?a >? ?b] => destruct (Z.gtb_spec a b); [unfold DefaultOverhead in *; lia|] end.
    rewrite <-Hct, slice_middle. erewrite W_bind_Ok by (apply wrap_error_Ok; unfold wlift; by rewrite Henc). 
    rewrite fill by (done || rewrite len_app, Hct, Hrest'; unfold DefaultOverhead in *; lia).
    rewrite slice_from_app_ge by (rewrite Hct, Hlw; lia). unfold rest'.
    rewrite slice_from_slice_from by (unfold DefaultOverhead in *; lia). replace (len payload + DefaultOverhead + (len wire - len ct)) with (das_payloadLen das + DefaultOverhead) by lia. done.
  - subst wire. erewrite (W_bind_Ok (wrap_error _ _)) by (apply wrap_error_Ok, encryptAt_spec; [done|done|unfold DefaultOverhead in *; lia]). done.
Qed.

Lemma writeDataAck_spec p d mtu tp now das das1 payload c c1 m fixedV :
  sender_ok c c1 (sd_nonce d) → padding_ok p d → (lowEntropyPaddingBit p = 0 ∨ lowEntropyPaddingBit p = 1) →
  bytes_ok payload → prepared d das das1 (len payload) →
  (isLowEntropyProtocol (das_Protocol das) = true → packetOverhead + das_payloadLen das <= mtu) →
  ∃ padding1 padding2 ctm wire,
    let das2 := das_with_padding (len padding1) (len padding2) das1 in
    let das3 := das_with_timestamp (minuteOf now) das2 in
    len padding1 <= maxPaddingSizeWithTrafficPattern mtu PacketTransport (das_payloadLen das) 0 tp middlePadding ∧
    len padding2 <= maxPaddingSizeWithTrafficPattern mtu PacketTransport (das_payloadLen das) (len padding1) tp endPadding ∧
    len ctm = packetNonHeaderPosition ∧ (∀ c2, same_key c c2 → Decrypt c2 ctm = (c2, Ok (das_Marshal now das2).1)) ∧
    (0 < len (c_userName c) → CheckUserFromHint (c_userName c) (slice_to DefaultNonceSize ctm) = Ok true) ∧
    wire_payload (lowEntropyPaddingBit p) c (slice_to DefaultNonceSize ctm) das3 payload wire ∧
    ∀ f, buffer_ok f →
      writeDataAckSegment p (with_buffer f d) mtu tp now das payload (mkSending c m fixedV) =
        (mkSending c1 (MDataAck das3) fixedV, Ok (ctm ++ padding1 ++ wire ++ padding2)).
Proof using CL FL.
  intros Hs Hp Hbit Hb Hprep Hfit. destruct (prepared_protocol _ _ _ _ Hprep) as [Ep El].
  destruct (prepare_spec d das das1 (len payload) c m fixedV Hprep) as [m1 Hprepare].
  destruct (dataPadding_spec (sd_pad1 d) mtu tp (das_payloadLen das1) 0 middlePadding (po_pad1 _ _ Hp)) as (padding1 & Hpad1 & Hl1).
  destruct (dataPadding_spec (sd_pad2 d) mtu tp (das_payloadLen das1) (len padding1) endPadding (po_pad2 _ _ Hp)) as (padding2 & Hpad2 & Hl2).
  pose proof (maxPaddingSize_range mtu PacketTransport (das_payloadLen das1) 0 tp middlePadding) as Hr1.
  pose proof (maxPaddingSize_range mtu PacketTransport (das_payloadLen das1) (len padding1) tp endPadding) as Hr2.
  pose proof (len_nonneg padding1) as H1. pose proof (len_nonneg padding2) as H2. pose proof (len_nonneg payload) as H0.
  set (das2 := das_with_padding (len padding1) (len padding2) das1). set (das3 := das_with_timestamp (minuteOf now) das2).
  destruct (encryptTo_spec d c c1 (MDataAck das3) fixedV (das_Marshal now das2).1 Hs) as (ctm & Hl & Hbytes & Hdec & Hhint & Henc).
  rewrite das_Marshal_len in Hl. destruct (sender_after _ _ _ Hs) as [Hst1 Hk1].
  destruct (wire_payload_exists d (lowEntropyPaddingBit p) c (slice_to DefaultNonceSize ctm) das das1 (len padding1) (len padding2)
    (minuteOf now) payload Hbit (so_key _ _ _ Hs) Hbytes Hb Hprep) as [wire Hwire].
  fold das2 das3 in Hwire. pose proof (wire_payload_len _ _ _ _ _ _ Hwire) as Hwl.
  exists padding1, padding2, ctm, wire. cbv zeta. fold das2 das3. rewrite <-El.
  split_and!; [done|done|done|exact Hdec|exact Hhint|exact Hwire|].
  intros f Hf. unfold writeDataAckSegment. rewrite (W_bind_Ok _ _ _ _ _ (Hprepare f)).
  cbn [with_buffer sd_pad1 sd_pad2]. fold (with_buffer f d).
  rewrite (W_bind_Ok _ _ _ (mkSending c m1 fixedV) padding1) by (unfold wlift; by rewrite Hpad1).
  rewrite (W_bind_Ok _ _ _ (mkSending c m1 fixedV) padding2) by (unfold wlift; by rewrite Hpad2).
  rewrite !len_u8 by lia. fold das2. rewrite (das_Marshal_pair now das2). fold das3.
  rewrite (W_bind_Ok (setMetadata _) _ _ (mkSending c (MDataAck das3) fixedV) tt) by reflexivity.
  rewrite (W_bind_Ok wblock _ _ _ c) by reflexivity. rewrite das_Marshal_len. unfold NonceSize, Overhead. cbv zeta.
  assert (isLowEntropyProtocol (das_Protocol das) = isLowEntropyProtocol (das_Protocol das3)) as Ele.
  { change (das_Protocol das3) with (das_Protocol das1). by rewrite Ep. }
  rewrite Ele. change (das_payloadLen das3) with (das_payloadLen das1) in *.
  change (if len payload >? 0 then if isLowEntropyProtocol (das_Protocol das3) then das_payloadLen das1 + DefaultOverhead else len payload + DefaultOverhead else 0)
    with (wire_len das3 payload).
  assert (0 <= wire_len das3 payload) as Hw0 by (rewrite <-Hwl; apply len_nonneg).
  set (N := 32 + DefaultNonceSize + DefaultOverhead + len padding1 + wire_len das3 payload + len padding2).
  assert (0 <= N) as HN by (unfold N, DefaultNonceSize, DefaultOverhead; lia).
  rewrite (W_bind_Ok (wlift _) _ _ _ (f N)) by (unfold wlift; by rewrite Acquire_Ok).
  assert (len (f N) = N) as HfN by (by apply Hf).
  erewrite (W_bind_Ok (wrap_error _ _)).
  2:{ apply wrap_error_Ok, Henc. rewrite HfN, das_Marshal_len. unfold N, DefaultNonceSize, DefaultOverhead. lia. }
  set (R := slice_from (len ctm) (f N)). assert (len R = len padding1 + wire_len das3 payload + len padding2) as HR.
  { unfold R. rewrite len_slice_from by (rewrite HfN; unfold N, DefaultNonceSize, DefaultOverhead; lia). rewrite HfN.
    unfold N, DefaultNonceSize, DefaultOverhead. lia. }
  replace (32 + DefaultNonceSize + DefaultOverhead) with (len ctm) by (rewrite Hl; done).
  assert (slice_to DefaultNonceSize (ctm ++ R) = slice_to DefaultNonceSize ctm) as Hnonce.
  { unfold slice_to. apply take_app_le. unfold len in Hl. unfold DefaultNonceSize. lia. }
  rewrite Hnonce, fill by (done || lia). set (R1 := slice_from (len padding1) R).
  assert (len R1 = wire_len das3 payload + len padding2) as HR1 by (unfold R1; rewrite len_slice_from by lia; lia).
  erewrite (W_bind_Ok _ _ _ (mkSending c1 (MDataAck das3) fixedV)
    (((ctm ++ padding1) ++ wire ++ slice_from (wire_len das3 payload) R1), len (ctm ++ padding1) + wire_len das3 payload)).
  2:{ replace (len ctm + Z.min (len padding1) (len (ctm ++ padding1 ++ R1) - len ctm)) with (len (ctm ++ padding1))
        by (rewrite !len_app; pose proof (len_nonneg R1); lia).
      rewrite (app_assoc ctm). apply payloadInto_spec; [done|by rewrite len_slice_to by (rewrite Hl; done)| | |lia].
      - unfold wire_payload. by rewrite Hk1.
      - rewrite <-Ele. intros Hle Hpos. unfold prepared in Hprep. rewrite Hle in Hprep. destruct Hprep as [Hdr E].
        destruct (prepare_inv _ _ _ _ Hdr E) as (mk & params & -> & _ & _ & _ & _ & Hv & Hplen & _).
        destruct (validate_inv _ _ _ _ Hv) as (Hbp & _). pose proof (buildLowEntropyParams_inv _ _ Hbp) as [Hspc _].
        change (das_payloadLen das3) with (das_payloadLen das). rewrite Hplen. apply chunkCount_ge; lia. }
  assert (copy_at (Z.to_nat (len (ctm ++ padding1) + wire_len das3 payload)) padding2
      ((ctm ++ padding1) ++ wire ++ slice_from (wire_len das3 payload) R1) = ctm ++ padding1 ++ wire ++ padding2) as Hlast.
  { rewrite (app_assoc (ctm ++ padding1) wire), fill_end; [by rewrite <-!app_assoc|by rewrite (len_app _ wire), Hwl|].
    rewrite len_slice_from by lia. lia. }
  rewrite Hlast. destruct (isLowEntropyProtocol (das_Protocol das3)) eqn:Hle3; [|done].
  destruct (Z.gtb_spec (len (ctm ++ padding1 ++ wire ++ padding2)) mtu) as [Hover|]; [exfalso|done].
  rewrite Ele in Hfit. specialize (Hfit eq_refl). rewrite El in *.
  destruct (padding_fits mtu (das_payloadLen das) (len padding1) (len padding2) tp) as (Hfits & _); [done|lia|lia|].
  rewrite !len_app, Hl, Hwl in Hover. unfold wire_len, packetOverhead, DefaultNonceSize, MetadataLength, DefaultOverhead in *.
  rewrite Hle3 in Hover. change (das_payloadLen das3) with (das_payloadLen das1) in Hover. rewrite ?El in Hover. unfold packetNonHeaderPosition, DefaultNonceSize, MetadataLength, DefaultOverhead in Hover. 
  unfold prepared in Hprep. rewrite Ele in Hprep. destruct Hprep as [Hdr E]. destruct (prepare_inv _ _ _ _ Hdr E) as (_ & _ & _ & _ & _ & Hpos & _).
  destruct (Z.gtb_spec (len payload) 0); lia.
Qed.

(** *** Reading back *)

Lemma slice_datagram (ctm rest : list Z) :
  len ctm = packetNonHeaderPosition →
  slice_to packetNonHeaderPosition (ctm ++ rest) = ctm ∧ slice_from packetNonHeaderPosition (ctm ++ rest) = rest ∧
  slice_to DefaultNonceSize (ctm ++ rest) = slice_to DefaultNonceSize ctm ∧ len (slice_to DefaultNonceSize ctm) = DefaultNonceSize.
Proof using.
  intros Hl. split_and!; [by apply slice_to_app|by apply slice_from_app| |rewrite len_slice_to by (rewrite Hl; done); done].
  unfold slice_to. apply take_app_le. unfold len in Hl. unfold packetNonHeaderPosition, MetadataLength, DefaultNonceSize, DefaultOverhead in *. lia.
Qed.
Lemma DecryptWithNonce_Seal c c2 nonce pt :
  same_key c c2 → len nonce = DefaultNonceSize → DecryptWithNonce c2 (Seal (c_key c) nonce pt) nonce = Ok pt.
Proof using CL. intros [Hs Hk] Hn. unfold DecryptWithNonce. rewrite Hs, Hn. cbn. by apply openWith_Seal. Qed.

(** Read by the one who received the datagram. *)
Section parse.
Context (isClient : bool) (ublock bc : option aeadBlockCipher) (c c2 : aeadBlockCipher).
Context (Hk : same_key c c2) (Hc : payloadCipher isClient ublock bc = Ok c2).

Lemma parseSession_spec ss nonce payload (padding : list Z) :
  len nonce = DefaultNonceSize → ss_payloadLen ss = len payload → len payload <= MaxSessionOpenPayload → ss_suffixLen ss = len padding →
  parseSessionSegment isClient ublock ss nonce ((if len payload >? 0 then Seal (c_key c) nonce payload else []) ++ padding) bc
    = Ok (received (MSession ss) payload).
Proof using CL Hk Hc.
  intros Hn Hpl Hmax Hsl. pose proof (len_nonneg payload). pose proof (len_nonneg padding).
  unfold parseSessionSegment. rewrite Hpl, Hsl. destruct (Z.gtb_spec (len payload) 0).
  - rewrite len_app, Seal_len. destruct (Z.ltb_spec (len payload + DefaultOverhead + len padding) (len payload + DefaultOverhead)); [lia|].
    rewrite Hc, bind_Ok, wrap_id by (unfold in_width, DefaultOverhead, MaxSessionOpenPayload in *; lia).
    rewrite slice_to_app by (by rewrite Seal_len). by rewrite DecryptWithNonce_Seal, Z.eqb_refl by done.
  - cbn [app]. rewrite Z.eqb_refl. cbn. assert (payload = []) as -> by (apply len_zero; lia). done.
Qed.

Lemma parseDataAck_spec padBit das nonce payload (pre suf wire : list Z) :
  len nonce = DefaultNonceSize → wire_payload padBit c nonce das payload wire →
  das_prefixLen das = len pre → das_suffixLen das = len suf →
  (if isLowEntropyProtocol (das_Protocol das) then validateLowEntropyDataAckMetadata das = Ok tt ∧ 0 < len payload ∧ 0 < das_payloadLen das
   else das_payloadLen das = len payload) →
  parseDataAckSegment isClient ublock das nonce (pre ++ wire ++ suf) bc = Ok (received (MDataAck das) payload).
Proof using CL Hk Hc.
  intros Hn Hw Hpre Hsuf Hle. pose proof (wire_payload_len _ _ _ _ _ _ Hw) as Hwl.
  pose proof (len_nonneg payload). pose proof (len_nonneg pre). pose proof (len_nonneg suf). pose proof (len_nonneg wire).
  unfold parseDataAckSegment. rewrite Hpre, Hsuf.
  assert ((if isLowEntropyProtocol (das_Protocol das) then validateLowEntropyDataAckMetadata das else Ok tt) = Ok tt) as ->.
  { destruct (isLowEntropyProtocol _); [by destruct Hle|done]. }
  rewrite bind_Ok, !len_app.
  assert ((len pre >? 0) && (len pre >? len pre + (len wire + len suf)) = false) as ->.
  { destruct (Z.gtb_spec (len pre) (len pre + (len wire + len suf))); [lia|apply andb_false_r]. }
  assert ((if len pre >? 0 then slice_from (len pre) (pre ++ wire ++ suf) else pre ++ wire ++ suf) = wire ++ suf) as ->.
  { rewrite slice_from_app by done. destruct (Z.gtb_spec (len pre) 0); [done|]. assert (pre = []) as -> by (apply len_zero; lia). done. }
  unfold wire_payload, wire_len in *. destruct (isLowEntropyProtocol (das_Protocol das)).
  - destruct Hle as (_ & Hp & Hp'). destruct (Z.gtb_spec (len payload) 0); [|lia]. destruct Hw as (_ & _ & Hdec).
    destruct (Z.gtb_spec (das_payloadLen das) 0); [|lia]. rewrite len_app, Hwl.
    destruct (Z.ltb_spec (das_payloadLen das + DefaultOverhead + len suf) (das_payloadLen das + DefaultOverhead)); [lia|].
    rewrite Z.eqb_refl. cbn [negb]. rewrite Hc, bind_Ok, slice_to_app, Hdec, bind_Ok, DecryptWithNonce_Seal by done. done.
  - rewrite Hle. destruct (Z.gtb_spec (len payload) 0).
    + subst wire. rewrite len_app, Hwl.
      destruct (Z.ltb_spec (len payload + DefaultOverhead + len suf) (len payload + DefaultOverhead)); [lia|].
      rewrite Z.eqb_refl. cbn [negb]. rewrite Hc, bind_Ok, slice_to_app, bind_Ok, DecryptWithNonce_Seal by done. done.
    + subst wire. cbn [app]. rewrite Z.eqb_refl. cbn. assert (payload = []) as -> by (apply len_zero; lia). done.
Qed.
End parse.

(** *** The round trip *)

Definition clocks_ok (now now' : Z) : Prop := clock_ok now ∧ clock_ok now' ∧ Z.abs (now / 60 - now' / 60) <= 1.

(** A segment as the session hands it over. *)
Definition sendable (d : sendDraws) (m : metadata) (payload : list Z) : Prop :=
  bytes_ok payload ∧
  match m with
  | MSession ss => ss_wf ss ∧ isSessionProtocol (ss_Protocol ss) = true ∧ ss_payloadLen ss = len payload ∧ len payload <= MaxSessionOpenPayload
  | MDataAck das => das_wf das ∧ isDataAckProtocol (das_Protocol das) = true ∧
      (∃ das1, prepared d das das1 (len payload)) ∧
      (isLowEntropyProtocol (das_Protocol das) = false → das_plain das ∧ das_payloadLen das = len payload)
  end.
Definition payloadLenOf (m : metadata) : Z := match m with MSession ss => ss_payloadLen ss | MDataAck das => das_payloadLen das end.

(** The metadata that arrives: what the session wrote, with the underlay's
    padding lengths and mask, and the sender's minute. *)
Definition carries (now : Z) (m m' : metadata) : Prop :=
  match m, m' with
  | MSession ss, MSession ss' => ∃ n, ss' = ss_with_timestamp (now / 60) (ss_with_suffix n ss)
  | MDataAck das, MDataAck das' =>
      ∃ pre suf mask, das' = das_with_timestamp (now / 60) (das_with_padding pre suf (with_mask mask das)) ∧
        (isLowEntropyProtocol (das_Protocol das) = false → mask = das_lowEntropyMask das)
  | _, _ => False
  end.

Lemma with_mask_same das : with_mask (das_lowEntropyMask das) das = das.
Proof using. by destruct das. Qed.
Lemma prepared_mask d das das1 n :
  prepared d das das1 n → das_wf das → ∃ mask, das1 = with_mask mask das ∧ is_u32 mask ∧
    (isLowEntropyProtocol (das_Protocol das) = true →
       validateLowEntropyDataAckMetadata das1 = Ok tt ∧ 0 < n <= das_payloadLen das) ∧
    (isLowEntropyProtocol (das_Protocol das) = false → mask = das_lowEntropyMask das).
Proof using.
  unfold prepared. intros Hp Hwf. destruct (isLowEntropyProtocol _).
  - destruct Hp as [Hd E]. destruct (prepare_inv _ _ _ _ Hd E) as (m & params & -> & Hm & Hn & Hpos & Hval & Hv & Hpl & _).
    exists m. split_and!; [done|apply Hm..| |done]. intros _. split; [done|].
    destruct (validate_inv _ _ _ _ Hv) as (Hb & _). pose proof (buildLowEntropyParams_inv _ _ Hb) as [Hs _]. rewrite Hpl.
    pose proof (chunkCount_ge (sourceBytesPerChunk params) n ltac:(lia) ltac:(lia)). lia.
  - subst das1. exists (das_lowEntropyMask das). rewrite with_mask_same. split_and!; [done|apply Hwf..|done|done].
Qed.

(** What a datagram of a segment promises. *)
Definition good_datagram (mtu now : Z) (c : aeadBlockCipher) (payload : list Z) (m m' : metadata) (dg : list Z) : Prop :=
  carries now m m' ∧
  (packetOverhead + payloadLenOf m <= mtu → len dg <= mtu) ∧
  packetNonHeaderPosition <= len dg ∧
  (0 < len (c_userName c) → CheckUserFromHint (c_userName c) (slice_to DefaultNonceSize dg) = Ok true) ∧
  ∀ c2, same_key c c2 →
    ∃ pt, Decrypt c2 (slice_to packetNonHeaderPosition dg) = (c2, Ok pt) ∧
      ∀ now' isClient ublock bc, clocks_ok now now' → payloadCipher isClient ublock bc = Ok c2 →
        parsePacket now' isClient ublock dg pt bc = Ok (received m' payload).

Lemma WithinRange_ok now now' : clocks_ok now now' → WithinRange 32 (minuteOf now') (minuteOf now) 1 = true.
Proof using. intros (H1 & H2 & H3). rewrite WithinRange_clocks by done. by apply bool_decide_eq_true_2. Qed.

Lemma session_datagram p d mtu tp now ss payload c c1 m fixedV :
  sender_ok c c1 (sd_nonce d) → padding_ok p d → sendable d (MSession ss) payload → clock_ok now →
  ∃ s' dg m', good_datagram mtu now c payload (MSession ss) m' dg ∧ w_block s' = c1 ∧ w_metadata s' = m' ∧
    ∀ f, buffer_ok f → writeSessionSegment p (with_buffer f d) mtu tp now ss payload (mkSending c m fixedV) = (s', Ok dg).
Proof using CL FL.
  intros Hs Hp (Hb & Hwf & Hproto & Hpl & Hmax) Hnow.
  destruct (writeSession_spec p d mtu tp now ss payload c c1 m fixedV Hs Hp) as (fixedV' & padding & ctm & Hlp & Hl & Hdec & Hhint & Hw).
  set (ss' := ss_with_suffix (len padding) ss) in *. set (ctp := if len payload >? 0 then _ else _) in *.
  destruct (slice_datagram ctm (ctp ++ padding) Hl) as (E1 & E2 & E3 & E4).
  pose proof (len_nonneg padding). pose proof (len_nonneg payload).
  pose proof (maxPaddingSize_range mtu PacketTransport (ss_payloadLen ss) 0 tp endPadding) as Hr.
  eexists _, (ctm ++ ctp ++ padding), _. split_and!; [| | |exact Hw]; [|done|done]. destruct (minuteOf_div now Hnow) as [Emin _].
  split; [|split; [|split; [|split]]].
  - cbn. exists (len padding). by rewrite Emin.
  - intros Hfit. cbn in Hfit.
    destruct (padding_fits mtu (ss_payloadLen ss) 0 (len padding) tp) as (Hfits & _);
      [done|pose proof (maxPaddingSize_range mtu PacketTransport (ss_payloadLen ss) 0 tp middlePadding); lia|lia|].
    rewrite !len_app, Hl. assert (len ctp <= len payload + DefaultOverhead) as Hctp.
    { unfold ctp. destruct (len payload >? 0); [rewrite Seal_len; lia|]. unfold DefaultOverhead. rewrite len_nil. lia. }
    unfold packetOverhead, packetNonHeaderPosition, DefaultNonceSize, MetadataLength, DefaultOverhead in *. lia.
  - rewrite len_app, Hl. pose proof (len_nonneg (ctp ++ padding)). lia.
  - rewrite E3. exact Hhint.
  - intros c2 Hk. exists (ss_Marshal now ss').1. rewrite E1. split; [by apply Hdec|].
    intros now' isClient ublock bc Hclk Hc. unfold parsePacket. rewrite ss_Marshal_len, E2, E3. cbn [negb Z.eqb Pos.eqb MetadataLength].
    change (byte_at 0 (ss_Marshal now ss').1) with (ss_Protocol ss). rewrite Hproto.
    rewrite ss_Unmarshal_Marshal, WithinRange_ok by (done || (destruct Hwf as (? & ? & ? & ? & ? & ?); split_and!; try done; cbn; unfold in_width; lia)).
    change (ss_Protocol ss') with (ss_Protocol ss). rewrite Hproto. cbn [negb]. change (ss_payloadLen ss') with (ss_payloadLen ss).
    destruct (Z.gtb_spec (ss_payloadLen ss) MaxSessionOpenPayload); [lia|]. rewrite bind_Ok.
    by apply (parseSession_spec isClient ublock bc c c2 Hk Hc (ss_with_timestamp (minuteOf now) ss') _ payload padding).
Qed.

Lemma dataAck_datagram p d mtu tp now das payload c c1 m fixedV :
  sender_ok c c1 (sd_nonce d) → padding_ok p d → (lowEntropyPaddingBit p = 0 ∨ lowEntropyPaddingBit p = 1) →
  sendable d (MDataAck das) payload → clock_ok now →
  (isLowEntropyProtocol (das_Protocol das) = true → packetOverhead + das_payloadLen das <= mtu) →
  ∃ s' dg m', good_datagram mtu now c payload (MDataAck das) m' dg ∧ w_block s' = c1 ∧ w_metadata s' = m' ∧
    ∀ f, buffer_ok f → writeDataAckSegment p (with_buffer f d) mtu tp now das payload (mkSending c m fixedV) = (s', Ok dg).
Proof using CL FL.
  intros Hs Hp Hbit (Hb & Hwf & Hproto & (das1 & Hprep) & Hplain) Hnow Hfit.
  destruct (writeDataAck_spec p d mtu tp now das das1 payload c c1 m fixedV Hs Hp Hbit Hb Hprep Hfit)
    as (padding1 & padding2 & ctm & wire & Hl1 & Hl2 & Hl & Hdec & Hhint & Hwire & Hw).
  destruct (prepared_mask _ _ _ _ Hprep Hwf) as (mask & -> & Hm & Hle & Hmask). destruct (prepared_protocol _ _ _ _ Hprep) as [Ep El].
  set (das2 := das_with_padding (len padding1) (len padding2) (with_mask mask das)) in *.
  pose proof (wire_payload_len _ _ _ _ _ _ Hwire) as Hwl.
  destruct (slice_datagram ctm (padding1 ++ wire ++ padding2) Hl) as (E1 & E2 & E3 & E4).
  pose proof (len_nonneg padding1). pose proof (len_nonneg padding2). pose proof (len_nonneg payload).
  pose proof (maxPaddingSize_range mtu PacketTransport (das_payloadLen das) 0 tp middlePadding) as Hr1.
  pose proof (maxPaddingSize_range mtu PacketTransport (das_payloadLen das) (len padding1) tp endPadding) as Hr2.
  eexists _, (ctm ++ padding1 ++ wire ++ padding2), _. split_and!; [| | |exact Hw]; [|done|done]. destruct (minuteOf_div now Hnow) as [Emin _].
  unfold wire_len in Hwl. change (das_payloadLen (das_with_timestamp (minuteOf now) das2)) with (das_payloadLen das) in *.
  change (das_Protocol (das_with_timestamp (minuteOf now) das2)) with (das_Protocol das) in *.
  split; [|split; [|split; [|split]]].
  - cbn. exists (len padding1), (len padding2), mask. by rewrite Emin.
  - intros Hfit'. cbn in Hfit'.
    destruct (padding_fits mtu (das_payloadLen das) (len padding1) (len padding2) tp) as (Hfits & _); [done|lia|lia|].
    rewrite !len_app, Hl. assert (len wire <= das_payloadLen das + DefaultOverhead) as Hwle.
    { rewrite Hwl. destruct Hwf as (_ & _ & _ & _ & _ & _ & _ & _ & [? _] & _). unfold DefaultOverhead.
      destruct (isLowEntropyProtocol (das_Protocol das)); [destruct (len payload >? 0); lia|].
      destruct (Hplain eq_refl) as [_ ->]. destruct (len payload >? 0); lia. }
    unfold packetOverhead, packetNonHeaderPosition, DefaultNonceSize, MetadataLength, DefaultOverhead in *. lia.
  - rewrite len_app, Hl. pose proof (len_nonneg (padding1 ++ wire ++ padding2)). lia.
  - rewrite E3. exact Hhint.
  - intros c2 Hk. exists (das_Marshal now das2).1. rewrite E1. split; [by apply Hdec|].
    intros now' isClient ublock bc Hclk Hc. unfold parsePacket. rewrite das_Marshal_len, E2, E3. cbn [negb Z.eqb Pos.eqb MetadataLength].
    assert (byte_at 0 (das_Marshal now das2).1 = das_Protocol das) as -> by (by rewrite das_Marshal_layout).
    assert (isSessionProtocol (das_Protocol das) = false) as Hns by (by apply dataAck_not_session).
    rewrite Hns, Hproto. rewrite das_Unmarshal_Marshal, WithinRange_ok; [|done| |exact Hproto|].
    + cbn [negb]. rewrite bind_Ok. eapply (parseDataAck_spec isClient ublock bc c c2 Hk Hc); [exact E4|exact Hwire|done|done|].
      change (das_Protocol (das_with_timestamp (minuteOf now) das2)) with (das_Protocol das).
      destruct (isLowEntropyProtocol (das_Protocol das)); [|by apply Hplain]. destruct (Hle eq_refl) as [Hval Hn].
      split_and!; [exact Hval|lia|]. change (das_payloadLen (das_with_timestamp (minuteOf now) das2)) with (das_payloadLen das). lia.
    + destruct Hwf as (? & ? & ? & ? & ? & ? & ? & ? & ? & ? & ? & ? & ?). split_and!; try done; cbn; unfold in_width; lia.
    + change (das_Protocol das2) with (das_Protocol das).
      destruct (isLowEntropyProtocol (das_Protocol das)); [by destruct (Hle eq_refl)|].
      destruct (Hplain eq_refl) as [(? & ? & ? & ?) _]. unfold das_plain. cbn. by rewrite (Hmask eq_refl).
Qed.

Lemma buildDatagram_spec p d mtu tp now payload c c1 m fixedV :
  sender_ok c c1 (sd_nonce d) → padding_ok p d → (lowEntropyPaddingBit p = 0 ∨ lowEntropyPaddingBit p = 1) →
  sendable d m payload → clock_ok now → (isLowEntropyProtocol (Protocol m) = true → packetOverhead + payloadLenOf m <= mtu) →
  ∃ s' dg m', good_datagram mtu now c payload m m' dg ∧ w_block s' = c1 ∧ w_metadata s' = m' ∧
    ∀ f, buffer_ok f → buildDatagram p (with_buffer f d) mtu tp now payload (mkSending c m fixedV) = (s', Ok dg).
Proof using CL FL.
  intros Hs Hp Hbit Hm Hnow Hfit. unfold buildDatagram. cbn [w_metadata]. destruct m as [ss|das].
  - destruct (session_datagram p d mtu tp now ss payload c c1 (MSession ss) fixedV Hs Hp Hm Hnow) as (s' & dg & m' & Hg & Hb & Hmd & Hw).
    exists s', dg, m'. split_and!; [done..|]. destruct Hm as (_ & _ & Hproto & _). unfold toSessionStruct. cbn [Protocol]. rewrite Hproto. exact Hw.
  - destruct (dataAck_datagram p d mtu tp now das payload c c1 (MDataAck das) fixedV Hs Hp Hbit Hm Hnow Hfit) as (s' & dg & m' & Hg & Hb & Hmd & Hw).
    exists s', dg, m'. split_and!; [done..|]. destruct Hm as (_ & _ & Hproto & _). unfold toSessionStruct, toDataAckStruct. cbn [Protocol].
    rewrite (dataAck_not_session _ Hproto), Hproto. exact Hw.
Qed.

(** C36. Packets arrive as they were sent: every segment a session hands over, data,
    acknowledgement or control, low entropy or not, is written to a datagram
    whatever the random sources return and whatever the reused buffer held; the
    datagram fits the MTU when the unpadded segment does, carries the sender's
    user hint, and every receiver with the same key and a clock within a minute
    decrypts its metadata and parses exactly the payload and the metadata (with
    the padding lengths, mask and minute of this transmission). *)
Theorem packet_roundtrip (p : program) (d : sendDraws) (mtu : Z) (tp : option TrafficPattern) (now : Z) (payload : list Z)
    (c c1 : aeadBlockCipher) (m : metadata) (fixedV : hintCache) :
  sender_ok c c1 (sd_nonce d) → padding_ok p d → (lowEntropyPaddingBit p = 0 ∨ lowEntropyPaddingBit p = 1) →
  sendable d m payload → clock_ok now → (isLowEntropyProtocol (Protocol m) = true → packetOverhead + payloadLenOf m <= mtu) →
  ∃ s' dg m', good_datagram mtu now c payload m m' dg ∧
    ∀ f, buffer_ok f → buildDatagram p (with_buffer f d) mtu tp now payload (mkSending c m fixedV) = (s', Ok dg).
Proof using CL FL.
  intros Hs Hp Hbit Hm Hnow Hfit.
  destruct (buildDatagram_spec p d mtu tp now payload c c1 m fixedV Hs Hp Hbit Hm Hnow Hfit) as (s' & dg & m' & ? & _ & _ & ?).
  by exists s', dg, m'.
Qed.
End writing.

Section untrusted.
Context `{CL : CryptoLaws}.

Lemma validate_total das : ∀ msg, validateLowEntropyDataAckMetadata das ≠ Panic msg.
Proof using.
  intros msg. unfold validateLowEntropyDataAckMetadata.
  destruct (negb (isLowEntropyProtocol _)); [done|]. destruct (_ >? maxPDU); [done|]. destruct (negb (_ =? 0)); [done|].
  assert (∀ n mode m, lowEntropyEncodedPayloadLen n mode ≠ Panic m) as Hel.
  { intros n mode m. unfold lowEntropyEncodedPayloadLen, buildLowEntropyParams. repeat case_match; cbn; by repeat case_match. }
  destruct (validateLowEntropyCodecParams _ _ _) as [params|e|m] eqn:Hv; cbn; [|done|].
  - destruct (_ =? 0); [by destruct (negb _)|]. destruct (lowEntropyEncodedPayloadLen _ _) eqn:E; cbn; [by destruct (negb _)|done|by apply Hel in E].
  - exfalso. revert Hv. unfold validateLowEntropyCodecParams, buildLowEntropyParams. repeat case_match; cbn; by repeat case_match.
Qed.

Lemma das_Unmarshal_total now b : ∀ msg, das_Unmarshal now b ≠ Panic msg.
Proof using.
  intros msg. unfold das_Unmarshal. repeat case_match; try done; cbn; repeat case_match; try done.
  intros Hp. destruct (validateLowEntropyDataAckMetadata _) as [[]|e|m'] eqn:Hv; try done. by apply validate_total in Hv.
Qed.
Lemma ss_Unmarshal_total now b : ∀ msg, ss_Unmarshal now b ≠ Panic msg.
Proof using. intros msg. unfold ss_Unmarshal. by repeat case_match. Qed.

Lemma decode_body_len enc n mode mask rot src : decodeLowEntropyPayload enc n mode mask rot = Ok src → is_u32 mask → bytes_ok enc → len src = n.
Proof using. intros H1 H2 H3. by destruct (decode_canonical _ _ _ _ _ _ H1 H2 H3) as (? & _). Qed.

Lemma decodeEncrypted_total ct das :
  (∀ msg, decodeLowEntropyEncryptedPayload ct das ≠ Panic msg) ∧
  (bytes_ok ct → is_u32 (das_lowEntropyMask das) → 0 <= das_payloadLen das →
   ∀ out, decodeLowEntropyEncryptedPayload ct das = Ok out → len out = das_extractedPayloadLen das + DefaultOverhead).
Proof using.
  unfold decodeLowEntropyEncryptedPayload. destruct (validateLowEntropyDataAckMetadata das) as [[]|e|m] eqn:Hv; cbn; [|done|by apply validate_total in Hv].
  destruct (Z.eqb_spec (len ct) (das_payloadLen das + DefaultOverhead)) as [Hl|]; cbn; [|done].
  destruct (decodeLowEntropyPayload _ _ _ _ _) as [body|e|m] eqn:Hd; cbn; [|done|by apply decode_total in Hd]. split; [done|].
  intros Hb Hm Hp out [= <-]. apply decode_body_len in Hd; [|done|unfold slice_to; auto with mieru].
  rewrite len_app, Hd, len_slice_from; unfold DefaultOverhead in *; lia.
Qed.

Lemma DecryptWithNonce_total c ct nonce :
  (∀ msg, DecryptWithNonce c ct nonce ≠ Panic msg) ∧ (∀ pt, DecryptWithNonce c ct nonce = Ok pt → len ct = len pt + DefaultOverhead).
Proof using CL.
  unfold DecryptWithNonce, openWith. destruct (enableImplicitNonce c); [done|]. destruct (negb _); [done|].
  destruct (Open _ _ _) as [pt|] eqn:E; [|done]. split; [done|]. intros pt' [= <-]. by eapply Open_len.
Qed.

(** Length of the payload that the metadata announces. *)
Definition announced (m : metadata) : Z :=
  match m with
  | MSession ss => ss_payloadLen ss
  | MDataAck das => if isLowEntropyProtocol (das_Protocol das) && (das_payloadLen das >? 0) then das_extractedPayloadLen das else das_payloadLen das
  end.

Section parse.
Context (isClient : bool) (ublock bc : option aeadBlockCipher) (c : aeadBlockCipher) (Hc : payloadCipher isClient ublock bc = Ok c).

Lemma parseSession_total ss nonce remaining :
  0 <= ss_payloadLen ss <= MaxSessionOpenPayload →
  match parseSessionSegment isClient ublock ss nonce remaining bc with
  | Ok seg => seg = received (MSession ss) (seg_payload seg) ∧ len (seg_payload seg) = ss_payloadLen ss
  | Err _ => True
  | Panic _ => False
  end.
Proof using CL Hc.
  intros Hpl. unfold parseSessionSegment. destruct (Z.gtb_spec (ss_payloadLen ss) 0).
  - destruct (Z.ltb_spec (len remaining) (ss_payloadLen ss + DefaultOverhead)); [done|]. rewrite Hc, bind_Ok.
    set (ct := slice_to _ remaining). destruct (DecryptWithNonce_total c ct nonce) as [Hp Hl].
    destruct (DecryptWithNonce c ct nonce) as [pt|e|m]; [|done|by destruct (Hp m)]. destruct (negb _); [done|]. split; [done|].
    specialize (Hl pt eq_refl). cbn. unfold ct in Hl. rewrite wrap_id, len_slice_to in Hl by (unfold in_width, MaxSessionOpenPayload, DefaultOverhead in *; lia).
    lia.
  - destruct (negb _); [done|]. split; [done|]. cbn. rewrite len_nil. lia.
Qed.

Lemma parseDataAck_total das nonce remaining :
  das_wf das → bytes_ok remaining →
  match parseDataAckSegment isClient ublock das nonce remaining bc with
  | Ok seg => seg = received (MDataAck das) (seg_payload seg) ∧ len (seg_payload seg) = announced (MDataAck das)
  | Err _ => True
  | Panic _ => False
  end.
Proof using CL Hc.
  intros (_ & _ & _ & _ & _ & _ & _ & _ & [Hpl _] & _ & Hm & _) Hb. unfold parseDataAckSegment, announced.
  set (le := isLowEntropyProtocol _).
  destruct (if le then validateLowEntropyDataAckMetadata das else Ok tt) as [[]|e|m] eqn:Hv; cbn; [|done|].
  2:{ destruct le; [|done]. by apply validate_total in Hv. }
  destruct (_ && _); [done|]. set (r := if das_prefixLen das >? 0 then _ else remaining).
  assert (bytes_ok r) as Hbr by (unfold r, slice_from; destruct (_ >? _); auto with mieru). clearbody r.
  destruct (Z.gtb_spec (das_payloadLen das) 0).
  - destruct (Z.ltb_spec (len r) (das_payloadLen das + DefaultOverhead)); [done|]. destruct (negb _); [done|].
    rewrite Hc. cbn [mbind result_bind]. set (ct := slice_to _ r).
    assert (len ct = das_payloadLen das + DefaultOverhead) as Hlct by (unfold ct; rewrite len_slice_to; unfold DefaultOverhead in *; lia).
    assert (bytes_ok ct) as Hbct by (unfold ct, slice_to; auto with mieru). rewrite andb_true_r.
    destruct le.
    + destruct (decodeEncrypted_total ct das) as [Hp Hlen]. specialize (Hlen Hbct Hm Hpl).
      destruct (decodeLowEntropyEncryptedPayload ct das) as [out|e|m]; cbn; [|done|by destruct (Hp m)]. specialize (Hlen out eq_refl).
      destruct (DecryptWithNonce_total c out nonce) as [Hp' Hl].
      destruct (DecryptWithNonce c out nonce) as [pt|e|m]; [|done|by destruct (Hp' m)]. specialize (Hl pt eq_refl). split; [done|]. cbn. lia.
    + cbn. destruct (DecryptWithNonce_total c ct nonce) as [Hp' Hl].
      destruct (DecryptWithNonce c ct nonce) as [pt|e|m]; [|done|by destruct (Hp' m)]. specialize (Hl pt eq_refl). split; [done|]. cbn. lia.
  - destruct (negb _); [done|]. rewrite andb_false_r. split; [done|]. cbn. rewrite len_nil. lia.
Qed.

Lemma parsePacket_total now b meta :
  bytes_ok b → bytes_ok meta →
  match parsePacket now isClient ublock b meta bc with
  | Ok seg => seg = received (seg_metadata seg) (seg_payload seg) ∧ len (seg_payload seg) = announced (seg_metadata seg) ∧
      match seg_metadata seg with
      | MSession ss => ss_Unmarshal now meta = Ok ss
      | MDataAck das => das_Unmarshal now meta = Ok das
      end
  | Err _ => True
  | Panic _ => False
  end.
Proof using CL Hc.
  intros Hb Hm. unfold parsePacket. destruct (negb _); [done|]. destruct (isSessionProtocol _).
  - destruct (ss_Unmarshal now meta) as [ss|e|m] eqn:E; cbn; [|done|].
    2:{ revert E. unfold ss_Unmarshal. by repeat case_match. }
    pose proof (ss_Unmarshal_wf _ _ _ Hm E) as (_ & _ & _ & _ & [? _] & _). destruct (ss_Unmarshal_inv _ _ _ E) as (_ & _ & _ & ? & _).
    pose proof (parseSession_total ss (slice_to DefaultNonceSize b) (slice_from packetNonHeaderPosition b) ltac:(done)) as Hp.
    destruct (parseSessionSegment _ _ _ _ _ _) as [seg|e|m]; [|done|done]. destruct Hp as [-> Hl]. done.
  - destruct (isDataAckProtocol _); [|done]. destruct (das_Unmarshal now meta) as [das|e|m] eqn:E; cbn; [|done|].
    2:{ by apply das_Unmarshal_total in E. }
    pose proof (parseDataAck_total das (slice_to DefaultNonceSize b) (slice_from packetNonHeaderPosition b) (das_Unmarshal_wf _ _ _ Hm E)
      ltac:(unfold slice_from; auto with mieru)) as Hp.
    destruct (parseDataAckSegment _ _ _ _ _ _) as [seg|e|m]; [|done|done]. destruct Hp as [-> Hl]. done.
Qed.
End parse.

(** Untrusted datagrams: whatever bytes arrive and whatever they decrypt to,
    parsing with an available cipher ends with a segment or an error, never with
    a panic or a read out of range, and the payload of an accepted segment has
    exactly the length that its metadata announces. *)
Theorem parsePacket_safe (now : Z) (isClient : bool) (ublock bc : option aeadBlockCipher) (c : aeadBlockCipher) (b meta : list Z) :
  payloadCipher isClient ublock bc = Ok c → bytes_ok b → bytes_ok meta →
  (∀ msg, parsePacket now isClient ublock b meta bc ≠ Panic msg) ∧
  (∀ seg, parsePacket now isClient ublock b meta bc = Ok seg → len (seg_payload seg) = announced (seg_metadata seg)).
Proof using CL.
  intros Hc Hb Hm. pose proof (parsePacket_total isClient ublock bc c Hc now b meta Hb Hm) as H.
  destruct (parsePacket _ _ _ _ _ _); [|done..]. split; [done|]. intros seg [= <-]. by destruct H as (_ & ? & _).
Qed.
End untrusted.

(** ** Examples *)

#[local] Existing Instance taggedCrypto.
#[local] Existing Instance taggedCrypto_laws.
#[local] Existing Instance fractionFloat.
#[local] Existing Instance fractionFloat_laws.
Definition example_program : program := mkProgram (bytes_of_string "3.20.0") 1 24.
Definition example_sendDraws : sendDraws :=
  mkSendDraws (mkDraws (Some (seqZ 0 24)) [] 0 0) (λ _, 0) (λ n, replicate n 85) example_draws example_draws (λ n, replicate (Z.to_nat n) 0).
Definition example_sender : aeadBlockCipher := mkCipher (replicate 32 7) false [] (bytes_of_string "alice") None false.
Lemma example_padding_draws_ok : Padding.draws_ok example_draws.
Proof.
  split; cbn; intros; try lia.
  - by split.
  - by apply length_replicate.
  - apply (Forall_replicate _ 256). split; [repeat constructor; done|done].
Qed.
Lemma example_sender_ok : sender_ok example_sender example_sender (sd_nonce example_sendDraws).
Proof.
  split; [done|by vm_compute|by apply (bool_decide_unpack _)|by intros bs [= <-]|].
  exists (seqZ 0 24). split; [reflexivity|by apply (bool_decide_unpack _)].
Qed.
Lemma packet_roundtrip_witness :
  ∃ s' dg m', good_datagram 1400 1700000000 example_sender [1; 2; 3] (MDataAck example_prepared) m' dg ∧
    ∀ f, buffer_ok f →
      buildDatagram example_program (with_buffer f example_sendDraws) 1400 None 1700000000 [1; 2; 3] (mkSending example_sender (MDataAck example_prepared) ∅)
        = (s', Ok dg).
Proof.
  apply (packet_roundtrip example_program example_sendDraws 1400 None 1700000000 [1; 2; 3] example_sender example_sender (MDataAck example_prepared) ∅).
  - apply example_sender_ok.
  - split; [apply example_padding_draws_ok..|done].
  - by right.
  - split; [by apply (bool_decide_unpack _)|]. split; [by apply (bool_decide_unpack _)|]. split; [done|]. split; [|done].
    eexists. split; [intros i Hi; cbn; lia|]. vm_compute. reflexivity.
  - by apply (bool_decide_unpack _).
  - intros _. vm_compute. discriminate.
Defined.

Lemma parsePacket_safe_witness :
  let b := replicate 100 7 in
  (∀ msg, parsePacket 1700000000 true (Some example_sender) b (openSessionRequest :: replicate 31 0) None ≠ Panic msg) ∧
  (∀ seg, parsePacket 1700000000 true (Some example_sender) b (openSessionRequest :: replicate 31 0) None = Ok seg →
     len (seg_payload seg) = announced (seg_metadata seg)).
Proof. apply (parsePacket_safe _ _ _ _ example_sender); [done|by apply (bool_decide_unpack _)|by apply (bool_decide_unpack _)]. Defined.
