(* ===== verification/Stream.v ===== *)
(** * pkg/protocol/underlay_stream.go: the byte stream of the stream underlay

    How [writeOneSegment] turns a segment into bytes and how [readOneSegment]
    takes it from the stream again, given the two stateful ciphers; the state
    of the underlay around them is in StreamUnderlay.v.

    Theorems: any sequence of segments comes out at the other end as it went
    in, with nothing left over and the ciphers in step, however the bytes are
    cut on the way; [writeWithPossibleFragment] writes all bytes in order, in
    at most about sqrt(n) pieces. *)
From S2P Require Import Prelude MathExt Messages LowEntropy Metadata GoStd GoFloat GoNet Ascii Cipher Rng Replay SourceCache ServerUser.
From S2P Require Import Segment Underlay Padding Packet.

Definition streamOverhead : Z := MetadataLength + DefaultOverhead * 2.

(** How a read ends when no more bytes come: the deadline, or the connection. *)
Inductive ending := Expired | Broken (e : error).

Section stream.
Context `{C : Crypto} `{F : GoFloat}.

(** ** Writing *)

(** [t.send.Encrypt(dataToSend[offset:offset], plaintext)]. *)
Definition sendEncrypt (d : sendDraws) (offset : Z) (buf plaintext : list Z) : W (list Z) :=
  if offset >? len buf then wlift (Panic "slice bounds out of range") else
  c ← wblock;
  '(c, ct) ← wlift (Encrypt c (sd_nonce d) (len buf - offset) plaintext);
  _ ← setBlock c;
  mret (copy_at (Z.to_nat offset) ct buf).

Section write.
Variable p : program.
Variable d : sendDraws.
Variable mtu : Z.
Variable trafficPattern : option TrafficPattern.
Variable now : Z.
Variable firstWrite : bool.

Definition encryptedMetadataLen : Z := MetadataLength + DefaultOverhead + (if firstWrite then DefaultNonceSize else 0).

(** The branch for open and close segments, up to the write. *)
Definition streamSessionSegment (ss : sessionStruct) (payload : list Z) : W (list Z) :=
  let maxPaddingSize := maxPaddingSizeWithTrafficPattern mtu StreamTransport (ss_payloadLen ss) 0 trafficPattern endPadding in
  padding ← recommendedPadding p d maxPaddingSize (streamOverhead + ss_payloadLen ss);
  let ss := ss_with_suffix (u8 (len padding)) ss in
  let '(plaintextMetadata, ss) := ss_Marshal now ss in
  _ ← setMetadata (MSession ss);
  let encryptedPayloadLen := if len payload >? 0 then len payload + DefaultOverhead else 0 in
  buf ← wlift (Acquire d (encryptedMetadataLen + encryptedPayloadLen + len padding));
  buf ← wrap_error "Encrypt() failed" (sendEncrypt d 0 buf plaintextMetadata);
  let offset := encryptedMetadataLen in
  '(buf, offset) ←
    (if len payload >? 0 then
       buf ← wrap_error "Encrypt() failed" (sendEncrypt d offset buf payload);
       mret (buf, offset + encryptedPayloadLen)
     else mret (buf, offset));
  mret (copy_at (Z.to_nat offset) padding buf).

Definition streamPadding (draws : paddingDraws) (fragmentSize existing : Z) (position : paddingPosition) : result (list Z) :=
  newPadding draws (mkOpts (maxPaddingSizeWithTrafficPattern mtu StreamTransport fragmentSize existing trafficPattern position)
                           (Some (asciiPadding 0))).

(** The branch for data and acknowledgements. *)
Definition streamDataAckSegment (das : dataAckStruct) (payload : list Z) : W (list Z) :=
  let lowEntropy := isLowEntropyProtocol (das_Protocol das) in
  das ← prepare d lowEntropy das (len payload);
  padding1 ← wlift (streamPadding (sd_pad1 d) (das_payloadLen das) 0 middlePadding);
  padding2 ← wlift (streamPadding (sd_pad2 d) (das_payloadLen das) (len padding1) endPadding);
  let das := das_with_padding (u8 (len padding1)) (u8 (len padding2)) das in
  let '(plaintextMetadata, das) := das_Marshal now das in
  _ ← setMetadata (MDataAck das);
  let wirePayloadLen :=
    if len payload >? 0 then if lowEntropy then das_payloadLen das + DefaultOverhead else len payload + DefaultOverhead else 0 in
  buf ← wlift (Acquire d (encryptedMetadataLen + len padding1 + wirePayloadLen + len padding2));
  buf ← wrap_error "Encrypt() failed" (sendEncrypt d 0 buf plaintextMetadata);
  let offset := encryptedMetadataLen in
  let buf := copy_at (Z.to_nat offset) padding1 buf in
  let offset := offset + Z.min (len padding1) (len buf - offset) in
  '(buf, offset) ←
    (if len payload >? 0 then
       buf ← wrap_error "Encrypt() failed" (sendEncrypt d offset buf payload);
       buf ← (if lowEntropy then replaceLowEntropy p das offset (len payload + DefaultOverhead) buf else mret buf);
       mret (buf, offset + wirePayloadLen)
     else mret (buf, offset));
  mret (copy_at (Z.to_nat offset) padding2 buf).

(** [dataToSend] of [writeOneSegment]. *)
Definition buildStream (payload : list Z) : W (list Z) := λ s,
  match toSessionStruct (w_metadata s) with
  | Panic m => (s, Panic m)
  | Ok (Some ss) => streamSessionSegment ss payload s
  | _ =>
    match toDataAckStruct (w_metadata s) with
    | Panic m => (s, Panic m)
    | Ok (Some das) => streamDataAckSegment das payload s
    | _ => (s, Err ErrInvalidArgument)
    end
  end.
End write.

(** [writeWithPossibleFragment]: the pieces it writes, [sent i] is the outcome
    of the [i]-th [Write] and [draw i n] that of [mrand.Intn(n)].  The float
    square root of a length is exact enough for [int] to be [Z.sqrt].  With [len
    data] rounds of fuel the loop ends by itself. *)
Fixpoint fragmentLoop (fuel i : nat) (sent : nat → option error) (draw : nat → Z → Z) (n : Z) (remaining : list Z)
    : list (list Z) * result unit :=
  match remaining with
  | [] => ([], Ok tt)
  | _ =>
    match fuel with
    | O => ([], Panic "out of fuel")
    | S fuel =>
      let minLenToSend := Z.sqrt n + 1 in
      let maxLenToSend := Max minLenToSend (n `quot` 2) in
      let lenToSend := draw i (maxLenToSend - minLenToSend + 1) + minLenToSend in
      let lenToSend := if lenToSend >? len remaining then len remaining else lenToSend in
      match sent i with
      | Some e => ([], Err (Wrapf "Write() failed" e))
      | None =>
        let '(pieces, r) := fragmentLoop fuel (S i) sent draw n (slice_from lenToSend remaining) in
        (slice_to lenToSend remaining :: pieces, r)
      end
    end
  end.
Definition writeWithPossibleFragment (trafficPattern : option TrafficPattern) (sent : nat → option error) (draw : nat → Z → Z) (data : list Z)
    : list (list Z) * result unit :=
  if negb (GetEnable (GetTcpFragment trafficPattern)) then
    match sent 0%nat with
    | Some e => ([], Err (Wrapf "Write() failed" e))
    | None => ([data], Ok tt)
    end
  else fragmentLoop (length data) 0 sent draw (len data) data.

(** ** Reading *)

(** The part of the underlay that reading changes: [t.recv], the bytes that come
    in, the replay cache, [t.inBytes], the registry and the users' ciphers. *)
Record reading := mkReading {
  rd_recv : option aeadBlockCipher;
  rd_in : list Z;
  rd_replays : ReplayCache;
  rd_inBytes : Z;
  rd_users : option Registry;
  rd_world : ServerUser.world
}.
#[export] Instance reading_eta : Settable reading := λ s,
  mkReading (rd_recv s) (rd_in s) (rd_replays s) (rd_inBytes s) (rd_users s) (rd_world s).
Definition R (A : Type) : Type := reading → reading * result A.
#[export] Instance R_ret : MRet R := λ A a s, (s, Ok a).
#[export] Instance R_bind : MBind R := λ A B f m s,
  match m s with
  | (s, Ok a) => f a s
  | (s, Err e) => (s, Err e)
  | (s, Panic p) => (s, Panic p)
  end.
Definition rlift {A} (r : result A) : R A := λ s, (s, r).
Definition rrecv : R (option aeadBlockCipher) := λ s, (s, Ok (rd_recv s)).
Definition rtyped {A} (t : errorType) (msg : string) (m : R A) : R A := λ s,
  match m s with
  | (s, Err e) => (s, Err (TypedError t (Wrapf msg e)))
  | r => r
  end.

(** [io.ReadFull]: with the error comes whether nothing was read. *)
Definition ReadFull (n : Z) (stop : ending) (s : reading) : reading * (list Z + error * bool) :=
  if n <=? len (rd_in s) then (s<|rd_in := slice_from n (rd_in s)|>, inl (slice_to n (rd_in s)))
  else
    let nothing := len (rd_in s) =? 0 in
    let e := match stop with
             | Expired => ErrTimeout
             | Broken EOF => if nothing then EOF else ErrUnexpectedEOF
             | Broken e => e
             end in
    (s<|rd_in := []|>, inr (e, nothing)).
(** A read that counts its bytes. *)
Definition readBytes (n : Z) (stop : ending) : R (list Z) := λ s,
  match ReadFull n stop s with
  | (s, inl b) => (s<|rd_inBytes := rd_inBytes s + len b|>, Ok b)
  | (s, inr (e, _)) => (s, Err e)
  end.
(** [streamReplayCache.IsDuplicate(b[:DefaultOverhead], EmptyTag)]. *)
Definition notice (now : Z) (b : list Z) : R bool := λ s,
  let '(cache, dup) := IsDuplicate now (slice_to DefaultOverhead b) EmptyTag (rd_replays s) in
  (s<|rd_replays := cache|>, Ok dup).
(** [t.recv.Decrypt(b)]. *)
Definition recvDecrypt (b : list Z) : R (list Z) := λ s,
  match rd_recv s with
  | None => (s, Panic "nil pointer dereference")
  | Some c => let '(c, r) := Decrypt c b in (s<|rd_recv := Some c|>, r)
  end.
Definition arrived (m : metadata) (payload : list Z) (blk : option aeadBlockCipher) : segment :=
  mkSegment m payload StreamTransport 0 0 0 0 blk.

Section read.
Variable now : Z.
Variable stop : ending.

Definition readPadding (n : Z) : R unit :=
  if n >? 0 then _ ← rtyped NETWORK_ERROR "padding: read failed" (readBytes n stop); mret tt else mret tt.

Definition readSessionSegment (ss : sessionStruct) : R segment :=
  decryptedPayload ←
    (if ss_payloadLen ss >? 0 then
       encryptedPayload ← rtyped NETWORK_ERROR "payload: read failed" (readBytes (ss_payloadLen ss + DefaultOverhead) stop);
       _ ← notice now encryptedPayload;
       rtyped CRYPTO_ERROR "Decrypt() failed" (recvDecrypt encryptedPayload)
     else mret []);
  _ ← readPadding (ss_suffixLen ss);
  recv ← rrecv;
  mret (arrived (MSession ss) decryptedPayload recv).

Definition readDataAckSegment (das : dataAckStruct) : R segment :=
  _ ← readPadding (das_prefixLen das);
  decryptedPayload ←
    (if das_payloadLen das >? 0 then
       encryptedPayload ← rtyped NETWORK_ERROR "payload: read failed" (readBytes (das_payloadLen das + DefaultOverhead) stop);
       encryptedPayload ←
         (if isLowEntropyProtocol (das_Protocol das)
          then rtyped PROTOCOL_ERROR "decode low entropy payload failed" (rlift (decodeLowEntropyEncryptedPayload encryptedPayload das))
          else mret encryptedPayload);
       _ ← notice now encryptedPayload;
       rtyped CRYPTO_ERROR "Decrypt() failed" (recvDecrypt encryptedPayload)
     else mret []);
  _ ← readPadding (das_suffixLen das);
  recv ← rrecv;
  mret (arrived (MDataAck das) decryptedPayload recv).

(** From the decrypted metadata to the segment; [unix] is the clock of the time check. *)
Definition readBody (unix : Z) (decryptedMeta : list Z) : R segment :=
  if negb (len decryptedMeta =? MetadataLength) then rlift (Err (TypedError PROTOCOL_ERROR (Errorf "decrypted metadata size is unexpected"))) else
  let p := byte_at 0 decryptedMeta in
  if isSessionProtocol p then
    ss ← rtyped PROTOCOL_ERROR "Unmarshal() to sessionStruct failed" (rlift (ss_Unmarshal unix decryptedMeta));
    readSessionSegment ss
  else if isDataAckProtocol p then
    das ← rtyped PROTOCOL_ERROR "Unmarshal() to dataAckStruct failed" (rlift (das_Unmarshal unix decryptedMeta));
    readDataAckSegment das
  else rlift (Err (TypedError PROTOCOL_ERROR (Errorf "unable to handle unknown protocol"))).

(** ** The first segment of a connection *)

Section users.
Variable maphash : list Z → Z.
Variable jitter : Z → Z.
Variable tick : Z.
Variable isClient : bool.
Variable block : option aeadBlockCipher.
Variable trafficPattern : option TrafficPattern.
Variable source : Source.

(** No reload comes between the two loads of one discovery here; ServerUser.v
    has the loop with them. *)
Definition serverInitRecvBlockCipherAndDecryptMetadata (encryptedMeta : list Z) : R (list Z * Authentication) := λ s,
  match rd_recv s with
  | Some _ => (s, Err (Errorf "recv cipher is already set"))
  | None =>
    match rd_users s with
    | None => (s, Err (Errorf "server user registry is nil"))
    | Some reg =>
      let '(w, st, r) := Discover maphash jitter 1 (λ _, r_users reg) (hintMandatory reg) (rd_world s) encryptedMeta source true now tick in
      let s := s<|rd_world := w|><|rd_users := Some match st with Some st => mkRegistry (Some st) (hintMandatory reg) | None => reg end|> in
      match r with
      | Err e => (s, Err e)
      | Panic m => (s, Panic m)
      | Ok (c, _, authentication) =>
        let c := match trafficPattern with Some tp => SetNoncePattern (Nonce tp) c | None => c end in
        match Decrypt (SetImplicitNonceMode true c) encryptedMeta with
        | (c, Ok decryptedMeta) => (s<|rd_recv := Some c|>, Ok (decryptedMeta, authentication))
        | (_, Err e) => (s, Err (Wrapf "stateful Decrypt() failed" e))
        | (_, Panic m) => (s, Panic m)
        end
      end
    end
  end.

(** The metadata, decrypted, with the authentication of a new connection. *)
Definition openMetadata (encryptedMeta : list Z) (isNewSessionReplay : bool) : R (list Z * Authentication) :=
  recv ← rrecv;
  match recv with
  | None =>
    if isClient then
      match block with
      | None => rlift (Panic "nil pointer dereference")
      | Some b =>
        c ← rlift (Clone b);
        _ ← (λ s, (s<|rd_recv := Some c|>, Ok tt)) : R unit;
        decryptedMeta ← rtyped CRYPTO_ERROR "Decrypt() failed" (recvDecrypt encryptedMeta);
        mret (decryptedMeta, noAuthentication)
      end
    else λ s,
      match serverInitRecvBlockCipherAndDecryptMetadata encryptedMeta s with
      | (s, Err e) =>
        if isNewSessionReplay then (s, Err (TypedError REPLAY_ERROR (Errorf "found possible replay attack")))
        else (s, Err (TypedError CRYPTO_ERROR (Wrapf "" e)))
      | (s, Ok x) =>
        if isNewSessionReplay then (s, Err (TypedError REPLAY_ERROR (Errorf "found possible replay attack with payload decrypted")))
        else (s, Ok x)
      | (s, Panic m) => (s, Panic m)
      end
  | Some _ =>
    decryptedMeta ← rtyped CRYPTO_ERROR "Decrypt() failed" (recvDecrypt encryptedMeta);
    mret (decryptedMeta, noAuthentication)
  end.

(** [readOneSegment]: None when nothing came before the deadline. *)
Definition readOneSegment (unix : Z) : R (option (segment * Authentication)) := λ s,
  let firstRead := bool_decide (rd_recv s = None) in
  let readLen := encryptedMetadataLen firstRead in
  match ReadFull readLen stop s with
  | (s, inr (e, nothing)) =>
    if bool_decide (e = ErrTimeout) && nothing then (s, Ok None)
    else (s, Err (TypedError NETWORK_ERROR (Wrapf "metadata: read failed" e)))
  | (s, inl encryptedMeta) =>
    let s := s<|rd_inBytes := rd_inBytes s + len encryptedMeta|> in
    (dup ← notice now encryptedMeta;
     '(decryptedMeta, authentication) ← openMetadata encryptedMeta (dup && firstRead);
     seg ← readBody unix decryptedMeta;
     mret (Some (seg, authentication))) s
  end.
End users.
End read.
End stream.

(** ** Fragments *)

Definition draws_below (draw : nat → Z → Z) : Prop := ∀ i n, 0 < n → 0 <= draw i n < n.

Lemma Max_ge a b : a <= Max a b.
Proof. unfold Max. case_tests; lia. Qed.

Lemma fragmentLoop_spec sent draw n fuel i remaining :
  draws_below draw → 0 <= n → (length remaining <= fuel)%nat →
  let '(pieces, r) := fragmentLoop fuel i sent draw n remaining in
  (len pieces - 1) * (Z.sqrt n + 1) < Z.max 1 (len remaining) ∧ (remaining = [] → pieces = []) ∧ Forall (λ piece, piece ≠ []) pieces ∧
  match r with
  | Ok _ => concat pieces = remaining
  | Err e => concat pieces `prefix_of` remaining ∧ ∃ j e', sent j = Some e' ∧ e = Wrapf "Write() failed" e'
  | Panic _ => False
  end.
Proof.
  intros Hdraw Hn. pose proof (Z.sqrt_nonneg n) as Hs. revert i remaining. induction fuel as [|fuel IH]; intros i remaining Hf.
  { destruct remaining; [|cbn in Hf; lia]. cbn. split_and!; [unfold len; cbn; lia|done|constructor|done]. }
  destruct remaining as [|x l]; [cbn; split_and!; [unfold len; cbn; lia|done|constructor|done]|].
  cbn [fragmentLoop]. cbv zeta. set (remaining := x :: l) in *. set (mn := Z.sqrt n + 1). set (mx := Max mn (n `quot` 2)).
  assert (mn <= mx) as Hmx by apply Max_ge. pose proof (Hdraw i (mx - mn + 1) ltac:(lia)) as Hd.
  set (k := if draw i (mx - mn + 1) + mn >? len remaining then len remaining else draw i (mx - mn + 1) + mn).
  assert (0 < len remaining) as Hl by (unfold remaining; rewrite len_cons; pose proof (len_nonneg l); lia).
  assert (0 < k <= len remaining ∧ (k = len remaining ∨ mn <= k)) as [Hk Hk'].
  { unfold k. destruct (Z.gtb_spec (draw i (mx - mn + 1) + mn) (len remaining)); split; lia. }
  destruct (sent i) as [e|] eqn:Es.
  { split_and!; [unfold len at 1; cbn; lia|done|constructor|apply prefix_nil|by exists i, e]. }
  assert (len (slice_from k remaining) = len remaining - k) as Hrest by (apply len_slice_from; lia).
  specialize (IH (S i) (slice_from k remaining)). destruct (fragmentLoop fuel (S i) sent draw n (slice_from k remaining)) as [pieces r].
  destruct IH as (H1 & H0 & H2 & H3); [unfold len in *; lia|]. rewrite Hrest in H1.
  split_and!.
  - rewrite len_cons. destruct (Z.eq_dec (len remaining - k) 0) as [E|E].
    + rewrite H0 by (apply len_zero; lia). change (len []) with 0. lia.
    + destruct Hk' as [->|Hk']; [lia|]. fold mn in H1 |- *. nia.
  - done.
  - constructor; [|done]. intros E. assert (len (slice_to k remaining) = 0) as E' by (by rewrite E). rewrite len_slice_to in E' by lia. lia.
  - destruct r as [[]|e|m]; cbn [concat]; [|destruct H3 as [H3 ?]; split; [|done]|done].
    + rewrite H3. apply slice_to_from.
    + rewrite <-(slice_to_from k remaining) at 2. by apply prefix_app.
Qed.

(** Writing in fragments ends and loses nothing: for any data and any sizes
    that are drawn, what is written is the data in order, in at most [sqrt n + 1]
    nonempty pieces of [n] bytes; when a write fails the pieces before it are a
    prefix, and the error is that of the write. *)
Theorem fragments_in_order (trafficPattern : option TrafficPattern) (sent : nat → option error) (draw : nat → Z → Z) (data : list Z) :
  draws_below draw →
  let '(pieces, r) := writeWithPossibleFragment trafficPattern sent draw data in
  (len pieces <= Z.sqrt (len data) + 1) ∧
  match r with
  | Ok _ => concat pieces = data
  | Err e => concat pieces `prefix_of` data ∧ ∃ j e', sent j = Some e' ∧ e = Wrapf "Write() failed" e'
  | Panic _ => False
  end.
Proof.
  intros Hdraw. pose proof (Z.sqrt_nonneg (len data)) as Hs. pose proof (len_nonneg data) as Hn. unfold writeWithPossibleFragment.
  destruct (negb _).
  - destruct (sent 0%nat) as [e|] eqn:Es; cbn [concat]; (split; [unfold len at 1; cbn; lia|]).
    + split; [apply prefix_nil|by exists 0%nat, e].
    + apply app_nil_r.
  - pose proof (fragmentLoop_spec sent draw (len data) (length data) 0 data Hdraw Hn ltac:(lia)) as H.
    destruct (fragmentLoop _ _ _ _ _ _) as [pieces r]. destruct H as (H1 & _ & _ & H3). split; [|done].
    pose proof (Z.sqrt_spec (len data) Hn) as [_ Hsq]. nia.
Qed.
Lemma fragments_in_order_witness :
  let '(pieces, r) := writeWithPossibleFragment
    (Some (mkTrafficPattern None None (Some (mkTCPFragment (Some true) None)) None None None)) (λ _, None) (λ i n, Z.of_nat i mod n) (seqZ 0 100) in
  len pieces <= Z.sqrt (len (seqZ 0 100)) + 1 ∧ len pieces = 8 ∧ r = Ok tt.
Proof.
  pose proof (fragments_in_order (Some (mkTrafficPattern None None (Some (mkTCPFragment (Some true) None)) None None None)) (λ _, None)
    (λ i n, Z.of_nat i mod n) (seqZ 0 100)) as H.
  assert (draws_below (λ i n, Z.of_nat i mod n)) as Hd by (intros i n Hn; apply Z.mod_pos_bound; lia). specialize (H Hd).
  vm_compute in H |- *. destruct H. by split_and!.
Defined.

(** ** The ciphers of a stream *)

Section ciphers.
Context `{CL : CryptoLaws} `{F : GoFloat} {FL : GoFloatLaws F}.

(** A cipher that can send: started, or new with a nonce source that works. *)
Definition unstarted (c : aeadBlockCipher) : bool := len (implicitNonce c) =? 0.
Record ready (c : aeadBlockCipher) (nd : nonceDraws) : Prop := {
  rd_implicit : enableImplicitNonce c = true;
  rd_nonce : nonce_wf (implicitNonce c) ∨
    implicitNonce c = [] ∧ Cipher.draws_ok nd ∧ len (c_userName c) <= MaxUserNameLen ∧
    ∃ c1 n1, newNonceTo c nd (NonceSize c) = Ok (c1, n1) ∧ bytes_ok n1
}.
(** The two ends before a message. *)
Definition aligned (s r : aeadBlockCipher) : Prop :=
  enableImplicitNonce s = true ∧ enableImplicitNonce r = true ∧ c_key s = c_key r ∧ implicitNonce s = implicitNonce r ∧
  (implicitNonce s = [] ∨ len (implicitNonce s) = DefaultNonceSize).
(** A cipher after it has sent something. *)
Record started (c s : aeadBlockCipher) : Prop := {
  st_implicit : enableImplicitNonce s = true;
  st_key : c_key s = c_key c;
  st_name : c_userName s = c_userName c;
  st_nonce : nonce_wf (implicitNonce s)
}.

Lemma started_ready c s nd : started c s → ready s nd.
Proof using. intros [? _ _ ?]. split; [done|by left]. Qed.
Lemma started_trans c s1 s2 : started c s1 → started s1 s2 → started c s2.
Proof using. intros [] []. split; congruence. Qed.
Lemma in_step_aligned s r : in_step s r → aligned s r.
Proof using. intros (? & ? & ? & ? & ?). split_and!; auto. Qed.

(** What one message looks like: the nonce before the first one only. *)
Record sealed (s s' : aeadBlockCipher) (pt ct nonce : list Z) : Prop := {
  se_form : ct = (if unstarted s then nonce else []) ++ Seal (c_key s) nonce pt;
  se_nonce : nonce_wf nonce;
  se_started : started s s';
  se_hint : unstarted s = true → 0 < len (c_userName s) → CheckUserFromHint (c_userName s) nonce = Ok true;
  se_open : ∀ r, aligned s r → ∃ r', Decrypt r ct = (r', Ok pt) ∧ in_step s' r'
}.
Lemma sealed_len s s' pt ct nonce : sealed s s' pt ct nonce → len ct = len pt + DefaultOverhead + (if unstarted s then DefaultNonceSize else 0).
Proof using CL. intros [-> [Hl _] _ _ _]. rewrite len_app, Seal_len. destruct (unstarted s); [lia|rewrite len_nil; lia]. Qed.

Lemma Encrypt_ready s nd pt :
  ready s nd → ∃ s' ct nonce, sealed s s' pt ct nonce ∧ ∀ room, len ct <= room → Encrypt s nd room pt = Ok (s', ct).
Proof using CL.
  intros [Hi [Hwf|(Hempty & Hd & Hu & c1 & n1 & Hn & Hb1)]].
  - pose proof Hwf as [Hl Hb]. set (n' := be_put 24 (be_get (implicitNonce s) + 1)).
    pose proof (increaseNonce_spec s Hi Hwf) as Hinc. fold n' in Hinc.
    assert (unstarted s = false) as Hun by (unfold unstarted; rewrite Hl; done).
    exists (with_nonce n' s), (Seal (c_key s) n' pt), n'. split; [split|].
    + by rewrite Hun.
    + apply be_put_nonce_wf.
    + split; [done..|apply be_put_nonce_wf].
    + by rewrite Hun.
    + intros r (_ & Hr & Hkr & Hnr & _). exists (with_nonce n' r). split.
      * unfold Decrypt. rewrite Hr, <-Hnr, Hl. change (DefaultNonceSize =? 0) with false. cbn iota.
        rewrite (increaseNonce_spec r Hr) by (by rewrite <-Hnr). rewrite <-Hnr. fold n'. f_equal. by apply (openWith_Seal s (with_nonce n' r)).
      * unfold in_step. cbn. by split_and!.
    + intros room Hroom. rewrite Seal_len in Hroom. unfold Encrypt. rewrite Hi, Hl, Hinc. change (DefaultNonceSize =? 0) with false. cbn [negb orb].
      destruct (Z.ltb_spec room (len pt + Overhead s)); [unfold Overhead in *; lia|]. rewrite !bind_Ok. done.
  - destruct (newNonce_hint s nd c1 n1 Hd Hu Hn) as (Hc & n2 & Hn2 & Hl2 & Hhint).
    assert (c_key c1 = c_key s ∧ enableImplicitNonce c1 = true ∧ c_userName c1 = c_userName s) as (Hk1 & Hi1 & Hu1) by (by destruct Hc as [-> | ->]).
    assert (nonce_wf n2) as Hwf2 by (split; [done|by eapply addUserHint_bytes]).
    assert (unstarted s = true) as Hun by (unfold unstarted; by rewrite Hempty).
    exists (with_nonce n2 c1), (n2 ++ Seal (c_key s) n2 pt), n2. split; [split|].
    + by rewrite Hun.
    + done.
    + by split.
    + by intros _.
    + intros r (_ & Hr & Hkr & Hnr & _). exists (with_nonce n2 r). split.
      * destruct (split_nonce n2 (Seal (c_key s) n2 pt) Hl2) as (H1 & H2 & H3).
        unfold Decrypt, NonceSize. rewrite Hr, <-Hnr, Hempty. change (len [] =? 0) with true. cbn iota. rewrite H1, H2, H3.
        f_equal. by apply (openWith_Seal s (with_nonce n2 r)).
      * unfold in_step. cbn. split_and!; try done. by rewrite Hk1.
    + intros room Hroom. rewrite len_app, Seal_len, Hl2 in Hroom. unfold Encrypt. rewrite Hi, Hempty. change (len [] =? 0) with true. cbn [negb orb].
      destruct (Z.ltb_spec room (len pt + Overhead s + NonceSize s)); [unfold Overhead, NonceSize in *; lia|].
      unfold newNonce. rewrite Hn, !bind_Ok, Hn2, !bind_Ok. by rewrite <-Hk1.
Qed.

(** One encryption into the buffer, behind what is already there. *)
Lemma sendEncrypt_spec d s m fixedV s' pt ct nonce :
  sealed s s' pt ct nonce → (∀ room, len ct <= room → Encrypt s (sd_nonce d) room pt = Ok (s', ct)) →
  ∀ f pre rest, len ct <= len rest →
    sendEncrypt (with_buffer f d) (len pre) (pre ++ rest) pt (mkSending s m fixedV) = (mkSending s' m fixedV, Ok (pre ++ ct ++ slice_from (len ct) rest)).
Proof using.
  intros _ Henc f pre rest Hl. unfold sendEncrypt. rewrite len_app. pose proof (len_nonneg rest).
  destruct (Z.gtb_spec (len pre) (len pre + len rest)); [lia|]. erewrite W_bind_Ok by reflexivity. cbn [w_block].
  erewrite W_bind_Ok by (unfold wlift; cbn [with_buffer sd_nonce]; rewrite Henc by lia; reflexivity).
  cbv beta iota. rewrite (W_bind_Ok (setBlock s') _ _ (mkSending s' m fixedV) tt) by reflexivity. unfold mret, W_ret. do 2 f_equal. by apply fill.
Qed.
End ciphers.

(** ** What is written *)

Section writing.
Context `{CL : CryptoLaws} `{F : GoFloat} {FL : GoFloatLaws F}.

Definition sealedPayload (s s' : aeadBlockCipher) (payload ct nonce : list Z) : Prop :=
  if len payload >? 0 then sealed s s' payload ct nonce else ct = [] ∧ s' = s.
Lemma payload_ready s nd payload :
  ready s nd → unstarted s = false → ∃ s' ct nonce, sealedPayload s s' payload ct nonce ∧ len ct = (if len payload >? 0 then len payload + DefaultOverhead else 0) ∧
    ((len payload >? 0) = true → ∀ room, len ct <= room → Encrypt s nd room payload = Ok (s', ct)).
Proof using CL.
  intros Hs Hun. unfold sealedPayload. destruct (len payload >? 0); [|by exists s, [], []].
  destruct (Encrypt_ready s nd payload Hs) as (s' & ct & nonce & H1 & H2). exists s', ct, nonce. split_and!; [done| |done].
  rewrite (sealed_len _ _ _ _ _ H1), Hun. lia.
Qed.
Lemma started_unstarted c s : started c s → unstarted s = false.
Proof using. intros [_ _ _ [Hl _]]. unfold unstarted. by rewrite Hl. Qed.

Lemma header_length (s : aeadBlockCipher) : encryptedMetadataLen (unstarted s) = 32 + DefaultOverhead + (if unstarted s then DefaultNonceSize else 0).
Proof using. done. Qed.

(** The first message of a segment: the metadata, at the start of the buffer. *)
Lemma sendHeader_spec d s m fixedV s1 pt ctm n1 :
  sealed s s1 pt ctm n1 → (∀ room, len ctm <= room → Encrypt s (sd_nonce d) room pt = Ok (s1, ctm)) →
  ∀ f buf, len ctm <= len buf →
    wrap_error "Encrypt() failed" (sendEncrypt (with_buffer f d) 0 buf pt) (mkSending s m fixedV) = (mkSending s1 m fixedV, Ok (ctm ++ slice_from (len ctm) buf)).
Proof using.
  intros H1 H2 f buf Hl. apply wrap_error_Ok. exact (sendEncrypt_spec d s m fixedV s1 pt ctm n1 H1 H2 f [] buf Hl).
Qed.

Lemma streamSession_spec p d mtu tp now s ss payload m fixedV :
  ready s (sd_nonce d) → padding_ok p d →
  ∃ fixedV' padding s1 s2 ctm n1 ctp n2,
    let ss' := ss_with_suffix (len padding) ss in
    len padding <= 255 ∧ sealed s s1 (ss_Marshal now ss').1 ctm n1 ∧ sealedPayload s1 s2 payload ctp n2 ∧
    ∀ f, buffer_ok f →
      streamSessionSegment p (with_buffer f d) mtu tp now (unstarted s) ss payload (mkSending s m fixedV) =
        (mkSending s2 (MSession (ss_with_timestamp (minuteOf now) ss')) fixedV', Ok (ctm ++ ctp ++ padding)).
Proof using CL FL.
  intros Hs Hp. pose proof (maxPaddingSize_range mtu StreamTransport (ss_payloadLen ss) 0 tp endPadding) as Hmax.
  destruct (recommendedPadding_spec p d _ (streamOverhead + ss_payloadLen ss) s m fixedV Hp Hmax) as (fixedV' & padding & Hpad & Hrec).
  pose proof (len_nonneg padding) as Hpad0. pose proof (len_nonneg payload) as Hpl0.
  set (ss' := ss_with_suffix (len padding) ss). set (m' := MSession (ss_with_timestamp (minuteOf now) ss')).
  destruct (Encrypt_ready s (sd_nonce d) (ss_Marshal now ss').1 Hs) as (s1 & ctm & n1 & Hsealed & Henc).
  pose proof (se_started _ _ _ _ _ Hsealed) as Hst1. pose proof (sealed_len _ _ _ _ _ Hsealed) as Hl. rewrite ss_Marshal_len in Hl.
  destruct (payload_ready s1 (sd_nonce d) payload) as (s2 & ctp & n2 & Hsp & Hlp & Hencp);
    [by eapply started_ready|by eapply started_unstarted|].
  exists fixedV', padding, s1, s2, ctm, n1, ctp, n2. cbv zeta. split_and!; [lia|exact Hsealed|exact Hsp|]. fold ss' m'.
  intros f Hf. unfold streamSessionSegment. rewrite (W_bind_Ok _ _ _ _ _ (Hrec f)), len_u8 by lia. fold ss'.
  cbv zeta. rewrite (ss_Marshal_pair now ss'). rewrite (W_bind_Ok (setMetadata _) _ _ (mkSending s m' fixedV') tt) by reflexivity.
  rewrite header_length, <-Hl, <-Hlp. pose proof (len_nonneg ctm). pose proof (len_nonneg ctp).
  set (N := len ctm + len ctp + len padding). assert (len (f N) = N) as HfN by (apply Hf; lia).
  rewrite (W_bind_Ok (wlift _) _ _ _ (f N)) by (unfold wlift; by rewrite Acquire_Ok by (done || lia)).
  rewrite (W_bind_Ok (wrap_error _ _) _ _ _ _ (sendHeader_spec d s m' fixedV' s1 _ ctm n1 Hsealed Henc f (f N) ltac:(lia))).
  set (R := slice_from (len ctm) (f N)). assert (len R = len ctp + len padding) as HR by (unfold R; rewrite len_slice_from by lia; lia).
  unfold sealedPayload in Hsp. destruct (len payload >? 0).
  - rewrite (W_bind_Ok _ _ _ (mkSending s2 m' fixedV') (ctm ++ ctp ++ slice_from (len ctp) R, len ctm + len ctp)).
    2:{ erewrite W_bind_Ok; [reflexivity|]. apply wrap_error_Ok.
        apply (sendEncrypt_spec d s1 m' fixedV' s2 payload ctp n2 Hsp (Hencp eq_refl) f ctm R). lia. }
    unfold mret, W_ret. do 2 f_equal. rewrite (app_assoc ctm), fill_end, <-app_assoc; [done|by rewrite len_app|].
    rewrite len_slice_from by lia. lia.
  - destruct Hsp as [-> ->]. rewrite (W_bind_Ok _ _ _ (mkSending s1 m' fixedV') (ctm ++ R, len ctm)) by reflexivity.
    unfold mret, W_ret. do 2 f_equal. cbn [app]. rewrite fill_end; [done|done|rewrite HR, len_nil; lia].
Qed.

Lemma streamPadding_spec draws mtu tp fragment existing pos :
  Padding.draws_ok draws →
  ∃ padding, streamPadding mtu tp draws fragment existing pos = Ok padding ∧ len padding <= 255.
Proof using FL.
  intros Hd. unfold streamPadding. set (max := maxPaddingSizeWithTrafficPattern _ _ _ _ _ _).
  pose proof (maxPaddingSize_range mtu StreamTransport fragment existing tp pos) as Hmax. fold max in Hmax.
  destruct (newPadding_spec draws (mkOpts max (Some (asciiPadding 0))) Hd) as (padding & -> & Hl & _); [by split; cbn; lia|].
  exists padding. cbn in Hl. split; [done|lia].
Qed.

(** The payload of a data segment on the wire: the second message, possibly in
    its low entropy form. *)
Definition streamWire (p : program) (s s' : aeadBlockCipher) (das : dataAckStruct) (payload wire nonce : list Z) : Prop :=
  ∃ ct, sealedPayload s s' payload ct nonce ∧
    if (len payload >? 0) && isLowEntropyProtocol (das_Protocol das)
    then encodeLowEntropyEncryptedPayload (lowEntropyPaddingBit p) ct das = Ok wire ∧ len wire = das_payloadLen das + DefaultOverhead ∧
         decodeLowEntropyEncryptedPayload wire das = Ok ct ∧ len payload <= das_payloadLen das
    else wire = ct.
Lemma streamWire_len p s s' das payload wire nonce :
  unstarted s = false → streamWire p s s' das payload wire nonce → len wire = wire_len das payload.
Proof using CL.
  intros Hun (ct & Hsp & Hw). unfold sealedPayload, wire_len in *. destruct (len payload >? 0); cbn [andb] in Hw.
  - pose proof (sealed_len _ _ _ _ _ Hsp) as Hl. rewrite Hun in Hl. destruct (isLowEntropyProtocol _); [by destruct Hw as (_ & ? & _)|]. subst wire. lia.
  - destruct Hsp as [-> _]. by subst wire.
Qed.
Lemma streamWire_exists p d s s1 das das1 pre suf ts payload ct nonce :
  (lowEntropyPaddingBit p = 0 ∨ lowEntropyPaddingBit p = 1) → bytes_ok (c_key s) → unstarted s = false → bytes_ok payload →
  prepared d das das1 (len payload) → sealedPayload s s1 payload ct nonce →
  ∃ wire, streamWire p s s1 (das_with_timestamp ts (das_with_padding pre suf das1)) payload wire nonce ∧
    ((len payload >? 0) && isLowEntropyProtocol (das_Protocol das) = true → encodeLowEntropyEncryptedPayload (lowEntropyPaddingBit p) ct
       (das_with_timestamp ts (das_with_padding pre suf das1)) = Ok wire) ∧
    ((len payload >? 0) && isLowEntropyProtocol (das_Protocol das) = false → wire = ct).
Proof using CL.
  intros Hbit Hk Hun Hb Hprep Hsp. destruct (prepared_protocol _ _ _ _ Hprep) as [Ep _].
  assert (das_Protocol (das_with_timestamp ts (das_with_padding pre suf das1)) = das_Protocol das) as Epr by (by rewrite <-Ep).
  destruct (len payload >? 0) eqn:Epl; cbn [andb]; [destruct (isLowEntropyProtocol (das_Protocol das)) eqn:Ele|].
  2,3: exists ct; split; [|done]; exists ct; by rewrite Epr, Epl, ?Ele.
  unfold prepared in Hprep. rewrite Ele in Hprep. destruct Hprep as [Hd E].
  destruct (prepare_inv _ _ _ _ Hd E) as (m & params & -> & Hm & Hlen & Hpos & Hval & Hv & Hpl & Hmax).
  set (das3 := das_with_timestamp ts (das_with_padding pre suf (with_mask m das))) in *.
  pose proof Hsp as Hsp'. unfold sealedPayload in Hsp. rewrite Epl in Hsp. destruct Hsp as [Hform [_ Hnb] _ _ _]. rewrite Hun in Hform. cbn [app] in Hform.
  destruct (encrypted_payload_roundtrip (lowEntropyPaddingBit p) Hbit das3 ct params) as (wire & H1 & H2 & H3);
    [exact Hval|by rewrite Hlen in Hpos|exact Hv|by rewrite Hlen in Hpl|exact Hmax|exact Hm|by rewrite Hform; apply Seal_bytes|by rewrite Hform, Seal_len, Hlen|].
  exists wire. split; [|split; [by intros _|done]]. exists ct. rewrite Epr, Epl, Ele. cbn [andb]. split_and!; try done.
  destruct (validate_inv _ _ _ _ Hv) as (Hbp & _). pose proof (buildLowEntropyParams_inv _ _ Hbp) as [Hspc _].
  change (das_payloadLen das3) with (das_payloadLen das). rewrite Hpl. apply chunkCount_ge; lia.
Qed.

(** Putting the payload behind what is already in the buffer. *)
Definition payloadInto_stream (p : program) (d : sendDraws) (lowEntropy : bool) (das : dataAckStruct) (payload buf : list Z) (offset n : Z) : W (list Z * Z) :=
  if len payload >? 0 then
    buf ← wrap_error "Encrypt() failed" (sendEncrypt d offset buf payload);
    buf ← (if lowEntropy then replaceLowEntropy p das offset (len payload + DefaultOverhead) buf else mret buf);
    mret (buf, offset + n)
  else mret (buf, offset).
Lemma payloadInto_stream_spec p d s s1 m fixedV das payload ct wire nonce pre rest f :
  unstarted s = false → sealedPayload s s1 payload ct nonce → streamWire p s s1 das payload wire nonce →
  ((len payload >? 0) && isLowEntropyProtocol (das_Protocol das) = true → encodeLowEntropyEncryptedPayload (lowEntropyPaddingBit p) ct das = Ok wire ∧ len payload <= das_payloadLen das) →
  ((len payload >? 0) && isLowEntropyProtocol (das_Protocol das) = false → wire = ct) →
  ((len payload >? 0) = true → ∀ room, len ct <= room → Encrypt s (sd_nonce d) room payload = Ok (s1, ct)) →
  wire_len das payload <= len rest →
  payloadInto_stream p (with_buffer f d) (isLowEntropyProtocol (das_Protocol das)) das payload (pre ++ rest) (len pre) (wire_len das payload) (mkSending s m fixedV) =
    (mkSending s1 m fixedV, Ok (pre ++ wire ++ slice_from (wire_len das payload) rest, len pre + wire_len das payload)).
Proof using CL.
  intros Hun Hsp Hw Henc1 Heq Henc Hr. pose proof (streamWire_len _ _ _ _ _ _ _ Hun Hw) as Hwl.
  unfold payloadInto_stream, wire_len, sealedPayload in *. pose proof (Hsp) as Hsp'.
  destruct (len payload >? 0); cbn [andb] in *.
  2:{ destruct Hsp as [-> ->]. rewrite (Heq eq_refl). cbn [app]. by rewrite Z.add_0_r. }
  pose proof (sealed_len _ _ _ _ _ Hsp) as Hct. rewrite Hun in Hct. rewrite Z.add_0_r in Hct. pose proof (len_nonneg payload). pose proof (len_nonneg ct).
  destruct (isLowEntropyProtocol (das_Protocol das)).
  - destruct (Henc1 eq_refl) as [Hencode Hle].
    erewrite (W_bind_Ok (wrap_error _ _)) by (apply wrap_error_Ok; apply (sendEncrypt_spec d s m fixedV s1 payload ct nonce Hsp (Henc eq_refl) f pre rest); lia).
    set (rest' := slice_from (len ct) rest). assert (len rest' = len rest - len ct) as Hrest' by (unfold rest'; rewrite len_slice_from by lia; done).
    rewrite (W_bind_Ok _ _ _ (mkSending s1 m fixedV) (pre ++ wire ++ slice_from (das_payloadLen das + DefaultOverhead) rest)); [done|].
    unfold replaceLowEntropy. rewrite !len_app, Hrest'. rewrite <-Hct.
    match goal with |- context [?a >? ?b] => destruct (Z.gtb_spec a b); [lia|] end.
    rewrite slice_middle. erewrite W_bind_Ok by (apply wrap_error_Ok; unfold wlift; by rewrite Hencode).
    rewrite fill by (done || rewrite len_app, Hrest'; lia). rewrite slice_from_app_ge by lia. unfold rest'.
    rewrite slice_from_slice_from by lia. replace (len ct + (len wire - len ct)) with (das_payloadLen das + DefaultOverhead) by lia. done.
  - rewrite (Heq eq_refl) in *. rewrite (W_bind_Ok (wrap_error _ _) _ _ (mkSending s1 m fixedV) (pre ++ ct ++ slice_from (len ct) rest)).
    + rewrite Hct. done.
    + apply wrap_error_Ok; apply (sendEncrypt_spec d s m fixedV s1 payload ct nonce Hsp (Henc eq_refl) f pre rest); lia.
Qed.

Lemma streamDataAck_spec p d mtu tp now s das das1 payload m fixedV :
  ready s (sd_nonce d) → bytes_ok (c_key s) → padding_ok p d → (lowEntropyPaddingBit p = 0 ∨ lowEntropyPaddingBit p = 1) →
  bytes_ok payload → prepared d das das1 (len payload) →
  ∃ padding1 padding2 s1 s2 ctm n1 wire n2,
    let das2 := das_with_padding (len padding1) (len padding2) das1 in
    let das3 := das_with_timestamp (minuteOf now) das2 in
    len padding1 <= 255 ∧ len padding2 <= 255 ∧ sealed s s1 (das_Marshal now das2).1 ctm n1 ∧ streamWire p s1 s2 das3 payload wire n2 ∧
    ∀ f, buffer_ok f →
      streamDataAckSegment p (with_buffer f d) mtu tp now (unstarted s) das payload (mkSending s m fixedV) =
        (mkSending s2 (MDataAck das3) fixedV, Ok (ctm ++ padding1 ++ wire ++ padding2)).
Proof using CL FL.
  intros Hs Hkey Hp Hbit Hb Hprep. destruct (prepared_protocol _ _ _ _ Hprep) as [Ep El].
  destruct (prepare_spec d das das1 (len payload) s m fixedV Hprep) as [m1 Hprepare].
  destruct (streamPadding_spec (sd_pad1 d) mtu tp (das_payloadLen das1) 0 middlePadding (po_pad1 _ _ Hp)) as (padding1 & Hpad1 & Hl1).
  destruct (streamPadding_spec (sd_pad2 d) mtu tp (das_payloadLen das1) (len padding1) endPadding (po_pad2 _ _ Hp)) as (padding2 & Hpad2 & Hl2).
  pose proof (len_nonneg padding1) as H1. pose proof (len_nonneg padding2) as H2. pose proof (len_nonneg payload) as H0.
  set (das2 := das_with_padding (len padding1) (len padding2) das1). set (das3 := das_with_timestamp (minuteOf now) das2).
  destruct (Encrypt_ready s (sd_nonce d) (das_Marshal now das2).1 Hs) as (s1 & ctm & n1 & Hsealed & Henc).
  pose proof (se_started _ _ _ _ _ Hsealed) as Hst1. pose proof (sealed_len _ _ _ _ _ Hsealed) as Hl. rewrite das_Marshal_len in Hl.
  pose proof (started_unstarted _ _ Hst1) as Hun1.
  destruct (payload_ready s1 (sd_nonce d) payload) as (s2 & ct & n2 & Hsp & _ & Hencp); [by eapply started_ready|done|].
  destruct (streamWire_exists p d s1 s2 das das1 (len padding1) (len padding2) (minuteOf now) payload ct n2 Hbit) as (wire & Hwire & Hw1 & Hw2);
    [by rewrite (st_key _ _ Hst1)|done|done|done|done|].
  fold das2 das3 in Hwire, Hw1, Hw2. pose proof (streamWire_len _ _ _ _ _ _ _ Hun1 Hwire) as Hwl.
  assert (das_Protocol das3 = das_Protocol das) as Epr by (by rewrite <-Ep). rewrite <-Epr in Hw1, Hw2.
  exists padding1, padding2, s1, s2, ctm, n1, wire, n2. cbv zeta. fold das2 das3. split_and!; [done|done|exact Hsealed|exact Hwire|].
  intros f Hf. unfold streamDataAckSegment. rewrite (W_bind_Ok _ _ _ _ _ (Hprepare f)).
  cbn [with_buffer sd_pad1 sd_pad2]. fold (with_buffer f d).
  rewrite (W_bind_Ok _ _ _ (mkSending s m1 fixedV) padding1) by (unfold wlift; by rewrite Hpad1).
  rewrite (W_bind_Ok _ _ _ (mkSending s m1 fixedV) padding2) by (unfold wlift; by rewrite Hpad2).
  rewrite !len_u8 by lia. fold das2. rewrite (das_Marshal_pair now das2). fold das3.
  rewrite (W_bind_Ok (setMetadata _) _ _ (mkSending s (MDataAck das3) fixedV) tt) by reflexivity. cbv zeta.
  rewrite header_length, <-Hl, <-Epr. change (das_payloadLen das1) with (das_payloadLen das3).
  change (if len payload >? 0 then if isLowEntropyProtocol (das_Protocol das3) then das_payloadLen das3 + DefaultOverhead else len payload + DefaultOverhead else 0)
    with (wire_len das3 payload).
  rewrite <-Hwl. pose proof (len_nonneg ctm). pose proof (len_nonneg wire).
  set (N := len ctm + len padding1 + len wire + len padding2). assert (len (f N) = N) as HfN by (apply Hf; lia).
  rewrite (W_bind_Ok (wlift _) _ _ _ (f N)) by (unfold wlift; by rewrite Acquire_Ok by (done || lia)).
  rewrite (W_bind_Ok (wrap_error _ _) _ _ _ _ (sendHeader_spec d s (MDataAck das3) fixedV s1 _ ctm n1 Hsealed Henc f (f N) ltac:(lia))).
  set (R := slice_from (len ctm) (f N)). assert (len R = len padding1 + len wire + len padding2) as HR by (unfold R; rewrite len_slice_from by lia; lia).
  rewrite fill by (done || lia). set (R1 := slice_from (len padding1) R).
  assert (len R1 = len wire + len padding2) as HR1 by (unfold R1; rewrite len_slice_from by lia; lia).
  erewrite (W_bind_Ok _ _ _ (mkSending s2 (MDataAck das3) fixedV) (((ctm ++ padding1) ++ wire ++ slice_from (len wire) R1), len (ctm ++ padding1) + len wire)).
  2:{ replace (len ctm + Z.min (len padding1) (len (ctm ++ padding1 ++ R1) - len ctm)) with (len (ctm ++ padding1))
        by (rewrite !len_app; pose proof (len_nonneg R1); lia).
      rewrite (app_assoc ctm), Hwl. apply (payloadInto_stream_spec p d s1 s2 (MDataAck das3) fixedV das3 payload ct wire n2); try done; [|lia].
      intros Hle. split; [by apply Hw1|]. destruct Hwire as (ct' & _ & Hwire). rewrite Hle in Hwire. apply Hwire. }
  unfold mret, W_ret. do 2 f_equal. rewrite (app_assoc (ctm ++ padding1) wire), fill_end; [by rewrite <-!app_assoc|by rewrite (len_app _ wire)|].
  rewrite len_slice_from by lia. lia.
Qed.
End writing.

(** ** What is read *)

Section reading.
Context `{CL : CryptoLaws} `{F : GoFloat} {FL : GoFloatLaws F}.
Variable now : Z.
Variable stop : ending.

Lemma R_bind_Ok {A B} (m : R A) (f : A → R B) s s' a : m s = (s', Ok a) → (m ≫= f) s = f a s'.
Proof using. intros E. unfold mbind, R_bind. by rewrite E. Qed.
Lemma rtyped_Ok {A} t msg (m : R A) s s' a : m s = (s', Ok a) → rtyped t msg m s = (s', Ok a).
Proof using. intros E. unfold rtyped. by rewrite E. Qed.

(** [rd'] is [rd] after it has read [rd_in rd] up to [rest], with the cipher [r]. *)
Definition consumed (rd rd' : reading) (r : option aeadBlockCipher) (rest : list Z) : Prop :=
  rd_recv rd' = r ∧ rd_in rd' = rest ∧ rd_users rd' = rd_users rd ∧ rd_world rd' = rd_world rd.

Lemma ReadFull_app rd b rest : rd_in rd = b ++ rest → ReadFull (len b) stop rd = (rd<|rd_in := rest|>, inl b).
Proof using.
  intros E. unfold ReadFull. rewrite E, len_app. pose proof (len_nonneg rest). destruct (Z.leb_spec (len b) (len b + len rest)); [|lia].
  by rewrite slice_to_app, slice_from_app.
Qed.
Lemma readBytes_app rd b rest n :
  rd_in rd = b ++ rest → n = len b → ∃ rd', readBytes n stop rd = (rd', Ok b) ∧ consumed rd rd' (rd_recv rd) rest.
Proof using. intros E ->. unfold readBytes. rewrite (ReadFull_app rd b rest E). eexists. split; [reflexivity|]. done. Qed.
Lemma notice_spec rd b : ∃ rd' dup, notice now b rd = (rd', Ok dup) ∧ consumed rd rd' (rd_recv rd) (rd_in rd).
Proof using. unfold notice. destruct (IsDuplicate _ _ _ _) as [cache dup]. eexists _, _. split; [reflexivity|]. done. Qed.
Lemma recvDecrypt_spec rd r r' ct pt : rd_recv rd = Some r → Decrypt r ct = (r', Ok pt) →
  ∃ rd', recvDecrypt ct rd = (rd', Ok pt) ∧ consumed rd rd' (Some r') (rd_in rd).
Proof using. intros E Hd. unfold recvDecrypt. rewrite E, Hd. eexists. split; [reflexivity|]. done. Qed.
Lemma readPadding_spec rd (padding rest : list Z) n : rd_in rd = padding ++ rest → n = len padding →
  ∃ rd', readPadding stop n rd = (rd', Ok tt) ∧ consumed rd rd' (rd_recv rd) rest.
Proof using.
  intros E ->. unfold readPadding. destruct (Z.gtb_spec (len padding) 0).
  - destruct (readBytes_app rd padding rest (len padding) E eq_refl) as (rd' & H1 & H2).
    erewrite R_bind_Ok by (apply rtyped_Ok, H1). by exists rd'.
  - assert (padding = []) as -> by (apply len_zero; pose proof (len_nonneg padding); lia). by exists rd.
Qed.
Lemma consumed_trans rd1 rd2 rd3 r2 r3 l2 l3 : consumed rd1 rd2 r2 l2 → consumed rd2 rd3 r3 l3 → consumed rd1 rd3 r3 l3.
Proof using. unfold consumed. intuition congruence. Qed.

(** The encrypted part of a payload. *)
Lemma readPayload_spec rd s1 s2 r1 payload ct nonce rest :
  sealedPayload s1 s2 payload ct nonce → unstarted s1 = false → in_step s1 r1 → rd_recv rd = Some r1 → rd_in rd = ct ++ rest → 0 < len payload →
  ∃ rd' r2, ((b ← rtyped NETWORK_ERROR "payload: read failed" (readBytes (len payload + DefaultOverhead) stop);
     _ ← notice now b; rtyped CRYPTO_ERROR "Decrypt() failed" (recvDecrypt b)) : R (list Z)) rd = (rd', Ok payload) ∧
    consumed rd rd' (Some r2) rest ∧ in_step s2 r2.
Proof using CL.
  intros Hsp Hun Hst Hr Hin Hpos. unfold sealedPayload in Hsp. destruct (Z.gtb_spec (len payload) 0); [|lia].
  pose proof (sealed_len _ _ _ _ _ Hsp) as Hl. rewrite Hun, Z.add_0_r in Hl.
  destruct (se_open _ _ _ _ _ Hsp r1 (in_step_aligned _ _ Hst)) as (r2 & Hd & Hst2).
  destruct (readBytes_app rd ct rest (len payload + DefaultOverhead) Hin ltac:(lia)) as (rd1 & H1 & C1).
  destruct (notice_spec rd1 ct) as (rd2 & dup & H2 & C2). destruct C1 as (E1 & E2 & E3 & E4). rewrite E1, E2 in C2.
  destruct (recvDecrypt_spec rd2 r1 r2 ct payload) as (rd3 & H3 & C3); [by rewrite (proj1 C2)|done|].
  exists rd3, r2. split; [|split; [|done]].
  - erewrite R_bind_Ok by (apply rtyped_Ok, H1). erewrite R_bind_Ok by exact H2. by apply rtyped_Ok.
  - rewrite (proj1 (proj2 C2)) in C3. eapply consumed_trans; [|exact C3]. eapply consumed_trans; [|exact C2]. done.
Qed.

Lemma readSession_spec rd ss payload padding rest s1 s2 r1 ctp n2 :
  sealedPayload s1 s2 payload ctp n2 → unstarted s1 = false → in_step s1 r1 → rd_recv rd = Some r1 → rd_in rd = ctp ++ padding ++ rest →
  ss_payloadLen ss = len payload → ss_suffixLen ss = len padding →
  ∃ rd' r2, readSessionSegment now stop ss rd = (rd', Ok (arrived (MSession ss) payload (Some r2))) ∧ consumed rd rd' (Some r2) rest ∧ in_step s2 r2.
Proof using CL.
  intros Hsp Hun Hst Hr Hin Hpl Hsl. pose proof (len_nonneg payload). unfold readSessionSegment. rewrite Hpl, Hsl.
  assert (∃ rd1 r2, (if len payload >? 0 then
      encryptedPayload ← rtyped NETWORK_ERROR "payload: read failed" (readBytes (len payload + DefaultOverhead) stop);
      _ ← notice now encryptedPayload; rtyped CRYPTO_ERROR "Decrypt() failed" (recvDecrypt encryptedPayload)
    else mret []) rd = (rd1, Ok payload) ∧ consumed rd rd1 (Some r2) (padding ++ rest) ∧ in_step s2 r2) as (rd1 & r2 & H1 & C1 & Hst2).
  { destruct (Z.gtb_spec (len payload) 0) as [Hpos|Hz].
    - by apply (readPayload_spec rd s1 s2 r1 payload ctp n2 (padding ++ rest)).
    - unfold sealedPayload in Hsp. destruct (Z.gtb_spec (len payload) 0); [lia|]. destruct Hsp as [-> ->].
      assert (payload = []) as -> by (apply len_zero; lia). by exists rd, r1. }
  destruct (readPadding_spec rd1 padding rest (len padding) (proj1 (proj2 C1)) eq_refl) as (rd2 & H2 & C2). rewrite (proj1 C1) in C2.
  exists rd2, r2. split; [|split; [|done]].
  - rewrite (R_bind_Ok _ _ _ _ _ H1), (R_bind_Ok _ _ _ _ _ H2). rewrite (R_bind_Ok rrecv _ _ rd2 (Some r2)) by (unfold rrecv; by rewrite (proj1 C2)). done.
  - by eapply consumed_trans.
Qed.

Lemma readDataAck_spec p rd das payload (padding1 padding2 wire rest : list Z) s1 s2 r1 n2 :
  streamWire p s1 s2 das payload wire n2 → unstarted s1 = false → in_step s1 r1 → rd_recv rd = Some r1 →
  rd_in rd = padding1 ++ wire ++ padding2 ++ rest → das_prefixLen das = len padding1 → das_suffixLen das = len padding2 →
  (if isLowEntropyProtocol (das_Protocol das) then 0 < len payload ∧ 0 < das_payloadLen das else das_payloadLen das = len payload) →
  ∃ rd' r2, readDataAckSegment now stop das rd = (rd', Ok (arrived (MDataAck das) payload (Some r2))) ∧ consumed rd rd' (Some r2) rest ∧ in_step s2 r2.
Proof using CL.
  intros (ct & Hsp & Hw) Hun Hst Hr Hin Hpre Hsuf Hpl. pose proof (len_nonneg payload). unfold readDataAckSegment.
  destruct (readPadding_spec rd padding1 _ (das_prefixLen das) Hin Hpre) as (rd0 & H0 & C0). rewrite Hr in C0.
  rewrite (R_bind_Ok _ _ _ _ _ H0).
  assert (∃ rd1 r2, (if das_payloadLen das >? 0 then
      encryptedPayload ← rtyped NETWORK_ERROR "payload: read failed" (readBytes (das_payloadLen das + DefaultOverhead) stop);
      encryptedPayload ← (if isLowEntropyProtocol (das_Protocol das)
          then rtyped PROTOCOL_ERROR "decode low entropy payload failed" (rlift (decodeLowEntropyEncryptedPayload encryptedPayload das))
          else mret encryptedPayload);
      _ ← notice now encryptedPayload; rtyped CRYPTO_ERROR "Decrypt() failed" (recvDecrypt encryptedPayload)
    else mret []) rd0 = (rd1, Ok payload) ∧ consumed rd rd1 (Some r2) (padding2 ++ rest) ∧ in_step s2 r2) as (rd1 & r2 & H1 & C1 & Hst2).
  { destruct (isLowEntropyProtocol (das_Protocol das)) eqn:Ele.
    - destruct Hpl as [Hpos Hpos']. destruct (Z.gtb_spec (das_payloadLen das) 0) as [Hg|Hg]; [|lia].
      assert ((len payload >? 0) = true) as Epl by (destruct (Z.gtb_spec (len payload) 0); [done|lia]). rewrite Epl in Hw. cbn [andb] in Hw.
      destruct Hw as (_ & Hlw & Hdec & _). unfold sealedPayload in Hsp. rewrite Epl in Hsp.
      destruct (readBytes_app rd0 wire (padding2 ++ rest) (das_payloadLen das + DefaultOverhead) (proj1 (proj2 C0)) (eq_sym Hlw)) as (rd1 & H1 & C1).
      destruct (notice_spec rd1 ct) as (rd2 & dup & H2 & C2).
      destruct (se_open _ _ _ _ _ Hsp r1 (in_step_aligned _ _ Hst)) as (r2 & Hd & Hst2).
      destruct C1 as (E1 & E2 & E3 & E4). rewrite (proj1 C0) in E1. rewrite E1, E2 in C2.
      destruct (recvDecrypt_spec rd2 r1 r2 ct payload (proj1 C2) Hd) as (rd3 & H3 & C3). rewrite (proj1 (proj2 C2)) in C3.
      exists rd3, r2. split; [|split; [|done]].
      + erewrite R_bind_Ok by (apply rtyped_Ok, H1). erewrite R_bind_Ok by (apply rtyped_Ok; unfold rlift; by rewrite Hdec).
        erewrite R_bind_Ok by exact H2. by apply rtyped_Ok.
      + eapply consumed_trans; [exact C0|]. eapply consumed_trans; [|exact C3]. eapply consumed_trans; [|exact C2]. done.
    - rewrite andb_false_r in Hw. subst wire. rewrite Hpl. destruct (Z.gtb_spec (len payload) 0) as [Hpos|Hz].
      + destruct (readPayload_spec rd0 s1 s2 r1 payload ct n2 (padding2 ++ rest)) as (rd1 & r2 & H1 & C1 & Hst2); [done..|apply C0|apply C0|lia|].
        exists rd1, r2. split; [exact H1|]. split; [by eapply consumed_trans|done].
      + unfold sealedPayload in Hsp. destruct (Z.gtb_spec (len payload) 0); [lia|]. destruct Hsp as [-> ->].
        assert (payload = []) as -> by (apply len_zero; lia). exists rd0, r1. split; [done|]. split; [exact C0|done]. }
  rewrite (R_bind_Ok _ _ _ _ _ H1).
  destruct (readPadding_spec rd1 padding2 rest (das_suffixLen das) (proj1 (proj2 C1)) Hsuf) as (rd2 & H2 & C2). rewrite (proj1 C1) in C2.
  exists rd2, r2. split; [|split; [by eapply consumed_trans|done]].
  rewrite (R_bind_Ok _ _ _ _ _ H2). rewrite (R_bind_Ok rrecv _ _ rd2 (Some r2)) by (unfold rrecv; by rewrite (proj1 C2)). done.
Qed.
End reading.

(** ** The round trip *)

Section roundtrip.
Context `{CL : CryptoLaws} `{F : GoFloat} {FL : GoFloatLaws F}.

Lemma sealedPayload_started c s s' payload ct nonce : started c s → sealedPayload s s' payload ct nonce → started c s'.
Proof using.
  unfold sealedPayload. destruct (_ >? 0); [|by intros ? [_ ->]]. intros H1 H2. eapply started_trans; [exact H1|exact (se_started _ _ _ _ _ H2)].
Qed.

(** What a written segment is: the sealed metadata [ctm], and a [tail] that a
    reader in step takes for the rest of the segment. *)
Record writtenSegment (now : Z) (s s' : aeadBlockCipher) (m m' : metadata) (payload dg : list Z) : Prop := {
  ws_carries : carries now m m';
  ws_started : started s s';
  ws_parts : ∃ s1 ctm tail n1 pt, dg = ctm ++ tail ∧ len pt = MetadataLength ∧ sealed s s1 pt ctm n1 ∧
    ∀ now2 stop unix rd r rest, clocks_ok now unix → rd_recv rd = Some r → in_step s1 r → rd_in rd = tail ++ rest →
      ∃ rd' r', readBody now2 stop unix pt rd = (rd', Ok (arrived m' payload (Some r'))) ∧ consumed rd rd' (Some r') rest ∧ in_step s' r'
}.

Lemma written_session p d mtu tp now s ss payload m fixedV :
  ready s (sd_nonce d) → padding_ok p d → sendable d (MSession ss) payload → clock_ok now →
  ∃ s' dg m' fixedV', writtenSegment now s s' (MSession ss) m' payload dg ∧
    ∀ f, buffer_ok f → streamSessionSegment p (with_buffer f d) mtu tp now (unstarted s) ss payload (mkSending s m fixedV) = (mkSending s' m' fixedV', Ok dg).
Proof using CL FL.
  intros Hs Hp (Hb & Hwf & Hproto & Hpl & Hmax) Hnow. destruct (minuteOf_div now Hnow) as [Emin _].
  destruct (streamSession_spec p d mtu tp now s ss payload m fixedV Hs Hp) as (fixedV' & padding & s1 & s2 & ctm & n1 & ctp & n2 & Hlp & Hsealed & Hsp & Hw).
  set (ss' := ss_with_suffix (len padding) ss) in *. pose proof (len_nonneg padding). pose proof (se_started _ _ _ _ _ Hsealed) as Hst1.
  eexists s2, _, _, _. split; [|exact Hw]. split.
  - cbn. exists (len padding). by rewrite Emin.
  - by eapply sealedPayload_started.
  - exists s1, ctm, (ctp ++ padding), n1, (ss_Marshal now ss').1. split_and!; [done|apply ss_Marshal_len|done|].
    intros now2 stop unix rd r rest Hclk Hr Hst Hin. rewrite <-app_assoc in Hin.
    destruct (readSession_spec now2 stop rd (ss_with_timestamp (minuteOf now) ss') payload padding rest s1 s2 r ctp n2 Hsp (started_unstarted _ _ Hst1) Hst Hr Hin)
      as (rd' & r' & H1 & H2 & H3); [done..|].
    exists rd', r'. split; [|done]. unfold readBody. rewrite ss_Marshal_len. cbn [negb Z.eqb Pos.eqb MetadataLength].
    change (byte_at 0 (ss_Marshal now ss').1) with (ss_Protocol ss). rewrite Hproto.
    rewrite (R_bind_Ok _ _ _ rd (ss_with_timestamp (minuteOf now) ss')); [exact H1|]. apply rtyped_Ok. unfold rlift.
    rewrite ss_Unmarshal_Marshal, WithinRange_ok by (done || (destruct Hwf as (? & ? & ? & ? & ? & ?); split_and!; try done; cbn; unfold in_width; lia)).
    change (ss_Protocol ss') with (ss_Protocol ss). rewrite Hproto. cbn [negb]. change (ss_payloadLen ss') with (ss_payloadLen ss).
    by destruct (Z.gtb_spec (ss_payloadLen ss) MaxSessionOpenPayload); [lia|].
Qed.

Lemma written_dataAck p d mtu tp now s das payload m fixedV :
  ready s (sd_nonce d) → bytes_ok (c_key s) → padding_ok p d → (lowEntropyPaddingBit p = 0 ∨ lowEntropyPaddingBit p = 1) → sendable d (MDataAck das) payload → clock_ok now →
  ∃ s' dg m' fixedV', writtenSegment now s s' (MDataAck das) m' payload dg ∧
    ∀ f, buffer_ok f → streamDataAckSegment p (with_buffer f d) mtu tp now (unstarted s) das payload (mkSending s m fixedV) = (mkSending s' m' fixedV', Ok dg).
Proof using CL FL.
  intros Hs Hkey Hp Hbit (Hb & Hwf & Hproto & (das1 & Hprep) & Hplain) Hnow. destruct (minuteOf_div now Hnow) as [Emin _].
  destruct (streamDataAck_spec p d mtu tp now s das das1 payload m fixedV Hs Hkey Hp Hbit Hb Hprep)
    as (padding1 & padding2 & s1 & s2 & ctm & n1 & wire & n2 & Hl1 & Hl2 & Hsealed & Hwire & Hw).
  destruct (prepared_mask _ _ _ _ Hprep Hwf) as (mask & -> & Hm & Hle & Hmask).
  set (das2 := das_with_padding (len padding1) (len padding2) (with_mask mask das)) in *. set (das3 := das_with_timestamp (minuteOf now) das2) in *.
  pose proof (len_nonneg padding1). pose proof (len_nonneg padding2). pose proof (len_nonneg payload). pose proof (se_started _ _ _ _ _ Hsealed) as Hst1.
  assert (das_Protocol das3 = das_Protocol das ∧ das_payloadLen das3 = das_payloadLen das) as [Epr Epl] by done.
  eexists s2, _, _, _. split; [|exact Hw]. split.
  - cbn. exists (len padding1), (len padding2), mask. unfold das3, das2. by rewrite Emin.
  - destruct Hwire as (ct & Hsp & _). by eapply sealedPayload_started.
  - exists s1, ctm, (padding1 ++ wire ++ padding2), n1, (das_Marshal now das2).1. split_and!; [done|apply das_Marshal_len|done|].
    intros now2 stop unix rd r rest Hclk Hr Hst Hin. rewrite <-!app_assoc in Hin.
    destruct (readDataAck_spec now2 stop p rd das3 payload padding1 padding2 wire rest s1 s2 r n2 Hwire (started_unstarted _ _ Hst1) Hst Hr Hin)
      as (rd' & r' & H1' & H2' & H3'); [done|done| |].
    { rewrite Epr, Epl. destruct (isLowEntropyProtocol (das_Protocol das)); [|by apply Hplain]. destruct (Hle eq_refl) as [_ ?]. lia. }
    exists rd', r'. split; [|done]. unfold readBody. rewrite das_Marshal_len. cbn [negb Z.eqb Pos.eqb MetadataLength].
    assert (byte_at 0 (das_Marshal now das2).1 = das_Protocol das) as -> by (by rewrite das_Marshal_layout).
    rewrite (dataAck_not_session _ Hproto), Hproto.
    rewrite (R_bind_Ok _ _ _ rd das3); [exact H1'|]. apply rtyped_Ok. unfold rlift.
    rewrite das_Unmarshal_Marshal, WithinRange_ok; [done|done| |exact Hproto|].
    + destruct Hwf as (? & ? & ? & ? & ? & ? & ? & ? & ? & ? & ? & ? & ?). split_and!; try done; cbn; unfold in_width; lia.
    + change (das_Protocol das2) with (das_Protocol das).
      destruct (isLowEntropyProtocol (das_Protocol das)); [by destruct (Hle eq_refl)|].
      destruct (Hplain eq_refl) as [(? & ? & ? & ?) _]. unfold das_plain. cbn. by rewrite (Hmask eq_refl).
Qed.

Lemma buildStream_spec p d mtu tp now s m payload fixedV :
  ready s (sd_nonce d) → bytes_ok (c_key s) → padding_ok p d → (lowEntropyPaddingBit p = 0 ∨ lowEntropyPaddingBit p = 1) → sendable d m payload → clock_ok now →
  ∃ s' dg m' fixedV', writtenSegment now s s' m m' payload dg ∧
    ∀ f, buffer_ok f → buildStream p (with_buffer f d) mtu tp now (unstarted s) payload (mkSending s m fixedV) = (mkSending s' m' fixedV', Ok dg).
Proof using CL FL.
  intros Hs Hkey Hp Hbit Hm Hnow. unfold buildStream. cbn [w_metadata]. destruct m as [ss|das].
  - destruct (written_session p d mtu tp now s ss payload (MSession ss) fixedV Hs Hp Hm Hnow) as (s' & dg & m' & fv & H1 & H2).
    exists s', dg, m', fv. split; [done|]. intros f Hf. destruct Hm as (_ & _ & Hproto & _). unfold toSessionStruct. cbn [Protocol]. rewrite Hproto. by apply H2.
  - destruct (written_dataAck p d mtu tp now s das payload (MDataAck das) fixedV Hs Hkey Hp Hbit Hm Hnow) as (s' & dg & m' & fv & H1 & H2).
    exists s', dg, m', fv. split; [done|]. intros f Hf. destruct Hm as (_ & _ & Hproto & _). unfold toSessionStruct, toDataAckStruct. cbn [Protocol].
    rewrite (dataAck_not_session _ Hproto), Hproto. by apply H2.
Qed.

(** The reader has the cipher [r], or is a client that will clone it. *)
Definition receives (isClient : bool) (block : option aeadBlockCipher) (rd : reading) (r : aeadBlockCipher) : Prop :=
  rd_recv rd = Some r ∧ unstarted r = false ∨
  rd_recv rd = None ∧ isClient = true ∧ unstarted r = true ∧ ∃ b, block = Some b ∧ Clone b = Ok r.

Lemma aligned_unstarted s r : aligned s r → unstarted s = unstarted r.
Proof using. intros (_ & _ & _ & E & _). unfold unstarted. by rewrite E. Qed.

(** The header of a segment comes off the stream. *)
Lemma read_header rd stop ctm rest first pt s s1 n1 :
  sealed s s1 pt ctm n1 → len pt = MetadataLength → rd_in rd = ctm ++ rest → first = unstarted s →
  ReadFull (encryptedMetadataLen first) stop rd = (rd<|rd_in := rest|>, inl ctm) ∧ len ctm = encryptedMetadataLen first.
Proof using CL.
  intros Hs Hl Hin ->. assert (len ctm = encryptedMetadataLen (unstarted s)) as E.
  { rewrite (sealed_len _ _ _ _ _ Hs), Hl. unfold encryptedMetadataLen. lia. }
  split; [|exact E]. rewrite <-E. by apply ReadFull_app.
Qed.

Section connection.
Context (maphash : list Z → Z) (jitter : Z → Z) (tick : Z) (isClient : bool) (block : option aeadBlockCipher)
  (trafficPattern : option TrafficPattern) (source : Source).
Abbreviation readOne now2 stop unix := (readOneSegment now2 stop maphash jitter tick isClient block trafficPattern source unix).

Lemma read_known now s s' m m' payload dg r rd rest now2 stop unix :
  writtenSegment now s s' m m' payload dg → aligned s r → receives isClient block rd r → clocks_ok now unix → rd_in rd = dg ++ rest →
  ∃ rd' r', readOne now2 stop unix rd = (rd', Ok (Some (arrived m' payload (Some r'), noAuthentication))) ∧
    consumed rd rd' (Some r') rest ∧ in_step s' r'.
Proof using CL.
  intros [_ _ (s1 & ctm & tail & n1 & pt & -> & Hpt & Hsealed & Hbody)] Hal Hrec Hclk Hin. rewrite <-app_assoc in Hin.
  assert (bool_decide (rd_recv rd = None) = unstarted s) as Hfirst.
  { rewrite (aligned_unstarted _ _ Hal). destruct Hrec as [[E ->]|(E & _ & -> & _)]; rewrite E; done. }
  destruct (read_header rd stop ctm (tail ++ rest) _ pt s s1 n1 Hsealed Hpt Hin Hfirst) as [Hread Hl].
  unfold readOneSegment. rewrite Hread. set (rd1 := _<|rd_inBytes := _|>).
  destruct (notice_spec now2 rd1 ctm) as (rd2 & dup & Hn & C2). rewrite (R_bind_Ok _ _ _ _ _ Hn).
  destruct (se_open _ _ _ _ _ Hsealed r Hal) as (r1 & Hd & Hst1).
  assert (∃ rd3, openMetadata now2 maphash jitter tick isClient block trafficPattern source ctm (dup && bool_decide (rd_recv rd = None)) rd2 = (rd3, Ok (pt, noAuthentication)) ∧
    consumed rd rd3 (Some r1) (tail ++ rest)) as (rd3 & Hopen & C3).
  { destruct C2 as (E1 & E2 & E3 & E4). change (rd_recv rd1) with (rd_recv rd) in E1. change (rd_in rd1) with (tail ++ rest) in E2.
    change (rd_users rd1) with (rd_users rd) in E3. change (rd_world rd1) with (rd_world rd) in E4.
    unfold openMetadata. rewrite (R_bind_Ok rrecv _ _ rd2 (rd_recv rd)) by (unfold rrecv; by rewrite E1).
    destruct Hrec as [[E _]|(E & -> & _ & b & -> & Hclone)]; rewrite E.
    - destruct (recvDecrypt_spec rd2 r r1 ctm pt ltac:(congruence) Hd) as (rd3 & H3 & C3). exists rd3.
      rewrite (R_bind_Ok _ _ _ rd3 pt) by (by apply rtyped_Ok). split; [done|]. rewrite E2 in C3. destruct C3 as (? & ? & ? & ?). split_and!; congruence.
    - rewrite (R_bind_Ok (rlift _) _ _ rd2 r) by (unfold rlift; by rewrite Hclone).
      set (rd2' := rd2<|rd_recv := Some r|>). rewrite (R_bind_Ok _ _ rd2 rd2' tt) by reflexivity.
      destruct (recvDecrypt_spec rd2' r r1 ctm pt eq_refl Hd) as (rd3 & H3 & C3). exists rd3.
      rewrite (R_bind_Ok _ _ _ rd3 pt) by (by apply rtyped_Ok). split; [done|]. change (rd_in rd2') with (rd_in rd2) in C3. rewrite E2 in C3.
      destruct C3 as (? & ? & ? & ?). change (rd_users rd2') with (rd_users rd2) in *. change (rd_world rd2') with (rd_world rd2) in *. split_and!; congruence. }
  rewrite (R_bind_Ok _ _ _ _ _ Hopen).
  destruct (Hbody now2 stop unix rd3 r1 rest Hclk (proj1 C3) Hst1 (proj1 (proj2 C3))) as (rd4 & r' & Hb & C4 & Hst').
  exists rd4, r'. rewrite (R_bind_Ok _ _ _ _ _ Hb). split; [done|]. split; [by eapply consumed_trans|done].
Qed.

(** The sender of a new connection is a user whose key no other user has. *)
Record known_user (now2 : Z) (header : list Z) (s : aeadBlockCipher) (us : user) (rd : reading) : Prop := {
  ku_registry : ∃ reg st, rd_users rd = Some reg ∧ r_users reg = Some st ∧ us ∈ users st ∧
    (∀ v, v ∈ users st → v ≠ us → opens now2 header v = None);
  ku_key : ∃ t, t ∈ saltTimes now2 ∧ c_key s = keyAt (credential us) t;
  ku_only : only_key (c_key s) header (templateAt (credential us) <$> saltTimes now2);
  ku_name : name us = c_userName s;
  ku_fresh : (IsDuplicate now2 (slice_to DefaultOverhead header) EmptyTag (rd_replays rd)).2 = false
}.
Definition users_ok (gen : Z → option (list user)) (rd : reading) : Prop :=
  world_wf gen (rd_world rd) ∧ ∀ reg, rd_users rd = Some reg → registry_ok gen maphash reg.

(** The header of a new connection names its sender and opens with its key. *)
Lemma discovers gen now2 s s1 pt ctm n1 us rd reg st :
  sealed s s1 pt ctm n1 → implicitNonce s = [] → users_ok gen rd → rd_users rd = Some reg → r_users reg = Some st → us ∈ users st →
  (∀ v, v ∈ users st → v ≠ us → opens now2 ctm v = None) → (∃ t, t ∈ saltTimes now2 ∧ c_key s = keyAt (credential us) t) →
  only_key (c_key s) ctm (templateAt (credential us) <$> saltTimes now2) → name us = c_userName s →
  ∃ w' st' c a, Discover maphash jitter 1 (λ _, r_users reg) (hintMandatory reg) (rd_world rd) ctm source true now2 tick = (w', st', Ok (c, pt, a)) ∧
    c_key c = c_key s ∧ implicitNonce c = [] ∧ c_userName c = c_userName s ∧ Valid a = true ∧ a_policy a = policy us.
Proof using CL.
  intros Hsealed Hempty [Hworld Hreg] Er Est Hus Hother (t & Ht & Hk) Honly Hname. destruct (Hreg reg Er st Est) as [[Hwf _] _].
  pose proof Hsealed as [Hform [Hln _] _ Hhint _]. assert (unstarted s = true) as Hun by (unfold unstarted; by rewrite Hempty). rewrite Hun in Hform.
  destruct (split_nonce n1 (Seal (c_key s) n1 pt) Hln) as (H1 & H2 & H3). rewrite <-Hform in H1, H2, H3.
  assert (DefaultNonceSize <= len ctm) as Hem by (destruct (Z.ltb_spec (len ctm) DefaultNonceSize); [done|lia]).
  assert ((Decrypt (cloneStatelessFast s) ctm).2 = Ok pt) as Hd.
  { unfold Decrypt, NonceSize. cbn [enableImplicitNonce cloneStatelessFast]. rewrite H1, H2, H3. cbn [snd]. by apply (openWith_Seal s (cloneStatelessFast s)). }
  destruct (opens_finds now2 ctm us (cloneStatelessFast s) pt t Hem eq_refl Hd Ht Hk Honly) as (b & Ho & Hbk & _ & Hbn).
  assert (hintOK ctm us = true) as Hh.
  { pose proof (wf_names _ Hwf us Hus) as [Hn1 Hn2]. apply hintOK_sender; [done..|]. rewrite H2, Hname. apply Hhint; [done|by rewrite <-Hname]. }
  destruct (Discover_finds jitter gen maphash reg st (rd_world rd) ctm source true now2 tick us b pt (Hreg reg Er) Hworld Est Hem Hus Ho Hother ltac:(by intros _))
    as (w' & st' & o & Hdis).
  eexists w', st', _, _. split; [exact Hdis|]. split_and!; [exact Hbk|exact Hbn|exact Hname| |done].
  unfold Valid. cbn [a_userID a_generation]. rewrite bool_decide_true by done. apply list_elem_of_lookup in Hus as [k Hi].
  rewrite (wf_ids _ Hwf k us Hi). destruct (Z.eqb_spec (Z.of_nat k + 1) 0); [lia|done].
Qed.

(** The first segment reaches a server that does not know the connection. *)
Lemma read_first gen now s s' m m' payload dg us rd rest now2 stop unix :
  writtenSegment now s s' m m' payload dg → enableImplicitNonce s = true → implicitNonce s = [] → isClient = false → rd_recv rd = None →
  users_ok gen rd → clocks_ok now unix → rd_in rd = dg ++ rest → known_user now2 (slice_to (encryptedMetadataLen true) dg) s us rd →
  ∃ rd' r' a, readOne now2 stop unix rd = (rd', Ok (Some (arrived m' payload (Some r'), a))) ∧ Valid a = true ∧ a_policy a = policy us ∧
    rd_recv rd' = Some r' ∧ rd_in rd' = rest ∧ in_step s' r'.
Proof using CL.
  intros [_ _ (s1 & ctm & tail & n1 & pt & -> & Hpt & Hsealed & Hbody)] Himp Hempty Hcl Hnone Husers Hclk Hin.
  assert (unstarted s = true) as Hun by (unfold unstarted; by rewrite Hempty). rewrite <-app_assoc in Hin.
  destruct (read_header rd stop ctm (tail ++ rest) true pt s s1 n1 Hsealed Hpt Hin (eq_sym Hun)) as [Hread Hl].
  rewrite slice_to_app by done. intros [(reg & st & Er & Est & Hus & Hother) Hkey Honly Hname Hfresh].
  destruct (discovers gen now2 s s1 pt ctm n1 us rd reg st) as (w' & st' & c & a & Hdis & Hck & Hcn & Hcu & Hv & Hpol); [done..|].
  set (c3 := SetImplicitNonceMode true match trafficPattern with Some tp => SetNoncePattern (Nonce tp) c | None => c end).
  assert (aligned s c3) as Hal.
  { unfold aligned, c3. rewrite Hempty. destruct trafficPattern; cbn; rewrite Hcn; split_and!; auto. }
  destruct (se_open _ _ _ _ _ Hsealed c3 Hal) as (r1 & Hd & Hst1).
  unfold readOneSegment. rewrite (bool_decide_true _ Hnone), Hread. set (rd1 := _<|rd_inBytes := _|>).
  destruct (IsDuplicate now2 (slice_to DefaultOverhead ctm) EmptyTag (rd_replays rd)) as [cache dup] eqn:Edup. cbn [snd] in Hfresh. subst dup.
  set (rd2 := rd1<|rd_replays := cache|>).
  rewrite (R_bind_Ok (notice now2 ctm) _ rd1 rd2 false) by (unfold notice; change (rd_replays rd1) with (rd_replays rd); by rewrite Edup).
  set (rd3 := rd2<|rd_world := w'|><|rd_users := Some match st' with Some st => mkRegistry (Some st) (hintMandatory reg) | None => reg end|><|rd_recv := Some r1|>).
  rewrite (R_bind_Ok _ _ rd2 rd3 (pt, a)).
  2:{ unfold openMetadata. rewrite (R_bind_Ok rrecv _ _ rd2 None) by (unfold rrecv; change (rd_recv rd2) with (rd_recv rd); by rewrite Hnone).
      rewrite Hcl. unfold serverInitRecvBlockCipherAndDecryptMetadata. change (rd_recv rd2) with (rd_recv rd). change (rd_users rd2) with (rd_users rd).
      rewrite Hnone, Er. change (rd_world rd2) with (rd_world rd). rewrite Hdis. cbv zeta beta iota. fold c3. by rewrite Hd. }
  destruct (Hbody now2 stop unix rd3 r1 rest Hclk eq_refl Hst1 eq_refl) as (rd4 & r' & Hb & C4 & Hst').
  rewrite (R_bind_Ok _ _ _ _ _ Hb). exists rd4, r', a. split_and!; [done|done|done|apply C4|apply C4|done].
Qed.

(** ** Sequences of segments *)

(** What a sender writes for a list of segments, each with its draws and clock,
    and what it has then written about them. *)
Fixpoint writeAll (p : program) (mtu : Z) (s : aeadBlockCipher) (fixedV : hintCache) (l : list (sendDraws * Z * metadata * list Z))
    : result (aeadBlockCipher * list Z * list metadata) :=
  match l with
  | [] => Ok (s, [], [])
  | (d, now, m, payload) :: l =>
    let '(st, r) := buildStream p d mtu trafficPattern now (unstarted s) payload (mkSending s m fixedV) in
    dg ← r;
    '(s, bytes, ms) ← writeAll p mtu (w_block st) (w_fixedV st) l;
    Ok (s, dg ++ bytes, w_metadata st :: ms)
  end.
(** Reads until nothing is left. *)
Fixpoint readAll (fuel : nat) (now2 : Z) (unix : Z) (rd : reading) : reading * list (metadata * list Z) * result unit :=
  match fuel with
  | O => (rd, [], Panic "out of fuel")
  | S fuel =>
    match readOne now2 Expired unix rd with
    | (rd, Ok None) => (rd, [], Ok tt)
    | (rd, Ok (Some (seg, _))) => let '(rd, l, r) := readAll fuel now2 unix rd in (rd, (seg_metadata seg, seg_payload seg) :: l, r)
    | (rd, Err e) => (rd, [], Err e)
    | (rd, Panic m) => (rd, [], Panic m)
    end
  end.

Definition writable (p : program) (unix : Z) (x : sendDraws * Z * metadata * list Z) : Prop :=
  let '(d, now, m, payload) := x in
  padding_ok p d ∧ buffer_ok (sd_buffer d) ∧ sendable d m payload ∧ clocks_ok now unix ∧ Cipher.draws_ok (sd_nonce d).

Lemma writeAll_spec p mtu s fixedV unix l :
  (lowEntropyPaddingBit p = 0 ∨ lowEntropyPaddingBit p = 1) → Forall (writable p unix) l →
  bytes_ok (c_key s) → (match l with [] => True | (d, _, _, _) :: _ => ready s (sd_nonce d) end) →
  ∃ s' bytes ms, writeAll p mtu s fixedV l = Ok (s', bytes, ms) ∧ Forall2 (λ x m', carries x.1.1.2 x.1.2 m') l ms ∧
    (l = [] ∨ started s s') ∧
    ∀ now2 r rd rest, aligned s r → (unstarted r = true → l ≠ [] → receives isClient block rd r) → (unstarted r = false → rd_recv rd = Some r) →
      rd_in rd = bytes ++ rest →
      ∃ rd' r', (∀ fuel, readAll (length l + fuel) now2 unix rd =
           let '(rd'', k, res) := readAll fuel now2 unix rd' in (rd'', zip ms (snd <$> l) ++ k, res)) ∧
        (l = [] ∧ rd' = rd ∧ r' = r ∨ rd_recv rd' = Some r' ∧ in_step s' r') ∧ rd_in rd' = rest.
Proof using CL FL.
  intros Hbit. revert s fixedV. induction l as [|[[[d now] m] payload] l IH]; intros s fixedV Hall Hkey Hs.
  { exists s, [], []. split_and!; [done|constructor|by left|]. intros now2 r rd rest Hal _ _ Hin. exists rd, r. split_and!; [|by left|done].
    intros fuel. cbn. by destruct (readAll fuel now2 unix rd) as [[? ?] ?]. }
  apply Forall_cons in Hall as [(Hp & Hbuf & Hsend & Hclk & Hnd) Hall].
  destruct (buildStream_spec p d mtu trafficPattern now s m payload fixedV Hs Hkey Hp Hbit Hsend (proj1 Hclk)) as (s1 & dg & m' & fv & Hw & Hb).
  specialize (Hb (sd_buffer d) Hbuf). change (with_buffer (sd_buffer d) d) with (mkSendDraws (sd_nonce d) (sd_halfMask d) (sd_existing d) (sd_pad1 d) (sd_pad2 d) (sd_buffer d)) in Hb.
  assert (mkSendDraws (sd_nonce d) (sd_halfMask d) (sd_existing d) (sd_pad1 d) (sd_pad2 d) (sd_buffer d) = d) as Ed by (by destruct d). rewrite Ed in Hb.
  destruct (IH s1 fv Hall) as (s2 & bytes & ms & Hwa & Hcar & Hst & Hread).
  { by rewrite (st_key _ _ (ws_started _ _ _ _ _ _ _ Hw)). }
  { destruct l as [|[[[d2 ?] ?] ?] l]; [done|]. eapply started_ready, (ws_started _ _ _ _ _ _ _ Hw). }
  exists s2, (dg ++ bytes), (m' :: ms). split_and!.
  - cbn [writeAll]. rewrite Hb. cbv beta iota. rewrite bind_Ok. cbn [w_block w_fixedV w_metadata]. by rewrite Hwa, bind_Ok.
  - constructor; [apply Hw|done].
  - right. destruct Hst as [->|Hst]; [injection Hwa as <- _ _; apply Hw|]. eapply started_trans; [apply Hw|done].
  - intros now2 r rd rest Hal Hrec1 Hrec2 Hin. rewrite <-app_assoc in Hin.
    assert (receives isClient block rd r) as Hrec by (destruct (unstarted r) eqn:E; [by apply Hrec1|left; auto]).
    destruct (read_known now s s1 m m' payload dg r rd (bytes ++ rest) now2 Expired unix Hw Hal Hrec Hclk Hin) as (rd1 & r1 & Hr1 & C1 & Hst1).
    assert (unstarted r1 = false) as Hun1 by (destruct Hst1 as (_ & _ & _ & E & Hl); unfold unstarted; by rewrite <-E, Hl).
    destruct (Hread now2 r1 rd1 rest (in_step_aligned _ _ Hst1)) as (rd' & r' & Hra & Hend & Hrest); [by rewrite Hun1|by intros _; apply C1|apply C1|].
    exists rd', r'. split_and!; [| |exact Hrest].
    + intros fuel. cbn [length Nat.add readAll]. rewrite Hr1, Hra. destruct (readAll fuel now2 unix rd') as [[? ?] ?]. done.
    + right. destruct Hend as [(-> & -> & ->)|?]; [|done]. injection Hwa as <- _ _. split; [apply C1|done].
Qed.

(** C28. A stream carries segments faithfully: whatever sequence of segments is
    written - open, close, data, acknowledgements, in low entropy form or not,
    with any paddings, nonces and reused buffers - the peer that reads the bytes
    gets the same segments in the same order, with their payloads and metadata,
    and then waits with nothing left over; and the two ciphers stay in step. *)
Theorem stream_roundtrip (p : program) (mtu : Z) (s r : aeadBlockCipher) (fixedV : hintCache) (unix now2 : Z) (rd : reading)
    (d : sendDraws) (now : Z) (m : metadata) (payload : list Z) (l : list (sendDraws * Z * metadata * list Z)) :
  (lowEntropyPaddingBit p = 0 ∨ lowEntropyPaddingBit p = 1) → Forall (writable p unix) ((d, now, m, payload) :: l) →
  ready s (sd_nonce d) → bytes_ok (c_key s) → aligned s r → receives isClient block rd r →
  ∃ s' bytes ms, writeAll p mtu s fixedV ((d, now, m, payload) :: l) = Ok (s', bytes, ms) ∧
    Forall2 (λ x m', carries x.1.1.2 x.1.2 m') ((d, now, m, payload) :: l) ms ∧
    ∃ rd' r', readAll (S (length l) + 1) now2 unix (rd<|rd_in := bytes|>) = (rd', zip ms (payload :: (snd <$> l)), Ok tt) ∧
      rd_in rd' = [] ∧ rd_recv rd' = Some r' ∧ in_step s' r'.
Proof using CL FL.
  intros Hbit Hall Hs Hkey Hal Hrec. destruct (writeAll_spec p mtu s fixedV unix ((d, now, m, payload) :: l) Hbit Hall Hkey Hs) as (s' & bytes & ms & Hw & Hcar & _ & Hread).
  exists s', bytes, ms. split; [done|]. split; [done|].
  destruct (Hread now2 r (rd<|rd_in := bytes|>) [] Hal) as (rd' & r' & Hra & Hend & Hrest).
  - intros _ _. exact Hrec.
  - intros Hun. destruct Hrec as [[? _]|(_ & _ & E & _)]; [done|congruence].
  - cbn. by rewrite app_nil_r.
  - destruct Hend as [(E & _)|[E Hst]]; [done|]. exists rd'<|rd_in := []|>, r'. split_and!; [|done|done|done].
    change (length ((d, now, m, payload) :: l)) with (S (length l)) in Hra. rewrite (Hra 1%nat). cbn [readAll].
    assert (readOne now2 Expired unix rd' = (rd'<|rd_in := []|>, Ok None)) as ->.
    { unfold readOneSegment, ReadFull. rewrite Hrest. destruct (bool_decide (rd_recv rd' = None)); reflexivity. }
    cbv beta iota zeta. by rewrite app_nil_r.
Qed.
End connection.
End roundtrip.

(** ** An example: an open request and a low entropy data segment, to a client *)

#[local] Existing Instance taggedCrypto.
#[local] Existing Instance taggedCrypto_laws.
#[local] Existing Instance fractionFloat.
#[local] Existing Instance fractionFloat_laws.
Definition example_streamCipher : aeadBlockCipher := SetImplicitNonceMode true Packet.example_sender.
Definition example_response : sessionStruct := mkSession (mkBase openSessionResponse 0) 7 0 0 3 0.
Definition example_segments : list (sendDraws * Z * metadata * list Z) :=
  [(example_sendDraws, 1700000000, MSession example_response, [1; 2; 3]); (example_sendDraws, 1700000001, MDataAck example_prepared, [4; 5; 6])].
Definition example_reading : reading := mkReading None [] (mkReplay 4194304 (1700000400 * Second) (360 * Second) ∅ ∅) 0 None (mkWorld ∅ ∅).

Lemma example_writable : Forall (writable example_program 1700000002) example_segments.
Proof.
  assert (padding_ok example_program example_sendDraws) as Hp by (split; [apply example_padding_draws_ok..|done]).
  assert (buffer_ok (sd_buffer example_sendDraws)) as Hb by (intros n Hn; cbn; unfold len; rewrite length_replicate; lia).
  assert (Cipher.draws_ok (sd_nonce example_sendDraws)) as Hd by (by intros bs [= <-]).
  constructor; [|constructor; [|constructor]].
  - split; [exact Hp|]. split; [exact Hb|]. split; [|split; [|exact Hd]].
    + split; [by apply (bool_decide_unpack _)|]. split; [by apply (bool_decide_unpack _)|done].
    + by apply (bool_decide_unpack _).
  - split; [exact Hp|]. split; [exact Hb|]. split; [|split; [|exact Hd]].
    + split; [by apply (bool_decide_unpack _)|]. split; [by apply (bool_decide_unpack _)|]. split; [done|]. split; [|done].
      eexists. split; [intros i Hi; cbn; lia|]. vm_compute. reflexivity.
    + by apply (bool_decide_unpack _).
Qed.
Lemma example_ready : ready example_streamCipher (sd_nonce example_sendDraws).
Proof.
  split; [done|right]. split; [done|]. split; [by intros bs [= <-]|]. split; [by vm_compute|].
  eexists _, (seqZ 0 24). split; [reflexivity|by apply (bool_decide_unpack _)].
Qed.
Lemma stream_roundtrip_witness :
  ∃ s' bytes ms rd' r', writeAll None example_program 1400 example_streamCipher ∅ example_segments = Ok (s', bytes, ms) ∧
    readAll exampleHash (λ _, 0) 5 true (Some example_streamCipher) None (SourceFromAddr (OtherAddr [])) 3 (1700000002 * Second) 1700000002
      (example_reading<|rd_in := bytes|>) = (rd', zip ms [[1; 2; 3]; [4; 5; 6]], Ok tt) ∧
    rd_in rd' = [] ∧ rd_recv rd' = Some r' ∧ in_step s' r'.
Proof.
  destruct (stream_roundtrip exampleHash (λ _, 0) 5 true (Some example_streamCipher) None (SourceFromAddr (OtherAddr [])) example_program 1400
    example_streamCipher example_streamCipher ∅ 1700000002 (1700000002 * Second) example_reading
    example_sendDraws 1700000000 (MSession example_response) [1; 2; 3] [(example_sendDraws, 1700000001, MDataAck example_prepared, [4; 5; 6])])
    as (s' & bytes & ms & H1 & _ & rd' & r' & H2 & H3 & H4 & H5).
  - by right.
  - apply example_writable.
  - apply example_ready.
  - by apply (bool_decide_unpack _).
  - split_and!; auto.
  - right. split; [done|]. split; [done|]. split; [done|]. exists example_streamCipher. split; [done|]. vm_compute. reflexivity.
  - exists s', bytes, ms, rd', r'. split; [exact H1|]. split; [exact H2|]. split; [exact H3|]. split; [exact H4|exact H5].
Defined.
