(* ===== verification/Congestion.v ===== *)
(** * pkg/congestion: round trip statistics and the cubic window

    Floating point is the class [GoFloat] of GoFloat.v.  Durations are
    nanoseconds.  [nowMicros] is [time.Now().UnixMicro()].

    Theorem: whatever acknowledgements, losses and timeouts arrive, and
    whatever the cubic curve evaluates to, the window stays between its bounds. *)
From S2P Require Import Prelude MathExt GoStd GoFloat.

Section congestion.
Context `{F : GoFloat}.

(** ** rtt.go *)

Definition defaultInitialRTT : Z := Second.
Definition infDuration : Z := 2 ^ 63 - 1.

Record RTTStats := mkRTT {
  hasMeasurement : bool;
  minRTT : Z;
  latestRTT : Z;
  smoothedRTT : Z;
  meanDeviation : Z;
  maxAckDelay : Z;
  rtoMultiplier : f64
}.
#[export] Instance RTTStats_eta : Settable RTTStats := λ r,
  mkRTT (hasMeasurement r) (minRTT r) (latestRTT r) (smoothedRTT r) (meanDeviation r) (maxAckDelay r) (rtoMultiplier r).

Definition NewRTTStats : RTTStats := mkRTT false 0 0 0 0 0 (f64_const 1 1).

Definition RTO (r : RTTStats) : Z :=
  if smoothedRTT r =? 0 then 2 * defaultInitialRTT else
  let rto := smoothedRTT r + Max (4 * meanDeviation r) (10 * Millisecond) in
  let rto := rto + maxAckDelay r in
  f64_int (f64_mul (f64_of rto) (rtoMultiplier r)).

Definition UpdateRTT (sample : Z) (r : RTTStats) : RTTStats :=
  if (sample =? infDuration) || (sample <=? 0) then r else
  let r := if (minRTT r =? 0) || (minRTT r >? sample) then r<|minRTT := sample|> else r in
  let r := r<|latestRTT := sample|> in
  if negb (hasMeasurement r) then
    r<|hasMeasurement := true|><|smoothedRTT := sample|><|meanDeviation := sample `quot` 2|>
  else
    let r := r<|meanDeviation :=
      f32_int (f32_add (f32_mul (f32_const 3 4) (f32_of (meanDeviation r `quot` Microsecond)))
                       (f32_mul (f32_const 1 4) (f32_of (Abs (smoothedRTT r - sample) `quot` Microsecond)))) * Microsecond|> in
    r<|smoothedRTT :=
      f32_int (f32_add (f32_mul (f32_of (smoothedRTT r `quot` Microsecond)) (f32_const 7 8))
                       (f32_mul (f32_of (sample `quot` Microsecond)) (f32_const 1 8))) * Microsecond|>.

Definition SetMaxAckDelay (mad : Z) (r : RTTStats) : RTTStats := r<|maxAckDelay := mad|>.
(** The only caller passes a positive constant. *)
Definition SetRTOMultiplier (n : f64) (r : RTTStats) : RTTStats := r<|rtoMultiplier := n|>.
Definition SetInitialRTT (t : Z) (r : RTTStats) : result RTTStats :=
  if hasMeasurement r then Panic "initial RTT set after first measurement"
  else Ok (r<|smoothedRTT := t|><|latestRTT := t|>).
Definition RTT_Reset (r : RTTStats) : RTTStats :=
  r<|latestRTT := 0|><|minRTT := 0|><|smoothedRTT := 0|><|meanDeviation := 0|>.
Definition ExpireSmoothedMetrics (r : RTTStats) : RTTStats :=
  let r := r<|meanDeviation := Max (meanDeviation r) (Abs (smoothedRTT r - latestRTT r))|> in
  r<|smoothedRTT := Max (smoothedRTT r) (latestRTT r)|>.

(** ** cubic.go *)

Inductive cubicOperationMode := cubicSlowStart | cubicNormal.
#[global] Instance cubicOperationMode_eq_dec : EqDecision cubicOperationMode.
Proof. solve_decision. Defined.

Definition cubicBeta : f64 := f64_const 7 10.
Definition cubicC : f64 := f64_const 4 10.

Record CubicSendAlgorithm := mkCubic {
  minWindowSize : Z;
  maxWindowSize : Z;
  mode : cubicOperationMode;
  congestionWindow : Z;
  windowSizeBeforeLastReduction : Z;
  lastReductionTime : f64;
  accumulatedAcks : Z
}.
#[export] Instance CubicSendAlgorithm_eta : Settable CubicSendAlgorithm := λ c,
  mkCubic (minWindowSize c) (maxWindowSize c) (mode c) (congestionWindow c) (windowSizeBeforeLastReduction c)
    (lastReductionTime c) (accumulatedAcks c).

Definition NewCubicSendAlgorithm (minWindowSize maxWindowSize : Z) : result CubicSendAlgorithm :=
  if minWindowSize >? maxWindowSize
  then Panic "minimum congestion window size is greater than maximum congestion window size"
  else Ok (mkCubic minWindowSize maxWindowSize cubicSlowStart minWindowSize 0 (f64_of 0) 0).

Definition CongestionWindowSize (c : CubicSendAlgorithm) : Z := congestionWindow c.
Definition InSlowStart (c : CubicSendAlgorithm) : bool := bool_decide (mode c = cubicSlowStart).

Definition inRange (c : CubicSendAlgorithm) : CubicSendAlgorithm :=
  if congestionWindow c <? minWindowSize c then c<|congestionWindow := minWindowSize c|>
  else if congestionWindow c >? maxWindowSize c then c<|congestionWindow := maxWindowSize c|>
  else c.

Definition secondsOf (nowMicros : Z) : f64 := f64_div (f64_of nowMicros) (f64_const 1000000 1).

Definition OnAck (nowMicros : Z) (c : CubicSendAlgorithm) : CubicSendAlgorithm :=
  if decide (mode c = cubicSlowStart) then
    inRange (c<|congestionWindow := u32 (congestionWindow c + 1)|>)
  else
    let c := c<|accumulatedAcks := u32 (accumulatedAcks c + 1)|> in
    let w := f64_of (windowSizeBeforeLastReduction c) in
    let k := f64_cbrt (f64_div (f64_mul w (f64_sub (f64_const 1 1) cubicBeta)) cubicC) in
    let t := f64_sub (secondsOf nowMicros) (lastReductionTime c) in
    let d := f64_sub t k in
    inRange (c<|congestionWindow :=
      u32 (f64_uint32 (f64_add (f64_mul (f64_mul (f64_mul cubicC d) d) d) w) + accumulatedAcks c `quot` 16)|>).

Definition OnLoss (nowMicros : Z) (c : CubicSendAlgorithm) : CubicSendAlgorithm :=
  let c := c<|mode := cubicNormal|><|lastReductionTime := secondsOf nowMicros|>
            <|windowSizeBeforeLastReduction := congestionWindow c|><|accumulatedAcks := 0|> in
  inRange (c<|congestionWindow := f64_uint32 (f64_mul (f64_of (congestionWindow c)) cubicBeta)|>).

Definition OnTimeout (c : CubicSendAlgorithm) : CubicSendAlgorithm :=
  c<|mode := cubicSlowStart|><|congestionWindow := minWindowSize c|>
   <|windowSizeBeforeLastReduction := 0|><|lastReductionTime := f64_of 0|><|accumulatedAcks := 0|>.

(** ** The window stays in range *)

Inductive congestionEvent := EvAck (nowMicros : Z) | EvLoss (nowMicros : Z) | EvTimeout.
Definition onEvent (c : CubicSendAlgorithm) (e : congestionEvent) : CubicSendAlgorithm :=
  match e with EvAck now => OnAck now c | EvLoss now => OnLoss now c | EvTimeout => OnTimeout c end.

Definition cubic_inv (lo hi : Z) (c : CubicSendAlgorithm) : Prop :=
  minWindowSize c = lo ∧ maxWindowSize c = hi ∧ lo <= congestionWindow c <= hi.

Lemma inRange_inv lo hi c :
  lo <= hi → minWindowSize c = lo → maxWindowSize c = hi → cubic_inv lo hi (inRange c).
Proof.
  intros Hle <- <-. unfold cubic_inv, inRange. destruct (Z.ltb_spec (congestionWindow c) (minWindowSize c)).
  { cbn. lia. }
  rewrite Z.gtb_ltb. destruct (Z.ltb_spec (maxWindowSize c) (congestionWindow c)); cbn; lia.
Qed.

Lemma onEvent_inv lo hi c e : lo <= hi → cubic_inv lo hi c → cubic_inv lo hi (onEvent c e).
Proof.
  intros Hle (Hlo & Hhi & Hw). destruct e as [now|now|]; simpl.
  - unfold OnAck. case_decide; by apply inRange_inv.
  - by apply inRange_inv.
  - unfold OnTimeout, cubic_inv. cbn. lia.
Qed.

(** C35. The congestion window is within its bounds after any sequence of
    acknowledgements, losses and timeouts, for every floating point
    arithmetic. *)
Theorem congestion_window_bounded (lo hi : Z) (events : list congestionEvent) :
  lo <= hi →
  ∃ c, NewCubicSendAlgorithm lo hi = Ok c ∧ lo <= CongestionWindowSize (foldl onEvent c events) <= hi.
Proof.
  intros Hle. unfold NewCubicSendAlgorithm. rewrite Z.gtb_ltb. destruct (Z.ltb_spec hi lo); [lia|].
  eexists. split; [done|]. set (c := mkCubic _ _ _ _ _ _ _).
  assert (cubic_inv lo hi c) as Hc by (unfold cubic_inv; cbn; lia). clearbody c. revert c Hc.
  induction events as [|e events IH]; intros c Hc; [apply Hc|]. apply IH. by apply onEvent_inv.
Qed.
End congestion.

Example cubic_example :
  congestionWindow (F:=fractionFloat) (foldl (onEvent (F:=fractionFloat))
    (mkCubic (F:=fractionFloat) 16 4096 cubicSlowStart 16 0 (0, 1) 0) [EvAck 0; EvAck 0; EvLoss 1000000; EvAck 5000000]) = 21.
Proof. vm_compute. reflexivity. Qed.
Lemma congestion_window_bounded_witness :
  ∃ c, NewCubicSendAlgorithm (F:=fractionFloat) 16 4096 = Ok c ∧
    16 <= CongestionWindowSize (F:=fractionFloat) (foldl (onEvent (F:=fractionFloat)) c [EvAck 0; EvLoss 1000000; EvTimeout]) <= 4096.
Proof. apply (congestion_window_bounded (F:=fractionFloat) 16 4096 [EvAck 0; EvLoss 1000000; EvTimeout]). lia. Defined.
