(* ===== verification/Session.v ===== *)
(** * pkg/protocol/session.go: the session

    A [Session] is one multiplexed connection: it numbers the segments it
    creates, keeps them in [sendQueue] and [sendBuf] until they are
    acknowledged, and puts received segments back in order through [recvBuf]
    and [recvQueue].

    Operations run in a monad [M] over the session's state, with a trace of the
    segments that were numbered ([Numbered], at every [nextSend.Add(1)]) and
    handed to the underlay ([Sent]), and Go's result.  What comes from outside
    (clock, outcome of the underlay's write, quota check, jitter) is an [env].
    One operation is one atomic step.  Where the code waits, the operation
    returns [ErrNotReady], which it never returns otherwise. *)
From S2P Require Import Prelude MathExt Messages LowEntropy Metadata GoStd Ascii Cipher Segment GoFloat Congestion.

Definition segmentTreeCapacity : Z := 4096.
Definition segmentSendQueueTreeCapacity : Z := 1024.
Definition minWindow : Z := 16.
Definition maxWindow : Z := segmentTreeCapacity.
Definition sessionHeartbeatInterval : Z := 5 * Second.
Definition sessionHeartbeatJitterMs : Z := 1000.
Definition minOutputInterval : Z := 1 * Millisecond.
Definition packetAckDelay : Z := 1 * Millisecond.
Definition retransmissionCheckDelay : Z := 10 * Millisecond.
Definition earlyRetransmission : Z := 3.
Definition earlyRetransmissionLimit : Z := 1.
Definition maxBackOffDuration : Z := 10 * Second.
Definition MaxInt64 : Z := 2 ^ 63 - 1.

(** [sessionState]. *)
Definition sessionInit : Z := 0.
Definition sessionAttached : Z := 1.
Definition sessionEstablished : Z := 2.
Definition sessionClosed : Z := 3.

(** Outcome of the underlay's [writeOneSegment]. *)
Inductive writeOutcome := WOk | WNotReady | WErr.

(** What an operation observes of the outside. *)
Record env := mkEnv {
  now : Z;                              (* clock.Now().UnixMicro() *)
  writeOneSegment : segment → writeOutcome;
  quotaOK : bool;                       (* checkQuota *)
  jitterMs : Z                          (* mrand.Intn(2*sessionHeartbeatJitterMs+1) *)
}.

Inductive event := Numbered (seg : segment) | Sent (seg : segment).

#[export] Instance segment_eta : Settable segment := λ s,
  mkSegment (seg_metadata s) (seg_payload s) (seg_transport s) (seg_ackCount s) (seg_txCount s) (seg_txTime s)
    (seg_txTimeout s) (seg_block s).

Section session.
Context `{B : BTree} `{F : GoFloat}.

(** Channels that are only ever closed ([closedChan], [inputErr], [outputErr])
    are flags.  The user policy, the pending policies and the byte counters of
    a server session are outside of the model. *)
Record Session := mkSess {
  id : Z;
  isClient : bool;
  mtu : Z;
  transportProtocol : TransportProtocol;
  trafficPattern : option TrafficPattern;
  block : option aeadBlockCipher;
  state : Z;
  status : Z;
  closeRequested : bool;
  closedChan : bool;
  readDeadline : Z;
  writeDeadline : Z;
  inputHasErr : bool;
  outputHasErr : bool;
  sendQueue : segmentTree;
  sendBuf : segmentTree;
  recvBuf : segmentTree;
  recvQueue : segmentTree;
  packetOutputWakeup : bool;
  nextSend : Z;
  nextRecv : Z;
  lastSend : Z;
  lastRXTime : Z;
  lastTXTime : Z;
  heartbeatJitter : Z;
  nextRetransmissionTime : Z;
  ackOnDataRecv : bool;
  ackDeadline : Z;
  unreadBuf : list Z;
  rttStat : RTTStats;
  cubicSendAlgorithm : CubicSendAlgorithm;
  remoteWindowSize : Z;
  openSessionRequestSent : bool;
  userName : list Z;
  clientUseLowEntropy : bool
}.
#[export] Instance Session_eta : Settable Session := λ s,
  mkSess (id s) (isClient s) (mtu s) (transportProtocol s) (trafficPattern s) (block s) (state s) (status s)
    (closeRequested s) (closedChan s) (readDeadline s) (writeDeadline s) (inputHasErr s) (outputHasErr s)
    (sendQueue s) (sendBuf s) (recvBuf s) (recvQueue s) (packetOutputWakeup s) (nextSend s) (nextRecv s)
    (lastSend s) (lastRXTime s) (lastTXTime s) (heartbeatJitter s) (nextRetransmissionTime s) (ackOnDataRecv s)
    (ackDeadline s) (unreadBuf s) (rttStat s) (cubicSendAlgorithm s) (remoteWindowSize s)
    (openSessionRequestSent s) (userName s) (clientUseLowEntropy s).

(** ** The monad *)

Definition M (A : Type) : Type := Session → Session * list event * result A.
#[export] Instance M_ret : MRet M := λ A a s, (s, [], Ok a).
#[export] Instance M_bind : MBind M := λ A B f m s,
  match m s with
  | (s1, e1, Ok a) => let '(s2, e2, r) := f a s1 in (s2, e1 ++ e2, r)
  | (s1, e1, Err e) => (s1, e1, Err e)
  | (s1, e1, Panic p) => (s1, e1, Panic p)
  end.
Definition ret {A} (a : A) : M A := mret a.
Definition gets {A} (f : Session → A) : M A := λ s, (s, [], Ok (f s)).
Definition modify (f : Session → Session) : M unit := λ s, (f s, [], Ok tt).
Definition log (e : event) : M unit := λ s, (s, [e], Ok tt).
Definition lift {A} (r : result A) : M A := λ s, (s, [], r).
Definition fail {A} (e : error) : M A := lift (Err e).
Definition when (b : bool) (m : M unit) : M unit := if b then m else ret tt.
(** [if err := m(); err != nil { handler }], the error as a value. *)
Definition try {A} (m : M A) : M (A + error) := λ s,
  match m s with
  | (s1, e1, Ok a) => (s1, e1, Ok (inl a))
  | (s1, e1, Err e) => (s1, e1, Ok (inr e))
  | (s1, e1, Panic p) => (s1, e1, Panic p)
  end.

(** ** State, windows and configuration *)

Definition newSession (now id : Z) (isClient : bool) (mtu : Z) (trafficPattern : option TrafficPattern)
    (jitterMs : Z) : result Session :=
  sendQueue ← newSegmentTree segmentSendQueueTreeCapacity;
  sendBuf ← newSegmentTree segmentTreeCapacity;
  recvBuf ← newSegmentTree segmentTreeCapacity;
  recvQueue ← newSegmentTree segmentTreeCapacity;
  cubic ← NewCubicSendAlgorithm minWindow maxWindow;
  let rttStat := SetRTOMultiplier (f64_const 3 2) (SetMaxAckDelay packetAckDelay NewRTTStats) in
  Ok (mkSess id isClient mtu UnknownTransport trafficPattern None sessionInit statusOK false false 0 0 false false
        sendQueue sendBuf recvBuf recvQueue false 0 0 0 now now
        ((jitterMs - sessionHeartbeatJitterMs) * Millisecond) 0 false 0 [] rttStat cubic minWindow false [] false).

Definition isState (target : Z) (s : Session) : bool := state s =? target.
Definition isStateBefore (target : Z) (include : bool) (s : Session) : bool :=
  if include then state s <=? target else state s <? target.
Definition isStateAfter (target : Z) (include : bool) (s : Session) : bool :=
  if include then state s >=? target else state s >? target.
Definition forwardStateTo (next : Z) : M unit :=
  modify (λ s, if next <=? state s then s else s<|state := next|>).

Definition isClientPacketSessionOpening (s : Session) : bool :=
  isClient s && bool_decide (transportProtocol s = PacketTransport) && isState sessionAttached s.
Definition isClientPacketSessionOpenResponse (seg : segment) (s : Session) : bool :=
  isClientPacketSessionOpening s && (seg_Protocol seg =? openSessionResponse).

Definition shouldDeferNextPacketData (s : Session) : bool :=
  if negb (isClientPacketSessionOpening s) then false
  else Ascend (λ iter _, (false, isDataProtocol (seg_Protocol iter))) (sendQueue s) false.

Definition lowEntropySendConfig (s : Session) : Z * Z * bool :=
  let '(mode, rotation, enabled) := extractLowEntropyConfig (trafficPattern s) in
  if negb enabled then (LOW_ENTROPY_MODE_OFF, LOW_ENTROPY_MASK_NO_ROTATION, false)
  else if negb (isClient s) && negb (clientUseLowEntropy s)
  then (LOW_ENTROPY_MODE_OFF, LOW_ENTROPY_MASK_NO_ROTATION, false)
  else (mode, rotation, true).

Definition sendWindowSize (s : Session) : Z :=
  Max 0 (Min (CongestionWindowSize (cubicSendAlgorithm s) - Len (sendBuf s)) (remoteWindowSize s)).
Definition receiveWindowSize (s : Session) : Z :=
  Max 0 (segmentTreeCapacity - Len (recvBuf s) - Len (recvQueue s)).

Definition wakePacketOutput : M unit := modify (λ s, s<|packetOutputWakeup := true|>).
Definition requestPacketAck (e : env) : M unit :=
  modify (λ s,
    if ackOnDataRecv s then s
    else s<|ackDeadline := now e + packetAckDelay `quot` Microsecond|><|ackOnDataRecv := true|><|packetOutputWakeup := true|>).

(** [nextSend.Load()] into the new segment, then [nextSend.Add(1)]. *)
Definition number (mk : Z → segment) : M segment :=
  seq ← gets nextSend;
  let seg := mk seq in
  _ ← log (Numbered seg);
  _ ← modify (λ s, s<|nextSend := u32 (nextSend s + 1)|>);
  ret seg.

Definition insertSendQueue (seg : segment) : M bool :=
  t ← gets sendQueue;
  '(ok, t) ← lift (Insert seg t);
  _ ← modify (λ s, s<|sendQueue := t|>);
  ret ok.

Definition sessionSegment (s : Session) (protocol statusCode : Z) (payload : list Z) (seq : Z) : segment :=
  mkSegment (MSession (mkSession (mkBase protocol 0) (id s) seq statusCode (u16 (len payload)) 0))
    payload (transportProtocol s) 0 0 0 0 None.

(** ** Output *)

Definition output (e : env) (seg : segment) : M unit :=
  transport ← gets transportProtocol;
  sent ←
    match transport, writeOneSegment e seg with
    | StreamTransport, WOk => ret true
    | StreamTransport, _ => fail (Errorf "TCPUnderlay.writeOneSegment() failed")
    | PacketTransport, WOk => ret true
    | PacketTransport, WNotReady => ret false
    | PacketTransport, WErr => fail (Errorf "UDPUnderlay.writeOneSegment() failed")
    | UnknownTransport, _ => fail (Errorf "unsupported transport protocol")
    end;
  if sent : bool then
    _ ← log (Sent seg);
    modify (λ s, s<|lastSend := Seq seg|><|lastTXTime := now e|>)
  else ret tt.

(** ** Closing

    [closeWithError] waits up to a second for the output loop to send a queued
    request, so it is two steps: [closeBegin] up to the wait, [closeFinish]
    after it. *)
Inductive closing := NotClosing | ClosingQuietly | ClosingWith (seg : segment) (queued : bool).

Definition closeBegin (graceful : bool) : M closing :=
  requested ← gets closeRequested;
  if requested : bool then ret NotClosing else
  _ ← modify (λ s, s<|closeRequested := true|>);
  live ← gets (λ s, isState sessionAttached s || isState sessionEstablished s);
  if negb live then ret ClosingQuietly else
  st ← gets status;
  mk ← gets (λ s, sessionSegment s closeSessionRequest st []);
  seg ← number mk;
  if graceful then
    queued ← insertSendQueue seg;
    ret (ClosingWith seg queued)
  else ret (ClosingWith seg false).

Definition closeFinish (e : env) (c : closing) : M unit :=
  let shutdown :=
    _ ← modify (λ s, s<|sendQueue := DeleteAll (sendQueue s)|><|sendBuf := DeleteAll (sendBuf s)|>);
    _ ← forwardStateTo sessionClosed;
    modify (λ s, s<|closedChan := true|>) in
  match c with
  | NotClosing => ret tt
  | ClosingQuietly => shutdown
  | ClosingWith seg queued =>
    last ← gets lastSend;
    let gracefulCloseSuccess := queued && (last >=? Seq seg) in
    _ ← (if gracefulCloseSuccess then ret (inl tt) else try (output e seg));
    shutdown
  end.

Definition closeWithError (e : env) (err : option error) : M unit :=
  c ← closeBegin (match err with None => true | Some _ => false end);
  closeFinish e c.
Definition Close (e : env) : M unit := closeWithError e None.

(** [outputHasErr] is set once and closes [outputErr]; likewise for input. *)
Definition setOutputErr : M unit := modify (λ s, s<|outputHasErr := true|>).
Definition setInputErr : M unit := modify (λ s, s<|inputHasErr := true|>).

(** ** Writing *)

(** What stops a writer: the session is closed, the output has an error, or the
    deadline has passed. *)
Definition writeStopped (e : env) (s : Session) : option error :=
  if closedChan s then Some EOF
  else if outputHasErr s then Some ErrClosedPipe
  else if negb (writeDeadline s =? 0) && (now e >=? writeDeadline s) then Some ErrTimeout
  else None.

Definition dataSegment (s : Session) (lowEntropyMode lowEntropyRotation : Z) (sendLowEntropy : bool)
    (fragment payloadLen : Z) (part : list Z) (seq : Z) : segment :=
  let protocol :=
    if isClient s then (if sendLowEntropy then dataClientToServerLowEntropy else dataClientToServer)
    else (if sendLowEntropy then dataServerToClientLowEntropy else dataServerToClient) in
  mkSegment (MDataAck (mkDataAck (mkBase protocol 0)
      (if sendLowEntropy then u8 lowEntropyMode else 0)
      (id s) seq (nextRecv s) (u16 (receiveWindowSize s)) (u8 fragment) 0 payloadLen 0 0
      (if sendLowEntropy then u16 (len part) else 0)
      (if sendLowEntropy then u8 lowEntropyRotation else 0)))
    part (transportProtocol s) 0 0 0 0 None.

(** The loop over the fragments: [n] are left, numbered [n-1] down to 0. *)
Fixpoint writeFragments (e : env) (config : Z * Z * bool) (fragmentSize : Z) (n : nat) (ptr : list Z) : M unit :=
  match n with
  | O => ret tt
  | S i =>
    stopped ← gets (writeStopped e);
    match stopped with
    | Some err => fail err
    | None =>
      let '(lowEntropyMode, lowEntropyRotation, sendLowEntropy) := config in
      let partLen := Min fragmentSize (len ptr) in
      let part := slice_to partLen ptr in
      payloadLen ← (if sendLowEntropy : bool then lift (lowEntropyEncodedPayloadLen partLen lowEntropyMode)
                    else ret (u16 partLen));
      mk ← gets (λ s, dataSegment s lowEntropyMode lowEntropyRotation sendLowEntropy (Z.of_nat i) payloadLen part);
      seg ← number mk;
      ok ← insertSendQueue seg;
      if negb ok then fail (Errorf "insert to send queue failed") else
      writeFragments e config fragmentSize i (slice_from partLen ptr)
    end
  end.

(** The wait for the send queue to move, which follows, only consumes
    [chanEmptyEvent]. *)
Definition consumeEmptyEvent : M unit :=
  modify (λ s, let t := sendQueue s in s<|sendQueue := mkTree (tr t) (cap t) false (chanNotEmptyEvent t)|>).

Definition writeChunk (e : env) (b : list Z) : M Z :=
  if len b >? maxPDU then fail ErrShortWrite else
  config ← gets lowEntropySendConfig;
  fragmentSize ← gets (λ s, maxFragmentSize (mtu s) (transportProtocol s) config.1.1);
  fragmentSize ← lift fragmentSize;
  nFragment ← lift (if len b >? fragmentSize
                    then if fragmentSize =? 0 then Panic "integer divide by zero"
                         else Ok ((len b - 1) `quot` fragmentSize + 1)
                    else Ok 1);
  room ← gets (λ s, Remaining (sendQueue s));
  if room <=? nFragment then
    stopped ← gets (writeStopped e);
    fail (default ErrNotReady stopped)
  else
  _ ← writeFragments e config fragmentSize (Z.to_nat nFragment) b;
  _ ← consumeEmptyEvent;
  ret (len b).

(** [for len(b) > 0]: the number of bytes written so far comes back with the
    error. *)
Fixpoint writeLoop (e : env) (fuel : nat) (b : list Z) (n : Z) : M (Z * option error) :=
  if len b <=? 0 then ret (n, None) else
  match fuel with
  | O => lift (Panic "out of fuel")
  | S fuel =>
    let sizeToSend := Min (len b) maxPDU in
    r ← try (writeChunk e (slice_to sizeToSend b));
    match r with
    | inr err => ret (n, Some err)
    | inl sent => if sent =? 0 then ret (n, None)
                  else writeLoop e fuel (slice_from sizeToSend b) (n + sizeToSend)
    end
  end.

Definition Write (e : env) (b : list Z) : M (Z * option error) :=
  s ← gets (λ s, s);
  if closeRequested s then ret (0, Some ErrClosedPipe) else
  if isStateBefore sessionAttached false s then ret (0, Some (Errorf "session is not ready for Write()")) else
  if isStateAfter sessionClosed true s then ret (0, Some ErrClosedPipe) else
  r ←
    (if isClient s && isState sessionAttached s && negb (openSessionRequestSent s) then
       _ ← modify (λ s, s<|openSessionRequestSent := true|>);
       let '(_, _, sendLowEntropy) := lowEntropySendConfig s in
       let payload := if negb sendLowEntropy && (len b <=? MaxSessionOpenPayload) then b else [] in
       seg ← number (sessionSegment s openSessionRequest 0 payload);
       ok ← insertSendQueue seg;
       if negb ok then ret (Some (0, Some (Errorf "insert to send queue failed"))) else
       if len payload >? 0 then ret (Some (len payload, None)) else ret None
     else ret None);
  r ← (match r with Some r => ret r | None => writeLoop e (S (length b)) b 0 end);
  match r with
  | (_, Some ErrNotReady) => ret r
  | _ => _ ← modify (λ s, s<|writeDeadline := 0|>); ret r
  end.

(** ** Reading *)

(** The loop of [Read] into a buffer of [size] bytes; [acc] is what has been
    copied.  Every round takes a segment or returns. *)
Fixpoint readLoop (e : env) (fuel : nat) (size : Z) (acc : list Z) : M (list Z) :=
  match fuel with
  | O => lift (Panic "out of fuel")
  | S fuel =>
    unread ← gets unreadBuf;
    let copied := slice_to (size - len acc) unread in
    let acc := acc ++ copied in
    _ ← modify (λ s, s<|unreadBuf := slice_from (len copied) unread|>);
    if (len unread >? 0) && ((len acc =? size) || (len unread >? len copied)) then ret acc else
    queued ← gets (λ s, Len (recvQueue s));
    if queued >? 0 then
      t ← gets recvQueue;
      '(seg, t) ← lift (DeleteMin t);
      _ ← modify (λ s, s<|recvQueue := t|>);
      match seg with
      | None => readLoop e fuel size acc
      | Some seg =>
        opening ← gets (λ s, isClient s && (seg_Protocol seg =? openSessionResponse) && isState sessionAttached s);
        _ ← when opening (forwardStateTo sessionEstablished);
        let copied := slice_to (size - len acc) (seg_payload seg) in
        let acc := acc ++ copied in
        _ ← when (len copied <? len (seg_payload seg))
               (modify (λ s, s<|unreadBuf := slice_from (len copied) (seg_payload seg)|>));
        if len acc =? size then ret acc else readLoop e fuel size acc
      end
    else if len acc >? 0 then ret acc
    else
      s ← gets (λ s, s);
      fail (if closedChan s then EOF
            else if inputHasErr s then ErrUnexpectedEOF
            else if negb (readDeadline s =? 0) && (now e >=? readDeadline s) then ErrTimeout
            else ErrNotReady)
  end.

Definition Read (e : env) (size : Z) : M (list Z) :=
  if size =? 0 then
    _ ← modify (λ s, s<|readDeadline := 0|>); ret []
  else
    n ← gets (λ s, Len (recvQueue s));
    r ← try (readLoop e (S (S (Z.to_nat n))) size []);
    match r with
    | inr ErrNotReady => fail ErrNotReady
    | _ => _ ← modify (λ s, s<|readDeadline := 0|>);
           match r with inl b => ret b | inr err => fail err end
    end.

(** ** Deadlines *)

(** [None] is the zero time. *)
Definition deadlineMicros (t : option Z) : Z := match t with None => 0 | Some t => t / Microsecond end.
Definition SetReadDeadline (t : option Z) : M unit := modify (λ s, s<|readDeadline := deadlineMicros t|>).
Definition SetWriteDeadline (t : option Z) : M unit := modify (λ s, s<|writeDeadline := deadlineMicros t|>).
Definition SetDeadline (t : option Z) : M unit :=
  modify (λ s, s<|readDeadline := deadlineMicros t|><|writeDeadline := deadlineMicros t|>).

(** ** Input *)

(** Delete the acknowledged segments from the send buffer, one by one. *)
Fixpoint deleteAcked (e : env) (fuel : nat) (unAckSeq : Z) : M unit :=
  t ← gets sendBuf;
  '(seg2, deleted, t) ← lift (DeleteMinIf (λ iter, Seq iter <? unAckSeq) t);
  _ ← modify (λ s, s<|sendBuf := t|>);
  match deleted, seg2, fuel with
  | false, _, _ => ret tt
  | true, _, O => lift (Panic "out of fuel")
  | true, None, _ => lift (Panic "nil pointer dereference")
  | true, Some seg2, S fuel =>
    _ ← modify (λ s, s<|rttStat := UpdateRTT ((now e - seg_txTime seg2) * Microsecond) (rttStat s)|>
                      <|cubicSendAlgorithm := OnAck (now e) (cubicSendAlgorithm s)|>);
    deleteAcked e fuel unAckSeq
  end.
Definition processUnAck (e : env) (das : dataAckStruct) : M unit :=
  n ← gets (λ s, Len (sendBuf s));
  _ ← deleteAcked e (Z.to_nat n) (das_unAckSeq das);
  modify (λ s, s<|remoteWindowSize := das_windowSize das|>).

Definition wakeIfQueued : M unit :=
  n ← gets (λ s, Len (sendQueue s));
  when (n >? 0) wakePacketOutput.

(** [waitForRecvQueueSpace]: false when the session is closed. *)
Definition waitForRecvQueueSpace : M bool :=
  s ← gets (λ s, s);
  if closedChan s then ret false
  else if Remaining (recvQueue s) >? 0 then ret true
  else fail ErrNotReady.

(** Every round takes a segment out of [recvBuf] or returns. *)
Fixpoint moveLoop (fuel : nat) : M unit :=
  room ← gets (λ s, Remaining (recvQueue s));
  if room <=? 0 then ret tt else
  next ← gets nextRecv;
  t ← gets recvBuf;
  '(seg, deleted, t) ← lift (DeleteMinIf (λ iter, Seq iter <=? next) t);
  _ ← modify (λ s, s<|recvBuf := t|>);
  match seg, deleted, fuel with
  | None, _, _ | _, false, _ => ret tt
  | _, _, O => lift (Panic "out of fuel")
  | Some seg, true, S fuel =>
    if Seq seg <? next then moveLoop fuel else
    q ← gets recvQueue;
    '(ok, q) ← lift (Insert seg q);
    _ ← modify (λ s, s<|recvQueue := q|>);
    if negb ok then
      t ← gets recvBuf;
      '(ok, t) ← lift (Insert seg t);
      _ ← modify (λ s, s<|recvBuf := t|>);
      if negb ok then fail (Errorf "insert from receive queue back to receive buffer failed") else ret tt
    else
      _ ← modify (λ s, s<|nextRecv := u32 (nextRecv s + 1)|>);
      _ ← match seg_metadata seg with
          | MDataAck das => modify (λ s, s<|remoteWindowSize := das_windowSize das|>)
          | MSession _ => ret tt
          end;
      moveLoop fuel
  end.
Definition moveRecvBufToRecvQueue : M unit :=
  n ← gets (λ s, Len (recvBuf s));
  moveLoop (Z.to_nat n).

(** The reply of a server to an open session request. *)
Definition replyOpen (e : env) (seg : segment) : M unit :=
  s ← gets (λ s, s);
  if negb (isClient s) && (seg_Protocol seg =? openSessionRequest) && isState sessionAttached s then
    if negb (len (userName s) =? 0) && negb (quotaOK e) then
      _ ← modify (λ s, s<|status := statusQuotaExhausted|>);
      Close e
    else
      seg4 ← number (sessionSegment s openSessionResponse 0 []);
      ok ← insertSendQueue seg4;
      if negb ok then fail (Errorf "inputData() failed: insert to send queue failed")
      else forwardStateTo sessionEstablished
  else ret tt.

Definition insertRecv (seg : segment) : M bool :=
  t ← gets recvBuf;
  '(ok, t) ← lift (Insert seg t);
  _ ← modify (λ s, s<|recvBuf := t|>);
  ret ok.
Definition insertRecvQueue (seg : segment) : M bool :=
  t ← gets recvQueue;
  '(ok, t) ← lift (Insert seg t);
  _ ← modify (λ s, s<|recvQueue := t|>);
  ret ok.

(** The packet branch of [inputData]: false when the segment is dropped and the
    function returns early. *)
Definition inputPacket (e : env) (seg : segment) : M bool :=
  _ ← match seg_metadata seg with
      | MDataAck das => processUnAck e das
      | MSession _ => ret tt
      end;
  _ ← wakeIfQueued;
  _ ← requestPacketAck e;
  window ← gets receiveWindowSize;
  if window <=? 0 then ret false else
  ok ← insertRecv seg;
  if negb ok then ret false else
  space ← waitForRecvQueueSpace;
  _ ← when space moveRecvBufToRecvQueue;
  _ ← requestPacketAck e;
  ret true.

Definition inputData (e : env) (seg : segment) : M unit :=
  transport ← gets transportProtocol;
  continue ←
    match transport with
    | StreamTransport =>
      space ← waitForRecvQueueSpace;
      if space : bool then
        ok ← insertRecvQueue seg;
        if negb ok then fail (Errorf "inputData() failed: insert to receive queue failed") else ret true
      else ret true
    | PacketTransport => inputPacket e seg
    | UnknownTransport => fail (Errorf "unsupported transport protocol")
    end;
  if continue : bool then replyOpen e seg else ret tt.

(** The iterator that counts duplicate acknowledgements. *)
Definition bumpAckCount (unAckSeq : Z) (l : list segment) : list segment :=
  (λ iter, if Seq iter =? unAckSeq then iter<|seg_ackCount := u8 (seg_ackCount iter + 1)|> else iter) <$> l.

Definition inputAck (e : env) (seg : segment) : M unit :=
  transport ← gets transportProtocol;
  match transport with
  | StreamTransport => ret tt
  | PacketTransport =>
    match seg_metadata seg with
    | MSession _ => lift (Panic "interface conversion")
    | MDataAck das =>
      _ ← processUnAck e das;
      _ ← modify (λ s, s<|sendBuf := Update (bumpAckCount (das_unAckSeq das) (items (sendBuf s))) (sendBuf s)|>);
      wakeIfQueued
    end
  | UnknownTransport => fail (Errorf "unsupported transport protocol")
  end.

Definition inputClose (e : env) (seg : segment) : M unit :=
  if seg_Protocol seg =? closeSessionRequest then
    mk ← gets (λ s, sessionSegment s closeSessionResponse statusOK []);
    seg2 ← number mk;
    r ← try (output e seg2);
    match r with
    | inr err => fail (Wrapf "output() failed" err)
    | inl _ => Close e
    end
  else if seg_Protocol seg =? closeSessionResponse then Close e
  else ret tt.

(** The user of the segment's cipher must be the session's. *)
Definition checkBlock (seg : segment) : M unit :=
  match seg_block seg with
  | None => ret tt
  | Some next =>
    prev ← gets block;
    _ ← match prev with
        | None => ret tt
        | Some prev =>
          if len (c_userName prev) =? 0 then lift (Panic "session cipher block user name is not set")
          else if len (c_userName next) =? 0 then lift (Panic "segment cipher block user name is not set")
          else if negb (bool_decide (c_userName prev = c_userName next)) then lift (Panic "cipher block user name is different")
          else ret tt
        end;
    modify (λ s, let s := s<|block := Some next|> in
                 if len (userName s) =? 0 then s<|userName := c_userName next|> else s)
  end.

Definition acceptsProtocol (client : bool) (p : Z) : bool :=
  if client then
    (p =? openSessionResponse) || (p =? dataServerToClient) || (p =? dataServerToClientLowEntropy)
    || (p =? ackServerToClient) || (p =? closeSessionRequest) || (p =? closeSessionResponse)
  else
    (p =? openSessionRequest) || (p =? dataClientToServer) || (p =? dataClientToServerLowEntropy)
    || (p =? ackClientToServer) || (p =? closeSessionRequest) || (p =? closeSessionResponse).

Definition input (e : env) (seg : segment) : M unit :=
  let protocol := seg_Protocol seg in
  client ← gets isClient;
  if negb (acceptsProtocol client protocol) then fail ErrInvalidArgument else
  _ ← checkBlock seg;
  _ ← modify (λ s, s<|lastRXTime := now e|>);
  _ ← when (negb client && (protocol =? dataClientToServerLowEntropy))
         (modify (λ s, s<|clientUseLowEntropy := true|>));
  if (protocol =? openSessionRequest) || (protocol =? openSessionResponse) || isDataProtocol protocol then
    _ ← inputData e seg;
    opening ← gets (isClientPacketSessionOpenResponse seg);
    when opening (_ ← forwardStateTo sessionEstablished; wakePacketOutput)
  else if isAckProtocol protocol then inputAck e seg
  else if (protocol =? closeSessionRequest) || (protocol =? closeSessionResponse) then inputClose e seg
  else ret tt.

(** One round of [runInputLoop] on a segment from [recvChan]. *)
Definition runInputOnce (e : env) (seg : segment) : M unit :=
  r ← try (input e seg);
  match r with
  | inl _ => ret tt
  | inr ErrNotReady => fail ErrNotReady
  | inr err =>
    _ ← setInputErr;
    _ ← closeWithError e (Some (Wrapf "input() failed" err));
    fail (Wrapf "input() failed" err)
  end.

(** ** The output loops *)

Fixpoint streamLoop (e : env) (fuel : nat) : M unit :=
  t ← gets sendQueue;
  '(seg, t) ← lift (DeleteMin t);
  _ ← modify (λ s, s<|sendQueue := t|>);
  match seg, fuel with
  | None, _ => ret tt
  | Some _, O => lift (Panic "out of fuel")
  | Some seg, S fuel =>
    r ← try (output e seg);
    match r with
    | inl _ => streamLoop e fuel
    | inr err => _ ← setOutputErr; closeWithError e (Some (Wrapf "output() failed" err))
    end
  end.
Definition runOutputOnceStream (e : env) : M unit :=
  broken ← gets outputHasErr;
  if broken : bool then ret tt else
  n ← gets (λ s, Len (sendQueue s));
  streamLoop e (Z.to_nat n).

(** [Min(RTO * Duration(Pow(1.5, txCount)), maxBackOffDuration)]. *)
Definition backOff (s : Session) (txCount : Z) : Z :=
  Min (RTO (rttStat s) * f64_int (f64_pow (f64_const 3 2) (f64_of txCount))) maxBackOffDuration.

(** One transmission: counters, timers and the piggybacked acknowledgement. *)
Definition markSent (e : env) (s : Session) (seg : segment) : segment :=
  let txCount := u8 (seg_txCount seg + 1) in
  let seg := seg<|seg_txCount := txCount|><|seg_txTime := now e|><|seg_txTimeout := backOff s txCount|> in
  match seg_metadata seg with
  | MDataAck das =>
    if isDataAckProtocol (das_Protocol das)
    then seg<|seg_metadata := MDataAck (das<|das_unAckSeq := nextRecv s|>)|> else seg
  | MSession _ => seg
  end.

(** The iterator over [sendBuf].  [done] holds the segments visited so far, as
    they are now; the result tells whether the iteration stopped on an error. *)
Record resendState := mkResend {
  rs_visited : list segment;
  rs_hasLoss : bool;
  rs_hasTimeout : bool;
  rs_count : Z;
  rs_nextTX : Z;
  rs_error : option error
}.
Fixpoint resendLoop (e : env) (l : list segment) (rs : resendState) : M resendState :=
  match l with
  | [] => ret rs
  | iter :: rest =>
    let stop iter err := mkResend (rs_visited rs ++ iter :: rest) (rs_hasLoss rs) (rs_hasTimeout rs) (rs_count rs)
                          (rs_nextTX rs) (Some err) in
    if seg_txCount iter >=? txCountLimit then
      _ ← setOutputErr;
      ret (stop iter (Errorf "too many retransmission"))
    else
      let early := (seg_ackCount iter >=? earlyRetransmission) && (seg_txCount iter <=? earlyRetransmissionLimit) in
      if early || (now e - seg_txTime iter >=? seg_txTimeout iter `quot` Microsecond) then
        iter ← gets (λ s, (markSent e s iter)<|seg_ackCount := 0|>);
        r ← try (output e iter);
        match r with
        | inr err =>
          _ ← setOutputErr;
          ret (mkResend (rs_visited rs ++ iter :: rest) (rs_hasLoss rs || early) (rs_hasTimeout rs || negb early)
                 (rs_count rs) (rs_nextTX rs) (Some (Wrapf "output() failed" err)))
        | inl _ =>
          resendLoop e rest (mkResend (rs_visited rs ++ [iter]) (rs_hasLoss rs || early) (rs_hasTimeout rs || negb early)
            (rs_count rs + 1) (Min (rs_nextTX rs) (seg_txTime iter + seg_txTimeout iter `quot` Microsecond)) None)
        end
      else
        resendLoop e rest (mkResend (rs_visited rs ++ [iter]) (rs_hasLoss rs) (rs_hasTimeout rs) (rs_count rs)
          (Min (rs_nextTX rs) (seg_txTime iter + seg_txTimeout iter `quot` Microsecond)) None)
  end.

(** First part of [runOutputOncePacket]: resend; the number of transmissions. *)
Definition resendSegments (e : env) : M Z :=
  due ← gets (λ s, (Len (sendBuf s) >? 0) && (now e >=? nextRetransmissionTime s));
  if negb due then ret 0 else
  l ← gets (λ s, items (sendBuf s));
  rs ← resendLoop e l (mkResend [] false false 0 MaxInt64 None);
  _ ← modify (λ s, s<|sendBuf := Update (rs_visited rs) (sendBuf s)|>);
  _ ← when (negb (rs_nextTX rs =? MaxInt64)) (modify (λ s, s<|nextRetransmissionTime := rs_nextTX rs|>));
  _ ← match rs_error rs with None => ret tt | Some err => closeWithError e (Some err) end;
  _ ← (if rs_hasTimeout rs then modify (λ s, s<|cubicSendAlgorithm := OnTimeout (cubicSendAlgorithm s)|>)
       else when (rs_hasLoss rs) (modify (λ s, s<|cubicSendAlgorithm := OnLoss (now e) (cubicSendAlgorithm s)|>)));
  ret (rs_count rs).

(** Second part: new segments from [sendQueue]. *)
Fixpoint sendLoop (e : env) (fuel : nat) (count : Z) : M unit :=
  s ← gets (λ s, s);
  if Remaining (sendBuf s) <=? 1 then ret tt else
  if shouldDeferNextPacketData s then ret tt else
  '(seg, deleted, t) ← lift (DeleteMinIf (λ _, count <? sendWindowSize s) (sendQueue s));
  _ ← modify (λ s, s<|sendQueue := t|>);
  match deleted, seg, fuel with
  | false, _, _ => ret tt
  | true, None, _ => lift (Panic "nil pointer dereference")
  | true, _, O => lift (Panic "out of fuel")
  | true, Some seg, S fuel =>
    let seg := markSent e s seg in
    let deadline := seg_txTime seg + seg_txTimeout seg `quot` Microsecond in
    _ ← (if Len (sendBuf s) =? 0
         then modify (λ s, s<|nextRetransmissionTime :=
                Min deadline (seg_txTime seg + retransmissionCheckDelay `quot` Microsecond)|>)
         else when (nextRetransmissionTime s >? deadline) (modify (λ s, s<|nextRetransmissionTime := deadline|>)));
    '(ok, t) ← lift (Insert seg (sendBuf s));
    _ ← modify (λ s, s<|sendBuf := t|>);
    if negb ok then
      _ ← setOutputErr;
      closeWithError e (Some (Errorf "output() failed: insert to send buffer failed"))
    else
    r ← try (output e seg);
    match r with
    | inr err => _ ← setOutputErr; closeWithError e (Some (Wrapf "output() failed" err))
    | inl _ => sendLoop e fuel (count + 1)
    end
  end.
Definition sendNewSegments (e : env) (count : Z) : M unit :=
  go ← gets (λ s, (Len (sendQueue s) >? 0) && negb (sendWindowSize s <=? 0));
  if negb go then ret tt else
  n ← gets (λ s, Len (sendQueue s));
  sendLoop e (Z.to_nat n) count.

Definition ackSegment (s : Session) : segment :=
  mkSegment (MDataAck (mkDataAck (mkBase (if isClient s then ackClientToServer else ackServerToClient) 0) 0
      (id s) (u32 (Max 0 (nextSend s - 1))) (nextRecv s) (u16 (receiveWindowSize s)) 0 0 0 0 0 0 0))
    [] (transportProtocol s) 0 0 0 0 None.

(** Third part: an acknowledgement or a heartbeat. *)
Definition sendAck (e : env) : M unit :=
  s ← gets (λ s, s);
  let ackDue := ackOnDataRecv s && (now e >=? ackDeadline s) in
  let jitteredInterval := sessionHeartbeatInterval + heartbeatJitter s in
  let exceedHeartbeatInterval := now e - lastTXTime s >? jitteredInterval `quot` Microsecond in
  if negb (isClientPacketSessionOpening s) && (ackDue || exceedHeartbeatInterval) then
    _ ← modify (λ s, s<|ackOnDataRecv := false|>);
    ack ← gets ackSegment;
    r ← try (output e ack);
    _ ← match r with
        | inl _ => ret tt
        | inr err => _ ← setOutputErr; closeWithError e (Some (Wrapf "output() failed" err))
        end;
    modify (λ s, s<|heartbeatJitter := (jitterMs e - sessionHeartbeatJitterMs) * Millisecond|>)
  else ret tt.

Definition runOutputOncePacket (e : env) : M unit :=
  broken ← gets outputHasErr;
  if broken : bool then ret tt else
  count ← resendSegments e;
  _ ← sendNewSegments e count;
  sendAck e.

Definition nextPacketOutputDelay (e : env) (s : Session) : Z :=
  let next := MaxInt64 in
  let next := if Len (sendBuf s) >? 0 then Min next (nextRetransmissionTime s) else next in
  let next :=
    if negb (isClientPacketSessionOpening s) then
      let next := if ackOnDataRecv s then Min next (ackDeadline s) else next in
      let jitteredInterval := sessionHeartbeatInterval + heartbeatJitter s in
      Min next (lastTXTime s + jitteredInterval `quot` Microsecond)
    else next in
  if next =? MaxInt64 then sessionHeartbeatInterval else
  let delay := (next - now e) * Microsecond in
  if delay <=? 0 then minOutputInterval else delay.

(** What [AddSession] of an underlay does to the session itself. *)
Definition attach (transport : TransportProtocol) : M unit :=
  _ ← modify (λ s, s<|transportProtocol := transport|>);
  forwardStateTo sessionAttached.

End session.
