(* ===== verification/Hoare.v ===== *)
(** * Reasoning about session operations

    Triples for the monad of Session.v.  A precondition and a postcondition
    speak of the state and of the trace of events so far; [hoare P m Q E] says
    that [m], started where [P] holds, does not panic, ends where [Q] holds if
    it returns and where [E] holds if it fails.  Sequence numbers are 32 bits
    wide and the code does not handle their wrap-around, so a triple speaks of
    runs in which a session numbers fewer than 2^32 segments. *)
From S2P Require Import Prelude Metadata Cipher Segment GoFloat Congestion Session.

(** The segments numbered and handed to the underlay. *)
Definition hist (tr : list event) : list segment :=
  omap (λ ev, match ev with Numbered x => Some x | Sent _ => None end) tr.
Definition sent (tr : list event) : list segment :=
  omap (λ ev, match ev with Sent x => Some x | Numbered _ => None end) tr.

Lemma hist_app tr ev : hist (tr ++ ev) = hist tr ++ hist ev.
Proof. apply omap_app. Qed.
Lemma sent_app tr ev : sent (tr ++ ev) = sent tr ++ sent ev.
Proof. apply omap_app. Qed.

Definition bounded (tr : list event) : Prop := len (hist tr) < 2 ^ 32.
Lemma bounded_app tr ev : bounded (tr ++ ev) → bounded tr.
Proof. unfold bounded. rewrite hist_app, len_app. pose proof (len_nonneg (hist ev)). lia. Qed.

Section hoare.
Context `{B : BTree} `{F : GoFloat}.
Abbreviation assertion := (Session → list event → Prop).

Definition hoare {A} (P : assertion) (m : M A) (Q : A → assertion) (E : error → assertion) : Prop :=
  ∀ s tr, P s tr →
    match m s with
    | (s', ev, r) =>
      bounded (tr ++ ev) →
      match r with Ok a => Q a s' (tr ++ ev) | Err er => E er s' (tr ++ ev) | Panic _ => False end
    end.

Lemma hoare_conseq {A} (P P' : assertion) (m : M A) (Q Q' : A → assertion) (E E' : error → assertion) :
  hoare P m Q E → (∀ s tr, bounded tr → P' s tr → P s tr) →
  (∀ a s tr, Q a s tr → Q' a s tr) → (∀ er s tr, E er s tr → E' er s tr) → hoare P' m Q' E'.
Proof.
  intros H HP HQ HE s tr Hp. specialize (H s tr). destruct (m s) as [[s' ev] r]. intros Hb.
  assert (bounded tr) as Hb' by by eapply bounded_app.
  specialize (H (HP _ _ Hb' Hp) Hb). destruct r; auto.
Qed.
Lemma hoare_pre {A} (P P' : assertion) (m : M A) (Q : A → assertion) (E : error → assertion) :
  hoare P m Q E → (∀ s tr, bounded tr → P' s tr → P s tr) → hoare P' m Q E.
Proof. intros H HP. eapply hoare_conseq; eauto. Qed.
Lemma hoare_post {A} (P : assertion) (m : M A) (Q Q' : A → assertion) (E : error → assertion) :
  hoare P m Q' E → (∀ a s tr, Q' a s tr → Q a s tr) → hoare P m Q E.
Proof. intros H HP. eapply hoare_conseq; eauto. Qed.

Lemma hoare_ext {A} (P : assertion) (m m' : M A) (Q : A → assertion) (E : error → assertion) :
  (∀ s, m s = m' s) → hoare P m' Q E → hoare P m Q E.
Proof. intros Hm H s tr Hp. rewrite Hm. by apply H. Qed.

Lemma hoare_ret {A} (a : A) (P : assertion) (Q : A → assertion) (E : error → assertion) :
  (∀ s tr, P s tr → Q a s tr) → hoare P (ret a) Q E.
Proof. intros H s tr Hp. cbn. intros _. rewrite app_nil_r. auto. Qed.

Lemma hoare_bind {A C} (P : assertion) (m : M A) (f : A → M C) (R : A → assertion) (Q : C → assertion) (E : error → assertion) :
  hoare P m R E → (∀ a, hoare (R a) (f a) Q E) → hoare P (m ≫= f) Q E.
Proof.
  intros Hm Hf s tr Hp. specialize (Hm s tr Hp). unfold mbind, M_bind.
  destruct (m s) as [[s1 e1] r1]. destruct r1 as [a|e|p].
  - specialize (Hf a s1 (tr ++ e1)). destruct (f a s1) as [[s2 e2] r2]. intros Hb.
    rewrite app_assoc in Hb. specialize (Hm (bounded_app _ _ Hb)). rewrite app_assoc. exact (Hf Hm Hb).
  - auto.
  - auto.
Qed.

(** Reading a field: the continuation knows its value. *)
Lemma hoare_gets {A C} (f : Session → A) (P : assertion) (k : A → M C) (Q : C → assertion) (E : error → assertion) :
  (∀ a, hoare (λ s tr, P s tr ∧ f s = a) (k a) Q E) → hoare P (gets f ≫= k) Q E.
Proof.
  intros H s tr Hp. specialize (H (f s) s tr (conj Hp eq_refl)). unfold mbind, M_bind, gets.
  destruct (k (f s) s) as [[s2 e2] r2]. done.
Qed.
Lemma hoare_modify (f : Session → Session) (P : assertion) (Q : unit → assertion) (E : error → assertion) :
  (∀ s tr, P s tr → Q tt (f s) tr) → hoare P (modify f) Q E.
Proof. intros H s tr Hp. cbn. intros _. rewrite app_nil_r. auto. Qed.
Lemma hoare_modify_bind {C} (f : Session → Session) (P : assertion) (k : unit → M C) (Q : C → assertion) (E : error → assertion) :
  hoare (λ s tr, ∃ s0, P s0 tr ∧ s = f s0) (k tt) Q E → hoare P (modify f ≫= k) Q E.
Proof.
  intros H. eapply hoare_bind; [by apply (hoare_modify _ _ (λ _ s tr, ∃ s0, P s0 tr ∧ s = f s0)); eauto|].
  by intros [].
Qed.
Lemma hoare_lift {A} (r : result A) (P : assertion) (Q : A → assertion) (E : error → assertion) :
  (∀ s tr, P s tr → match r with Ok a => Q a s tr | Err er => E er s tr | Panic _ => False end) →
  hoare P (lift r) Q E.
Proof. intros H s tr Hp. cbn. intros _. rewrite app_nil_r. specialize (H s tr Hp). by destruct r. Qed.
(** A lifted computation that returns. *)
Lemma hoare_lift_ok {A C} (r : result A) (P : assertion) (k : A → M C) (Q : C → assertion) (E : error → assertion) :
  (∀ s tr, P s tr → is_Ok r) → (∀ a, r = Ok a → hoare P (k a) Q E) → hoare P (lift r ≫= k) Q E.
Proof.
  intros Hr Hk s tr Hp. destruct (Hr s tr Hp) as [a ->]. specialize (Hk a eq_refl s tr Hp).
  unfold mbind, M_bind, lift. by destruct (k a s) as [[s2 e2] r2].
Qed.
Lemma hoare_fail {A} e (P : assertion) (Q : A → assertion) (E : error → assertion) :
  (∀ s tr, P s tr → E e s tr) → hoare P (fail e) Q E.
Proof. intros. by apply hoare_lift. Qed.
Lemma hoare_log ev (P : assertion) (Q : unit → assertion) (E : error → assertion) :
  (∀ s tr, bounded (tr ++ [ev]) → P s tr → Q tt s (tr ++ [ev])) → hoare P (log ev) Q E.
Proof. intros H s tr Hp. cbn. auto. Qed.
Lemma hoare_try {A} (m : M A) (P : assertion) (Q : A + error → assertion) (E E' : error → assertion) :
  hoare P m (λ a, Q (inl a)) E' → (∀ e s tr, E' e s tr → Q (inr e) s tr) → hoare P (try m) Q E.
Proof.
  intros H HE s tr Hp. specialize (H s tr Hp). unfold try. destruct (m s) as [[s' ev] [a|e|p]]; auto.
Qed.
Lemma hoare_when (b : bool) (m : M unit) (P : assertion) (Q : unit → assertion) (E : error → assertion) :
  (b = true → hoare P m Q E) → (b = false → ∀ s tr, P s tr → Q tt s tr) → hoare P (when b m) Q E.
Proof. intros H1 H2. destruct b; [by apply H1|]. by apply hoare_ret, H2. Qed.
(** A fact about the state before, as a hypothesis. *)
Lemma hoare_pure {A} (φ : Prop) (P : assertion) (m : M A) (Q : A → assertion) (E : error → assertion) :
  (∀ s tr, P s tr → φ) → (φ → hoare P m Q E) → hoare P m Q E.
Proof. intros Hφ H s tr Hp. by apply H; [eapply Hφ|]. Qed.
Lemma hoare_exists {A X} (P : X → assertion) (m : M A) (Q : A → assertion) (E : error → assertion) :
  (∀ x, hoare (P x) m Q E) → hoare (λ s tr, ∃ x, P x s tr) m Q E.
Proof. intros H s tr [x Hp]. by apply (H x). Qed.
Lemma hoare_false {A} (P : assertion) (m : M A) (Q : A → assertion) (E : error → assertion) :
  (∀ s tr, P s tr → False) → hoare P m Q E.
Proof. intros H s tr Hp. by destruct (H _ _ Hp). Qed.
End hoare.
