(* ===== verification/Delivery.v ===== *)
(** * Reliable delivery over packets

    The invariant of a session with packet transport, for both of its roles at
    once: as a sender it holds every segment that the peer has not yet
    received, as a receiver what it has delivered is a prefix of what the peer
    numbered.  Every operation of Session.v keeps it (the triples of this
    file); [Network.v] composes two sessions and a network that loses,
    duplicates and reorders. *)
From S2P Require Import Prelude MathExt Messages LowEntropy Metadata GoStd Ascii Cipher Segment GoFloat Congestion Session Hoare.

Definition seg_unAck (x : segment) : Z :=
  match seg_metadata x with MDataAck das => das_unAckSeq das | MSession _ => 0 end.
(** What a retransmission does not change. *)
Definition core (x : segment) : Z * Z * list Z := (seg_Protocol x, Seq x, seg_payload x).
(** The dynamic type of the metadata fits its protocol. *)
Definition typed (x : segment) : Prop :=
  match seg_metadata x with
  | MSession _ => isSessionProtocol (seg_Protocol x) = true
  | MDataAck _ => isDataAckProtocol (seg_Protocol x) = true
  end.
(** [x] is a copy of the segment that history [h] has at its number. *)
Definition copy_of (h : list segment) (x : segment) : Prop :=
  0 <= Seq x ∧ ∃ y, h !! Z.to_nat (Seq x) = Some y ∧ core x = core y.

Lemma copy_of_app h k x : copy_of h x → copy_of (h ++ k) x.
Proof. intros (Hx & y & Hy & Hc). split; [done|]. exists y. split; [by apply lookup_app_l_Some|done]. Qed.
Lemma copy_of_core h x x' : core x = core x' → copy_of h x → copy_of h x'.
Proof.
  intros Hc (Hx & y & Hy & E). injection Hc as H1 H2 H3. unfold copy_of. rewrite <-H2. split; [done|].
  exists y. split; [done|]. unfold core in *. congruence.
Qed.
Lemma copy_of_lt h x : copy_of h x → Seq x < len h.
Proof. intros (Hx & y & Hy & _). apply lookup_lt_Some in Hy. unfold len. lia. Qed.
Lemma copy_of_number h x : Seq x = len h → copy_of (h ++ [x]) x.
Proof.
  intros Hx. pose proof (len_nonneg h). split; [lia|]. exists x. split; [|done].
  rewrite Hx. unfold len. rewrite Nat2Z.id. apply list_lookup_middle. done.
Qed.

Section delivery.
Context `{BL : BTreeLaws} `{F : GoFloat}.

(** The part of a session that the invariant speaks about. *)
Record view := mkView {
  vTransport : TransportProtocol;
  vIsClient : bool;
  vMtu : Z;
  vBlock : option aeadBlockCipher;
  vNextSend : Z;
  vSendQueue : segmentTree;
  vSendBuf : segmentTree;
  vCloseRequested : bool;
  vReserved : bool;
  vRecvBuf : segmentTree;
  vRecvQueue : segmentTree;
  vNextRecv : Z;
  vUnread : list Z
}.
#[export] Instance view_eta : Settable view := λ v,
  mkView (vTransport v) (vIsClient v) (vMtu v) (vBlock v) (vNextSend v) (vSendQueue v) (vSendBuf v) (vCloseRequested v)
    (vReserved v) (vRecvBuf v) (vRecvQueue v) (vNextRecv v) (vUnread v).

(** While the open handshake has not used it, one slot of the send queue is
    free for it. *)
Definition reserved (s : Session) : bool :=
  if isClient s then negb (openSessionRequestSent s) else state s <=? sessionAttached.
Definition view_of (s : Session) : view :=
  mkView (transportProtocol s) (isClient s) (mtu s) (block s) (nextSend s) (sendQueue s) (sendBuf s) (closeRequested s)
    (reserved s) (recvBuf s) (recvQueue s) (nextRecv s) (unreadBuf s).

Definition held (v : view) (k : Z) : Prop :=
  ∃ x, (x ∈ items (vSendQueue v) ∨ x ∈ items (vSendBuf v)) ∧ Seq x = k.
Definition stored (v : view) (tr : list event) (x : segment) : Prop :=
  copy_of (hist tr) x ∧ checkProtocolType x = true ∧ typed x ∧ seg_unAck x <= vNextRecv v.
Definition sendable (v : view) (tr : list event) (x : segment) : Prop :=
  typed x ∧ seg_unAck x <= vNextRecv v ∧ (isAckProtocol (seg_Protocol x) = true ∨ copy_of (hist tr) x).
Definition tree_ok (c : Z) (t : segmentTree) : Prop := tree_inv t ∧ cap t = c.

(** The peer: it has received everything below [n], it has numbered [h]; the
    user of the session is [u].  The application has read [rd]. *)
Context (n : Z) (h : list segment) (u : list Z) (Hh : len h < 2 ^ 32).

Record Inv (lo : Z) (rd : list Z) (exc : Z → Prop) (rm : Prop) (v : view) (tr : list event) : Prop := {
  i_transport : vTransport v = PacketTransport;
  i_mtu : packetOverhead < vMtu v;
  i_block : ∀ b, vBlock v = Some b → c_userName b = u;
  i_next : vNextSend v = len (hist tr);
  i_seq : ∀ k x, hist tr !! k = Some x → Seq x = Z.of_nat k;
  i_sendQueue : tree_ok segmentSendQueueTreeCapacity (vSendQueue v);
  i_sendBuf : tree_ok segmentTreeCapacity (vSendBuf v);
  i_stored : ∀ x, x ∈ items (vSendQueue v) ∨ x ∈ items (vSendBuf v) → stored v tr x;
  i_sent : ∀ x, x ∈ sent tr → sendable v tr x;
  i_kept : vCloseRequested v = false → ∀ k, n <= k < vNextSend v → exc k ∨ held v k;
  i_room : rm → vCloseRequested v = false → vReserved v = true →
           len (items (vSendQueue v)) < segmentSendQueueTreeCapacity;
  i_recvBuf : tree_ok segmentTreeCapacity (vRecvBuf v);
  i_recvQueue : tree_ok segmentTreeCapacity (vRecvQueue v);
  i_got : ∀ x, x ∈ items (vRecvBuf v) ∨ x ∈ items (vRecvQueue v) → copy_of h x ∧ checkProtocolType x = true;
  i_below : ∀ x, x ∈ items (vRecvQueue v) → Seq x < vNextRecv v;
  i_nextRecv : 0 <= lo <= vNextRecv v ∧ vNextRecv v <= len h;
  i_bytes : rd ++ vUnread v ++ mjoin (seg_payload <$> items (vRecvQueue v))
            = mjoin (seg_payload <$> take (Z.to_nat (vNextRecv v)) h)
}.

(** The full invariant, and the weak one of a session that is about to close:
    it may have lost segments of its own. *)
Definition IS lo rd exc rm (s : Session) (tr : list event) : Prop := Inv lo rd exc rm (view_of s) tr.
Abbreviation full lo rd := (IS lo rd (λ _, False) True).
Abbreviation weak lo rd := (IS lo rd (λ _, True) False).

Lemma Inv_weaken lo rd exc exc' (rm rm' : Prop) v tr :
  (∀ k, exc k → exc' k) → (rm' → rm) → Inv lo rd exc rm v tr → Inv lo rd exc' rm' v tr.
Proof.
  intros He Hr H. destruct H. split; try done.
  - intros Hc k Hk. destruct (i_kept0 Hc k Hk); auto.
  - intros ???. auto.
Qed.
Lemma Inv_closing lo rd exc rm exc' rm' v tr :
  vCloseRequested v = true → Inv lo rd exc rm v tr → Inv lo rd exc' rm' v tr.
Proof. intros Hc H. destruct H. split; try done; intros; congruence. Qed.

(** *** Changes of the view *)

Lemma Inv_reserved lo rd exc rm v tr b :
  (b = true → vReserved v = true) → Inv lo rd exc rm v tr → Inv lo rd exc rm (v<|vReserved := b|>) tr.
Proof. intros Hb H. destruct H. split; cbn; try done. intros ???. auto. Qed.

Lemma Inv_block lo rd exc rm v tr b :
  c_userName b = u → Inv lo rd exc rm v tr → Inv lo rd exc rm (v<|vBlock := Some b|>) tr.
Proof. intros Hb H. destruct H. split; cbn; try done. by intros ? [= <-]. Qed.

Lemma Inv_number lo rd exc rm v tr x :
  Inv lo rd exc rm v tr → Seq x = vNextSend v → bounded (tr ++ [Numbered x]) →
  Inv lo rd (λ k, exc k ∨ k = Seq x) rm (v<|vNextSend := u32 (vNextSend v + 1)|>) (tr ++ [Numbered x]).
Proof.
  intros H Hx Hb. destruct H.
  assert (hist (tr ++ [Numbered x]) = hist tr ++ [x]) as Eh by (by rewrite hist_app).
  assert (u32 (vNextSend v + 1) = vNextSend v + 1) as Eu.
  { apply wrap_id. unfold bounded in Hb. rewrite Eh, len_app in Hb. change (len [x]) with 1 in Hb.
    pose proof (len_nonneg (hist tr)). unfold in_width. lia. }
  assert (∀ y, copy_of (hist tr) y → copy_of (hist (tr ++ [Numbered x])) y) as Hmono
    by (intros; rewrite Eh; by apply copy_of_app).
  split; try done.
  - cbn. rewrite Eu, Eh, len_app, i_next0. done.
  - intros k y. rewrite Eh, lookup_app_Some. intros [Hy|[Hk Hy]]; [auto|].
    apply list_lookup_singleton_Some in Hy as [Hk0 <-]. rewrite Hx, i_next0. unfold len. lia.
  - intros y Hy. destruct (i_stored0 y Hy) as (? & ? & ? & ?). split_and!; auto.
  - intros y. rewrite sent_app, app_nil_r. intros Hy. destruct (i_sent0 y Hy) as (? & ? & [?|?]); unfold sendable; auto.
  - cbn. rewrite Eu. intros Hc k Hk. destruct (Z.eq_dec k (vNextSend v)) as [->|]; [by left; right|].
    destruct (i_kept0 Hc k ltac:(lia)) as [?|Hh']; [by left; left|by right].
Qed.

Lemma Inv_sent lo rd exc rm v tr x :
  sendable v tr x → Inv lo rd exc rm v tr → Inv lo rd exc rm v (tr ++ [Sent x]).
Proof.
  intros Hx H. destruct H. assert (hist (tr ++ [Sent x]) = hist tr) as Eh by (by rewrite hist_app, app_nil_r).
  split; try done; rewrite ?Eh; try done.
  - intros y Hy. destruct (i_stored0 y Hy). unfold stored. by rewrite Eh.
  - intros y. rewrite sent_app, elem_of_app. unfold sendable. rewrite Eh.
    intros [Hy|Hy%list_elem_of_singleton]; [by apply i_sent0|by subst].
Qed.

(** A change of the two send trees: the new segments are stored, and what is
    given up is an exception or was received by the peer. *)
Lemma Inv_send_trees lo rd exc exc' rm (rm' : Prop) v tr q b :
  Inv lo rd exc rm v tr → tree_ok segmentSendQueueTreeCapacity q → tree_ok segmentTreeCapacity b →
  (∀ x, x ∈ items q ∨ x ∈ items b → stored v tr x) →
  (vCloseRequested v = false → ∀ k, n <= k < vNextSend v → exc k ∨ held v k →
     exc' k ∨ ∃ x, (x ∈ items q ∨ x ∈ items b) ∧ Seq x = k) →
  (rm' → vCloseRequested v = false → vReserved v = true → len (items q) < segmentSendQueueTreeCapacity) →
  Inv lo rd exc' rm' (v<|vSendQueue := q|><|vSendBuf := b|>) tr.
Proof. intros H Hq Hb Hs Hk Hr. destruct H. split; cbn; try done. intros Hc k Hkn. apply Hk; auto. Qed.

Lemma Inv_send_queue lo rd exc exc' rm (rm' : Prop) v tr q :
  Inv lo rd exc rm v tr → tree_ok segmentSendQueueTreeCapacity q →
  (∀ x, x ∈ items q → stored v tr x) →
  (vCloseRequested v = false → ∀ x, x ∈ items (vSendQueue v) → exc' (Seq x) ∨ ∃ y, y ∈ items q ∧ Seq y = Seq x) →
  (∀ k, exc k → exc' k ∨ ∃ y, y ∈ items q ∧ Seq y = k) →
  (rm' → vCloseRequested v = false → vReserved v = true → len (items q) < segmentSendQueueTreeCapacity) →
  Inv lo rd exc' rm' (v<|vSendQueue := q|>) tr.
Proof.
  intros H Hq Hs Hk He Hr. pose proof H as H'. destruct H'.
  assert (v<|vSendQueue := q|> = v<|vSendQueue := q|><|vSendBuf := vSendBuf v|>) as -> by by destruct v.
  eapply Inv_send_trees; [done..| | |done].
  - intros x [Hx|Hx]; auto.
  - intros Hc k Hkn [Hx|(x & [Hx|Hx] & <-)].
    + destruct (He k Hx) as [?|(y & ? & ?)]; [by left|right; eauto].
    + destruct (Hk Hc x Hx) as [?|(y & ? & ?)]; [by left|right; eauto].
    + right; eauto.
Qed.

Lemma Inv_send_buf lo rd exc rm v tr b :
  Inv lo rd exc rm v tr → tree_ok segmentTreeCapacity b →
  (∀ x, x ∈ items b → stored v tr x) →
  (vCloseRequested v = false → ∀ x, x ∈ items (vSendBuf v) → n <= Seq x → ∃ y, y ∈ items b ∧ Seq y = Seq x) →
  Inv lo rd exc rm (v<|vSendBuf := b|>) tr.
Proof.
  intros H Hb Hs Hk. pose proof H as H'. destruct H'.
  assert (v<|vSendBuf := b|> = v<|vSendQueue := vSendQueue v|><|vSendBuf := b|>) as -> by by destruct v.
  eapply Inv_send_trees; [done..| | |done].
  - intros x [Hx|Hx]; auto.
  - intros Hc k Hkn [Hx|(x & [Hx|Hx] & <-)]; [by left|right; eauto|].
    destruct (Hk Hc x Hx ltac:(lia)) as (y & ? & ?). right; eauto.
Qed.

(** *** Primitive operations *)

Lemma hoare_same lo rd exc rm f E :
  (∀ s, view_of (f s) = view_of s) →
  hoare (IS lo rd exc rm) (modify f) (λ _, IS lo rd exc rm) E.
Proof. intros Hf. apply hoare_modify. intros s tr. unfold IS. by rewrite Hf. Qed.

(** [forwardStateTo] can only end the reservation. *)
Lemma reserved_state s next :
  reserved (if next <=? state s then s else s<|state := next|>) = true → reserved s = true.
Proof.
  destruct (Z.leb_spec next (state s)); [done|]. unfold reserved. cbn. destruct (isClient s); [done|].
  rewrite !Z.leb_le. lia.
Qed.
Lemma view_state s next :
  view_of (if next <=? state s then s else s<|state := next|>) =
  (view_of s)<|vReserved := reserved (if next <=? state s then s else s<|state := next|>)|>.
Proof. by destruct (next <=? state s), s. Qed.
Lemma hoare_forwardState lo rd exc rm next E :
  hoare (IS lo rd exc rm) (forwardStateTo next) (λ _, IS lo rd exc rm) E.
Proof.
  apply hoare_modify. intros s tr H. unfold IS. rewrite view_state.
  apply Inv_reserved; [apply reserved_state|done].
Qed.

(** Numbering a segment: it is an exception until it is stored. *)
Lemma hoare_number lo rd exc rm mk (φ : view → Prop) E :
  (∀ q, Seq (mk q) = q) → (∀ v x, φ v → φ (v<|vNextSend := x|>)) →
  hoare (λ s tr, IS lo rd exc rm s tr ∧ φ (view_of s)) (number mk)
    (λ x s tr, (∃ q, x = mk q) ∧ IS lo rd (λ k, exc k ∨ k = Seq x) rm s tr ∧ copy_of (hist tr) x ∧ φ (view_of s)) E.
Proof.
  intros Hmk Hφ. unfold number. apply hoare_gets. intros q.
  eapply hoare_bind; [apply hoare_log with (Q := λ _ s tr, bounded tr ∧ ∃ tr0, tr = tr0 ++ [Numbered (mk q)] ∧
    (IS lo rd exc rm s tr0 ∧ φ (view_of s)) ∧ nextSend s = q); eauto 10|].
  intros []. apply hoare_modify_bind. apply hoare_ret.
  intros s tr (s0 & (Hb & tr0 & -> & (HI & Hp) & Hq) & ->). split; [by exists q|].
  split_and!; [|rewrite hist_app; apply copy_of_number|exact (Hφ (view_of s0) _ Hp)].
  - apply (Inv_number lo rd exc rm (view_of s0)); [done|by rewrite Hmk|done].
  - rewrite Hmk. destruct HI as [_ _ _ Hn _ _ _ _ _ _ _ _ _ _ _ _ _]. rewrite <-Hq. exact Hn.
Qed.

Lemma elem_of_insertOrdered_self x l : ordered l → x ∈ insertOrdered x l.
Proof. intros. apply elem_of_insertOrdered; auto. Qed.
Lemma elem_of_insertOrdered_keep x y l : ordered l → y ∈ l → ∃ z, z ∈ insertOrdered x l ∧ Seq z = Seq y.
Proof.
  intros Ho Hy. destruct (Z.eq_dec (Seq y) (Seq x)) as [E|E].
  - exists x. split; [by apply elem_of_insertOrdered_self|done].
  - exists y. split; [apply elem_of_insertOrdered; auto|done].
Qed.

Lemma Inv_close lo rd exc rm exc' rm' v tr :
  Inv lo rd exc rm v tr → Inv lo rd exc' rm' (v<|vCloseRequested := true|>) tr.
Proof. intros H. destruct H. by split. Qed.

Lemma Inv_room lo rd exc v tr :
  (vReserved v = true → len (items (vSendQueue v)) < segmentSendQueueTreeCapacity) →
  Inv lo rd exc False v tr → Inv lo rd exc True v tr.
Proof. intros Hr H. destruct H. split; done || auto. Qed.

(** Queueing a numbered segment.  With room in the queue it is accepted and is
    no longer an exception. *)
Lemma hoare_insertSendQueue lo rd exc rm x m (φ : view → list event → Prop) E :
  (∀ v q tr, φ v tr → φ (v<|vSendQueue := q|>) tr) →
  hoare (λ s tr, IS lo rd (λ k, exc k ∨ k = Seq x) rm s tr ∧ stored (view_of s) tr x ∧
           len (items (sendQueue s)) <= m ∧ φ (view_of s) tr)
    (insertSendQueue x)
    (λ ok s tr, (m < segmentSendQueueTreeCapacity → ok = true) ∧
       IS lo rd (λ k, exc k ∨ (ok = false ∧ k = Seq x)) False s tr ∧
       len (items (sendQueue s)) <= m + 1 ∧ φ (view_of s) tr) E.
Proof using BL.
  intros Hφ. unfold insertSendQueue. apply hoare_gets. intros t.
  eapply hoare_bind.
  { apply (hoare_lift _ _ (λ r s tr, Insert x t = Ok r ∧ (IS lo rd (λ k, exc k ∨ k = Seq x) rm s tr ∧ stored (view_of s) tr x ∧
           len (items (sendQueue s)) <= m ∧ φ (view_of s) tr) ∧ sendQueue s = t)).
    intros s tr ((HI & Hs & Hr) & Ht). destruct (i_sendQueue _ _ _ _ _ _ HI) as [Hq _]. simpl in Hq. rewrite Ht in Hq.
    destruct (Insert_spec x t Hq ltac:(apply Hs)) as (ok & t' & -> & _). done. }
  intros [ok t']. apply hoare_modify_bind. apply hoare_ret.
  intros s tr (s0 & (HInsert & (HI & Hs & Hr & Hp) & Ht) & ->).
  destruct (i_sendQueue _ _ _ _ _ _ HI) as [Hq Hc]. simpl in Hq, Hc. rewrite Ht in Hq, Hc.
  destruct (Insert_spec x t Hq ltac:(apply Hs)) as (ok' & t'' & E1 & Hinv & Hcap & Hres).
  rewrite E1 in HInsert. injection HInsert as -> ->. rewrite Ht in Hr. rewrite Hc in Hres, Hcap.
  assert (∀ z, z ∈ items t → stored (view_of s0) tr z) as Hold.
  { intros z Hz. apply (i_stored _ _ _ _ _ _ HI). left. simpl. by rewrite Ht. }
  specialize (Hφ _ t' _ Hp).
  destruct (decide (len (items t) >= segmentSendQueueTreeCapacity)) as [Hd|Hd]; destruct Hres as [-> Hi].
  - split_and!; [lia| |cbn; rewrite Hi; lia|done].
    apply (Inv_send_queue lo rd (λ k, exc k ∨ k = Seq x) _ rm False (view_of s0) tr t'); [exact HI|done| | | |done].
    + rewrite Hi. done.
    + intros _ z. simpl. rewrite Ht, Hi. eauto.
    + intros k [Hk| ->]; auto.
  - destruct Hq as [Ho _]. pose proof (length_insertOrdered x (items t)).
    split_and!; [done| |cbn; rewrite Hi; unfold len in *; lia|done].
    apply (Inv_send_queue lo rd (λ k, exc k ∨ k = Seq x) _ rm False (view_of s0) tr t'); [exact HI|done| | | |done].
    + rewrite Hi. intros z [->|[Hz _]]%elem_of_insertOrdered; auto.
    + intros _ z. simpl. rewrite Ht, Hi. intros Hz. right. by apply elem_of_insertOrdered_keep.
    + intros k [Hk| ->]; [auto|]. right. exists x. rewrite Hi. split; [by apply elem_of_insertOrdered_self|done].
Qed.

(** Handing a segment to the underlay keeps whatever does not depend on what
    was sent before. *)
Lemma hoare_output_tr lo rd exc rm e x (φ : view → list event → Prop) :
  (∀ v tr y, φ v tr → φ v (tr ++ [Sent y])) →
  hoare (λ s tr, IS lo rd exc rm s tr ∧ sendable (view_of s) tr x ∧ φ (view_of s) tr) (output e x)
    (λ _ s tr, IS lo rd exc rm s tr ∧ φ (view_of s) tr) (λ _ s tr, IS lo rd exc rm s tr ∧ φ (view_of s) tr).
Proof.
  intros Hφ. unfold output. apply hoare_gets. intros a. apply (hoare_pure (a = PacketTransport)).
  { intros s tr ((HI & _) & <-). apply (i_transport _ _ _ _ _ _ HI). }
  intros ->. eapply hoare_bind with (R := λ _ s tr, IS lo rd exc rm s tr ∧ sendable (view_of s) tr x ∧ φ (view_of s) tr).
  { destruct (writeOneSegment e x); [apply hoare_ret|apply hoare_ret|apply hoare_fail]; by intros s tr [(? & ? & ?) _]. }
  intros []; [|apply hoare_ret; by intros s tr (? & ? & ?)].
  eapply hoare_bind with (R := λ _ s tr, IS lo rd exc rm s tr ∧ φ (view_of s) tr).
  { apply hoare_log. intros s tr _ (HI & Hs & Hp). split; [by apply Inv_sent|auto]. }
  intros []. by apply hoare_modify.
Qed.
Lemma hoare_output lo rd exc rm e x (φ : view → Prop) :
  hoare (λ s tr, IS lo rd exc rm s tr ∧ sendable (view_of s) tr x ∧ φ (view_of s)) (output e x)
    (λ _ s tr, IS lo rd exc rm s tr ∧ φ (view_of s)) (λ _ s tr, IS lo rd exc rm s tr ∧ φ (view_of s)).
Proof. by apply (hoare_output_tr lo rd exc rm e x (λ v _, φ v)). Qed.

(** *** Closing *)

Definition closing_ok lo rd (c : closing) (s : Session) (tr : list event) : Prop :=
  weak lo rd s tr ∧
  match c with
  | NotClosing => True
  | ClosingQuietly => True
  | ClosingWith x _ => sendable (view_of s) tr x
  end ∧ closeRequested s = true.

Lemma sessionSegment_facts s p st pl q :
  Seq (sessionSegment s p st pl q) = q ∧ seg_Protocol (sessionSegment s p st pl q) = p ∧
  seg_payload (sessionSegment s p st pl q) = pl ∧ seg_unAck (sessionSegment s p st pl q) = 0.
Proof. done. Qed.

Lemma Inv_nextRecv_nonneg lo rd exc rm v tr : Inv lo rd exc rm v tr → 0 <= vNextRecv v.
Proof. intros H. destruct H. lia. Qed.

Lemma sendable_session lo rd exc rm v tr s p st pl q :
  isSessionProtocol p = true → Inv lo rd exc rm v tr → copy_of (hist tr) (sessionSegment s p st pl q) →
  sendable v tr (sessionSegment s p st pl q).
Proof. intros Hp HI Hc. split_and!; [done|by eapply Inv_nextRecv_nonneg|by right]. Qed.
Lemma stored_session lo rd exc rm v tr s p st pl q :
  isSessionProtocol p = true → Inv lo rd exc rm v tr → copy_of (hist tr) (sessionSegment s p st pl q) →
  stored v tr (sessionSegment s p st pl q).
Proof.
  intros Hp HI Hc. split_and!; [done| |done|by eapply Inv_nextRecv_nonneg].
  unfold checkProtocolType. change (seg_Protocol _) with p. by rewrite Hp.
Qed.

Lemma IS_weak lo rd exc rm s tr : IS lo rd exc rm s tr → weak lo rd s tr.
Proof. by apply Inv_weaken. Qed.

Lemma Inv_queue_len lo rd exc rm v tr : Inv lo rd exc rm v tr → len (items (vSendQueue v)) <= segmentSendQueueTreeCapacity.
Proof. intros H. destruct H. destruct i_sendQueue0 as ((_ & _ & Hl) & Hc). lia. Qed.

Lemma hoare_closeBegin lo rd graceful E :
  hoare (weak lo rd) (closeBegin graceful) (closing_ok lo rd) E.
Proof using BL.
  unfold closeBegin. apply hoare_gets. intros []; [by apply hoare_ret; intros s tr [? ?]|].
  apply hoare_modify_bind. apply hoare_gets. intros live. destruct live; simpl.
  2:{ apply hoare_ret. intros s tr [(s0 & [HI _] & ->) _].
      split_and!; [eapply (Inv_close _ _ _ _ _ _ (view_of s0)), HI|done|done]. }
  apply hoare_gets. intros st. apply hoare_gets. intros mk.
  apply (hoare_pure (∃ s, mk = sessionSegment s closeSessionRequest st [])); [intros s tr [_ <-]; by eexists|].
  intros [s1 ->].
  eapply hoare_bind with (R := λ x s tr, (∃ q, x = sessionSegment s1 closeSessionRequest st [] q) ∧
    weak lo rd s tr ∧ copy_of (hist tr) x ∧ closeRequested s = true).
  { eapply hoare_conseq; [apply (hoare_number lo rd (λ _, True) False _ (λ v, vCloseRequested v = true)); done| | |done].
    - intros s tr _ ((((s0 & [HI _] & ->) & _) & _) & _). split; [eapply (Inv_close _ _ _ _ _ _ (view_of s0)), HI|done].
    - intros x s tr (Hx & HI & Hc & Hcr). split_and!; [done|by eapply IS_weak|done|done]. }
  intros x. destruct graceful.
  - eapply hoare_bind with (R := λ ok s tr, closing_ok lo rd (ClosingWith x ok) s tr); [|intros ok; by apply hoare_ret].
    eapply hoare_conseq; [apply (hoare_insertSendQueue lo rd (λ _, True) False x segmentSendQueueTreeCapacity
        (λ v tr, vCloseRequested v = true ∧ sendable v tr x)); by intros v q tr [? ?]| | |done].
    + intros s tr _ ((q & ->) & HI & Hc & Hcr).
      split_and!; [|by eapply stored_session|by eapply (Inv_queue_len _ _ _ _ (view_of s))|done|by eapply sendable_session].
      by eapply Inv_weaken; [| |exact HI]; auto.
    + intros ok s tr (_ & HI & _ & Hcr & Hs). split_and!; [by eapply IS_weak|done|done].
  - apply hoare_ret. intros s tr ((q & ->) & HI & Hc & Hcr). split_and!; [done|by eapply sendable_session|done].
Qed.

Lemma hoare_shutdown lo rd E :
  hoare (λ s tr, weak lo rd s tr ∧ closeRequested s = true)
    (_ ← modify (λ s, s<|sendQueue := DeleteAll (sendQueue s)|><|sendBuf := DeleteAll (sendBuf s)|>);
     _ ← forwardStateTo sessionClosed;
     modify (λ s, s<|closedChan := true|>))
    (λ _, full lo rd) E.
Proof using BL.
  apply hoare_modify_bind.
  eapply hoare_bind; [eapply hoare_pre; [apply (hoare_forwardState lo rd (λ _, False) True)|]|intros []; by apply hoare_same].
  intros s tr _ (s0 & [HI Hcr] & ->). pose proof HI as HI'. destruct HI'.
  destruct i_sendQueue0 as [Hq Hqc], i_sendBuf0 as [Hb Hbc].
  destruct (DeleteAll_spec _ Hq) as [Hq' Eq], (DeleteAll_spec _ Hb) as [Hb' Eb]. simpl in Eq, Eb.
  apply (Inv_send_trees lo rd (λ _, True) _ False _ (view_of s0) tr (DeleteAll (sendQueue s0)) (DeleteAll (sendBuf s0)));
    [done|done|done| | |].
  - cbn. rewrite Eq, Eb. intros x [?%elem_of_nil|?%elem_of_nil]; done.
  - cbn. congruence.
  - cbn. congruence.
Qed.

Lemma hoare_closeFinish lo rd e c E :
  hoare (closing_ok lo rd c) (closeFinish e c) (λ _, full lo rd) E.
Proof using BL.
  unfold closeFinish. destruct c as [| |x queued].
  - apply hoare_ret. intros s tr (HI & _ & Hc). by eapply Inv_closing; [|exact HI].
  - eapply hoare_pre; [apply hoare_shutdown|]. by intros s tr _ (? & _ & ?).
  - apply hoare_gets. intros last. cbv zeta.
    eapply hoare_bind with (R := λ _ s tr, weak lo rd s tr ∧ closeRequested s = true); [|intros a; apply hoare_shutdown].
    destruct (queued && (last >=? Seq x)).
    + apply hoare_ret. by intros s tr ((? & _ & ?) & _).
    + eapply hoare_try; [eapply hoare_pre; [apply (hoare_output lo rd (λ _, True) False e x (λ v, vCloseRequested v = true))|]|done].
      by intros s tr _ ((? & ? & ?) & _).
Qed.

Lemma hoare_close lo rd e err E :
  hoare (weak lo rd) (closeWithError e err) (λ _, full lo rd) E.
Proof using BL. eapply hoare_bind; [apply hoare_closeBegin|]. intros c. apply hoare_closeFinish. Qed.

(** *** Writing *)

(** Segments made by [mk] acknowledge [r] and may be queued. *)
Definition makes (r : Z) (mk : Z → segment) : Prop :=
  ∀ q, Seq (mk q) = q ∧ checkProtocolType (mk q) = true ∧ typed (mk q) ∧ seg_unAck (mk q) <= r.

Lemma dataSegment_makes s lm lr le i pl part : makes (nextRecv s) (dataSegment s lm lr le i pl part).
Proof.
  intros q. split_and!; [done|unfold checkProtocolType|unfold typed|unfold seg_unAck; cbn; lia];
    cbn; by destruct (isClient s), le.
Qed.
Lemma sessionSegment_makes r s p st pl : isSessionProtocol p = true → 0 <= r → makes r (sessionSegment s p st pl).
Proof. intros Hp Hr q. split_and!; [done|unfold checkProtocolType; cbn; by rewrite Hp|done|done]. Qed.

(** Numbering a segment and queueing it, with room in the queue. *)
Lemma hoare_enqueue {C} lo rd exc rm mk r m (φ : view → Prop) (k : bool → M C) Q E :
  m < segmentSendQueueTreeCapacity → makes r mk →
  (∀ v q, φ v → φ (v<|vSendQueue := q|>)) → (∀ v q, φ v → φ (v<|vNextSend := q|>)) →
  hoare (λ s tr, IS lo rd exc False s tr ∧ len (items (sendQueue s)) <= m + 1 ∧ φ (view_of s)) (k true) Q E →
  hoare (λ s tr, IS lo rd exc rm s tr ∧ vNextRecv (view_of s) = r ∧ len (items (sendQueue s)) <= m ∧ φ (view_of s))
    (x ← number mk; ok ← insertSendQueue x; k ok) Q E.
Proof using BL.
  intros Hm Hmk Hφ1 Hφ2 Hk.
  eapply hoare_bind with (R := λ x s tr, IS lo rd (λ k, exc k ∨ k = Seq x) rm s tr ∧ stored (view_of s) tr x ∧
    len (items (sendQueue s)) <= m ∧ φ (view_of s)).
  { eapply hoare_conseq; [apply (hoare_number lo rd exc rm mk (λ v, vNextRecv v = r ∧ len (items (vSendQueue v)) <= m ∧ φ v))| | |].
    - apply Hmk.
    - intros v q (? & ? & ?). auto.
    - intros s tr _ (? & ? & ? & ?). done.
    - intros x s tr ((q & ->) & HI & Hc & Hr & Hl & Hp). destruct (Hmk q) as (_ & ? & ? & ?).
      split_and!; [done|split_and!; [done|done|done|lia]|done|done].
    - intros er s tr H. exact H. }
  intros x. eapply hoare_bind; [apply (hoare_insertSendQueue lo rd exc rm x m (λ v _, φ v)); auto|].
  intros ok s tr (Hok & HI & Hl & Hp). specialize (Hok Hm) as ->. apply (Hk s tr). split; [|done].
  by eapply Inv_weaken; [| |exact HI]; [intros k' [?|[? _]]|].
Qed.

Lemma lowEntropyEncodedPayloadLen_no_panic l mode msg : lowEntropyEncodedPayloadLen l mode ≠ Panic msg.
Proof.
  unfold lowEntropyEncodedPayloadLen, buildLowEntropyParams.
  repeat case_match; simpl; repeat case_match; done.
Qed.

Lemma full_queue lo rd m s tr :
  m < segmentSendQueueTreeCapacity → IS lo rd (λ _, False) False s tr → len (items (sendQueue s)) <= m → full lo rd s tr.
Proof. intros Hm HI Hl. apply Inv_room; [intros; simpl; lia|done]. Qed.

Lemma hoare_writeFragments lo rd e config fs k ptr :
  ∀ m, m + Z.of_nat k < segmentSendQueueTreeCapacity →
  hoare (λ s tr, full lo rd s tr ∧ len (items (sendQueue s)) <= m) (writeFragments e config fs k ptr)
    (λ _, full lo rd) (λ _, full lo rd).
Proof using BL.
  revert ptr. induction k as [|k IH]; intros ptr m Hm; [apply hoare_ret; by intros s tr [? ?]|].
  cbn [writeFragments]. apply hoare_gets. intros [err|]; [by apply hoare_fail; intros s tr [[? ?] _]|].
  destruct config as [[lm lr] le].
  eapply hoare_bind with (R := λ _ s tr, full lo rd s tr ∧ len (items (sendQueue s)) <= m).
  { destruct le; [|by apply hoare_ret; intros s tr [? _]]. apply hoare_lift. intros s tr [[? ?] _].
    destruct (lowEntropyEncodedPayloadLen _ _) eqn:El; [done|done|].
    by destruct (lowEntropyEncodedPayloadLen_no_panic _ _ _ El). }
  intros pl. apply hoare_gets. intros mk.
  eapply hoare_pre with (P := λ s tr, ∃ r, (full lo rd s tr ∧ vNextRecv (view_of s) = r ∧ len (items (sendQueue s)) <= m) ∧ makes r mk).
  2:{ intros s tr _ [[HI Hl] <-]. exists (nextRecv s). split_and!; [done|done|done|]. apply dataSegment_makes. }
  apply hoare_exists. intros r. apply (hoare_pure (makes r mk)); [by intros s tr [_ ?]|]. intros Hmk.
  eapply hoare_pre; [eapply (hoare_enqueue lo rd (λ _, False) True mk r m (λ _, True)); [lia|done|done|done|]|by intros s tr _ [(? & ? & ?) _]].
  cbn [negb]. eapply hoare_pre; [apply (IH _ (m + 1)); lia|]. intros s tr _ (HI & Hl & _). split; [|done].
  eapply full_queue; [|done|done]. lia.
Qed.

Lemma maxFragmentSize_cases mtu mode :
  packetOverhead < mtu →
  match maxFragmentSize mtu PacketTransport mode with Ok fs => 0 < fs | Err _ => True | Panic _ => False end.
Proof.
  intros Hm. unfold maxFragmentSize. destruct (mode =? LOW_ENTROPY_MODE_OFF).
  { unfold maxFragmentSizeInternal. rewrite decide_False by done. rewrite Max_spec. lia. }
  destruct (buildLowEntropyParams mode) as [ps|er|ms] eqn:Eb; cbn.
  - pose proof (buildLowEntropyParams_inv _ _ Eb) as [Hs _].
    destruct (Z.leb_spec ((mtu - packetOverhead) `quot` lowEntropyChunkLen) 0); [done|]. lia.
  - done.
  - revert Eb. unfold buildLowEntropyParams. by repeat case_match.
Qed.

Lemma hoare_writeChunk lo rd e b : hoare (full lo rd) (writeChunk e b) (λ _, full lo rd) (λ _, full lo rd).
Proof using BL.
  unfold writeChunk. destruct (len b >? maxPDU); [by apply hoare_fail|].
  apply hoare_gets. intros config. apply hoare_gets. intros r.
  eapply hoare_bind with (R := λ fs s tr, full lo rd s tr ∧ 0 < fs).
  { apply hoare_lift. intros s tr [[HI _] <-]. pose proof HI as [Ht Hm _]. simpl in Ht, Hm. rewrite Ht.
    pose proof (maxFragmentSize_cases (mtu s) config.1.1 Hm). destruct (maxFragmentSize _ _ _); done. }
  intros fs. apply (hoare_pure (0 < fs)); [by intros s tr [_ ?]|]. intros Hfs.
  eapply hoare_bind with (R := λ nF s tr, full lo rd s tr ∧ 0 < nF).
  { apply hoare_lift. intros s tr [HI _]. destruct (Z.gtb_spec (len b) fs); [|done].
    destruct (Z.eqb_spec fs 0); [lia|]. split; [done|].
    pose proof (Z.quot_pos (len b - 1) fs ltac:(lia) ltac:(lia)). lia. }
  intros nF. apply (hoare_pure (0 < nF)); [by intros s tr [_ ?]|]. intros HnF.
  apply hoare_gets. intros room. destruct (Z.leb_spec room nF) as [Hr|Hr].
  { apply hoare_gets. intros st. apply hoare_fail. by intros s tr [[[? _] _] _]. }
  eapply hoare_bind with (R := λ _, full lo rd).
  { eapply hoare_pre; [apply (hoare_writeFragments lo rd e config fs (Z.to_nat nF) b (segmentSendQueueTreeCapacity - room)); lia|].
    intros s tr _ [[HI _] Hroom]. split; [done|]. destruct (i_sendQueue _ _ _ _ _ _ HI) as [_ Hc]. simpl in Hc.
    rewrite Remaining_items, Hc in Hroom. lia. }
  intros []. apply hoare_modify_bind. apply hoare_ret. intros s tr (s0 & HI & ->).
  apply (Inv_send_queue lo rd (λ _, False) _ True True (view_of s0) tr
    (mkTree (Segment.tr (sendQueue s0)) (cap (sendQueue s0)) false (chanNotEmptyEvent (sendQueue s0)))); [done| | | | |].
  - apply (i_sendQueue _ _ _ _ _ _ HI).
  - intros x Hx. apply (i_stored _ _ _ _ _ _ HI). by left.
  - intros _ x Hx. right. by exists x.
  - done.
  - intros. by apply (i_room _ _ _ _ _ _ HI).
Qed.

Lemma hoare_writeLoop lo rd e fuel b k :
  (length b < fuel)%nat → hoare (full lo rd) (writeLoop e fuel b k) (λ _, full lo rd) (λ _, full lo rd).
Proof using BL.
  revert b k. induction fuel as [|fuel IH]; intros b k Hf; [lia|]. cbn [writeLoop].
  destruct (Z.leb_spec (len b) 0); [by apply hoare_ret|].
  eapply hoare_bind with (R := λ _, full lo rd).
  { eapply hoare_try; [apply hoare_writeChunk|done]. }
  intros [sent'|err]; [|by apply hoare_ret]. destruct (sent' =? 0); [by apply hoare_ret|]. apply IH.
  unfold slice_from. rewrite length_drop, Min_spec. unfold len, maxPDU in *. lia.
Qed.

Lemma hoare_Write lo rd e b : hoare (full lo rd) (Write e b) (λ _, full lo rd) (λ _, full lo rd).
Proof using BL.
  unfold Write. apply hoare_gets. intros s1. repeat (case_match; [by apply hoare_ret; intros s tr [? _]|]).
  eapply hoare_bind with (R := λ _, full lo rd).
  2:{ intros r. eapply hoare_bind with (R := λ _, full lo rd).
      - destruct r; [by apply hoare_ret|]. apply hoare_writeLoop. lia.
      - intros [? [[] |]]; first [by apply hoare_ret|apply hoare_modify_bind; apply hoare_ret; by intros s tr (s0 & HI & ->)]. }
  destruct (isClient s1 && isState sessionAttached s1 && negb (openSessionRequestSent s1)) eqn:Ec;
    [|apply hoare_ret; by intros s tr [? _]].
  apply andb_true_iff in Ec as [[Hcl _]%andb_true_iff Hos].
  apply hoare_modify_bind. destruct (lowEntropySendConfig s1) as [[lm lr] le].
  set (pl := if negb le && (len b <=? MaxSessionOpenPayload) then b else []).
  eapply hoare_pre with (P := λ s tr, ∃ r, (IS lo rd (λ _, False) False s tr ∧ vNextRecv (view_of s) = r ∧
      len (items (sendQueue s)) <= segmentSendQueueTreeCapacity - 1) ∧ (0 <= r ∧ vReserved (view_of s) = false)).
  2:{ intros s tr _ (s0 & [HI Es] & ->). subst s1. exists (nextRecv s0).
      assert (full lo rd (s0<|openSessionRequestSent := true|>) tr) as HI'.
      { apply (Inv_reserved lo rd _ _ (view_of s0) tr (reserved (s0<|openSessionRequestSent := true|>))); [|done].
        unfold reserved. cbn. by rewrite Hcl. }
      split_and!; [by eapply Inv_weaken; [| |exact HI']|done| |by eapply (Inv_nextRecv_nonneg _ _ _ _ (view_of s0))|].
      - pose proof (i_room _ _ _ _ _ _ HI I) as Hr. cbn in Hr |- *. unfold reserved in Hr. rewrite Hcl, Hos in Hr.
        destruct (closeRequested s0) eqn:Ecr; [congruence|]. specialize (Hr eq_refl eq_refl). lia.
      - cbn. unfold reserved. cbn. by rewrite Hcl. }
  apply hoare_exists. intros r. apply (hoare_pure (0 <= r)); [by intros s tr (_ & ? & _)|]. intros Hr0.
  eapply hoare_pre; [apply (hoare_enqueue lo rd (λ _, False) False _ r (segmentSendQueueTreeCapacity - 1) (λ v, vReserved v = false))|].
  - lia.
  - by apply sessionSegment_makes.
  - done.
  - done.
  - cbn [negb]. assert (∀ s tr, IS lo rd (λ _, False) False s tr ∧ vReserved (view_of s) = false → full lo rd s tr) as Hfull.
    { intros s tr [HI Hv]. apply Inv_room; [congruence|done]. }
    destruct (len pl >? 0); apply hoare_ret; intros s tr (? & _ & ?); by apply Hfull.
  - by intros s tr _ ((? & ? & ?) & ? & ?).
Qed.

(** *** Acknowledgements *)

Lemma tree_ok_DeleteMinIf c si t :
  tree_ok c t →
  ∃ x d t', DeleteMinIf si t = Ok (x, d, t') ∧ tree_ok c t' ∧
    match items t with
    | [] => x = None ∧ d = false ∧ items t' = []
    | y :: l => x = Some y ∧ d = si y ∧ items t' = if si y then l else y :: l
    end.
Proof using BL.
  intros [Hi Hc]. pose proof (DeleteMinIf_spec si t Hi) as H. destruct (items t) as [|y l] eqn:E.
  - rewrite H. by exists None, false, t.
  - destruct H as (t' & -> & Hi' & Hc' & E'). exists (Some y), (si y), t'. split_and!; [done|split; [done|congruence]|done..].
Qed.

(** One round of the loop. *)
Lemma deleteAcked_eq e fuel ua (s : Session) x d (t' : segmentTree) :
  DeleteMinIf (λ iter, Seq iter <? ua) (sendBuf s) = Ok (x, d, t') →
  deleteAcked e fuel ua s =
    let s1 : Session := s<|sendBuf := t'|> in
    match d, x, fuel with
    | false, _, _ => (s1, [], Ok tt)
    | true, _, O => (s1, [], Panic "out of fuel")
    | true, None, _ => (s1, [], Panic "nil pointer dereference")
    | true, Some seg2, S fuel =>
      deleteAcked e fuel ua
        (s1<|rttStat := UpdateRTT ((now e - seg_txTime seg2) * Microsecond) (rttStat s1)|>
           <|cubicSendAlgorithm := OnAck (now e) (cubicSendAlgorithm s1)|>)
    end.
Proof.
  intros H. destruct fuel; cbn [deleteAcked]; unfold mbind, M_bind, gets, lift; rewrite H; cbn; destruct d, x; try done.
  by destruct (deleteAcked _ _ _ _) as [[? ?] ?].
Qed.

Lemma Inv_deleteAcked lo rd exc rm v tr ua x d t' :
  ua <= n → DeleteMinIf (λ iter, Seq iter <? ua) (vSendBuf v) = Ok (x, d, t') →
  Inv lo rd exc rm v tr → Inv lo rd exc rm (v<|vSendBuf := t'|>) tr.
Proof using BL.
  intros Hua HD HI. pose proof (i_sendBuf _ _ _ _ _ _ HI) as Hok.
  destruct (tree_ok_DeleteMinIf _ (λ iter, Seq iter <? ua) _ Hok) as (x' & d' & t'' & E & Hok' & Hc).
  rewrite HD in E. injection E as <- <- <-.
  assert (∀ y, y ∈ items t' → y ∈ items (vSendBuf v)) as Hsub.
  { intros y Hy. destruct (items (vSendBuf v)) as [|z l]; [by destruct Hc as (_ & _ & E); rewrite E in Hy|].
    destruct Hc as (_ & _ & E). rewrite E in Hy. destruct (Seq z <? ua); [by right|done]. }
  apply Inv_send_buf; [done|done| |].
  - intros y Hy. apply (i_stored _ _ _ _ _ _ HI). auto.
  - intros _ y Hy Hn. exists y. split; [|done]. destruct (items (vSendBuf v)) as [|z l]; [by apply elem_of_nil in Hy|].
    destruct Hc as (_ & _ & E). rewrite E. destruct (Z.ltb_spec (Seq z) ua); [|done].
    apply elem_of_cons in Hy as [->|Hy]; [lia|done].
Qed.

Lemma hoare_deleteAcked lo rd exc rm e fuel ua E :
  ua <= n →
  hoare (λ s tr, IS lo rd exc rm s tr ∧ len (items (sendBuf s)) <= Z.of_nat fuel) (deleteAcked e fuel ua)
    (λ _, IS lo rd exc rm) E.
Proof using BL.
  intros Hua. induction fuel as [|fuel IH]; intros s tr [HI Hl].
  all: destruct (tree_ok_DeleteMinIf _ (λ iter, Seq iter <? ua) _ (i_sendBuf _ _ _ _ _ _ HI)) as (x & d & t' & ED & Hok & Hc).
  all: pose proof (Inv_deleteAcked lo rd exc rm (view_of s) tr ua x d t' Hua ED HI) as HI'; simpl in ED, Hc.
  all: rewrite (deleteAcked_eq e _ ua s x d t' ED); destruct (items (sendBuf s)) as [|y l];
    [destruct Hc as (-> & -> & _); cbn; intros _; by rewrite app_nil_r|destruct Hc as (-> & -> & E')]; rewrite len_cons in Hl;
    pose proof (len_nonneg l); (destruct (Seq y <? ua); [|cbn; intros _; by rewrite app_nil_r]).
  { lia. }
  apply (IH _ tr). split; [exact HI'|]. cbn. rewrite E'. lia.
Qed.

Lemma Len_nat t : Z.of_nat (Z.to_nat (Len t)) = len (items t).
Proof using BL. rewrite Len_items. pose proof (len_nonneg (items t)). lia. Qed.

Lemma hoare_processUnAck lo rd exc rm e das E :
  das_unAckSeq das <= n → hoare (IS lo rd exc rm) (processUnAck e das) (λ _, IS lo rd exc rm) E.
Proof using BL.
  intros Hua. unfold processUnAck. apply hoare_gets. intros k.
  eapply hoare_bind; [eapply hoare_pre; [by apply (hoare_deleteAcked lo rd exc rm e (Z.to_nat k))|]|intros []; by apply hoare_same].
  intros s tr _ [HI <-]. split; [done|]. rewrite Len_nat. lia.
Qed.

Lemma hoare_wakeIfQueued lo rd exc rm E : hoare (IS lo rd exc rm) wakeIfQueued (λ _, IS lo rd exc rm) E.
Proof.
  unfold wakeIfQueued. apply hoare_gets. intros k. apply hoare_when; intros _; [|by intros s tr [? _]].
  eapply hoare_pre; [by apply (hoare_same lo rd exc rm)|]. by intros s tr _ [? _].
Qed.
Lemma hoare_requestPacketAck lo rd exc rm e E : hoare (IS lo rd exc rm) (requestPacketAck e) (λ _, IS lo rd exc rm) E.
Proof. apply hoare_same. intros s. by destruct (ackOnDataRecv s). Qed.

(** *** Receiving *)

Definition insertable (x : segment) : Prop := copy_of h x ∧ checkProtocolType x = true.

Lemma Inv_recvBuf lo rd exc rm v tr t :
  Inv lo rd exc rm v tr → tree_ok segmentTreeCapacity t → (∀ x, x ∈ items t → insertable x) →
  Inv lo rd exc rm (v<|vRecvBuf := t|>) tr.
Proof. intros H Ht Hx. destruct H. split; cbn; try done. intros x [?|?]; [by apply Hx|auto]. Qed.

Lemma tree_ok_Insert c x t :
  tree_ok c t → checkProtocolType x = true →
  ∃ ok t', Insert x t = Ok (ok, t') ∧ tree_ok c t' ∧
    if decide (len (items t) >= c) then ok = false ∧ items t' = items t
    else ok = true ∧ items t' = insertOrdered x (items t).
Proof using BL.
  intros [Hi <-] Hx. destruct (Insert_spec x t Hi Hx) as (ok & t' & ? & ? & ? & ?). by exists ok, t'.
Qed.
Lemma tree_ok_ordered c t : tree_ok c t → ordered (items t).
Proof. by intros [[? _] _]. Qed.

Lemma Inv_insertRecv lo rd exc rm v tr x ok t' :
  Inv lo rd exc rm v tr → insertable x → Insert x (vRecvBuf v) = Ok (ok, t') →
  Inv lo rd exc rm (v<|vRecvBuf := t'|>) tr.
Proof using BL.
  intros HI Hx HD. pose proof (i_recvBuf _ _ _ _ _ _ HI) as Hok.
  destruct (tree_ok_Insert _ x _ Hok ltac:(apply Hx)) as (ok' & t'' & E & Hok' & Hc). rewrite HD in E. injection E as <- <-.
  apply Inv_recvBuf; [done|done|]. intros y Hy. case_decide; destruct Hc as [_ Ec]; rewrite Ec in Hy.
  - apply (i_got _ _ _ _ _ _ HI). auto.
  - apply elem_of_insertOrdered in Hy as [->|[Hy _]]; [done| |by eapply tree_ok_ordered].
    apply (i_got _ _ _ _ _ _ HI). auto.
Qed.

Lemma hoare_insertRecv lo rd exc rm x (φ : view → Prop) E :
  insertable x → (∀ v t, φ v → φ (v<|vRecvBuf := t|>)) →
  hoare (λ s tr, IS lo rd exc rm s tr ∧ φ (view_of s)) (insertRecv x)
    (λ _ s tr, IS lo rd exc rm s tr ∧ φ (view_of s)) E.
Proof using BL.
  intros Hx Hφ s tr [HI Hp]. destruct (tree_ok_Insert _ x _ (i_recvBuf _ _ _ _ _ _ HI) ltac:(apply Hx)) as (ok & t' & ED & _).
  pose proof (Inv_insertRecv lo rd exc rm (view_of s) tr x ok t' HI Hx ED) as HI'. simpl in ED.
  unfold insertRecv, mbind, M_bind, gets, lift. rewrite ED. cbn. intros _. rewrite app_nil_r.
  split; [exact HI'|exact (Hφ _ t' Hp)].
Qed.

(** *** Delivery in order *)

Lemma insertOrdered_last x l : (∀ y, y ∈ l → Seq y < Seq x) → insertOrdered x l = l ++ [x].
Proof.
  induction l as [|y l IH]; intros Hl; [done|]. cbn [insertOrdered app].
  pose proof (Hl y ltac:(left)). unfold Less. destruct (Z.ltb_spec (Seq x) (Seq y)); [lia|].
  destruct (Z.ltb_spec (Seq y) (Seq x)); [|lia]. f_equal. apply IH. intros z Hz. apply Hl. by right.
Qed.

(** The segment with the expected number goes to the end of the queue, and what
    has been delivered grows by exactly its payload. *)
Lemma Inv_deliver lo rd exc rm v tr x b q :
  Inv lo rd exc rm v tr → insertable x → Seq x = vNextRecv v →
  tree_ok segmentTreeCapacity b → (∀ y, y ∈ items b → insertable y) →
  tree_ok segmentTreeCapacity q → items q = insertOrdered x (items (vRecvQueue v)) →
  Inv lo rd exc rm (v<|vRecvBuf := b|><|vRecvQueue := q|><|vNextRecv := u32 (vNextRecv v + 1)|>) tr.
Proof using Hh.
  intros HI [Hx Hxp] Hseq Hb Hbi Hq Eq. destruct HI.
  rewrite insertOrdered_last in Eq by (intros y Hy; rewrite Hseq; auto).
  pose proof (copy_of_lt _ _ Hx) as Hlt. rewrite Hseq in Hlt.
  assert (u32 (vNextRecv v + 1) = vNextRecv v + 1) as Eu by (apply wrap_id; unfold in_width; lia).
  split; cbn; rewrite ?Eu; try done.
  - intros y Hy. destruct (i_stored0 y Hy) as (? & ? & ? & ?). split_and!; try done. cbn. lia.
  - intros y Hy. destruct (i_sent0 y Hy) as (? & ? & ?). split_and!; try done. cbn. lia.
  - intros y [Hy|Hy]; [by apply Hbi|]. rewrite Eq, elem_of_app, list_elem_of_singleton in Hy. destruct Hy as [?| ->]; auto.
  - intros y. rewrite Eq, elem_of_app, list_elem_of_singleton. intros [Hy| ->]; [|lia]. specialize (i_below0 y Hy). lia.
  - lia.
  - destruct Hx as (Hx0 & y & Hy & Hc). injection Hc as _ _ Hpl.
    replace (Z.to_nat (vNextRecv v + 1)) with (S (Z.to_nat (vNextRecv v))) by lia. rewrite Hseq in Hy.
    rewrite (take_S_r _ _ _ Hy), Eq, !fmap_app, !join_app, <-i_bytes0, <-!app_assoc. do 3 f_equal.
    change (seg_payload x ++ [] = seg_payload y ++ []). by rewrite Hpl.
Qed.

(** One round of the loop, when there is room in the queue. *)
Lemma moveLoop_round fuel (s : Session) x d (t' : segmentTree) :
  0 < Remaining (recvQueue s) →
  DeleteMinIf (λ iter, Seq iter <=? nextRecv s) (recvBuf s) = Ok (x, d, t') →
  (∀ seg, x = Some seg → d = true → ∃ q, Insert seg (recvQueue s) = Ok (true, q)) →
  moveLoop fuel s =
    let s1 : Session := s<|recvBuf := t'|> in
    match x, d, fuel with
    | None, _, _ | _, false, _ => (s1, [], Ok tt)
    | _, _, O => (s1, [], Panic "out of fuel")
    | Some seg, true, S fuel =>
      if Seq seg <? nextRecv s then moveLoop fuel s1 else
      match Insert seg (recvQueue s) with
      | Ok (_, q) =>
        let s2 : Session := s1<|recvQueue := q|><|nextRecv := u32 (nextRecv s1 + 1)|> in
        moveLoop fuel (match seg_metadata seg with
                       | MDataAck das => s2<|remoteWindowSize := das_windowSize das|> | MSession _ => s2 end)
      | Err er => (s1, [], Err er)
      | Panic m => (s1, [], Panic m)
      end
    end.
Proof.
  intros Hr H HI. destruct fuel; cbn [moveLoop]; unfold mbind, M_bind, gets, lift;
    (destruct (Z.leb_spec (Remaining (recvQueue s)) 0); [lia|]); rewrite H; cbn; destruct x as [seg|], d; try done.
  destruct (Seq seg <? nextRecv s); [by destruct (moveLoop _ _) as [[? ?] ?]|].
  destruct (HI seg eq_refl eq_refl) as [q Eq]. cbn. rewrite Eq. cbn.
  destruct (seg_metadata seg); cbn; by destruct (moveLoop _ _) as [[? ?] ?].
Qed.

Lemma moveLoop_full fuel (s : Session) : Remaining (recvQueue s) <= 0 → moveLoop fuel s = (s, [], Ok tt).
Proof.
  intros Hr. destruct fuel; cbn [moveLoop]; unfold mbind, M_bind, gets; by rewrite (proj2 (Z.leb_le _ _) Hr).
Qed.

Lemma hoare_moveLoop lo rd exc rm fuel E :
  hoare (λ s tr, IS lo rd exc rm s tr ∧ len (items (recvBuf s)) <= Z.of_nat fuel) (moveLoop fuel)
    (λ _, IS lo rd exc rm) E.
Proof using BL Hh.
  induction fuel as [|fuel IH]; intros s tr [HI Hl].
  all: destruct (Z.le_gt_cases (Remaining (recvQueue s)) 0) as [Hr|Hr];
    [rewrite moveLoop_full by done; cbn; intros _; by rewrite app_nil_r|].
  all: pose proof (i_recvBuf _ _ _ _ _ _ HI) as HB; pose proof (i_recvQueue _ _ _ _ _ _ HI) as HQ; cbn in HB, HQ.
  all: destruct (tree_ok_DeleteMinIf _ (λ iter, Seq iter <=? nextRecv s) _ HB) as (x & d & t' & ED & Hok & Hc).
  all: assert (∀ y, y ∈ items (recvBuf s) → insertable y) as Hins by (intros; apply (i_got _ _ _ _ _ _ HI); auto).
  all: assert (∀ y, y ∈ items t' → insertable y) as Hins'
    by (intros y Hy; destruct (items (recvBuf s)) as [|z l];
        [destruct Hc as (_ & _ & Ec); rewrite Ec in Hy; by apply elem_of_nil in Hy|
         destruct Hc as (_ & _ & Ec); rewrite Ec in Hy; apply Hins; destruct (Seq z <=? nextRecv s); [by right|done]]).
  all: assert (∀ z, insertable z → ∃ q, Insert z (recvQueue s) = Ok (true, q) ∧ tree_ok segmentTreeCapacity q ∧
         items q = insertOrdered z (items (recvQueue s))) as HInsert
    by (intros z [_ Hz]; destruct (tree_ok_Insert _ z _ HQ Hz) as (ok & q & EI & HQ' & Hres);
        rewrite Remaining_items in Hr; destruct HQ as [_ HQc]; rewrite HQc in Hr; rewrite decide_False in Hres by lia;
        destruct Hres as [-> Eq]; by exists q).
  all: rewrite (moveLoop_round _ s x d t' Hr ED);
    [|intros z -> _; destruct (items (recvBuf s)) as [|z' l]; [by destruct Hc|];
      destruct Hc as ([= <-] & _); destruct (HInsert z ltac:(apply Hins; left)) as (q & -> & _); by eexists].
  all: pose proof (Inv_recvBuf lo rd exc rm (view_of s) tr t' HI Hok Hins') as HI'.
  all: destruct (items (recvBuf s)) as [|z l];
    [destruct Hc as (-> & -> & _); cbn; intros _; by rewrite app_nil_r|destruct Hc as (-> & -> & Ec)].
  all: rewrite len_cons in Hl; pose proof (len_nonneg l).
  all: destruct (Z.leb_spec (Seq z) (nextRecv s)) as [Hz|Hz]; [|cbn; intros _; by rewrite app_nil_r].
  { lia. }
  destruct (Z.ltb_spec (Seq z) (nextRecv s)).
  { apply (IH _ tr). split; [exact HI'|]. cbn. rewrite Ec. lia. }
  destruct (HInsert z ltac:(apply Hins; left)) as (q & -> & HQ' & Eq).
  apply (IH _ tr). split; [|destruct (seg_metadata z); cbn; rewrite Ec; lia].
  assert (Inv lo rd exc rm ((view_of s)<|vRecvBuf := t'|><|vRecvQueue := q|><|vNextRecv := u32 (vNextRecv (view_of s) + 1)|>) tr) as HF.
  { apply (Inv_deliver lo rd exc rm (view_of s) tr z); [done|apply Hins; left|cbn; lia|done..]. }
  unfold IS. destruct (seg_metadata z); exact HF.
Qed.

Lemma hoare_move lo rd exc rm E :
  hoare (IS lo rd exc rm) moveRecvBufToRecvQueue (λ _, IS lo rd exc rm) E.
Proof using BL Hh.
  unfold moveRecvBufToRecvQueue. apply hoare_gets. intros k. eapply hoare_pre; [apply hoare_moveLoop|].
  intros s tr _ [HI <-]. split; [done|]. rewrite Len_nat. lia.
Qed.

(** *** Input *)

(** What the underlay may hand to the session: a segment of the peer, with its
    acknowledgement and its numbering intact, and with the user's cipher. *)
Definition deliverable (x : segment) : Prop :=
  typed x ∧ seg_unAck x <= n ∧
  (isAckProtocol (seg_Protocol x) = true ∨ copy_of h x) ∧
  (∀ b, seg_block x = Some b → c_userName b = u) ∧ 0 < len u.

(** With packet transport nothing waits and nothing fails here: a positive
    window leaves room in the receive queue. *)
Lemma hoare_inputPacket lo rd exc rm e x :
  deliverable x → insertable x →
  hoare (IS lo rd exc rm) (inputPacket e x) (λ _, IS lo rd exc rm) (λ _ _ _, False).
Proof using BL Hh.
  intros (_ & Hua & _) Hins. unfold inputPacket. eapply hoare_bind with (R := λ _, IS lo rd exc rm).
  { unfold seg_unAck in Hua. destruct (seg_metadata x); [by apply hoare_ret|by apply hoare_processUnAck]. }
  intros ?. eapply hoare_bind; [apply hoare_wakeIfQueued|]. intros ?.
  eapply hoare_bind; [apply hoare_requestPacketAck|]. intros ?.
  apply hoare_gets. intros w. destruct (Z.leb_spec w 0); [apply hoare_ret; by intros s tr [? _]|].
  eapply hoare_bind.
  { eapply hoare_pre; [apply (hoare_insertRecv lo rd exc rm x (λ v, 0 < Remaining (vRecvQueue v))); [done|by intros v t]|].
    intros s tr _ [HI <-]. split; [done|]. unfold receiveWindowSize in *. rewrite Max_spec, !Len_items in *. cbn.
    rewrite Remaining_items. destruct (i_recvQueue _ _ _ _ _ _ HI) as [_ Hc]. cbn in Hc. rewrite Hc.
    pose proof (len_nonneg (items (recvBuf s))). lia. }
  intros []; [|apply hoare_ret; by intros s tr [? _]]. cbn [negb].
  eapply hoare_bind with (R := λ _, IS lo rd exc rm).
  { unfold waitForRecvQueueSpace. apply hoare_gets. intros s1. destruct (closedChan s1); [by apply hoare_ret; intros s tr [[? _] _]|].
    destruct (Z.gtb_spec (Remaining (recvQueue s1)) 0); [by apply hoare_ret; intros s tr [[? _] _]|].
    apply hoare_fail. intros s tr [[_ Hr] <-]. cbn in Hr. lia. }
  intros space. eapply hoare_bind with (R := λ _, IS lo rd exc rm).
  { apply hoare_when; intros _; [apply hoare_move|done]. }
  intros ?. eapply hoare_bind; [apply hoare_requestPacketAck|]. intros ?. by apply hoare_ret.
Qed.

Lemma IS_closing lo rd exc rm s tr : closeRequested s = true → IS lo rd exc rm s tr → full lo rd s tr.
Proof. intros Hc. by apply (Inv_closing lo rd exc rm). Qed.

Lemma hoare_replyOpen lo rd e x :
  hoare (full lo rd) (replyOpen e x) (λ _, full lo rd) (λ er s tr, er ≠ ErrNotReady ∧ full lo rd s tr).
Proof using BL.
  unfold replyOpen. apply hoare_gets. intros s1.
  destruct (negb (isClient s1) && (seg_Protocol x =? openSessionRequest) && isState sessionAttached s1) eqn:Ec;
    [|apply hoare_ret; by intros s tr [? _]].
  apply andb_true_iff in Ec as [[Hcl%negb_true_iff _]%andb_true_iff Hst%Z.eqb_eq].
  destruct (negb (len (userName s1) =? 0) && negb (quotaOK e)).
  { apply hoare_modify_bind. eapply hoare_pre; [apply hoare_close|].
    intros s tr _ (s0 & [HI _] & ->). apply (IS_weak lo rd _ _ s0 tr HI). }
  destruct (closeRequested s1) eqn:Ecr.
  - (* a session that is closing may not have room *)
    eapply hoare_bind with (R := λ y s tr, IS lo rd (λ k, False ∨ k = Seq y) True s tr ∧ stored (view_of s) tr y ∧
      len (items (sendQueue s)) <= segmentSendQueueTreeCapacity ∧ closeRequested s = true).
    { eapply hoare_conseq; [apply (hoare_number lo rd (λ _, False) True _ (λ v, vCloseRequested v = true)); done| | |].
      - intros s tr _ [HI ->]. done.
      - intros y s tr ((q & ->) & HI & Hc & Hcr).
        split_and!; [done|by eapply stored_session|by eapply (Inv_queue_len _ _ _ _ (view_of s))|done].
      - intros er s tr H. exact H. }
    intros y. eapply hoare_bind.
    { by apply (hoare_insertSendQueue lo rd (λ _, False) True y segmentSendQueueTreeCapacity (λ v _, vCloseRequested v = true)). }
    intros ok. eapply hoare_pre with (P := λ s tr, full lo rd s tr).
    2:{ intros s tr _ (_ & HI & _ & Hcr). by eapply IS_closing. }
    destruct ok; [apply hoare_forwardState|by apply hoare_fail].
  - apply (hoare_pure (0 <= nextRecv s1)); [intros s tr [HI <-]; exact (Inv_nextRecv_nonneg _ _ _ _ _ _ HI)|]. intros Hnr.
    eapply hoare_pre; [apply (hoare_enqueue lo rd (λ _, False) True _ (nextRecv s1) (segmentSendQueueTreeCapacity - 1)
      (λ v, vIsClient v = false))|].
    + lia.
    + by apply sessionSegment_makes.
    + done.
    + done.
    + apply hoare_modify. intros s tr (HI & _ & Hc). unfold IS. rewrite view_state.
      apply Inv_room; [|by apply Inv_reserved; [apply reserved_state|]].
      cbn in Hc |- *. unfold reserved. destruct (Z.leb_spec sessionEstablished (state s)) as [Hs|Hs].
      * rewrite Hc. destruct (Z.leb_spec (state s) sessionAttached); [unfold sessionEstablished, sessionAttached in *; lia|done].
      * cbn. by rewrite Hc.
    + intros s tr _ [HI <-]. split_and!; [done|done| |done].
      pose proof (i_room _ _ _ _ _ _ HI I Ecr) as Hr. cbn in Hr. unfold reserved in Hr. rewrite Hcl, Hst in Hr.
      specialize (Hr eq_refl). lia.
Qed.

Lemma hoare_inputData lo rd e x :
  deliverable x → insertable x →
  hoare (full lo rd) (inputData e x) (λ _, full lo rd) (λ er s tr, er ≠ ErrNotReady ∧ full lo rd s tr).
Proof using BL Hh.
  intros Hd Hins. unfold inputData. apply hoare_gets. intros a. apply (hoare_pure (a = PacketTransport)).
  { intros s tr [HI <-]. apply (i_transport _ _ _ _ _ _ HI). }
  intros ->. eapply hoare_bind with (R := λ _, full lo rd).
  { eapply hoare_conseq; [apply (hoare_inputPacket lo rd (λ _, False) True e x Hd Hins)| |done|done]. by intros s tr _ [? _]. }
  intros []; [apply hoare_replyOpen|by apply hoare_ret].
Qed.

Lemma bumpAckCount_core ua l x : x ∈ bumpAckCount ua l → ∃ y, y ∈ l ∧ core x = core y ∧ seg_metadata x = seg_metadata y.
Proof. intros (y & -> & Hy)%list_elem_of_fmap. exists y. by destruct (Seq y =? ua). Qed.
Lemma bumpAckCount_seq ua l : Seq <$> bumpAckCount ua l = Seq <$> l.
Proof. unfold bumpAckCount. rewrite <-list_fmap_compose. apply list_fmap_ext. intros i x _. simpl. by destruct (_ =? _). Qed.

(** Copies of the segments of the send buffer, changed in place. *)
Lemma Inv_update lo rd exc rm v tr l :
  Inv lo rd exc rm v tr → Seq <$> l = Seq <$> items (vSendBuf v) → (∀ x, x ∈ l → stored v tr x) →
  Inv lo rd exc rm (v<|vSendBuf := Update l (vSendBuf v)|>) tr.
Proof using BL.
  intros HI Hl Hs. pose proof (i_sendBuf _ _ _ _ _ _ HI) as [Hi Hc].
  destruct (Update_spec l _ Hl Hi) as (Hi' & Ei & Ec).
  apply Inv_send_buf; [done|split; [done|congruence]|by rewrite Ei|].
  intros _ x Hx _. rewrite Ei. apply (list_elem_of_fmap_2 Seq) in Hx. rewrite <-Hl in Hx.
  apply list_elem_of_fmap in Hx as (y & E & Hy). by exists y.
Qed.

Lemma hoare_inputAck lo rd e x :
  deliverable x → isAckProtocol (seg_Protocol x) = true →
  hoare (full lo rd) (inputAck e x) (λ _, full lo rd) (λ _ _ _, False).
Proof using BL.
  intros (Hty & Hua & _) Hp. unfold inputAck. apply hoare_gets. intros a. apply (hoare_pure (a = PacketTransport)).
  { intros s tr [HI <-]. apply (i_transport _ _ _ _ _ _ HI). }
  intros ->. unfold typed, seg_unAck in *. destruct (seg_metadata x) as [ss|das] eqn:Em.
  { exfalso. revert Hty Hp. generalize (seg_Protocol x). intros p. unfold isSessionProtocol, isAckProtocol.
    rewrite !orb_true_iff, !Z.eqb_eq. intros [[[-> | ->]| ->]| ->] [?|?]; done. }
  eapply hoare_bind; [eapply hoare_pre; [by apply (hoare_processUnAck lo rd (λ _, False) True)|by intros s tr _ [? _]]|].
  intros ?. apply hoare_modify_bind. eapply hoare_pre; [apply hoare_wakeIfQueued|].
  intros s tr _ (s0 & HI & ->).
  apply (Inv_update lo rd (λ _, False) True (view_of s0)); [done|apply bumpAckCount_seq|].
  intros y (z & Hz & Hc & Hm)%bumpAckCount_core. destruct (i_stored _ _ _ _ _ _ HI z) as (H1 & H2 & H3 & H4); [by right|].
  injection Hc as E1 E2 E3. unfold stored, checkProtocolType, typed, seg_unAck in *. rewrite Hm, E1. split_and!; try done.
  eapply copy_of_core; [|done]. unfold core. congruence.
Qed.

Lemma hoare_inputClose lo rd e x :
  hoare (full lo rd) (inputClose e x) (λ _, full lo rd) (λ er s tr, er ≠ ErrNotReady ∧ weak lo rd s tr).
Proof using BL.
  unfold inputClose. destruct (_ =? closeSessionRequest); [|destruct (_ =? closeSessionResponse)].
  - apply hoare_gets. intros mk. apply (hoare_pure (∃ s, mk = sessionSegment s closeSessionResponse statusOK [])); [intros s tr [_ <-]; by eexists|].
    intros [s1 ->]. eapply hoare_bind with (R := λ y s tr, weak lo rd s tr ∧ sendable (view_of s) tr y).
    { eapply hoare_conseq; [apply (hoare_number lo rd (λ _, False) True _ (λ _, True)); done| | |].
      - by intros s tr _ [? _].
      - intros y s tr ((q & ->) & HI & Hc & _). split; [by eapply IS_weak|by eapply sendable_session].
      - intros er s tr H. exact H. }
    intros y. eapply hoare_bind with (R := λ _, weak lo rd).
    { eapply hoare_try with (E' := λ _ s tr, weak lo rd s tr ∧ True); [|by intros er s tr [? _]].
      eapply hoare_conseq; [apply (hoare_output lo rd (λ _, True) False e y (λ _, True))| | |]; [by intros s tr _ [? ?]|by intros a s tr [? _]|done]. }
    intros [?|err]; [apply hoare_close|by apply hoare_fail].
  - eapply hoare_pre; [apply hoare_close|]. intros s tr _ HI. by eapply IS_weak.
  - by apply hoare_ret.
Qed.

Lemma hoare_checkBlock lo rd exc rm x E :
  deliverable x → hoare (IS lo rd exc rm) (checkBlock x) (λ _, IS lo rd exc rm) E.
Proof.
  intros (_ & _ & _ & Hb & Hu). unfold checkBlock. destruct (seg_block x) as [next|]; [|by apply hoare_ret].
  specialize (Hb next eq_refl). apply hoare_gets. intros prev.
  eapply hoare_bind with (R := λ _, IS lo rd exc rm).
  { destruct prev as [prev|]; [|by apply hoare_ret; intros s tr [? _]].
    apply (hoare_pure (c_userName prev = u)). { intros s tr [HI E1]. apply (i_block _ _ _ _ _ _ HI). exact E1. }
    intros Hp. rewrite Hp, Hb. destruct (Z.eqb_spec (len u) 0); [lia|]. rewrite bool_decide_eq_true_2 by done.
    apply hoare_ret. by intros s tr [? _]. }
  intros []. apply hoare_modify. intros s tr HI. cbv zeta beta.
  destruct (len (userName (s<|block := Some next|>)) =? 0); exact (Inv_block lo rd exc rm (view_of s) tr next Hb HI).
Qed.

(** A segment that is not an acknowledgement and is not about closing can be
    delivered. *)
Lemma deliverable_insertable x :
  deliverable x →
  (seg_Protocol x =? openSessionRequest) || (seg_Protocol x =? openSessionResponse) || isDataProtocol (seg_Protocol x) = true →
  insertable x.
Proof.
  intros (_ & _ & Hc & _) Hp. unfold insertable, checkProtocolType, isSessionProtocol.
  destruct (isDataProtocol (seg_Protocol x)) eqn:Ed; [rewrite orb_true_r|rewrite !orb_false_r in *].
  - split; [|done]. destruct Hc as [Ha|?]; [|done]. exfalso. revert Ha Ed. generalize (seg_Protocol x). intros p.
    unfold isAckProtocol, isDataProtocol, isLowEntropyProtocol. rewrite !orb_true_iff, !Z.eqb_eq. intros [-> | ->] [[?|?]|[?|?]]; done.
  - rewrite Hp. split; [|done]. destruct Hc as [Ha|?]; [|done]. exfalso. revert Ha Hp. generalize (seg_Protocol x). intros p.
    unfold isAckProtocol. rewrite !orb_true_iff, !Z.eqb_eq. intros [-> | ->] [?|?]; done.
Qed.

Lemma hoare_input lo rd e x :
  deliverable x →
  hoare (full lo rd) (input e x) (λ _, full lo rd) (λ er s tr, er ≠ ErrNotReady ∧ weak lo rd s tr).
Proof using BL Hh.
  intros Hd. unfold input. apply hoare_gets. intros cl.
  destruct (negb (acceptsProtocol cl (seg_Protocol x))).
  { apply hoare_fail. intros s tr [HI _]. split; [done|by eapply IS_weak]. }
  eapply hoare_bind; [eapply hoare_pre; [by apply (hoare_checkBlock lo rd (λ _, False) True)|by intros s tr _ [? _]]|].
  intros ?. eapply hoare_bind; [by apply (hoare_same lo rd (λ _, False) True)|]. intros ?.
  eapply hoare_bind with (R := λ _, full lo rd).
  { apply hoare_when; [intros _; by apply hoare_same|done]. }
  intros ?. destruct (_ || _ || isDataProtocol (seg_Protocol x)) eqn:Ep.
  - eapply hoare_bind with (R := λ _, full lo rd).
    { eapply hoare_conseq; [apply (hoare_inputData lo rd); [done|by apply deliverable_insertable]|done|done|].
      intros er s tr [? HI]. split; [done|by eapply IS_weak]. }
    intros ?. apply hoare_gets. intros op. apply hoare_when; intros _; [|by intros s tr [? _]].
    eapply hoare_bind; [eapply hoare_pre; [apply hoare_forwardState|by intros s tr _ [? _]]|]. intros ?. by apply hoare_same.
  - destruct (isAckProtocol (seg_Protocol x)) eqn:Ea.
    { eapply hoare_conseq; [by apply (hoare_inputAck lo rd)|done|done|done]. }
    destruct ((seg_Protocol x =? closeSessionRequest) || (seg_Protocol x =? closeSessionResponse));
      [apply hoare_inputClose|by apply hoare_ret].
Qed.

Lemma hoare_runInputOnce lo rd e x :
  deliverable x → hoare (full lo rd) (runInputOnce e x) (λ _, full lo rd) (λ _, full lo rd).
Proof using BL Hh.
  intros Hd. unfold runInputOnce.
  eapply hoare_bind with (R := λ r s tr, match r with inl _ => full lo rd s tr | inr er => er ≠ ErrNotReady ∧ weak lo rd s tr end).
  { eapply hoare_try; [by apply hoare_input|done]. }
  intros [[]|er]; [by apply hoare_ret|]. apply (hoare_pure (er ≠ ErrNotReady)); [by intros s tr [? _]|]. intros Her.
  assert (hoare (λ s tr, er ≠ ErrNotReady ∧ weak lo rd s tr)
    (_ ← setInputErr; _ ← closeWithError e (Some (Wrapf "input() failed" er)); fail (Wrapf "input() failed" er))
    (λ _ : unit, full lo rd) (λ _, full lo rd)) as H; [|by destruct er].
  apply hoare_modify_bind. eapply hoare_bind; [eapply hoare_pre; [apply (hoare_close lo rd)|]|intros ?; by apply hoare_fail].
  by intros s tr _ (s0 & [_ HI] & ->).
Qed.

(** *** The output loop *)

Lemma markSent_core e s x : core (markSent e s x) = core x.
Proof.
  unfold markSent. cbn. destruct (seg_metadata x) as [ss|das] eqn:Em; [done|].
  destruct (isDataAckProtocol (das_Protocol das)); [|done]. unfold core, seg_Protocol, Seq. cbn. by rewrite ?Em.
Qed.
Lemma markSent_stored e s tr x : stored (view_of s) tr x → stored (view_of s) tr (markSent e s x).
Proof.
  intros (Hc & Hp & Ht & Hu). pose proof (markSent_core e s x) as E. injection E as E1 E2 E3.
  split_and!; [by eapply copy_of_core; [|exact Hc]; unfold core; congruence|unfold checkProtocolType; by rewrite E1| |].
  - revert Ht. unfold typed. rewrite E1. unfold markSent, set_field. cbn.
    destruct (seg_metadata x) as [ss|das] eqn:Em; [by rewrite ?Em|]. by destruct (isDataAckProtocol (das_Protocol das)); cbn; rewrite ?Em.
  - revert Hu. unfold seg_unAck, markSent, set_field. cbn. destruct (seg_metadata x) as [ss|das] eqn:Em; [by rewrite ?Em|].
    destruct (isDataAckProtocol (das_Protocol das)); cbn; [lia|]. by rewrite ?Em.
Qed.
Lemma stored_same v tr x y :
  core x = core y → seg_metadata x = seg_metadata y → stored v tr x → stored v tr y.
Proof.
  intros E Em (Hc & Hp & Ht & Hu). pose proof E as E'. injection E as E1 E2 E3.
  unfold stored, checkProtocolType, typed, seg_unAck in *. rewrite <-Em, <-E1. split_and!; try done. by eapply copy_of_core.
Qed.
Lemma stored_sent v tr x y : stored v tr x → stored v (tr ++ [Sent y]) x.
Proof. unfold stored. by rewrite hist_app, app_nil_r. Qed.
Lemma stored_sendable v tr x : stored v tr x → sendable v tr x.
Proof. intros (? & ? & ? & ?). split_and!; auto. Qed.
Lemma core_seq x y : core x = core y → Seq x = Seq y.
Proof. by intros [= _ E _]. Qed.

(** While the iteration runs the tree is untouched; the segments visited are
    still copies of what was numbered. *)
Definition resending (t0 : segmentTree) (l : list segment) (v : view) (tr : list event) : Prop :=
  vSendBuf v = t0 ∧ ∀ y, y ∈ l → stored v tr y.

Lemma hoare_resendLoop lo rd exc rm e t0 l rs :
  hoare (λ s tr, IS lo rd exc rm s tr ∧ resending t0 (rs_visited rs ++ l) (view_of s) tr) (resendLoop e l rs)
    (λ rs' s tr, IS lo rd exc rm s tr ∧ resending t0 (rs_visited rs') (view_of s) tr ∧
       Seq <$> rs_visited rs' = Seq <$> (rs_visited rs ++ l)) (λ _ _ _, False).
Proof.
  revert rs. induction l as [|x rest IH]; intros rs; cbn [resendLoop].
  { apply hoare_ret. intros s tr [HI Hr]. by rewrite app_nil_r in *. }
  cbv zeta. destruct (seg_txCount x >=? txCountLimit).
  { apply hoare_modify_bind. apply hoare_ret. by intros s tr (s0 & [HI Hr] & ->). }
  destruct (_ || _).
  - apply hoare_gets. intros x'. apply (hoare_pure (core x' = core x)); [by intros s tr [_ <-]; rewrite <-(markSent_core e s x)|].
    intros Hc. apply core_seq in Hc as Hseq.
    eapply hoare_bind with (R := λ _ s tr, IS lo rd exc rm s tr ∧ resending t0 (rs_visited rs ++ x' :: rest) (view_of s) tr).
    { eapply hoare_try; [|intros er s tr H; exact H].
      eapply hoare_pre; [apply (hoare_output_tr lo rd exc rm e x' (resending t0 (rs_visited rs ++ x' :: rest)))|].
      - intros v tr y [Ht Hy]. split; [done|]. intros z Hz. by apply stored_sent, Hy.
      - intros s tr _ [[HI [Ht Hy]] <-].
        assert (stored (view_of s) tr ((markSent e s x)<|seg_ackCount := 0|>)) as Hx.
        { apply (stored_same _ _ (markSent e s x)); [done|done|]. apply markSent_stored, Hy. rewrite elem_of_app. right. left. }
        split_and!; [done|by apply stored_sendable|]. split; [done|]. intros z. rewrite elem_of_app, elem_of_cons.
        intros [Hz|[->|Hz]]; [|done|]; apply Hy; rewrite elem_of_app, elem_of_cons; auto. }
    intros [[]|err].
    + eapply hoare_conseq; [apply IH| | |done]; cbn [rs_visited].
      * intros s tr _ [HI Hr]. by rewrite <-app_assoc.
      * intros rs' s tr (HI & Hr & E). split_and!; [done|done|]. rewrite E, <-app_assoc, !fmap_app. simpl. by rewrite Hseq.
    + apply hoare_modify_bind. apply hoare_ret. intros s tr (s0 & [HI Hr] & ->). split_and!; [done|done|].
      cbn [rs_visited]. rewrite !fmap_app. simpl. by rewrite Hseq.
  - eapply hoare_conseq; [apply IH| | |done]; cbn [rs_visited].
    + intros s tr _ [HI Hr]. by rewrite <-app_assoc.
    + intros rs' s tr (HI & Hr & E). split_and!; [done|done|]. by rewrite E, <-app_assoc.
Qed.

Lemma hoare_resendSegments lo rd e : hoare (full lo rd) (resendSegments e) (λ _, full lo rd) (λ _ _ _, False).
Proof using BL.
  unfold resendSegments. apply hoare_gets. intros []; [|by apply hoare_ret; intros s tr [? _]]. cbn [negb].
  apply hoare_gets. intros l.
  eapply hoare_pre with (P := λ s tr, ∃ t0, (full lo rd s tr ∧ resending t0 ([] ++ l) (view_of s) tr) ∧ items t0 = l).
  2:{ intros s tr _ [[HI _] <-]. exists (sendBuf s). split; [split; [done|]|done]. split; [done|].
      intros y Hy. apply (i_stored _ _ _ _ _ _ HI). by right. }
  apply hoare_exists. intros t0. apply (hoare_pure (items t0 = l)); [by intros s tr [_ ?]|]. intros <-.
  eapply hoare_bind; [eapply hoare_pre; [apply (hoare_resendLoop lo rd (λ _, False) True e t0)|by intros s tr _ [? _]]|].
  intros rs. cbn [rs_visited app]. apply hoare_modify_bind.
  eapply hoare_bind with (R := λ _, full lo rd).
  { eapply hoare_pre; [apply hoare_when; intros _; [by apply (hoare_same lo rd (λ _, False) True)|done]|].
    intros s tr _ (s0 & (HI & [Ht Hs] & E) & ->).
    apply (Inv_update lo rd (λ _, False) True (view_of s0)); [done|by rewrite Ht|done]. }
  intros ?. eapply hoare_bind with (R := λ _, full lo rd).
  { destruct (rs_error rs); [|by apply hoare_ret]. eapply hoare_pre; [apply hoare_close|]. intros s tr _ HI. by eapply IS_weak. }
  intros ?. eapply hoare_bind with (R := λ _, full lo rd); [|intros ?; by apply hoare_ret].
  destruct (rs_hasTimeout rs); [by apply hoare_same|]. apply hoare_when; intros _; [by apply hoare_same|done].
Qed.

(** A segment goes from the queue to the buffer. *)
Lemma Inv_transmit lo rd exc rm v tr x x' l q b :
  Inv lo rd exc rm v tr → items (vSendQueue v) = x :: l →
  tree_ok segmentSendQueueTreeCapacity q → items q = l →
  tree_ok segmentTreeCapacity b → items b = insertOrdered x' (items (vSendBuf v)) →
  Seq x' = Seq x → stored v tr x' →
  Inv lo rd exc rm (v<|vSendQueue := q|><|vSendBuf := b|>) tr.
Proof.
  intros HI Eq Hq Eq' Hb Eb Hseq Hs. pose proof (tree_ok_ordered _ _ (i_sendBuf _ _ _ _ _ _ HI)) as Ho.
  eapply Inv_send_trees; [exact HI|done|done| | |].
  - intros y [Hy|Hy].
    + apply (i_stored _ _ _ _ _ _ HI). left. rewrite Eq. right. by rewrite <-Eq'.
    + rewrite Eb in Hy. apply elem_of_insertOrdered in Hy as [->|[Hy _]]; [done| |done].
      apply (i_stored _ _ _ _ _ _ HI). by right.
  - intros _ k _ [?|(y & [Hy|Hy] & <-)]; [by left| |]; right.
    + rewrite Eq in Hy. apply elem_of_cons in Hy as [->|Hy].
      * exists x'. split; [right; rewrite Eb; by apply elem_of_insertOrdered_self|done].
      * exists y. split; [left; by rewrite Eq'|done].
    + rewrite Eb. destruct (elem_of_insertOrdered_keep x' y _ Ho Hy) as (z & Hz & E). exists z. auto.
  - intros Hr Hc Hv. pose proof (i_room _ _ _ _ _ _ HI Hr Hc Hv) as Hl. rewrite Eq, len_cons in Hl. rewrite Eq'. lia.
Qed.

(** The first half of a round of [sendLoop], up to the decision, and the
    second half, with the rest of the loop as [k]. *)
Definition popQueue (count : Z) (k : Session → segment → M unit) : M unit :=
  s ← gets (λ s, s);
  if Remaining (sendBuf s) <=? 1 then ret tt else
  if shouldDeferNextPacketData s then ret tt else
  '(seg, deleted, t) ← lift (DeleteMinIf (λ _, count <? sendWindowSize s) (sendQueue s));
  _ ← modify (λ s, s<|sendQueue := t|>);
  match deleted, seg with
  | false, _ => ret tt
  | true, None => lift (Panic "nil pointer dereference")
  | true, Some seg => k s seg
  end.
Definition transmit (e : env) (k : M unit) (s : Session) (seg : segment) : M unit :=
  let seg := markSent e s seg in
  let deadline := seg_txTime seg + seg_txTimeout seg `quot` Microsecond in
  _ ← (if Len (sendBuf s) =? 0
       then modify (λ s, s<|nextRetransmissionTime :=
              Min deadline (seg_txTime seg + retransmissionCheckDelay `quot` Microsecond)|>)
       else when (nextRetransmissionTime s >? deadline) (modify (λ s, s<|nextRetransmissionTime := deadline|>)));
  '(ok, t) ← lift (Insert seg (sendBuf s));
  _ ← modify (λ s, s<|sendBuf := t|>);
  if negb ok then
    _ ← setOutputErr;
    closeWithError e (Some (Errorf "output() failed: insert to send buffer failed"))
  else
  r ← try (output e seg);
  match r with
  | inr err => _ ← setOutputErr; closeWithError e (Some (Wrapf "output() failed" err))
  | inl _ => k
  end.

Lemma sendLoop_round e fuel count s :
  sendLoop e fuel count s =
  popQueue count (λ s seg, match fuel with
                           | O => lift (Panic "out of fuel")
                           | S fuel => transmit e (sendLoop e fuel (count + 1)) s seg end) s.
Proof.
  destruct fuel; cbn [sendLoop]; unfold popQueue, mbind, M_bind, gets, lift; cbn;
    (destruct (Remaining (sendBuf s) <=? 1) eqn:Er; [done|]); (destruct (shouldDeferNextPacketData s); [done|]);
    destruct (DeleteMinIf _ _) as [[[x d] t]| |]; try done; by destruct d, x.
Qed.

(** After the segment [x] was taken from the queue. *)
Definition popped lo rd (s1 : Session) (q : segmentTree) (s : Session) (tr : list event) : Prop :=
  full lo rd s1 tr ∧ view_of s = (view_of s1)<|vSendQueue := q|>.

Lemma hoare_popQueue lo rd count (k : Session → segment → M unit) m E :
  (∀ s1 x l q, len (x :: l) <= m → items (sendQueue s1) = x :: l → tree_ok segmentSendQueueTreeCapacity q → items q = l →
     1 < Remaining (sendBuf s1) → hoare (popped lo rd s1 q) (k s1 x) (λ _, full lo rd) E) →
  hoare (λ s tr, full lo rd s tr ∧ len (items (sendQueue s)) <= m) (popQueue count k) (λ _, full lo rd) E.
Proof using BL.
  intros Hk s tr [HI Hl]. unfold popQueue, mbind, M_bind, gets, lift. cbn.
  destruct (Z.leb_spec (Remaining (sendBuf s)) 1) as [|Hroom]; [intros _; cbn; by rewrite app_nil_r|].
  destruct (shouldDeferNextPacketData s); [intros _; cbn; by rewrite app_nil_r|].
  destruct (tree_ok_DeleteMinIf _ (λ _, count <? sendWindowSize s) _ (i_sendQueue _ _ _ _ _ _ HI)) as (x & d & q & E1 & Hok & Hc).
  cbn in E1, Hc. rewrite E1. cbn.
  assert (items q = items (sendQueue s) → full lo rd (s<|sendQueue := q|>) tr) as Hsame.
  { intros Eq. apply (Inv_send_queue lo rd (λ _, False) _ True True (view_of s) tr q); [done|done| | |done|]; rewrite Eq.
    - intros y Hy. apply (i_stored _ _ _ _ _ _ HI). by left.
    - intros _ y Hy. right. by exists y.
    - intros. by apply (i_room _ _ _ _ _ _ HI). }
  destruct (items (sendQueue s)) as [|y l] eqn:Eq; [destruct Hc as (-> & -> & Ei)|destruct Hc as (-> & -> & Ei)].
  { intros _. cbn. rewrite app_nil_r. auto. }
  destruct (count <? sendWindowSize s).
  - specialize (Hk s y l q Hl Eq Hok Ei Hroom (s<|sendQueue := q|>) tr (conj HI eq_refl)).
    destruct (k s y _) as [[s2 e2] r]. exact Hk.
  - intros _. cbn. rewrite app_nil_r. auto.
Qed.

Lemma hoare_transmit lo rd e (k : M unit) s1 x l q :
  items (sendQueue s1) = x :: l → tree_ok segmentSendQueueTreeCapacity q → items q = l → 1 < Remaining (sendBuf s1) →
  hoare (λ s tr, full lo rd s tr ∧ len (items (sendQueue s)) <= len l) k (λ _, full lo rd) (λ _ _ _, False) →
  hoare (popped lo rd s1 q) (transmit e k s1 x) (λ _, full lo rd) (λ _ _ _, False).
Proof using BL.
  intros Eq Hq Eq' Hroom Hk. unfold transmit. cbv zeta. set (x' := markSent e s1 x).
  eapply hoare_bind with (R := λ _, popped lo rd s1 q).
  { destruct (Len (sendBuf s1) =? 0); [|apply hoare_when; intros _; [|done]]; apply hoare_modify; by intros s tr [HI Hv]. }
  intros ?. apply (hoare_pure (∃ tr, full lo rd s1 tr)); [by intros s tr [? _]; eauto|]. intros [tr0 HI0].
  assert (∀ tr, full lo rd s1 tr → stored (view_of s1) tr x') as Hst.
  { intros tr HI. apply markSent_stored, (i_stored _ _ _ _ _ _ HI). left. cbn. rewrite Eq. left. }
  assert (Seq x' = Seq x) as Hseq by apply (core_seq _ _ (markSent_core e s1 x)).
  pose proof (i_sendBuf _ _ _ _ _ _ HI0) as Hb. cbn in Hb.
  destruct (tree_ok_Insert _ x' _ Hb ltac:(by apply (Hst tr0))) as (ok & b & EI & Hb' & Hres).
  rewrite Remaining_items in Hroom. destruct Hb as [_ Hbc]. rewrite Hbc in Hroom. rewrite decide_False in Hres by lia.
  destruct Hres as [-> Eb]. rewrite EI.
  apply hoare_lift_ok; [by intros; eexists|]. intros [ok b''] [= <- <-]. apply hoare_modify_bind. cbn [negb].
  eapply hoare_pre with (P := λ s tr, full lo rd s tr ∧ sendable (view_of s) tr x' ∧ len (items (vSendQueue (view_of s))) <= len l).
  2:{ intros s tr _ (s0 & [HI Hv] & ->).
      assert (view_of (s0<|sendBuf := b|>) = (view_of s1)<|vSendQueue := q|><|vSendBuf := b|>) as Ev.
      { change (view_of (s0<|sendBuf := b|>)) with ((view_of s0)<|vSendBuf := b|>). by rewrite Hv. }
      unfold IS. rewrite Ev. split_and!; [by eapply Inv_transmit; eauto|apply stored_sendable, (Hst _ HI)|cbn; by rewrite Eq']. }
  eapply hoare_bind with (R := λ r s tr, full lo rd s tr ∧ len (items (vSendQueue (view_of s))) <= len l).
  { eapply hoare_try; [apply (hoare_output lo rd (λ _, False) True e x' (λ v, len (items (vSendQueue v)) <= len l))|].
    intros er s tr H. exact H. }
  intros [?|err]; [exact Hk|]. apply hoare_modify_bind. eapply hoare_pre; [apply hoare_close|].
  intros s tr _ (s0 & [HI _] & ->). by apply (IS_weak lo rd (λ _, False) True).
Qed.

Lemma hoare_sendLoop lo rd e fuel count :
  hoare (λ s tr, full lo rd s tr ∧ len (items (sendQueue s)) <= Z.of_nat fuel) (sendLoop e fuel count)
    (λ _, full lo rd) (λ _ _ _, False).
Proof using BL.
  revert count. induction fuel as [|fuel IH]; intros count; (eapply hoare_ext; [apply sendLoop_round|]); apply hoare_popQueue;
    intros s1 x l q Hl Eq Hq Eq' Hroom.
  - rewrite len_cons in Hl. pose proof (len_nonneg l). lia.
  - eapply hoare_transmit; [done..|]. eapply hoare_pre; [apply IH|]. rewrite len_cons in Hl.
    intros s tr _ [? ?]. split; [done|lia].
Qed.

Lemma hoare_sendNewSegments lo rd e count :
  hoare (full lo rd) (sendNewSegments e count) (λ _, full lo rd) (λ _ _ _, False).
Proof using BL.
  unfold sendNewSegments. apply hoare_gets. intros []; [|by apply hoare_ret; intros s tr [? _]]. cbn [negb].
  apply hoare_gets. intros k. eapply hoare_pre; [apply hoare_sendLoop|].
  intros s tr _ [[HI _] <-]. split; [done|]. rewrite Len_nat. lia.
Qed.

Lemma ackSegment_sendable s tr : sendable (view_of s) tr (ackSegment s).
Proof.
  split_and!; [unfold typed; cbn; by destruct (isClient s)|unfold seg_unAck; cbn; lia|left].
  unfold ackSegment, seg_Protocol. cbn. by destruct (isClient s).
Qed.

Lemma hoare_sendAck lo rd e : hoare (full lo rd) (sendAck e) (λ _, full lo rd) (λ _ _ _, False).
Proof using BL.
  unfold sendAck. apply hoare_gets. intros s1. cbv zeta.
  match goal with |- context [if ?b then _ else _] => destruct b end; [|by apply hoare_ret; intros s tr [? _]].
  apply hoare_modify_bind. apply hoare_gets. intros ack.
  eapply hoare_bind with (R := λ _, full lo rd).
  { eapply hoare_try with (E' := λ _ s tr, full lo rd s tr ∧ True); [|by intros er s tr [? _]].
    eapply hoare_conseq; [apply (hoare_output lo rd (λ _, False) True e ack (λ _, True))| | |done].
    - intros s tr _ [(s0 & [HI _] & ->) <-]. split_and!; [done|apply ackSegment_sendable|done].
    - by intros a s tr [? _]. }
  intros r. eapply hoare_bind with (R := λ _, full lo rd); [|intros ?; by apply (hoare_same lo rd (λ _, False) True)].
  destruct r as [|err]; [by apply hoare_ret|]. apply hoare_modify_bind. eapply hoare_pre; [apply hoare_close|].
  intros s tr _ (s0 & HI & ->). by apply (IS_weak lo rd (λ _, False) True).
Qed.

Lemma hoare_runOutputOncePacket lo rd e :
  hoare (full lo rd) (runOutputOncePacket e) (λ _, full lo rd) (λ _ _ _, False).
Proof using BL.
  unfold runOutputOncePacket. apply hoare_gets. intros []; [by apply hoare_ret; intros s tr [? _]|].
  eapply hoare_bind; [eapply hoare_pre; [apply (hoare_resendSegments lo rd)|by intros s tr _ [? _]]|]. intros k.
  eapply hoare_bind; [apply hoare_sendNewSegments|]. intros ?. apply hoare_sendAck.
Qed.

(** *** Reading *)

(** What a read has copied so far counts as read. *)
Lemma Inv_unread lo rd exc rm v tr rd' ub :
  Inv lo rd exc rm v tr → rd' ++ ub = rd ++ vUnread v → Inv lo rd' exc rm (v<|vUnread := ub|>) tr.
Proof. intros H E. destruct H. split; try done. cbn. by rewrite app_assoc, E, <-app_assoc. Qed.

Lemma Inv_popRecv lo rd exc rm v tr x l q :
  Inv lo rd exc rm v tr → items (vRecvQueue v) = x :: l → tree_ok segmentTreeCapacity q → items q = l →
  vUnread v = [] →
  Inv lo rd exc rm (v<|vRecvQueue := q|><|vUnread := seg_payload x|>) tr.
Proof.
  intros H Eq Hq Eq' Hu. destruct H. split; try done; cbn.
  - intros y [Hy|Hy]; [auto|]. apply i_got0. right. rewrite Eq. right. by rewrite <-Eq'.
  - intros y Hy. apply i_below0. rewrite Eq. right. by rewrite <-Eq'.
  - rewrite <-i_bytes0, Eq, Eq', Hu. simpl. done.
Qed.

Lemma slice_split {A} (k : Z) (l : list A) : slice_to k l ++ slice_from (len (slice_to k l)) l = l.
Proof.
  unfold slice_to, slice_from, len. rewrite Nat2Z.id, length_take.
  destruct (Nat.le_gt_cases (length l) (Z.to_nat k)).
  - rewrite (firstn_all2 l), Nat.min_r, drop_all, app_nil_r by lia. done.
  - rewrite Nat.min_l, take_drop by lia. done.
Qed.
Lemma slice_to_len {A} (k : Z) (l : list A) : 0 <= k → len (slice_to k l) = Z.min k (len l).
Proof. intros. unfold slice_to. rewrite len_take. lia. Qed.

Lemma tree_ok_DeleteMin c t x l :
  tree_ok c t → items t = x :: l → ∃ t', DeleteMin t = Ok (Some x, t') ∧ tree_ok c t' ∧ items t' = l.
Proof using BL.
  intros [Hi Hc] E. pose proof (DeleteMin_spec t Hi) as H. rewrite E in H. destruct H as (t' & ? & ? & ? & ?).
  exists t'. split_and!; [done|split; [done|congruence]|done].
Qed.

(** The second half of a round of [readLoop]: a segment is taken and copied. *)
Lemma hoare_readSegment lo rd size acc m (k : list Z → M (list Z)) E :
  0 <= size → len acc <= size →
  (∀ acc', len acc' <= size →
     hoare (λ s tr, full lo (rd ++ acc') s tr ∧ len (items (recvQueue s)) + 1 <= m) (k acc') (λ b, full lo (rd ++ b)) E) →
  hoare (λ s tr, full lo (rd ++ acc) s tr ∧ unreadBuf s = [] ∧ len (items (recvQueue s)) <= m ∧ 0 < len (items (recvQueue s)))
    (t ← gets recvQueue;
     '(seg, t) ← lift (DeleteMin t);
     _ ← modify (λ s, s<|recvQueue := t|>);
     match seg with
     | None => k acc
     | Some seg =>
       opening ← gets (λ s, isClient s && (seg_Protocol seg =? openSessionResponse) && isState sessionAttached s);
       _ ← when opening (forwardStateTo sessionEstablished);
       let copied := slice_to (size - len acc) (seg_payload seg) in
       let acc := acc ++ copied in
       _ ← when (len copied <? len (seg_payload seg))
              (modify (λ s, s<|unreadBuf := slice_from (len copied) (seg_payload seg)|>));
       if len acc =? size then ret acc else k acc
     end) (λ b, full lo (rd ++ b)) E.
Proof using BL.
  intros Hsz Hacc Hk. apply hoare_gets. intros t.
  apply (hoare_pure (tree_ok segmentTreeCapacity t ∧ 0 < len (items t) <= m)).
  { intros s tr [(HI & _ & ? & ?) <-]. split; [apply (i_recvQueue _ _ _ _ _ _ HI)|done]. }
  intros [Ht Hl]. destruct (items t) as [|x l] eqn:Eq; [unfold len in Hl; cbn in Hl; lia|]. rewrite len_cons in Hl.
  destruct (tree_ok_DeleteMin _ t x l Ht Eq) as (q & ED & Hq & Eq'). rewrite ED.
  apply hoare_lift_ok; [by intros; eexists|]. intros [x0 q0] [= <- <-]. apply hoare_modify_bind. cbv zeta.
  set (copied := slice_to (size - len acc) (seg_payload x)).
  (* the payload is unread, then copied in part *)
  eapply hoare_pre with (P := λ s tr, ∃ s0, s = s0<|unreadBuf := []|> ∧
      full lo (rd ++ acc) (s0<|unreadBuf := seg_payload x|>) tr ∧ len (items (recvQueue s)) = len l).
  2:{ intros s tr _ (s0 & [(HI & Hu & _) Et] & ->). exists (s0<|recvQueue := q|>). split_and!.
      - by destruct s0; cbn in *; subst.
      - apply (Inv_popRecv lo (rd ++ acc) (λ _, False) True (view_of s0) tr x l q); [done|cbn; by rewrite Et|done|done|done].
      - cbn. by rewrite Eq'. }
  apply hoare_gets. intros op.
  eapply hoare_bind with (R := λ _ s tr, ∃ s0, s = s0<|unreadBuf := []|> ∧
      full lo (rd ++ acc) (s0<|unreadBuf := seg_payload x|>) tr ∧ len (items (recvQueue s)) = len l).
  { apply hoare_when; intros _; [|by intros s tr [? _]]. apply hoare_modify. intros s tr [(s0 & -> & HI & Hlen) _].
    exists (if sessionEstablished <=? state s0 then s0 else s0<|state := sessionEstablished|>). split_and!.
    - change (state (s0<|unreadBuf := []|>)) with (state s0). by destruct (_ <=? _).
    - change (state s0) with (state (s0<|unreadBuf := seg_payload x|>)).
      pose proof (view_state (s0<|unreadBuf := seg_payload x|>) sessionEstablished) as Ev.
      assert (full lo (rd ++ acc) (if sessionEstablished <=? state (s0<|unreadBuf := seg_payload x|>)
        then s0<|unreadBuf := seg_payload x|> else s0<|unreadBuf := seg_payload x|><|state := sessionEstablished|>) tr) as HI'.
      { unfold IS. rewrite Ev. apply Inv_reserved; [apply reserved_state|done]. }
      by destruct (_ <=? _).
    - change (state (s0<|unreadBuf := []|>)) with (state s0). by destruct (_ <=? _). }
  intros ?. eapply hoare_bind with (R := λ _ s tr, full lo (rd ++ acc ++ copied) s tr ∧ len (items (recvQueue s)) = len l).
  { assert (∀ s0 tr ub, full lo (rd ++ acc) (s0<|unreadBuf := seg_payload x|>) tr → copied ++ ub = seg_payload x →
       full lo (rd ++ acc ++ copied) (s0<|unreadBuf := ub|>) tr) as Hcopy.
    { intros s0 tr ub HI E'. unfold IS.
      replace (view_of (s0<|unreadBuf := ub|>)) with ((view_of (s0<|unreadBuf := seg_payload x|>))<|vUnread := ub|>) by reflexivity.
      apply (Inv_unread _ (rd ++ acc)); [done|].
      cbn. by rewrite <-E', <-!app_assoc. }
    apply hoare_when; intros Hc.
    - apply hoare_modify. intros s tr (s0 & -> & HI & Hlen). split; [|done]. apply (Hcopy s0); [done|]. apply slice_split.
    - intros s tr (s0 & -> & HI & Hlen). split; [|done]. apply (Hcopy s0); [done|]. rewrite app_nil_r.
      unfold copied in *. apply Z.ltb_ge in Hc. rewrite slice_to_len in Hc by lia. unfold slice_to. apply firstn_all2.
      unfold len in *. lia. }
  intros ?. destruct (Z.eqb_spec (len (acc ++ copied)) size) as [Hsize|Hsize].
  { apply hoare_ret. by intros s tr [? _]. }
  eapply hoare_pre; [apply Hk|].
  - rewrite len_app. unfold copied. rewrite slice_to_len by lia. lia.
  - intros s tr _ [HI ->]. split; [done|lia].
Qed.

Lemma hoare_readLoop lo rd e fuel size acc :
  0 <= size → len acc <= size →
  hoare (λ s tr, full lo (rd ++ acc) s tr ∧ len (items (recvQueue s)) + 1 <= Z.of_nat fuel) (readLoop e fuel size acc)
    (λ b, full lo (rd ++ b)) (λ _, full lo rd).
Proof using BL.
  intros Hsz. revert acc. induction fuel as [|fuel IH]; intros acc Hacc.
  { apply hoare_false. intros s tr [_ Hl]. pose proof (len_nonneg (items (recvQueue s))). lia. }
  cbn [readLoop]. apply hoare_gets. intros unread. cbv zeta.
  set (copied := slice_to (size - len acc) unread). apply hoare_modify_bind.
  assert (len copied = Z.min (size - len acc) (len unread)) as Hcl by (apply slice_to_len; lia).
  eapply hoare_pre with (P := λ s tr, full lo (rd ++ acc ++ copied) s tr ∧ unreadBuf s = slice_from (len copied) unread ∧
     len (items (recvQueue s)) <= Z.of_nat fuel).
  2:{ intros s tr _ (s0 & [[HI Hl] Eu] & ->). split_and!; [|done|cbn; lia].
      apply (Inv_unread lo (rd ++ acc) (λ _, False) True (view_of s0) tr (rd ++ acc ++ copied) (slice_from (len copied) unread)); [done|]. cbn. rewrite Eu.
      rewrite <-!app_assoc. do 2 f_equal. apply slice_split. }
  assert (len (acc ++ copied) <= size) as Hacc' by (rewrite len_app; lia).
  destruct ((len unread >? 0) && ((len (acc ++ copied) =? size) || (len unread >? len copied))) eqn:Ec.
  { apply hoare_ret. by intros s tr [? _]. }
  assert (slice_from (len copied) unread = []) as Eun.
  { apply andb_false_iff in Ec as [Ec|[_ Ec]%orb_false_iff]; rewrite Z.gtb_ltb in Ec; apply Z.ltb_ge in Ec; apply len_zero;
      unfold slice_from; rewrite len_drop; pose proof (len_nonneg unread); lia. }
  rewrite Eun. apply hoare_gets. intros queued. destruct (Z.gtb_spec queued 0) as [Hqd|Hqd].
  - eapply hoare_pre; [apply (hoare_readSegment lo rd size (acc ++ copied) (Z.of_nat fuel) (readLoop e fuel size)); [done|done|]|].
    + intros acc' Ha. by apply IH.
    + intros s tr _ [(HI & Hu & Hl) <-]. rewrite Len_items in Hqd. split_and!; [done|done|done|lia].
  - destruct (Z.gtb_spec (len (acc ++ copied)) 0) as [Hp|Hp]; [apply hoare_ret; by intros s tr [(? & _) _]|].
    apply hoare_gets. intros s1. apply hoare_fail. intros s tr [[(HI & _) _] _].
    pose proof (len_nonneg (acc ++ copied)). assert (acc ++ copied = []) as En by (apply len_zero; lia).
    by rewrite En, app_nil_r in HI.
Qed.

Lemma hoare_Read lo rd e size :
  0 <= size → hoare (full lo rd) (Read e size) (λ b, full lo (rd ++ b)) (λ _, full lo rd).
Proof using BL.
  intros Hsz. unfold Read. destruct (size =? 0).
  { apply hoare_modify_bind. apply hoare_ret. intros s tr (s0 & HI & ->). by rewrite app_nil_r. }
  apply hoare_gets. intros k.
  eapply hoare_bind with (R := λ r s tr, match r with inl b => full lo (rd ++ b) s tr | inr _ => full lo rd s tr end).
  { eapply hoare_try with (E' := λ _, full lo rd); [|done].
    eapply hoare_pre; [apply (hoare_readLoop lo rd e _ size []); [done|done]|].
    intros s tr _ [HI <-]. rewrite app_nil_r. split; [done|]. rewrite !Nat2Z.inj_succ, Len_nat. lia. }
  intros [b|er].
  - apply hoare_modify_bind. apply hoare_ret. intros s tr (s0 & HI & ->). done.
  - assert (hoare (full lo rd) (_ ← modify (λ s, s<|readDeadline := 0|>); fail er) (λ b : list Z, full lo (rd ++ b)) (λ _, full lo rd)) as H.
    { apply hoare_modify_bind. apply hoare_fail. by intros s tr (s0 & HI & ->). }
    by destruct er.
Qed.
End delivery.
