(* ===== verification/Lifecycle.v ===== *)
(** * The life of a session

    What no operation of Session.v ever takes back: identity, role and
    transport of the session are fixed, its state only moves forward, a close
    request, the closed channel and the error flags stay.  Then what closing
    does, whoever asks for it, and that a closed session accepts nothing. *)
From S2P Require Import Prelude MathExt Messages LowEntropy Metadata GoStd Ascii Cipher Segment GoFloat Congestion Session.

Section lifecycle.
Context `{B : BTree} `{F : GoFloat}.

Record frame (s s' : Session) : Prop := {
  f_id : id s' = id s;
  f_isClient : isClient s' = isClient s;
  f_mtu : mtu s' = mtu s;
  f_transport : transportProtocol s' = transportProtocol s;
  f_trafficPattern : trafficPattern s' = trafficPattern s;
  f_state : state s <= state s';
  f_closeRequested : closeRequested s = true → closeRequested s' = true;
  f_closedChan : closedChan s = true → closedChan s' = true;
  f_inputErr : inputHasErr s = true → inputHasErr s' = true;
  f_outputErr : outputHasErr s = true → outputHasErr s' = true;
  f_opened : openSessionRequestSent s = true → openSessionRequestSent s' = true;
  f_lowEntropy : clientUseLowEntropy s = true → clientUseLowEntropy s' = true
}.

#[global] Instance frame_refl : Reflexive frame.
Proof. by split. Qed.
#[global] Instance frame_trans : Transitive frame.
Proof. intros s1 s2 s3 H1 H2. destruct H1, H2. split; try congruence; try lia; auto. Qed.

(** Every run of [m], also a failing one. *)
Definition frames {A} (m : M A) : Prop := ∀ s, frame s (m s).1.1.

Lemma frames_same {A} (m : M A) : (∀ s, (m s).1.1 = s) → frames m.
Proof. intros H s. by rewrite H. Qed.
Lemma frames_ret {A} (a : A) : frames (ret a).
Proof. by apply frames_same. Qed.
Lemma frames_gets {A} (f : Session → A) : frames (gets f).
Proof. by apply frames_same. Qed.
Lemma frames_lift {A} (r : result A) : frames (lift r).
Proof. by apply frames_same. Qed.
Lemma frames_fail {A} e : frames (A:=A) (fail e).
Proof. by apply frames_same. Qed.
Lemma frames_log ev : frames (log ev).
Proof. by apply frames_same. Qed.
Lemma frames_modify f : (∀ s, frame s (f s)) → frames (modify f).
Proof. intros H s. apply H. Qed.
Lemma frames_bind {A C} (m : M A) (k : A → M C) : frames m → (∀ a, frames (k a)) → frames (m ≫= k).
Proof.
  intros Hm Hk s. specialize (Hm s). unfold mbind, M_bind. destruct (m s) as [[s1 e1] [a|e|p]]; try done.
  specialize (Hk a s1). destruct (k a s1) as [[s2 e2] r]. by etrans.
Qed.
Lemma frames_try {A} (m : M A) : frames m → frames (try m).
Proof. intros Hm s. specialize (Hm s). unfold try. by destruct (m s) as [[s1 e1] [a|e|p]]. Qed.
Lemma frames_when b m : frames m → frames (when b m).
Proof. intros Hm. destruct b; [done|apply frames_ret]. Qed.
End lifecycle.

(** Goes through the operations of a definition; [frames_ops] knows those that
    have been dealt with. *)
Create HintDb frames_ops.
#[export] Hint Resolve frames_ret frames_gets frames_lift frames_fail frames_log : frames_ops.
Ltac frames_step :=
  cbv zeta;
  match goal with
  | |- frames _ => solve [eauto 2 with frames_ops nocore]
  | |- frames (mbind _ _) => apply frames_bind; [|intros ?]
  | |- frames (modify _) => apply frames_modify; intros ?; cbv zeta; repeat case_match; split; cbn; intros; lia || congruence || done
  | |- frames (try _) => apply frames_try
  | |- frames (when _ _) => apply frames_when
  | |- frames (match ?x with _ => _ end) => destruct x
  end.
Ltac frames := repeat frames_step.

Section operations.
Context `{B : BTree} `{F : GoFloat}.

Lemma frames_forwardStateTo next : frames (forwardStateTo next).
Proof. unfold forwardStateTo. frames. Qed.
#[local] Hint Resolve frames_forwardStateTo : frames_ops.
Lemma frames_wakePacketOutput : frames (wakePacketOutput).
Proof. unfold wakePacketOutput. frames. Qed.
#[local] Hint Resolve frames_wakePacketOutput : frames_ops.
Lemma frames_requestPacketAck e : frames (requestPacketAck e).
Proof. unfold requestPacketAck. frames. Qed.
#[local] Hint Resolve frames_requestPacketAck : frames_ops.
Lemma frames_number mk : frames (number mk).
Proof. unfold number. frames. Qed.
#[local] Hint Resolve frames_number : frames_ops.
Lemma frames_insertSendQueue seg : frames (insertSendQueue seg).
Proof. unfold insertSendQueue. frames. Qed.
#[local] Hint Resolve frames_insertSendQueue : frames_ops.
Lemma frames_output e seg : frames (output e seg).
Proof. unfold output. frames. Qed.
#[local] Hint Resolve frames_output : frames_ops.
Lemma frames_closeBegin g : frames (closeBegin g).
Proof. unfold closeBegin. frames. Qed.
#[local] Hint Resolve frames_closeBegin : frames_ops.
Lemma frames_closeFinish e c : frames (closeFinish e c).
Proof. unfold closeFinish. frames. Qed.
#[local] Hint Resolve frames_closeFinish : frames_ops.
Lemma frames_closeWithError e err : frames (closeWithError e err).
Proof. unfold closeWithError. frames. Qed.
#[local] Hint Resolve frames_closeWithError : frames_ops.
Lemma frames_setOutputErr : frames (setOutputErr).
Proof. unfold setOutputErr. frames. Qed.
#[local] Hint Resolve frames_setOutputErr : frames_ops.
Lemma frames_setInputErr : frames (setInputErr).
Proof. unfold setInputErr. frames. Qed.
#[local] Hint Resolve frames_setInputErr : frames_ops.
Lemma frames_consumeEmptyEvent : frames (consumeEmptyEvent).
Proof. unfold consumeEmptyEvent. frames. Qed.
#[local] Hint Resolve frames_consumeEmptyEvent : frames_ops.
Lemma frames_deleteAcked e fuel ua : frames (deleteAcked e fuel ua).
Proof. revert e ua. induction fuel as [|fuel IH]; intros; cbn [deleteAcked]; frames. Qed.
#[local] Hint Resolve frames_deleteAcked : frames_ops.
Lemma frames_processUnAck e das : frames (processUnAck e das).
Proof. unfold processUnAck. frames. Qed.
#[local] Hint Resolve frames_processUnAck : frames_ops.
Lemma frames_wakeIfQueued : frames (wakeIfQueued).
Proof. unfold wakeIfQueued. frames. Qed.
#[local] Hint Resolve frames_wakeIfQueued : frames_ops.
Lemma frames_waitForRecvQueueSpace : frames (waitForRecvQueueSpace).
Proof. unfold waitForRecvQueueSpace. frames. Qed.
#[local] Hint Resolve frames_waitForRecvQueueSpace : frames_ops.
Lemma frames_moveLoop fuel : frames (moveLoop fuel).
Proof. induction fuel as [|fuel IH]; intros; cbn [moveLoop]; frames. Qed.
#[local] Hint Resolve frames_moveLoop : frames_ops.
Lemma frames_moveRecvBufToRecvQueue : frames (moveRecvBufToRecvQueue).
Proof. unfold moveRecvBufToRecvQueue. frames. Qed.
#[local] Hint Resolve frames_moveRecvBufToRecvQueue : frames_ops.
Lemma frames_replyOpen e seg : frames (replyOpen e seg).
Proof. unfold replyOpen. frames. Qed.
#[local] Hint Resolve frames_replyOpen : frames_ops.
Lemma frames_insertRecv seg : frames (insertRecv seg).
Proof. unfold insertRecv. frames. Qed.
#[local] Hint Resolve frames_insertRecv : frames_ops.
Lemma frames_insertRecvQueue seg : frames (insertRecvQueue seg).
Proof. unfold insertRecvQueue. frames. Qed.
#[local] Hint Resolve frames_insertRecvQueue : frames_ops.
Lemma frames_inputPacket e seg : frames (inputPacket e seg).
Proof. unfold inputPacket. frames. Qed.
#[local] Hint Resolve frames_inputPacket : frames_ops.
Lemma frames_inputData e seg : frames (inputData e seg).
Proof. unfold inputData. frames. Qed.
#[local] Hint Resolve frames_inputData : frames_ops.
Lemma frames_inputAck e seg : frames (inputAck e seg).
Proof. unfold inputAck. frames. Qed.
#[local] Hint Resolve frames_inputAck : frames_ops.
Lemma frames_inputClose e seg : frames (inputClose e seg).
Proof. unfold inputClose. frames. Qed.
#[local] Hint Resolve frames_inputClose : frames_ops.
Lemma frames_checkBlock seg : frames (checkBlock seg).
Proof. unfold checkBlock. frames. Qed.
#[local] Hint Resolve frames_checkBlock : frames_ops.
Lemma frames_input e seg : frames (input e seg).
Proof. unfold input. frames. Qed.
#[local] Hint Resolve frames_input : frames_ops.
Lemma frames_runInputOnce e seg : frames (runInputOnce e seg).
Proof. unfold runInputOnce. frames. Qed.
#[local] Hint Resolve frames_runInputOnce : frames_ops.
Lemma frames_writeFragments e config fs k ptr : frames (writeFragments e config fs k ptr).
Proof. revert ptr. induction k as [|k IH]; intros; cbn [writeFragments]; frames. Qed.
#[local] Hint Resolve frames_writeFragments : frames_ops.
Lemma frames_writeChunk e b : frames (writeChunk e b).
Proof. unfold writeChunk. frames. Qed.
#[local] Hint Resolve frames_writeChunk : frames_ops.
Lemma frames_writeLoop e fuel b n : frames (writeLoop e fuel b n).
Proof. revert b n. induction fuel as [|fuel IH]; intros; cbn [writeLoop]; frames. Qed.
#[local] Hint Resolve frames_writeLoop : frames_ops.
Lemma frames_Write e b : frames (Write e b).
Proof. unfold Write. frames. Qed.
#[local] Hint Resolve frames_Write : frames_ops.
Lemma frames_readLoop e fuel size acc : frames (readLoop e fuel size acc).
Proof. revert acc. induction fuel as [|fuel IH]; intros; cbn [readLoop]; frames. Qed.
#[local] Hint Resolve frames_readLoop : frames_ops.
Lemma frames_Read e size : frames (Read e size).
Proof. unfold Read. frames. Qed.
#[local] Hint Resolve frames_Read : frames_ops.
Lemma frames_streamLoop e fuel : frames (streamLoop e fuel).
Proof. induction fuel as [|fuel IH]; intros; cbn [streamLoop]; frames. Qed.
#[local] Hint Resolve frames_streamLoop : frames_ops.
Lemma frames_runOutputOnceStream e : frames (runOutputOnceStream e).
Proof. unfold runOutputOnceStream. frames. Qed.
#[local] Hint Resolve frames_runOutputOnceStream : frames_ops.
Lemma frames_resendLoop e l rs : frames (resendLoop e l rs).
Proof. revert rs. induction l as [|x l IH]; intros; cbn [resendLoop]; frames. Qed.
#[local] Hint Resolve frames_resendLoop : frames_ops.
Lemma frames_resendSegments e : frames (resendSegments e).
Proof. unfold resendSegments. frames. Qed.
#[local] Hint Resolve frames_resendSegments : frames_ops.
Lemma frames_sendLoop e fuel count : frames (sendLoop e fuel count).
Proof. revert count. induction fuel as [|fuel IH]; intros; cbn [sendLoop]; frames. Qed.
#[local] Hint Resolve frames_sendLoop : frames_ops.
Lemma frames_sendNewSegments e count : frames (sendNewSegments e count).
Proof. unfold sendNewSegments. frames. Qed.
#[local] Hint Resolve frames_sendNewSegments : frames_ops.
Lemma frames_sendAck e : frames (sendAck e).
Proof. unfold sendAck. frames. Qed.
#[local] Hint Resolve frames_sendAck : frames_ops.
Lemma frames_runOutputOncePacket e : frames (runOutputOncePacket e).
Proof. unfold runOutputOncePacket. frames. Qed.
#[local] Hint Resolve frames_runOutputOncePacket : frames_ops.
Lemma frames_SetReadDeadline t : frames (SetReadDeadline t).
Proof. unfold SetReadDeadline. frames. Qed.
#[local] Hint Resolve frames_SetReadDeadline : frames_ops.
Lemma frames_SetWriteDeadline t : frames (SetWriteDeadline t).
Proof. unfold SetWriteDeadline. frames. Qed.
#[local] Hint Resolve frames_SetWriteDeadline : frames_ops.
Lemma frames_SetDeadline t : frames (SetDeadline t).
Proof. unfold SetDeadline. frames. Qed.
#[local] Hint Resolve frames_SetDeadline : frames_ops.

(** ** All operations *)

(** What the application, the network, the loops of the session and its
    underlay can do to it. *)
Inductive operation :=
  | OpWrite (e : env) (b : list Z)
  | OpRead (e : env) (size : Z)
  | OpInput (e : env) (seg : segment)
  | OpOutputStream (e : env)
  | OpOutputPacket (e : env)
  | OpCloseBegin (graceful : bool)
  | OpCloseFinish (e : env) (c : closing)
  | OpCloseWithError (e : env) (err : option error)
  | OpSetDeadline (t : option Z)
  | OpSetReadDeadline (t : option Z)
  | OpSetWriteDeadline (t : option Z).

Definition ignore {A} (m : M A) : M unit := _ ← m; ret tt.
Definition perform (op : operation) : M unit :=
  match op with
  | OpWrite e b => ignore (Write e b)
  | OpRead e size => ignore (Read e size)
  | OpInput e seg => runInputOnce e seg
  | OpOutputStream e => runOutputOnceStream e
  | OpOutputPacket e => runOutputOncePacket e
  | OpCloseBegin g => ignore (closeBegin g)
  | OpCloseFinish e c => closeFinish e c
  | OpCloseWithError e err => closeWithError e err
  | OpSetDeadline t => SetDeadline t
  | OpSetReadDeadline t => SetReadDeadline t
  | OpSetWriteDeadline t => SetWriteDeadline t
  end.
Definition runOps (ops : list operation) (s : Session) : Session :=
  foldl (λ s op, (perform op s).1.1) s ops.

Lemma frames_perform op : frames (perform op).
Proof. destruct op; cbn [perform]; unfold ignore; frames. Qed.

(** C34. Over any sequence of operations of a session, on either transport,
    with any clock, any segments and any failures of the underlay: id, role,
    MTU, transport and traffic pattern are fixed; the session state only moves
    forward; a close request, a closed channel, an input or output error, the
    open request and the negotiated low entropy mode are never taken back. *)
Theorem session_moves_forward (ops : list operation) (s : Session) : frame s (runOps ops s).
Proof.
  revert s. induction ops as [|op ops IH]; intros s; [done|]. cbn. etrans; [apply frames_perform|apply IH].
Qed.

(** ** Closing *)

Definition isOpen (s : Session) : bool := isState sessionAttached s || isState sessionEstablished s.

Lemma closeFinish_last e c s :
  c ≠ NotClosing → state s <= sessionClosed →
  match closeFinish e c s with
  | (s', ev, r) => r = Ok tt ∧ state s' = sessionClosed ∧ closedChan s' = true ∧
      (∃ t, sendQueue s' = DeleteAll t) ∧ (∃ t, sendBuf s' = DeleteAll t) ∧
      match c with ClosingWith seg _ => ev = [] ∨ ev = [Sent seg] | _ => ev = [] end
  end.
Proof.
  intros Hc Hs. unfold closeFinish, try, output, fail, lift, mbind, M_bind, gets, modify, log, ret, forwardStateTo. cbv zeta.
  destruct c as [| |seg queued]; [done| |].
  2: destruct (queued && (lastSend s >=? Seq seg)); [|destruct (transportProtocol s), (writeOneSegment e seg)].
  all: cbn; split_and!; [done| |done| | |by auto].
  all: unfold sessionClosed in *; destruct (Z.leb_spec 3 (state s)); first [by eexists|unfold set_field; cbn; lia].
Qed.

Lemma Insert_total (seg : segment) (t : segmentTree) :
  checkProtocolType seg = true → ∃ ok q, Insert seg t = Ok (ok, q).
Proof.
  intros Hp. unfold Insert. rewrite Hp. cbn [negb]. case_match; [by eexists _, _|].
  destruct (tr_ReplaceOrInsert seg (tr t)) as [[p|] x]; by eexists _, _.
Qed.

(** The request a close numbers. *)
Definition closeRequest (s : Session) : segment := sessionSegment s closeSessionRequest (status s) [] (nextSend s).

Lemma closeBegin_open g s :
  closeRequested s = false → isOpen s = true →
  ∃ s1 queued, closeBegin g s = (s1, [Numbered (closeRequest s)], Ok (ClosingWith (closeRequest s) queued)) ∧
    state s1 = state s.
Proof.
  intros Hc Ho. unfold closeBegin, number, insertSendQueue, gets, modify, log, lift, ret, mbind, M_bind. cbv zeta. rewrite Hc.
  change (isState sessionAttached (s<|closeRequested := true|>) || isState sessionEstablished (s<|closeRequested := true|>)) with (isOpen s).
  rewrite Ho. cbn [negb]. destruct g; [|by eexists _, _].
  cbn -[sessionSegment Insert].
  change (sessionSegment (s<|closeRequested := true|>) closeSessionRequest (status s) [] (nextSend s)) with (closeRequest s).
  destruct (Insert_total (closeRequest s) (sendQueue s) eq_refl) as (ok & q & ->). by eexists _, _.
Qed.

(** Closing, with or without an error, from any state: an open session
    numbers exactly one close request, with its current status, and hands at
    most that segment to the underlay, whose failure does not matter; closing
    returns, the session is then closed, its send queue and buffer have been
    emptied, writing is refused, and closing again changes nothing. *)
Theorem close_once (e e' : env) (err err' : option error) (b : list Z) (s : Session) :
  closeRequested s = false → state s <= sessionClosed →
  match closeWithError e err s with
  | (s', ev, r) =>
    r = Ok tt ∧ state s' = sessionClosed ∧ closedChan s' = true ∧
    (∃ t, sendQueue s' = DeleteAll t) ∧ (∃ t, sendBuf s' = DeleteAll t) ∧
    (if isOpen s then ev = [Numbered (closeRequest s)] ∨ ev = [Numbered (closeRequest s); Sent (closeRequest s)]
     else ev = []) ∧
    closeWithError e' err' s' = (s', [], Ok tt) ∧
    Write e' b s' = (s', [], Ok (0, Some ErrClosedPipe))
  end.
Proof.
  intros Hc Hs.
  assert (∃ s1 ev0 c, closeBegin (match err with None => true | Some _ => false end) s = (s1, ev0, Ok c) ∧
    state s1 = state s ∧ closeRequested s1 = true ∧ c ≠ NotClosing ∧
    (if isOpen s then ev0 = [Numbered (closeRequest s)] ∧ ∃ q, c = ClosingWith (closeRequest s) q
     else ev0 = [] ∧ c = ClosingQuietly)) as (s1 & ev0 & c & Eb & Es & Hcr & Hn & Hev).
  { destruct (isOpen s) eqn:Ho.
    - destruct (closeBegin_open (match err with None => true | Some _ => false end) s Hc Ho) as (s1 & q & E & Es).
      exists s1, [Numbered (closeRequest s)], (ClosingWith (closeRequest s) q). split_and!; [done|done| |done|done|by eexists].
      revert E. unfold closeBegin, number, insertSendQueue, gets, modify, log, lift, ret, mbind, M_bind. cbv zeta. rewrite Hc.
      change (isState sessionAttached (s<|closeRequested := true|>) || isState sessionEstablished (s<|closeRequested := true|>)) with (isOpen s).
      rewrite Ho. cbn [negb]. destruct err; cbn -[sessionSegment Insert]; [by intros [= <- _]|].
      destruct (Insert _ _) as [[ok t]| |]; by intros [= <- _].
    - exists (s<|closeRequested := true|>), [], ClosingQuietly. split_and!; try done.
      unfold closeBegin, gets, modify, ret, mbind, M_bind. cbv zeta. rewrite Hc.
      change (isState sessionAttached (s<|closeRequested := true|>) || isState sessionEstablished (s<|closeRequested := true|>)) with (isOpen s).
      by rewrite Ho. }
  unfold closeWithError at 1. unfold mbind, M_bind. rewrite Eb.
  pose proof (closeFinish_last e c s1 Hn ltac:(lia)) as HF. pose proof (frames_closeFinish e c s1) as HR.
  destruct (closeFinish e c s1) as [[s2 ev2] r]. destruct HF as (-> & ? & ? & ? & ? & Hev2).
  pose proof (f_closeRequested _ _ HR Hcr) as Hcr2. cbn in Hcr2. split_and!; try done.
  - destruct (isOpen s).
    + destruct Hev as [-> [q ->]]. destruct Hev2 as [->| ->]; auto.
    + destruct Hev as [-> ->]. by rewrite Hev2.
  - unfold closeWithError, closeBegin, gets, mbind, M_bind. by rewrite Hcr2.
  - unfold Write, gets, mbind, M_bind. by rewrite Hcr2.
Qed.
End operations.

(** A client session that was attached to a packet underlay, with the concrete
    tree and arithmetic. *)
#[local] Existing Instance listTree.
#[local] Existing Instance fractionFloat.
Definition example_session : result Session :=
  s ← newSession 1000000 7 true 1400 None 1000;
  Ok (s<|transportProtocol := PacketTransport|><|state := sessionAttached|>).
Definition example_env : env := mkEnv 1000000 (λ _, WOk) true 1000.

Lemma close_once_witness :
  ∃ s, example_session = Ok s ∧
    match closeWithError example_env None s with
    | (s', ev, r) => r = Ok tt ∧ state s' = sessionClosed ∧
        (ev = [Numbered (closeRequest s)] ∨ ev = [Numbered (closeRequest s); Sent (closeRequest s)])
    end.
Proof.
  destruct example_session as [s| |] eqn:E; [|discriminate E..]. exists s. split; [done|]. injection E as <-.
  match goal with |- match closeWithError _ _ ?s with _ => _ end =>
    pose proof (close_once example_env example_env None None [] s eq_refl ltac:(vm_compute; congruence)) as H end.
  destruct (closeWithError _ _ _) as [[s' ev] r]. destruct H as (? & ? & _ & _ & _ & Hev & _). by split_and!.
Defined.
