(* ===== verification/SessionMap.v ===== *)
(** * The sessions of an underlay (underlay_base.go)

    [baseUnderlay] keeps its sessions in a map by id.  The map owns the sessions:
    [sessionEntry] is a session with what only the underlay uses of it.  A step
    is one method; a blocking select is an option, None while it blocks, and a
    boolean argument chooses when several cases are ready.

    Theorem: what every underlay keeps true of its sessions ([sessions_ok]),
    whichever operations run. *)
From S2P Require Import Prelude MathExt Messages LowEntropy Metadata GoStd GoFloat GoNet Ascii Cipher SourceCache ServerUser.
From S2P Require Import Segment Underlay Congestion Session Lifecycle.

Definition segmentChanCapacity : Z := 256.

(** A segment on its way from the network: with the policy and the
    authentication that discovery gave it. *)
Record incoming := mkIncoming { in_segment : segment; in_policy : Policy; in_authentication : Authentication }.
Definition noPolicy : Policy := mkPolicy [] [].

Definition sessionIDOf (seg : incoming) : result Z :=
  match seg_metadata (in_segment seg) with
  | MSession ss => Ok (ss_sessionID ss)
  | MDataAck _ => Panic "interface conversion"
  end.

(** What one round of an event loop observes. *)
Record roundEnv := mkRoundEnv {
  pe_now : Z;               (* time.Now(), nanoseconds *)
  pe_tick : Z;              (* the tick of the source cache *)
  pe_order : list Z;        (* sessionMap.Range *)
  pe_pick : bool;           (* which ready case a select takes *)
  pe_jitterMs : Z;          (* randomHeartbeatJitter *)
  pe_close : Z → env        (* the environment in which a session is closed *)
}.
Definition unixOf (pe : roundEnv) : Z := Unix (pe_now pe).
Definition microOf (pe : roundEnv) : Z := pe_now pe / Microsecond.

(** How one round of [RunEventLoop] ends. *)
Inductive loopOutcome := Continue | Return (e : option error) | LoopPanic (msg : string).

Section sessions.
Context `{B : BTree} `{F : GoFloat}.

Record sessionEntry := mkEntry {
  e_session : Session;
  e_remoteAddr : option netAddr;
  e_userPolicy : option Policy;
  e_ready : bool;                   (* the channel [ready] is closed *)
  e_recvChan : list incoming
}.
#[export] Instance sessionEntry_eta : Settable sessionEntry := λ e,
  mkEntry (e_session e) (e_remoteAddr e) (e_userPolicy e) (e_ready e) (e_recvChan e).

Record baseUnderlay := mkBaseUnderlay {
  u_isClient : bool;
  u_mtu : Z;
  u_done : bool;
  sessionMap : gmap Z sessionEntry;
  readySessions : list Z;
  u_trafficPattern : option TrafficPattern;
  inBytes : Z;
  outBytes : Z
}.
#[export] Instance baseUnderlay_eta : Settable baseUnderlay := λ b,
  mkBaseUnderlay (u_isClient b) (u_mtu b) (u_done b) (sessionMap b) (readySessions b) (u_trafficPattern b) (inBytes b) (outBytes b).
Definition newBaseUnderlay (isClient : bool) (mtu : Z) (trafficPattern : option TrafficPattern) : baseUnderlay :=
  mkBaseUnderlay isClient mtu false ∅ [] trafficPattern 0 0.

(** [newSessionWithServerUserPolicy] without pending policies. *)
Definition newSessionWithServerUserPolicy (now id : Z) (isClient : bool) (mtu : Z) (policy : Policy)
    (trafficPattern : option TrafficPattern) (jitterMs : Z) : result sessionEntry :=
  s ← newSession now id isClient mtu trafficPattern jitterMs;
  Ok (mkEntry s None (if negb (len (policy_name policy) =? 0) then Some policy else None) false []).

(** [common.IsNilNetAddr], and [RemoteAddr] with that of the connection. *)
Definition IsNilNetAddr (a : option netAddr) : bool :=
  match a with None => true | Some (OtherAddr s) => len s =? 0 | Some (SpecAddr network s) => bool_decide (network = ""%string) && (len s =? 0) | Some _ => false end.
Definition NilNetAddr : netAddr := OtherAddr [].
Definition RemoteAddr (connRemote : netAddr) (en : sessionEntry) : netAddr :=
  if negb (IsNilNetAddr (e_remoteAddr en)) then default NilNetAddr (e_remoteAddr en) else connRemote.

(** [baseUnderlay.AddSession]; the metrics are left out. *)
Definition AddSession_base (en : sessionEntry) (remoteAddr : option netAddr) (b : baseUnderlay) : result baseUnderlay :=
  let s := e_session en in
  if id s =? 0 then Err (Errorf "session ID can't be 0") else
  if isStateAfter sessionAttached true s then Err (Errorf "session is already attached to a underlay") else
  if u_isClient b && negb (isClient s) then Err (Errorf "can't add a server session to a client underlay") else
  if negb (u_isClient b) && isClient s then Err (Errorf "can't add a client session to a server underlay") else
  match sessionMap b !! id s with
  | Some _ => Err ErrAlreadyExist
  | None => Ok (b<|sessionMap := <[id s := en<|e_remoteAddr := remoteAddr|>]> (sessionMap b)|>)
  end.
(** [AddSession] of the underlay with this transport; its two goroutines are
    the loops of Session.v. *)
Definition AddSession (transport : TransportProtocol) (en : sessionEntry) (remoteAddr : option netAddr) (b : baseUnderlay)
    : result baseUnderlay :=
  b ← AddSession_base en remoteAddr b;
  if e_ready en then Panic "close of closed channel" else
  Ok (b<|sessionMap := alter (λ en, en<|e_session := (attach transport (e_session en)).1.1|><|e_ready := true|>) (id (e_session en)) (sessionMap b)|>).

(** What comes out of closing a session. *)
Definition closed (e : env) (en : sessionEntry) : sessionEntry := en<|e_session := (Close e (e_session en)).1.1|>.

(** [RemoveSession]: the session goes on living, closed, outside of the map. *)
Definition RemoveSession (e : env) (en : sessionEntry) (b : baseUnderlay) : baseUnderlay * result sessionEntry :=
  if isStateBefore sessionAttached false (e_session en) then (b, Err (Errorf "session is not attached to this underlay")) else
  (b<|sessionMap := delete (id (e_session en)) (sessionMap b)|>, Ok (closed e en)).
Definition SessionCount (b : baseUnderlay) : Z := Z.of_nat (size (sessionMap b)).

(** [baseUnderlay.Close] closes every session; they stay in the map. *)
Definition Close_base (e : Z → env) (b : baseUnderlay) : baseUnderlay :=
  if u_done b then b else
  b<|sessionMap := map_imap (λ i en, Some (closed (e i) en)) (sessionMap b)|><|u_done := true|>.

Definition Accept (pick : bool) (b : baseUnderlay) : option (baseUnderlay * result Z) :=
  match readySessions b with
  | i :: rest => if negb (u_done b) || pick then Some (b<|readySessions := rest|>, Ok i) else Some (b, Err ErrClosedPipe)
  | [] => if u_done b then Some (b, Err ErrClosedPipe) else None
  end.

(** [deliverSegmentToSession]. *)
Definition deliverSegmentToSession (pick : bool) (i : Z) (seg : incoming) (b : baseUnderlay) : option (baseUnderlay * bool) :=
  match sessionMap b !! i with
  | None => Some (b, false)
  | Some en =>
    let room := len (e_recvChan en) <? segmentChanCapacity in
    let gone := closedChan (e_session en) || u_done b in
    if room && (negb gone || pick)
    then Some (b<|sessionMap := <[i := en<|e_recvChan := e_recvChan en ++ [seg]|>]> (sessionMap b)|>, true)
    else if gone then Some (b, false) else None
  end.

(** [u.readySessions <- session], or the underlay is done. *)
Definition makeReady (pick : bool) (i : Z) (b : baseUnderlay) : option (baseUnderlay * result unit) :=
  let room := len (readySessions b) <? sessionChanCapacity in
  if room && (negb (u_done b) || pick) then Some (b<|readySessions := readySessions b ++ [i]|>, Ok tt)
  else if u_done b then Some (b, Err ErrClosedPipe) else None.

(** The session takes the next segment from its channel, in its input loop. *)
Definition receive (e : env) (i : Z) (b : baseUnderlay) : option (baseUnderlay * (list event * result unit)) :=
  match sessionMap b !! i with
  | Some en =>
    match e_recvChan en with
    | seg :: rest =>
      let '(s, ev, r) := runInputOnce e (in_segment seg) (e_session en) in
      Some (b<|sessionMap := <[i := en<|e_recvChan := rest|><|e_session := s|>]> (sessionMap b)|>, (ev, r))
    | [] => None
    end
  | None => None
  end.

(** ** The invariant *)

(** A session in the map is under its own nonzero id, plays the role of the
    underlay, is attached with its transport, and has been announced as ready;
    its channel is within its capacity. *)
Record entry_ok (transport : TransportProtocol) (isClient_ : bool) (i : Z) (en : sessionEntry) : Prop := {
  eo_id : id (e_session en) = i;
  eo_nonzero : i ≠ 0;
  eo_role : isClient (e_session en) = isClient_;
  eo_attached : sessionAttached <= state (e_session en);
  eo_transport : transportProtocol (e_session en) = transport;
  eo_ready : e_ready en = true;
  eo_chan : len (e_recvChan en) <= segmentChanCapacity
}.
Definition sessions_ok (transport : TransportProtocol) (b : baseUnderlay) : Prop :=
  map_Forall (entry_ok transport (u_isClient b)) (sessionMap b) ∧ len (readySessions b) <= sessionChanCapacity.

Lemma frame_entry transport cl i en s' :
  frame (e_session en) s' → entry_ok transport cl i en → entry_ok transport cl i (en<|e_session := s'|>).
Proof.
  intros [] []. split; cbn; try congruence; try done. etrans; [|done]. done.
Qed.
Lemma closed_ok transport cl i e en : entry_ok transport cl i en → entry_ok transport cl i (closed e en).
Proof. apply frame_entry. apply frames_closeWithError. Qed.

Lemma isClient_eqb (a b : bool) : a && negb b = false → negb a && b = false → b = a.
Proof. by destruct a, b. Qed.

Lemma attach_fields t s :
  let s' := (attach t s).1.1 in
  id s' = id s ∧ isClient s' = isClient s ∧ transportProtocol s' = t ∧ sessionAttached <= state s' ∧ block s' = block s ∧
  closedChan s' = closedChan s ∧ mtu s' = mtu s ∧ trafficPattern s' = trafficPattern s.
Proof.
  assert ((attach t s).1.1 = if sessionAttached <=? state s then s<|transportProtocol := t|>
    else s<|transportProtocol := t|><|state := sessionAttached|>) as -> by reflexivity.
  destruct (Z.leb_spec sessionAttached (state s)) as [H|]; split_and!; first [reflexivity|exact H|exact (Z.le_refl sessionAttached)].
Qed.

Lemma AddSession_shape transport en addr b b' :
  AddSession transport en addr b = Ok b' →
  u_isClient b' = u_isClient b ∧
  ∃ en', sessionMap b' = <[id (e_session en) := en']> (sessionMap b) ∧ e_remoteAddr en' = addr ∧ e_userPolicy en' = e_userPolicy en ∧
    e_recvChan en' = e_recvChan en ∧ id (e_session en') = id (e_session en).
Proof.
  unfold AddSession, AddSession_base. destruct (_ =? 0); [done|]. destruct (isStateAfter _ _ _); [done|].
  destruct (u_isClient b && _); [done|]. destruct (negb (u_isClient b) && _); [done|].
  destruct (sessionMap b !! id (e_session en)) eqn:El; [done|]. rewrite bind_Ok. destruct (e_ready en); [done|]. intros [= <-].
  split; [done|]. eexists. split; [apply alter_insert_eq|].
  split_and!; [done|done|done|]. apply (attach_fields transport (e_session en)).
Qed.

Lemma AddSession_ok transport en addr b b' :
  sessions_ok transport b → len (e_recvChan en) <= segmentChanCapacity → AddSession transport en addr b = Ok b' →
  sessions_ok transport b' ∧ sessionMap b !! id (e_session en) = None ∧ id (e_session en) ≠ 0 ∧
  ∃ en', sessionMap b' = <[id (e_session en) := en']> (sessionMap b) ∧ e_remoteAddr en' = addr ∧ e_userPolicy en' = e_userPolicy en ∧
    e_recvChan en' = e_recvChan en ∧ e_session en' = (attach transport (e_session en)).1.1.
Proof.
  intros [Hm Hr] Hc. unfold AddSession, AddSession_base.
  destruct (Z.eqb_spec (id (e_session en)) 0); [done|]. destruct (isStateAfter _ _ _) eqn:Ea; [done|].
  destruct (u_isClient b && negb (isClient (e_session en))) eqn:E1; [done|]. destruct (negb (u_isClient b) && isClient (e_session en)) eqn:E2; [done|].
  destruct (sessionMap b !! id (e_session en)) eqn:El; [done|]. rewrite bind_Ok. destruct (e_ready en); [done|]. intros [= Eb].
  set (s' := (attach transport (e_session en)).1.1).
  set (en' := en<|e_remoteAddr := addr|><|e_session := s'|><|e_ready := true|>).
  assert (b' = b<|sessionMap := <[id (e_session en) := en']> (sessionMap b)|>) as ->.
  { assert (alter (λ en, en<|e_session := (attach transport (e_session en)).1.1|><|e_ready := true|>) (id (e_session en))
      (<[id (e_session en) := en<|e_remoteAddr := addr|>]> (sessionMap b)) = <[id (e_session en) := en']> (sessionMap b)) as <-
      by apply alter_insert_eq.
    by subst b'. }
  split; [split|split_and!; [done|done|by exists en']].
  - apply map_Forall_insert_2; [|exact Hm]. destruct (attach_fields transport (e_session en)) as (F1 & F2 & F3 & F4 & _).
    split; [exact F1|done| |exact F4|exact F3|done|done]. etrans; [exact F2|]. by apply isClient_eqb.
  - exact Hr.
Qed.

Lemma RemoveSession_ok transport e en b b' r :
  sessions_ok transport b → RemoveSession e en b = (b', r) → sessions_ok transport b' ∧ u_isClient b' = u_isClient b.
Proof.
  intros [Hm Hr]. unfold RemoveSession. destruct (isStateBefore _ _ _); intros [= <- _]; [done|].
  split; [|done]. split; [by apply map_Forall_delete|done].
Qed.

Lemma Close_base_ok transport e b : sessions_ok transport b → sessions_ok transport (Close_base e b).
Proof.
  intros [Hm Hr]. unfold Close_base. destruct (u_done b); [done|]. split; [|exact Hr].
  intros i en. cbn. rewrite map_lookup_imap. destruct (sessionMap b !! i) as [en0|] eqn:E; [|done]. intros [= <-].
  apply closed_ok. exact (Hm i en0 E).
Qed.

Lemma deliver_ok transport pick i seg b b' r :
  sessions_ok transport b → deliverSegmentToSession pick i seg b = Some (b', r) →
  sessions_ok transport b' ∧ u_isClient b' = u_isClient b ∧ dom (sessionMap b') = dom (sessionMap b).
Proof.
  intros [Hm Hr]. unfold deliverSegmentToSession. destruct (sessionMap b !! i) as [en|] eqn:E; [|by intros [= <- <-]].
  destruct (Z.ltb_spec (len (e_recvChan en)) segmentChanCapacity) as [Hc|]; [destruct (_ || pick)|]; cbn [andb].
  - intros [= <- <-]. split; [split; [|exact Hr]|split; [done|]].
    + apply map_Forall_insert_2; [|exact Hm]. destruct (Hm i en E). split; try done. cbn. rewrite len_app.
      change (len [seg]) with 1. lia.
    + cbn. rewrite dom_insert_L. apply elem_of_dom_2 in E. set_solver.
  - by case_match; intros [= <- <-].
  - by case_match; intros [= <- <-].
Qed.

Lemma makeReady_ok transport pick i b b' r :
  sessions_ok transport b → makeReady pick i b = Some (b', r) →
  sessions_ok transport b' ∧ u_isClient b' = u_isClient b ∧ sessionMap b' = sessionMap b.
Proof.
  intros [Hm Hr]. unfold makeReady. destruct (Z.ltb_spec (len (readySessions b)) sessionChanCapacity); [destruct (_ || pick)|]; cbn [andb].
  - intros [= <- <-]. split; [|done]. split; [done|]. cbn. rewrite len_app. change (len [i]) with 1. lia.
  - by case_match; intros [= <- <-].
  - by case_match; intros [= <- <-].
Qed.

Lemma receive_ok transport e i b b' r :
  sessions_ok transport b → receive e i b = Some (b', r) → sessions_ok transport b' ∧ u_isClient b' = u_isClient b.
Proof.
  intros [Hm Hr]. unfold receive. destruct (sessionMap b !! i) as [en|] eqn:E; [|done].
  destruct (e_recvChan en) as [|seg rest] eqn:Ec; [done|].
  destruct (runInputOnce e (in_segment seg) (e_session en)) as [[s ev] r'] eqn:Erun. intros [= <- _]. split; [|done]. split; [|exact Hr].
  apply map_Forall_insert_2; [|exact Hm]. apply frame_entry.
  - pose proof (frames_runInputOnce e (in_segment seg) (e_session en)) as Hf. by rewrite Erun in Hf.
  - destruct (Hm i en E) as [? ? ? ? ? ? Hc]. split; try done. rewrite Ec, len_cons in Hc. cbn. lia.
Qed.

(** ** New sessions *)

Lemma newSession_entry now i cl mtu pol tp j en :
  newSessionWithServerUserPolicy now i cl mtu pol tp j = Ok en →
  id (e_session en) = i ∧ e_recvChan en = [] ∧ e_userPolicy en = (if negb (len (policy_name pol) =? 0) then Some pol else None).
Proof.
  unfold newSessionWithServerUserPolicy, newSession. repeat (destruct (newSegmentTree _) as [?|?|?]; cbn [mbind result_bind]; [|done..]).
  destruct (NewCubicSendAlgorithm _ _) as [?|?|?]; cbn [mbind result_bind]; [|done..]. by intros [= <-].
Qed.
Lemma newSession_Ok now i mtu pol tp j :
  ∃ en, newSessionWithServerUserPolicy now i false mtu pol tp j = Ok en ∧
    id (e_session en) = i ∧ isClient (e_session en) = false ∧ state (e_session en) = sessionInit ∧ closedChan (e_session en) = false ∧
    e_ready en = false ∧ e_recvChan en = [] ∧ e_userPolicy en = (if negb (len (policy_name pol) =? 0) then Some pol else None).
Proof. eexists. split; [reflexivity|]. done. Qed.

(** A new server session in an underlay that runs and has room: it is added with
    its first segment, and is ready to be accepted. *)
Lemma session_opens transport pick now i mtu pol tp j addr seg b :
  u_isClient b = false → u_done b = false → i ≠ 0 → sessionMap b !! i = None → len (readySessions b) < sessionChanCapacity →
  ∃ en b1 b2 b3 en', newSessionWithServerUserPolicy now i false mtu pol tp j = Ok en ∧ AddSession transport en addr b = Ok b1 ∧
    deliverSegmentToSession pick i seg b1 = Some (b2, true) ∧ makeReady pick i b2 = Some (b3, Ok tt) ∧
    b3 = b<|sessionMap := <[i := en']> (sessionMap b)|><|readySessions := readySessions b ++ [i]|> ∧
    id (e_session en') = i ∧ e_remoteAddr en' = addr ∧ e_recvChan en' = [seg] ∧
    e_userPolicy en' = (if negb (len (policy_name pol) =? 0) then Some pol else None).
Proof.
  intros Hcl Hdone Hne Hnone Hroom. destruct (newSession_Ok now i mtu pol tp j) as (en & En & E1 & E2 & E3 & E4 & E5 & E6 & E7).
  set (en' := en<|e_remoteAddr := addr|><|e_session := (attach transport (e_session en)).1.1|><|e_ready := true|>).
  exists en, (b<|sessionMap := <[i := en']> (sessionMap b)|>), (b<|sessionMap := <[i := en'<|e_recvChan := [seg]|>]> (<[i := en']> (sessionMap b))|>).
  eexists _, (en'<|e_recvChan := [seg]|>). destruct (attach_fields transport (e_session en)) as (F1 & _ & _ & _ & _ & F2 & _).
  split; [exact En|]. split; [|split; [|split; [|split; [|split_and!; [etrans; [exact F1|exact E1]|done|done|exact E7]]]]].
  - unfold AddSession, AddSession_base, isStateAfter. rewrite E1, E2, E3, E5, Hcl, Hnone, (proj2 (Z.eqb_neq i 0) Hne). change (sessionInit >=? sessionAttached) with false.
    cbn [negb andb]. rewrite bind_Ok.
    assert (alter (λ en, en<|e_session := (attach transport (e_session en)).1.1|><|e_ready := true|>) i
      (<[i := en<|e_remoteAddr := addr|>]> (sessionMap b)) = <[i := en']> (sessionMap b)) as <- by apply alter_insert_eq.
    reflexivity.
  - unfold deliverSegmentToSession. change (sessionMap (_<|sessionMap := ?x|>)) with x. rewrite lookup_insert_eq.
    change (closedChan (e_session en')) with (closedChan (attach transport (e_session en)).1.1). rewrite F2, E4.
    change (u_done (_<|sessionMap := ?x|>)) with (u_done b). rewrite Hdone. change (e_recvChan en') with (e_recvChan en). rewrite E6. reflexivity.
  - unfold makeReady. change (readySessions (_<|sessionMap := ?x|>)) with (readySessions b). change (u_done (_<|sessionMap := ?x|>)) with (u_done b).
    destruct (Z.ltb_spec (len (readySessions b)) sessionChanCapacity); [|lia]. rewrite Hdone. reflexivity.
  - by rewrite insert_insert_eq.
Qed.
End sessions.
