(* ===== verification/PacketUnderlay.v ===== *)
(** * pkg/protocol/underlay_packet.go: the underlay over UDP

    [PacketUnderlay] with its sessions (SessionMap.v), the datagrams (Packet.v),
    the replay cache (Replay.v) and, at a server, the user discovery
    (ServerUser.v).  One step handles one event of the socket, or is one method
    call.  Go's sync.Map visits its keys in any order: [pe_order].  A cipher is a
    value here; its only mutable field (has the nonce pattern been applied) is
    kept where the writing session or client keeps the cipher.

    [packetReplayCache] is a variable of the package, shared by all underlays of
    the process.  It is not part of an underlay: reading takes it and gives it
    back.  A [process] is the cache with the underlays that use it, and
    [processRun] their interleavings, with the calls that the cache served.  The
    registry of users and the cipher caches are shared too; what other underlays
    do to them is the step [StepShared].

    Theorems: the sessions invariant holds at every reachable state; a server
    opens a session only for an authenticated open request, with the policy of
    the user whose key opened the datagram; a datagram that any underlay of the
    process has recorded is not accepted again from another address by any of
    them; a client takes datagrams from its
    server only; and a segment of one user that names the session of another
    user makes that session panic. *)
From S2P Require Import Prelude MathExt Messages LowEntropy Metadata GoStd GoFloat GoNet Ascii Cipher Rng Replay SourceCache ServerUser.
From S2P Require Import Segment Underlay Padding Packet Congestion Session Lifecycle SessionMap.

Definition idleSessionTimeout : Z := Minute.
(** The buffer of [ReadFrom]. *)
Definition readBufferSize : Z := 1500.

(** [isSamePacketAddr]. *)
Definition isSamePacketAddr (a b : netAddr) : bool :=
  match a, b with
  | UDPAddr None, UDPAddr None => true
  | UDPAddr None, UDPAddr (Some _) | UDPAddr (Some _), UDPAddr None => false
  | UDPAddr (Some a), UDPAddr (Some b) => (Port a =? Port b) && bool_decide (Zone a = Zone b) && IP_Equal (IP a) (IP b)
  | _, _ => bool_decide (addr_String a = addr_String b)
  end.

Inductive socketEvent := Received (d : list Z) (addr : netAddr) | TimedOut | Failed (e : error).
Inductive readOutcome :=
  | Dropped                              (* continue inside of readOneSegment *)
  | Nothing                              (* nil, nil, nil *)
  | Segment (seg : incoming) (addr : netAddr)
  | ReadError (e : error)
  | ReadPanic (msg : string).

Section underlay.
Context `{BT : BTree} `{F : GoFloat} `{C : Crypto}.
Variable maphash : list Z → Z.
Variable jitter : Z → Z.
Variable p : program.

Record PacketUnderlay := mkPacketUnderlay {
  base : baseUnderlay;
  serverAddr : netAddr;
  ublock : option aeadBlockCipher;
  serverUsers : option Registry;
  discovery : ServerUser.world;       (* the cipher caches of the registry's users *)
  fixedV : hintCache
}.
#[export] Instance PacketUnderlay_eta : Settable PacketUnderlay := λ u,
  mkPacketUnderlay (base u) (serverAddr u) (ublock u) (serverUsers u) (discovery u) (fixedV u).
Definition isClient_ (u : PacketUnderlay) : bool := u_isClient (base u).
Definition with_base (b : baseUnderlay) (u : PacketUnderlay) : PacketUnderlay := u<|base := b|>.
(** [u.RemoteAddr()] as the default for a session without an address. *)
Definition connRemote (u : PacketUnderlay) : netAddr := if isClient_ u then serverAddr u else NilNetAddr.

Definition PacketUnderlay_AddSession (en : sessionEntry) (remoteAddr : option netAddr) (u : PacketUnderlay) : result PacketUnderlay :=
  b ← AddSession PacketTransport en remoteAddr (base u);
  Ok (with_base b u).

(** ** Writing *)

(** The cipher of a segment: the client's, the segment's, or its session's. *)
Definition sendCipher (seg : segment) (u : PacketUnderlay) : result aeadBlockCipher :=
  if isClient_ u then
    match ublock u with Some c => Ok c | None => Panic "cipher block is not ready" end
  else
    match seg_block seg with
    | Some c => Ok c
    | None =>
      match sessionMap (base u) !! seg_SessionID seg with
      | None => Err (Errorf "session not found")
      | Some en =>
        match block (e_session en) with
        | Some c => Ok c
        | None => Err (Wrapf "cipher block is not ready, please try again later" ErrNotReady)
        end
      end
    end.
(** The cipher goes back to where it came from. *)
Definition storeCipher (seg : segment) (c : aeadBlockCipher) (u : PacketUnderlay) : segment * PacketUnderlay :=
  if isClient_ u then (seg, u<|ublock := Some c|>)
  else
    match seg_block seg with
    | Some _ => (seg<|seg_block := Some c|>, u)
    | None =>
      (seg, with_base ((base u)<|sessionMap := alter (λ en, en<|e_session := (e_session en)<|block := Some c|>|>) (seg_SessionID seg)
                                                 (sessionMap (base u))|>) u)
    end.

(** [writeOneSegment]: [sent] is the outcome of [WriteTo].  The datagram comes
    back with the segment, whose metadata is changed in place. *)
Definition writeOneSegment (d : sendDraws) (unix : Z) (sent : option error) (seg : segment) (addr : netAddr) (u : PacketUnderlay)
    : PacketUnderlay * segment * result (list Z) :=
  if isClient_ u && negb (bool_decide (addr_String addr = addr_String (serverAddr u)))
  then (u, seg, Err (Errorf "can't write to this address")) else
  match sendCipher seg u with
  | Err e => (u, seg, Err e)
  | Panic m => (u, seg, Panic m)
  | Ok c =>
    let '(s, r) := buildDatagram p d (u_mtu (base u)) (u_trafficPattern (base u)) unix (seg_payload seg)
                     (mkSending c (seg_metadata seg) (fixedV u)) in
    let '(seg, u) := storeCipher seg (w_block s) u in
    let u := u<|fixedV := w_fixedV s|> in
    let seg := seg<|seg_metadata := w_metadata s|> in
    match r with
    | Err e => (u, seg, Err e)
    | Panic m => (u, seg, Panic m)
    | Ok dg =>
      match sent with
      | Some e => (u, seg, Err (Wrapf "WriteTo() failed" e))
      | None => (with_base ((base u)<|outBytes := outBytes (base u) + len dg|>) u, seg, Ok dg)
      end
    end
  end.

(** ** Reading *)

(** The first session at this address whose cipher opens the metadata; the
    ciphers are stateless. *)
Fixpoint tryDecryptExistingSession (order : list Z) (encryptedMeta : list Z) (addr : netAddr) (u : PacketUnderlay)
    : option (list Z * aeadBlockCipher * Policy) :=
  match order with
  | [] => None
  | i :: order =>
    let next := tryDecryptExistingSession order encryptedMeta addr u in
    match sessionMap (base u) !! i with
    | None => next
    | Some en =>
      match block (e_session en) with
      | None => next
      | Some c =>
        if negb (isSamePacketAddr (RemoteAddr (connRemote u) en) addr) then next else
        match (Decrypt c encryptedMeta).2 with
        | Ok plaintext => Some (plaintext, c, default noPolicy (e_userPolicy en))
        | _ => next
        end
      end
    end
  end.

(** One attempt of discovery; the registry keeps the counters of its cache. *)
Definition serverTryDecryptMetadataForNewSession (pe : roundEnv) (encryptedMeta : list Z) (source : Source) (u : PacketUnderlay)
    : PacketUnderlay * result (aeadBlockCipher * list Z * Authentication) :=
  match serverUsers u with
  | None => (u, Err (Errorf "server user registry is nil"))
  | Some reg =>
    let '(w, s, r) := Discover maphash jitter 1 (λ _, r_users reg) (hintMandatory reg) (discovery u) encryptedMeta source false
                        (pe_now pe) (pe_tick pe) in
    let reg := match s with Some s => mkRegistry (Some s) (hintMandatory reg) | None => reg end in
    let u := u<|discovery := w|><|serverUsers := Some reg|> in
    match r with
    | Err e => (u, Err e)
    | Panic m => (u, Panic m)
    | Ok (c, plaintext, authentication) =>
      let c := match u_trafficPattern (base u) with Some tp => SetNoncePattern (Nonce tp) c | None => c end in
      (u, Ok (c, plaintext, authentication))
    end
  end.

(** From the decrypted metadata to the segment. *)
Definition acceptSegment (unix : Z) (b decryptedMeta : list Z) (blockCipher : option aeadBlockCipher) (matchedPolicy : Policy)
    (authentication : Authentication) (u : PacketUnderlay) : result (option incoming) :=
  match parsePacket unix (isClient_ u) (ublock u) b decryptedMeta blockCipher with
  | Err _ => Ok None
  | Panic m => Panic m
  | Ok seg =>
    let inc := match blockCipher with
               | Some c => mkIncoming (seg<|seg_block := Some c|>) matchedPolicy noAuthentication
               | None => mkIncoming seg noPolicy noAuthentication
               end in
    if negb (Valid authentication) then Ok (Some inc) else
    match validateServerSegmentDirection (in_segment inc) with
    | Err _ => Ok None
    | Panic m => Panic m
    | Ok _ =>
      if negb (seg_Protocol (in_segment inc) =? openSessionRequest) then Ok (Some inc) else
      match validateNewServerSessionSegment (in_segment inc) with
      | Err _ => Ok None
      | Panic m => Panic m
      | Ok _ => Ok (Some (mkIncoming (in_segment inc) (in_policy inc) authentication))
      end
    end
  end.

Definition outcome (addr : netAddr) (r : result (option incoming)) : readOutcome :=
  match r with
  | Ok None => Dropped
  | Ok (Some seg) => Segment seg addr
  | Err e => ReadError e
  | Panic m => ReadPanic m
  end.

(** One received datagram.  [packetReplayCache] is a variable of the package: all
    underlays of the process use it, so it comes in and goes out beside the
    state of the underlay. *)
Definition handlePacket (pe : roundEnv) (b : list Z) (addr : netAddr) (packetReplayCache : ReplayCache) (u : PacketUnderlay)
    : ReplayCache * (PacketUnderlay * readOutcome) :=
  if isClient_ u && negb (bool_decide (addr_String addr = addr_String (serverAddr u))) then (packetReplayCache, (u, Dropped)) else
  if len b <? packetNonHeaderPosition then (packetReplayCache, (u, Dropped)) else
  let u := with_base ((base u)<|inBytes := inBytes (base u) + len b|>) u in
  let encryptedMeta := slice_to packetNonHeaderPosition b in
  let '(packetReplayCache, isNewSessionReplay) :=
    IsDuplicate (pe_now pe) (slice_to DefaultOverhead encryptedMeta) (addr_String addr) packetReplayCache in
  (packetReplayCache,
   if isClient_ u then
     match ublock u with
     | None => (u, ReadPanic "nil pointer dereference")
     | Some c =>
       let '(c, r) := Decrypt c encryptedMeta in
       let u := u<|ublock := Some c|> in
       match r with
       | Err _ => (u, Dropped)
       | Panic m => (u, ReadPanic m)
       | Ok decryptedMeta => (u, outcome addr (acceptSegment (unixOf pe) b decryptedMeta None noPolicy noAuthentication u))
       end
     end
   else
     match tryDecryptExistingSession (pe_order pe) encryptedMeta addr u with
     | Some (decryptedMeta, c, policy) =>
       if isNewSessionReplay : bool then (u, Dropped)
       else (u, outcome addr (acceptSegment (unixOf pe) b decryptedMeta (Some c) policy noAuthentication u))
     | None =>
       let '(u, r) := serverTryDecryptMetadataForNewSession pe encryptedMeta (SourceFromAddr addr) u in
       match r with
       | Err _ => (u, Dropped)
       | Panic m => (u, ReadPanic m)
       | Ok (c, decryptedMeta, authentication) =>
         if isNewSessionReplay : bool then (u, Dropped)
         else (u, outcome addr (acceptSegment (unixOf pe) b decryptedMeta (Some c) (a_policy authentication) authentication u))
       end
     end).

Definition readStep (pe : roundEnv) (ev : socketEvent) (packetReplayCache : ReplayCache) (u : PacketUnderlay)
    : ReplayCache * (PacketUnderlay * readOutcome) :=
  if u_done (base u) then (packetReplayCache, (u, ReadError ErrClosedPipe)) else
  match ev with
  | TimedOut => (packetReplayCache, (u, Nothing))
  | Failed e => (packetReplayCache, (u, ReadError (Wrapf "ReadFrom() failed" e)))
  | Received d addr => handlePacket pe (slice_to readBufferSize d) addr packetReplayCache u
  end.
(** [readOneSegment] over the socket's next events; None when they are used up. *)
Fixpoint readOneSegment (evs : list (roundEnv * socketEvent)) (packetReplayCache : ReplayCache) (u : PacketUnderlay)
    : ReplayCache * (PacketUnderlay * list (roundEnv * socketEvent) * option readOutcome) :=
  match evs with
  | [] => (packetReplayCache, (u, [], None))
  | (pe, ev) :: evs =>
    match readStep pe ev packetReplayCache u with
    | (packetReplayCache, (u, Dropped)) => readOneSegment evs packetReplayCache u
    | (packetReplayCache, (u, o)) => (packetReplayCache, (u, evs, Some o))
    end
  end.

(** ** The event loop *)

(** A handler's new state and error; None while it blocks. *)
Definition handled : Type := option (PacketUnderlay * result unit).

(** [commitServerUserAuthentication]. *)
Definition commitServerUserAuthentication (pe : roundEnv) (seg : incoming) (u : PacketUnderlay) : PacketUnderlay * result unit :=
  if negb (Valid (in_authentication seg)) then (u, Ok tt) else
  match serverUsers u with
  | None => (u, Ok tt)
  | Some reg =>
    match Record_ maphash (pe_tick pe) (in_authentication seg) reg with
    | Ok (_, reg) => (u<|serverUsers := Some reg|>, Ok tt)
    | Err e => (u, Err e)
    | Panic m => (u, Panic m)
    end
  end.

Definition onOpenSessionRequest (pe : roundEnv) (seg : incoming) (remoteAddr : netAddr) (u : PacketUnderlay) : handled :=
  if isClient_ u then Some (u, Err ErrInvalidOperation) else
  match sessionIDOf seg with
  | Err e => Some (u, Err e)
  | Panic m => Some (u, Panic m)
  | Ok sessionID =>
    if sessionID =? 0 then Some (u, Err (Errorf "reserved session ID is used")) else
    match sessionMap (base u) !! sessionID with
    | Some _ => Some (u, Ok tt)
    | None =>
      match (en ← newSessionWithServerUserPolicy (microOf pe) sessionID false (u_mtu (base u)) (in_policy seg) (u_trafficPattern (base u))
                    (pe_jitterMs pe);
             PacketUnderlay_AddSession en (Some remoteAddr) u) with
      | Err e => Some (u, Err e)
      | Panic m => Some (u, Panic m)
      | Ok u =>
        match deliverSegmentToSession (pe_pick pe) sessionID seg (base u) with
        | None => None
        | Some (b, false) => Some (with_base b u, Err (Errorf "failed to deliver open session request"))
        | Some (b, true) =>
          match makeReady (pe_pick pe) sessionID b with
          | None => None
          | Some (b, Err e) => Some (with_base b u, Err e)
          | Some (b, Panic m) => Some (with_base b u, Panic m)
          | Some (b, Ok _) => Some (commitServerUserAuthentication pe seg (with_base b u))
          end
        end
      end
    end
  end.

Definition deliverTo (pe : roundEnv) (i : Z) (seg : incoming) (u : PacketUnderlay) : handled :=
  match deliverSegmentToSession (pe_pick pe) i seg (base u) with
  | None => None
  | Some (b, _) => Some (with_base b u, Ok tt)
  end.
Definition onOpenSessionResponse (pe : roundEnv) (seg : incoming) (u : PacketUnderlay) : handled :=
  if negb (isClient_ u) then Some (u, Err ErrInvalidOperation) else
  match sessionIDOf seg with
  | Err e => Some (u, Err e)
  | Panic m => Some (u, Panic m)
  | Ok sessionID =>
    match sessionMap (base u) !! sessionID with
    | None => Some (u, Err (Errorf "session ID is not found"))
    | Some _ => deliverTo pe sessionID seg u
    end
  end.
Definition onCloseSession (pe : roundEnv) (seg : incoming) (u : PacketUnderlay) : handled :=
  match sessionIDOf seg with
  | Err e => Some (u, Err e)
  | Panic m => Some (u, Panic m)
  | Ok sessionID =>
    match sessionMap (base u) !! sessionID with
    | None => Some (u, Ok tt)
    | Some _ => deliverTo pe sessionID seg u
    end
  end.

(** The request to close a session that is not here. *)
Definition closeReq (das : dataAckStruct) (blk : option aeadBlockCipher) : segment :=
  mkSegment (MSession (mkSession (mkBase closeSessionRequest 0) (das_sessionID das) (das_unAckSeq das) 0 0 0)) [] PacketTransport 0 0 0 0 blk.

(** An error of a session handler drops the segment. *)
Definition dropError (h : handled) : option (PacketUnderlay * loopOutcome) :=
  match h with
  | None => None
  | Some (u, Panic m) => Some (u, LoopPanic m)
  | Some (u, _) => Some (u, Continue)
  end.

(** What [RunEventLoop] does with a segment: the new state, the datagrams it
    writes, and how it goes on. *)
Definition dispatch (pe : roundEnv) (d : sendDraws) (sent : option error) (seg : incoming) (addr : netAddr) (u : PacketUnderlay)
    : option (PacketUnderlay * list (list Z) * loopOutcome) :=
  let quiet h := (λ '(u, o), (u, [], o)) <$> dropError h in
  let m := seg_metadata (in_segment seg) in
  let protocol := Protocol m in
  if isSessionProtocol protocol then
    if protocol =? openSessionRequest then quiet (onOpenSessionRequest pe seg addr u)
    else if protocol =? openSessionResponse then quiet (onOpenSessionResponse pe seg u)
    else quiet (onCloseSession pe seg u)
  else
    match toDataAckStruct m with
    | Err e => Some (u, [], Return (Some e))
    | Panic msg => Some (u, [], LoopPanic msg)
    | Ok None => Some (u, [], Continue)
    | Ok (Some das) =>
      match sessionMap (base u) !! das_sessionID das with
      | Some _ => quiet (deliverTo pe (das_sessionID das) seg u)
      | None =>
        if isClient_ u || bool_decide (is_Some (seg_block (in_segment seg))) then
          match writeOneSegment d (unixOf pe) sent (closeReq das (seg_block (in_segment seg))) addr u with
          | (u, _, Ok dg) => Some (u, [dg], Continue)
          | (u, _, Err e) => Some (u, [], Return (Some (Wrapf "writeOneSegment() failed" e)))
          | (u, _, Panic m) => Some (u, [], LoopPanic m)
          end
        else Some (u, [], Continue)
      end
    end.

(** [cleanSessions]: closed sessions are removed, and so are idle ones. *)
Definition cleanSession (pe : roundEnv) (b : baseUnderlay) (i : Z) : baseUnderlay :=
  match sessionMap b !! i with
  | None => b
  | Some en =>
    let '(b, en) := if closedChan (e_session en)
                    then match RemoveSession (pe_close pe i) en b with (b, Ok en) => (b, en) | (b, _) => (b, en) end
                    else (b, en) in
    if microOf pe - lastRXTime (e_session en) >? idleSessionTimeout `quot` Microsecond
    then (RemoveSession (pe_close pe i) en b).1 else b
  end.
Definition cleanSessions (pe : roundEnv) (u : PacketUnderlay) : PacketUnderlay := with_base (foldl (cleanSession pe) (base u) (pe_order pe)) u.

(** One round of the loop; [tick]: the cleaning ticker has fired, [cancelled]:
    the context is done.  When both can be selected, [pe_pick] chooses. *)
Definition loopRound (cancelled tick : bool) (pe : roundEnv) (d : sendDraws) (sent : option error) (ev : socketEvent)
    (packetReplayCache : ReplayCache) (u : PacketUnderlay)
    : ReplayCache * option (PacketUnderlay * list (list Z) * loopOutcome) :=
  if (cancelled || u_done (base u)) && (negb tick || pe_pick pe)
  then (packetReplayCache, Some (cleanSessions pe u, [], Return None)) else
  let u := if tick then cleanSessions pe u else u in
  let '(packetReplayCache, r) := readStep pe ev packetReplayCache u in
  (packetReplayCache,
   match r with
   | (u, Segment seg addr) => dispatch pe d sent seg addr u
   | (u, ReadError e) =>
     if u_done (base u) then Some (cleanSessions pe u, [], Return None)
     else Some (u, [], Return (Some (Wrapf "readOneSegment() failed" e)))
   | (u, ReadPanic m) => Some (u, [], LoopPanic m)
   | (u, _) => Some (u, [], Continue)
   end).

(** [Close]. *)
Definition PacketUnderlay_Close (e : Z → env) (u : PacketUnderlay) : PacketUnderlay := with_base (Close_base e (base u)) u.
End underlay.

(** ** The invariant of the sessions *)

Section invariant.
Context `{BT : BTree} `{F : GoFloat} `{C : Crypto}.

(** [u'] has the role of [u], and keeps the invariant of the sessions; no
    session is added. *)
Record keeps (u u' : PacketUnderlay) : Prop := {
  k_role : isClient_ u' = isClient_ u;
  k_ok : sessions_ok PacketTransport (base u) → sessions_ok PacketTransport (base u');
  k_dom : dom (sessionMap (base u')) ⊆ dom (sessionMap (base u))
}.
#[global] Instance keeps_refl : Reflexive keeps.
Proof using. by split. Qed.
#[global] Instance keeps_trans : Transitive keeps.
Proof using. intros u1 u2 u3 [] []. split; [congruence|auto|set_solver]. Qed.
Lemma keeps_base u u' : base u' = base u → keeps u u'.
Proof using. intros E. split; unfold isClient_; by rewrite E. Qed.
Lemma keeps_with_base b u :
  u_isClient b = u_isClient (base u) → (sessions_ok PacketTransport (base u) → sessions_ok PacketTransport b) →
  dom (sessionMap b) ⊆ dom (sessionMap (base u)) → keeps u (with_base b u).
Proof using. by split. Qed.

Lemma storeCipher_keeps seg c u : keeps u (storeCipher seg c u).2.
Proof using.
  unfold storeCipher. destruct (isClient_ u); [by apply keeps_base|]. destruct (seg_block seg); [by apply keeps_base|].
  apply keeps_with_base; [done| |cbn; by rewrite dom_alter_L]. intros [Hm Hr]. split; [|exact Hr].
  intros i en. cbn. rewrite lookup_alter_Some. intros [(<- & en0 & E & ->)|[_ E]]; [|by apply Hm].
  apply frame_entry; [by split|by apply Hm].
Qed.

Lemma deliverTo_keeps pe i seg u u' r : deliverTo pe i seg u = Some (u', r) → keeps u u'.
Proof using.
  unfold deliverTo. destruct (deliverSegmentToSession _ _ _ _) as [[b x]|] eqn:E; [|done]. intros [= <- _].
  assert (sessions_ok PacketTransport (base u) → u_isClient b = u_isClient (base u) ∧ dom (sessionMap b) = dom (sessionMap (base u)) ∧ sessions_ok PacketTransport b) as H.
  { intros Hok. destruct (deliver_ok _ _ _ _ _ _ _ Hok E) as (? & ? & ?). done. }
  unfold deliverSegmentToSession in E. destruct (sessionMap (base u) !! i) as [en|] eqn:El; [|injection E as <- <-; by apply keeps_with_base].
  assert (u_isClient b = u_isClient (base u) ∧ dom (sessionMap b) = dom (sessionMap (base u))) as [E1 E2].
  { repeat case_match; simplify_eq; split; try done. cbn. rewrite dom_insert_L. apply elem_of_dom_2 in El. set_solver. }
  apply keeps_with_base; [done| |by rewrite E2]. intros Hok. by apply H.
Qed.

Lemma RemoveSession_keeps e en b : ∀ b' r, RemoveSession e en b = (b', r) →
  u_isClient b' = u_isClient b ∧ (sessions_ok PacketTransport b → sessions_ok PacketTransport b') ∧ dom (sessionMap b') ⊆ dom (sessionMap b).
Proof using.
  intros b' r E. split_and!.
  - revert E. unfold RemoveSession. case_match; by intros [= <- _].
  - intros Hok. by eapply RemoveSession_ok.
  - revert E. unfold RemoveSession. case_match; intros [= <- _]; [done|]. cbn. rewrite dom_delete_L. set_solver.
Qed.
Lemma cleanSession_keeps pe b i :
  let b' := cleanSession pe b i in
  u_isClient b' = u_isClient b ∧ (sessions_ok PacketTransport b → sessions_ok PacketTransport b') ∧ dom (sessionMap b') ⊆ dom (sessionMap b).
Proof using.
  unfold cleanSession. destruct (sessionMap b !! i) as [en|] eqn:El; [|done].
  set (first := if closedChan (e_session en) then _ else _).
  assert (∀ b1 en1, first = (b1, en1) → u_isClient b1 = u_isClient b ∧ (sessions_ok PacketTransport b → sessions_ok PacketTransport b1) ∧
    dom (sessionMap b1) ⊆ dom (sessionMap b)) as H1.
  { intros b1 en1. unfold first. destruct (closedChan _); [|by intros [= <- _]].
    destruct (RemoveSession _ _ _) as [b2 r2] eqn:E2. apply RemoveSession_keeps in E2. destruct r2; by intros [= <- _]. }
  destruct first as [b1 en1]. specialize (H1 _ _ eq_refl) as (R1 & O1 & D1). case_match; [|done].
  destruct (RemoveSession _ _ b1) as [b2 r2] eqn:E2. apply RemoveSession_keeps in E2 as (R2 & O2 & D2). cbn.
  split_and!; [congruence|auto|set_solver].
Qed.
Lemma cleanSessions_keeps pe u : keeps u (cleanSessions pe u).
Proof using.
  unfold cleanSessions. set (order := pe_order pe). assert (∀ b, let b' := foldl (cleanSession pe) b order in
    u_isClient b' = u_isClient b ∧ (sessions_ok PacketTransport b → sessions_ok PacketTransport b') ∧ dom (sessionMap b') ⊆ dom (sessionMap b)) as H.
  { induction order as [|i order IH]; intros b; [done|]. cbn [foldl]. destruct (cleanSession_keeps pe b i) as (R1 & O1 & D1).
    destruct (IH (cleanSession pe b i)) as (R2 & O2 & D2). split_and!; [congruence|auto|set_solver]. }
  destruct (H (base u)) as (? & ? & ?). by apply keeps_with_base.
Qed.
Context (maphash : list Z → Z) (jitter : Z → Z) (p : program).

Lemma writeOneSegment_keeps d unix sent seg addr u u' seg' r :
  writeOneSegment p d unix sent seg addr u = (u', seg', r) → keeps u u'.
Proof using.
  unfold writeOneSegment. destruct (_ && _); [by intros [= <- _ _]|]. destruct (sendCipher seg u) as [c|e|m]; [|by intros [= <- _ _]..].
  destruct (buildDatagram _ _ _ _ _ _ _) as [s r']. pose proof (storeCipher_keeps seg (w_block s) u) as Hk.
  destruct (storeCipher seg (w_block s) u) as [seg1 u1]. cbn [snd] in Hk.
  assert (keeps u (u1<|fixedV := w_fixedV s|>)) as Hk' by (etrans; [exact Hk|by apply keeps_base]).
  destruct r' as [dg|e|m]; [destruct sent|..]; intros [= <- _ _]; [exact Hk'| |exact Hk'..].
  etrans; [exact Hk'|]. by apply keeps_with_base.
Qed.

Lemma serverTry_keeps pe em source u : keeps u (serverTryDecryptMetadataForNewSession maphash jitter pe em source u).1.
Proof using.
  unfold serverTryDecryptMetadataForNewSession. destruct (serverUsers u) as [reg|]; [|done].
  destruct (Discover _ _ _ _ _ _ _ _ _ _ _) as [[w s] [[[c pt] a]|e|m]]; by apply keeps_base.
Qed.

Lemma handlePacket_keeps pe b addr g u : keeps u (handlePacket maphash jitter pe b addr g u).2.1.
Proof using.
  unfold handlePacket. destruct (_ && _); [done|]. destruct (_ <? _); [done|].
  destruct (IsDuplicate _ _ _ _) as [cache dup]. set (u2 := with_base _ u). cbn [snd].
  assert (keeps u u2) as H2 by (by apply keeps_with_base). clearbody u2.
  destruct (isClient_ u2) eqn:Ecl.
  - destruct (ublock u2) as [c|]; [|exact H2]. destruct (Decrypt _ _) as [c' [pt|e|m]]; (etrans; [exact H2|by apply keeps_base]).
  - destruct (tryDecryptExistingSession _ _ _ _) as [[[pt c] pol]|].
    + by destruct dup.
    + pose proof (serverTry_keeps pe (slice_to packetNonHeaderPosition b) (SourceFromAddr addr) u2) as H3.
      destruct (serverTryDecryptMetadataForNewSession _ _ _ _ _ _) as [u3 [[[c pt] a]|e|m]]; cbn [fst] in H3; [destruct dup|..];
        (etrans; [exact H2|exact H3]).
Qed.
Lemma readStep_keeps pe ev g u : keeps u (readStep maphash jitter pe ev g u).2.1.
Proof using.
  unfold readStep. destruct (u_done (base u)); [done|]. destruct ev; [apply handlePacket_keeps|done..].
Qed.


(** A session was opened for [seg], and nothing else happened to the map. *)
Record opened (i : Z) (seg : incoming) (addr : netAddr) (u u' : PacketUnderlay) : Prop := {
  op_server : isClient_ u = false;
  op_role : isClient_ u' = isClient_ u;
  op_ok : sessions_ok PacketTransport (base u) → sessions_ok PacketTransport (base u');
  op_id : sessionIDOf seg = Ok i ∧ i ≠ 0;
  op_new : sessionMap (base u) !! i = None;
  op_entry : ∃ en, sessionMap (base u') = <[i := en]> (sessionMap (base u)) ∧ id (e_session en) = i ∧ e_remoteAddr en = Some addr ∧
      e_userPolicy en = (if negb (len (policy_name (in_policy seg)) =? 0) then Some (in_policy seg) else None) ∧
      (e_recvChan en = [] ∨ e_recvChan en = [seg])
}.
Lemma commit_base pe seg u : base (commitServerUserAuthentication maphash pe seg u).1 = base u.
Proof using.
  unfold commitServerUserAuthentication. destruct (negb _); [done|]. destruct (serverUsers u) as [reg|]; [|done].
  by destruct (Record_ _ _ _ _) as [[a r]|e|m].
Qed.

Lemma onOpen_spec pe seg addr u u' r :
  onOpenSessionRequest maphash pe seg addr u = Some (u', r) → keeps u u' ∨ ∃ i, opened i seg addr u u'.
Proof using.
  unfold onOpenSessionRequest. destruct (isClient_ u) eqn:Ecl; [intros [= <- _]; by left|].
  destruct (sessionIDOf seg) as [i|e|m] eqn:Ei; [|intros [= <- _]; by left..].
  destruct (Z.eqb_spec i 0) as [->|Hi]; [intros [= <- _]; by left|].
  destruct (sessionMap (base u) !! i) eqn:El; [intros [= <- _]; by left|].
  destruct (newSessionWithServerUserPolicy _ _ _ _ _ _ _) as [en|e|m] eqn:En; cbn [mbind result_bind]; [|intros [= <- _]; by left..].
  apply newSession_entry in En as (Hid & Hch & Hpol).
  unfold PacketUnderlay_AddSession. destruct (AddSession PacketTransport en (Some addr) (base u)) as [b1|e|m] eqn:Ea; cbn [mbind result_bind];
    [|intros [= <- _]; by left..].
  assert (sessions_ok PacketTransport (base u) → sessions_ok PacketTransport b1) as Hok1.
  { intros Hok. eapply AddSession_ok; [exact Hok| |exact Ea]. rewrite Hch. done. }
  assert (u_isClient b1 = u_isClient (base u) ∧ ∃ en', sessionMap b1 = <[i := en']> (sessionMap (base u)) ∧ id (e_session en') = i ∧
    e_remoteAddr en' = Some addr ∧ e_userPolicy en' = e_userPolicy en ∧ e_recvChan en' = []) as (Hr1 & en' & Hm1 & Hid' & Ha' & Hp' & Hc').
  { apply AddSession_shape in Ea as (Hr & en' & Hm & H1 & H2 & H3 & H4). split; [done|]. rewrite Hid in Hm, H4. exists en'. by rewrite H3, Hch. }
  intros H. right. exists i.
  assert ((sessions_ok PacketTransport b1 → sessions_ok PacketTransport (base u')) ∧ u_isClient (base u') = u_isClient b1 ∧
    ∃ en'', sessionMap (base u') = <[i := en'']> (sessionMap (base u)) ∧ e_session en'' = e_session en' ∧
      e_remoteAddr en'' = Some addr ∧ e_userPolicy en'' = e_userPolicy en ∧ (e_recvChan en'' = [] ∨ e_recvChan en'' = [seg])) as (HO & HR & en'' & HM & HS & HA & HP & HC).
  { assert (base (with_base b1 u) = b1) as Eb1 by done. rewrite Eb1 in H.
    destruct (deliverSegmentToSession (pe_pick pe) i seg b1) as [[b2 x]|] eqn:Ed; [|done].
    assert (sessions_ok PacketTransport b1 → sessions_ok PacketTransport b2) as HO2 by (intros Hok; by eapply deliver_ok).
    assert (u_isClient b2 = u_isClient b1 ∧ ∃ en'', sessionMap b2 = <[i := en'']> (sessionMap (base u)) ∧ e_session en'' = e_session en' ∧
      e_remoteAddr en'' = Some addr ∧ e_userPolicy en'' = e_userPolicy en ∧ (e_recvChan en'' = [] ∨ e_recvChan en'' = [seg])) as (HR2 & en'' & HM2 & HE2).
    { unfold deliverSegmentToSession in Ed. rewrite Hm1, lookup_insert_eq in Ed. destruct (_ && _); [|destruct (_ || _); [|done]]; injection Ed as <- _.
      - split; [done|]. eexists. cbn. rewrite insert_insert_eq. split; [reflexivity|]. cbn. rewrite Hc'. split_and!; try done. by right.
      - split; [done|]. exists en'. split_and!; try done. by left. }
    destruct x.
    - destruct (makeReady (pe_pick pe) i b2) as [[b3 r3]|] eqn:Er; [|done].
      assert (sessions_ok PacketTransport b2 → sessions_ok PacketTransport b3) as HO3 by (intros Hok; by eapply makeReady_ok).
      assert (u_isClient b3 = u_isClient b2 ∧ sessionMap b3 = sessionMap b2) as [HR3 HM3].
      { unfold makeReady in Er. repeat case_match; by simplify_eq. }
      assert (base u' = b3) as Eb.
      { destruct r3 as [[]|e|m]; injection H as H; [|by rewrite <-H..].
        pose proof (commit_base pe seg (with_base b3 (with_base b1 u))) as Hcb. rewrite H in Hcb. exact Hcb. }
      rewrite Eb. split_and!; [auto|congruence|exists en''; rewrite HM3; done].
    - injection H as H _. subst u'. split_and!; [auto|done|by exists en'']. }
  split; [done|unfold isClient_; congruence|auto|done|done|]. exists en''. rewrite HS, HP. done.
Qed.

Lemma onOpenResponse_keeps pe seg u u' r : onOpenSessionResponse pe seg u = Some (u', r) → keeps u u'.
Proof using.
  unfold onOpenSessionResponse. destruct (negb _); [by intros [= <- _]|]. destruct (sessionIDOf seg) as [i|e|m]; [|by intros [= <- _]..].
  destruct (sessionMap (base u) !! i); [|by intros [= <- _]]. apply deliverTo_keeps.
Qed.
Lemma onClose_keeps pe seg u u' r : onCloseSession pe seg u = Some (u', r) → keeps u u'.
Proof using.
  unfold onCloseSession. destruct (sessionIDOf seg) as [i|e|m]; [|by intros [= <- _]..].
  destruct (sessionMap (base u) !! i); [|by intros [= <- _]]. apply deliverTo_keeps.
Qed.
Lemma dropError_state h u' o : dropError h = Some (u', o) → ∃ r, h = Some (u', r).
Proof using. unfold dropError. destruct h as [[u [[]|e|m]]|]; intros H; simplify_eq; eauto. Qed.

(** A segment opens its session, or no session is added. *)
Lemma dispatch_spec pe d sent seg addr u u' out o :
  dispatch maphash p pe d sent seg addr u = Some (u', out, o) →
  keeps u u' ∨ Protocol (seg_metadata (in_segment seg)) = openSessionRequest ∧ ∃ i, opened i seg addr u u'.
Proof using.
  unfold dispatch. set (m := seg_metadata (in_segment seg)).
  assert (∀ h, (λ '(u, o), (u, [], o)) <$> dropError h = Some (u', out, o) → ∃ r, h = Some (u', r)) as Hq.
  { intros h. destruct (dropError h) as [[u1 o1]|] eqn:E; [|done]. intros [= <- _ _]. by eapply dropError_state. }
  destruct (isSessionProtocol (Protocol m)).
  - destruct (Z.eqb_spec (Protocol m) openSessionRequest) as [Ep|].
    { intros [r H]%Hq. apply onOpen_spec in H as [|]; [by left|by right]. }
    destruct (_ =? _); intros [r H]%Hq; left; [by eapply onOpenResponse_keeps|by eapply onClose_keeps].
  - intros H. left. destruct (toDataAckStruct m) as [[das|]|e|msg]; [|by injection H as <- _ _..].
    destruct (sessionMap (base u) !! das_sessionID das).
    + apply Hq in H as [r H]. by eapply deliverTo_keeps.
    + destruct (isClient_ u || _); [|by injection H as <- _ _].
      destruct (writeOneSegment _ _ _ _ _ _ _) as [[u1 seg1] [dg|e|msg]] eqn:Ew; injection H as <- _ _; by eapply writeOneSegment_keeps.
Qed.

Lemma loopRound_spec cancelled tick pe d sent ev g u u' out o :
  (loopRound maphash jitter p cancelled tick pe d sent ev g u).2 = Some (u', out, o) →
  keeps u u' ∨
  ∃ u0 u1 seg addr i, u0 = (if tick then cleanSessions pe u else u) ∧ (readStep maphash jitter pe ev g u0).2 = (u1, Segment seg addr) ∧
    Protocol (seg_metadata (in_segment seg)) = openSessionRequest ∧ opened i seg addr u1 u'.
Proof using.
  unfold loopRound. destruct (_ && _); [intros [= <- _ _]; left; apply cleanSessions_keeps|].
  set (u0 := if tick then cleanSessions pe u else u).
  assert (keeps u u0) as H0 by (unfold u0; destruct tick; [apply cleanSessions_keeps|done]).
  pose proof (readStep_keeps pe ev g u0) as H1. destruct (readStep maphash jitter pe ev g u0) as [g1 [u1 r1]] eqn:Er. cbn [fst snd] in *.
  assert (keeps u u1) as H01 by (transitivity u0; done).
  destruct r1 as [| |seg addr|e|m]; intros H.
  1,2,5: left; by injection H as <- _ _.
  - apply dispatch_spec in H as [H|(Hp & i & H)]; [left; by transitivity u1|right; exists u0, u1, seg, addr, i; by rewrite Er].
  - left. destruct (u_done _); injection H as <- _ _; [|done]. transitivity u1; [done|apply cleanSessions_keeps].
Qed.
End invariant.

(** ** What a server accepts *)

Section server.
Context `{BT : BTree} `{FL : GoFloatLaws} `{CL : CryptoLaws}.
Context (maphash : list Z → Z) (jitter : Z → Z) (gen : Z → option (list user)) (p : program).

Definition server_ok (u : PacketUnderlay) : Prop :=
  world_wf gen (discovery u) ∧ ∀ reg, serverUsers u = Some reg → registry_ok gen maphash reg.

Definition header (b : list Z) : list Z := slice_to packetNonHeaderPosition b.
(** The replay cache's call for a datagram. *)
Definition packetCall (pe : roundEnv) (b : list Z) (addr : netAddr) : call :=
  mkCall (pe_now pe) (slice_to DefaultOverhead (header b)) (addr_String addr).

(** A session of the same peer has the cipher that opens the metadata. *)
Definition openedBySession (b : list Z) (addr : netAddr) (u : PacketUnderlay) (seg : incoming) (c : aeadBlockCipher) (meta : list Z) : Prop :=
  ∃ i en, sessionMap (base u) !! i = Some en ∧ block (e_session en) = Some c ∧
    isSamePacketAddr (RemoteAddr (connRemote u) en) addr = true ∧ (Decrypt c (header b)).2 = Ok meta ∧
    in_policy seg = default noPolicy (e_userPolicy en) ∧ in_authentication seg = noAuthentication.
(** A registered user has a key that opens the metadata. *)
Definition openedByUser (pe : roundEnv) (b : list Z) (addr : netAddr) (u : PacketUnderlay) (seg : incoming) (c : aeadBlockCipher) (meta : list Z) : Prop :=
  ∃ reg c0 a, serverUsers u = Some reg ∧ discoveredBy reg (header b) (SourceFromAddr addr) (pe_now pe) c0 meta a ∧
    c = match u_trafficPattern (base u) with Some tp => SetNoncePattern (Nonce tp) c0 | None => c0 end ∧
    in_policy seg = a_policy a ∧ (in_authentication seg = a ∨ in_authentication seg = noAuthentication).

Record accepted (pe : roundEnv) (b : list Z) (addr : netAddr) (g : ReplayCache) (u : PacketUnderlay) (seg : incoming) : Prop := {
  ac_len : packetNonHeaderPosition <= len b;
  ac_fresh : (IsDuplicate (pe_now pe) (content (packetCall pe b addr)) (addr_String addr) g).2 = false;
  ac_opened : ∃ c meta seg0, parsePacket (unixOf pe) false (ublock u) b meta (Some c) = Ok seg0 ∧
    in_segment seg = seg0<|seg_block := Some c|> ∧ (openedBySession b addr u seg c meta ∨ openedByUser pe b addr u seg c meta)
}.

Lemma tryExisting_spec order em addr (u : PacketUnderlay) pt c pol :
  tryDecryptExistingSession order em addr u = Some (pt, c, pol) →
  ∃ i en, sessionMap (base u) !! i = Some en ∧ block (e_session en) = Some c ∧
    isSamePacketAddr (RemoteAddr (connRemote u) en) addr = true ∧ (Decrypt c em).2 = Ok pt ∧ pol = default noPolicy (e_userPolicy en).
Proof using.
  induction order as [|i order IH]; [done|]. cbn [tryDecryptExistingSession]. cbv zeta.
  destruct (sessionMap (base u) !! i) as [en|] eqn:Ei; [|exact IH].
  destruct (block (e_session en)) as [c'|] eqn:Ec; [|exact IH].
  destruct (isSamePacketAddr _ _) eqn:Ea; [|exact IH]. cbn [negb].
  destruct ((Decrypt c' em).2) as [pt'|e|m] eqn:Ed; [|exact IH..]. intros [= <- <- <-]. by exists i, en.
Qed.

(** Accepting adds the cipher, the policy and the authentication. *)
Lemma acceptSegment_spec unix b meta c pol a u seg :
  acceptSegment unix b meta (Some c) pol a u = Ok (Some seg) →
  ∃ seg0, parsePacket unix (isClient_ u) (ublock u) b meta (Some c) = Ok seg0 ∧ in_segment seg = seg0<|seg_block := Some c|> ∧
    in_policy seg = pol ∧ (in_authentication seg = a ∨ in_authentication seg = noAuthentication).
Proof using.
  unfold acceptSegment. destruct (parsePacket _ _ _ _ _ _) as [seg0|e|m]; [|done..]. cbv zeta.
  destruct (negb (Valid a)); [intros [= <-]; exists seg0; by auto|].
  destruct (validateServerSegmentDirection _) as [?|?|?]; [|done..].
  destruct (negb _); [intros [= <-]; exists seg0; by auto|].
  destruct (validateNewServerSessionSegment _) as [?|?|?]; [|done..]. intros [= <-]. exists seg0. by auto.
Qed.
Lemma outcome_Segment addr r seg addr' : outcome addr r = Segment seg addr' → r = Ok (Some seg) ∧ addr' = addr.
Proof using. unfold outcome. destruct r as [[?|]|?|?]; by intros [= -> ->]. Qed.

Lemma serverTry_spec pe em source u :
  server_ok u →
  let o := serverTryDecryptMetadataForNewSession maphash jitter pe em source u in
  server_ok o.1 ∧ base o.1 = base u ∧ ublock o.1 = ublock u ∧
  match o.2 with
  | Ok (c, meta, a) => ∃ reg c0, serverUsers u = Some reg ∧ discoveredBy reg em source (pe_now pe) c0 meta a ∧
      c = match u_trafficPattern (base u) with Some tp => SetNoncePattern (Nonce tp) c0 | None => c0 end
  | Err _ => True
  | Panic _ => False
  end.
Proof using CL.
  intros [Hw Hr]. unfold serverTryDecryptMetadataForNewSession. destruct (serverUsers u) as [reg|] eqn:Eu; cbv zeta; [|cbn; split_and!; try done; split; by rewrite ?Eu].
  pose proof (Discover_ok jitter gen maphash reg (discovery u) em source false (pe_now pe) (pe_tick pe) (Hr reg eq_refl) Hw) as H. cbv zeta in H.
  destruct (Discover _ _ _ _ _ _ _ _ _ _ _) as [[w s] r]. cbn [fst snd] in H. destruct H as (Hw' & Hs & Hres).
  assert (server_ok (u<|discovery := w|><|serverUsers := Some match s with Some s => mkRegistry (Some s) (hintMandatory reg) | None => reg end|>)) as Hok.
  { split; [exact Hw'|]. intros reg' E. assert (reg' = match s with Some s => mkRegistry (Some s) (hintMandatory reg) | None => reg end) as -> by (cbn in E; symmetry; by injection E).
    destruct s as [s|]; [by apply Hs|by apply Hr]. }
  destruct r as [[[c pt] a]|e|m]; cbn [fst snd]; split_and!; try done. by exists reg, c.
Qed.

Lemma server_ok_same u u' : discovery u' = discovery u → serverUsers u' = serverUsers u → server_ok u → server_ok u'.
Proof using. unfold server_ok. by intros -> ->. Qed.

Lemma handlePacket_server pe b addr g u :
  isClient_ u = false → server_ok u →
  let o := (handlePacket maphash jitter pe b addr g u).2 in
  server_ok o.1 ∧
  ∀ seg addr', o.2 = Segment seg addr' → addr' = addr ∧ accepted pe b addr g u seg.
Proof using CL.
  intros Hcl Hok. unfold handlePacket. rewrite Hcl. cbn [andb]. destruct (Z.ltb_spec (len b) packetNonHeaderPosition) as [|Hlen]; [done|]. cbv zeta.
  fold (header b).
  destruct (IsDuplicate (pe_now pe) (slice_to DefaultOverhead (header b)) (addr_String addr) g) as [cache dup] eqn:Edup.
  set (u2 := with_base _ u). cbn [snd].
  assert (isClient_ u2 = false) as -> by exact Hcl. assert (server_ok u2) as Hok2 by exact Hok.
  assert (∀ seg c meta seg0, (dup = false) → parsePacket (unixOf pe) false (ublock u) b meta (Some c) = Ok seg0 →
    in_segment seg = seg0<|seg_block := Some c|> → (openedBySession b addr u seg c meta ∨ openedByUser pe b addr u seg c meta) →
    accepted pe b addr g u seg) as Hacc.
  { intros seg c meta seg0 -> H1 H2 H3. split; [done| |by exists c, meta, seg0]. cbn. by rewrite Edup. }
  destruct (tryDecryptExistingSession (pe_order pe) (header b) addr u2) as [[[meta c] pol]|] eqn:Et.
  - apply tryExisting_spec in Et as (i & en & Hi & Hb & Ha & Hd & ->). destruct dup; cbn [fst snd]; (split; [done|]); [done|].
    intros seg addr' [H ->]%outcome_Segment. split; [done|]. apply acceptSegment_spec in H as (seg0 & Hp & Hs & Hpol & Hau).
    eapply Hacc; [done|exact Hp|exact Hs|]. left. exists i, en. split_and!; try done. by destruct Hau.
  - destruct (serverTry_spec pe (header b) (SourceFromAddr addr) u2 Hok2) as (Hok3 & Hb3 & Hu3 & Hres).
    destruct (serverTryDecryptMetadataForNewSession _ _ _ _ _ _) as [u3 r]. cbn [fst snd] in *.
    destruct r as [[[c meta] a]|e|m]; [|done..]. destruct Hres as (reg & c0 & Hreg & Hdis & Hc).
    destruct dup; cbn [fst snd]; (split; [done|]); [done|].
    intros seg addr' [H ->]%outcome_Segment. split; [done|]. apply acceptSegment_spec in H as (seg0 & Hp & Hs & Hpol & Hau).
    eapply Hacc; [done| |exact Hs|].
    + assert (isClient_ u3 = false) as E by (unfold isClient_; rewrite Hb3; exact Hcl). rewrite E, Hu3 in Hp. exact Hp.
    + right. exists reg, c0, a. done.
Qed.

Lemma commit_ok pe seg u :
  server_ok u → is_u32 (a_userID (in_authentication seg)) → is_u32 (pe_tick pe) → server_ok (commitServerUserAuthentication maphash pe seg u).1.
Proof using.
  intros [Hw Hr] Ha Ht. unfold commitServerUserAuthentication. destruct (negb _); [done|]. destruct (serverUsers u) as [reg|] eqn:Eu; [|split; [exact Hw|cbn; congruence]].
  destruct (Record_ok gen maphash reg (in_authentication seg) (pe_tick pe)) as (a' & reg' & -> & Hreg); [by apply Hr|done..|].
  split; [exact Hw|]. by intros reg2 [= <-].
Qed.

(** What the handling of a segment leaves alone. *)
Definition same (u u' : PacketUnderlay) : Prop :=
  discovery u' = discovery u ∧ serverUsers u' = serverUsers u.
Lemma same_trans u1 u2 u3 : same u1 u2 → same u2 u3 → same u1 u3.
Proof using. unfold same. intuition congruence. Qed.
Lemma deliverTo_same pe i seg u u' r : deliverTo pe i seg u = Some (u', r) → same u u'.
Proof using. unfold deliverTo. destruct (deliverSegmentToSession _ _ _ _) as [[b x]|]; [|done]. by intros [= <- _]. Qed.
Lemma onOpen_same pe seg addr u u' r :
  onOpenSessionRequest maphash pe seg addr u = Some (u', r) → same u u' ∨ ∃ w, same u w ∧ u' = (commitServerUserAuthentication maphash pe seg w).1.
Proof using.
  unfold onOpenSessionRequest. destruct (isClient_ u); [intros [= <- _]; by left|].
  destruct (sessionIDOf seg) as [i|e|m]; [|intros [= <- _]; by left..].
  destruct (_ =? 0); [intros [= <- _]; by left|]. destruct (sessionMap (base u) !! i); [intros [= <- _]; by left|].
  destruct (newSessionWithServerUserPolicy _ _ _ _ _ _ _) as [en|e|m]; cbn [mbind result_bind]; [|intros [= <- _]; by left..].
  unfold PacketUnderlay_AddSession. destruct (AddSession _ _ _ _) as [b1|e|m]; cbn [mbind result_bind]; [|intros [= <- _]; by left..].
  destruct (deliverSegmentToSession _ _ _ _) as [[b2 []]|]; [| |done]; [|intros [= <- _]; by left].
  destruct (makeReady _ _ _) as [[b3 [x|e|m]]|]; [|intros [= <- _]; by left..|done].
  intros [= H]. right. exists (with_base b3 (with_base b1 u)). split; [done|]. by rewrite H.
Qed.
Lemma onOpenResponse_same pe seg u u' r : onOpenSessionResponse pe seg u = Some (u', r) → same u u'.
Proof using.
  unfold onOpenSessionResponse. destruct (negb _); [by intros [= <- _]|]. destruct (sessionIDOf seg) as [i|e|m]; [|by intros [= <- _]..].
  destruct (sessionMap (base u) !! i); [|by intros [= <- _]]. apply deliverTo_same.
Qed.
Lemma onClose_same pe seg u u' r : onCloseSession pe seg u = Some (u', r) → same u u'.
Proof using.
  unfold onCloseSession. destruct (sessionIDOf seg) as [i|e|m]; [|by intros [= <- _]..].
  destruct (sessionMap (base u) !! i); [|by intros [= <- _]]. apply deliverTo_same.
Qed.
Lemma writeOneSegment_same d unix sent seg addr u u' seg' r :
  writeOneSegment p d unix sent seg addr u = (u', seg', r) → same u u'.
Proof using.
  unfold writeOneSegment. destruct (_ && _); [by intros [= <- _ _]|]. destruct (sendCipher seg u) as [c|e|m]; [|by intros [= <- _ _]..].
  destruct (buildDatagram _ _ _ _ _ _ _) as [s r'].
  assert (same u (storeCipher seg (w_block s) u).2) as Hk by (unfold storeCipher; by repeat case_match).
  destruct (storeCipher seg (w_block s) u) as [seg1 u1]. destruct r' as [dg|e|m]; [destruct sent|..]; by intros [= <- _ _].
Qed.
Lemma dispatch_same pe d sent seg addr u u' out o :
  dispatch maphash p pe d sent seg addr u = Some (u', out, o) →
  same u u' ∨ ∃ w, same u w ∧ u' = (commitServerUserAuthentication maphash pe seg w).1.
Proof using.
  unfold dispatch. set (m := seg_metadata (in_segment seg)).
  assert (∀ h, (λ '(u, o), (u, [], o)) <$> dropError h = Some (u', out, o) → ∃ r, h = Some (u', r)) as Hq.
  { intros h. destruct (dropError h) as [[u1 o1]|] eqn:E; [|done]. intros [= <- _ _]. by eapply dropError_state. }
  destruct (isSessionProtocol (Protocol m)).
  - destruct (_ =? _); [intros [r H]%Hq; by eapply onOpen_same|].
    destruct (_ =? _); intros [r H]%Hq; left; [by eapply onOpenResponse_same|by eapply onClose_same].
  - intros H. left. destruct (toDataAckStruct m) as [[das|]|e|msg]; [|by injection H as <- _ _..].
    destruct (sessionMap (base u) !! das_sessionID das).
    + apply Hq in H as [r H]. by eapply deliverTo_same.
    + destruct (isClient_ u || _); [|by injection H as <- _ _].
      destruct (writeOneSegment _ _ _ _ _ _ _) as [[u1 seg1] [dg|e|msg]] eqn:Ew; injection H as <- _ _; by eapply writeOneSegment_same.
Qed.
Lemma commit_same pe seg u :
  let u' := (commitServerUserAuthentication maphash pe seg u).1 in discovery u' = discovery u ∧ base u' = base u.
Proof using.
  unfold commitServerUserAuthentication. destruct (negb _); [done|]. destruct (serverUsers u) as [reg|]; [|done].
  by destruct (Record_ _ _ _ _) as [[a r]|e|m].
Qed.

(** The authentication of an accepted segment is that of a registered user. *)
Lemma accepted_authentication pe b addr g u seg :
  server_ok u → accepted pe b addr g u seg → is_u32 (a_userID (in_authentication seg)).
Proof using.
  intros [_ Hr] [_ _ (c & meta & seg0 & _ & _ & [(i & en & _ & _ & _ & _ & _ & ->)|(reg & c0 & a & Hreg & Hd & _ & _ & Ha)])]; [done|].
  destruct Ha as [-> | ->]; [|done]. destruct Hd as (s & us & blk & Hs & Hu & _ & _ & Hid & _). rewrite Hid.
  destruct (Hr reg Hreg s Hs) as [[Hwf _] _]. by eapply uid_u32.
Qed.

Lemma readStep_server pe ev g u :
  isClient_ u = false → u_done (base u) = false → server_ok u →
  let o := (readStep maphash jitter pe ev g u).2 in
  server_ok o.1 ∧
  ∀ seg addr, o.2 = Segment seg addr → ∃ d, ev = Received d addr ∧ accepted pe (slice_to readBufferSize d) addr g u seg.
Proof using CL.
  intros Hcl Hd Hok. unfold readStep. rewrite Hd. destruct ev as [d addr| |e]; [|done..].
  destruct (handlePacket_server pe (slice_to readBufferSize d) addr g u Hcl Hok) as (H1 & H3). split; [exact H1|].
  intros seg addr' H. destruct (H3 seg addr' H) as [-> ?]. by exists d.
Qed.

Lemma loopRound_server cancelled tick pe d sent ev g u u' out o :
  isClient_ u = false → server_ok u → is_u32 (pe_tick pe) →
  (loopRound maphash jitter p cancelled tick pe d sent ev g u).2 = Some (u', out, o) → server_ok u'.
Proof using CL.
  intros Hcl Hok Ht. unfold loopRound. destruct (_ && _); [by intros [= <- _ <-]|].
  set (u0 := if tick then cleanSessions pe u else u).
  assert (isClient_ u0 = false ∧ server_ok u0) as (Hcl0 & Hok0).
  { unfold u0. destruct tick; [|done]. pose proof (k_role _ _ (cleanSessions_keeps pe u)) as H. by rewrite H. }
  destruct (u_done (base u0)) eqn:Ed0.
  { unfold readStep. rewrite Ed0. cbv iota beta. cbn [snd]. rewrite Ed0. by intros [= <- _ <-]. }
  destruct (readStep_server pe ev g u0 Hcl0 Ed0 Hok0) as (H1 & H3).
  destruct (readStep maphash jitter pe ev g u0) as [g1 [u1 r1]]. cbn [fst snd] in *.
  destruct r1 as [| |seg addr|e|m]; intros H.
  1,2,5: by injection H as <- _ <-.
  - destruct (H3 seg addr eq_refl) as (dg & -> & Hacc). apply accepted_authentication in Hacc as Ha; [|done].
    apply dispatch_same in H as [(E2 & E3)|(w & (E2 & E3) & ->)]; [by apply (server_ok_same u1)|].
    apply commit_ok; [by apply (server_ok_same u1)|done..].
  - destruct (u_done (base u1)); injection H as <- _ _; done.
Qed.

Lemma cleanSession_sub pe b i : sessionMap (cleanSession pe b i) ⊆ sessionMap b.
Proof using.
  unfold cleanSession, RemoveSession. repeat case_match; simplify_eq; cbn; try done; etrans; apply delete_subseteq || done.
Qed.
Lemma cleanSessions_sub pe u : sessionMap (base (cleanSessions pe u)) ⊆ sessionMap (base u).
Proof using.
  unfold cleanSessions. cbn. generalize (base u) as b. induction (pe_order pe) as [|i order IH]; intros b; [done|]. cbn [foldl].
  etrans; [apply IH|apply cleanSession_sub].
Qed.

(** C3. A server opens a session only for one of its users: when a round of the
    event loop adds the session [i], the round received a datagram that the
    replay cache did not have from elsewhere, that parses as an open request for
    [i], not 0, and whose metadata was opened with a key that a registered user
    has at this time, or with the cipher of a session of the same peer; the
    session gets the policy of that user (or session) and the datagram's source
    as its address. *)
Theorem session_opened_by_user (cancelled tick : bool) (pe : roundEnv) (d : sendDraws) (sent : option error) (ev : socketEvent)
    (g : ReplayCache) (u u' : PacketUnderlay) (out : list (list Z)) (o : loopOutcome) (i : Z) (en : sessionEntry) :
  isClient_ u = false → server_ok u →
  (loopRound maphash jitter p cancelled tick pe d sent ev g u).2 = Some (u', out, o) →
  sessionMap (base u) !! i = None → sessionMap (base u') !! i = Some en →
  ∃ dg addr c meta seg pol, ev = Received dg addr ∧ let b := slice_to readBufferSize dg in
    (IsDuplicate (pe_now pe) (slice_to DefaultOverhead (header b)) (addr_String addr) g).2 = false ∧
    parsePacket (unixOf pe) false (ublock u) b meta (Some c) = Ok seg ∧
    Protocol (seg_metadata seg) = openSessionRequest ∧ seg_SessionID seg = i ∧ i ≠ 0 ∧
    id (e_session en) = i ∧ e_remoteAddr en = Some addr ∧
    e_userPolicy en = (if negb (len (policy_name pol) =? 0) then Some pol else None) ∧
    ((∃ reg s us blk, serverUsers u = Some reg ∧ r_users reg = Some s ∧ us ∈ users s ∧
        opens (pe_now pe) (header b) us = Some (blk, meta) ∧ pol = policy us) ∨
     (∃ j old, sessionMap (base u) !! j = Some old ∧ block (e_session old) = Some c ∧
        isSamePacketAddr (RemoteAddr (connRemote u) old) addr = true ∧ (Decrypt c (header b)).2 = Ok meta ∧
        pol = default noPolicy (e_userPolicy old))).
Proof using CL.
  intros Hcl Hok H Hnone Hsome.
  assert (i ∈ dom (sessionMap (base u'))) as Hin by (by eapply elem_of_dom_2). apply not_elem_of_dom in Hnone as Hout.
  apply loopRound_spec in H as [H|(u0 & u1 & seg & addr & i' & -> & Hr & Hp & H)]; [by apply (k_dom _ _ H) in Hin|].
  set (u0 := if tick then cleanSessions pe u else u) in *.
  assert (isClient_ u0 = false ∧ server_ok u0 ∧ serverUsers u0 = serverUsers u ∧ ublock u0 = ublock u ∧
    connRemote u0 = connRemote u ∧ sessionMap (base u0) ⊆ sessionMap (base u)) as (Hcl0 & Hok0 & Hs0 & Hb0 & Hc0 & Hm0).
  { unfold u0, connRemote. destruct tick; [|done]. rewrite (k_role _ _ (cleanSessions_keeps pe u)). split_and!; try done. apply cleanSessions_sub. }
  destruct (u_done (base u0)) eqn:Ed; [unfold readStep in Hr; rewrite Ed in Hr; done|].
  destruct (readStep_server pe ev g u0 Hcl0 Ed Hok0) as (_ & Hacc). pose proof (k_dom _ _ (readStep_keeps maphash jitter pe ev g u0)) as Hd1.
  rewrite Hr in Hacc, Hd1. cbn [fst snd] in Hacc, Hd1. destruct (Hacc seg addr eq_refl) as (dg & -> & [_ Hfresh (c & meta & seg0 & Hparse & Hseg & Hopen)]).
  destruct H as [_ _ _ [Hid Hne] _ (en' & Hmap & Hsid & Haddr & Hpol & _)].
  assert (i' = i) as ->.
  { rewrite Hmap in Hsome. apply lookup_insert_Some in Hsome as [[? _]|[_ Hsome]]; [done|]. exfalso. apply Hout.
    apply (subseteq_dom _ _ Hm0), Hd1. by eapply elem_of_dom_2. }
  rewrite Hmap, lookup_insert_eq in Hsome. injection Hsome as <-. rewrite Hb0 in Hparse.
  exists dg, addr, c, meta, seg0, (in_policy seg). split; [done|]. rewrite Hseg in Hp.
  assert (seg_SessionID seg0 = i) as Hi.
  { unfold sessionIDOf in Hid. rewrite Hseg in Hid. cbn in Hid. unfold seg_SessionID. destruct (seg_metadata seg0); [by injection Hid|done]. }
  split_and!; try done. destruct Hopen as [(j & old & Hj & Hbk & Ha & Hdec & Hpl & _)|(reg & c0 & a & Hreg & Hd & Hc & Hpl & _)].
  - right. exists j, old. rewrite Hc0 in Ha. split_and!; try done. by eapply lookup_weaken.
  - left. destruct Hd as (s & us & blk & Hs & Hu & Ho & _ & _ & Hap & _). exists reg, s, us, blk. rewrite <-Hs0. split_and!; try done. congruence.
Qed.

(** ** Reachable states *)

(** What happens to an underlay outside of its event loop: a method that
    another goroutine calls, the work of a session, a reload of the users, and
    the use of what it shares with the other underlays of the process, the
    cipher caches and the registry. *)
Inductive methodStep (u : PacketUnderlay) : PacketUnderlay → Prop :=
  | StepAddSession en addr u' : e_recvChan en = [] → PacketUnderlay_AddSession en addr u = Ok u' → methodStep u u'
  | StepReceive e i b r : receive e i (base u) = Some (b, r) → methodStep u (with_base b u)
  | StepSession op i en : sessionMap (base u) !! i = Some en →
      methodStep u (with_base ((base u)<|sessionMap := <[i := en<|e_session := (perform op (e_session en)).1.1|>]> (sessionMap (base u))|>) u)
  | StepWrite d unix sent seg addr u' seg' r : writeOneSegment p d unix sent seg addr u = (u', seg', r) → methodStep u u'
  | StepAccept pick b r : Accept pick (base u) = Some (b, r) → methodStep u (with_base b u)
  | StepRemove e en b r : RemoveSession e en (base u) = (b, r) → methodStep u (with_base b u)
  | StepClose e : methodStep u (PacketUnderlay_Close e u)
  | StepSetUsers n us reg : serverUsers u = Some reg → Z.of_nat (size us) < 2 ^ 32 - 1 → gen n = Some (users (buildState n us noStats)) →
      methodStep u (u<|serverUsers := Some (SetUsers n us reg)|>)
  | StepShared w users : world_wf gen w → (∀ reg, users = Some reg → registry_ok gen maphash reg) →
      methodStep u (u<|discovery := w|><|serverUsers := users|>).
(** One step of the underlay: one of these, or a round of its loop, whatever
    the replay cache holds by then. *)
Inductive underlayStep (u : PacketUnderlay) : PacketUnderlay → Prop :=
  | StepRound cancelled tick pe d sent ev packetReplayCache u' out o : is_u32 (pe_tick pe) →
      (loopRound maphash jitter p cancelled tick pe d sent ev packetReplayCache u).2 = Some (u', out, o) → underlayStep u u'
  | StepMethod u' : methodStep u u' → underlayStep u u'.

Definition underlay_ok (u : PacketUnderlay) : Prop :=
  sessions_ok PacketTransport (base u) ∧ (isClient_ u = false → server_ok u).

Lemma writeOneSegment_ok d unix sent seg addr u u' seg' r :
  writeOneSegment p d unix sent seg addr u = (u', seg', r) → underlay_ok u → underlay_ok u'.
Proof using.
  intros H [H1 H2]. pose proof (writeOneSegment_keeps _ _ _ _ _ _ _ _ _ _ H) as [Hr Hk _]. apply writeOneSegment_same in H as (E1 & E2).
  split; [by apply Hk|]. rewrite Hr. intros Hcl. apply (server_ok_same u); [done..|by apply H2].
Qed.
Lemma keeps_ok b u :
  u_isClient b = u_isClient (base u) → sessions_ok PacketTransport b → underlay_ok u → underlay_ok (with_base b u).
Proof using. intros Hr Hb [_ H2]. split; [exact Hb|]. unfold isClient_ in *. cbn. rewrite Hr. exact H2. Qed.

Lemma methodStep_ok u u' : methodStep u u' → underlay_ok u → underlay_ok u'.
Proof using CL.
  intros Hstep Hok.
  destruct Hstep as [en addr u' Hc H|e i b r H|op i en Hi|d unix sent seg addr u' seg' r H|pick b r H|e en b r H|e|n us reg Hreg Hsize Hgen|w users Hw Hu].
  - unfold PacketUnderlay_AddSession in H. destruct (AddSession _ _ _ _) as [b|e|m] eqn:Ea; [|done..]. injection H as <-.
    apply keeps_ok; [by eapply AddSession_shape| |done]. eapply AddSession_ok; [apply Hok| |exact Ea]. by rewrite Hc.
  - destruct (receive_ok _ _ _ _ _ _ (proj1 Hok) H). by apply keeps_ok.
  - apply keeps_ok; [done| |done]. destruct Hok as [[Hm Hr] _]. split; [|exact Hr]. apply map_Forall_insert_2; [|exact Hm].
    apply frame_entry; [apply frames_perform|by apply Hm].
  - by eapply writeOneSegment_ok.
  - destruct Hok as [[Hm Hr] Hsrv]. unfold Accept in H. apply keeps_ok; [| |done].
    + destruct (readySessions (base u)); repeat case_match; by simplify_eq.
    + assert (sessionMap b = sessionMap (base u) ∧ u_isClient b = u_isClient (base u) ∧ len (readySessions b) <= len (readySessions (base u)))
        as (E1 & E2 & E3).
      { destruct (readySessions (base u)) as [|j rest] eqn:Erd; repeat case_match; simplify_eq; cbn; rewrite ?Erd, ?len_cons; split_and!; done || lia. }
      split; [by rewrite E1, E2|lia].
  - destruct (RemoveSession_ok _ _ _ _ _ _ (proj1 Hok) H). by apply keeps_ok.
  - apply keeps_ok; [unfold Close_base; by destruct (u_done _)| |done]. apply Close_base_ok, Hok.
  - destruct Hok as [Hs Hsrv]. split; [exact Hs|]. intros Hcl. destruct (Hsrv Hcl) as [Hw _]. split; [exact Hw|].
    intros reg' [= <-]. by apply SetUsers_ok.
  - destruct Hok as [Hs _]. split; [exact Hs|]. intros _. by split.
Qed.
Lemma round_ok cancelled tick pe d sent ev g u u' out o :
  is_u32 (pe_tick pe) → (loopRound maphash jitter p cancelled tick pe d sent ev g u).2 = Some (u', out, o) → underlay_ok u → underlay_ok u'.
Proof using CL.
  intros Ht H Hok.
  destruct Hok as [Hs Hsrv]. assert (isClient_ u' = isClient_ u ∧ sessions_ok PacketTransport (base u')) as [Hr Hs'].
  { apply loopRound_spec in H as [[Hr Hk _]|(u0 & u1 & seg & a & i & -> & Hrd & _ & [Hcl Hr Hk _ _ _])]; [by auto|].
      pose proof (readStep_keeps maphash jitter pe ev g (if tick then cleanSessions pe u else u)) as [Hr1 Hk1 _]. rewrite Hrd in Hr1, Hk1. cbn [fst] in *.
      assert (keeps u (if tick then cleanSessions pe u else u)) as [Hr0 Hk0 _] by (destruct tick; [apply cleanSessions_keeps|done]).
      split; [congruence|by auto]. }
  split; [done|]. rewrite Hr. intros Hcl. by apply (loopRound_server _ _ _ _ _ _ _ _ _ _ _ Hcl (Hsrv Hcl) Ht H).
Qed.
Lemma underlayStep_ok u u' : underlayStep u u' → underlay_ok u → underlay_ok u'.
Proof using CL. intros [cancelled tick pe d sent ev g u'' out o Ht H|u'' H]; [by eapply round_ok|by apply methodStep_ok]. Qed.

(** C5. The state of an underlay, over any sequence of rounds of its event loop,
    calls from other goroutines, work of its sessions, and reloads of the users:
    every session is in the map under its own nonzero id, has the role and the
    transport of the underlay, is attached and announced, and its channel is
    within its capacity; the sessions to accept are within theirs; and at a
    server the generations of users, the source cache and the cached ciphers
    stay consistent. *)
Theorem underlay_invariant (u u' : PacketUnderlay) : underlay_ok u → rtc underlayStep u u' → underlay_ok u'.
Proof using CL. intros Hok H. induction H as [|u u1 u' Hs _ IH]; [done|]. apply IH. by eapply underlayStep_ok. Qed.

(** ** Replays *)

(** One round of the loop's inputs. *)
Record round := mkRound { ro_tick : bool; ro_env : roundEnv; ro_draws : sendDraws; ro_sent : option error; ro_event : socketEvent }.
Definition runRound (r : round) (packetReplayCache : ReplayCache) (u : PacketUnderlay)
    : ReplayCache * option (PacketUnderlay * list (list Z) * loopOutcome) :=
  loopRound maphash jitter p false (ro_tick r) (ro_env r) (ro_draws r) (ro_sent r) (ro_event r) packetReplayCache u.

(** The process: its UDP underlays, and the replay cache that they share. *)
Record process := mkProcess { packetReplayCache : ReplayCache; packetUnderlays : list PacketUnderlay }.
(** A round of the underlay [k]; None while it blocks. *)
Definition processRound (k : nat) (r : round) (ps : process) : option (process * list (list Z) * loopOutcome) :=
  u ← packetUnderlays ps !! k;
  let '(cache, o) := runRound r (packetReplayCache ps) u in
  '(u, out, o) ← o;
  Some (mkProcess cache (<[k:=u]> (packetUnderlays ps)), out, o).

(** What an underlay asks the cache in a round. *)
Definition cacheCalls (r : round) (u : PacketUnderlay) : list call :=
  if u_done (base u) then [] else
  match ro_event r with
  | Received d addr =>
    let b := slice_to readBufferSize d in
    if (isClient_ u && negb (bool_decide (addr_String addr = addr_String (serverAddr u)))) || (len b <? packetNonHeaderPosition)
    then [] else [packetCall (ro_env r) b addr]
  | _ => []
  end.

(** What can happen in the process, with the calls of the cache: a round of one
    of its underlays, anything else that an underlay does, a new underlay. *)
Inductive processStep (ps : process) : list call → process → Prop :=
  | ProcessRound k r u ps' out o : packetUnderlays ps !! k = Some u → is_u32 (pe_tick (ro_env r)) →
      processRound k r ps = Some (ps', out, o) → processStep ps (cacheCalls r u) ps'
  | ProcessMethod k u u' : packetUnderlays ps !! k = Some u → methodStep u u' →
      processStep ps [] (mkProcess (packetReplayCache ps) (<[k:=u']> (packetUnderlays ps)))
  | ProcessNew u : underlay_ok u → processStep ps [] (mkProcess (packetReplayCache ps) (packetUnderlays ps ++ [u])).
Inductive processRun : process → list call → process → Prop :=
  | processRun_nil ps : processRun ps [] ps
  | processRun_cons ps h1 ps1 h2 ps2 : processStep ps h1 ps1 → processRun ps1 h2 ps2 → processRun ps (h1 ++ h2) ps2.
Definition process_ok (ps : process) : Prop := Forall underlay_ok (packetUnderlays ps).

Lemma cleanSession_done pe b i : u_done (cleanSession pe b i) = u_done b ∧ u_isClient (cleanSession pe b i) = u_isClient b.
Proof using. unfold cleanSession, RemoveSession. repeat case_match; by simplify_eq. Qed.
Lemma cleanSessions_done pe u :
  u_done (base (cleanSessions pe u)) = u_done (base u) ∧ isClient_ (cleanSessions pe u) = isClient_ u ∧
  serverAddr (cleanSessions pe u) = serverAddr u.
Proof using.
  assert (∀ order b, u_done (foldl (cleanSession pe) b order) = u_done b ∧ u_isClient (foldl (cleanSession pe) b order) = u_isClient b) as H.
  { induction order as [|i order IH]; intros b; [done|]. cbn [foldl].
    destruct (IH (cleanSession pe b i)) as [-> ->]. apply cleanSession_done. }
  destruct (H (pe_order pe) (base u)). done.
Qed.

(** The cache of the process is the one that went through the calls. *)
Lemma handlePacket_cache pe b addr g u :
  (handlePacket maphash jitter pe b addr g u).1 =
  run g (if (isClient_ u && negb (bool_decide (addr_String addr = addr_String (serverAddr u)))) || (len b <? packetNonHeaderPosition)
         then [] else [packetCall pe b addr]).
Proof using.
  unfold handlePacket. destruct (isClient_ u && _); [done|]. cbn [orb]. destruct (_ <? _); [done|]. cbn. unfold step. cbn.
  fold (header b). by destruct (IsDuplicate _ _ _ _) as [cache dup].
Qed.
Lemma runRound_cache r g u : (runRound r g u).1 = run g (cacheCalls r u).
Proof using.
  unfold runRound, loopRound, cacheCalls. cbn [orb].
  destruct (u_done (base u) && _) eqn:Ed; [by apply andb_true_iff in Ed as [-> _]|]. clear Ed.
  set (u0 := if ro_tick r then _ else u).
  assert (u_done (base u0) = u_done (base u) ∧ isClient_ u0 = isClient_ u ∧ serverAddr u0 = serverAddr u) as (E1 & E2 & E3).
  { unfold u0. destruct (ro_tick r); [apply cleanSessions_done|done]. }
  rewrite <-E1, <-E2, <-E3.
  assert ((readStep maphash jitter (ro_env r) (ro_event r) g u0).1 = run g (if u_done (base u0) then [] else
    match ro_event r with
    | Received d addr =>
      let b := slice_to readBufferSize d in
      if (isClient_ u0 && negb (bool_decide (addr_String addr = addr_String (serverAddr u0)))) || (len b <? packetNonHeaderPosition)
      then [] else [packetCall (ro_env r) b addr]
    | _ => []
    end)) as H.
  { unfold readStep. destruct (u_done (base u0)); [done|]. destruct (ro_event r); [apply handlePacket_cache|done..]. }
  destruct (readStep _ _ _ _ _ _) as [g' [u' o]]. exact H.
Qed.
Lemma processRound_inv k r ps ps' out o :
  processRound k r ps = Some (ps', out, o) →
  ∃ u u', packetUnderlays ps !! k = Some u ∧ (runRound r (packetReplayCache ps) u).2 = Some (u', out, o) ∧
    packetReplayCache ps' = run (packetReplayCache ps) (cacheCalls r u) ∧ packetUnderlays ps' = <[k:=u']> (packetUnderlays ps).
Proof using.
  unfold processRound. destruct (packetUnderlays ps !! k) as [u|]; [|done]. cbn. pose proof (runRound_cache r (packetReplayCache ps) u) as Hc.
  destruct (runRound r (packetReplayCache ps) u) as [cache [[[u' out'] o']|]] eqn:Er; [|done]. cbn [fst] in Hc. cbn.
  intros [= <- <- <-]. exists u, u'. rewrite Er. split_and!; [done..|exact Hc|done].
Qed.
Lemma processStep_ok ps h ps' :
  processStep ps h ps' → process_ok ps → process_ok ps' ∧ packetReplayCache ps' = run (packetReplayCache ps) h.
Proof using CL.
  unfold process_ok. intros [k r u ps1 out o Hk Ht H|k u u' Hk H|u Hu] Hok.
  - apply processRound_inv in H as (u1 & u' & Hk' & H & Hc & Hu). rewrite Hk in Hk'. injection Hk' as <-. rewrite Hu. split; [|done].
    apply Forall_insert; [done|]. eapply round_ok; [exact Ht|exact H|]. by eapply Forall_lookup_1.
  - split; [|done]. apply Forall_insert; [done|]. eapply methodStep_ok; [exact H|]. by eapply Forall_lookup_1.
  - split; [|done]. apply Forall_app. split; [done|by apply Forall_singleton].
Qed.
Lemma processRun_ok ps h ps' :
  processRun ps h ps' → process_ok ps → process_ok ps' ∧ packetReplayCache ps' = run (packetReplayCache ps) h.
Proof using CL.
  induction 1 as [ps|ps h1 ps1 h2 ps2 Hs _ IH]; intros Hok; [done|]. apply processStep_ok in Hs as [Hok1 E1]; [|done].
  destruct (IH Hok1) as [Hok2 E2]. split; [done|]. rewrite E2, E1. unfold run. by rewrite foldl_app.
Qed.

Lemma handlePacket_replayed pe b addr g u :
  isClient_ u = false → server_ok u → packetNonHeaderPosition <= len b →
  (IsDuplicate (pe_now pe) (content (packetCall pe b addr)) (addr_String addr) g).2 = true →
  let o := (handlePacket maphash jitter pe b addr g u).2 in
  o.2 = Dropped ∧ sessionMap (base o.1) = sessionMap (base u) ∧ readySessions (base o.1) = readySessions (base u).
Proof using CL.
  intros Hcl Hok Hlen Hdup. unfold handlePacket. rewrite Hcl. cbn [andb]. destruct (Z.ltb_spec (len b) packetNonHeaderPosition); [lia|]. cbv zeta.
  fold (header b). cbn [content packetCall] in Hdup.
  destruct (IsDuplicate (pe_now pe) (slice_to DefaultOverhead (header b)) (addr_String addr) g) as [cache dup]. cbn [snd] in *. subst dup.
  set (u2 := with_base _ u).
  assert (isClient_ u2 = false) as -> by exact Hcl. assert (server_ok u2) as Hok2 by exact Hok.
  destruct (tryDecryptExistingSession _ _ _ _) as [[[meta c] pol]|]; [done|].
  destruct (serverTry_spec pe (header b) (SourceFromAddr addr) u2 Hok2) as (_ & Hb3 & _ & Hres).
  destruct (serverTryDecryptMetadataForNewSession _ _ _ _ _ _) as [u3 r]. cbn [fst snd] in *. destruct r as [[[c meta] a]|e|m]; [..|done].
  all: cbn [fst snd]; by rewrite Hb3.
Qed.
(** The round of a server that runs drops a datagram that the cache knows. *)
Lemma runRound_replayed r d addr g u :
  isClient_ u = false → server_ok u → u_done (base u) = false → ro_event r = Received d addr →
  let b := slice_to readBufferSize d in
  packetNonHeaderPosition <= len b →
  (IsDuplicate (pe_now (ro_env r)) (content (packetCall (ro_env r) b addr)) (addr_String addr) g).2 = true →
  ∃ u', (runRound r g u).2 = Some (u', [], Continue) ∧
    let u1 := if ro_tick r then cleanSessions (ro_env r) u else u in
    sessionMap (base u') = sessionMap (base u1) ∧ readySessions (base u') = readySessions (base u1).
Proof using CL.
  intros Hcl Hok Hdone Ha b Hlb Hdup. unfold runRound, loopRound. cbn [orb]. rewrite Hdone. cbn [andb].
  set (u1 := if ro_tick r then cleanSessions (ro_env r) u else u).
  assert (isClient_ u1 = false ∧ server_ok u1 ∧ u_done (base u1) = false) as (Hcl1 & Hok1 & Hd1).
  { unfold u1. destruct (ro_tick r); [|done]. destruct (cleanSessions_done (ro_env r) u) as (-> & -> & _). done. }
  unfold readStep. rewrite Hd1, Ha. destruct (handlePacket_replayed (ro_env r) b addr g u1 Hcl1 Hok1 Hlb Hdup) as (H1 & H2 & H3).
  fold b. destruct (handlePacket _ _ _ _ _ _ _) as [g3 [u3 r3]]. cbn [fst snd] in *. subst r3. by exists u3.
Qed.

(** The cut at the size of the read buffer does not touch the header. *)
Lemma header_cut (x : list Z) :
  packetNonHeaderPosition <= len x → packetNonHeaderPosition <= len (slice_to readBufferSize x) ∧
  slice_to DefaultOverhead (header (slice_to readBufferSize x)) = slice_to DefaultOverhead x.
Proof using.
  intros Hx. unfold header, slice_to. rewrite !take_take, len_take. change packetNonHeaderPosition with 72 in *. change readBufferSize with 1500 in *.
  change DefaultOverhead with 16. split; [lia|]. f_equal; lia.
Qed.

(** C4. A replayed datagram has no effect on the sessions, whichever underlay of
    the process it reaches: a process starts with a new replay cache, and its
    underlays run in any interleaving, with new ones being added; a server's
    underlay [j] reads a datagram; fewer than [capacity] other datagrams are
    looked up after it, by all underlays together, and all within the expiry
    interval; if then, within that interval, a datagram with the same first
    bytes reaches the server's underlay [k], the same or another one, from an
    address that they did not come from before, its round drops it: no session
    is added, no segment delivered, nothing sent, and the loop goes on. *)
Theorem replayed_datagram_dropped (now cap interval : Z) (ps0 ps1 ps2 ps3 : process) (before after : list call)
    (j k : nat) (uj u : PacketUnderlay) (first again : round) (out1 : list (list Z)) (o1 : loopOutcome)
    (d d' : list Z) (addr addr' : netAddr) :
  process_ok ps0 → NewCache now cap interval = Ok (packetReplayCache ps0) → cap ≠ 0 →
  processRun ps0 before ps1 →
  packetUnderlays ps1 !! j = Some uj → isClient_ uj = false → u_done (base uj) = false →
  ro_event first = Received d addr → packetNonHeaderPosition <= len d → is_u32 (pe_tick (ro_env first)) →
  processRound j first ps1 = Some (ps2, out1, o1) →
  processRun ps2 after ps3 →
  packetUnderlays ps3 !! k = Some u → isClient_ u = false → u_done (base u) = false →
  ro_event again = Received d' addr' → packetNonHeaderPosition <= len d' → slice_to DefaultOverhead d' = slice_to DefaultOverhead d →
  len after < cap →
  Forall (λ t, pe_now (ro_env first) <= t <= pe_now (ro_env first) + interval) ((at_time <$> after) ++ [pe_now (ro_env again)]) →
  (∀ t, t = addr_String addr ∨ used (computeSignature (slice_to DefaultOverhead d)) (before ++ after) t →
     t ≠ EmptyTag → addr_String addr' ≠ EmptyTag → t ≠ addr_String addr') →
  ∃ ps4 u', processRound k again ps3 = Some (ps4, [], Continue) ∧ packetUnderlays ps4 = <[k:=u']> (packetUnderlays ps3) ∧
    let u1 := if ro_tick again then cleanSessions (ro_env again) u else u in
    sessionMap (base u') = sessionMap (base u1) ∧ readySessions (base u') = readySessions (base u1).
Proof using CL.
  intros Hok0 Hnew Hcap Hrun1 Hj Hclj Hdj Hf Hl Htick Hround Hrun2 Hk Hcl Hdone Ha Hl' Hsame Hafter Htimes Htags.
  destruct (header_cut d Hl) as [Hlb Hpre], (header_cut d' Hl') as [Hlb' Hpre'].
  set (b := slice_to readBufferSize d) in *. set (b' := slice_to readBufferSize d') in *.
  set (call1 := packetCall (ro_env first) b addr).
  assert (cacheCalls first uj = [call1]) as Hcall.
  { unfold cacheCalls. rewrite Hdj, Hf, Hclj. cbn [andb orb]. fold b. by destruct (Z.ltb_spec (len b) packetNonHeaderPosition); [lia|]. }
  apply processRun_ok in Hrun1 as [Hok1 E1]; [|done].
  destruct (processStep_ok ps1 [call1] ps2) as [Hok2 E2]; [by rewrite <-Hcall; eapply ProcessRound|done|].
  apply processRun_ok in Hrun2 as [Hok3 E3]; [|done].
  assert (packetReplayCache ps3 = run (packetReplayCache ps0) (before ++ [call1] ++ after)) as Hcache.
  { rewrite E3, E2, E1. unfold run. by rewrite !foldl_app. }
  destruct (Forall_lookup_1 _ _ _ _ Hok3 Hk) as [_ Hsrv].
  assert ((IsDuplicate (pe_now (ro_env again)) (content (packetCall (ro_env again) b' addr')) (addr_String addr') (packetReplayCache ps3)).2 = true) as Hdup.
  { rewrite Hcache. apply (replay_found now cap interval (packetReplayCache ps0) _ _ call1 (packetCall (ro_env again) b' addr') Hnew Hcap Hafter).
    - apply Forall_app in Htimes as [Ht1 Ht2]. apply Forall_app. split; [by apply Forall_fmap in Ht1|]. apply Forall_singleton. by apply (proj1 (Forall_singleton _ _)) in Ht2.
    - cbn [content packetCall call1]. by rewrite Hpre', Hpre.
    - intros t Ht. cbn [content tag packetCall] in *. rewrite Hpre', Hsame in Ht.
      assert (t = addr_String addr ∨ used (computeSignature (slice_to DefaultOverhead d)) (before ++ after) t) as Ht'.
      { destruct Ht as (c & Hin & Hs & Htag). rewrite !elem_of_app, list_elem_of_singleton in Hin.
        destruct Hin as [Hin | [-> | Hin]]; [right|by left|right]; exists c; rewrite elem_of_app; auto. }
      specialize (Htags t Ht'). unfold sameEntry. repeat case_bool_decide; try done. exfalso. by apply Htags. }
  destruct (runRound_replayed again d' addr' (packetReplayCache ps3) u Hcl (Hsrv Hcl) Hdone Ha Hlb' Hdup) as (u' & Hr & Hsess).
  unfold processRound. rewrite Hk. cbn [mbind option_bind]. destruct (runRound again _ u) as [g' o']. cbn [snd] in Hr. subst o'.
  eexists _, u'. split_and!; [reflexivity|done|apply Hsess|apply Hsess].
Qed.

Lemma foreign_input_panics e seg s prev c :
  isClient s = false → block s = Some prev → seg_block seg = Some c → c_userName prev ≠ [] → c_userName c ≠ [] →
  c_userName prev ≠ c_userName c → acceptsProtocol false (seg_Protocol seg) = true →
  (runInputOnce e seg s).2 = Panic "cipher block user name is different".
Proof using.
  intros Hcl Hb Hs Hp Hc Hne Hacc.
  assert ((checkBlock seg s).2 = Panic "cipher block user name is different") as H0.
  { unfold checkBlock, mbind, M_bind, gets. rewrite Hs, Hb.
    destruct (Z.eqb_spec (len (c_userName prev)) 0) as [E|_]; [by apply len_zero in E|].
    destruct (Z.eqb_spec (len (c_userName c)) 0) as [E|_]; [by apply len_zero in E|]. by rewrite bool_decide_false by done. }
  assert ((input e seg s).2 = Panic "cipher block user name is different") as H.
  { unfold input, mbind, M_bind, gets. rewrite Hcl, Hacc. cbn [negb].
    destruct (checkBlock seg s) as [[s1 ev1] r1]. cbn in H0. by subst r1. }
  unfold runInputOnce, mbind, M_bind, try. destruct (input e seg s) as [[s1 ev1] r1]. cbn in H. by subst r1.
Qed.

(** ** From a client's open request to a session *)

(** The new session, attached, with its first segment. *)
Definition openedEntry (addr : netAddr) (seg : incoming) (i : Z) (en : sessionEntry) : Prop :=
  id (e_session en) = i ∧ e_remoteAddr en = Some addr ∧ e_recvChan en = [seg] ∧
  e_userPolicy en = (if negb (len (policy_name (in_policy seg)) =? 0) then Some (in_policy seg) else None).

Lemma onOpen_opens pe seg addr u i :
  isClient_ u = false → u_done (base u) = false → server_ok u → is_u32 (pe_tick pe) →
  is_u32 (a_userID (in_authentication seg)) → sessionIDOf seg = Ok i → i ≠ 0 → sessionMap (base u) !! i = None →
  len (readySessions (base u)) < sessionChanCapacity →
  ∃ u' en, onOpenSessionRequest maphash pe seg addr u = Some (u', Ok tt) ∧ sessionMap (base u') = <[i := en]> (sessionMap (base u)) ∧
    openedEntry addr seg i en ∧ readySessions (base u') = readySessions (base u) ++ [i].
Proof using.
  intros Hcl Hdone Hok Htick Hau Hid Hne Hnone Hroom. unfold onOpenSessionRequest. rewrite Hcl, Hid. destruct (Z.eqb_spec i 0); [done|]. rewrite Hnone.
  destruct (session_opens PacketTransport (pe_pick pe) (microOf pe) i (u_mtu (base u)) (in_policy seg) (u_trafficPattern (base u)) (pe_jitterMs pe)
    (Some addr) seg (base u) Hcl Hdone Hne Hnone Hroom) as (en & b1 & b2 & b3 & en' & -> & Ea & Ed & Er & -> & G1 & G2 & G3 & G4).
  rewrite bind_Ok. unfold PacketUnderlay_AddSession. rewrite Ea, bind_Ok. assert (base (with_base b1 u) = b1) as -> by done. rewrite Ed, Er.
  set (u3 := with_base _ (with_base b1 u)). pose proof (commit_base maphash pe seg u3) as Hb. destruct Hok as [_ Hreg].
  assert ((commitServerUserAuthentication maphash pe seg u3).2 = Ok tt) as Hr.
  { unfold commitServerUserAuthentication. destruct (negb (Valid (in_authentication seg))); [reflexivity|]. change (serverUsers u3) with (serverUsers u). destruct (serverUsers u) as [reg|]; [|reflexivity].
    by destruct (Record_ok gen maphash reg (in_authentication seg) (pe_tick pe) (Hreg reg eq_refl) Hau Htick) as (a' & reg' & -> & _). }
  destruct (commitServerUserAuthentication maphash pe seg u3) as [u4 r4]. cbn in Hb, Hr. subst r4. exists u4, en'.
  split; [done|]. rewrite Hb. split; [done|]. by split.
Qed.

(** The sender is a user whose key no other user has, and no session is at its address. *)
Record known_sender (pe : roundEnv) (dg : list Z) (addr : netAddr) (c : aeadBlockCipher) (us : user) (g : ReplayCache) (u : PacketUnderlay) : Prop := {
  ks_registry : ∃ reg s, serverUsers u = Some reg ∧ r_users reg = Some s ∧ us ∈ users s ∧
    (∀ v, v ∈ users s → v ≠ us → opens (pe_now pe) (header dg) v = None);
  ks_key : ∃ t, t ∈ saltTimes (pe_now pe) ∧ c_key c = keyAt (credential us) t;
  ks_only : only_key (c_key c) (header dg) (templateAt (credential us) <$> saltTimes (pe_now pe));
  ks_name : name us = c_userName c;
  ks_address : ∀ j en, sessionMap (base u) !! j = Some en → isSamePacketAddr (RemoteAddr (connRemote u) en) addr = false;
  ks_fresh : (IsDuplicate (pe_now pe) (content (packetCall pe dg addr)) (addr_String addr) g).2 = false
}.

Lemma tryExisting_none order em addr u :
  (∀ j en, sessionMap (base u) !! j = Some en → isSamePacketAddr (RemoteAddr (connRemote u) en) addr = false) →
  tryDecryptExistingSession order em addr u = None.
Proof using.
  intros H. induction order as [|i order IH]; [done|]. cbn [tryDecryptExistingSession]. cbv zeta.
  destruct (sessionMap (base u) !! i) as [en|] eqn:Ei; [|exact IH]. destruct (block (e_session en)); [|exact IH]. by rewrite (H i en Ei).
Qed.

Lemma Decrypt_same_key c c2 em pt pt' :
  enableImplicitNonce c = false → same_key c c2 → (Decrypt c em).2 = Ok pt → (Decrypt c2 em).2 = Ok pt' → pt' = pt.
Proof using.
  intros Hs [Hi Hk]. unfold Decrypt, openWith, NonceSize. rewrite Hi, Hs, <-Hk. destruct (_ <? _); [done|]. cbn. destruct (Open _ _ _); [|done]. congruence.
Qed.

(** Discovery finds the sender. *)
Lemma serverTry_finds pe dg addr c pt us g u v :
  server_ok u → serverUsers v = serverUsers u → discovery v = discovery u → known_sender pe dg addr c us g u → enableImplicitNonce c = false → packetNonHeaderPosition <= len dg →
  (Decrypt c (header dg)).2 = Ok pt →
  (0 < len (c_userName c) → CheckUserFromHint (c_userName c) (slice_to DefaultNonceSize dg) = Ok true) →
  ∃ u' c' a, serverTryDecryptMetadataForNewSession maphash jitter pe (header dg) (SourceFromAddr addr) v = (u', Ok (c', pt, a)) ∧
    base u' = base v ∧ ublock u' = ublock v ∧ same_key c c' ∧ Valid a = true ∧ a_policy a = policy us ∧ is_u32 (a_userID a).
Proof using CL.
  intros [Hw Hr] Eu Ed [(reg & s & Hreg & Hst & Hus & Hother) (t & Ht & Hk) Honly Hname _ _] Hs Hlen Hd Hhint.
  destruct (Hr reg Hreg s Hst) as [[Hwf _] _].
  assert (DefaultNonceSize <= len (header dg)) as Hem.
  { unfold header, slice_to. rewrite len_take. change packetNonHeaderPosition with 72 in *. unfold DefaultNonceSize. lia. }
  destruct (opens_finds (pe_now pe) (header dg) us c pt t Hem Hs Hd Ht Hk Honly) as (b & Ho & Hbk & Hbi & _).
  assert (hintOK (header dg) us = true) as Hh.
  { pose proof (wf_names _ Hwf us Hus) as [Hn1 Hn2]. apply hintOK_sender; [done..|]. rewrite Hname.
    assert (slice_to DefaultNonceSize (header dg) = slice_to DefaultNonceSize dg) as ->.
    { unfold header, slice_to. rewrite take_take. f_equal. }
    apply Hhint. by rewrite <-Hname. }
  destruct (Discover_finds jitter gen maphash reg s (discovery v) (header dg) (SourceFromAddr addr) false (pe_now pe) (pe_tick pe) us b pt
    (Hr reg Hreg) ltac:(by rewrite Ed) Hst Hem Hus Ho Hother ltac:(by intros _)) as (w' & s' & o & Hdis).
  unfold serverTryDecryptMetadataForNewSession. rewrite Eu, Hreg, Hdis. cbv zeta beta iota. eexists _, _, _. split; [reflexivity|].
  split; [done|]. split; [done|]. split; [unfold same_key; by destruct (u_trafficPattern _)|]. split; [|split; [done|by eapply uid_u32]].
  unfold Valid. cbn [a_userID a_generation]. rewrite bool_decide_true by done. apply list_elem_of_lookup in Hus as [k Hi].
  rewrite (wf_ids _ Hwf k us Hi). destruct (Z.eqb_spec (Z.of_nat k + 1) 0); [lia|done].
Qed.

(** An open request is accepted with its authentication. *)
Lemma acceptSegment_open unix b meta c a ss payload u :
  isClient_ u = false → Valid a = true → parsePacket unix false (ublock u) b meta (Some c) = Ok (received (MSession ss) payload) →
  ss_Protocol ss = openSessionRequest → ss_sessionID ss ≠ 0 →
  acceptSegment unix b meta (Some c) (a_policy a) a u = Ok (Some (mkIncoming ((received (MSession ss) payload)<|seg_block := Some c|>) (a_policy a) a)).
Proof using.
  intros Hcl Hv Hp Hproto Hid. unfold acceptSegment. rewrite Hcl, Hp. cbv zeta. rewrite Hv.
  unfold validateServerSegmentDirection, validateNewServerSessionSegment, seg_Protocol. cbn [negb in_segment].
  change (seg_metadata ((received (MSession ss) payload)<|seg_block := Some c|>)) with (MSession ss). cbn [Protocol]. rewrite Hproto. cbn.
  by rewrite (proj2 (Z.eqb_neq _ _) Hid).
Qed.

Lemma handlePacket_opens pe mtu now c c1 payload ss m' dg addr us g u nd :
  isClient_ u = false → server_ok u → sender_ok c c1 nd → good_datagram mtu now c payload (MSession ss) m' dg → clocks_ok now (unixOf pe) →
  ss_Protocol ss = openSessionRequest → ss_sessionID ss ≠ 0 → known_sender pe dg addr c us g u →
  ∃ u' seg, (handlePacket maphash jitter pe dg addr g u).2 = (u', Segment seg addr) ∧ server_ok u' ∧
    sessionMap (base u') = sessionMap (base u) ∧ readySessions (base u') = readySessions (base u) ∧ u_done (base u') = u_done (base u) ∧ isClient_ u' = false ∧
    seg_metadata (in_segment seg) = m' ∧ seg_payload (in_segment seg) = payload ∧ in_policy seg = policy us ∧ is_u32 (a_userID (in_authentication seg)).
Proof using CL.
  intros Hcl Hok Hs (Hcar & _ & Hlen & Hhint & Hdec) Hclk Hproto Hid Hknown.
  pose proof (handlePacket_server pe dg addr g u Hcl Hok) as (Hok' & _). revert Hok'.
  unfold handlePacket. rewrite Hcl. cbn [andb]. destruct (Z.ltb_spec (len dg) packetNonHeaderPosition); [lia|]. cbv zeta.
  fold (header dg). pose proof (ks_fresh _ _ _ _ _ _ _ Hknown) as Hfresh. cbn [content packetCall] in Hfresh.
  destruct (IsDuplicate (pe_now pe) (slice_to DefaultOverhead (header dg)) (addr_String addr) g) as [cache dup]. cbn [snd] in *. subst dup.
  set (u2 := with_base _ u). assert (isClient_ u2 = false) as Ecl by exact Hcl. rewrite Ecl.
  rewrite (tryExisting_none _ _ _ u2) by exact (ks_address _ _ _ _ _ _ _ Hknown).
  destruct (Hdec c) as (pt & Hd & _); [split; [apply Hs|done]|]. fold (header dg) in Hd.
  destruct (serverTry_finds pe dg addr c pt us g u u2) as (u3 & c3 & a & -> & Hb3 & Hu3 & Hk3 & Hv & Hpol & Huid);
    [done..|apply Hs|done|by rewrite Hd|done|].
  destruct (Hdec c3 Hk3) as (pt' & Hd' & Hparse). fold (header dg) in Hd'.
  assert (pt' = pt) as -> by (eapply (Decrypt_same_key c c3 (header dg)); [apply Hs|done|by rewrite Hd|by rewrite Hd']).
  assert (∃ ss', m' = MSession ss' ∧ ss_Protocol ss' = openSessionRequest ∧ ss_sessionID ss' = ss_sessionID ss) as (ss' & -> & Hp' & Hid').
  { unfold carries in Hcar. destruct m' as [ss'|]; [|done]. destruct Hcar as [n ->]. by exists (ss_with_timestamp (now / 60) (ss_with_suffix n ss)). }
  assert (isClient_ u3 = false) as Hcl3 by (unfold isClient_; rewrite Hb3; exact Hcl).
  rewrite (acceptSegment_open (unixOf pe) dg pt c3 a ss' payload u3) by (done || congruence || by apply Hparse).
  intros Hok'. eexists u3, _. split; [reflexivity|]. rewrite Hb3. by rewrite Hpol.
Qed.

(** C2. A new connection opens: a client writes an open request, whatever its
    random sources return and whatever its buffers held, in one datagram; a
    running server that receives it from a new address, with a clock within a
    minute, and that has the client's user with a key that no other user has,
    goes on with a new session of that id at that address, with the policy of
    that user; the session has the request with its payload in its channel, and
    is the next one to accept. *)
Theorem open_request_opens_session (uc : PacketUnderlay) (f : Z → list Z) (d : sendDraws) (now : Z) (seg : segment) (ss : sessionStruct)
    (c c1 : aeadBlockCipher) :
  isClient_ uc = true → ublock uc = Some c → sender_ok c c1 (sd_nonce d) → padding_ok p d →
  (lowEntropyPaddingBit p = 0 ∨ lowEntropyPaddingBit p = 1) → buffer_ok f → clock_ok now →
  seg_metadata seg = MSession ss → sendable d (MSession ss) (seg_payload seg) → ss_Protocol ss = openSessionRequest → ss_sessionID ss ≠ 0 →
  packetOverhead + len (seg_payload seg) <= u_mtu (base uc) <= readBufferSize →
  ∃ uc' seg' dg, writeOneSegment p (with_buffer f d) now None seg (serverAddr uc) uc = (uc', seg', Ok dg) ∧
  ∀ pe d' sent addr us g u,
    isClient_ u = false → u_done (base u) = false → server_ok u → is_u32 (pe_tick pe) → clocks_ok now (unixOf pe) →
    known_sender pe dg addr c us g u → sessionMap (base u) !! ss_sessionID ss = None → len (readySessions (base u)) < sessionChanCapacity →
    ∃ u' en inc, (loopRound maphash jitter p false false pe d' sent (Received dg addr) g u).2 = Some (u', [], Continue) ∧
      sessionMap (base u') = <[ss_sessionID ss := en]> (sessionMap (base u)) ∧ openedEntry addr inc (ss_sessionID ss) en ∧
      in_policy inc = policy us ∧ seg_payload (in_segment inc) = seg_payload seg ∧ carries now (MSession ss) (seg_metadata (in_segment inc)) ∧
      readySessions (base u') = readySessions (base u) ++ [ss_sessionID ss].
Proof using CL FL gen.
  intros Hcl Hb Hs Hp Hbit Hf Hnow Hm Hsend Hproto Hid Hmtu.
  destruct (buildDatagram_spec p d (u_mtu (base uc)) (u_trafficPattern (base uc)) now (seg_payload seg) c c1 (MSession ss) (fixedV uc) Hs Hp Hbit Hsend Hnow)
    as (s' & dg & m' & Hgood & _ & _ & Hbuild); [by cbn; destruct Hsend as (_ & _ & Hsp & _); rewrite Hproto|].
  assert (∃ uc' seg', writeOneSegment p (with_buffer f d) now None seg (serverAddr uc) uc = (uc', seg', Ok dg)) as (uc' & seg' & Hw).
  { unfold writeOneSegment, sendCipher. rewrite Hcl, bool_decide_true, Hb, Hm, Hbuild by done. cbn [negb andb]. unfold storeCipher. rewrite Hcl. by eexists _, _. }
  exists uc', seg', dg. split; [exact Hw|]. intros pe d' sent addr us g u Hscl Hdone Hok Htick Hclk Hknown Hnone Hroom.
  pose proof (proj1 (proj2 Hgood)) as Hfit. cbn [payloadLenOf] in Hfit. destruct Hsend as (_ & _ & _ & Hpl & _).
  assert (slice_to readBufferSize dg = dg) as Hcut by (apply slice_to_all; lia).
  destruct (handlePacket_opens pe _ now c c1 (seg_payload seg) ss m' dg addr us g u _ Hscl Hok Hs Hgood Hclk Hproto Hid Hknown)
    as (u1 & inc & Hh & Hok1 & E1 & E2 & E3 & E4 & E5 & E6 & E7 & E8).
  destruct Hgood as [Hcar _]. rewrite <-E5 in Hcar.
  assert (∃ ss', seg_metadata (in_segment inc) = MSession ss' ∧ ss_Protocol ss' = openSessionRequest ∧ ss_sessionID ss' = ss_sessionID ss) as (ss' & Em & Ep & Ei).
  { rewrite E5 in Hcar |- *. unfold carries in Hcar. destruct m' as [ss'|]; [|done]. destruct Hcar as [n ->].
    by exists (ss_with_timestamp (now / 60) (ss_with_suffix n ss)). }
  destruct (onOpen_opens pe inc addr u1 (ss_sessionID ss)) as (u2 & en & Ho & E9 & E10 & E11); [by rewrite ?E3..|by unfold sessionIDOf; rewrite Em, Ei|done|by rewrite E1|by rewrite E2|].
  exists u2, en, inc. split; [|by rewrite E9, E11, E1, E2].
  unfold loopRound. rewrite Hdone. cbn [orb andb]. unfold readStep. rewrite Hdone, Hcut.
  destruct (handlePacket _ _ _ _ _ _ _) as [g' o']. cbn [snd] in *. subst o'. unfold dispatch. rewrite Em. cbn [Protocol]. rewrite Ep. cbn.
  by rewrite Ho.
Qed.

(** A user can stop a server: the event loop hands a data or ack segment to
    the session that it names without looking whose key opened it.  When a user's
    segment names the session of another user, the loop goes on, and the input
    loop of that session panics when it takes the segment; nothing in the program
    recovers from it. *)
Theorem foreign_segment_panics (pe : roundEnv) (d : sendDraws) (sent : option error) (seg : incoming) (addr : netAddr) (u : PacketUnderlay)
    (das : dataAckStruct) (en : sessionEntry) (prev c : aeadBlockCipher) (e : env) :
  underlay_ok u → isClient_ u = false → u_done (base u) = false →
  seg_metadata (in_segment seg) = MDataAck das → isDataAckProtocol (das_Protocol das) = true → acceptsProtocol false (das_Protocol das) = true →
  sessionMap (base u) !! das_sessionID das = Some en → closedChan (e_session en) = false → e_recvChan en = [] →
  block (e_session en) = Some prev → seg_block (in_segment seg) = Some c → c_userName prev ≠ [] → c_userName c ≠ [] → c_userName prev ≠ c_userName c →
  ∃ u' b ev, dispatch maphash p pe d sent seg addr u = Some (u', [], Continue) ∧
    receive e (das_sessionID das) (base u') = Some (b, (ev, Panic "cipher block user name is different")).
Proof using.
  intros [[Hm _] _] Hcl Hdone Hmd Hproto Hacc Hi Hopen Hchan Hb Hs Hp Hc Hne. destruct (Hm _ _ Hi) as [_ _ Hrole _ _ _ _]. unfold isClient_ in Hcl. rewrite Hcl in Hrole.
  unfold dispatch. rewrite Hmd. cbn [Protocol]. rewrite (dataAck_not_session _ Hproto). unfold toDataAckStruct. cbn [Protocol]. rewrite Hproto. rewrite Hi.
  set (b' := (base u)<|sessionMap := <[das_sessionID das := en<|e_recvChan := [] ++ [seg]|>]> (sessionMap (base u))|>).
  assert (deliverTo pe (das_sessionID das) seg u = Some (with_base b' u, Ok tt)) as ->.
  { unfold deliverTo, deliverSegmentToSession. rewrite Hi, Hchan, Hopen, Hdone. reflexivity. }
  set (s := e_session en) in *. pose proof (foreign_input_panics e (in_segment seg) s prev c Hrole Hb Hs Hp Hc Hne) as Hpanic.
  unfold seg_Protocol in Hpanic. rewrite Hmd in Hpanic. specialize (Hpanic Hacc).
  destruct (runInputOnce e (in_segment seg) s) as [[s1 ev1] r1] eqn:Erun. cbn in Hpanic. subst r1.
  eexists (with_base b' u), _, ev1. split; [reflexivity|]. unfold receive.
  assert (sessionMap (base (with_base b' u)) !! das_sessionID das = Some (en<|e_recvChan := [] ++ [seg]|>)) as -> by apply lookup_insert_eq.
  cbn [app]. change (e_recvChan (en<|e_recvChan := [seg]|>)) with [seg]. change (e_session (en<|e_recvChan := [seg]|>)) with s.
  cbv beta iota. rewrite Erun. reflexivity.
Qed.
End server.

(** ** An example: a client and a server with two users *)

#[local] Existing Instance taggedCrypto.
#[local] Existing Instance taggedCrypto_laws.
#[local] Existing Instance fractionFloat.
#[local] Existing Instance fractionFloat_laws.
#[local] Existing Instance listTree.

Definition example_addr : netAddr := UDPAddr (Some (mkAddr [10; 0; 0; 1] 4000 [])).
Definition example_addr2 : netAddr := UDPAddr (Some (mkAddr [10; 0; 0; 2] 4000 [])).
Definition example_server_addr : netAddr := UDPAddr (Some (mkAddr [10; 0; 0; 9] 443 [])).
Definition example_roundEnv (t : Z) : roundEnv := mkRoundEnv t 5 [] false 0 (λ _, Lifecycle.example_env).
Definition example_cipher : aeadBlockCipher := Eval vm_compute in
  SetBlockContext [98] (templateAt (HashPassword [113] [98]) (Time_Round example_now KeyRefreshInterval)).
Definition example_cache : ReplayCache := mkReplay 4194304 (example_now + 360000000000) 360000000000 ∅ ∅.
Definition example_client : PacketUnderlay :=
  mkPacketUnderlay (newBaseUnderlay true 1400 None) example_server_addr (Some example_cipher) None example_world ∅.
Definition example_server : PacketUnderlay :=
  mkPacketUnderlay (newBaseUnderlay false 1400 None) NilNetAddr None (Some (mkRegistry (Some example_state) false)) example_world ∅.
Definition example_open : sessionStruct := mkSession (mkBase openSessionRequest 0) 7 0 0 3 0.
Definition example_segment : segment := mkSegment (MSession example_open) [1; 2; 3] PacketTransport 0 0 0 0 None.
Definition example_dg : list Z := Eval vm_compute in
  match writeOneSegment example_program example_sendDraws 1700000000 None example_segment example_server_addr example_client with
  | (_, _, Ok dg) => dg
  | _ => []
  end.
Definition example_round (t : Z) (addr : netAddr) : round :=
  mkRound false (example_roundEnv t) example_sendDraws None (Received example_dg addr).
Definition example_first : option (PacketUnderlay * list (list Z) * loopOutcome) :=
  (runRound exampleHash (λ _, 0) example_program (example_round example_now example_addr) example_cache example_server).2.

Lemma example_server_ok : server_ok exampleHash example_gen example_server.
Proof.
  split; [apply example_world_wf|]. intros reg [= <-] s [= <-]. split; [apply example_state_wf|apply example_source_wf].
Qed.
Lemma example_underlay_ok : underlay_ok exampleHash example_gen example_server.
Proof. split; [split; [apply map_Forall_empty|done]|intros _; apply example_server_ok]. Qed.
Lemma example_client_sender_ok : sender_ok example_cipher example_cipher (sd_nonce example_sendDraws).
Proof.
  split; [done|by vm_compute|by apply (bool_decide_unpack _); vm_compute|by intros bs [= <-]|].
  exists (seqZ 0 24). split; [reflexivity|by apply (bool_decide_unpack _)].
Qed.
(** The server after the first datagram. *)
Lemma example_opened :
  ∃ u out, example_first = Some (u, out, Continue) ∧
    readySessions (base u) = [7] ∧ u_done (base u) = false ∧ is_Some (sessionMap (base u) !! 7).
Proof.
  assert (match example_first with
    | Some (u, _, Continue) => bool_decide (readySessions (base u) = [7]) && negb (u_done (base u)) && bool_decide (is_Some (sessionMap (base u) !! 7))
    | _ => false end = true) as H by (vm_compute; reflexivity).
  destruct example_first as [[[u out] o]|]; [|discriminate H]. destruct o; [|discriminate H..]. exists u, out. split; [reflexivity|].
  apply andb_true_iff in H as [[H1 H2]%andb_true_iff H3].
  apply bool_decide_eq_true in H1, H3. apply negb_true_iff in H2. exact (conj H1 (conj H2 H3)).
Qed.

Lemma underlay_invariant_witness :
  ∃ u, rtc (underlayStep exampleHash (λ _, 0) example_gen example_program) example_server u ∧ u_done (base u) = true ∧
    sessions_ok PacketTransport (base u).
Proof.
  destruct example_opened as (u & out & Hrun & _). exists (PacketUnderlay_Close (λ _, Lifecycle.example_env) u).
  assert (rtc (underlayStep exampleHash (λ _, 0) example_gen example_program) example_server (PacketUnderlay_Close (λ _, Lifecycle.example_env) u)) as H.
  { eapply rtc_l; [|apply rtc_once, StepMethod, StepClose].
    refine (StepRound _ _ _ _ _ false false (example_roundEnv example_now) example_sendDraws None (Received example_dg example_addr) example_cache u out Continue _ Hrun).
    by apply (bool_decide_unpack _). }
  split; [exact H|]. split; [unfold PacketUnderlay_Close, Close_base; cbn; by destruct (u_done (base u)) eqn:E|].
  apply (underlay_invariant exampleHash (λ _, 0) example_gen example_program _ _ example_underlay_ok H).
Defined.
Lemma session_opened_by_user_witness :
  ∃ u en out, example_first = Some (u, out, Continue) ∧
    sessionMap (base u) !! 7 = Some en ∧ e_remoteAddr en = Some example_addr.
Proof.
  destruct example_opened as (u & out & Hrun & _ & _ & [en Hen]). exists u, en, out. split; [exact Hrun|]. split; [exact Hen|].
  destruct (session_opened_by_user exampleHash (λ _, 0) example_gen example_program false false (example_roundEnv example_now) example_sendDraws None
    (Received example_dg example_addr) example_cache example_server u out Continue 7 en eq_refl example_server_ok Hrun (lookup_empty 7) Hen)
    as (dg & addr & c & meta & seg & pol & Hev & _ & _ & _ & _ & _ & _ & Ha & _). congruence.
Defined.
Lemma open_request_opens_session_witness :
  ∃ u en inc, (loopRound exampleHash (λ _, 0) example_program false false (example_roundEnv example_now) example_sendDraws None
      (Received example_dg example_addr) example_cache example_server).2 = Some (u, [], Continue) ∧
    sessionMap (base u) = {[7 := en]} ∧ seg_payload (in_segment inc) = [1; 2; 3] ∧ e_recvChan en = [inc].
Proof.
  destruct (open_request_opens_session exampleHash (λ _, 0) example_gen example_program example_client (sd_buffer example_sendDraws) example_sendDraws 1700000000
    example_segment example_open example_cipher example_cipher) as (uc & seg & dg & Hw & Hsrv).
  1,2: reflexivity.
  - apply example_client_sender_ok.
  - split; [apply example_padding_draws_ok..|done].
  - by right.
  - intros n Hn. cbn. unfold len. rewrite length_replicate. lia.
  - by apply (bool_decide_unpack _).
  - reflexivity.
  - split; [by apply (bool_decide_unpack _)|]. split; [by apply (bool_decide_unpack _)|done].
  - reflexivity.
  - done.
  - by apply (bool_decide_unpack _).
  - assert (dg = example_dg) as ->.
    { assert ((writeOneSegment example_program (with_buffer (sd_buffer example_sendDraws) example_sendDraws) 1700000000 None example_segment
        (serverAddr example_client) example_client).2 = Ok example_dg) as E by (vm_compute; reflexivity). rewrite Hw in E. by injection E. }
    destruct (Hsrv (example_roundEnv example_now) example_sendDraws None example_addr (nth 1 (users example_state) (mkUser 0 [] [] (mkPolicy [] []))) example_cache example_server)
      as (u & en & inc & H1 & H2 & H3 & _ & H4 & _).
    + reflexivity.
    + reflexivity.
    + apply example_server_ok.
    + by apply (bool_decide_unpack _).
    + by apply (bool_decide_unpack _).
    + split.
      * eexists _, _. split; [reflexivity|]. split; [reflexivity|]. split; [right; left|]. intros v Hv Hne.
        apply elem_of_cons in Hv as [->|Hv]; [vm_compute; reflexivity|]. exfalso.
        apply elem_of_cons in Hv as [->|Hv]; [apply Hne; reflexivity|apply elem_of_nil in Hv; exact Hv].
      * exists (Time_Round example_now KeyRefreshInterval). split; [by apply (bool_decide_unpack _); vm_compute|vm_compute; reflexivity].
      * assert (Forall (λ b, c_key b = c_key example_cipher ∨
          Open (c_key b) (slice_to DefaultNonceSize (header example_dg)) (slice_from DefaultNonceSize (header example_dg)) = None)
          (templateAt (HashPassword [113] [98]) <$> saltTimes example_now)) as Hall by (apply (bool_decide_unpack _); vm_compute; exact I).
        intros b Hb Hk. destruct (proj1 (Forall_forall _ _) Hall b Hb) as [E|E]; [by destruct Hk|exact E].
      * reflexivity.
      * intros j en Hj. change ((∅ : gmap Z sessionEntry) !! j = Some en) in Hj. by rewrite lookup_empty in Hj.
      * vm_compute. reflexivity.
    + apply lookup_empty.
    + done.
    + exists u, en, inc. split; [exact H1|]. split; [exact H2|]. split; [exact H4|apply H3].
Defined.

(** A process with two ports: the same datagram comes from another address to
    the second one, which has seen no datagram itself. *)
Definition example_process : process := mkProcess example_cache [example_server; example_server].
Lemma example_process_ok : process_ok exampleHash example_gen example_process.
Proof. apply Forall_cons. split; [apply example_underlay_ok|]. apply Forall_singleton, example_underlay_ok. Qed.
Lemma example_process_first :
  ∃ ps out, processRound exampleHash (λ _, 0) example_program 0 (example_round example_now example_addr) example_process = Some (ps, out, Continue) ∧
    packetUnderlays ps !! 1%nat = Some example_server.
Proof.
  destruct example_opened as (u & out & Hrun & _). unfold example_first in Hrun. unfold processRound.
  change (packetUnderlays example_process !! 0%nat) with (Some example_server). cbn [packetReplayCache example_process mbind option_bind].
  destruct (runRound _ _ _ _ _ _) as [g o]. cbn [snd] in Hrun. subst o.
  exists (mkProcess g (<[0%nat:=u]> (packetUnderlays example_process))), out. split; [reflexivity|].
  cbn [packetUnderlays]. by rewrite list_lookup_insert_ne.
Qed.
Lemma replayed_datagram_dropped_witness :
  ∃ ps2 ps4 out u',
    processRound exampleHash (λ _, 0) example_program 0 (example_round example_now example_addr) example_process = Some (ps2, out, Continue) ∧
    processRound exampleHash (λ _, 0) example_program 1 (example_round (example_now + Second) example_addr2) ps2 = Some (ps4, [], Continue) ∧
    packetUnderlays ps4 !! 1%nat = Some u' ∧ sessionMap (base u') = ∅.
Proof.
  destruct example_process_first as (ps2 & out & Hrun & H1).
  destruct (replayed_datagram_dropped exampleHash (λ _, 0) example_gen example_program example_now 4194304 360000000000
    example_process example_process ps2 ps2 [] [] 0 1 example_server example_server
    (example_round example_now example_addr) (example_round (example_now + Second) example_addr2) out Continue
    example_dg example_dg example_addr example_addr2)
    as (ps4 & u' & H4 & Hu & Hm & _).
  - apply example_process_ok.
  - reflexivity.
  - done.
  - constructor.
  - reflexivity.
  - reflexivity.
  - reflexivity.
  - reflexivity.
  - by apply (bool_decide_unpack _).
  - by apply (bool_decide_unpack _).
  - exact Hrun.
  - constructor.
  - exact H1.
  - reflexivity.
  - reflexivity.
  - reflexivity.
  - by apply (bool_decide_unpack _).
  - reflexivity.
  - by apply (bool_decide_unpack _).
  - constructor; [by apply (bool_decide_unpack _)|constructor].
  - intros t [-> | (k & Hk & _)] _ _.
    + apply (bool_decide_unpack _). vm_compute. exact I.
    + cbn [app] in Hk. apply elem_of_nil in Hk. destruct Hk.
  - exists ps2, ps4, out, u'. split; [exact Hrun|]. split; [exact H4|]. split; [|exact Hm].
    rewrite Hu. apply list_lookup_insert_eq. by apply lookup_lt_Some in H1.
Defined.

Definition example_entry : sessionEntry := Eval cbn in
  match newSessionWithServerUserPolicy 0 7 false 1400 noPolicy None 0 with
  | Ok en => en<|e_session := (attach PacketTransport (e_session en)).1.1<|block := Some example_cipher|>|><|e_ready := true|>
  | _ => mkEntry (mkSess 0 false 0 UnknownTransport None None 0 0 false false 0 0 false false (mkTree tr_New 0 false false) (mkTree tr_New 0 false false)
      (mkTree tr_New 0 false false) (mkTree tr_New 0 false false) false 0 0 0 0 0 0 0 false 0 [] NewRTTStats (mkCubic 0 0 cubicSlowStart 0 0 (f64_of 0) 0) 0 false [] false)
      None None false []
  end.
Definition example_shared : PacketUnderlay := with_base ((base example_server)<|sessionMap := {[7 := example_entry]}|>) example_server.
Definition example_foreign : incoming :=
  mkIncoming (mkSegment (MDataAck (mkDataAck (mkBase ackClientToServer 0) 0 7 0 0 0 0 0 0 0 0 0 0)) [] PacketTransport 0 0 0 0
    (Some (SetBlockContext [97] example_cipher))) noPolicy noAuthentication.
Lemma foreign_segment_panics_witness :
  ∃ u b ev, dispatch exampleHash example_program (example_roundEnv example_now) example_sendDraws None example_foreign example_addr example_shared
      = Some (u, [], Continue) ∧
    receive Lifecycle.example_env 7 (base u) = Some (b, (ev, Panic "cipher block user name is different")).
Proof.
  apply (foreign_segment_panics exampleHash example_gen example_program (example_roundEnv example_now) example_sendDraws None example_foreign example_addr
    example_shared (mkDataAck (mkBase ackClientToServer 0) 0 7 0 0 0 0 0 0 0 0 0 0) example_entry example_cipher (SetBlockContext [97] example_cipher)).
  1: split; [|intros _; apply example_server_ok]; split; [|done]; apply map_Forall_singleton; split; done.
  all: done.
Defined.
