(* ===== verification/StreamUnderlay.v ===== *)
(** * pkg/protocol/underlay_stream.go: the underlay over TCP

    [StreamUnderlay] with its sessions (SessionMap.v) and its two stateful
    ciphers around the byte stream of Stream.v.  One step handles one round of
    the event loop, or is one method call.  What the peer sends is the list
    [t_in] of bytes that have arrived; an event says which bytes come in while
    the loop reads, and how the wait ends when they are not enough.  The replay
    cache is a variable of the package, shared by all underlays: a round takes
    it and gives it back.

    Theorems: all sessions of a server's connection belong to the user whose key
    opened its first message; a client's first open request makes the server open
    the session; whatever bytes arrive, the event loop does not panic and every
    error has a type; what is drained after an error has a size that
    [io.ReadAtLeast] accepts. *)
From S2P Require Import Prelude MathExt Messages LowEntropy Metadata GoStd GoFloat GoNet Ascii Cipher Rng Replay SourceCache ServerUser.
From S2P Require Import Segment Underlay Padding Packet Stream Congestion Session Lifecycle SessionMap.

(** What happens on the connection during one read. *)
Record connEvent := mkConnEvent { ce_bytes : list Z; ce_stop : ending }.

Section underlay.
Context `{BT : BTree} `{F : GoFloat} `{C : Crypto}.
Variable maphash : list Z → Z.
Variable jitter : Z → Z.
Variable p : program.
Variable hostName : list Z.

(** What one write meets: the draws, the outcome of each [Write], and the sizes
    of the fragments. *)
Record writeEnv := mkWriteEnv { we_draws : sendDraws; we_sent : nat → option error; we_fragment : nat → Z → Z }.

Record StreamUnderlay := mkStreamUnderlay {
  t_base : baseUnderlay;
  t_send : option aeadBlockCipher;
  t_recv : option aeadBlockCipher;
  t_block : option aeadBlockCipher;     (* client *)
  t_users : option Registry;            (* server *)
  t_source : Source;
  t_policy : Policy;
  t_world : ServerUser.world;           (* the cipher caches of the registry's users *)
  t_in : list Z;
  t_idle : option Z;                    (* lastActivity of an IdleTrackingConn *)
  t_fixedV : hintCache
}.
#[export] Instance StreamUnderlay_eta : Settable StreamUnderlay := λ t,
  mkStreamUnderlay (t_base t) (t_send t) (t_recv t) (t_block t) (t_users t) (t_source t) (t_policy t) (t_world t) (t_in t)
    (t_idle t) (t_fixedV t).
Definition t_isClient (t : StreamUnderlay) : bool := u_isClient (t_base t).
Definition t_with_base (b : baseUnderlay) (t : StreamUnderlay) : StreamUnderlay := t<|t_base := b|>.

(** [NewStreamUnderlay] of a client, when name resolution and dialing succeed,
    and [serverWrapTCPConn] of mux.go for a connection that was accepted. *)
Definition NewStreamUnderlay (network : string) (mtu : Z) (blk : aeadBlockCipher) (trafficPattern : option TrafficPattern)
    (fixedV : hintCache) : result StreamUnderlay :=
  if negb (bool_decide (network ∈ ["tcp"; "tcp4"; "tcp6"]%string)) then Err (Errorf "network is not supported by stream underlay")
  else if IsStateless blk then Err (Errorf "stream underlay block cipher must be stateful")
  else Ok (mkStreamUnderlay (newBaseUnderlay true mtu trafficPattern) None None (Some blk) None (mkSource [] false) noPolicy (mkWorld ∅ ∅)
             [] None fixedV).
Definition serverWrapTCPConn (now : Z) (remote : netAddr) (mtu : Z) (trafficPattern : option TrafficPattern) (reg : Registry)
    (w : ServerUser.world) (fixedV : hintCache) : StreamUnderlay :=
  mkStreamUnderlay (newBaseUnderlay false mtu trafficPattern) None None None (Some reg) (SourceFromAddr remote) noPolicy w
    [] (Some now) fixedV.

(** [recordActivity(n)] of pkg/common/conn.go. *)
Definition recordActivity (now n : Z) (t : StreamUnderlay) : StreamUnderlay :=
  if n >? 0 then t<|t_idle := (λ _, now) <$> t_idle t|> else t.

Definition StreamUnderlay_AddSession (en : sessionEntry) (remoteAddr : option netAddr) (t : StreamUnderlay) : result StreamUnderlay :=
  b ← AddSession StreamTransport en remoteAddr (t_base t);
  Ok (t_with_base b t).

(** ** Writing *)

Definition maybeInitSendBlockCipher (t : StreamUnderlay) : result StreamUnderlay :=
  match t_send t with
  | Some _ => Ok t
  | None =>
    if t_isClient t then
      match t_block t with
      | Some b => c ← Clone b; Ok (t<|t_send := Some c|>)
      | None => Panic "nil pointer dereference"
      end
    else
      match t_recv t with
      | Some r => c ← Clone r; Ok (t<|t_send := Some (SetImplicitNonceMode true (SetImplicitNonceMode false c))|>)
      | None => Err (Errorf "recv cipher is nil")
      end
  end.

(** The pieces that went out before the outcome; [m] is the metadata. *)
Definition sendPieces (we : writeEnv) (m : metadata) (t : StreamUnderlay) (data : list Z) : list (list Z) * result unit :=
  match m with
  | MSession _ => writeWithPossibleFragment (u_trafficPattern (t_base t)) (we_sent we) (we_fragment we) data
  | MDataAck _ =>
    match we_sent we 0%nat with
    | Some e => ([], Err (Wrapf "Write() failed" e))
    | None => ([data], Ok tt)
    end
  end.

(** [writeOneSegment]; the segment's metadata is changed in place. *)
Definition t_writeOneSegment (we : writeEnv) (now : Z) (seg : segment) (t : StreamUnderlay)
    : StreamUnderlay * segment * (list (list Z) * result unit) :=
  let firstWrite := bool_decide (t_send t = None) in
  match maybeInitSendBlockCipher t with
  | Err e => (t, seg, ([], Err (Wrapf "maybeInitSendBlockCipher() failed" e)))
  | Panic m => (t, seg, ([], Panic m))
  | Ok t =>
    match t_send t with
    | None => (t, seg, ([], Panic "nil pointer dereference"))
    | Some c =>
      let '(s, r) := buildStream p (we_draws we) (u_mtu (t_base t)) (u_trafficPattern (t_base t)) (Unix now) firstWrite (seg_payload seg)
                       (mkSending c (seg_metadata seg) (t_fixedV t)) in
      let t := t<|t_send := Some (w_block s)|><|t_fixedV := w_fixedV s|> in
      let seg := seg<|seg_metadata := w_metadata s|> in
      match r with
      | Err e => (t, seg, ([], Err e))
      | Panic m => (t, seg, ([], Panic m))
      | Ok data =>
        let '(pieces, r) := sendPieces we (seg_metadata seg) t data in
        let t := recordActivity now (len (concat pieces)) t in
        let t := match r with Ok _ => t_with_base ((t_base t)<|outBytes := outBytes (t_base t) + len data|>) t | _ => t end in
        (t, seg, (pieces, r))
      end
    end
  end.

(** ** Reading *)

(** [streamReplayCache] is a variable of the package: all underlays of the
    process use it, so a read takes it and gives it back beside the state of the
    connection. *)
Definition reading_of (streamReplayCache : ReplayCache) (t : StreamUnderlay) : reading :=
  mkReading (t_recv t) (t_in t) streamReplayCache (inBytes (t_base t)) (t_users t) (t_world t).
Definition with_reading (rd : reading) (t : StreamUnderlay) : StreamUnderlay :=
  t<|t_recv := rd_recv rd|><|t_in := rd_in rd|><|t_users := rd_users rd|><|t_world := rd_world rd|>
   <|t_base := (t_base t)<|inBytes := rd_inBytes rd|>|>.
(** A segment with the policy and the authentication of a new connection. *)
Definition authenticated (seg : segment) (a : Authentication) : incoming :=
  if Valid a then mkIncoming seg (a_policy a) a else mkIncoming seg noPolicy noAuthentication.

(** [readOneSegment] with the bytes that come in meanwhile. *)
Definition t_readOneSegment (pe : roundEnv) (ev : connEvent) (streamReplayCache : ReplayCache) (t : StreamUnderlay)
    : ReplayCache * (StreamUnderlay * result (option incoming)) :=
  let t := t<|t_in := t_in t ++ ce_bytes ev|> in
  let '(rd, r) := readOneSegment (pe_now pe) (ce_stop ev) maphash jitter (pe_tick pe) (t_isClient t) (t_block t) (u_trafficPattern (t_base t))
                    (t_source t) (unixOf pe) (reading_of streamReplayCache t) in
  let t := recordActivity (pe_now pe) (len (t_in t) - len (rd_in rd)) (with_reading rd t) in
  (rd_replays rd,
   (t, match r with
       | Ok (Some (seg, a)) => Ok (Some (authenticated seg a))
       | Ok None => Ok None
       | Err e => Err e
       | Panic m => Panic m
       end)).

(** [drainAfterError]: the deadline in milliseconds, the size of the buffer and
    how many bytes are read at least; [dr_time n] and [dr_size n] are what
    [mrand.Intn(n)] returns.  What it reads is dropped, and the
    connection is closed when the loop returns. *)
Record drainDraws := mkDrain { dr_time : Z → Z; dr_timeBase : f64; dr_size : Z → Z; dr_sizeBase : f64 }.
Definition drainSizes (dr : drainDraws) (fixedV : hintCache) : hintCache * result (Z * Z * Z) :=
  let '(fixedV, t) := FixedIntVH (appVersion p) hostName fixedV 50000 in
  let '(fixedV, bufSizeType) := FixedIntVH (appVersion p) hostName fixedV 4 in
  let bufSize := Z.shiftl 1 (12 + bufSizeType) in
  let '(fixedV, m) := FixedIntVH (appVersion p) hostName fixedV 256 in
  (fixedV,
   timeoutMillis ← IntRange (dr_time dr (9000 + 1)) (dr_timeBase dr) 1000 10000;
   minRead ← IntRange (dr_size dr (bufSize - 254 + 1)) (dr_sizeBase dr) 0 (bufSize - 254);
   Ok (timeoutMillis + t, bufSize, minRead + m)).

Definition GetErrorType (err : option error) : errorType :=
  match err with
  | None => NO_ERROR
  | Some (TypedError t _) => t
  | Some _ => UNKNOWN_ERROR
  end.

(** ** The event loop *)

Definition t_handled : Type := option (StreamUnderlay * result unit).

Definition t_deliverTo (pe : roundEnv) (i : Z) (seg : incoming) (t : StreamUnderlay) : t_handled :=
  match deliverSegmentToSession (pe_pick pe) i seg (t_base t) with
  | None => None
  | Some (b, _) => Some (t_with_base b t, Ok tt)
  end.

Definition t_onOpenSessionRequest (pe : roundEnv) (seg : incoming) (t : StreamUnderlay) : t_handled :=
  if t_isClient t then Some (t, Err ErrInvalidOperation) else
  match sessionIDOf seg with
  | Err e => Some (t, Err e)
  | Panic m => Some (t, Panic m)
  | Ok sessionID =>
    if sessionID =? 0 then Some (t, Err (Errorf "reserved session ID is used")) else
    match sessionMap (t_base t) !! sessionID with
    | Some _ => Some (t, Ok tt)
    | None =>
      let policy := if Valid (in_authentication seg) then a_policy (in_authentication seg) else t_policy t in
      match (en ← newSessionWithServerUserPolicy (microOf pe) sessionID false (u_mtu (t_base t)) policy (u_trafficPattern (t_base t))
                    (pe_jitterMs pe);
             StreamUnderlay_AddSession en None t) with
      | Err e => Some (t, Err e)
      | Panic m => Some (t, Panic m)
      | Ok t =>
        match deliverSegmentToSession (pe_pick pe) sessionID seg (t_base t) with
        | None => None
        | Some (b, false) => Some (t_with_base b t, Err (Errorf "failed to deliver open session request"))
        | Some (b, true) =>
          match makeReady (pe_pick pe) sessionID b with
          | None => None
          | Some (b, r) => Some (t_with_base b t, r)
          end
        end
      end
    end
  end.

(** [commitServerUserAuthentication]. *)
Definition t_commit (pe : roundEnv) (seg : incoming) (t : StreamUnderlay) : StreamUnderlay * result unit :=
  if negb (Valid (in_authentication seg)) then (t, Ok tt) else
  let t := t<|t_policy := a_policy (in_authentication seg)|> in
  match t_users t with
  | None => (t, Ok tt)
  | Some reg =>
    match Record_ maphash (pe_tick pe) (in_authentication seg) reg with
    | Ok (_, reg) => (t<|t_users := Some reg|>, Ok tt)
    | Err e => (t, Err e)
    | Panic m => (t, Panic m)
    end
  end.

Definition t_onOpenSessionResponse (pe : roundEnv) (seg : incoming) (t : StreamUnderlay) : t_handled :=
  if negb (t_isClient t) then Some (t, Err ErrInvalidOperation) else
  match sessionIDOf seg with
  | Err e => Some (t, Err e)
  | Panic m => Some (t, Panic m)
  | Ok sessionID =>
    match sessionMap (t_base t) !! sessionID with
    | None => Some (t, Err (Errorf "session ID is not found"))
    | Some _ => t_deliverTo pe sessionID seg t
    end
  end.
Definition t_onCloseSession (pe : roundEnv) (seg : incoming) (t : StreamUnderlay) : t_handled :=
  match sessionIDOf seg with
  | Err e => Some (t, Err e)
  | Panic m => Some (t, Panic m)
  | Ok sessionID =>
    match sessionMap (t_base t) !! sessionID with
    | None => Some (t, Ok tt)
    | Some _ => t_deliverTo pe sessionID seg t
    end
  end.
Definition t_closeReq (das : dataAckStruct) : segment :=
  mkSegment (MSession (mkSession (mkBase closeSessionRequest 0) (das_sessionID das) (das_unAckSeq das) 0 0 0)) [] StreamTransport 0 0 0 0 None.

(** What the loop does after a handler: its error ends the loop. *)
Definition t_after (name : string) (h : t_handled) : option (StreamUnderlay * list (list Z) * loopOutcome) :=
  match h with
  | None => None
  | Some (t, Ok _) => Some (t, [], Continue)
  | Some (t, Err e) => Some (t, [], Return (Some (Wrapf name e)))
  | Some (t, Panic m) => Some (t, [], LoopPanic m)
  end.

Definition t_dispatch (pe : roundEnv) (we : writeEnv) (seg : incoming) (t : StreamUnderlay)
    : option (StreamUnderlay * list (list Z) * loopOutcome) :=
  let m := seg_metadata (in_segment seg) in
  let protocol := Protocol m in
  if isSessionProtocol protocol then
    if protocol =? openSessionRequest then
      match t_onOpenSessionRequest pe seg t with
      | Some (t, Ok _) => t_after "" (Some (t_commit pe seg t))
      | h => t_after "onOpenSessionRequest() failed" h
      end
    else if protocol =? openSessionResponse then t_after "onOpenSessionResponse() failed" (t_onOpenSessionResponse pe seg t)
    else t_after "onCloseSession() failed" (t_onCloseSession pe seg t)
  else if isDataAckProtocol protocol then
    match toDataAckStruct m with
    | Panic msg => Some (t, [], LoopPanic msg)
    | Ok (Some das) =>
      match sessionMap (t_base t) !! das_sessionID das with
      | Some _ => t_after "" (t_deliverTo pe (das_sessionID das) seg t)
      | None =>
        match t_writeOneSegment we (pe_now pe) (t_closeReq das) t with
        | (t, _, (pieces, Ok _)) => Some (t, pieces, Continue)
        | (t, _, (pieces, Err e)) => Some (t, pieces, Return (Some (Wrapf "writeOneSegment() failed" e)))
        | (t, _, (pieces, Panic m)) => Some (t, pieces, LoopPanic m)
        end
      end
    | _ => Some (t, [], LoopPanic "nil pointer dereference")
    end
  else Some (t, [], Continue).

(** [cleanSessions] removes the closed sessions. *)
Definition t_cleanSession (pe : roundEnv) (b : baseUnderlay) (i : Z) : baseUnderlay :=
  match sessionMap b !! i with
  | None => b
  | Some en => if closedChan (e_session en) then (RemoveSession (pe_close pe i) en b).1 else b
  end.
Definition t_cleanSessions (pe : roundEnv) (t : StreamUnderlay) : StreamUnderlay :=
  t_with_base (foldl (t_cleanSession pe) (t_base t) (pe_order pe)) t.

(** One round of the loop; [tick]: the cleaning ticker has fired, [cancelled]:
    the context is done.  When both can be selected, [pe_pick] chooses. *)
Definition t_loopRound (cancelled tick : bool) (pe : roundEnv) (we : writeEnv) (dr : drainDraws) (ev : connEvent)
    (streamReplayCache : ReplayCache) (t : StreamUnderlay)
    : ReplayCache * option (StreamUnderlay * list (list Z) * loopOutcome) :=
  if (cancelled || u_done (t_base t)) && (negb tick || pe_pick pe) then (streamReplayCache, Some (t_cleanSessions pe t, [], Return None)) else
  let t := if tick then t_cleanSessions pe t else t in
  let '(streamReplayCache, r) := t_readOneSegment pe ev streamReplayCache t in
  (streamReplayCache,
   match r with
   | (t, Panic m) => Some (t, [], LoopPanic m)
   | (t, Ok None) => Some (t, [], Continue)
   | (t, Ok (Some seg)) =>
     if Valid (in_authentication seg) then
       match validateNewServerSessionSegment (in_segment seg) with
       | Ok _ => t_dispatch pe we seg t
       | Err e => Some (t, [], Return (Some (TypedError PROTOCOL_ERROR e)))
       | Panic m => Some (t, [], LoopPanic m)
       end
     else t_dispatch pe we seg t
   | (t, Err e) =>
     if u_done (t_base t) then Some (t_cleanSessions pe t, [], Return None) else
     let returned t := Some (t, [], Return (Some (Wrapf "readOneSegment() failed" e))) in
     match GetErrorType (Some e) with
     | NO_ERROR => Some (t, [], LoopPanic "error type is NO_ERROR while error is not nil")
     | UNKNOWN_ERROR => Some (t, [], LoopPanic "got unexpected error type UNKNOWN_ERROR")
     | CRYPTO_ERROR | REPLAY_ERROR =>
       let '(fixedV, r) := drainSizes dr (t_fixedV t) in
       let t := t<|t_fixedV := fixedV|> in
       match r with
       | Panic m => Some (t, [], LoopPanic m)
       | _ => returned t
       end
     | _ => returned t
     end
   end).

(** ** Closing *)

Definition StreamUnderlay_Close (e : Z → env) (t : StreamUnderlay) : StreamUnderlay := t_with_base (Close_base e (t_base t)) t.

(** [CloseIfIdle] of pkg/common/conn.go. *)
Definition CloseIfIdle (now lastActivity timeout : Z) : bool :=
  negb ((timeout <=? 0) || (Time_Sub now lastActivity <? timeout)).
Definition closeIfIdle (e : Z → env) (now timeout : Z) (t : StreamUnderlay) : StreamUnderlay * bool :=
  if u_done (t_base t) then (t, false) else
  match t_idle t with
  | None => (t, false)
  | Some last =>
    if negb (CloseIfIdle now last timeout) then (t, false) else
    let b := t_base t in
    let b := b<|sessionMap := map_imap (λ i en, Some (en<|e_session := (closeWithError (e i) (Some ErrTimeout) (e_session en)).1.1|>)) (sessionMap b)|> in
    (t_with_base (Close_base e b) t, true)
  end.
End underlay.

(** ** What a read does to the connection *)

Section reads.
Context `{BT : BTree} `{F : GoFloat} `{CL : CryptoLaws}.

Definition typed (e : error) : Prop :=
  ∃ t e', e = TypedError t e' ∧ t ∈ [PROTOCOL_ERROR; NETWORK_ERROR; CRYPTO_ERROR; REPLAY_ERROR].
(** With a cipher for receiving, [m] does not panic, its errors are in [E], its
    value is in [Q], and only the nonce of the cipher moves. *)
Definition tame {A} (E : error → Prop) (Q : A → reading → Prop) (m : R A) : Prop := ∀ s c,
  rd_recv s = Some c →
  let o := m s in
  rd_users o.1 = rd_users s ∧ rd_world o.1 = rd_world s ∧ (∃ n, rd_recv o.1 = Some (with_nonce n c)) ∧
  match o.2 with Ok a => Q a o.1 | Err e => E e | Panic _ => False end.

Lemma with_nonce_same c : with_nonce (implicitNonce c) c = c.
Proof using. by destruct c. Qed.
Lemma Decrypt_moves c ct : (∃ n, (Decrypt c ct).1 = with_nonce n c) ∧ ∀ m, (Decrypt c ct).2 ≠ Panic m.
Proof using.
  assert (∀ c n l m, openWith c n l ≠ Panic m) as Hopen by (intros c0 n l m; unfold openWith; by destruct (Open _ _ _)).
  unfold Decrypt. destruct (enableImplicitNonce c) eqn:Ei; [destruct (Z.eqb_spec (len (implicitNonce c)) 0) as [|Hl]|].
  - destruct (_ <? _); cbn [fst snd]; (split; [|done]); [exists (implicitNonce c); by rewrite with_nonce_same|by eexists].
  - unfold increaseNonce. rewrite Ei. destruct (Z.eqb_spec (len (implicitNonce c)) 0); [done|]. cbn [negb orb fst snd]. split; [by eexists|done].
  - destruct (_ <? _); cbn [fst snd]; (split; [exists (implicitNonce c); by rewrite with_nonce_same|done]).
Qed.

Lemma tame_stay {A} E (Q : A → reading → Prop) (m : R A) :
  (∀ s, rd_users (m s).1 = rd_users s ∧ rd_world (m s).1 = rd_world s ∧ rd_recv (m s).1 = rd_recv s ∧
     match (m s).2 with Ok a => is_Some (rd_recv s) → Q a (m s).1 | Err e => E e | Panic _ => False end) → tame E Q m.
Proof using.
  intros H s c Hc. destruct (H s) as (H1 & H2 & H3 & H4). split_and!; [done|done| |].
  - exists (implicitNonce c). by rewrite H3, with_nonce_same.
  - destruct ((m s).2); [|done..]. apply H4. by rewrite Hc.
Qed.
Lemma tame_bind {A B} E (Q : A → reading → Prop) (Q' : B → reading → Prop) (m : R A) (f : A → R B) :
  tame E Q m → (∀ a s c, Q a s → rd_recv s = Some c → let o := f a s in
    rd_users o.1 = rd_users s ∧ rd_world o.1 = rd_world s ∧ (∃ n, rd_recv o.1 = Some (with_nonce n c)) ∧
    match o.2 with Ok b => Q' b o.1 | Err e => E e | Panic _ => False end) → tame E Q' (m ≫= f).
Proof using.
  intros Hm Hf s c Hc. destruct (Hm s c Hc) as (H1 & H2 & (n & H3) & H4). unfold mbind, R_bind.
  destruct (m s) as [s1 [a|e|msg]]; cbn [fst snd] in *; [|by split_and!; eauto..].
  destruct (Hf a s1 _ H4 H3) as (G1 & G2 & (n' & G3) & G4). split_and!; [congruence|congruence| |done]. exists n'. by rewrite G3.
Qed.
Lemma tame_then {A B} E (Q' : B → reading → Prop) (m : R A) (f : A → R B) :
  tame E (λ _ _, True) m → (∀ a, tame E Q' (f a)) → tame E Q' (m ≫= f).
Proof using. intros Hm Hf. eapply tame_bind; [exact Hm|]. intros a s c _ Hc. by apply Hf. Qed.
Lemma tame_rtyped {A} t msg (Q : A → reading → Prop) (m : R A) :
  t ∈ [PROTOCOL_ERROR; NETWORK_ERROR; CRYPTO_ERROR; REPLAY_ERROR] → tame (λ _, True) Q m → tame typed Q (rtyped t msg m).
Proof using.
  intros Ht Hm s c Hc. specialize (Hm s c Hc). unfold rtyped. destruct (m s) as [s1 [a|e|p]]; cbn [fst snd] in *; [done| |done].
  destruct Hm as (H1 & H2 & H3 & _). split_and!; [done..|]. by eexists _, _.
Qed.
Lemma tame_ret {A} E (Q : A → reading → Prop) (a : A) : (∀ s, is_Some (rd_recv s) → Q a s) → tame E Q (mret a).
Proof using. intros H. apply tame_stay. intros s. split_and!; [done..|exact (H s)]. Qed.
Lemma tame_lift {A} E (r : result A) : (∀ m, r ≠ Panic m) → (∀ e, r = Err e → E e) → tame E (λ _ _, True) (rlift r).
Proof using. intros H1 H2. apply tame_stay. intros s. split_and!; [done..|]. cbn. destruct r; [done|by apply H2|by apply (H1 msg)]. Qed.

Lemma tame_readBytes n stop : tame (λ _, True) (λ _ _, True) (readBytes n stop).
Proof using. apply tame_stay. intros s. unfold readBytes, ReadFull. by destruct (n <=? len (rd_in s)). Qed.
Lemma tame_notice E now b : tame E (λ _ _, True) (notice now b).
Proof using. apply tame_stay. intros s. unfold notice. by destruct (IsDuplicate _ _ _ _). Qed.
Lemma tame_recvDecrypt b : tame (λ _, True) (λ _ _, True) (recvDecrypt b).
Proof using CL.
  intros s c Hc. unfold recvDecrypt. rewrite Hc. destruct (Decrypt_moves c b) as [[n Hn] Hp]. destruct (Decrypt c b) as [c' r].
  cbn [fst snd] in *. subst c'. split_and!; [done|done|by exists n|]. destruct r; [done|done|by apply (Hp msg)].
Qed.
Lemma tame_readPadding stop n : tame typed (λ _ _, True) (readPadding stop n).
Proof using CL.
  unfold readPadding. destruct (n >? 0); [|by apply tame_ret]. eapply tame_then; [|intros _; by apply tame_ret].
  apply tame_rtyped; [set_solver|apply tame_readBytes].
Qed.
Ltac tame := repeat first
  [ eapply tame_then; [|intros ?] | by apply tame_ret | apply tame_rtyped; [set_solver|] | apply tame_readBytes | apply tame_notice
  | apply tame_recvDecrypt | apply tame_readPadding | case_match ].

(** The segment a read ends with: the cipher is the one that received it. *)
Definition segment_read (seg : segment) (s : reading) : Prop :=
  seg_block seg = rd_recv s ∧
  match seg_metadata seg with
  | MSession ss => isSessionProtocol (ss_Protocol ss) = true
  | MDataAck das => isDataAckProtocol (das_Protocol das) = true
  end.
Lemma tame_arrived (m : metadata) (pl : list Z) :
  match m with MSession ss => isSessionProtocol (ss_Protocol ss) = true | MDataAck das => isDataAckProtocol (das_Protocol das) = true end →
  tame typed segment_read (recv ← rrecv; mret (arrived m pl recv)).
Proof using CL.
  intros Hm s c Hc. unfold mbind, R_bind, rrecv, mret, R_ret. cbn [fst snd]. split_and!; [done|done| |].
  - exists (implicitNonce c). by rewrite with_nonce_same.
  - split; [done|]. by destruct m.
Qed.
Lemma tame_readSession now stop ss : isSessionProtocol (ss_Protocol ss) = true → tame typed segment_read (readSessionSegment now stop ss).
Proof using CL.
  intros H. unfold readSessionSegment. eapply tame_then; [tame|]. intros pl. eapply tame_then; [tame|]. intros _.
  by apply (tame_arrived (MSession ss)).
Qed.
Lemma tame_readDataAck now stop das : isDataAckProtocol (das_Protocol das) = true → tame typed segment_read (readDataAckSegment now stop das).
Proof using CL.
  intros H. unfold readDataAckSegment. eapply tame_then; [tame|]. intros _. eapply tame_then; [|intros pl; eapply tame_then; [tame|intros _]].
  - destruct (_ >? _); [|by apply tame_ret]. eapply tame_then; [tame|]. intros b. eapply tame_then; [|intros b'; tame].
    destruct (isLowEntropyProtocol _); [|by apply tame_ret]. apply tame_rtyped; [set_solver|]. apply tame_lift; [|done].
    apply decodeEncrypted_total.
  - by apply (tame_arrived (MDataAck das)).
Qed.

Lemma tame_readBody now stop unix meta : tame typed segment_read (readBody now stop unix meta).
Proof using CL.
  assert (∀ m, tame typed segment_read (rlift (Err (TypedError PROTOCOL_ERROR (Errorf m))))) as Hfail.
  { intros m. apply tame_stay. intros s. split_and!; [done..|]. eexists _, _. split; [done|set_solver]. }
  unfold readBody. destruct (negb _); [apply Hfail|]. destruct (isSessionProtocol _); [|destruct (isDataAckProtocol _); [|apply Hfail]].
  - apply tame_bind with (Q := λ ss _, isSessionProtocol (ss_Protocol ss) = true); [|intros ss s c Hss Hc; by apply tame_readSession].
    apply tame_rtyped; [set_solver|]. apply tame_stay. intros s. split_and!; [done..|]. cbn.
    destruct (ss_Unmarshal unix meta) as [ss|e|m] eqn:E; [|done|by apply ss_Unmarshal_total in E]. intros _. by apply ss_Unmarshal_inv in E as (_ & ? & _).
  - apply tame_bind with (Q := λ das _, isDataAckProtocol (das_Protocol das) = true); [|intros das s c Hdas Hc; by apply tame_readDataAck].
    apply tame_rtyped; [set_solver|]. apply tame_stay. intros s. split_and!; [done..|]. cbn.
    destruct (das_Unmarshal unix meta) as [das|e|m] eqn:E; [|done|by apply das_Unmarshal_total in E]. intros _. by apply das_Unmarshal_inv in E as (_ & ? & _).
Qed.

Context (maphash : list Z → Z) (jitter : Z → Z).
Section one.
Context (now : Z) (stop : ending) (tick : Z) (isClient : bool) (blk : option aeadBlockCipher) (tp : option TrafficPattern) (source : Source).
#[local] Abbreviation openMeta := (openMetadata now maphash jitter tick isClient blk tp source).

Lemma tame_openMetadata em replayed : tame typed (λ x _, x.2 = noAuthentication) (openMeta em replayed).
Proof using CL.
  intros s c Hc. unfold openMetadata. rewrite (R_bind_Ok rrecv _ s s (Some c)) by (unfold rrecv; by rewrite Hc). revert Hc. revert s c.
  change (tame typed (λ x _, x.2 = noAuthentication)
    (pt ← rtyped CRYPTO_ERROR "Decrypt() failed" (recvDecrypt em); mret (pt, noAuthentication) : R (list Z * Authentication))).
  eapply tame_then; [tame|]. intros pt. by apply tame_ret.
Qed.

Context (unix : Z).
#[local] Abbreviation readOne := (readOneSegment now stop maphash jitter tick isClient blk tp source unix).

(** The segment and the authentication that a read ends with. *)
Definition read_from (a : Authentication) (x : option (segment * Authentication)) (s : reading) : Prop :=
  match x with Some (seg, a') => segment_read seg s ∧ a' = a | None => True end.

(** After the metadata. *)
Lemma tame_rest a em replayed :
  (∀ s c, rd_recv s = Some c → let o := openMeta em replayed s in
     rd_users o.1 = rd_users s ∧ rd_world o.1 = rd_world s ∧ (∃ n, rd_recv o.1 = Some (with_nonce n c)) ∧
     match o.2 with Ok x => x.2 = a | Err e => typed e | Panic _ => False end) →
  tame typed (read_from a) ('(meta, a) ← openMeta em replayed; seg ← readBody now stop unix meta; mret (Some (seg, a))).
Proof using CL.
  intros Hopen. apply tame_bind with (Q := λ x _, x.2 = a); [exact Hopen|]. intros [meta a'] s c Ha Hc. cbn in Ha. subst a'. revert s c Hc.
  change (tame typed (read_from a) (seg ← readBody now stop unix meta; mret (Some (seg, a)))).
  eapply tame_bind; [apply tame_readBody|]. intros seg s c Hseg Hc. split; [done|]. split; [done|]. split; [|by split].
  exists (implicitNonce c). by rewrite with_nonce_same.
Qed.

(** A read with a cipher. *)
Lemma tame_readOne : tame typed (read_from noAuthentication) readOne.
Proof using CL.
  intros s c Hc. unfold readOneSegment. rewrite Hc. unfold ReadFull.
  destruct (_ <=? _).
  - set (s1 := _<|rd_inBytes := _|>). assert (rd_recv s1 = Some c) as Hc1 by done.
    set (m := (dup ← notice now _; _) : R (option (segment * Authentication))).
    assert (tame typed (read_from noAuthentication) m) as Hm; [|by apply (Hm s1 c Hc1)].
    unfold m. eapply tame_then; [tame|]. intros dup. apply tame_rest. intros s2 c2 H2. by apply tame_openMetadata.
  - destruct (bool_decide _ && _); cbn [fst snd].
    + split_and!; [done..| |done]. exists (implicitNonce c). by rewrite with_nonce_same.
    + split_and!; [done..| |]; [exists (implicitNonce c); by rewrite with_nonce_same|]. eexists _, _. split; [done|set_solver].
Qed.

Definition outcome_ok (o : reading * result (option (segment * Authentication))) : Prop :=
  match o.2 with
  | Ok (Some (seg, _)) => segment_read seg o.1 ∧ is_Some (rd_recv o.1)
  | Ok None => True
  | Err e => typed e
  | Panic _ => False
  end.
(** Without a cipher nothing was read. *)
Definition unread (o : reading * result (option (segment * Authentication))) : Prop := rd_recv o.1 = None ∧ ∀ x, o.2 ≠ Ok (Some x).

Lemma bind_same {A B} (m m' : R A) (f : A → R B) s s' : m s = m' s' → (m ≫= f) s = (m' ≫= f) s'.
Proof using. intros E. unfold mbind, R_bind. by rewrite E. Qed.

(** Either not enough came, or the replay cache and the counter are noted and
    the metadata is opened. *)
Lemma readOne_split rd :
  let o := readOne rd in
  (o.1 = rd<|rd_in := []|> ∧ (o.2 = Ok None ∨ ∃ e, o.2 = Err e ∧ typed e)) ∨
  ∃ em dup rd1, o = ('(meta, a) ← openMeta em (dup && bool_decide (rd_recv rd = None)); seg ← readBody now stop unix meta; mret (Some (seg, a))) rd1 ∧
    rd_recv rd1 = rd_recv rd ∧ rd_users rd1 = rd_users rd ∧ rd_world rd1 = rd_world rd.
Proof using CL.
  unfold readOneSegment, ReadFull. destruct (_ <=? _).
  - right. set (em := slice_to _ _). set (s1 := _<|rd_inBytes := _|>). destruct (IsDuplicate now (slice_to DefaultOverhead em) EmptyTag (rd_replays s1)) as [cache dup] eqn:E.
    exists em, dup, (s1<|rd_replays := cache|>). split; [|done]. etransitivity; [apply (R_bind_Ok (notice now em) _ s1 (s1<|rd_replays := cache|>) dup)|reflexivity].
    unfold notice. by rewrite E.
  - left. destruct (bool_decide _ && _); cbn [fst snd]; (split; [done|]); [by left|right].
    eexists. split; [done|]. eexists _, _. split; [done|set_solver].
Qed.

Lemma readOne_first_client rd b k :
  rd_recv rd = None → isClient = true → blk = Some b → Clone b = Ok k →
  let o := readOne rd in
  rd_users o.1 = rd_users rd ∧ rd_world o.1 = rd_world rd ∧ outcome_ok o ∧
  (unread o ∨ ∃ n, rd_recv o.1 = Some (with_nonce n k)) ∧ ∀ seg a, o.2 = Ok (Some (seg, a)) → a = noAuthentication.
Proof using CL.
  intros Hnone Hcl Hb Hk o. destruct (readOne_split rd) as [[E1 E2]|(em & dup & rd1 & E & Hr & Hu & Hw)]; [fold o in E1, E2|fold o in E].
  - unfold outcome_ok, unread. rewrite E1. destruct E2 as [->|(e & -> & He)]; split_and!; try done; by left.
  - rewrite Hnone in Hr. set (rd2 := rd1<|rd_recv := Some k|>). set (rep := dup && _) in E.
    assert (openMeta em rep rd1 = openMeta em rep rd2) as Eopen.
    { unfold openMetadata. rewrite (R_bind_Ok rrecv _ rd1 rd1 None) by (unfold rrecv; by rewrite Hr).
      rewrite (R_bind_Ok rrecv _ rd2 rd2 (Some k)) by done. rewrite Hcl, Hb.
      rewrite (R_bind_Ok (rlift _) _ rd1 rd1 k) by (unfold rlift; by rewrite Hk). by rewrite (R_bind_Ok _ _ rd1 rd2 tt). }
    rewrite (bind_same _ _ _ _ _ Eopen) in E.
    destruct (tame_rest noAuthentication em rep (λ s c H, tame_openMetadata em rep s c H) rd2 k eq_refl) as (H1 & H2 & (n & H3) & H4).
    rewrite <-E in H1, H2, H3, H4. split; [by rewrite H1|]. split; [by rewrite H2|]. unfold outcome_ok. rewrite H3. split.
    + destruct o.2 as [[[seg a]|]|e|m]; [|done..]. by destruct H4.
    + split; [right; by exists n|]. intros seg a Ea. rewrite Ea in H4. by destruct H4.
Qed.

(** The cipher of a connection whose first message [c] opened. *)
Definition firstCipher (c : aeadBlockCipher) : aeadBlockCipher :=
  SetImplicitNonceMode true match tp with Some tp => SetNoncePattern (Nonce tp) c | None => c end.

Context (gen : Z → option (list user)).
Lemma serverInit_ok em rd :
  rd_recv rd = None → users_ok maphash gen rd →
  let o := serverInitRecvBlockCipherAndDecryptMetadata now maphash jitter tick tp source em rd in
  users_ok maphash gen o.1 ∧
  match o.2 with
  | Ok (meta, a) => ∃ reg c n m, rd_users rd = Some reg ∧ discoveredBy reg em source now c m a ∧ rd_recv o.1 = Some (with_nonce n (firstCipher c))
  | Err _ => rd_recv o.1 = None
  | Panic _ => False
  end.
Proof using CL.
  intros Hnone [Hw Hreg]. unfold serverInitRecvBlockCipherAndDecryptMetadata. rewrite Hnone.
  destruct (rd_users rd) as [reg|] eqn:Er; [|split; [split; [done|cbn; congruence]|done]]. pose proof (Discover_ok jitter gen maphash reg (rd_world rd) em source true now tick (Hreg reg eq_refl) Hw) as H.
  destruct (Discover _ _ _ _ _ _ _ _ _ _ _) as [[w st] r]. cbn [fst snd] in H. destruct H as (Hw' & Hst & Hr).
  set (rd1 := rd<|rd_world := w|><|rd_users := _|>).
  assert (users_ok maphash gen rd1) as Hok.
  { split; [done|]. intros reg'. cbn. intros [= <-]. destruct st as [st|]; [by apply Hst|by apply Hreg]. }
  destruct r as [[[c m] a]|e|msg]; [|by split|done]. cbv zeta. fold (firstCipher c).
  pose proof (Decrypt_moves (firstCipher c) em) as [[n Hn] Hp].
  destruct (Decrypt (firstCipher c) em) as [c' [pt|e|msg]]; cbn [fst snd] in *; [|by split|by destruct (Hp msg)].
  split; [exact Hok|]. exists reg, c, n, m. by rewrite Hn.
Qed.

Lemma readOne_first_server rd :
  rd_recv rd = None → isClient = false → users_ok maphash gen rd →
  let o := readOne rd in
  users_ok maphash gen o.1 ∧ outcome_ok o ∧
  (unread o ∨ ∃ reg em c m a n, rd_users rd = Some reg ∧ discoveredBy reg em source now c m a ∧
     rd_recv o.1 = Some (with_nonce n (firstCipher c)) ∧ o.2 ≠ Ok None ∧ ∀ seg a', o.2 = Ok (Some (seg, a')) → a' = a).
Proof using CL.
  intros Hnone Hcl Hok o. destruct (readOne_split rd) as [[E1 E2]|(em & dup & rd1 & E & Hr & Hu & Hw)]; [fold o in E1, E2|fold o in E].
  - unfold outcome_ok, unread. rewrite E1. destruct E2 as [->|(e & -> & He)]; split_and!; try done; by left.
  - rewrite Hnone in Hr. set (rep := dup && _) in E.
    assert (users_ok maphash gen rd1) as Hok1 by (unfold users_ok; by rewrite Hu, Hw).
    pose proof (serverInit_ok em rd1 Hr Hok1) as H.
    assert (openMeta em rep rd1 = match serverInitRecvBlockCipherAndDecryptMetadata now maphash jitter tick tp source em rd1 with
      | (s, Err e) => if rep then (s, Err (TypedError REPLAY_ERROR (Errorf "found possible replay attack"))) else (s, Err (TypedError CRYPTO_ERROR (Wrapf "" e)))
      | (s, Ok x) => if rep then (s, Err (TypedError REPLAY_ERROR (Errorf "found possible replay attack with payload decrypted"))) else (s, Ok x)
      | (s, Panic m) => (s, Panic m)
      end) as Eopen.
    { unfold openMetadata. rewrite (R_bind_Ok rrecv _ rd1 rd1 None) by (unfold rrecv; by rewrite Hr). by rewrite Hcl. }
    assert (∀ s e, openMeta em rep rd1 = (s, Err e) → o = (s, Err e)) as Hfail.
    { intros s e Ee. rewrite E. unfold mbind, R_bind. by rewrite Ee. }
    destruct (serverInitRecvBlockCipherAndDecryptMetadata _ _ _ _ _ _ _ _) as [rd2 [[meta a]|e|m]]; cbn [fst snd] in H; destruct H as [Hok2 H]; [| |done].
    + destruct H as (reg & c & n & m & Hreg & Hd & Hr2). rewrite Hu in Hreg. destruct rep.
      * rewrite (Hfail _ _ Eopen). split; [exact Hok2|]. split; [eexists _, _; split; [done|set_solver]|]. right. by exists reg, em, c, m, a, n.
      * rewrite (R_bind_Ok _ _ _ _ _ Eopen) in E.
        assert (tame typed (λ x s, x ≠ None ∧ read_from a x s) (seg ← readBody now stop unix meta; mret (Some (seg, a)))) as Htame.
        { eapply tame_bind; [apply tame_readBody|]. intros seg s c0 Hseg Hc. split; [done|]. split; [done|]. split; [|by split_and!].
          exists (implicitNonce c0). by rewrite with_nonce_same. }
        destruct (Htame rd2 _ Hr2) as (G1 & G2 & (n' & G3) & G4). change (seg ← readBody now stop unix meta; mret (Some (seg, a))) with
          (λ s, (seg ← readBody now stop unix meta; mret (Some (seg, a)) : R _) s) in E.
        rewrite <-E in G1, G2, G3, G4. split; [unfold users_ok; by rewrite G1, G2|]. split.
        { unfold outcome_ok. rewrite G3. destruct o.2 as [[[seg a']|]|e|m']; [|done..]. by destruct G4 as [_ []]. }
        right. exists reg, em, c, m, a, n'. split; [done|]. split; [done|]. split; [exact G3|].
        split; [intros Ea; rewrite Ea in G4; by destruct G4|]. intros seg a' Ea. rewrite Ea in G4. by destruct G4 as [_ []].
    + destruct rep; rewrite (Hfail _ _ Eopen); (split; [exact Hok2|]; split; [eexists _, _; split; [done|set_solver]|by left]).
Qed.
End one.
End reads.

(** ** What a write does to the ciphers *)

(** [c'] is [c] but for the state of its nonces. *)
Definition same_cipher (c c' : aeadBlockCipher) : Prop :=
  c_key c' = c_key c ∧ c_userName c' = c_userName c ∧ noncePattern c' = noncePattern c.
#[global] Instance same_cipher_refl : Reflexive same_cipher.
Proof. done. Qed.
#[global] Instance same_cipher_trans : Transitive same_cipher.
Proof. intros c1 c2 c3 (?&?&?) (?&?&?). split_and!; congruence. Qed.

Section writes.
Context `{BT : BTree} `{F : GoFloat} {FL : GoFloatLaws F} `{CL : CryptoLaws}.

Lemma newNonceTo_same c nd n c1 n1 : newNonceTo c nd n = Ok (c1, n1) → same_cipher c c1.
Proof using.
  unfold newNonceTo. destruct (_ <? _); [done|]. destruct (nd_bytes nd) as [bs|]; [|done]. destruct (noncePattern c) as [pat|]; [|by intros [= <- _]].
  destruct (_ && _ && _); [by intros [= <- _]|].
  match goal with |- (?m ≫= _) = _ → _ => destruct m as [x|e|m']; cbn [mbind result_bind]; [|done..] end. by intros [= <- _].
Qed.
Lemma Encrypt_same c nd room pt c1 ct : Encrypt c nd room pt = Ok (c1, ct) → same_cipher c c1.
Proof using.
  unfold Encrypt. destruct (_ <? _); [done|]. destruct (enableImplicitNonce c) eqn:Ei; [destruct (len (implicitNonce c) =? 0)|]; unfold newNonce.
  - destruct (newNonceTo _ _ _) as [[c0 n0]|e|m] eqn:En; cbn [mbind result_bind]; [|done..].
    destruct (addUserHintToNonce _ _) as [n1|e|m]; cbn [mbind result_bind]; [|done..]. intros [= <- _]. apply newNonceTo_same in En. exact En.
  - destruct (increaseNonce c) as [c0|e|m] eqn:E; cbn [mbind result_bind]; [|done..]. intros [= <- _]. unfold increaseNonce in E.
    destruct (_ || _); [done|]. by injection E as <-.
  - destruct (newNonceTo _ _ _) as [[c0 n0]|e|m] eqn:En; cbn [mbind result_bind]; [|done..].
    destruct (addUserHintToNonce _ _) as [n1|e|m]; cbn [mbind result_bind]; [|done..]. intros [= <- _]. by apply newNonceTo_same in En.
Qed.

(** Only the nonce state of the cipher of [m] changes, whatever comes out. *)
Definition steady {A} (m : W A) : Prop := ∀ s, same_cipher (w_block s) (w_block (m s).1).
Lemma steady_bind {A B} (m : W A) (f : A → W B) : steady m → (∀ a, steady (f a)) → steady (m ≫= f).
Proof using.
  intros Hm Hf s. unfold mbind, W_bind. specialize (Hm s). destruct (m s) as [s1 [a|e|msg]]; cbn [fst] in *; [|done..].
  etrans; [exact Hm|apply Hf].
Qed.
Lemma steady_lift {A} (r : result A) : steady (wlift r).
Proof using. done. Qed.
Lemma steady_ret {A} (a : A) : steady (mret a).
Proof using. done. Qed.
Lemma steady_setMetadata m : steady (setMetadata m).
Proof using. done. Qed.
Lemma steady_wrap {A} msg (m : W A) : steady m → steady (wrap_error msg m).
Proof using. intros H s. unfold wrap_error. specialize (H s). by destruct (m s) as [s1 [a|e|p]]. Qed.
Lemma steady_sendEncrypt d off buf pt : steady (sendEncrypt d off buf pt).
Proof using.
  intros s. unfold sendEncrypt. destruct (_ >? _); [done|]. unfold mbind, W_bind, wblock, wlift. 
  destruct (Encrypt _ _ _ _) as [[c ct]|e|m] eqn:E; [|done..]. by apply Encrypt_same in E.
Qed.
Lemma steady_recommendedPadding p d max n : steady (recommendedPadding p d max n).
Proof using. intros s. unfold recommendedPadding. by destruct (buildRecommendedPaddingOpts _ _ _ _ _ _ _). Qed.
Ltac steady := repeat first
  [ apply steady_bind; [|intros ?] | apply steady_lift | apply steady_ret | apply steady_setMetadata | apply steady_wrap | apply steady_sendEncrypt
  | apply steady_recommendedPadding | case_match ].
Lemma steady_buildStream p d mtu tp now first payload : steady (buildStream p d mtu tp now first payload).
Proof using.
  intros s. unfold buildStream.
  assert (∀ ss, steady (streamSessionSegment p d mtu tp now first ss payload)) as Hs by (intros ss; unfold streamSessionSegment; steady).
  assert (∀ das, steady (streamDataAckSegment p d mtu tp now first das payload)) as Hd by (intros das; unfold streamDataAckSegment, prepare, replaceLowEntropy; steady).
  destruct (toSessionStruct _) as [[ss|]|e|m]; [apply Hs| | |done];
    (destruct (toDataAckStruct _) as [[das|]|e'|m']; [apply Hd|done..]).
Qed.

(** A close request is written or refused, without a panic, when the nonce
    source works for the cipher. *)
Lemma streamSession_safe p d mtu tp now first ss s :
  padding_ok p d → buffer_ok (sd_buffer d) → len (c_userName (w_block s)) <= MaxUserNameLen → Cipher.draws_ok (sd_nonce d) →
  (∀ m, newNonceTo (w_block s) (sd_nonce d) DefaultNonceSize ≠ Panic m) →
  ∀ m, (streamSessionSegment p d mtu tp now first ss [] s).2 ≠ Panic m.
Proof using CL FL.
  intros Hp Hbuf Hu Hd Hn. destruct s as [c md fx]. cbn [w_block] in *. unfold streamSessionSegment.
  pose proof (maxPaddingSize_range mtu StreamTransport (ss_payloadLen ss) 0 tp endPadding) as Hmax.
  destruct (recommendedPadding_spec p d _ (streamOverhead + ss_payloadLen ss) c md fx Hp Hmax) as (fx' & padding & Hl & Hrec).
  assert (with_buffer (sd_buffer d) d = d) as Ed by (by destruct d). specialize (Hrec (sd_buffer d)). rewrite Ed in Hrec.
  rewrite (W_bind_Ok _ _ _ _ _ Hrec). cbv zeta. rewrite (ss_Marshal_pair now). set (m0 := MSession _). set (meta := (ss_Marshal now _).1). clearbody meta.
  rewrite (W_bind_Ok (setMetadata m0) _ _ (mkSending c m0 fx') tt) by reflexivity.
  pose proof (len_nonneg padding). assert (0 <= encryptedMetadataLen first) by (unfold encryptedMetadataLen; destruct first; done).
  change (len [] >? 0) with false. cbv iota. rewrite (W_bind_Ok (wlift _) _ _ (mkSending c m0 fx') (sd_buffer d (encryptedMetadataLen first + 0 + len padding))).
  2:{ unfold wlift, Acquire. destruct (Z.ltb_spec (encryptedMetadataLen first + 0 + len padding) 0); [lia|done]. }
  set (buf := sd_buffer d _). unfold mbind, W_bind, wrap_error, sendEncrypt.
  destruct (Z.gtb_spec 0 (len buf)); [pose proof (len_nonneg buf); lia|]. unfold mbind, wblock, wlift, setBlock. cbn [w_block].
  assert (∀ room pt m, Encrypt c (sd_nonce d) room pt ≠ Panic m) as Henc.
  { intros room pt m. unfold Encrypt. destruct (_ <? _); [done|].
    assert (∀ c1 n1 m, newNonceTo c (sd_nonce d) DefaultNonceSize = Ok (c1, n1) → addUserHintToNonce c1 n1 ≠ Panic m) as Hhint.
    { intros c1 n1 m1 E. pose proof (newNonce_hint c (sd_nonce d) c1 n1 Hd Hu E) as (_ & n2 & E2 & _). by rewrite E2. }
    unfold newNonce, NonceSize. destruct (enableImplicitNonce c) eqn:Ei; [destruct (Z.eqb_spec (len (implicitNonce c)) 0)|].
    - destruct (newNonceTo _ _ _) as [[c1 n1]|ee|m1] eqn:E; cbn [mbind result_bind]; [|done|by destruct (Hn m1)].
      specialize (Hhint c1 n1). destruct (addUserHintToNonce c1 n1) as [n2|ee|m2]; cbn [mbind result_bind]; [done|done|by destruct (Hhint m2 eq_refl)].
    - unfold increaseNonce. rewrite Ei. destruct (Z.eqb_spec (len (implicitNonce c)) 0); done.
    - destruct (newNonceTo _ _ _) as [[c1 n1]|ee|m1] eqn:E; cbn [mbind result_bind]; [|done|by destruct (Hn m1)].
      specialize (Hhint c1 n1). destruct (addUserHintToNonce c1 n1) as [n2|ee|m2]; cbn [mbind result_bind]; [done|done|by destruct (Hhint m2 eq_refl)]. }
  intros m E. cbv [mret W_ret W_bind] in E. cbn in E. specialize (Henc (len buf - 0) meta).
  destruct (Encrypt c (sd_nonce d) (len buf - 0) meta) as [[c1 ct]|ee|m1]; [discriminate E..|by destruct (Henc m1)].
Qed.
End writes.

(** ** The sessions of a connection *)

Section sessions.
Context `{BT : BTree} `{F : GoFloat} {FL : GoFloatLaws F} `{CL : CryptoLaws}.

(** [b'] has no session that [b] has not, and they keep their users. *)
Record keeps_users (b b' : baseUnderlay) : Prop := {
  ku_role : u_isClient b' = u_isClient b;
  ku_pattern : u_trafficPattern b' = u_trafficPattern b;
  ku_sessions : sessions_ok StreamTransport b → sessions_ok StreamTransport b';
  ku_policies : ∀ i en', sessionMap b' !! i = Some en' → ∃ en, sessionMap b !! i = Some en ∧ e_userPolicy en' = e_userPolicy en
}.
#[global] Instance keeps_users_refl : Reflexive keeps_users.
Proof using. intros b. split; eauto. Qed.
#[global] Instance keeps_users_trans : Transitive keeps_users.
Proof using.
  intros b1 b2 b3 [? ? ? H1] [? ? ? H2]. split; [congruence|congruence|auto|].
  intros i en3 (en2 & (en1 & ? & ?)%H1 & ?)%H2. exists en1. split; [done|congruence].
Qed.

Lemma deliver_keeps_users pick i seg b b' r : deliverSegmentToSession pick i seg b = Some (b', r) → keeps_users b b'.
Proof using.
  intros E. assert (sessions_ok StreamTransport b → sessions_ok StreamTransport b') as Hs by (intros Hs; by eapply deliver_ok).
  unfold deliverSegmentToSession in E. destruct (sessionMap b !! i) as [en|] eqn:El; [|by injection E as <- _].
  destruct (_ && _); [|destruct (_ || _); [|done]]; injection E as <- _; [|done]. split; [done..|].
  intros j en'. cbn. rewrite lookup_insert_Some. intros [[<- <-]|[_ ?]]; eauto.
Qed.
Lemma makeReady_keeps_users pick i b b' r : makeReady pick i b = Some (b', r) → keeps_users b b'.
Proof using.
  intros E. assert (sessions_ok StreamTransport b → sessions_ok StreamTransport b') as Hs by (intros Hs; by eapply makeReady_ok).
  unfold makeReady in E. destruct (_ && _); [|destruct (u_done b); [|done]]; injection E as <- _; split; eauto.
Qed.
Lemma receive_keeps_users e i b b' r : receive e i b = Some (b', r) → keeps_users b b'.
Proof using.
  intros E. assert (sessions_ok StreamTransport b → sessions_ok StreamTransport b') as Hs by (intros Hs; by eapply receive_ok).
  unfold receive in E. destruct (sessionMap b !! i) as [en|] eqn:El; [|done]. destruct (e_recvChan en); [done|].
  destruct (runInputOnce _ _ _) as [[s ev] r']. injection E as <- _. split; [done..|].
  intros j en'. cbn. rewrite lookup_insert_Some. intros [[<- <-]|[_ ?]]; eauto.
Qed.
Lemma remove_keeps_users e en b : keeps_users b (RemoveSession e en b).1.
Proof using.
  destruct (RemoveSession e en b) as [b' r] eqn:E. cbn. assert (sessions_ok StreamTransport b → sessions_ok StreamTransport b') as Hs by (intros Hs; by eapply RemoveSession_ok).
  unfold RemoveSession in E. destruct (isStateBefore _ _ _); injection E as <- _; split; eauto.
  intros j en'. cbn. intros [_ ?]%lookup_delete_Some. eauto.
Qed.
Lemma Accept_keeps_users pick b b' r : Accept pick b = Some (b', r) → keeps_users b b'.
Proof using.
  unfold Accept. destruct (readySessions b) as [|j rest] eqn:Er.
  - destruct (u_done b); [|done]. by intros [= <- _].
  - destruct (_ || _); intros [= <- _]; [|done]. split; eauto. intros [Hm Hr]. split; [exact Hm|]. cbn. rewrite Er, len_cons in Hr. lia.
Qed.
Lemma update_keeps_users (f : Z → sessionEntry → sessionEntry) b :
  (∀ i en, e_userPolicy (f i en) = e_userPolicy en ∧ (entry_ok StreamTransport (u_isClient b) i en → entry_ok StreamTransport (u_isClient b) i (f i en))) →
  keeps_users b (b<|sessionMap := map_imap (λ i en, Some (f i en)) (sessionMap b)|>).
Proof using.
  intros Hf. split; [done|done| |].
  - intros [Hm Hr]. split; [|exact Hr]. intros i en'. cbn. rewrite map_lookup_imap. destruct (sessionMap b !! i) as [en|] eqn:E; [|done]. intros [= <-].
    apply Hf. exact (Hm i en E).
  - intros i en'. cbn. rewrite map_lookup_imap. destruct (sessionMap b !! i) as [en|] eqn:E; [|done]. intros [= <-]. exists en. split; [done|apply Hf].
Qed.
Lemma done_keeps_users (d : bool) b : keeps_users b (b<|u_done := d|>).
Proof using. split; eauto. Qed.
Lemma Close_keeps_users e b : keeps_users b (Close_base e b).
Proof using.
  unfold Close_base. destruct (u_done b); [done|]. etrans; [apply (update_keeps_users (λ i en, closed (e i) en))|apply done_keeps_users].
  intros i en. split; [done|apply closed_ok].
Qed.
Lemma closeIdle_keeps_users e now timeout (t : StreamUnderlay) : keeps_users (t_base t) (t_base (closeIfIdle e now timeout t).1).
Proof using.
  unfold closeIfIdle. destruct (u_done _); [done|]. destruct (t_idle t); [|done]. destruct (negb _); [done|].
  cbn. etrans; [|apply Close_keeps_users]. apply (update_keeps_users (λ i en, en<|e_session := (closeWithError (e i) (Some ErrTimeout) (e_session en)).1.1|>)).
  intros i en. split; [done|]. apply frame_entry. apply frames_closeWithError.
Qed.
Lemma session_keeps_users op i en b : sessionMap b !! i = Some en →
  keeps_users b (b<|sessionMap := <[i := en<|e_session := (perform op (e_session en)).1.1|>]> (sessionMap b)|>).
Proof using.
  intros Hi. split; [done|done| |].
  - intros [Hm Hr]. split; [|exact Hr]. apply map_Forall_insert_2; [|exact Hm]. apply frame_entry; [apply frames_perform|by apply Hm].
  - intros j en'. cbn. rewrite lookup_insert_Some. intros [[<- <-]|[_ ?]]; eauto.
Qed.
Lemma cleanSessions_keeps_users pe (t : StreamUnderlay) : keeps_users (t_base t) (t_base (t_cleanSessions pe t)).
Proof using.
  unfold t_cleanSessions. cbn. generalize (t_base t) as b. induction (pe_order pe) as [|i order IH]; intros b; [done|]. cbn [foldl].
  etrans; [|apply IH]. unfold t_cleanSession. destruct (sessionMap b !! i) as [en|]; [|done]. destruct (closedChan _); [|done].
  apply remove_keeps_users.
Qed.
End sessions.

(** ** The handlers *)

Definition policyOf (pol : Policy) : option Policy := if negb (len (policy_name pol) =? 0) then Some pol else None.

Section handlers.
Context `{BT : BTree} `{F : GoFloat} {FL : GoFloatLaws F} `{CL : CryptoLaws}.

(** Every session of [b'] is one of [b], or a new one with the policy [pol]. *)
Record grows (pol : Policy) (b b' : baseUnderlay) : Prop := {
  gr_role : u_isClient b' = u_isClient b;
  gr_pattern : u_trafficPattern b' = u_trafficPattern b;
  gr_sessions : sessions_ok StreamTransport b → sessions_ok StreamTransport b';
  gr_policies : ∀ i en', sessionMap b' !! i = Some en' →
    e_userPolicy en' = policyOf pol ∨ ∃ en, sessionMap b !! i = Some en ∧ e_userPolicy en' = e_userPolicy en
}.
Lemma keeps_grows pol b b' : keeps_users b b' → grows pol b b'.
Proof using. intros []. split; [done..|]. intros i en' H. right. eauto. Qed.
Lemma grows_trans pol b1 b2 b3 : grows pol b1 b2 → keeps_users b2 b3 → grows pol b1 b3.
Proof using.
  intros [? ? ? H1] [? ? ? H2]. split; [congruence|congruence|auto|].
  intros i en3 (en2 & E2 & ->)%H2. by apply H1.
Qed.

(** What a handler does: only the base of the underlay changes, and it does not panic. *)
Definition handler_ok (pol : Policy) (t : StreamUnderlay) (h : t_handled) : Prop :=
  ∀ t' r, h = Some (t', r) → t' = t_with_base (t_base t') t ∧ grows pol (t_base t) (t_base t') ∧ ∀ m, r ≠ Panic m.

Lemma with_base_same (t : StreamUnderlay) : t = t_with_base (t_base t) t.
Proof using. by destruct t. Qed.
Lemma handler_stay pol t (r : result unit) : (∀ m, r ≠ Panic m) → handler_ok pol t (Some (t, r)).
Proof using. intros Hr t' r' [= <- <-]. split; [apply with_base_same|]. split; [by apply keeps_grows|done]. Qed.
Lemma deliverTo_ok pol pe i seg t : handler_ok pol t (t_deliverTo pe i seg t).
Proof using.
  intros t' r. unfold t_deliverTo. destruct (deliverSegmentToSession _ _ _ _) as [[b x]|] eqn:E; [|done]. intros [= <- <-].
  split; [done|]. split; [|done]. by eapply keeps_grows, deliver_keeps_users.
Qed.

Lemma AddSession_grows pol en addr b b' :
  e_recvChan en = [] → e_userPolicy en = policyOf pol → AddSession StreamTransport en addr b = Ok b' → grows pol b b'.
Proof using.
  intros Hc Hp E. assert (sessions_ok StreamTransport b → sessions_ok StreamTransport b') as Hs.
  { intros Hs. eapply AddSession_ok; [exact Hs| |exact E]. by rewrite Hc. }
  assert (u_trafficPattern b' = u_trafficPattern b) as Ht.
  { revert E. unfold AddSession, AddSession_base. destruct (_ =? 0); [done|]. destruct (isStateAfter _ _ _); [done|]. destruct (u_isClient b && _); [done|].
    destruct (negb (u_isClient b) && _); [done|]. destruct (sessionMap b !! _); [done|]. rewrite bind_Ok. destruct (e_ready en); [done|]. by intros [= <-]. }
  apply AddSession_shape in E as (Hr & en' & Hm & _ & Hpol & _). split; [done..|].
  intros i en2. rewrite Hm, lookup_insert_Some. intros [[_ <-]|[_ ?]]; [left; congruence|right; eauto].
Qed.
Lemma AddSession_safe transport en addr b m : e_ready en = false → AddSession transport en addr b ≠ Panic m.
Proof using. 
  intros Hr. unfold AddSession, AddSession_base. destruct (_ =? 0); [done|]. destruct (isStateAfter _ _ _); [done|]. destruct (u_isClient b && _); [done|].
  destruct (negb (u_isClient b) && _); [done|]. destruct (sessionMap b !! _); [done|]. rewrite bind_Ok. by rewrite Hr.
Qed.

Definition opensWith (seg : incoming) (t : StreamUnderlay) : Policy :=
  if Valid (in_authentication seg) then a_policy (in_authentication seg) else t_policy t.
Lemma t_onOpen_ok pe seg t ss :
  seg_metadata (in_segment seg) = MSession ss → handler_ok (opensWith seg t) t (t_onOpenSessionRequest pe seg t).
Proof using.
  intros Hm. unfold t_onOpenSessionRequest. destruct (t_isClient t); [by apply handler_stay|]. unfold sessionIDOf. rewrite Hm.
  destruct (_ =? 0); [by apply handler_stay|]. set (i := ss_sessionID ss). destruct (sessionMap (t_base t) !! i); [by apply handler_stay|].
  fold (opensWith seg t).
  destruct (newSession_Ok (microOf pe) i (u_mtu (t_base t)) (opensWith seg t) (u_trafficPattern (t_base t)) (pe_jitterMs pe))
    as (en & -> & Hid & _ & _ & _ & Hready & Hch & Hpol). rewrite bind_Ok. unfold StreamUnderlay_AddSession.
  destruct (AddSession StreamTransport en None (t_base t)) as [b1|e|m] eqn:Ea; cbn [mbind result_bind];
    [|by apply handler_stay|by apply AddSession_safe in Ea].
  apply AddSession_grows with (pol := opensWith seg t) in Ea as Hg; [|done|done].
  change (t_base (t_with_base b1 t)) with b1. intros t' r.
  destruct (deliverSegmentToSession (pe_pick pe) i seg b1) as [[b2 [|]]|] eqn:Ed; [| |done].
  - apply deliver_keeps_users in Ed. destruct (makeReady (pe_pick pe) i b2) as [[b3 r3]|] eqn:Er; [|done]. intros [= <- <-].
    split; [done|]. split; [by eapply grows_trans, makeReady_keeps_users; [eapply grows_trans|]|].
    intros m. unfold makeReady in Er. repeat case_match; by simplify_eq.
  - apply deliver_keeps_users in Ed. intros [= <- <-]. split; [done|]. split; [by eapply grows_trans|done].
Qed.
Lemma t_onOpenResponse_ok pol pe seg t ss : seg_metadata (in_segment seg) = MSession ss → handler_ok pol t (t_onOpenSessionResponse pe seg t).
Proof using.
  intros Hm. unfold t_onOpenSessionResponse, sessionIDOf. rewrite Hm. destruct (negb _); [by apply handler_stay|].
  destruct (sessionMap _ !! _); [apply deliverTo_ok|by apply handler_stay].
Qed.
Lemma t_onClose_ok pol pe seg t ss : seg_metadata (in_segment seg) = MSession ss → handler_ok pol t (t_onCloseSession pe seg t).
Proof using.
  intros Hm. unfold t_onCloseSession, sessionIDOf. rewrite Hm. destruct (sessionMap _ !! _); [apply deliverTo_ok|by apply handler_stay].
Qed.
End handlers.

(** ** The invariant of a connection *)

Section invariant.
Context `{BT : BTree} `{F : GoFloat} {FL : GoFloatLaws F} `{CL : CryptoLaws}.
Context (maphash : list Z → Z) (jitter : Z → Z) (p : program) (hostName : list Z) (gen : Z → option (list user)).

(** A cipher of a connection with this nonce pattern. *)
Definition cipher_ok (pat : option NoncePattern) (c : aeadBlockCipher) : Prop :=
  noncePattern c = pat ∧ len (c_userName c) <= MaxUserNameLen ∧ len (c_key c) = 32.
Lemma cipher_same pat c c' : same_cipher c c' → cipher_ok pat c → cipher_ok pat c'.
Proof using. unfold cipher_ok. by intros (-> & -> & ->). Qed.
Lemma Clone_ok pat c : cipher_ok pat c → ∃ k, Clone c = Ok k ∧ same_cipher c k.
Proof using.
  intros (_ & _ & Hk). unfold Clone, newXChaCha20Poly1305BlockCipher. rewrite Hk. cbn. eexists. split; [reflexivity|]. done.
Qed.
Lemma moved_cipher pat n c : cipher_ok pat c → cipher_ok pat (with_nonce n c).
Proof using. done. Qed.
Definition serverPattern (tp : option TrafficPattern) : option NoncePattern := match tp with Some tp => Nonce tp | None => None end.

(** [us], a user that was published, owns the connection: its key opened it, and
    all sessions have its policy. *)
Record owner (us : user) (t : StreamUnderlay) : Prop := {
  ow_user : ∃ n ul, gen n = Some ul ∧ us ∈ ul;
  ow_cipher : ∃ c s, t_recv t = Some c ∧ c_userName c = name us ∧ c_key c = keyAt (credential us) s;
  ow_sessions : map_Forall (λ _ en, e_userPolicy en = policyOf (policy us)) (sessionMap (t_base t))
}.
Definition nobody (t : StreamUnderlay) : Prop := t_recv t = None ∧ sessionMap (t_base t) = ∅.
Definition owned (t : StreamUnderlay) : Prop := t_isClient t = false → nobody t ∨ ∃ us, owner us t ∧ t_policy t = policy us.

Record conn_ok (pat : option NoncePattern) (t : StreamUnderlay) : Prop := {
  co_sessions : sessions_ok StreamTransport (t_base t);
  co_recv : ∀ c, t_recv t = Some c → cipher_ok pat c;
  co_send : ∀ c, t_send t = Some c → cipher_ok pat c;
  co_block : ∀ c, t_block t = Some c → cipher_ok pat c;
  co_client : t_isClient t = true → is_Some (t_block t);
  co_server : t_isClient t = false → (∀ g, users_ok maphash gen (reading_of g t)) ∧ pat = serverPattern (u_trafficPattern (t_base t))
}.

Lemma conn_with_base pat b t :
  u_isClient b = u_isClient (t_base t) → u_trafficPattern b = u_trafficPattern (t_base t) →
  (sessions_ok StreamTransport (t_base t) → sessions_ok StreamTransport b) → conn_ok pat t → conn_ok pat (t_with_base b t).
Proof using.
  intros Hr Ht Hs [H1 H2 H3 H4 H5 H6]. unfold t_isClient in *. split; try done; unfold t_isClient; cbn; rewrite ?Hr, ?Ht; auto.
Qed.
Lemma owner_with_base us pol b t :
  grows pol (t_base t) b → pol = policy us → owner us t → owner us (t_with_base b t).
Proof using.
  intros [_ _ _ Hp] -> [H1 H2 H3]. split; [done..|]. intros i en. cbn. intros Hi. destruct (Hp i en Hi) as [?|(en0 & E & ->)]; [done|].
  exact (H3 i en0 E).
Qed.
Lemma nobody_with_base b t : keeps_users (t_base t) b → nobody t → nobody (t_with_base b t).
Proof using.
  intros [_ _ _ Hp] [H1 H2]. split; [done|]. cbn. apply map_eq. intros i. rewrite lookup_empty. destruct (sessionMap b !! i) as [en|] eqn:E; [|done].
  apply Hp in E as (en0 & E & _). by rewrite H2, lookup_empty in E.
Qed.
Lemma owned_with_base b t : keeps_users (t_base t) b → owned t → owned (t_with_base b t).
Proof using.
  intros Hk Ho Hcl. unfold owned in Ho. destruct Ho as [Hn|(us & Ho & Hp)].
  - unfold t_isClient in *. cbn in Hcl. by rewrite <-(ku_role _ _ Hk).
  - left. by apply nobody_with_base.
  - right. exists us. split; [|done]. eapply owner_with_base; [by apply (keeps_grows (policy us))|done|done].
Qed.
Lemma conn_keeps pat b t : keeps_users (t_base t) b → conn_ok pat t → conn_ok pat (t_with_base b t).
Proof using. intros []. by apply conn_with_base. Qed.

(** ** Writing *)

Lemma maybeInit_ok pat t : conn_ok pat t →
  match maybeInitSendBlockCipher t with
  | Ok t' => ∃ c, cipher_ok pat c ∧ t' = t<|t_send := Some c|>
  | Err _ => True
  | Panic _ => False
  end.
Proof using.
  intros [_ Hr Hs Hb Hcl _]. unfold maybeInitSendBlockCipher. destruct (t_send t) as [c|] eqn:Es.
  { exists c. split; [by apply Hs|]. by destruct t; cbn in *; subst. }
  destruct (t_isClient t).
  - destruct (Hcl eq_refl) as [b Eb]. rewrite Eb. destruct (Clone_ok pat b (Hb b Eb)) as (k & -> & Hk). rewrite bind_Ok.
    exists k. split; [by eapply cipher_same, Hb|done].
  - destruct (t_recv t) as [r|] eqn:Er; [|done]. destruct (Clone_ok pat r (Hr r eq_refl)) as (k & -> & Hk). rewrite bind_Ok.
    eexists. split; [|done]. by eapply (cipher_same _ r), Hr.
Qed.

(** A writer leaves everything but the sending cipher, the hint cache, the
    counter and the time of the last activity. *)
Definition wrote_conn (pat : option NoncePattern) (t t' : StreamUnderlay) : Prop :=
  ∃ c f n a, (∀ k, c = Some k → cipher_ok pat k) ∧
    t' = t<|t_send := c|><|t_fixedV := f|><|t_idle := a|><|t_base := (t_base t)<|outBytes := n|>|>.
Lemma wrote_ok pat t t' : wrote_conn pat t t' → conn_ok pat t → conn_ok pat t' ∧ (owned t → owned t') ∧ (∀ us, owner us t → owner us t') ∧
  t_isClient t' = t_isClient t ∧ t_policy t' = t_policy t ∧ sessionMap (t_base t') = sessionMap (t_base t).
Proof using.
  intros (c & f & n & a & Hc & ->) [H1 H2 H3 H4 H5 H6]. split; [by split|]. split; [|split; [intros us [? ? ?]; by split|done]].
  intros Ho Hcl. destruct (Ho Hcl) as [?|(us & [? ? ?] & ?)]; [by left|right; exists us; by split].
Qed.

Record write_ok (pat : option NoncePattern) (we : writeEnv) : Prop := {
  wo_padding : padding_ok p (we_draws we);
  wo_buffer : buffer_ok (sd_buffer (we_draws we));
  wo_draws : Cipher.draws_ok (sd_nonce (we_draws we));
  wo_nonce : ∀ c m, cipher_ok pat c → newNonceTo c (sd_nonce (we_draws we)) DefaultNonceSize ≠ Panic m;
  wo_fragment : draws_below (we_fragment we)
}.

Lemma writeOne_effect pat we now seg t t' seg' o :
  conn_ok pat t → t_writeOneSegment p we now seg t = (t', seg', o) → wrote_conn pat t t'.
Proof using.
  intros Hok. pose proof (maybeInit_ok pat t Hok) as Hm. unfold t_writeOneSegment.
  assert (wrote_conn pat t t) as Hsame.
  { exists (t_send t), (t_fixedV t), (outBytes (t_base t)), (t_idle t). split; [apply Hok|]. by destruct t as [[] ? ? ? ? ? ? ? ? ? ?]. }
  destruct (maybeInitSendBlockCipher t) as [t1|e|m]; [|by intros [= <- _ _]|done]. destruct Hm as (c & Hc & ->). cbn [t_send].
  change (t_send (t<|t_send := Some c|>)) with (Some c). cbv iota.
  pose proof (steady_buildStream p (we_draws we) (u_mtu (t_base t)) (u_trafficPattern (t_base t)) (Unix now) (bool_decide (t_send t = None)) (seg_payload seg)
    (mkSending c (seg_metadata seg) (t_fixedV t))) as Hst. cbn [w_block] in Hst.
  change (u_mtu (t_base (t<|t_send := Some c|>))) with (u_mtu (t_base t)).
  change (u_trafficPattern (t_base (t<|t_send := Some c|>))) with (u_trafficPattern (t_base t)).
  change (t_fixedV (t<|t_send := Some c|>)) with (t_fixedV t).
  destruct (buildStream _ _ _ _ _ _ _ _) as [s r]. cbn [fst] in Hst. apply (cipher_same pat) in Hst; [|done].
  assert (∀ n a, wrote_conn pat t (t<|t_send := Some (w_block s)|><|t_fixedV := w_fixedV s|><|t_idle := a|><|t_base := (t_base t)<|outBytes := n|>|>)) as Hw.
  { intros n a. exists (Some (w_block s)), (w_fixedV s), n, a. split; [by intros k [= <-]|done]. }
  destruct r as [data|e|m].
  - destruct (sendPieces _ _ _ _) as [pieces r2]. intros [= <- _ _]. unfold recordActivity.
    destruct (_ >? _); destruct r2; (match goal with |- wrote_conn _ _ ?x => specialize (Hw (outBytes (t_base x)) (t_idle x)) end); by destruct t as [[] ? ? ? ? ? ? ? ? ? ?].
  - intros [= <- _ _]. specialize (Hw (outBytes (t_base t)) (t_idle t)). by destruct t as [[] ? ? ? ? ? ? ? ? ? ?].
  - intros [= <- _ _]. specialize (Hw (outBytes (t_base t)) (t_idle t)). by destruct t as [[] ? ? ? ? ? ? ? ? ? ?].
Qed.

Lemma sendPieces_safe pat we m t data msg : write_ok pat we → (sendPieces we m t data).2 ≠ Panic msg.
Proof using.
  intros Hwe. unfold sendPieces. destruct m; [|by destruct (we_sent we 0%nat)]. unfold writeWithPossibleFragment. destruct (negb _); [by destruct (we_sent we 0%nat)|].
  pose proof (fragmentLoop_spec (we_sent we) (we_fragment we) (len data) (length data) 0 data (wo_fragment _ _ Hwe) (len_nonneg data) ltac:(lia)) as H.
  destruct (fragmentLoop _ _ _ _ _ _) as [pieces r]. destruct H as (_ & _ & _ & H). by destruct r.
Qed.
(** Writing a close request does not panic. *)
Lemma closeReq_safe pat we now das t m :
  conn_ok pat t → write_ok pat we → (t_writeOneSegment p we now (t_closeReq das) t).2.2 ≠ Panic m.
Proof using CL FL.
  intros Hok Hwe. pose proof (maybeInit_ok pat t Hok) as Hm. unfold t_writeOneSegment.
  destruct (maybeInitSendBlockCipher t) as [t1|e|msg]; [|done|done]. destruct Hm as (c & Hc & ->).
  change (t_send (t<|t_send := Some c|>)) with (Some c). cbv iota.
  destruct (buildStream _ _ _ _ _ _ _ _) as [s r] eqn:E.
  assert (∀ msg, r ≠ Panic msg) as Hr.
  { intros msg ->. unfold buildStream in E. cbn in E.
    pose proof (streamSession_safe p (we_draws we) (u_mtu (t_base t)) (u_trafficPattern (t_base t)) (Unix now) (bool_decide (t_send t = None))
      (mkSession (mkBase closeSessionRequest 0) (das_sessionID das) (das_unAckSeq das) 0 0 0) (mkSending c (seg_metadata (t_closeReq das)) (t_fixedV t))
      (wo_padding _ _ Hwe) (wo_buffer _ _ Hwe) ltac:(apply Hc) (wo_draws _ _ Hwe) ltac:(intros m'; by apply (wo_nonce _ _ Hwe)) msg) as H.
    apply H. change (t_fixedV (t<|t_send := Some c|>)) with (t_fixedV t) in E.
    change (u_mtu (t_base (t<|t_send := Some c|>))) with (u_mtu (t_base t)) in E.
    change (u_trafficPattern (t_base (t<|t_send := Some c|>))) with (u_trafficPattern (t_base t)) in E.
    change (seg_metadata (t_closeReq das)) with (MSession (mkSession (mkBase closeSessionRequest 0) (das_sessionID das) (das_unAckSeq das) 0 0 0)).
    by rewrite E. }
  destruct r as [data|e|msg]; [|done|by destruct (Hr msg)].
  set (t2 := _<|t_fixedV := _|>). set (md := seg_metadata _). pose proof (sendPieces_safe pat we md t2 data m Hwe) as Hsp.
  by destruct (sendPieces we md t2 data) as [pieces r].
Qed.

(** ** Reading *)

(** A segment that was read: it can be dispatched. *)
Definition dispatchable (seg : incoming) : Prop :=
  match seg_metadata (in_segment seg) with
  | MSession ss => isSessionProtocol (ss_Protocol ss) = true
  | MDataAck das => isDataAckProtocol (das_Protocol das) = true
  end.
(** Between the read and the end of the round: who owns the connection. *)
Definition claimed (seg : incoming) (t : StreamUnderlay) : Prop :=
  (t_isClient t = true → Valid (in_authentication seg) = false) ∧
  (t_isClient t = false → ∃ us, owner us t ∧ opensWith seg t = policy us ∧
    (Valid (in_authentication seg) = true → is_u32 (a_userID (in_authentication seg)))).

(** All sessions belong to one user, also when the loop has ended. *)
Definition single_user (t : StreamUnderlay) : Prop :=
  t_isClient t = false → sessionMap (t_base t) = ∅ ∨ ∃ us, owner us t.
Lemma owned_single t : owned t → single_user t.
Proof using. intros H Hcl. destruct (H Hcl) as [[_ ?]|(us & ? & _)]; eauto. Qed.

Lemma opens_key now em u b pt : opens now em u = Some (b, pt) → ∃ s, c_key b = keyAt (credential u) s.
Proof using.
  unfold opens. generalize (saltTimes now) as l. induction l as [|s l IH]; [done|]. cbn [fmap list_fmap selectDecryptStateless].
  unfold DecryptStatelessTo. destruct (_ <? _); [exact IH|]. destruct (Open _ _ _) as [x|]; [|exact IH]. intros [= <- _]. by exists s.
Qed.

Lemma discovered_owner pat t g reg em now c m a n :
  users_ok maphash gen (reading_of g t) → t_users t = Some reg → discoveredBy reg em (t_source t) now c m a →
  pat = serverPattern (u_trafficPattern (t_base t)) →
  ∃ us, (∃ k ul, gen k = Some ul ∧ us ∈ ul) ∧ let c' := with_nonce n (firstCipher (u_trafficPattern (t_base t)) c) in
    cipher_ok pat c' ∧ c_userName c' = name us ∧ (∃ s, c_key c' = keyAt (credential us) s) ∧
    Valid a = true ∧ a_policy a = policy us ∧ is_u32 (a_userID a).
Proof using CL.
  intros [_ Hreg] Er (st & us & b & Es & Hus & Ho & -> & Hid & Hpol & Hgen & _) ->.
  destruct (Hreg reg Er st Es) as [[Hwf Hg] _]. exists us. split; [by exists (ServerUser.number st), (users st)|]. cbv zeta.
  destruct (opens_key _ _ _ _ _ Ho) as [s Hs].
  assert (noncePattern b = None) as Hb.
  { unfold opens in Ho. destruct (selectDecryptStateless _ _ _) as [[b0 pt]|e|msg]; [|done..]. by injection Ho as <- _. }
  assert (c_key (firstCipher (u_trafficPattern (t_base t)) (SetBlockContext (name us) b)) = c_key b ∧
    c_userName (firstCipher (u_trafficPattern (t_base t)) (SetBlockContext (name us) b)) = name us ∧
    noncePattern (firstCipher (u_trafficPattern (t_base t)) (SetBlockContext (name us) b)) = serverPattern (u_trafficPattern (t_base t))) as (H1 & H2 & H3).
  { unfold firstCipher, serverPattern. by destruct (u_trafficPattern (t_base t)). }
  split_and!; [split; [exact H3|split; unfold with_nonce; cbn [c_userName c_key]; [rewrite H2; by apply (wf_names _ Hwf)|rewrite H1, Hs; by apply pbkdf2Key_len]]|exact H2|exists s; unfold with_nonce; cbn [c_key]; congruence| |done|].
  - unfold Valid. rewrite Hgen, bool_decide_true by done. rewrite andb_true_r, Hid. apply list_elem_of_lookup in Hus as [k Hk]. rewrite (wf_ids _ Hwf k us Hk).
    destruct (Z.eqb_spec (Z.of_nat k + 1) 0); [lia|done].
  - rewrite Hid. by eapply uid_u32.
Qed.

(** Everything that a read does to the connection. *)
Definition read_conn (rd : reading) (a : option Z) (t : StreamUnderlay) : StreamUnderlay := (with_reading rd t)<|t_idle := a|>.
Lemma read_conn_ok pat rd a t :
  conn_ok pat t → (∀ c, rd_recv rd = Some c → cipher_ok pat c) →
  (t_isClient t = false → users_ok maphash gen rd) → conn_ok pat (read_conn rd a t).
Proof using. intros [[Hm Hr] H2 H3 H4 H5 H6] Hc Hu. split; try done. intros Hcl. split; [intros g; by apply Hu|by apply H6]. Qed.
Lemma read_conn_owner us rd a t : owner us t →
  (∃ n c, t_recv t = Some c ∧ rd_recv rd = Some (with_nonce n c)) → owner us (read_conn rd a t).
Proof using.
  intros [H1 (c & s & Ec & Hn & Hk) H3] (n & c' & E & Hr). split; [done| |done]. rewrite Ec in E. injection E as <-.
  exists (with_nonce n c), s. done.
Qed.

Lemma t_read_ok pat pe ev g t :
  conn_ok pat t → owned t →
  let o := (t_readOneSegment maphash jitter pe ev g t).2 in
  conn_ok pat o.1 ∧ t_isClient o.1 = t_isClient t ∧ (∃ rd a, o.1 = read_conn rd a t) ∧
  match o.2 with
  | Ok None => owned o.1
  | Ok (Some seg) => dispatchable seg ∧ claimed seg o.1 ∧ (t_recv t ≠ None → Valid (in_authentication seg) = false)
  | Err e => typed e ∧ single_user o.1
  | Panic _ => False
  end.
Proof using CL.
  intros Hok Hown. unfold t_readOneSegment. set (t0 := t<|t_in := _|>).
  set (o := readOneSegment _ _ _ _ _ _ _ _ _ _ _).
  assert (∀ d, recordActivity (pe_now pe) d (with_reading o.1 t0) = read_conn o.1 (t_idle (recordActivity (pe_now pe) d (with_reading o.1 t0))) t) as Hrec.
  { intros d. unfold recordActivity. destruct (_ >? _); by destruct t as [[] ? ? ? ? ? ? ? ? ? ?]. }
  enough (∀ a, conn_ok pat (read_conn o.1 a t) ∧
    match o.2 with
    | Ok None => owned (read_conn o.1 a t)
    | Ok (Some (seg, au)) => dispatchable (authenticated seg au) ∧ claimed (authenticated seg au) (read_conn o.1 a t) ∧
        (t_recv t ≠ None → Valid (in_authentication (authenticated seg au)) = false)
    | Err e => typed e ∧ single_user (read_conn o.1 a t)
    | Panic _ => False
    end) as H.
  { destruct o as [rd r]. cbn [fst snd] in *. rewrite Hrec. cbn [fst snd]. specialize (H (t_idle (recordActivity (pe_now pe) (len (t_in t0) - len (rd_in rd)) (with_reading rd t0)))).
    destruct H as [H1 H2]. split; [exact H1|]. split; [done|]. split; [by eexists _, _|].
    destruct r as [[[seg au]|]|e|m]; exact H2. }
  intros a. change (t_isClient t0) with (t_isClient t) in o. change (t_block t0) with (t_block t) in o.
  change (u_trafficPattern (t_base t0)) with (u_trafficPattern (t_base t)) in o. change (t_source t0) with (t_source t) in o.
  assert (∀ seg au s, segment_read seg s → dispatchable (authenticated seg au)) as Hdisp.
  { intros seg au s [_ H]. unfold dispatchable, authenticated. by destruct (Valid au). }
  destruct (t_recv t) as [c|] eqn:Er.
  - destruct (tame_readOne maphash jitter (pe_now pe) (ce_stop ev) (pe_tick pe) (t_isClient t) (t_block t) (u_trafficPattern (t_base t)) (t_source t) (unixOf pe)
      (reading_of g t0) c Er) as (Hu & Hw & (n & Hr) & Hout). fold o in Hu, Hw, Hr, Hout.
    split.
    { apply read_conn_ok; [done| |].
      - intros c0. rewrite Hr. intros [= <-]. by apply moved_cipher, (co_recv _ _ Hok).
      - intros Hcl. destruct (proj1 (co_server _ _ Hok Hcl) g) as [? ?]. unfold users_ok. by rewrite Hu, Hw. }
    assert (owned (read_conn o.1 a t)) as Hown'.
    { intros Hcl. destruct (Hown Hcl) as [[? _]|(us & Ho & Hp)]; [congruence|]. right. exists us. split; [|done].
      apply read_conn_owner; [done|]. by exists n, c. }
    destruct o.2 as [[[seg au]|]|e|m]; [|done|split; [done|by apply owned_single]|done]. destruct Hout as [Hs ->]. split; [by eapply Hdisp|]. unfold authenticated. cbn. split; [|done]. split; [done|].
    intros Hcl. destruct (Hown' Hcl) as [[E _]|(us & Ho & Hp)]; [unfold read_conn in E; cbn in E; congruence|]. by exists us.
  - destruct (t_isClient t) eqn:Ecl.
    + destruct (co_client _ _ Hok Ecl) as [b Eb]. destruct (Clone_ok pat b (co_block _ _ Hok b Eb)) as (k & Ek & Hk).
      destruct (readOne_first_client maphash jitter (pe_now pe) (ce_stop ev) (pe_tick pe) true (t_block t) (u_trafficPattern (t_base t)) (t_source t) (unixOf pe)
        (reading_of g t0) b k Er eq_refl Eb Ek) as (Hu & Hw & Hout & Hr & Ha). fold o in Hu, Hw, Hout, Hr, Ha.
      split.
      { apply read_conn_ok; [done| |congruence]. intros c0 Hc0. destruct Hr as [[E _]|(n & E)]; [congruence|]. rewrite E in Hc0. injection Hc0 as <-.
        by eapply (cipher_same pat), (co_block _ _ Hok). }
      unfold outcome_ok in Hout. destruct o.2 as [[[seg au]|]|e|m]; [|intros Hcl; exfalso; unfold t_isClient, read_conn in *; cbn in *; congruence|
        split; [done|intros Hcl; exfalso; unfold t_isClient, read_conn in *; cbn in *; congruence]|done].
      rewrite (Ha seg au eq_refl). destruct Hout as [Hs _]. split; [by eapply Hdisp|]. split; [|done]. split; [done|].
      intros Hcl. exfalso. unfold t_isClient, read_conn in *. cbn in *. congruence.
    + destruct (co_server _ _ Hok Ecl) as [Hus Hpat].
      destruct (readOne_first_server maphash jitter (pe_now pe) (ce_stop ev) (pe_tick pe) false (t_block t) (u_trafficPattern (t_base t)) (t_source t) (unixOf pe) gen
        (reading_of g t0) Er eq_refl (Hus g)) as (Hus' & Hout & Hr). fold o in Hus', Hout, Hr.
      assert (sessionMap (t_base t) = ∅) as Hempty.
      { destruct (Hown Ecl) as [[_ ?]|(us & [_ (c & s & E & _) _] & _)]; [done|congruence]. }
      destruct Hr as [[Hnone Hno]|(reg & em & c & m & au & n & Hreg & Hd & Hr & Hnn & Ha)].
      * split; [apply read_conn_ok; [done|congruence|done]|]. unfold outcome_ok in Hout. destruct o.2 as [[x|]|e|msg]; [by destruct (Hno x eq_refl)| |split; [done|by left]|done].
        intros _. left. split; [exact Hnone|exact Hempty].
      * destruct (discovered_owner pat t g reg em (pe_now pe) c m au n (Hus g) Hreg Hd Hpat) as (us & Hgen & Hc & Hname & Hkey & Hv & Hpol & Hid).
        split; [apply read_conn_ok; [done|intros c0; rewrite Hr; by intros [= <-]|done]|].
        assert (owner us (read_conn o.1 a t)) as Ho.
        { split; [done| |].
          - destruct Hkey as [s Hkey]. eexists _, s. split; [exact Hr|done].
          - intros i en. change (sessionMap (t_base (read_conn o.1 a t)) !! i) with (sessionMap (t_base t) !! i). by rewrite Hempty, lookup_empty. }
        unfold outcome_ok in Hout. destruct o.2 as [[[seg au']|]|e|msg]; [| |split; [done|by left]|done].
        -- rewrite (Ha seg au' eq_refl). destruct Hout as [Hs _]. split; [by eapply Hdisp|]. unfold authenticated. rewrite Hv. split; [|done].
           split; [intros Hcl; unfold t_isClient, read_conn in *; cbn in *; congruence|]. intros _. exists us. split; [exact Ho|]. unfold opensWith. cbn [in_authentication]. rewrite Hv. done.
        -- by destruct Hnn.
Qed.

(** ** The rounds of the event loop *)

(** The end of a round: the connection is in order, and if the loop goes on it
    has an owner. *)
Definition round_ok (pat : option NoncePattern) (r : option (StreamUnderlay * list (list Z) * loopOutcome)) : Prop :=
  ∀ t' out o, r = Some (t', out, o) → conn_ok pat t' ∧ single_user t' ∧ (o = Continue → owned t') ∧ ∀ m, o ≠ LoopPanic m.

Lemma round_stay pat t out o : conn_ok pat t → owned t → (∀ m, o ≠ LoopPanic m) → round_ok pat (Some (t, out, o)).
Proof using. intros H1 H2 H3 t' out' o' [= <- <- <-]. split_and!; [done|by apply owned_single|done|done]. Qed.
Lemma round_return pat t out e : conn_ok pat t → single_user t → round_ok pat (Some (t, out, Return e)).
Proof using. intros H1 H2 t' out' o' [= <- <- <-]. by split_and!. Qed.

(** A handler that needs no owner of its own. *)
Lemma after_handler pat name seg t h :
  conn_ok pat t → claimed seg t → (t_isClient t = false → opensWith seg t = t_policy t) →
  handler_ok (opensWith seg t) t h → round_ok pat (t_after name h).
Proof using.
  intros Hok Hcl Hpol Hh. destruct h as [[t' r]|]; [|done]. destruct (Hh t' r eq_refl) as (-> & Hg & Hr).
  set (b := t_base t') in *. assert (conn_ok pat (t_with_base b t)) as Hok' by (by destruct Hg; apply conn_with_base).
  assert (owned (t_with_base b t)) as Hown.
  { intros Hc. assert (t_isClient t = false) as Hc0 by (unfold t_isClient in *; by rewrite <-(gr_role _ _ _ Hg)). destruct (proj2 Hcl Hc0) as (us & Ho & Hp & _). right. exists us.
    split; [by eapply owner_with_base|]. cbn. by rewrite <-(Hpol Hc0). }
  unfold t_after. destruct r as [x|e|m]; [| |by destruct (Hr m)]; by apply round_stay.
Qed.

(** The user's policy is committed. *)
Lemma t_commit_ok pat pe seg t :
  conn_ok pat t → is_u32 (pe_tick pe) → claimed seg t → round_ok pat (t_after "" (Some (t_commit maphash pe seg t))).
Proof using.
  intros Hok Htick [Hcl Hus]. unfold t_commit, opensWith in *. destruct (Valid (in_authentication seg)) eqn:Ev; cbn [negb].
  2:{ apply round_stay; [done| |done]. intros Hc. destruct (Hus Hc) as (us & ? & ? & _). right. by exists us. }
  destruct (t_isClient t) eqn:Ecl; [by specialize (Hcl eq_refl)|]. destruct (Hus eq_refl) as (us & Ho & Hp & Hid).
  set (t1 := t<|t_policy := a_policy (in_authentication seg)|>). destruct (co_server _ _ Hok Ecl) as [Husers Hpat].
  pose proof (λ g, proj1 (Husers g)) as Hw. pose proof (λ g, proj2 (Husers g)) as Hreg.
  assert (∀ tu, (∀ reg, tu = Some reg → registry_ok gen maphash reg) → conn_ok pat (t1<|t_users := tu|>) ∧ owned (t1<|t_users := tu|>)) as Hany.
  { intros tu Htu. destruct Hok, Ho. split; [split; try done; intros _; split; [|done]; intros g; split; [apply (Hw g)|exact Htu]|]. intros _. right. exists us. split; [by split|exact Hp]. }
  change (t_users t1) with (t_users t). destruct (t_users t) as [reg|] eqn:Er.
  - destruct (Record_ok gen maphash reg (in_authentication seg) (pe_tick pe)) as (a' & reg' & -> & Hreg'); [by apply (Hreg (mkReplay 0 0 0 ∅ ∅))|by apply Hid|done|].
    destruct (Hany (Some reg')) as [? ?]; [by intros r [= <-]|]. by apply round_stay.
  - destruct (Hany None) as [? ?]; [done|]. assert (t1<|t_users := None|> = t1) as E by (unfold t1; destruct t; cbn in *; by subst).
    rewrite E in *. by apply round_stay.
Qed.

Lemma closeReq_round pat pe we das t :
  conn_ok pat t → owned t → write_ok pat we →
  round_ok pat match t_writeOneSegment p we (pe_now pe) (t_closeReq das) t with
    | (t, _, (pieces, Ok _)) => Some (t, pieces, Continue)
    | (t, _, (pieces, Err e)) => Some (t, pieces, Return (Some (Wrapf "writeOneSegment() failed" e)))
    | (t, _, (pieces, Panic m)) => Some (t, pieces, LoopPanic m)
    end.
Proof using CL FL.
  intros Hok Hown Hwe. pose proof (closeReq_safe pat we (pe_now pe) das t) as Hs.
  destruct (t_writeOneSegment _ _ _ _ _) as [[t' seg'] [pieces r]] eqn:E.
  pose proof (writeOne_effect pat _ _ _ _ _ _ _ Hok E) as Hw. destruct (wrote_ok _ _ _ Hw Hok) as (H1 & H2 & _).
  destruct r as [x|e|m]; [by apply round_stay; auto|by apply round_stay; auto|by destruct (Hs m)].
Qed.

Lemma t_dispatch_ok pat pe we seg t :
  conn_ok pat t → is_u32 (pe_tick pe) → write_ok pat we → dispatchable seg → claimed seg t →
  (Valid (in_authentication seg) = true → Protocol (seg_metadata (in_segment seg)) = openSessionRequest) →
  round_ok pat (t_dispatch maphash p pe we seg t).
Proof using CL FL.
  intros Hok Htick Hwe Hd Hcl Hv. unfold t_dispatch. set (m := seg_metadata (in_segment seg)) in *.
  assert (Protocol m ≠ openSessionRequest → Valid (in_authentication seg) = false) as Hv'.
  { intros H. destruct (Valid (in_authentication seg)); [by destruct (H (Hv eq_refl))|done]. }
  assert (Protocol m ≠ openSessionRequest → t_isClient t = false → opensWith seg t = t_policy t) as Hpol.
  { intros H _. unfold opensWith. by rewrite Hv'. }
  assert (Protocol m ≠ openSessionRequest → owned t) as Hown.
  { intros H Hc. destruct (proj2 Hcl Hc) as (us & Ho & Hp & _). right. exists us. by rewrite <-(Hpol H Hc). }
  unfold dispatchable in Hd. fold m in Hd. destruct m as [ss|das] eqn:Em; cbn [Protocol] in *.
  - rewrite Hd. destruct (Z.eqb_spec (ss_Protocol ss) openSessionRequest) as [Ep|Ep].
    + pose proof (t_onOpen_ok pe seg t ss Em) as Hh. destruct (t_onOpenSessionRequest pe seg t) as [[t' r]|]; [|done].
      destruct (Hh t' r eq_refl) as (-> & Hg & Hr). set (b := t_base t') in *.
      assert (conn_ok pat (t_with_base b t)) as Hok' by (by destruct Hg; apply conn_with_base).
      assert (claimed seg (t_with_base b t)) as Hcl'.
      { assert (t_isClient (t_with_base b t) = t_isClient t) as Erole by exact (gr_role _ _ _ Hg).
        unfold claimed. rewrite Erole. split; [apply Hcl|]. intros Hc. destruct (proj2 Hcl Hc) as (us & Ho & Hp & Hid).
        exists us. split; [by eapply owner_with_base|]. by split. }
      assert (single_user (t_with_base b t)) as Hsingle.
      { intros Hc. destruct (proj2 Hcl' Hc) as (us & Ho & _). right. by exists us. }
      destruct r as [x|e|msg]; [by apply t_commit_ok|by apply round_return|by destruct (Hr msg)].
    + destruct (_ =? _); (eapply after_handler; [done|exact Hcl|by apply Hpol|]); [by eapply t_onOpenResponse_ok|by eapply t_onClose_ok].
  - assert (das_Protocol das ≠ openSessionRequest) as Hne by (intros E; by rewrite E in Hd).
    rewrite (dataAck_not_session _ Hd), Hd. unfold toDataAckStruct. cbn [Protocol]. rewrite Hd.
    destruct (sessionMap _ !! _).
    + eapply after_handler; [done|exact Hcl|by apply Hpol|apply deliverTo_ok].
    + apply closeReq_round; auto.
Qed.

Lemma drainSizes_safe dr fixedV m : (drainSizes p hostName dr fixedV).2 ≠ Panic m.
Proof using.
  unfold drainSizes, FixedIntVH.
  assert (∀ c n, 0 < n → - n < (FixedIntV (appVersion p) c n hostName).2 < n) as Hrange.
  { intros c n Hn. unfold FixedIntV. destruct (Z.leb_spec n 0); [lia|]. destruct (c !! hostName); cbn;
      match goal with |- - n < ?a `rem` n < n => pose proof (Z.rem_bound_abs a n ltac:(lia)); lia end. }
  pose proof (Hrange fixedV 50000 ltac:(lia)) as H1. destruct (FixedIntV _ fixedV 50000 _) as [f1 x1].
  pose proof (Hrange f1 4 ltac:(lia)) as H2. destruct (FixedIntV _ f1 4 _) as [f2 k]. cbn [snd] in H2.
  destruct (FixedIntV _ f2 256 _) as [f3 x3]. cbn [snd]. rewrite Z.shiftl_1_l.
  pose proof (Z.pow_le_mono_r 2 9 (12 + k) ltac:(lia) ltac:(lia)) as Hp. change (2 ^ 9) with 512 in Hp.
  unfold IntRange, Intn. destruct (Z.leb_spec (10000 - 1000 + 1) 0); [lia|]. rewrite !bind_Ok.
  destruct (Z.leb_spec (2 ^ (12 + k) - 254 - 0 + 1) 0); [lia|]. by rewrite !bind_Ok.
Qed.

Lemma t_loopRound_ok pat cancelled tick pe we dr ev g t :
  conn_ok pat t → owned t → is_u32 (pe_tick pe) → write_ok pat we →
  round_ok pat (t_loopRound maphash jitter p hostName cancelled tick pe we dr ev g t).2.
Proof using CL FL.
  intros Hok Hown Htick Hwe. unfold t_loopRound.
  assert (∀ u, conn_ok pat u → conn_ok pat (t_cleanSessions pe u)) as Hclean by (intros u; apply conn_keeps, cleanSessions_keeps_users).
  destruct (_ && _); [apply round_return; [by apply Hclean|apply owned_single, owned_with_base; [apply cleanSessions_keeps_users|done]]|].
  set (t0 := if tick then t_cleanSessions pe t else t).
  assert (conn_ok pat t0 ∧ owned t0) as [Hok0 Hown0].
  { unfold t0. destruct tick; [|done]. split; [by apply Hclean|apply owned_with_base; [apply cleanSessions_keeps_users|done]]. }
  destruct (t_read_ok pat pe ev g t0 Hok0 Hown0) as (Hok1 & Hrole & _ & H).
  destruct (t_readOneSegment maphash jitter pe ev g t0) as [g1 [t1 [[seg|]|e|m]]]; cbn [fst snd] in *; [| | |done].
  - destruct H as (Hd & Hcl & _). destruct (Valid (in_authentication seg)) eqn:Ev; [|apply t_dispatch_ok; try done; congruence].
    unfold validateNewServerSessionSegment. assert (single_user t1) as Hs.
    { intros Hc. destruct (proj2 Hcl Hc) as (us & Ho & _). right. by exists us. }
    destruct (seg_metadata (in_segment seg)) as [ss|das] eqn:Em; [|by apply round_return].
    destruct (Z.eqb_spec (ss_Protocol ss) openSessionRequest) as [Ep|]; [|by apply round_return].
    destruct (_ =? 0); [by apply round_return|]. apply t_dispatch_ok; try done. intros _. by rewrite Em.
  - by apply round_stay.
  - destruct H as [(ty & e' & -> & Hty) Hs]. destruct (u_done (t_base t1)).
    { apply round_return; [by apply Hclean|]. intros Hc. assert (t_isClient t1 = false) as Hc1.
      { unfold t_isClient in *. rewrite <-Hc. symmetry. apply (ku_role _ _ (cleanSessions_keeps_users pe t1)). }
      pose proof (cleanSessions_keeps_users pe t1) as Hk. destruct (Hs Hc1) as [E|(us & Ho)].
      - left. apply map_eq. intros i. rewrite lookup_empty. destruct (sessionMap (t_base (t_cleanSessions pe t1)) !! i) as [en|] eqn:Ei; [|done].
        apply (ku_policies _ _ Hk) in Ei as (en0 & Ei & _). by rewrite E, lookup_empty in Ei.
      - right. exists us. eapply (owner_with_base us (policy us)); [by apply keeps_grows|done|done]. }
    cbn [GetErrorType]. destruct ty; [set_solver|set_solver|by apply round_return|by apply round_return| |].
    all: pose proof (drainSizes_safe dr (t_fixedV t1)) as Hdr; destruct (drainSizes p hostName dr (t_fixedV t1)) as [f r]; cbn [snd] in Hdr.
    all: assert (conn_ok pat (t1<|t_fixedV := f|>) ∧ single_user (t1<|t_fixedV := f|>)) as [? ?]
      by (split; [by destruct Hok1|intros Hc; destruct (Hs Hc) as [?|(us & [? ? ?])]; [by left|right; exists us; by split]]).
    all: destruct r as [x|e|m]; [by apply round_return..|by destruct (Hdr m)].
Qed.

(** ** All that happens to a connection *)

(** A round reads with whatever the replay cache of the process holds by then;
    [ConnShared] is what other underlays do to the cipher caches and to the
    registry of users. *)
Inductive connStep (pat : option NoncePattern) (t : StreamUnderlay) : StreamUnderlay → Prop :=
  | ConnRound cancelled tick pe we dr ev streamReplayCache t' out : is_u32 (pe_tick pe) → write_ok pat we →
      (t_loopRound maphash jitter p hostName cancelled tick pe we dr ev streamReplayCache t).2 = Some (t', out, Continue) → connStep pat t t'
  | ConnAdd en addr t' : t_isClient t = true → e_recvChan en = [] → StreamUnderlay_AddSession en addr t = Ok t' → connStep pat t t'
  | ConnReceive e i b r : receive e i (t_base t) = Some (b, r) → connStep pat t (t_with_base b t)
  | ConnSession op i en : sessionMap (t_base t) !! i = Some en →
      connStep pat t (t_with_base ((t_base t)<|sessionMap := <[i := en<|e_session := (perform op (e_session en)).1.1|>]> (sessionMap (t_base t))|>) t)
  | ConnWrite we now seg t' seg' o : t_writeOneSegment p we now seg t = (t', seg', o) → connStep pat t t'
  | ConnAccept pick b r : Accept pick (t_base t) = Some (b, r) → connStep pat t (t_with_base b t)
  | ConnRemove e en b r : RemoveSession e en (t_base t) = (b, r) → connStep pat t (t_with_base b t)
  | ConnClose e : connStep pat t (StreamUnderlay_Close e t)
  | ConnCloseIfIdle e now timeout : connStep pat t (closeIfIdle e now timeout t).1
  | ConnSetUsers n us reg : t_users t = Some reg → Z.of_nat (size us) < 2 ^ 32 - 1 → gen n = Some (users (buildState n us noStats)) →
      connStep pat t (t<|t_users := Some (SetUsers n us reg)|>)
  | ConnShared w users : world_wf gen w → (∀ reg, users = Some reg → registry_ok gen maphash reg) →
      connStep pat t (t<|t_world := w|><|t_users := users|>).

Lemma connStep_ok pat t t' : connStep pat t t' → conn_ok pat t ∧ owned t → conn_ok pat t' ∧ owned t'.
Proof using CL FL.
  intros Hstep [Hok Hown].
  assert (∀ b, keeps_users (t_base t) b → conn_ok pat (t_with_base b t) ∧ owned (t_with_base b t)) as Hkeep
    by (intros b Hb; split; [by apply conn_keeps|by apply owned_with_base]).
  destruct Hstep as [cancelled tick pe we dr ev g t' out Htick Hwe H|en addr t' Hcl Hch H|e i b r H|op i en Hi|we now seg t' seg' o H|pick b r H|e en b r H|e|
    e now timeout|n us reg Hreg Hsize Hgen|w users Hw Hu].
  - destruct (t_loopRound_ok pat _ _ _ _ _ _ _ _ Hok Hown Htick Hwe _ _ _ H) as (H1 & _ & H2 & _). split; [done|by apply H2].
  - unfold StreamUnderlay_AddSession in H. destruct (AddSession _ _ _ _) as [b|e|m] eqn:Ea; [|done..]. injection H as <-.
    assert (u_isClient b = u_isClient (t_base t)) as Hr by (by eapply AddSession_shape).
    assert (t_isClient (t_with_base b t) = true) as Hcl' by (unfold t_isClient in *; by rewrite <-Hcl).
    split; [|intros Hc; congruence]. destruct Hok as [Hs H2 H3 H4 H5 H6]. split; try done; [|by intros _; apply H5|intros Hc; congruence].
    eapply AddSession_ok; [exact Hs| |exact Ea]. by rewrite Hch.
  - by eapply Hkeep, receive_keeps_users.
  - by apply Hkeep, session_keeps_users.
  - pose proof (writeOne_effect pat _ _ _ _ _ _ _ Hok H) as Hw. destruct (wrote_ok _ _ _ Hw Hok) as (H1 & H2 & _). auto.
  - by eapply Hkeep, Accept_keeps_users.
  - pose proof (remove_keeps_users e en (t_base t)) as Hr. rewrite H in Hr. by apply Hkeep.
  - apply Hkeep, Close_keeps_users.
  - pose proof (closeIdle_keeps_users e now timeout t) as Hk. assert ((closeIfIdle e now timeout t).1 = t_with_base (t_base (closeIfIdle e now timeout t).1) t) as ->
      by (unfold closeIfIdle; destruct (u_done _); [apply with_base_same|]; destruct (t_idle t); [|apply with_base_same]; destruct (negb _); [apply with_base_same|done]).
    by apply Hkeep.
  - destruct Hok as [H1 H2 H3 H4 H5 H6]. split.
    + split; try done. intros Hcl. destruct (H6 Hcl) as [Hw Hp]. split; [|done]. intros g. split; [apply (Hw g)|]. intros reg' [= <-]. by apply SetUsers_ok.
    + intros Hcl. destruct (Hown Hcl) as [?|(us' & [? ? ?] & ?)]; [by left|right; exists us'; by split].
  - destruct Hok as [H1 H2 H3 H4 H5 H6]. split.
    + split; try done. intros Hcl. destruct (H6 Hcl) as [_ Hp]. done.
    + intros Hcl. destruct (Hown Hcl) as [?|(us' & [? ? ?] & ?)]; [by left|right; exists us'; by split].
Qed.
Lemma connSteps_ok pat t t' : rtc (connStep pat) t t' → conn_ok pat t ∧ owned t → conn_ok pat t' ∧ owned t'.
Proof using CL FL. intros H. induction H as [|t t1 t2 H1 _ IH]; [done|]. intros Hok. by eapply IH, connStep_ok. Qed.

(** C6. A connection belongs to one user: over any sequence of rounds of its
    event loop, calls from other goroutines, work of its sessions and reloads of
    the users, a server's connection either has accepted nothing, or the key of
    one published user opened its first message and still receives on it, and all
    its sessions have the policy of that user; every session is in the map under
    its own nonzero id, with the role and the transport of the underlay, attached
    and announced, its channel within its capacity; and the ciphers and the
    generations of users stay well-formed. *)
Theorem connection_has_one_user (pat : option NoncePattern) (t0 t : StreamUnderlay) :
  conn_ok pat t0 → owned t0 → rtc (connStep pat) t0 t →
  conn_ok pat t ∧
  (t_isClient t = false →
   t_recv t = None ∧ sessionMap (t_base t) = ∅ ∨
   ∃ us n ul c s, gen n = Some ul ∧ us ∈ ul ∧ t_recv t = Some c ∧ c_userName c = name us ∧ c_key c = keyAt (credential us) s ∧ t_policy t = policy us ∧
     ∀ i en, sessionMap (t_base t) !! i = Some en → e_userPolicy en = policyOf (policy us)).
Proof using CL FL.
  intros Hok Hown H. destruct (connSteps_ok pat t0 t H (conj Hok Hown)) as [Hok' Hown']. split; [done|]. intros Hcl.
  destruct (Hown' Hcl) as [?|(us & [(n & ul & Hg & Hu) (c & s & Hr & Hn & Hk) Hs] & Hp)]; [by left|]. right. exists us, n, ul, c, s. done.
Qed.

(** C8. Nothing that a peer sends makes the event loop of a connection panic:
    in every reachable state, whatever bytes arrive, however the connection
    ends, and whatever is drawn and written meanwhile, the round ends with the
    next round or a return; and also then all sessions of a server's connection
    have the policy of one published user. *)
Theorem event_loop_never_panics (pat : option NoncePattern) (t0 t t' : StreamUnderlay) (cancelled tick : bool) (pe : roundEnv) (we : writeEnv)
    (dr : drainDraws) (ev : connEvent) (streamReplayCache : ReplayCache) (out : list (list Z)) (o : loopOutcome) :
  conn_ok pat t0 → owned t0 → rtc (connStep pat) t0 t → is_u32 (pe_tick pe) → write_ok pat we →
  (t_loopRound maphash jitter p hostName cancelled tick pe we dr ev streamReplayCache t).2 = Some (t', out, o) →
  (∀ m, o ≠ LoopPanic m) ∧
  (t_isClient t' = false → sessionMap (t_base t') = ∅ ∨
   ∃ us n ul, gen n = Some ul ∧ us ∈ ul ∧ ∀ i en, sessionMap (t_base t') !! i = Some en → e_userPolicy en = policyOf (policy us)).
Proof using CL FL.
  intros Hok Hown H Htick Hwe Hround. destruct (connSteps_ok pat t0 t H (conj Hok Hown)) as [Hok1 Hown1].
  destruct (t_loopRound_ok pat _ _ _ _ _ _ _ _ Hok1 Hown1 Htick Hwe _ _ _ Hround) as (_ & Hs & _ & Hp). split; [done|].
  intros Hcl. destruct (Hs Hcl) as [?|(us & [(n & ul & Hg & Hu) _ Hss])]; [by left|right]. by exists us, n, ul.
Qed.

(** What is drained after an error: a deadline of 1 to 60 seconds, and a minimum
    that fits the buffer of 4 to 32 KiB, so [io.ReadAtLeast] never refuses it. *)
Theorem drain_bounds (dr : drainDraws) (fixedV : hintCache) :
  cache_of (versioned (appVersion p)) fixedV → Float64 (dr_timeBase dr) → Float64 (dr_sizeBase dr) →
  (∀ n, 0 < n → 0 <= dr_time dr n < n) → (∀ n, 0 < n → 0 <= dr_size dr n < n) →
  ∃ timeoutMillis bufSize minRead, (drainSizes p hostName dr fixedV).2 = Ok (timeoutMillis, bufSize, minRead) ∧
    1000 <= timeoutMillis < 60000 ∧ 4096 <= bufSize <= 32768 ∧ 0 <= minRead <= bufSize.
Proof using FL.
  intros Hc Hb1 Hb2 Hd1 Hd2. unfold drainSizes, FixedIntVH.
  destruct (FixedIntV_spec (appVersion p) fixedV 50000 hostName Hc ltac:(lia)) as [E1 Hc1]. destruct (FixedIntV _ fixedV 50000 _) as [f1 x1]. cbn [fst snd] in *.
  destruct (FixedIntV_spec (appVersion p) f1 4 hostName Hc1 ltac:(lia)) as [E2 Hc2]. destruct (FixedIntV _ f1 4 _) as [f2 k]. cbn [fst snd] in *.
  destruct (FixedIntV_spec (appVersion p) f2 256 hostName Hc2 ltac:(lia)) as [E3 _]. destruct (FixedIntV _ f2 256 _) as [f3 x3]. cbn [fst snd] in *.
  set (h := hintValue _) in *. pose proof (Z.mod_pos_bound h 50000 ltac:(lia)). pose proof (Z.mod_pos_bound h 4 ltac:(lia)). pose proof (Z.mod_pos_bound h 256 ltac:(lia)).
  rewrite Z.shiftl_1_l. pose proof (Z.pow_le_mono_r 2 12 (12 + k) ltac:(lia) ltac:(lia)) as Hp1. pose proof (Z.pow_le_mono_r 2 (12 + k) 15 ltac:(lia) ltac:(lia)) as Hp2.
  change (2 ^ 12) with 4096 in Hp1. change (2 ^ 15) with 32768 in Hp2. set (bufSize := 2 ^ (12 + k)) in *.
  unfold IntRange.
  destruct (Intn_range (dr_time dr (9000 + 1)) (dr_timeBase dr) (10000 - 1000) Hb1) as (y1 & -> & Hy1 & Hy1'); [apply Hd1; lia|lia|].
  destruct (Intn_range (dr_size dr (bufSize - 254 + 1)) (dr_sizeBase dr) (bufSize - 254 - 0) Hb2) as (y2 & -> & Hy2 & Hy2');
    [replace (bufSize - 254 - 0) with (bufSize - 254) by lia; apply Hd2; lia|lia|].
  rewrite !bind_Ok. eexists _, _, _. split; [reflexivity|]. lia.
Qed.
End invariant.

(** ** From a client's open request to a session *)

Section opening.
Context `{BT : BTree} `{F : GoFloat} {FL : GoFloatLaws F} `{CL : CryptoLaws}.
Context (maphash : list Z → Z) (jitter : Z → Z) (p : program) (hostName : list Z) (gen : Z → option (list user)).

Lemma sendPieces_all we ss t data :
  (∀ i, we_sent we i = None) → draws_below (we_fragment we) → ∃ pieces, sendPieces we (MSession ss) t data = (pieces, Ok tt) ∧ concat pieces = data.
Proof using.
  intros Hs Hd. unfold sendPieces, writeWithPossibleFragment. rewrite Hs. destruct (negb _); [exists [data]; cbn; by rewrite app_nil_r|].
  pose proof (fragmentLoop_spec (we_sent we) (we_fragment we) (len data) (length data) 0 data Hd (len_nonneg data) ltac:(lia)) as H.
  destruct (fragmentLoop _ _ _ _ _ _) as [pieces [[]|e|m]]; destruct H as (_ & _ & _ & H); [by exists pieces| |done].
  destruct H as (_ & j & e' & Hj & _). by rewrite Hs in Hj.
Qed.

(** The first write of a client. *)
Lemma first_write we now seg ss b k t :
  t_isClient t = true → t_send t = None → t_block t = Some b → Clone b = Ok k → ready k (sd_nonce (we_draws we)) → implicitNonce k = [] →
  padding_ok p (we_draws we) → buffer_ok (sd_buffer (we_draws we)) → seg_metadata seg = MSession ss → sendable (we_draws we) (MSession ss) (seg_payload seg) →
  clock_ok (Unix now) → (∀ i, we_sent we i = None) → draws_below (we_fragment we) →
  ∃ t' seg' pieces s' m', t_writeOneSegment p we now seg t = (t', seg', (pieces, Ok tt)) ∧ t_send t' = Some s' ∧
    writtenSegment (Unix now) k s' (MSession ss) m' (seg_payload seg) (concat pieces).
Proof using CL FL.
  intros Hcl Hnone Hb Hk Hready Hempty Hp Hbuf Hm Hsend Hclk Hsent Hfrag.
  assert (unstarted k = true) as Hun by (unfold unstarted; by rewrite Hempty).
  destruct (written_session p (we_draws we) (u_mtu (t_base t)) (u_trafficPattern (t_base t)) (Unix now) k ss (seg_payload seg) (MSession ss) (t_fixedV t) Hready Hp Hsend Hclk)
    as (s' & dg & m' & fv & Hw & Hbuild). specialize (Hbuild (sd_buffer (we_draws we)) Hbuf). rewrite Hun in Hbuild.
  assert (with_buffer (sd_buffer (we_draws we)) (we_draws we) = we_draws we) as Ed by (by destruct (we_draws we)). rewrite Ed in Hbuild.
  assert (∃ ss', m' = MSession ss') as [ss' ->]. { pose proof (ws_carries _ _ _ _ _ _ _ Hw) as Hc. destruct m' as [ss'|]; [by exists ss'|done]. }
  unfold t_writeOneSegment, maybeInitSendBlockCipher. rewrite Hnone, Hcl, Hb, Hk, bind_Ok. rewrite bool_decide_true by done.
  change (t_send (t<|t_send := Some k|>)) with (Some k). cbv iota. rewrite Hm. unfold buildStream at 1. cbn [w_metadata].
  assert (toSessionStruct (MSession ss) = Ok (Some ss)) as -> by (unfold toSessionStruct; cbn [Protocol]; by rewrite (proj1 (proj2 (proj2 Hsend)))).
  change (u_mtu (t_base (t<|t_send := Some k|>))) with (u_mtu (t_base t)).
  change (u_trafficPattern (t_base (t<|t_send := Some k|>))) with (u_trafficPattern (t_base t)).
  change (t_fixedV (t<|t_send := Some k|>)) with (t_fixedV t). rewrite Hbuild. cbv beta iota. cbn [w_block w_fixedV w_metadata].
  set (t2 := _<|t_fixedV := fv|>). destruct (sendPieces_all we ss' t2 dg Hsent Hfrag) as (pieces & Hpieces & Hcat).
  change (seg_metadata (seg<|seg_metadata := MSession ss'|>)) with (MSession ss'). rewrite Hpieces. cbv beta iota.
  eexists _, _, pieces, s', (MSession ss'). split; [reflexivity|]. rewrite Hcat. split; [|done].
  unfold recordActivity. by destruct (_ >? _).
Qed.

Lemma t_onOpen_opens pe seg t i :
  t_isClient t = false → u_done (t_base t) = false → sessionIDOf seg = Ok i → i ≠ 0 → sessionMap (t_base t) !! i = None →
  len (readySessions (t_base t)) < sessionChanCapacity →
  ∃ b en, t_onOpenSessionRequest pe seg t = Some (t_with_base b t, Ok tt) ∧ sessionMap b = <[i := en]> (sessionMap (t_base t)) ∧
    readySessions b = readySessions (t_base t) ++ [i] ∧ id (e_session en) = i ∧ e_recvChan en = [seg] ∧ e_userPolicy en = policyOf (opensWith seg t).
Proof using.
  intros Hcl Hdone Hid Hne Hnone Hroom. unfold t_onOpenSessionRequest. rewrite Hcl, Hid. destruct (Z.eqb_spec i 0); [done|]. rewrite Hnone. fold (opensWith seg t).
  destruct (session_opens StreamTransport (pe_pick pe) (microOf pe) i (u_mtu (t_base t)) (opensWith seg t) (u_trafficPattern (t_base t)) (pe_jitterMs pe)
    None seg (t_base t) Hcl Hdone Hne Hnone Hroom) as (en & b1 & b2 & b3 & en' & -> & Ea & Ed & Er & -> & G1 & G2 & G3 & G4).
  rewrite bind_Ok. unfold StreamUnderlay_AddSession. rewrite Ea, bind_Ok. assert (t_base (t_with_base b1 t) = b1) as -> by done. rewrite Ed, Er.
  eexists _, en'. split; [reflexivity|]. by split_and!.
Qed.

(** C7. A client's open request makes the server open the session: the first
    segment that a client writes on a connection, with any paddings, nonce and
    fragments, lets a server that knows its user and has not seen the connection
    before add the session with the policy of that user, hand it the request
    with its payload, and offer it to be accepted; the server then receives with
    a cipher in step with the client's, and the policy is committed. *)
Theorem open_request_establishes (we : writeEnv) (now : Z) (seg : segment) (ss : sessionStruct) (b k : aeadBlockCipher) (tc : StreamUnderlay) :
  t_isClient tc = true → t_send tc = None → t_block tc = Some b → Clone b = Ok k → ready k (sd_nonce (we_draws we)) → implicitNonce k = [] →
  padding_ok p (we_draws we) → buffer_ok (sd_buffer (we_draws we)) → seg_metadata seg = MSession ss → sendable (we_draws we) (MSession ss) (seg_payload seg) →
  clock_ok (Unix now) → (∀ i, we_sent we i = None) → draws_below (we_fragment we) →
  ss_Protocol ss = openSessionRequest → ss_sessionID ss ≠ 0 →
  ∃ tc' seg' pieces s', t_writeOneSegment p we now seg tc = (tc', seg', (pieces, Ok tt)) ∧ t_send tc' = Some s' ∧
  ∀ pe we' dr stop us streamReplayCache t,
    t_isClient t = false → u_done (t_base t) = false → t_recv t = None → t_in t = [] → users_ok maphash gen (reading_of streamReplayCache t) → is_u32 (pe_tick pe) →
    clocks_ok (Unix now) (unixOf pe) → known_user (pe_now pe) (slice_to (encryptedMetadataLen true) (concat pieces)) k us (reading_of streamReplayCache t) →
    sessionMap (t_base t) !! ss_sessionID ss = None → len (readySessions (t_base t)) < sessionChanCapacity →
    ∃ t' en inc r',
      (t_loopRound maphash jitter p hostName false false pe we' dr (mkConnEvent (concat pieces) stop) streamReplayCache t).2 = Some (t', [], Continue) ∧
      sessionMap (t_base t') = <[ss_sessionID ss := en]> (sessionMap (t_base t)) ∧ id (e_session en) = ss_sessionID ss ∧ e_recvChan en = [inc] ∧
      e_userPolicy en = policyOf (policy us) ∧ seg_payload (in_segment inc) = seg_payload seg ∧
      carries (Unix now) (MSession ss) (seg_metadata (in_segment inc)) ∧ readySessions (t_base t') = readySessions (t_base t) ++ [ss_sessionID ss] ∧
      t_policy t' = policy us ∧ t_recv t' = Some r' ∧ in_step s' r'.
Proof using CL FL.
  intros Hcl Hnone Hb Hk Hready Hempty Hp Hbuf Hm Hsend Hclk Hsent Hfrag Hproto Hid.
  destruct (first_write we now seg ss b k tc) as (tc' & seg' & pieces & s' & m' & Hw & Hs' & Hws); [done..|].
  exists tc', seg', pieces, s'. split; [done|]. split; [done|]. intros pe we' dr stop us g t Hscl Hdone Hrecv Hin Hus Htick Hclks Hknown Hfree Hroom.
  set (t0 := t<|t_in := t_in t ++ concat pieces|>).
  destruct (read_first maphash jitter (pe_tick pe) false (t_block t) (u_trafficPattern (t_base t)) (t_source t) gen (Unix now) k s' (MSession ss) m' (seg_payload seg)
    (concat pieces) us (reading_of g t0) [] (pe_now pe) stop (unixOf pe)) as (rd & r' & a & Hread & Hv & Hpol & Hr & Hrest & Hst);
    [exact Hws|apply Hready|done|done|exact Hrecv|exact Hus|done|cbn; by rewrite Hin, app_nil_r|by destruct Hknown; split|].
  destruct (readOne_first_server maphash jitter (pe_now pe) stop (pe_tick pe) false (t_block t) (u_trafficPattern (t_base t)) (t_source t) (unixOf pe) gen
    (reading_of g t0) Hrecv eq_refl Hus) as (Hus' & _ & Hor). rewrite Hread in Hus', Hor. cbn [fst snd] in Hus', Hor.
  assert (is_u32 (a_userID a)) as Huid.
  { destruct Hor as [[_ Hno]|(reg & em & c & m & a' & n & Hreg & Hd & _ & _ & Ha)]; [by destruct (Hno _ eq_refl)|].
    rewrite (Ha _ _ eq_refl). destruct Hd as (st & u & bb & Es & Hu & _ & _ & -> & _). destruct (proj2 Hus reg Hreg st Es) as [[Hwf _] _]. by eapply uid_u32. }
  destruct m' as [ss'|das']; [|by destruct (ws_carries _ _ _ _ _ _ _ Hws)].
  pose proof (ws_carries _ _ _ _ _ _ _ Hws) as Hcar. destruct Hcar as [n Hss'].
  assert (ss_Protocol ss' = openSessionRequest ∧ ss_sessionID ss' = ss_sessionID ss) as [Ep Ei] by (by rewrite Hss').
  set (inc := mkIncoming (arrived (MSession ss') (seg_payload seg) (Some r')) (a_policy a) a).
  assert (t_readOneSegment maphash jitter pe (mkConnEvent (concat pieces) stop) g t =
    (rd_replays rd, (recordActivity (pe_now pe) (len (t_in t0) - len (rd_in rd)) (with_reading rd t0), Ok (Some inc)))) as Eread.
  { unfold t_readOneSegment. cbn [ce_bytes ce_stop]. fold t0. change (t_isClient t0) with (t_isClient t). rewrite Hscl. change (t_block t0) with (t_block t).
    change (u_trafficPattern (t_base t0)) with (u_trafficPattern (t_base t)). change (t_source t0) with (t_source t). rewrite Hread.
    unfold authenticated. by rewrite Hv. }
  set (t1 := recordActivity _ _ _) in Eread.
  assert (t1 = read_conn rd (t_idle t1) t) as Et1 by (unfold t1, recordActivity; destruct (_ >? _); by destruct t as [[] ? ? ? ? ? ? ? ? ? ?]).
  assert (opensWith inc t1 = policy us) as Epol by (unfold opensWith; cbn [in_authentication inc]; by rewrite Hv).
  destruct (t_onOpen_opens pe inc t1 (ss_sessionID ss)) as (b2 & en & Hopen & G1 & G2 & G3 & G4 & G5);
    [by rewrite Et1|by rewrite Et1|unfold sessionIDOf; cbn; by rewrite Ei|done|by rewrite Et1|by rewrite Et1|].
  set (t2 := t_with_base b2 t1). set (t3 := t2<|t_policy := policy us|>).
  assert (∃ tu, t_commit maphash pe inc t2 = (t3<|t_users := tu|>, Ok tt)) as [tu Hcommit].
  { unfold t_commit. cbn [in_authentication inc]. rewrite Hv. cbn [negb]. rewrite Hpol. fold t3.
    assert (t_users t3 = rd_users rd) as -> by (unfold t3, t2; by rewrite Et1). destruct (rd_users rd) as [reg|] eqn:Er.
    - destruct (Record_ok gen maphash reg a (pe_tick pe)) as (a' & reg' & -> & _); [by apply (proj2 Hus')|done|done|]. by eexists.
    - exists None. f_equal. unfold t3, t2. rewrite Et1. clear -Er. by destruct rd, t as [[] ? ? ? ? ? ? ? ? ? ?]; cbn in *; subst. }
  exists (t3<|t_users := tu|>), en, inc, r'. split.
  { unfold t_loopRound. rewrite Hdone. cbn [orb andb]. rewrite Eread. cbn [snd]. cbv iota beta. cbn [in_authentication inc]. rewrite Hv.
    unfold validateNewServerSessionSegment. cbn [in_segment inc arrived seg_metadata]. rewrite Ep, Ei. cbn [negb Z.eqb Pos.eqb].
    rewrite (proj2 (Z.eqb_neq _ _) Hid). unfold t_dispatch. cbn [in_segment inc arrived seg_metadata Protocol]. rewrite Ep. cbn.
    fold inc. rewrite Hopen. fold t2. by rewrite Hcommit. }
  assert (sessionMap (t_base t1) = sessionMap (t_base t) ∧ readySessions (t_base t1) = readySessions (t_base t) ∧ t_recv t1 = Some r') as (F1 & F2 & F3)
    by (rewrite Et1; done).
  rewrite F1 in G1. rewrite F2 in G2. rewrite Epol in G5. split_and!; [exact G1|exact G3|exact G4|exact G5|done|by exists n|exact G2|done|exact F3|done].
Qed.
End opening.

(** ** An example: a client opens a connection to a server with two users *)

#[local] Existing Instance taggedCrypto.
#[local] Existing Instance taggedCrypto_laws.
#[local] Existing Instance fractionFloat.
#[local] Existing Instance fractionFloat_laws.
#[local] Existing Instance listTree.

Definition example_conn_block : aeadBlockCipher := Eval vm_compute in
  SetImplicitNonceMode true (SetBlockContext [98] (templateAt (HashPassword [113] [98]) (Time_Round example_now KeyRefreshInterval))).
Definition example_conn_cache : ReplayCache := mkReplay 4194304 (example_now + 360000000000) 360000000000 ∅ ∅.
Definition example_conn_client : StreamUnderlay :=
  mkStreamUnderlay (newBaseUnderlay true 1400 None) None None (Some example_conn_block) None (mkSource [] false) noPolicy (mkWorld ∅ ∅)
    [] None ∅.
Definition example_conn_server : StreamUnderlay :=
  serverWrapTCPConn example_now (TCPAddr (Some (mkAddr [10; 0; 0; 1] 4000 []))) 1400 None (mkRegistry (Some example_state) false) example_world ∅.
Definition example_conn_env : roundEnv := mkRoundEnv example_now 5 [] false 0 (λ _, Lifecycle.example_env).
Definition example_conn_write : writeEnv := mkWriteEnv example_sendDraws (λ _, None) (λ i n, Z.of_nat i mod n).
Definition example_conn_open : sessionStruct := mkSession (mkBase openSessionRequest 0) 7 0 0 3 0.
Definition example_conn_segment : segment := mkSegment (MSession example_conn_open) [1; 2; 3] StreamTransport 0 0 0 0 None.
Definition example_conn_bytes : list Z := Eval vm_compute in
  concat (t_writeOneSegment example_program example_conn_write (1700000000 * Second) example_conn_segment example_conn_client).2.1.
Definition example_drain : drainDraws := mkDrain (λ _, 0) (1, 2) (λ _, 0) (1, 2).
Definition example_conn_round (bytes : list Z) : option (StreamUnderlay * list (list Z) * loopOutcome) :=
  (t_loopRound exampleHash (λ _, 0) example_program [104] false false example_conn_env example_conn_write example_drain
     (mkConnEvent bytes Expired) example_conn_cache example_conn_server).2.

Lemma example_conn_ok : conn_ok exampleHash example_gen None example_conn_server.
Proof.
  split; [|done..|].
  - split; [apply map_Forall_empty|done].
  - intros _. split; [|done]. split; [apply example_world_wf|]. intros reg [= <-] s [= <-]. split; [apply example_state_wf|apply example_source_wf].
Qed.
Lemma example_conn_owned : owned example_gen example_conn_server.
Proof. intros _. left. split; done. Qed.
Lemma example_write_ok : write_ok example_program None example_conn_write.
Proof.
  split.
  - split; [apply example_padding_draws_ok..|done].
  - intros n Hn. cbn. unfold len. rewrite length_replicate. lia.
  - by intros bs [= <-].
  - intros c m (Hp & _ & _). unfold newNonceTo. by rewrite Hp.
  - intros i n Hn. by apply Z.mod_pos_bound.
Qed.
Lemma example_conn_opened :
  ∃ t, example_conn_round example_conn_bytes = Some (t, [], Continue) ∧ (c_userName <$> t_recv t) = Some [98] ∧
    is_Some (sessionMap (t_base t) !! 7) ∧ t_isClient t = false.
Proof.
  assert (match example_conn_round example_conn_bytes with
    | Some (t, [], Continue) => bool_decide (c_userName <$> t_recv t = Some [98]) && bool_decide (is_Some (sessionMap (t_base t) !! 7)) &&
        negb (t_isClient t)
    | _ => false end = true) as H by (vm_compute; reflexivity).
  destruct (example_conn_round example_conn_bytes) as [[[t out] o]|]; [|discriminate H].
  destruct out; [|discriminate H]. destruct o; [|discriminate H..]. exists t. split; [reflexivity|].
  apply andb_true_iff in H as [H H3]. apply andb_true_iff in H as [H1 H2]. apply bool_decide_eq_true in H1, H2. apply negb_true_iff in H3. done.
Qed.
Lemma example_conn_rounds bytes t out :
  example_conn_round bytes = Some (t, out, Continue) → rtc (connStep exampleHash (λ _, 0) example_program [104] example_gen None) example_conn_server t.
Proof.
  intros Hrun. apply rtc_once. refine (ConnRound _ _ _ _ _ _ _ false false example_conn_env example_conn_write example_drain
    (mkConnEvent bytes Expired) example_conn_cache t out _ example_write_ok Hrun). apply (bool_decide_unpack _); vm_compute; exact I.
Qed.

Lemma connection_has_one_user_witness :
  ∃ t, rtc (connStep exampleHash (λ _, 0) example_program [104] example_gen None) example_conn_server t ∧
    ∃ us n ul, example_gen n = Some ul ∧ us ∈ ul ∧ name us = [98] ∧
      ∃ en, sessionMap (t_base t) !! 7 = Some en ∧ e_userPolicy en = policyOf (policy us).
Proof.
  destruct example_conn_opened as (t & Hrun & Hname & [en Hen] & Hcl). exists t. pose proof (example_conn_rounds _ _ _ Hrun) as Hrtc.
  split; [exact Hrtc|].
  destruct (connection_has_one_user exampleHash (λ _, 0) example_program [104] example_gen None example_conn_server t example_conn_ok example_conn_owned Hrtc)
    as [_ H].
  destruct (H Hcl) as [[E _]|(us & n & ul & c & s & Hg & Hu & Hr & Hn & _ & _ & Hs)]; [rewrite E in Hname; discriminate Hname|].
  exists us, n, ul. split; [exact Hg|]. split; [exact Hu|]. split; [rewrite Hr in Hname; injection Hname as E; congruence|].
  exists en. split; [exact Hen|exact (Hs 7 en Hen)].
Defined.

(** Bytes of nobody: the round drains them and returns. *)
Lemma event_loop_never_panics_witness :
  ∃ t' e, example_conn_round (replicate 300 7) = Some (t', [], Return (Some e)) ∧ (∀ m, Return (Some e) ≠ LoopPanic m) ∧
    sessionMap (t_base t') = ∅.
Proof.
  assert (match example_conn_round (replicate 300 7) with
    | Some (t, [], Return (Some _)) => bool_decide (t_recv t = None) && bool_decide (sessionMap (t_base t) = ∅) | _ => false end = true) as H
    by (vm_compute; reflexivity).
  destruct (example_conn_round (replicate 300 7)) as [[[t out] o]|] eqn:Hrun; [|discriminate H].
  destruct out; [|discriminate H]. destruct o as [|[e|]|]; try discriminate H. exists t, e.
  apply andb_true_iff in H as [_ H]. apply bool_decide_eq_true in H.
  destruct (event_loop_never_panics exampleHash (λ _, 0) example_program [104] example_gen None example_conn_server example_conn_server t false false
    example_conn_env example_conn_write example_drain (mkConnEvent (replicate 300 7) Expired) example_conn_cache [] (Return (Some e))) as [Hn _].
  - exact example_conn_ok.
  - exact example_conn_owned.
  - apply rtc_refl.
  - apply (bool_decide_unpack _); vm_compute; exact I.
  - exact example_write_ok.
  - exact Hrun.
  - split; [reflexivity|]. split; [exact Hn|exact H].
Defined.

Lemma open_request_establishes_witness :
  ∃ t en inc, example_conn_round example_conn_bytes = Some (t, [], Continue) ∧
    sessionMap (t_base t) = {[7 := en]} ∧ e_recvChan en = [inc] ∧ seg_payload (in_segment inc) = [1; 2; 3] ∧ readySessions (t_base t) = [7].
Proof.
  destruct (open_request_establishes exampleHash (λ _, 0) example_program [104] example_gen example_conn_write (1700000000 * Second) example_conn_segment
    example_conn_open example_conn_block example_conn_block example_conn_client) as (tc & seg & pieces & s' & Hw & _ & Hsrv).
  1-4: reflexivity.
  - split; [reflexivity|]. right. split; [reflexivity|]. split; [by intros bs [= <-]|]. split; [by apply (bool_decide_unpack _); vm_compute|].
    eexists _, _. split; [vm_compute; reflexivity|apply (bool_decide_unpack _); vm_compute; exact I].
  - reflexivity.
  - apply example_write_ok.
  - apply example_write_ok.
  - reflexivity.
  - apply (bool_decide_unpack _); vm_compute; exact I.
  - apply (bool_decide_unpack _); vm_compute; exact I.
  - reflexivity.
  - apply example_write_ok.
  - reflexivity.
  - done.
  - assert (concat pieces = example_conn_bytes) as Hb.
    { assert (concat (t_writeOneSegment example_program example_conn_write (1700000000 * Second) example_conn_segment example_conn_client).2.1 =
        example_conn_bytes) as E by (vm_compute; reflexivity). rewrite Hw in E. exact E. }
    rewrite Hb in Hsrv.
    destruct (Hsrv example_conn_env example_conn_write example_drain Expired (nth 1 (users example_state) (mkUser 0 [] [] (mkPolicy [] []))) example_conn_cache example_conn_server)
      as (t & en & inc & r' & H1 & H2 & _ & H3 & _ & H4 & _ & H5 & _).
    + reflexivity.
    + reflexivity.
    + reflexivity.
    + reflexivity.
    + apply (proj1 (co_server _ _ _ _ example_conn_ok eq_refl)).
    + apply (bool_decide_unpack _); vm_compute; exact I.
    + apply (bool_decide_unpack _); vm_compute; exact I.
    + split.
      * eexists _, _. split; [reflexivity|]. split; [reflexivity|]. split; [right; left|]. intros v Hv Hne.
        apply elem_of_cons in Hv as [->|Hv]; [vm_compute; reflexivity|]. exfalso.
        apply elem_of_cons in Hv as [->|Hv]; [apply Hne; reflexivity|apply elem_of_nil in Hv; exact Hv].
      * exists (Time_Round example_now KeyRefreshInterval). split; [by apply (bool_decide_unpack _); vm_compute|vm_compute; reflexivity].
      * set (header := slice_to _ _).
        assert (Forall (λ b, c_key b = c_key example_conn_block ∨
          Open (c_key b) (slice_to DefaultNonceSize header) (slice_from DefaultNonceSize header) = None)
          (templateAt (HashPassword [113] [98]) <$> saltTimes example_now)) as Hall by (apply (bool_decide_unpack _); vm_compute; exact I).
        intros b Hbl Hk. destruct (proj1 (Forall_forall _ _) Hall b Hbl) as [E|E]; [by destruct Hk|exact E].
      * reflexivity.
      * vm_compute. reflexivity.
    + apply lookup_empty.
    + done.
    + exists t, en, inc. split; [exact H1|]. split; [exact H2|]. split; [exact H3|]. split; [exact H4|exact H5].
Defined.
