(* ===== verification/Scheduler.v ===== *)
(** * pkg/protocol/scheduler.go: when an underlay takes new sessions

    [ScheduleController] under its mutex: one method is one step, at one reading
    [now] of the clock.  A time is an option, None for the zero time.

    Lemmas: what was disabled stays disabled; disabled refuses sessions; an
    underlay with a pending session is neither disabled as idle nor, within
    [scheduleIdleTime] of the last scheduling, found idle. *)
From S2P Require Import Prelude MathExt GoStd Cipher Rng.

(** [time.Since] and [IsZero]. *)
Definition Since (now : Z) (t : option Z) : Z := Time_Sub now (default (- unixToInternal) t).
Definition IsZero (t : option Z) : bool := bool_decide (t = None).

(** [scheduleIdleTime]; [fixedV] is the cache of the hints when the package is
    initialised. *)
Definition scheduleIdleTime (appVersion hostName : list Z) (fixedV : hintCache) : Z :=
  KeyRefreshInterval + (FixedIntVH appVersion hostName fixedV 61).2 * Second.

Record ScheduleController := mkScheduler {
  pending : Z;
  lastScheduleTime : option Z;
  disableTime : option Z
}.
#[export] Instance ScheduleController_eta : Settable ScheduleController := λ c,
  mkScheduler (pending c) (lastScheduleTime c) (disableTime c).
Definition newScheduler : ScheduleController := mkScheduler 0 None None.

Section scheduler.
Variable idle : Z.      (* scheduleIdleTime *)

Definition IsDisabled (now : Z) (c : ScheduleController) : bool :=
  negb (IsZero (disableTime c)) && (Since now (disableTime c) >? 0).
Definition IncPending (now : Z) (c : ScheduleController) : ScheduleController * bool :=
  if negb (IsZero (disableTime c)) && (Since now (disableTime c) >? 0) then (c, false) else
  (c<|pending := pending c + 1|><|lastScheduleTime := Some now|>, true).
Definition DecPending (now : Z) (c : ScheduleController) : ScheduleController :=
  c<|pending := pending c - 1|><|lastScheduleTime := Some now|>.
Definition DisableTime (c : ScheduleController) : option Z := disableTime c.
Definition Idle (now : Z) (c : ScheduleController) : bool :=
  negb (IsZero (disableTime c)) && (Since now (lastScheduleTime c) >? idle) && (Since now (disableTime c) >? idle).
Definition TryDisableIdle (now : Z) (c : ScheduleController) : ScheduleController * bool :=
  if negb (IsZero (disableTime c)) then (c, false) else
  if pending c >? 0 then (c, false) else
  if negb (IsZero (lastScheduleTime c)) && (Since now (lastScheduleTime c) <? idle) then (c, false) else
  (c<|disableTime := Some now|>, true).
Definition SetRemainingTime (now d : Z) (c : ScheduleController) : ScheduleController :=
  if (d <? 0) || negb (IsZero (disableTime c)) then c else c<|disableTime := Some (now + d)|>.
End scheduler.

(** ** The bounds of [scheduleIdleTime] *)

Lemma scheduleIdleTime_bounds v h f :
  cache_of (versioned v) f → KeyRefreshInterval <= scheduleIdleTime v h f <= KeyRefreshInterval + Minute.
Proof.
  intros Hc. unfold scheduleIdleTime, FixedIntVH. destruct (FixedIntV_spec v f 61 h Hc ltac:(lia)) as [E _].
  destruct (FixedIntV _ _ _ _) as [f' n]. cbn [snd] in *. subst n.
  pose proof (Z.mod_pos_bound (hintValue (versioned v h)) 61 ltac:(lia)). unfold Minute, Second, Millisecond, Microsecond. lia.
Qed.

(** ** What only grows *)

(** A disable time stays, and the last scheduling moves forward to at most [now]. *)
Record later (now : Z) (c c' : ScheduleController) : Prop := {
  la_disabled : ∀ t, disableTime c = Some t → disableTime c' = Some t;
  la_last : ∀ t, lastScheduleTime c = Some t → t <= now → ∃ t', lastScheduleTime c' = Some t' ∧ t <= t'
}.
#[global] Instance later_refl now : Reflexive (later now).
Proof. split; [done|]. intros t E _. by exists t. Qed.

Lemma IncPending_later now c : later now c (IncPending now c).1.
Proof. unfold IncPending. destruct (_ && _); [done|]. split; [done|]. intros t _ Ht. by exists now. Qed.
Lemma DecPending_later now c : later now c (DecPending now c).
Proof. split; [done|]. intros t _ Ht. by exists now. Qed.
(** Disabling touches nothing else. *)
Record disables (c c' : ScheduleController) : Prop := {
  di_disabled : ∀ t, disableTime c = Some t → disableTime c' = Some t;
  di_pending : pending c' = pending c;
  di_last : lastScheduleTime c' = lastScheduleTime c
}.
#[global] Instance disables_refl : Reflexive disables.
Proof. by split. Qed.
#[global] Instance disables_trans : Transitive disables.
Proof. intros c1 c2 c3 [? ? ?] [? ? ?]. split; [by auto|congruence|congruence]. Qed.
Lemma disables_later now c c' : disables c c' → later now c c'.
Proof. intros [Hd _ Hl]. split; [done|]. intros t E _. exists t. split; [congruence|done]. Qed.
Lemma TryDisableIdle_disables idle now c : disables c (TryDisableIdle idle now c).1.
Proof.
  unfold TryDisableIdle, IsZero. destruct (disableTime c) as [d|] eqn:E; [done|]. cbn. destruct (_ >? 0); [done|].
  destruct (negb _ && _); [done|]. split; cbn; [intros t Ht; congruence|done|done].
Qed.
Lemma SetRemainingTime_disables now d c : disables c (SetRemainingTime now d c).
Proof.
  unfold SetRemainingTime, IsZero. destruct (disableTime c) as [t|] eqn:E; [cbn; by rewrite orb_true_r|]. cbn. rewrite orb_false_r.
  destruct (d <? 0); [done|]. split; cbn; [intros t Ht; congruence|done|done].
Qed.
Create HintDb scheduler.
#[export] Hint Resolve IncPending_later DecPending_later TryDisableIdle_disables SetRemainingTime_disables disables_later : scheduler.

(** ** Decisions *)

(** Only the sign matters, so the saturation of [Sub] does not. *)
Lemma Since_pos now t : (Since now (Some t) >? 0) = (t <? now).
Proof. unfold Since, Time_Sub. cbn. lia. Qed.
Lemma Since_gt now t idle : 0 <= idle < 2 ^ 63 - 1 → (Since now (Some t) >? idle) = (t + idle <? now).
Proof. unfold Since, Time_Sub. cbn. lia. Qed.

Lemma IncPending_spec now c c' ok :
  IncPending now c = (c', ok) →
  (ok = true → pending c' = pending c + 1 ∧ lastScheduleTime c' = Some now ∧ disableTime c' = disableTime c) ∧
  (ok = false → c' = c ∧ ∃ t, disableTime c = Some t ∧ t < now).
Proof.
  unfold IncPending, IsZero. destruct c as [p l [t|]]; cbn; [rewrite Since_pos; destruct (Z.ltb_spec t now)|]; intros [= <- <-]; split; try done.
  intros _. split; [done|]. by exists t.
Qed.
(** Time does not run backwards: disabled is for ever. *)
Lemma IsDisabled_later n now now' c c' : now <= now' → later n c c' → IsDisabled now c = true → IsDisabled now' c' = true.
Proof.
  unfold IsDisabled, IsZero. intros Ht [Hd _]. destruct (disableTime c) as [t|] eqn:E; [|done]. rewrite (Hd t eq_refl), !Since_pos. cbn. lia.
Qed.
Lemma IsDisabled_refuses now c : (IncPending now c).2 = negb (IsDisabled now c).
Proof. unfold IncPending, IsDisabled. by destruct (_ && _). Qed.
Lemma pending_not_disabled idle now c : 0 < pending c → (TryDisableIdle idle now c).1 = c.
Proof. unfold TryDisableIdle. intros H. destruct (negb _); [done|]. destruct (Z.gtb_spec (pending c) 0); [done|lia]. Qed.
Lemma recent_not_idle idle now c t : 0 <= idle < 2 ^ 63 - 1 → lastScheduleTime c = Some t → now <= t + idle → Idle idle now c = false.
Proof. intros Hi E Ht. unfold Idle. rewrite E, Since_gt by done. destruct (Z.ltb_spec (t + idle) now); [lia|]. by rewrite andb_false_r. Qed.
(** A controller that nobody uses is disabled, and idle later. *)
Lemma unused_disabled idle now c :
  0 <= idle < 2 ^ 63 - 1 → pending c <= 0 → (∀ t, lastScheduleTime c = Some t → t + idle <= now) →
  ∃ t, disableTime (TryDisableIdle idle now c).1 = Some t ∧ lastScheduleTime (TryDisableIdle idle now c).1 = lastScheduleTime c ∧ (disableTime c = None → t = now).
Proof.
  intros Hi Hp Hl. unfold TryDisableIdle, IsZero. destruct c as [p l [d|]]; cbn in *; [by exists d|]. destruct (Z.gtb_spec p 0); [lia|].
  destruct l as [t|]; cbn.
  - specialize (Hl t eq_refl). unfold Since, Time_Sub. cbn. destruct (Z.ltb_spec (Z.max (- 2 ^ 63) (Z.min (2 ^ 63 - 1) (now - t))) idle); [lia|]. by exists now.
  - by exists now.
Qed.
Lemma unused_idle idle now c td :
  0 <= idle < 2 ^ 63 - 1 → disableTime c = Some td → td + idle < now → (∀ t, lastScheduleTime c = Some t → t + idle < now) →
  0 <= now → Idle idle now c = true.
Proof.
  intros Hi Hd Ht Hl Hn. unfold Idle, IsZero. rewrite Hd, (Since_gt _ td) by done. cbn. rewrite andb_true_iff. split; [|lia].
  destruct (lastScheduleTime c) as [t|]; [rewrite Since_gt by done; specialize (Hl t eq_refl); lia|].
  unfold Since, Time_Sub, unixToInternal, Second, Millisecond, Microsecond. cbn. lia.
Qed.
