(* ===== verification/UnderlayClass.v ===== *)
(** * pkg/protocol/underlay.go: what every underlay offers

    Go's interface [Underlay] as a class, with the laws its users rely on:
    [PacketUnderlay] and [StreamUnderlay] implement it, and so does their sum,
    which is what a variable of the interface type holds.  The multiplexer
    (Mux.v) is written and proved against the class.  The event loops are not in
    the class: for the multiplexer they may do anything to an underlay. *)
From S2P Require Import Prelude MathExt Messages LowEntropy Metadata GoStd GoFloat GoNet Ascii Cipher Rng Replay SourceCache ServerUser.
From S2P Require Import Segment Underlay Padding Packet Stream Congestion Session Lifecycle SessionMap PacketUnderlay StreamUnderlay.

Class UnderlayOps `{BT : BTree} `{F : GoFloat} (U : Type) := {
  ul_AddSession : sessionEntry → option netAddr → U → result U;
  ul_SessionCount : U → Z;
  ul_InBytes : U → Z;
  ul_OutBytes : U → Z;
  ul_MTU : U → Z;
  ul_Done : U → bool;
  ul_Close : (Z → env) → U → U;
  ul_Accept : bool → U → option (U * result Z);
  (* the type assertion underlay.(\*StreamUnderlay), then closeIfIdle *)
  ul_closeIfIdle : (Z → env) → Z → Z → U → U * bool;
  ul_client : U → bool;
  ul_sessions : U → gset Z
}.

(** A session as [NewSession] makes it, for an underlay of this role. *)
Record fresh_session `{BT : BTree} `{F : GoFloat} (client : bool) (en : sessionEntry) : Prop := {
  fs_id : id (e_session en) ≠ 0;
  fs_role : isClient (e_session en) = client;
  fs_state : isStateAfter sessionAttached true (e_session en) = false;
  fs_ready : e_ready en = false
}.

Class UnderlayLaws `(UL : UnderlayOps U) : Prop := {
  ul_count : ∀ u, ul_SessionCount u = Z.of_nat (size (ul_sessions u));
  ul_add_Ok : ∀ en addr u u', ul_AddSession en addr u = Ok u' →
    ¬ (id (e_session en) ∈ ul_sessions u) ∧ ul_sessions u' = {[id (e_session en)]} ∪ ul_sessions u ∧ ul_Done u' = ul_Done u ∧
    ul_client u' = ul_client u;
  ul_add_fresh : ∀ en addr u, fresh_session (ul_client u) en → ¬ (id (e_session en) ∈ ul_sessions u) → is_Ok (ul_AddSession en addr u);
  ul_add_safe : ∀ en addr u m, e_ready en = false → ul_AddSession en addr u ≠ Panic m;
  ul_close_done : ∀ e u, ul_Done (ul_Close e u) = true ∧ ul_sessions (ul_Close e u) = ul_sessions u ∧ ul_InBytes (ul_Close e u) = ul_InBytes u ∧
    ul_OutBytes (ul_Close e u) = ul_OutBytes u;
  ul_close_once : ∀ e u, ul_Done u = true → ul_Close e u = u;
  ul_idle_closed : ∀ e now timeout u u', ul_closeIfIdle e now timeout u = (u', true) → ul_Done u = false ∧ ul_Done u' = true;
  ul_idle_kept : ∀ e now timeout u u', ul_closeIfIdle e now timeout u = (u', false) → u' = u
}.

(** ** What both implementations have from [baseUnderlay] *)

Section base.
Context `{BT : BTree} `{F : GoFloat}.

Definition sessions_of (b : baseUnderlay) : gset Z := dom (sessionMap b).

Lemma sessions_count b : SessionCount b = Z.of_nat (size (sessions_of b)).
Proof. unfold SessionCount, sessions_of. by rewrite size_dom. Qed.
Lemma AddSession_Ok transport en addr b b' :
  AddSession transport en addr b = Ok b' →
  ¬ (id (e_session en) ∈ sessions_of b) ∧ sessions_of b' = {[id (e_session en)]} ∪ sessions_of b ∧ u_done b' = u_done b ∧
  u_isClient b' = u_isClient b.
Proof.
  unfold AddSession, AddSession_base, sessions_of. destruct (_ =? 0); [done|]. destruct (isStateAfter _ _ _); [done|].
  destruct (u_isClient b && _); [done|]. destruct (negb (u_isClient b) && _); [done|].
  destruct (sessionMap b !! id (e_session en)) eqn:El; [done|]. rewrite bind_Ok. destruct (e_ready en); [done|]. intros [= <-]. cbn.
  split; [by apply not_elem_of_dom|]. split; [|done]. by rewrite dom_alter_L, dom_insert_L.
Qed.
Lemma AddSession_fresh transport en addr b :
  fresh_session (u_isClient b) en → ¬ (id (e_session en) ∈ sessions_of b) → is_Ok (AddSession transport en addr b).
Proof.
  intros [H1 H2 H3 H4] Hn. unfold sessions_of in Hn. apply not_elem_of_dom in Hn. unfold AddSession, AddSession_base. rewrite H3, H2, Hn, H4.
  destruct (Z.eqb_spec (id (e_session en)) 0); [done|]. destruct (u_isClient b); cbn; by eexists.
Qed.
Lemma AddSession_no_panic transport en addr b m : e_ready en = false → AddSession transport en addr b ≠ Panic m.
Proof.
  intros He. unfold AddSession, AddSession_base. destruct (_ =? 0); [done|]. destruct (isStateAfter _ _ _); [done|].
  destruct (u_isClient b && _); [done|]. destruct (negb (u_isClient b) && _); [done|].
  destruct (sessionMap b !! id (e_session en)) eqn:El; [done|]. rewrite bind_Ok. by rewrite He.
Qed.
Lemma Close_done e b :
  u_done (Close_base e b) = true ∧ sessions_of (Close_base e b) = sessions_of b ∧ inBytes (Close_base e b) = inBytes b ∧
  outBytes (Close_base e b) = outBytes b.
Proof.
  unfold Close_base, sessions_of. destruct (u_done b) eqn:E; [done|]. cbn. split; [done|]. split; [|done].
  apply set_eq. intros i. rewrite !elem_of_dom, map_lookup_imap. by destruct (sessionMap b !! i).
Qed.
Lemma Close_once e b : u_done b = true → Close_base e b = b.
Proof. unfold Close_base. by intros ->. Qed.
End base.

(** ** The implementations *)

Section instances.
Context `{BT : BTree} `{F : GoFloat} `{C : Crypto}.

#[export] Instance packetOps : UnderlayOps PacketUnderlay := {
  ul_AddSession := PacketUnderlay_AddSession;
  ul_SessionCount u := SessionCount (base u);
  ul_InBytes u := inBytes (base u);
  ul_OutBytes u := outBytes (base u);
  ul_MTU u := u_mtu (base u);
  ul_Done u := u_done (base u);
  ul_Close := PacketUnderlay_Close;
  ul_Accept pick u := (λ '(b, r), (with_base b u, r)) <$> Accept pick (base u);
  ul_closeIfIdle _ _ _ u := (u, false);
  ul_client := isClient_;
  ul_sessions u := sessions_of (base u)
}.
#[export] Instance streamOps : UnderlayOps StreamUnderlay := {
  ul_AddSession := StreamUnderlay_AddSession;
  ul_SessionCount t := SessionCount (t_base t);
  ul_InBytes t := inBytes (t_base t);
  ul_OutBytes t := outBytes (t_base t);
  ul_MTU t := u_mtu (t_base t);
  ul_Done t := u_done (t_base t);
  ul_Close := StreamUnderlay_Close;
  ul_Accept pick t := (λ '(b, r), (t_with_base b t, r)) <$> Accept pick (t_base t);
  ul_closeIfIdle := closeIfIdle;
  ul_client := t_isClient;
  ul_sessions t := sessions_of (t_base t)
}.

Lemma with_base_eq (u : PacketUnderlay) : with_base (base u) u = u.
Proof. by destruct u. Qed.

#[export] Instance packetLaws : UnderlayLaws packetOps.
Proof.
  split; cbn.
  - intros u. apply sessions_count.
  - intros en addr u u' H. unfold PacketUnderlay_AddSession in H. destruct (AddSession _ _ _ _) as [b|e|m] eqn:Ea; [|done..].
    injection H as <-. by apply AddSession_Ok in Ea.
  - intros en addr u Hf Hn. destruct (AddSession_fresh PacketTransport en addr (base u) Hf Hn) as [b E].
    exists (with_base b u). unfold PacketUnderlay_AddSession. by rewrite E.
  - intros en addr u m He. unfold PacketUnderlay_AddSession. pose proof (AddSession_no_panic PacketTransport en addr (base u) m He) as H. revert H.
    destruct (AddSession _ _ _ _); [done|done|cbn; intros H E; apply H; injection E as ->; reflexivity].
  - intros e u. apply Close_done.
  - intros e u H. unfold PacketUnderlay_Close. rewrite Close_once by done. apply with_base_eq.
  - done.
  - by intros e now timeout u u' [= ->].
Qed.
#[export] Instance streamLaws : UnderlayLaws streamOps.
Proof.
  split; cbn.
  - intros t. apply sessions_count.
  - intros en addr t t' H. unfold StreamUnderlay_AddSession in H. destruct (AddSession _ _ _ _) as [b|e|m] eqn:Ea; [|done..].
    injection H as <-. by apply AddSession_Ok in Ea.
  - intros en addr t Hf Hn. destruct (AddSession_fresh StreamTransport en addr (t_base t) Hf Hn) as [b E].
    exists (t_with_base b t). unfold StreamUnderlay_AddSession. by rewrite E.
  - intros en addr t m He. unfold StreamUnderlay_AddSession. pose proof (AddSession_no_panic StreamTransport en addr (t_base t) m He) as H. revert H.
    destruct (AddSession _ _ _ _); [done|done|cbn; intros H E; apply H; injection E as ->; reflexivity].
  - intros e t. apply Close_done.
  - intros e t H. unfold StreamUnderlay_Close. rewrite Close_once by done. symmetry. apply with_base_same.
  - intros e now timeout t t'. unfold closeIfIdle. destruct (u_done (t_base t)); [done|]. destruct (t_idle t) as [l|]; [|done].
    destruct (negb _); [done|]. intros [= <-]. split; [done|]. apply Close_done.
  - intros e now timeout t t'. unfold closeIfIdle. destruct (u_done (t_base t)); [by intros [= ->]|].
    destruct (t_idle t) as [l|]; [|by intros [= ->]]. destruct (negb _); [by intros [= ->]|done].
Qed.
End instances.

(** ** The sum of two implementations *)

Section sum.
Context `{BT : BTree} `{F : GoFloat} {U V : Type} `{UO : !UnderlayOps U} `{VO : !UnderlayOps V}.

Definition on {A} (f : U → A) (g : V → A) (x : U + V) : A := match x with inl u => f u | inr v => g v end.
#[export] Instance sumOps : UnderlayOps (U + V) := {
  ul_AddSession en addr := on (λ u, inl <$> ul_AddSession en addr u) (λ v, inr <$> ul_AddSession en addr v);
  ul_SessionCount := on ul_SessionCount ul_SessionCount;
  ul_InBytes := on ul_InBytes ul_InBytes;
  ul_OutBytes := on ul_OutBytes ul_OutBytes;
  ul_MTU := on ul_MTU ul_MTU;
  ul_Done := on ul_Done ul_Done;
  ul_Close e := on (λ u, inl (ul_Close e u)) (λ v, inr (ul_Close e v));
  ul_Accept pick := on (λ u, (λ '(u, r), (inl u, r)) <$> ul_Accept pick u) (λ v, (λ '(v, r), (inr v, r)) <$> ul_Accept pick v);
  ul_closeIfIdle e now timeout :=
    on (λ u, let '(u, b) := ul_closeIfIdle e now timeout u in (inl u, b)) (λ v, let '(v, b) := ul_closeIfIdle e now timeout v in (inr v, b));
  ul_client := on ul_client ul_client;
  ul_sessions := on ul_sessions ul_sessions
}.

#[export] Instance sumLaws `{UL : !UnderlayLaws UO} `{VL : !UnderlayLaws VO} : UnderlayLaws sumOps.
Proof.
  split; cbn.
  - intros [u|v]; cbn; apply ul_count.
  - intros en addr [u|v] x' H; cbn in *.
    + destruct (ul_AddSession en addr u) eqn:E; [|done..]. injection H as <-. by apply ul_add_Ok in E.
    + destruct (ul_AddSession en addr v) eqn:E; [|done..]. injection H as <-. by apply ul_add_Ok in E.
  - intros en addr [u|v] Hf Hn; cbn in *; destruct (ul_add_fresh en addr _ Hf Hn) as [x' E]; rewrite E; by eexists.
  - intros en addr [u|v] m He; cbn; [pose proof (ul_add_safe en addr u m He) as H|pose proof (ul_add_safe en addr v m He) as H];
      revert H; destruct (ul_AddSession en addr _); cbn; intros; congruence.
  - intros e [u|v]; cbn; apply ul_close_done.
  - intros e [u|v] H; cbn in *; by rewrite ul_close_once.
  - intros e now timeout [u|v] x' H; cbn in *; destruct (ul_closeIfIdle e now timeout _) as [y b] eqn:E; injection H as <- ->;
      by eapply ul_idle_closed in E.
  - intros e now timeout [u|v] x' H; cbn in *; destruct (ul_closeIfIdle e now timeout _) as [y b] eqn:E; injection H as <- ->;
      by rewrite (ul_idle_kept _ _ _ _ _ E).
Qed.
End sum.
