(* ===== verification/Mux.v ===== *)
(** * pkg/protocol/mux.go: the multiplexer

    [Mux] keeps the underlays of a client or a server.  Goroutines share the
    underlays by pointer: here an underlay lives in [m_heap] under a number, and
    [m_underlays] is the slice of these numbers, with its backing array, because
    [cleanUnderlay] compacts it in place.  The underlays are of any type with
    the class of UnderlayClass.v; the [ScheduleController] that the code keeps
    inside of each of them is here beside it.

    What runs under the mutex is one step.  [DialContext] is the composition of
    its steps; [muxStep] interleaves the steps of any number of dials with
    cleaning, with the underlays' own work and with time.

    Theorems: cleaning computes a filter, and keeps the slice and its array
    exact; an active underlay is reused [multiplexFactor] times as often as a
    new one is opened; the pending sessions of every underlay that still takes
    sessions are the dials at work on it; no cleaning closes an underlay at
    which a dial is at work, unless the dial takes longer than
    [scheduleIdleTime]; an unused underlay is closed by two cleanings; a dial
    that succeeds has added its session to an open underlay in the slice. *)
From S2P Require Import Prelude MathExt Messages LowEntropy Metadata GoStd GoFloat GoNet Ascii Cipher Rng Replay SourceCache ServerUser Metrics.
From S2P Require Import Segment Underlay Padding Packet Stream Congestion Session Lifecycle SessionMap PacketUnderlay StreamUnderlay.
From S2P Require Import Scheduler UnderlayClass.

Definition minUnderlayCapacityReclaim : nat := 16.

(** [UnderlayProperties] of [NewUnderlayProperties]. *)
Record endpoint := mkEndpoint { ep_MTU : Z; ep_TransportProtocol : TransportProtocol; ep_LocalAddr : netAddr; ep_RemoteAddr : netAddr }.
#[global] Instance endpoint_eq_dec : EqDecision endpoint.
Proof. solve_decision. Defined.
Definition NewUnderlayProperties (mtu : Z) (t : TransportProtocol) (localAddr remoteAddr : option netAddr) : endpoint :=
  mkEndpoint mtu t (default NilNetAddr localAddr) (default NilNetAddr remoteAddr).

(** [net.Addr.Network] of the types the configuration builds. *)
Definition addr_Network (a : netAddr) : string :=
  match a with TCPAddr _ => "tcp" | UDPAddr _ => "udp" | SpecAddr network _ => network | OtherAddr _ => "" end.

(** ** Slices of underlays *)

(** A slice from the start of its array; a slot of the array may be nil. *)
Record slice := mkSlice { sl_arr : list (option Z); sl_len : nat }.
Definition emptySlice : slice := mkSlice [] 0.
Definition elements (s : slice) : list (option Z) := take (sl_len s) (sl_arr s).
Definition capacity (s : slice) : nat := length (sl_arr s).
(** [append]; [grow] is the runtime's choice of a new capacity. *)
Definition append (grow : nat → nat) (i : Z) (s : slice) : slice :=
  if (sl_len s <? length (sl_arr s))%nat then mkSlice (<[sl_len s := Some i]> (sl_arr s)) (S (sl_len s))
  else mkSlice (elements s ++ [Some i] ++ replicate (grow (sl_len s) - S (sl_len s)) None) (S (sl_len s)).

(** A session of the multiplexer: its underlay, and its id there. *)
Abbreviation muxSession := (Z * Z)%type.

Section mux.
Context `{BT : BTree} `{F : GoFloat} {U : Type} `{UL : !UnderlayOps U}.
Variable idle : Z.      (* scheduleIdleTime *)

Record muxUnderlay := mkMuxUnderlay { mu_underlay : U; mu_scheduler : ScheduleController }.
#[export] Instance muxUnderlay_eta : Settable muxUnderlay := λ e, mkMuxUnderlay (mu_underlay e) (mu_scheduler e).

Record Mux := mkMux {
  m_isClient : bool;
  m_endpoints : list endpoint;
  m_underlays : slice;
  m_heap : gmap Z muxUnderlay;
  m_trafficPattern : option TrafficPattern;
  m_chAccept : list muxSession;
  m_acceptErr : option error;
  m_used : bool;
  m_done : bool;
  m_username : list Z;
  m_password : list Z;
  m_multiplexFactor : Z;
  m_serverUsers : Registry;
  m_serverTCPIdleTimeout : Z
}.
#[export] Instance Mux_eta : Settable Mux := λ m,
  mkMux (m_isClient m) (m_endpoints m) (m_underlays m) (m_heap m) (m_trafficPattern m) (m_chAccept m) (m_acceptErr m) (m_used m) (m_done m)
    (m_username m) (m_password m) (m_multiplexFactor m) (m_serverUsers m) (m_serverTCPIdleTimeout m).
Definition NewMux (isClient : bool) : Mux :=
  mkMux isClient [] emptySlice ∅ None [] None false false [] [] 0 (mkRegistry None false) 0.
Definition with_heap (f : gmap Z muxUnderlay → gmap Z muxUnderlay) (m : Mux) : Mux := m<|m_heap := f (m_heap m)|>.

(** ** Settings *)

Definition SetTrafficPattern (t : option TrafficPattern) (m : Mux) : Mux := m<|m_trafficPattern := t|>.
Definition SetClientUserNamePassword (username password : list Z) (m : Mux) : result Mux :=
  if negb (m_isClient m) then Panic "Can't set client password in server mux" else
  if m_used m then Panic "Can't set client password after mux is used" else
  Ok (m<|m_username := username|><|m_password := password|>).
Definition SetClientMultiplexFactor (n : Z) (m : Mux) : result Mux :=
  if negb (m_isClient m) then Panic "Can't set multiplex factor in server mux" else
  if m_used m then Panic "Can't set multiplex factor after mux is used" else
  Ok (m<|m_multiplexFactor := Max n 0|>).
Definition SetServerUsers (n : Z) (us : gmap (list Z) (option User)) (m : Mux) : result Mux :=
  if m_isClient m then Panic "Can't set server users in client mux" else
  Ok (m<|m_serverUsers := SetUsers n us (m_serverUsers m)|>).
Definition SetServerUserHintIsMandatory (mandatory : bool) (m : Mux) : result Mux :=
  if m_isClient m then Panic "Can't set server user hint is mandatory in client mux" else
  Ok (m<|m_serverUsers := SetHintMandatory mandatory (m_serverUsers m)|>).
Definition SetServerTCPIdleTimeout (timeout : Z) (m : Mux) : result Mux :=
  if m_isClient m then Panic "Can't set server TCP idle timeout in client mux" else
  if timeout <? 0 then Panic "Server TCP idle timeout can't be negative" else
  Ok (m<|m_serverTCPIdleTimeout := timeout|>).

(** ** Cleaning *)

(** The clock when an underlay is looked at, and what closing it meets. *)
Record cleanEnv := mkCleanEnv { ce_now : Z → Z; ce_close : Z → Z → env }.

(** 512 MiB shifted by the factor, in an int64. *)
Definition trafficVolumeLimit (factor : Z) : Z := i64 (Z.shiftl (512 * 1024 * 1024) factor).

(** The body of the loop for one underlay, and whether it stays. *)
Definition disableUnderlay (factor now : Z) (e : muxUnderlay) : muxUnderlay :=
  let e := if ul_SessionCount (mu_underlay e) =? 0 then e<|mu_scheduler := (TryDisableIdle idle now (mu_scheduler e)).1|> else e in
  let limit := trafficVolumeLimit factor in
  if IsZero (DisableTime (mu_scheduler e)) && ((ul_InBytes (mu_underlay e) >? limit) || (ul_OutBytes (mu_underlay e) >? limit))
  then e<|mu_scheduler := SetRemainingTime now 0 (mu_scheduler e)|> else e.
Definition cleanOne (isClient : bool) (timeout factor : Z) (also : bool) (now : Z) (close : Z → env) (e : muxUnderlay) : muxUnderlay * bool :=
  if ul_Done (mu_underlay e) then (e, false) else
  let '(u, closed) :=
    if negb isClient && (timeout >? 0) then ul_closeIfIdle close now timeout (mu_underlay e) else (mu_underlay e, false) in
  let e := e<|mu_underlay := u|> in
  if closed : bool then (e, false) else
  let '(e, keep) :=
    if (ul_SessionCount (mu_underlay e) =? 0) && Idle idle now (mu_scheduler e)
    then (e<|mu_underlay := ul_Close close (mu_underlay e)|>, false) else (e, true) in
  (if also then disableUnderlay factor now e else e, keep).
Definition cleanAt (ce : cleanEnv) (also : bool) (m : Mux) (i : Z) (e : muxUnderlay) : muxUnderlay * bool :=
  cleanOne (m_isClient m) (m_serverTCPIdleTimeout m) (m_multiplexFactor m) also (ce_now ce i) (ce_close ce i) e.

(** [k] underlays left, from slot [j] on; [n] were kept. *)
Fixpoint cleanLoop (ce : cleanEnv) (also : bool) (k j n : nat) (m : Mux) : result (Mux * nat) :=
  match k with
  | O => Ok (m, n)
  | S k =>
    match mjoin (sl_arr (m_underlays m) !! j) with
    | None => Panic "nil pointer dereference"
    | Some i =>
      match m_heap m !! i with
      | None => Panic "nil pointer dereference"
      | Some e =>
        let '(e, keep) := cleanAt ce also m i e in
        let m := with_heap (<[i := e]>) m in
        if keep : bool
        then cleanLoop ce also k (S j) (S n) (m<|m_underlays := mkSlice (<[n := Some i]> (sl_arr (m_underlays m))) (sl_len (m_underlays m))|>)
        else cleanLoop ce also k (S j) n m
      end
    end
  end.
(** The slots beyond the kept ones become nil, and a large array that is mostly
    empty is replaced. *)
Definition shrink (n : nat) (s : slice) : slice :=
  let s := mkSlice (take n (sl_arr s) ++ replicate (sl_len s - n) None ++ drop (sl_len s) (sl_arr s)) n in
  if (minUnderlayCapacityReclaim <? capacity s)%nat && (sl_len s * 4 <=? capacity s)%nat then mkSlice (elements s) (sl_len s) else s.
Definition cleanUnderlay (ce : cleanEnv) (also : bool) (m : Mux) : result Mux :=
  '(m, n) ← cleanLoop ce also (sl_len (m_underlays m)) 0 0 m;
  Ok (m<|m_underlays := shrink n (m_underlays m)|>).

(** ** Dialing *)

(** The underlays that are open and take sessions. *)
Definition active (now : Z → Z) (m : Mux) : result (list Z) :=
  foldr (λ x acc,
    match x ≫= λ i, pair i <$> m_heap m !! i with
    | None => Panic "nil pointer dereference"
    | Some (i, e) =>
      acc ← acc;
      Ok (if negb (ul_Done (mu_underlay e)) && negb (IsDisabled (now i) (mu_scheduler e)) then i :: acc else acc)
    end) (Ok []) (elements (m_underlays m)).
(** [draw n] is [mrand.Intn(n)]. *)
Definition pickFrom (draw : Z → Z) (factor : Z) (act : list Z) : result (option Z) :=
  if factor >? 0 then
    let reuseUnderlayFactor := i64 (len act * factor) in
    if i64 (reuseUnderlayFactor + 1) <=? 0 then Panic "invalid argument to Intn" else
    let n := draw (i64 (reuseUnderlayFactor + 1)) in
    if n <? reuseUnderlayFactor
    then match act !! Z.to_nat (n `quot` factor) with Some i => Ok (Some i) | None => Panic "index out of range" end
    else Ok None
  else Ok None.
Definition maybePickExistingUnderlay (now : Z → Z) (draw : Z → Z) (m : Mux) : result (option Z) :=
  act ← active now m;
  pickFrom draw (m_multiplexFactor m) act.

(** [newUnderlay] chooses an endpoint, opens an underlay without the lock, and
    adds it; [open] is what opening meets. *)
Definition chooseEndpoint (draw : Z → Z) (m : Mux) : result (endpoint * option TrafficPattern) :=
  if len (m_endpoints m) <=? 0 then Panic "invalid argument to Intn" else
  match m_endpoints m !! Z.to_nat (draw (len (m_endpoints m))) with
  | None => Panic "index out of range"
  | Some p => Ok (p, m_trafficPattern m)
  end.
Definition freshID (h : gmap Z muxUnderlay) : Z := map_fold (λ i _ n, Z.max (i + 1) n) 0 h.
Definition addUnderlay (grow : nat → nat) (e : muxUnderlay) (m : Mux) : Mux * Z :=
  let i := freshID (m_heap m) in
  (m<|m_heap := <[i := e]> (m_heap m)|><|m_underlays := append grow i (m_underlays m)|>, i).
Record openEnv := mkOpenEnv { oe_draw : Z → Z; oe_open : list Z → list Z → endpoint → option TrafficPattern → result muxUnderlay; oe_grow : nat → nat }.
Definition newUnderlay (oe : openEnv) (m : Mux) : Mux * result Z :=
  match chooseEndpoint (oe_draw oe) m with
  | Err e => (m, Err e)
  | Panic msg => (m, Panic msg)
  | Ok (p, t) =>
    match oe_open oe (m_username m) (m_password m) p t with
    | Err e => (m, Err e)
    | Panic msg => (m, Panic msg)
    | Ok e => let '(m, i) := addUnderlay (oe_grow oe) e m in (m, Ok i)
    end
  end.

(** Calls on the scheduler of, and on, an underlay that a goroutine holds. *)
Definition incPending (now i : Z) (m : Mux) : Mux * bool :=
  match m_heap m !! i with
  | None => (m, false)
  | Some e => let '(c, ok) := IncPending now (mu_scheduler e) in (with_heap (<[i := e<|mu_scheduler := c|>]>) m, ok)
  end.
Definition decPending (now i : Z) (m : Mux) : Mux :=
  with_heap (alter (λ e, e<|mu_scheduler := DecPending now (mu_scheduler e)|>) i) m.
Definition addSession (micro sid jitterMs i : Z) (m : Mux) : Mux * result Z :=
  match m_heap m !! i with
  | None => (m, Panic "nil pointer dereference")
  | Some e =>
    match (en ← newSessionWithServerUserPolicy micro sid true (ul_MTU (mu_underlay e)) noPolicy (m_trafficPattern m) jitterMs;
           ul_AddSession en None (mu_underlay e)) with
    | Ok u => (with_heap (<[i := e<|mu_underlay := u|>]>) m, Ok sid)
    | Err err => (m, Err (Wrapf "AddSession() failed" err))
    | Panic msg => (m, Panic msg)
    end
  end.

(** The checks of [DialContext], and what it does under the lock. *)
Definition dialCheck (m : Mux) : result unit :=
  if negb (m_isClient m) then Err ErrInvalidOperation else
  if len (m_password m) =? 0 then Err (Errorf "client password is not set") else
  if len (m_endpoints m) =? 0 then Err (Errorf "no server listening endpoint found") else
  if existsb (λ p, IsNilNetAddr (Some (ep_RemoteAddr p))) (m_endpoints m) then Err (Errorf "endpoint remote address is not set") else Ok tt.
Definition dialPick (ce : cleanEnv) (draw : Z → Z) (m : Mux) : result (Mux * option Z) :=
  m ← cleanUnderlay ce true (m<|m_used := true|>);
  i ← maybePickExistingUnderlay (ce_now ce) draw m;
  Ok (m, i).

Record dialEnv := mkDialEnv {
  de_clean : cleanEnv;
  de_pick : Z → Z;
  de_first : openEnv;
  de_second : openEnv;
  de_inc : Z * Z;            (* the clock of the calls of IncPending *)
  de_dec : Z;
  de_micro : Z;
  de_sessionID : Z;          (* mrand.Uint32() *)
  de_jitterMs : Z
}.
(** From the underlay on: count the session as pending, with a new underlay if
    this one refuses, add it, and count it off again. *)
Definition dialOn (de : dialEnv) (i : Z) (m : Mux) : Mux * result muxSession :=
  let '(m, ok) := incPending (de_inc de).1 i m in
  let '(m, r) :=
    if ok : bool then (m, Ok i)
    else match newUnderlay (de_second de) m with
         | (m, Ok i) => ((incPending (de_inc de).2 i m).1, Ok i)
         | (m, r) => (m, r)
         end in
  match r with
  | Err e => (m, Err e)
  | Panic msg => (m, Panic msg)
  | Ok i =>
    let '(m, r) := addSession (de_micro de) (de_sessionID de) (de_jitterMs de) i m in
    (decPending (de_dec de) i m, pair i <$> r)
  end.
Definition DialContext (de : dialEnv) (m : Mux) : Mux * result muxSession :=
  match dialCheck m with
  | Err e => (m, Err e)
  | Panic msg => (m, Panic msg)
  | Ok _ =>
    match dialPick (de_clean de) (de_pick de) m with
    | Err e => (m, Err e)
    | Panic msg => (m, Panic msg)
    | Ok (m, Some i) => dialOn de i m
    | Ok (m, None) =>
      match newUnderlay (de_first de) m with
      | (m, Ok i) => dialOn de i m
      | (m, Err e) => (m, Err e)
      | (m, Panic msg) => (m, Panic msg)
      end
    end
  end.

(** ** Listening and closing *)

Definition newEndpoints (old new : list endpoint) : list endpoint :=
  List.filter (λ n, negb (existsb (λ o, bool_decide (n = o)) old)) new.
(** The part of [acceptUnderlayLoop] before the first underlay; [listen] is what
    resolving and listening meet. *)
Definition startListening (listen : endpoint → option error) (p : endpoint) : option error :=
  if len (addr_String (ep_LocalAddr p)) =? 0 then Some (Errorf "underlay local address is empty") else
  if bool_decide (addr_Network (ep_LocalAddr p) ∈ ["tcp"; "tcp4"; "tcp6"; "udp"; "udp4"; "udp6"]%string) then listen p
  else Some (Errorf "unsupported underlay network type").
(** [listen k]: what the goroutine of the [k]-th endpoint meets. *)
Definition attempts (listen : nat → endpoint → option error) (ps : list endpoint) : list (endpoint * option error) :=
  imap (λ k p, (p, startListening (listen k) p)) ps.
(** [muxAcceptErr.set] *)
Definition setAcceptErr (e : error) (m : Mux) : Mux :=
  match m_acceptErr m with Some _ => m | None => m<|m_acceptErr := Some e|> end.
Definition UpdateEndpoints (listen : nat → endpoint → option error) (endpoints : list endpoint) (m : Mux) : Mux * result (list error) :=
  if m_done m then (m, Err ErrClosedPipe) else
  if m_isClient m || negb (m_used m) then (m<|m_endpoints := endpoints|>, Ok []) else
  let results := attempts listen (newEndpoints (m_endpoints m) endpoints) in
  (m<|m_endpoints := m_endpoints m ++ omap (λ x, match x.2 with None => Some x.1 | Some _ => None end) results|>, Ok (omap snd results)).

Definition SetEndpoints (listen : nat → endpoint → option error) (endpoints : list endpoint) (m : Mux) : Mux :=
  (UpdateEndpoints listen endpoints m).1.

Definition Close_mux (e : Z → Z → env) (m : Mux) : Mux :=
  if m_done m then m else
  m<|m_done := true|><|m_heap := foldr (λ x h, match x with
       | Some i => alter (λ en, en<|mu_underlay := ul_Close (e i) (mu_underlay en)|>) i h
       | None => h end) (m_heap m) (elements (m_underlays m))|><|m_underlays := emptySlice|>.
(** [order]: the numbers of the endpoints, as their goroutines report. *)
Definition Start (listen : nat → endpoint → option error) (order : list nat) (e : Z → Z → env) (m : Mux) : Mux * result unit :=
  if m_isClient m then (m, Err ErrInvalidOperation) else
  if negb (HasUsers (m_serverUsers m)) then (m, Err (Errorf "no user found")) else
  if len (m_endpoints m) =? 0 then (m, Err (Errorf "no server listening endpoint found")) else
  if existsb (λ p, IsNilNetAddr (Some (ep_LocalAddr p))) (m_endpoints m) then (m, Err (Errorf "endpoint local address is not set")) else
  let results := attempts listen (m_endpoints m) in
  let m := foldl (λ m k, match results !! k with Some (_, Some err) => setAcceptErr err m | _ => m end) (m<|m_used := true|>) order in
  match m_acceptErr m with
  | Some err => (Close_mux e m, Err (Wrapf "mux server listener failed" err))
  | None => (m, Ok tt)
  end.

(** An underlay of a listener: the mux may be closed by now. *)
Definition addServerUnderlay (grow : nat → nat) (ce : cleanEnv) (e : muxUnderlay) (m : Mux) : result Mux :=
  if m_done m then Ok m else cleanUnderlay ce false (addUnderlay grow e m).1.
(** The goroutine that hands the sessions of an underlay to the mux. *)
Definition forwardSession (pick : bool) (i : Z) (m : Mux) : option Mux :=
  e ← m_heap m !! i;
  '(u, r) ← ul_Accept pick (mu_underlay e);
  let m' := with_heap (<[i := e<|mu_underlay := u|>]>) m in
  match r with
  | Ok sid =>
    if (len (m_chAccept m) <? sessionChanCapacity) && (negb (m_done m) || pick) then Some (m'<|m_chAccept := m_chAccept m ++ [(i, sid)]|>)
    else if m_done m then Some m' else None
  | _ => Some m'
  end.
(** [Accept]: the ready cases of its select, of which [pick] takes one. *)
Definition acceptCases (m : Mux) : list (Mux * result muxSession) :=
  (match m_acceptErr m with Some _ => [(m, Err ErrClosedPipe)] | None => [] end) ++
  (match m_chAccept m with c :: rest => [(m<|m_chAccept := rest|>, Ok c)] | [] => [] end) ++
  (if m_done m then [(m, Err EOF)] else []).
Definition Accept_mux (pick : nat) (m : Mux) : option (Mux * result muxSession) := acceptCases m !! pick.
End mux.

(** ** Cleaning is a filter *)

(** The slice holds exactly [ids]; no slot beyond its length refers to an
    underlay. *)
Definition holds (ids : list Z) (s : slice) : Prop :=
  sl_len s = length ids ∧ ∃ k, sl_arr s = (Some <$> ids) ++ replicate k None.

Lemma holds_elements ids s : holds ids s → elements s = Some <$> ids.
Proof. intros [Hl [k Ha]]. unfold elements. rewrite Hl, Ha, <-(length_fmap Some ids). by rewrite take_app_length. Qed.
Lemma holds_append grow i ids s : holds ids s → holds (ids ++ [i]) (append grow i s).
Proof.
  intros H. pose proof (holds_elements _ _ H) as He. destruct H as [Hl [k Ha]]. unfold append, holds. rewrite fmap_app.
  destruct (Nat.ltb_spec (sl_len s) (length (sl_arr s))) as [Hlt|].
  - split; cbn; [rewrite length_app; cbn; lia|]. rewrite Ha, length_app, length_fmap, length_replicate in Hlt. destruct k as [|k]; [lia|].
    exists k. rewrite Ha, Hl, insert_app_r_alt; rewrite length_fmap; [|lia]. rewrite Nat.sub_diag. cbn. by rewrite <-app_assoc.
  - split; cbn; [rewrite length_app; cbn; lia|]. rewrite He. eexists. by rewrite <-app_assoc.
Qed.
Lemma holds_shrink (kept : list Z) mid k n :
  holds kept (shrink (length kept) (mkSlice ((Some <$> kept) ++ mid ++ replicate k None) n)) ∨ n ≠ (length kept + length mid)%nat.
Proof.
  destruct (decide (n = length kept + length mid)%nat) as [->|]; [left|by right]. unfold shrink. cbn [sl_arr sl_len].
  set (s := mkSlice _ _). assert (holds kept s) as Hs.
  { split; [done|]. exists (length mid + k)%nat. cbn. rewrite take_app_length' by (symmetry; apply length_fmap). f_equal.
    replace (length kept + length mid - length kept)%nat with (length mid) by lia.
    rewrite app_assoc, drop_app_length' by (rewrite length_app, length_fmap; done). by rewrite replicate_add. }
  destruct (_ && _); [|done]. split; [apply Hs|]. exists 0%nat. cbn [sl_arr]. rewrite (holds_elements _ _ Hs). by rewrite app_nil_r.
Qed.

Section cleaning.
Context `{BT : BTree} `{F : GoFloat} {U : Type} `{UL : !UnderlayOps U} `{LAWS : !UnderlayLaws UL}.
Variable idle : Z.
Abbreviation cleanAt := (cleanAt idle).
Abbreviation cleanUnderlay := (cleanUnderlay idle).

(** The reference: every listed underlay is looked at once, by itself. *)
Definition stays (ce : cleanEnv) (also : bool) (m : Mux) (i : Z) : bool :=
  match m_heap m !! i with Some e => (cleanAt ce also m i e).2 | None => false end.
Definition cleanedHeap (ce : cleanEnv) (also : bool) (m : Mux) (ids : list Z) : gmap Z muxUnderlay :=
  map_imap (λ i e, Some (if bool_decide (i ∈ ids) then (cleanAt ce also m i e).1 else e)) (m_heap m).
Definition cleaned (ce : cleanEnv) (also : bool) (ids : list Z) (m : Mux) (s : slice) : Mux :=
  m<|m_heap := cleanedHeap ce also m ids|><|m_underlays := s|>.

Lemma cleanedHeap_lookup ce also m ids i :
  cleanedHeap ce also m ids !! i = (λ e, if bool_decide (i ∈ ids) then (cleanAt ce also m i e).1 else e) <$> m_heap m !! i.
Proof. unfold cleanedHeap. rewrite map_lookup_imap. by destruct (m_heap m !! i). Qed.

Lemma cleanedHeap_nil ce also m : cleanedHeap ce also m [] = m_heap m.
Proof. apply map_eq. intros i. rewrite cleanedHeap_lookup. rewrite bool_decide_eq_false_2 by apply not_elem_of_nil. by destruct (_ !! _). Qed.

Lemma cleanLoop_spec ce also todo m kept mid tail len_ :
  m_underlays m = mkSlice ((Some <$> kept) ++ mid ++ (Some <$> todo) ++ tail) len_ → NoDup todo →
  Forall (λ i, is_Some (m_heap m !! i)) todo →
  ∃ mid', cleanLoop idle ce also (length todo) (length kept + length mid) (length kept) m =
    Ok (cleaned ce also todo m (mkSlice ((Some <$> (kept ++ List.filter (stays ce also m) todo)) ++ mid' ++ tail) len_),
        length (kept ++ List.filter (stays ce also m) todo)) ∧
    (length kept + length mid + length todo = length (kept ++ List.filter (stays ce also m) todo) + length mid')%nat.
Proof using LAWS.
  revert m kept mid. induction todo as [|i todo IH]; intros m kept mid Hs Hnd Hall.
  - exists mid. cbn. rewrite !app_nil_r. split; [|lia]. unfold cleaned. rewrite cleanedHeap_nil. cbn in Hs. rewrite <-Hs. by destruct m.
  - apply NoDup_cons in Hnd as [Hni Hnd]. apply Forall_cons in Hall as [[e He] Hall].
    cbn [length cleanLoop]. rewrite Hs. cbn [sl_arr sl_len].
    assert (((Some <$> kept) ++ mid ++ (Some <$> i :: todo) ++ tail) !! (length kept + length mid)%nat = Some (Some i)) as ->.
    { rewrite app_assoc, lookup_app_r, length_app, length_fmap, Nat.sub_diag by (rewrite length_app, length_fmap; lia). done. }
    cbn. rewrite He. destruct (cleanAt ce also m i e) as [e' keep] eqn:Ec.
    assert (stays ce also m i = keep) as Est by (unfold stays; by rewrite He, Ec).
    set (m1 := with_heap (<[i := e']>) m).
    assert (Forall (λ j, is_Some (m_heap m1 !! j)) todo) as Hall1.
    { eapply Forall_impl; [exact Hall|]. intros j Hj. cbn. rewrite lookup_insert_is_Some'. by right. }
    assert (∀ s, cleanedHeap ce also (m1<|m_underlays := s|>) todo = cleanedHeap ce also m (i :: todo)) as Hheap.
    { intros s. apply map_eq. intros j. rewrite !cleanedHeap_lookup. cbn. destruct (decide (j = i)) as [->|Hne].
      - rewrite lookup_insert_eq, He. cbn. rewrite bool_decide_eq_false_2, bool_decide_eq_true_2 by (done || apply list_elem_of_here). by rewrite Ec.
      - rewrite lookup_insert_ne by done. destruct (m_heap m !! j); cbn; [|done].
        rewrite (bool_decide_ext (j ∈ i :: todo) (j ∈ todo)) by (rewrite elem_of_cons; naive_solver). done. }
    assert (∀ s j, j ∈ todo → stays ce also (m1<|m_underlays := s|>) j = stays ce also m j) as Hst.
    { intros s j Hj. unfold stays. cbn. rewrite lookup_insert_ne by (intros ->; done). done. }
    assert (∀ s, List.filter (stays ce also (m1<|m_underlays := s|>)) todo = List.filter (stays ce also m) todo) as Hfil.
    { intros s. apply List.filter_ext_in. intros j Hj. apply Hst. by apply list_elem_of_In. }
    destruct keep.
    + set (s1 := mkSlice (<[length kept := Some i]> ((Some <$> kept) ++ mid ++ Some i :: (Some <$> todo) ++ tail)) len_).
      assert (∃ mid1, sl_arr s1 = (Some <$> (kept ++ [i])) ++ mid1 ++ (Some <$> todo) ++ tail ∧ length mid1 = length mid) as (mid1 & Hm1 & Hlen).
      { cbn. rewrite insert_app_r_alt; rewrite length_fmap; [|lia]. rewrite Nat.sub_diag, fmap_app. destruct mid as [|x mid]; cbn.
        - exists []. by rewrite <-app_assoc.
        - exists (mid ++ [Some i]). rewrite <-!app_assoc. cbn. rewrite length_app. cbn. split; [done|lia]. }
      destruct (IH (m1<|m_underlays := s1|>) (kept ++ [i]) mid1) as (mid' & Hrun & Hlen'); [change (s1 = mkSlice ((Some <$> kept ++ [i]) ++ mid1 ++ (Some <$> todo) ++ tail) len_); by rewrite <-Hm1|done|exact Hall1|].
      rewrite !length_app in Hrun. cbn [length] in Hrun. rewrite Hlen in Hrun. replace (length kept + 1 + length mid)%nat with (S (length kept + length mid)) in Hrun by lia.
      replace (length kept + 1)%nat with (S (length kept)) in Hrun by lia.
      exists mid'. cbn [List.filter]. rewrite Est. fold m1 s1.
      assert (mkSlice (<[length kept := Some i]> (sl_arr (m_underlays m))) (sl_len (m_underlays m)) = s1) as -> by (by rewrite Hs).
      rewrite Hrun, Hfil. split; [|rewrite Hfil in Hlen'; rewrite !length_app in *; cbn in *; lia].
      rewrite <-app_assoc. cbn. f_equal. f_equal; [|rewrite !length_app; cbn; lia].
      unfold cleaned. rewrite Hheap. done.
    + destruct (IH m1 kept (mid ++ [Some i])) as (mid' & Hrun & Hlen'); [cbn; rewrite Hs; by rewrite <-!app_assoc|done|exact Hall1|].
      rewrite length_app in Hrun, Hlen'. cbn [length] in Hrun, Hlen'. replace (length kept + (length mid + 1))%nat with (S (length kept + length mid)) in Hrun by lia.
      assert (m1 = m1<|m_underlays := m_underlays m1|>) as Em by (by destruct m1).
      exists mid'. cbn [List.filter]. rewrite Est. rewrite Em, Hfil in Hlen', Hrun. rewrite <-Em in Hrun. rewrite Hrun. split; [|lia].
      f_equal. f_equal. unfold cleaned. assert (cleanedHeap ce also m1 todo = cleanedHeap ce also m (i :: todo)) as -> by (by rewrite <-(Hheap (m_underlays m1)), <-Em). done.
Qed.

(** The slice of a mux holds [ids], distinct underlays of the heap. *)
Record slice_ok (ids : list Z) (m : @Mux U) : Prop := {
  so_holds : holds ids (m_underlays m);
  so_distinct : NoDup ids;
  so_heap : Forall (λ i, is_Some (m_heap m !! i)) ids
}.

Lemma cleanUnderlay_spec ce also m ids :
  slice_ok ids m → ∃ s, cleanUnderlay ce also m = Ok (cleaned ce also ids m s) ∧ holds (List.filter (stays ce also m) ids) s.
Proof using LAWS.
  intros [[Hl [k Ha]] Hnd Hall]. unfold Mux.cleanUnderlay. rewrite Hl.
  destruct (cleanLoop_spec ce also ids m [] [] (replicate k None) (length ids)) as (mid & Hrun & Hlen); [|done..|].
  { destruct (m_underlays m); cbn in *; by subst. }
  cbn [length plus] in Hrun, Hlen. rewrite Hrun, bind_Ok. cbn [app] in *.
  eexists. split; [reflexivity|]. cbn. rewrite Hlen. destruct (holds_shrink (List.filter (stays ce also m) ids) mid k (length (List.filter (stays ce also m) ids) + length mid)); done.
Qed.

Lemma disable_underlay factor now e : mu_underlay (disableUnderlay idle factor now e) = mu_underlay e.
Proof. unfold disableUnderlay. destruct (ul_SessionCount _ =? 0); by destruct (_ && _). Qed.
(** What leaves is closed, what stays is open. *)
Lemma cleanAt_done ce also m i e : ul_Done (mu_underlay (cleanAt ce also m i e).1) = negb (cleanAt ce also m i e).2.
Proof using LAWS.
  unfold Mux.cleanAt, cleanOne. destruct (ul_Done (mu_underlay e)) eqn:Ed; [done|].
  destruct (negb (m_isClient m) && _).
  - destruct (ul_closeIfIdle _ _ _ _) as [u [|]] eqn:Ei; [apply ul_idle_closed in Ei as [_ Ei]; exact Ei|]. apply ul_idle_kept in Ei as ->.
    cbn [mu_underlay]. destruct (_ && Idle _ _ _), also; cbn; rewrite ?disable_underlay; cbn; first [done|apply ul_close_done].
  - destruct (_ && Idle _ _ _), also; cbn; rewrite ?disable_underlay; cbn; first [done|apply ul_close_done].
Qed.
Lemma stays_open ce also ids m i e :
  i ∈ ids → cleanedHeap ce also m ids !! i = Some e → ul_Done (mu_underlay e) = negb (stays ce also m i).
Proof using LAWS.
  intros Hi. rewrite cleanedHeap_lookup. unfold stays. destruct (m_heap m !! i) as [e0|]; [|done]. cbn.
  rewrite bool_decide_eq_true_2 by done. intros [= <-]. apply cleanAt_done.
Qed.
Lemma cleaned_ok ce also ids m s :
  slice_ok ids m → holds (List.filter (stays ce also m) ids) s → slice_ok (List.filter (stays ce also m) ids) (cleaned ce also ids m s).
Proof using.
  intros [_ Hnd Hall] Hs. split; [done|by apply NoDup_ListNoDup, List.NoDup_filter, NoDup_ListNoDup|].
  apply Forall_forall. intros i Hi. apply list_elem_of_In, filter_In in Hi as [Hi _]. apply list_elem_of_In in Hi.
  cbn. rewrite cleanedHeap_lookup. apply fmap_is_Some. by eapply Forall_forall in Hi; [|exact Hall].
Qed.

(** Cleaning the slice in place computes a filter: each underlay is looked at
    once and independently of the others, those that stay keep their order, are
    open, and are all that the slice and its array refer to; those that leave
    are closed; and nothing else of the multiplexer changes. *)
Theorem cleaning_is_filter (ce : cleanEnv) (also : bool) (m : Mux) (ids : list Z) :
  slice_ok ids m →
  ∃ m', cleanUnderlay ce also m = Ok m' ∧ slice_ok (List.filter (stays ce also m) ids) m' ∧
    m' = cleaned ce also ids m (m_underlays m') ∧
    (∀ i e, i ∈ ids → m_heap m' !! i = Some e → ul_Done (mu_underlay e) = negb (stays ce also m i)).
Proof using LAWS.
  intros Hok. destruct (cleanUnderlay_spec ce also m ids Hok) as (s & Hrun & Hs). eexists. split; [exact Hrun|].
  split; [by apply cleaned_ok|]. split; [done|]. intros i e. apply stays_open.
Qed.

(** ** The choice of an underlay *)

Definition usable (now : Z → Z) (m : Mux) (i : Z) : bool :=
  match m_heap m !! i with
  | Some e => negb (ul_Done (mu_underlay e)) && negb (IsDisabled (now i) (mu_scheduler e))
  | None => false
  end.
Lemma active_spec now m ids : slice_ok ids m → active now m = Ok (List.filter (usable now m) ids).
Proof using.
  intros [Hh _ Hall]. unfold active. rewrite (holds_elements _ _ Hh). clear Hh. induction ids as [|i ids IH]; [done|].
  apply Forall_cons in Hall as [[e He] Hall]. cbn. rewrite He. cbn. rewrite (IH Hall), bind_Ok. unfold usable. rewrite He. done.
Qed.
End cleaning.

Lemma count_interval a b n :
  0 <= a <= b → b <= n → len (List.filter (λ x, (a <=? x) && (x <? b)) (seqZ 0 n)) = b - a.
Proof.
  intros Ha Hb. replace (seqZ 0 n) with (seqZ 0 a ++ seqZ a (b - a) ++ seqZ b (n - b)).
  2:{ replace n with (a + ((b - a) + (n - b))) at 2 by lia. rewrite seqZ_app by lia. f_equal. rewrite seqZ_app by lia. by rewrite Z.add_0_l, Zplus_minus. }
  rewrite !List.filter_app, !len_app.
  assert (∀ P (l : list Z), (∀ x, x ∈ l → P x = false) → len (List.filter P l) = 0) as Hno.
  { intros P l Hl. induction l as [|x l IHl]; [done|]. cbn. rewrite (Hl x) by apply list_elem_of_here. apply IHl. intros y Hy. by apply Hl, list_elem_of_further. }
  assert (∀ P (l : list Z), (∀ x, x ∈ l → P x = true) → len (List.filter P l) = len l) as Hyes.
  { intros P l Hl. induction l as [|x l IHl]; [done|]. cbn. rewrite (Hl x) by apply list_elem_of_here. rewrite !len_cons, IHl; [done|]. intros y Hy. by apply Hl, list_elem_of_further. }
  rewrite Hno, Hyes, Hno; [|intros x Hx; apply elem_of_seqZ in Hx; lia..]. unfold len. rewrite length_seqZ. lia.
Qed.

(** What each of the values that [Intn] can return makes of the choice. *)
Lemma pickFrom_value factor act n :
  0 < factor → len act * factor < 2 ^ 63 - 1 → 0 <= n <= len act * factor →
  pickFrom (λ _, n) factor act = Ok (act !! Z.to_nat (n / factor)).
Proof.
  intros Hf Hb Hn. unfold pickFrom. pose proof (len_nonneg act). destruct (Z.gtb_spec factor 0); [|lia].
  pose proof (Z.mul_nonneg_nonneg (len act) factor ltac:(lia) ltac:(lia)). rewrite (i64_id (len act * factor)), (i64_id (len act * factor + 1)) by lia.
  destruct (Z.leb_spec (len act * factor + 1) 0); [lia|].
  destruct (Z.ltb_spec n (len act * factor)) as [Hlt|].
  - rewrite Z.quot_div_nonneg by lia. assert (n / factor < len act) as Hk by (apply Z.div_lt_upper_bound; lia).
    destruct (lookup_lt_is_Some_2 act (Z.to_nat (n / factor))) as [i ->]; [unfold len in Hk; pose proof (Z.div_pos n factor); lia|done].
  - assert (n / factor = len act) as -> by (symmetry; apply Z.div_unique with 0; lia). by rewrite lookup_ge_None_2 by (unfold len; lia).
Qed.

(** The multiplexing factor is a weight: of the values that the random
    choice can take, each underlay that is open and takes sessions has
    [multiplexFactor], and a new underlay has one; so without multiplexing every
    dial opens a new one. *)
Theorem reuse_weights (factor : Z) (act : list Z) :
  NoDup act → 0 <= factor → len act * factor < 2 ^ 63 - 1 →
  let outcomes := seqZ 0 (len act * factor + 1) in
  let weight r := len (List.filter (λ n, bool_decide (pickFrom (λ _, n) factor act = Ok r)) outcomes) in
  weight None = 1 ∧ (∀ i, i ∈ act → weight (Some i) = factor) ∧ ∀ i, i ∉ act → weight (Some i) = 0.
Proof.
  intros Hnd Hf Hb outcomes weight. destruct (decide (factor = 0)) as [->|Hf0].
  { unfold weight, outcomes. rewrite Z.mul_0_r. cbn. split; [done|split; intros i _; by rewrite bool_decide_eq_false_2]. }
  pose proof (len_nonneg act) as Hpos.
  assert (∀ r (k : nat), (∀ n, n ∈ outcomes → pickFrom (λ _, n) factor act = Ok r ↔ Z.to_nat (n / factor) = k) →
    weight r = len (List.filter (λ n, (Z.of_nat k * factor <=? n) && (n <? (Z.of_nat k + 1) * factor)) outcomes)) as Hcount.
  { intros r k Hr. unfold weight. f_equal. apply List.filter_ext_in. intros n Hn. apply list_elem_of_In in Hn. apply eq_iff_eq_true.
    rewrite bool_decide_eq_true, (Hr n Hn), andb_true_iff, Z.leb_le, Z.ltb_lt. apply elem_of_seqZ in Hn. pose proof (Z.div_pos n factor).
    split; [intros <-; rewrite Z2Nat.id by lia; pose proof (Z.mul_div_le n factor); pose proof (Z.mul_succ_div_gt n factor); nia|].
    intros Hk. assert (n / factor = Z.of_nat k) as -> by (symmetry; apply Z.div_unique with (n - Z.of_nat k * factor); lia). lia. }
  assert (∀ n, n ∈ outcomes → 0 <= n <= len act * factor) as Hout by (intros n Hn; apply elem_of_seqZ in Hn; lia).
  split_and!.
  - assert (weight None = len (List.filter (λ n, (len act * factor <=? n) && (n <? len act * factor + 1)) outcomes)) as ->.
    { unfold weight. f_equal. apply List.filter_ext_in. intros n Hn. apply list_elem_of_In in Hn. apply eq_iff_eq_true. pose proof (Hout n Hn).
      rewrite bool_decide_eq_true, andb_true_iff, Z.leb_le, Z.ltb_lt, pickFrom_value by lia. split.
      - intros [= E]. apply lookup_ge_None in E. unfold len in *. pose proof (Z.mul_div_le n factor). pose proof (Z.div_pos n factor). nia.
      - intros [? ?]. assert (n / factor = len act) as -> by (symmetry; apply Z.div_unique with 0; lia). by rewrite lookup_ge_None_2 by (unfold len; lia). }
    unfold outcomes. rewrite count_interval by nia. lia.
  - intros i Hi. apply list_elem_of_lookup in Hi as [k Hk]. pose proof (lookup_lt_Some _ _ _ Hk) as Hlt.
    rewrite (Hcount (Some i) k).
    + unfold outcomes. rewrite count_interval; [lia|nia|unfold len; nia].
    + intros n Hn. rewrite pickFrom_value by (try apply Hout; done || lia). split; [|by intros ->; rewrite Hk].
      intros [= E]. by eapply NoDup_lookup.
  - intros i Hi. unfold weight. rewrite (List.filter_ext_in _ (λ _, false)).
    + clear. unfold outcomes. by induction (seqZ _ _).
    + intros n Hn. apply list_elem_of_In in Hn. apply bool_decide_eq_false. rewrite pickFrom_value by (try apply Hout; done || lia).
      intros [= E]. apply Hi. by eapply list_elem_of_lookup_2.
Qed.

(** ** Many dials at once *)

(** Where a goroutine in [DialContext] is; [ok] is what [IncPending] returned at
    time [t].  [second]: the first underlay has refused. *)
Inductive dialState {U : Type} :=
| DialNew (second : bool)                                          (* newUnderlay begins *)
| DialOpening (second : bool) (p : endpoint) (t : option TrafficPattern)
| DialReady (second : bool) (i : Z)                                 (* before IncPending *)
| DialPending (ok : bool) (t i : Z)                                 (* before AddSession *)
| DialAdded (ok : bool) (t i : Z) (r : result Z)                    (* before DecPending *)
| DialOver (r : result muxSession).
Arguments dialState : clear implicits.

Section system.
Context `{BT : BTree} `{F : GoFloat} {U : Type} `{UL : !UnderlayOps U} `{LAWS : !UnderlayLaws UL}.
Variable idle : Z.

Record system := mkSystem { sy_mux : @Mux U; sy_dials : list (dialState U); sy_now : Z }.

(** A scheduler that was not used yet; it may have a disable time. *)
Definition unused (c : ScheduleController) : Prop := pending c = 0 ∧ lastScheduleTime c = None.

(** Every reading of the clock in a step is between the times before and after
    the step.  An underlay may change in any way by itself. *)
Inductive muxStep (s : system) : system → Prop :=
| StepBegin ce draw m r now' :
    dialCheck (sy_mux s) = Ok tt → dialPick idle ce draw (sy_mux s) = Ok (m, r) → sy_now s <= now' → (∀ i, sy_now s <= ce_now ce i <= now') →
    muxStep s (mkSystem m (sy_dials s ++ [match r with Some i => DialReady false i | None => DialNew false end]) now')
| StepChoose k b draw p t :
    sy_dials s !! k = Some (DialNew b) → chooseEndpoint draw (sy_mux s) = Ok (p, t) →
    muxStep s (mkSystem (sy_mux s) (<[k := DialOpening b p t]> (sy_dials s)) (sy_now s))
| StepOpened k b p t grow e m i :
    sy_dials s !! k = Some (DialOpening b p t) → unused (mu_scheduler e) → addUnderlay grow e (sy_mux s) = (m, i) →
    muxStep s (mkSystem m (<[k := DialReady b i]> (sy_dials s)) (sy_now s))
| StepOpenFailed k b p t e :
    sy_dials s !! k = Some (DialOpening b p t) →
    muxStep s (mkSystem (sy_mux s) (<[k := DialOver (Err e)]> (sy_dials s)) (sy_now s))
| StepIncrement k b i m ok :
    sy_dials s !! k = Some (DialReady b i) → incPending (sy_now s) i (sy_mux s) = (m, ok) →
    muxStep s (mkSystem m (<[k := if b || ok then DialPending ok (sy_now s) i else DialNew true]> (sy_dials s)) (sy_now s))
| StepAddSession k ok t i micro sid jitterMs m r :
    sy_dials s !! k = Some (DialPending ok t i) → addSession micro sid jitterMs i (sy_mux s) = (m, r) →
    muxStep s (mkSystem m (<[k := DialAdded ok t i r]> (sy_dials s)) (sy_now s))
| StepDecrement k ok t i r :
    sy_dials s !! k = Some (DialAdded ok t i r) →
    muxStep s (mkSystem (decPending (sy_now s) i (sy_mux s)) (<[k := DialOver (pair i <$> r)]> (sy_dials s)) (sy_now s))
| StepClean ce also m now' :
    cleanUnderlay idle ce also (sy_mux s) = Ok m → sy_now s <= now' → (∀ i, sy_now s <= ce_now ce i <= now') → muxStep s (mkSystem m (sy_dials s) now')
| StepUnderlay i e u :
    m_heap (sy_mux s) !! i = Some e →
    muxStep s (mkSystem (with_heap (<[i := e<|mu_underlay := u|>]>) (sy_mux s)) (sy_dials s) (sy_now s))
| StepClose e : muxStep s (mkSystem (Close_mux e (sy_mux s)) (sy_dials s) (sy_now s))
| StepEndpoints listen eps : muxStep s (mkSystem (UpdateEndpoints listen eps (sy_mux s)).1 (sy_dials s) (sy_now s))
| StepTime now' : sy_now s <= now' → muxStep s (mkSystem (sy_mux s) (sy_dials s) now').

(** ** The sessions that are pending at an underlay *)

Definition held (d : dialState U) : option (bool * Z * Z) :=
  match d with DialPending ok t i | DialAdded ok t i _ => Some (ok, t, i) | _ => None end.
Definition underlayOf (d : dialState U) : option Z :=
  match d with DialReady _ i | DialPending _ _ i | DialAdded _ _ i _ => Some i | _ => None end.
Definition countedAt (i : Z) (d : dialState U) : bool :=
  match held d with Some (true, _, j) => j =? i | _ => false end.
Definition dialsAt (i : Z) (l : list (dialState U)) : Z := len (List.filter (countedAt i) l).

Lemma dialsAt_app i l l' : dialsAt i (l ++ l') = dialsAt i l + dialsAt i l'.
Proof. unfold dialsAt. by rewrite List.filter_app, len_app. Qed.
Lemma dialsAt_one i d : dialsAt i [d] = Z.b2z (countedAt i d).
Proof. unfold dialsAt. cbn. by destruct (countedAt i d). Qed.
Lemma dialsAt_insert i k d d' l :
  l !! k = Some d → dialsAt i (<[k := d']> l) = dialsAt i l - Z.b2z (countedAt i d) + Z.b2z (countedAt i d').
Proof.
  intros Hk. rewrite (insert_take_drop l k d') by (by eapply lookup_lt_Some). rewrite <-(take_drop_middle l k d Hk) at 3.
  change (d' :: ?x) with ([d'] ++ x). change (d :: ?x) with ([d] ++ x). rewrite !dialsAt_app, !dialsAt_one. lia.
Qed.
(** The dials that hold an underlay count for it alone. *)
Lemma dialsAt_none i l : (∀ d j, d ∈ l → underlayOf d = Some j → j ≠ i) → dialsAt i l = 0.
Proof.
  intros H. induction l as [|d l IH]; [done|]. change (d :: l) with ([d] ++ l). rewrite dialsAt_app, dialsAt_one, IH.
  2:{ intros d' j Hd'. apply H. by apply list_elem_of_further. }
  assert (countedAt i d = false) as ->; [|done]. pose proof (H d) as Hd. unfold countedAt.
  destruct d as [| | |[] t j|[] t j r|]; cbn in *; try done; apply Z.eqb_neq, Hd; done || apply list_elem_of_here.
Qed.

(** What is true of the scheduler of one underlay. *)
Record sched_ok (now : Z) (dials : list (dialState U)) (i : Z) (c : ScheduleController) : Prop := {
  sk_last : ∀ l, lastScheduleTime c = Some l → l <= now;
  sk_held : ∀ d t, d ∈ dials → held d = Some (true, t, i) → t <= now ∧ ∃ l, lastScheduleTime c = Some l ∧ t <= l;
  sk_refused : ∀ d t, d ∈ dials → held d = Some (false, t, i) → IsDisabled now c = true;
  sk_pending : IsDisabled now c = true ∨ pending c = dialsAt i dials
}.
Record system_ok (s : system) : Prop := {
  sy_slice : ∃ ids, slice_ok ids (sy_mux s);
  sy_refs : ∀ d i, d ∈ sy_dials s → underlayOf d = Some i → is_Some (m_heap (sy_mux s) !! i);
  sy_scheds : ∀ i e, m_heap (sy_mux s) !! i = Some e → sched_ok (sy_now s) (sy_dials s) i (mu_scheduler e);
  sy_client : sy_dials s ≠ [] → m_isClient (sy_mux s) = true
}.

(** A scheduler that moves on without its pending count changing. *)
Lemma sched_ok_later now now' dials i c c' :
  sched_ok now dials i c → now <= now' → later now' c c' → pending c' = pending c → (∀ l, lastScheduleTime c' = Some l → l <= now') →
  sched_ok now' dials i c'.
Proof using.
  intros [H1 H2 H3 H4] Hn Hl Hp Hlast. split; [done| | |].
  - intros d t Hd Hh. destruct (H2 d t Hd Hh) as (Ht & l & El & Htl). split; [lia|].
    destruct (la_last _ _ _ Hl l El) as (l' & El' & ?); [pose proof (H1 l El); lia|]. exists l'. split; [done|lia].
  - intros d t Hd Hh. eapply IsDisabled_later; [exact Hn|exact Hl|by eapply H3].
  - destruct H4 as [H4|H4]; [left; by eapply IsDisabled_later|right; congruence].
Qed.
(** The dials change, but none comes to hold [i]. *)
Lemma sched_ok_dials now dials dials' i c :
  sched_ok now dials i c → (∀ d' b t, d' ∈ dials' → held d' = Some (b, t, i) → ∃ d, d ∈ dials ∧ held d = Some (b, t, i)) →
  dialsAt i dials' = dialsAt i dials → sched_ok now dials' i c.
Proof using.
  intros [H1 H2 H3 H4] Hsub Hc. split; [done| | |].
  - intros d t Hd Hh. destruct (Hsub d true t Hd Hh) as (d0 & ? & ?). by eapply H2.
  - intros d t Hd Hh. destruct (Hsub d false t Hd Hh) as (d0 & ? & ?). by eapply H3.
  - by rewrite Hc.
Qed.
Lemma elem_of_insert_list {A} (k : nat) (x y : A) (l : list A) : y ∈ <[k := x]> l → y = x ∨ y ∈ l.
Proof. rewrite !list_elem_of_lookup. intros [j Hj]. destruct (decide (j = k)) as [->|]; [|rewrite list_lookup_insert_ne in Hj by done; right; by exists j].
  destruct (decide (k < length l)%nat); [rewrite list_lookup_insert_eq in Hj by done; left; by injection Hj|].
  rewrite list_insert_ge in Hj by lia. right. by exists k. Qed.
(** A dial moves on and holds what it held, or lets go of another underlay. *)
Lemma sched_ok_move now dials k d d' i c :
  sched_ok now dials i c → dials !! k = Some d → held d' = held d ∨ (held d' = None ∧ ∀ b t j, held d = Some (b, t, j) → j ≠ i) →
  sched_ok now (<[k := d']> dials) i c.
Proof using.
  intros Hok Hk Hh. apply (sched_ok_dials now dials); [done| |].
  - intros x b t Hx Hb. apply elem_of_insert_list in Hx as [->|Hx]; [|by exists x].
    destruct Hh as [E|[E _]]; [|congruence]. exists d. split; [by eapply list_elem_of_lookup_2|congruence].
  - rewrite (dialsAt_insert i k d d' dials Hk). unfold countedAt. destruct Hh as [->|[-> Hn]]; [lia|].
    destruct (held d) as [[[[] t] j]|]; [|cbn; lia..]. specialize (Hn true t j eq_refl). destruct (Z.eqb_spec j i); [done|cbn; lia].
Qed.
(** A dial comes to hold another underlay. *)
Lemma sched_ok_other now dials k d d' i c :
  sched_ok now dials i c → dials !! k = Some d → held d = None → (∀ b t j, held d' = Some (b, t, j) → j ≠ i) → sched_ok now (<[k := d']> dials) i c.
Proof using.
  intros Hok Hk Hh Hn. apply (sched_ok_dials now dials); [done| |].
  - intros x b t Hx Hb. apply elem_of_insert_list in Hx as [->|Hx]; [|by exists x]. by destruct (Hn b t i Hb).
  - rewrite (dialsAt_insert i k d d' dials Hk). unfold countedAt. rewrite Hh.
    destruct (held d') as [[[[] t] j]|]; [|cbn; lia..]. specialize (Hn true t j eq_refl). destruct (Z.eqb_spec j i); [done|cbn; lia].
Qed.

(** Nothing happens to the schedulers. *)
Definition same_scheds (m m' : @Mux U) : Prop := ∀ i, mu_scheduler <$> m_heap m' !! i = mu_scheduler <$> m_heap m !! i.
Lemma same_scheds_dom m m' i : same_scheds m m' → is_Some (m_heap m !! i) → is_Some (m_heap m' !! i).
Proof using. intros H [e He]. specialize (H i). rewrite He in H. destruct (m_heap m' !! i); [by eexists|done]. Qed.
Lemma slice_ok_same ids m m' : same_scheds m m' → m_underlays m' = m_underlays m → slice_ok ids m → slice_ok ids m'.
Proof using.
  intros Hs Hu [H1 H2 H3]. split; [by rewrite Hu|done|]. eapply Forall_impl; [exact H3|]. intros i. by apply same_scheds_dom.
Qed.
Lemma same_scheds_update i e u m : m_heap m !! i = Some e → same_scheds m (with_heap (<[i := e<|mu_underlay := u|>]>) m).
Proof using. intros He j. cbn. destruct (decide (j = i)) as [->|]; [by rewrite lookup_insert_eq, He|by rewrite lookup_insert_ne]. Qed.

Lemma system_ok_same s m' dials' now' :
  system_ok s → same_scheds (sy_mux s) m' → (∃ ids, slice_ok ids m') → m_isClient m' = m_isClient (sy_mux s) → sy_now s <= now' →
  (∀ d i, d ∈ dials' → underlayOf d = Some i → ∃ d0, d0 ∈ sy_dials s ∧ underlayOf d0 = Some i) →
  (∀ now i c, sched_ok now (sy_dials s) i c → sched_ok now dials' i c) → (dials' ≠ [] → sy_dials s ≠ []) →
  system_ok (mkSystem m' dials' now').
Proof using.
  intros [_ H2 H3 H4] Hs Hsl Hcl Hn Hrefs Hd Hne. split; [done| | |]; cbn.
  - intros d i Hdi Hu. destruct (Hrefs d i Hdi Hu) as (d0 & ? & ?). eapply same_scheds_dom; [exact Hs|]. by eapply H2.
  - intros i e He. specialize (Hs i). rewrite He in Hs. destruct (m_heap (sy_mux s) !! i) as [e0|] eqn:E0; [|done]. injection Hs as ->.
    apply Hd. specialize (H3 i e0 E0). eapply sched_ok_later; [exact H3|done|done|done|]. intros l Hl. pose proof (sk_last _ _ _ _ H3 l Hl). lia.
  - intros Hd'. rewrite Hcl. by apply H4, Hne.
Qed.
Lemma system_ok_time s now' : system_ok s → sy_now s <= now' → system_ok (mkSystem (sy_mux s) (sy_dials s) now').
Proof using. intros Hs Hn. apply (system_ok_same s); [done|by intros i|apply Hs|done..|by eauto|done|done]. Qed.

Lemma insert_not_nil {A} (k : nat) (x : A) (l : list A) : <[k := x]> l ≠ [] → l ≠ [].
Proof. by destruct l. Qed.
Lemma refs_insert (k : nat) (d : dialState U) (l : list (dialState U)) d' i :
  d' ∈ <[k := d]> l → underlayOf d' = Some i → underlayOf d = Some i ∨ ∃ d0, d0 ∈ l ∧ underlayOf d0 = Some i.
Proof using. intros [->|Hd]%elem_of_insert_list Hu; [by left|right; by exists d']. Qed.

(** Cleaning moves the schedulers on. *)
Lemma disableUnderlay_disables factor now (e : @muxUnderlay U) : disables (mu_scheduler e) (mu_scheduler (disableUnderlay idle factor now e)).
Proof using.
  unfold disableUnderlay. set (e1 := if ul_SessionCount _ =? 0 then _ else _).
  assert (disables (mu_scheduler e) (mu_scheduler e1)) as H by (unfold e1; destruct (_ =? 0); [apply TryDisableIdle_disables|done]).
  destruct (_ && _); [|done]. etrans; [exact H|apply SetRemainingTime_disables].
Qed.
Lemma cleanAt_disables ce also (m : @Mux U) i e : disables (mu_scheduler e) (mu_scheduler (cleanAt idle ce also m i e).1).
Proof using.
  unfold cleanAt, cleanOne. destruct (ul_Done (mu_underlay e)); [done|]. destruct (if negb (m_isClient m) && _ then _ else _) as [u [|]]; [done|].
  destruct (_ && Idle _ _ _), also; cbn [fst]; try done; etrans; [|apply disableUnderlay_disables| |apply disableUnderlay_disables]; done.
Qed.
Lemma system_ok_clean s ce also m now' :
  cleanUnderlay idle ce also (sy_mux s) = Ok m → sy_now s <= now' → system_ok s → system_ok (mkSystem m (sy_dials s) now').
Proof using LAWS.
  intros Hrun Hn [[ids Hsl] H2 H3 H4]. destruct (cleanUnderlay_spec idle ce also (sy_mux s) ids Hsl) as (sl & Hrun' & Hsl').
  rewrite Hrun in Hrun'. injection Hrun' as ->. pose proof (cleaned_ok idle ce also ids _ _ Hsl Hsl') as Hok.
  split; [by eexists| | |done].
  - intros d i Hd Hu. cbn. rewrite cleanedHeap_lookup. apply fmap_is_Some. by eapply H2.
  - intros i e'. cbn. rewrite cleanedHeap_lookup. intros (e & He & ->)%fmap_Some. specialize (H3 i e He).
    destruct (bool_decide _).
    + pose proof (cleanAt_disables ce also (sy_mux s) i e) as Hd. pose proof Hd as [_ Hp Hl]. eapply sched_ok_later; [exact H3|done|by apply disables_later|done|].
      intros l. rewrite Hl. intros E. pose proof (sk_last _ _ _ _ H3 l E). lia.
    + eapply sched_ok_later; [exact H3|done|done|done|]. intros l E. pose proof (sk_last _ _ _ _ H3 l E). lia.
Qed.

(** What is picked is listed, open and takes sessions. *)
Lemma pick_usable now draw m i ids :
  slice_ok ids m → maybePickExistingUnderlay now draw m = Ok (Some i) → i ∈ ids ∧ usable now m i = true.
Proof using.
  intros Hsl. unfold maybePickExistingUnderlay. rewrite (active_spec now m ids Hsl), bind_Ok. unfold pickFrom.
  destruct (_ >? 0); [|done]. destruct (_ <=? 0); [done|]. destruct (_ <? _); [|done].
  destruct (List.filter _ _ !! _) as [j|] eqn:Ej; [|done]. intros [= <-]. apply list_elem_of_lookup_2, list_elem_of_In, filter_In in Ej as [Hi Hu].
  split; [by apply list_elem_of_In|done].
Qed.
Lemma dialPick_spec ce draw m0 m r ids :
  slice_ok ids m0 → dialPick idle ce draw m0 = Ok (m, r) →
  ∃ m1, cleanUnderlay idle ce true (m0<|m_used := true|>) = Ok m ∧ m = m1 ∧ maybePickExistingUnderlay (ce_now ce) draw m = Ok r.
Proof using.
  intros _. unfold dialPick. destruct (cleanUnderlay _ _ _ _) as [m1| |]; [rewrite bind_Ok|done..].
  destruct (maybePickExistingUnderlay _ _ _) as [i| |] eqn:Ep; [rewrite bind_Ok|done..]. intros [= <- <-]. by exists m1.
Qed.

(** A new underlay gets a number that nobody has. *)
Lemma freshID_fresh (h : gmap Z (@muxUnderlay U)) : h !! freshID h = None.
Proof using.
  assert (∀ i, is_Some (h !! i) → i < freshID h) as H.
  { unfold freshID. apply (map_fold_weak_ind (λ n (h : gmap Z (@muxUnderlay U)), ∀ i, is_Some (h !! i) → i < n)).
    - intros i [e He]. by rewrite lookup_empty in He.
    - intros i e h' n _ IH j [Hj|[_ Hj]]%lookup_insert_is_Some; [subst; lia|]. specialize (IH j Hj). lia. }
  destruct (h !! freshID h) eqn:E; [|done]. exfalso. specialize (H (freshID h) ltac:(by rewrite E)). lia.
Qed.
Lemma addUnderlay_spec grow e (m m' : @Mux U) i ids :
  slice_ok ids m → addUnderlay grow e m = (m', i) →
  m_heap m !! i = None ∧ m_heap m' = <[i := e]> (m_heap m) ∧ slice_ok (ids ++ [i]) m' ∧ m' = m<|m_heap := m_heap m'|><|m_underlays := m_underlays m'|>.
Proof using.
  intros [H1 H2 H3] [= <- <-]. pose proof (freshID_fresh (m_heap m)) as Hf. split; [done|]. split; [done|]. split; [|done].
  split; cbn.
  - by apply holds_append.
  - apply NoDup_app. split; [done|]. split; [|apply NoDup_singleton]. intros i Hi Hx. apply list_elem_of_singleton in Hx as ->.
    eapply Forall_forall in H3 as [e' He]; [|exact Hi]. by rewrite Hf in He.
  - apply Forall_app. split; [|apply Forall_singleton; by rewrite lookup_insert_eq].
    eapply Forall_impl; [exact H3|]. intros i Hi. rewrite lookup_insert_is_Some'. by right.
Qed.

(** [incPending] and [decPending] at the underlay that the dial holds. *)
Lemma insert_dials_ne k (d : dialState U) l : l !! k = Some d → l ≠ [].
Proof using. intros H ->. by rewrite lookup_nil in H. Qed.
Lemma refs_dial s k d d' j :
  system_ok s → sy_dials s !! k = Some d → (∀ i, underlayOf d' = Some i → underlayOf d = Some i ∨ is_Some (m_heap (sy_mux s) !! i)) →
  ∀ x, x ∈ <[k := d']> (sy_dials s) → underlayOf x = Some j → is_Some (m_heap (sy_mux s) !! j).
Proof using.
  intros [_ H2 _ _] Hk Hd x Hx Hu. destruct (refs_insert _ _ _ _ _ Hx Hu) as [E|(d0 & ? & ?)]; [|by eapply H2].
  destruct (Hd j E) as [E'|?]; [|done]. eapply H2; [by eapply list_elem_of_lookup_2|done].
Qed.

Lemma increment_ok s k b i m ok :
  system_ok s → sy_dials s !! k = Some (DialReady b i) → incPending (sy_now s) i (sy_mux s) = (m, ok) →
  system_ok (mkSystem m (<[k := if b || ok then DialPending ok (sy_now s) i else DialNew true]> (sy_dials s)) (sy_now s)).
Proof using.
  intros Hs Hk Hinc. pose proof Hs as [[ids Hsl] H2 H3 H4]. pose proof (list_elem_of_lookup_2 _ _ _ Hk) as Hin.
  destruct (H2 _ i Hin eq_refl) as [e He]. unfold incPending in Hinc. rewrite He in Hinc.
  destruct (IncPending (sy_now s) (mu_scheduler e)) as [c ok'] eqn:Ec. injection Hinc as <- ->.
  pose proof (IncPending_later (sy_now s) (mu_scheduler e)) as L. rewrite Ec in L. cbn [fst] in L.
  destruct (IncPending_spec _ _ _ _ Ec) as [Hyes Hno]. set (d' := if b || ok then _ else _).
  split; cbn.
  - exists ids. split; [apply Hsl|apply Hsl|]. eapply Forall_impl; [apply Hsl|]. intros j Hj. cbn. rewrite lookup_insert_is_Some'. by right.
  - intros x j Hx Hu. rewrite lookup_insert_is_Some'. right. eapply refs_dial; [exact Hs|exact Hk| |exact Hx|exact Hu].
    intros j' Hj'. left. unfold d' in Hj'. by destruct (b || ok).
  - intros j ej. rewrite lookup_insert_Some. intros [[<- <-]|[Hne Hej]].
    + specialize (H3 i e He). cbn. destruct ok.
      * destruct (Hyes eq_refl) as (Hp & Hl & Hd). unfold d'. rewrite orb_true_r. split.
        -- intros l. rewrite Hl. intros [= <-]. done.
        -- intros x t [->|Hx]%elem_of_insert_list Hh.
           ++ injection Hh as <-. split; [done|]. by exists (sy_now s).
           ++ destruct (sk_held _ _ _ _ H3 x t Hx Hh) as (Ht & l & El & ?). split; [done|]. exists (sy_now s). split; [done|lia].
        -- intros x t [->|Hx]%elem_of_insert_list Hh; [done|]. eapply (IsDisabled_later (sy_now s)); [done|exact L|by eapply H3].
        -- rewrite (dialsAt_insert i k _ _ _ Hk). cbn. unfold countedAt. cbn. rewrite Z.eqb_refl. cbn.
           destruct (sk_pending _ _ _ _ H3) as [E|E]; [left|right; lia]. by eapply (IsDisabled_later (sy_now s)).
      * destruct (Hno eq_refl) as [-> (td & Hd & Htd)].
        assert (IsDisabled (sy_now s) (mu_scheduler e) = true) as Hdis by (unfold IsDisabled, IsZero; rewrite Hd, Since_pos; cbn; lia).
        split; [by apply H3| | |by left].
        -- intros x t [->|Hx]%elem_of_insert_list Hh; [unfold d' in Hh; by destruct b|]. by eapply H3.
        -- by intros x t _ _.
    + apply (sched_ok_other _ _ _ (DialReady b i)); [by apply H3|done|done|]. intros b' t j' Hh ->. unfold d' in Hh.
      destruct (b || ok); cbn in Hh; [|done]. congruence.
  - intros _. apply H4. by eapply insert_dials_ne.
Qed.

Lemma decrement_ok s k ok t i r :
  system_ok s → sy_dials s !! k = Some (DialAdded ok t i r) →
  system_ok (mkSystem (decPending (sy_now s) i (sy_mux s)) (<[k := DialOver (pair i <$> r)]> (sy_dials s)) (sy_now s)).
Proof using.
  intros Hs Hk. pose proof Hs as [[ids Hsl] H2 H3 H4]. pose proof (list_elem_of_lookup_2 _ _ _ Hk) as Hin.
  destruct (H2 _ i Hin eq_refl) as [e He].
  assert (∀ j, is_Some (m_heap (sy_mux s) !! j) → is_Some (m_heap (decPending (sy_now s) i (sy_mux s)) !! j)) as Hdom.
  { intros j Hj. cbn. by apply lookup_alter_is_Some. }
  split; cbn.
  - exists ids. split; [apply Hsl|apply Hsl|]. eapply Forall_impl; [apply Hsl|]. intros j. apply Hdom.
  - intros x j Hx Hu. apply Hdom. eapply refs_dial; [exact Hs|exact Hk| |exact Hx|exact Hu]. done.
  - intros j ej. destruct (decide (j = i)) as [->|Hne].
    + rewrite lookup_alter_eq, He. intros [= <-]. specialize (H3 i e He). cbn. pose proof (DecPending_later (sy_now s) (mu_scheduler e)) as L. split.
      * by intros l [= <-].
      * intros x t' [->|Hx]%elem_of_insert_list Hh; [done|]. destruct (sk_held _ _ _ _ H3 x t' Hx Hh) as (Ht & _). split; [done|]. by exists (sy_now s).
      * intros x t' [->|Hx]%elem_of_insert_list Hh; [done|]. eapply IsDisabled_later; [done|exact L|by eapply H3].
      * destruct ok; [|left; eapply IsDisabled_later; [done|exact L|by eapply H3]].
        destruct (sk_pending _ _ _ _ H3) as [E|E]; [left; by eapply IsDisabled_later|right].
        rewrite (dialsAt_insert i k _ _ _ Hk). cbn. unfold countedAt. cbn. rewrite Z.eqb_refl. cbn. lia.
    + rewrite lookup_alter_ne by done. intros Hej. apply (sched_ok_move _ _ _ (DialAdded ok t i r)); [by apply H3|done|].
      right. split; [done|]. intros b t' j' [= _ _ <-] ->. done.
  - intros _. apply H4. by eapply insert_dials_ne.
Qed.

Lemma opened_ok s k b p t grow e m i :
  system_ok s → sy_dials s !! k = Some (DialOpening b p t) → unused (mu_scheduler e) → addUnderlay grow e (sy_mux s) = (m, i) →
  system_ok (mkSystem m (<[k := DialReady b i]> (sy_dials s)) (sy_now s)).
Proof using.
  intros Hs Hk [Hp Hl] Hadd. pose proof Hs as [[ids Hsl] H2 H3 H4].
  destruct (addUnderlay_spec _ _ _ _ _ _ Hsl Hadd) as (Hf & Hh & Hsl' & Em). split; cbn.
  - by exists (ids ++ [i]).
  - intros x j Hx Hu. rewrite Hh, lookup_insert_is_Some'. destruct (refs_insert _ _ _ _ _ Hx Hu) as [[= <-]|(d0 & ? & ?)]; [by left|right; by eapply H2].
  - intros j ej. rewrite Hh, lookup_insert_Some. intros [[<- <-]|[Hne Hej]].
    + assert (∀ x b' t', x ∈ <[k := DialReady b i]> (sy_dials s) → held x ≠ Some (b', t', i)) as Hno.
      { intros x b' t' [->|Hx]%elem_of_insert_list Hh'; [done|]. assert (underlayOf x = Some i) as Hu by (by destruct x; cbn in *; congruence).
        destruct (H2 x i Hx Hu) as [e' He']. congruence. }
      split; [by rewrite Hl|..]; [intros x t' Hx Hh'; by destruct (Hno _ _ _ Hx Hh')..|]. right. rewrite Hp.
      rewrite (dialsAt_insert i k _ _ _ Hk), dialsAt_none; [done|]. intros x j Hx Hu ->. destruct (H2 x i Hx Hu) as [e' He']. congruence.
    + by apply (sched_ok_move _ _ _ (DialOpening b p t)); [apply H3|done|left].
  - intros _. rewrite Em. cbn. apply H4. by eapply insert_dials_ne.
Qed.

(** A dial that changes to a state of the same underlay, or to none. *)
Lemma dial_moves s k d d' m' :
  system_ok s → sy_dials s !! k = Some d → held d' = held d → (∀ i, underlayOf d' = Some i → underlayOf d = Some i) →
  same_scheds (sy_mux s) m' → (∃ ids, slice_ok ids m') → m_isClient m' = m_isClient (sy_mux s) →
  system_ok (mkSystem m' (<[k := d']> (sy_dials s)) (sy_now s)).
Proof using.
  intros Hs Hk Hh Hu Hsame Hsl Hcl. apply (system_ok_same s); [done..| | |].
  - intros x i Hx Hi. destruct (refs_insert _ _ _ _ _ Hx Hi) as [E|?]; [|done]. exists d. split; [by eapply list_elem_of_lookup_2|by apply Hu].
  - intros now i c Hok. apply (sched_ok_move _ _ _ d); [done|done|by left].
  - apply insert_not_nil.
Qed.

Lemma addSession_effect micro sid jitterMs i (m m' : @Mux U) r :
  addSession micro sid jitterMs i m = (m', r) → same_scheds m m' ∧ m_underlays m' = m_underlays m ∧ m_isClient m' = m_isClient m.
Proof using.
  unfold addSession. destruct (m_heap m !! i) as [e|] eqn:He; [|by intros [= <- <-]]. destruct (_ ≫= _) as [u| |]; intros [= <- <-]; try done.
  split; [by apply same_scheds_update|done].
Qed.
Lemma Close_mux_effect e (m : @Mux U) :
  same_scheds m (Close_mux e m) ∧ m_isClient (Close_mux e m) = m_isClient m ∧ (m_underlays (Close_mux e m) = m_underlays m ∨ m_underlays (Close_mux e m) = emptySlice).
Proof using.
  unfold Close_mux. destruct (m_done m); [by split_and!; [|done|left]|]. split_and!; [|done|by right]. intros i. cbn.
  induction (elements (m_underlays m)) as [|[j|] l IH]; cbn; [done| |done].
  destruct (decide (i = j)) as [->|]; [|by rewrite lookup_alter_ne]. rewrite lookup_alter_eq, <-IH. by destruct (foldr _ _ _ !! _).
Qed.
Lemma empty_slice_ok (m : @Mux U) : m_underlays m = emptySlice → slice_ok [] m.
Proof using. intros E. split; [rewrite E; split; [done|by exists 0%nat]|constructor|constructor]. Qed.

Lemma begin_ok s ce draw m r now' :
  system_ok s → dialCheck (sy_mux s) = Ok tt → dialPick idle ce draw (sy_mux s) = Ok (m, r) → sy_now s <= now' →
  system_ok (mkSystem m (sy_dials s ++ [match r with Some i => DialReady false i | None => DialNew false end]) now').
Proof using LAWS.
  intros Hs Hchk Hpick Hn. pose proof (sy_slice _ Hs) as [ids Hsl].
  destruct (dialPick_spec ce draw _ _ _ ids Hsl Hpick) as (m1 & Hclean & _ & Hr).
  assert (system_ok (mkSystem ((sy_mux s)<|m_used := true|>) (sy_dials s) (sy_now s))) as Hs1.
  { destruct Hs as [_ H2 H3 H4]. split; [exists ids; by destruct Hsl|done..]. }
  pose proof (system_ok_clean (mkSystem ((sy_mux s)<|m_used := true|>) (sy_dials s) (sy_now s)) ce true m now' Hclean Hn Hs1) as Hs2. cbn [sy_dials] in Hs2.
  set (d := match r with Some _ => _ | None => _ end).
  assert (held d = None) as Hd by (unfold d; by destruct r).
  assert (∀ i, underlayOf d = Some i → is_Some (m_heap m !! i)) as Hu.
  { intros i Hi. unfold d in Hi. destruct r as [j|]; [|done]. injection Hi as ->. destruct (sy_slice _ Hs2) as [ids2 Hsl2].
    destruct (pick_usable _ _ _ _ _ Hsl2 Hr) as [Hin _]. exact (proj1 (Forall_forall _ _) (so_heap _ _ Hsl2) i Hin). }
  pose proof Hs2 as [Hsl2 H2 H3 H4]. split; cbn in *.
  - exact Hsl2.
  - intros x i [Hx|Hx%list_elem_of_singleton]%elem_of_app Hi; [by eapply H2|subst x; by apply Hu].
  - intros i e He. apply (sched_ok_dials now' (sy_dials s)); [by apply H3| |].
    + intros x b t [Hx|Hx%list_elem_of_singleton]%elem_of_app Hh; [by exists x|subst x; congruence].
    + rewrite dialsAt_app, dialsAt_one. unfold countedAt. rewrite Hd. cbn. lia.
  - intros _. destruct (cleanUnderlay_spec idle ce true ((sy_mux s)<|m_used := true|>) ids) as (sl & Hrun & _); [by destruct Hsl|].
    rewrite Hclean in Hrun. injection Hrun as ->. cbn. unfold dialCheck in Hchk. by destruct (m_isClient (sy_mux s)).
Qed.

Lemma muxStep_ok s s' : muxStep s s' → system_ok s → system_ok s'.
Proof using LAWS.
  intros Hstep Hs. pose proof (sy_slice _ Hs) as [ids Hsl].
  destruct Hstep as [ce draw m r now' Hchk Hpick Hn _|k b draw p t Hk _|k b p t grow e m i Hk Hu Hadd|k b p t e Hk|k b i m ok Hk Hinc|
    k ok t i micro sid jitterMs m r Hk Hadd|k ok t i r Hk|ce also m now' Hrun Hn _|i e u He|e|listen eps|now' Hn].
  - by eapply begin_ok.
  - apply (dial_moves s k (DialNew b)); [done..|by intros i|by exists ids|done].
  - by eapply opened_ok.
  - apply (dial_moves s k (DialOpening b p t)); [done..|by intros i|by exists ids|done].
  - by eapply increment_ok.
  - destruct (addSession_effect _ _ _ _ _ _ _ Hadd) as (H1 & H2 & H3). apply (dial_moves s k (DialPending ok t i)); [done..| |done].
    exists ids. by apply (slice_ok_same ids (sy_mux s)).
  - by eapply decrement_ok.
  - by eapply system_ok_clean.
  - apply (system_ok_same s); [done|by apply same_scheds_update| |done..|by eauto|done|done].
    exists ids. apply (slice_ok_same ids (sy_mux s)); [by apply same_scheds_update|done|done].
  - destruct (Close_mux_effect e (sy_mux s)) as (H1 & H2 & H3). apply (system_ok_same s); [done|done| |done..|by eauto|done|done].
    destruct H3 as [H3|H3]; [exists ids; by apply (slice_ok_same ids (sy_mux s))|exists []; by apply empty_slice_ok].
  - assert (∀ f : Mux → Mux, m_heap (f (sy_mux s)) = m_heap (sy_mux s) → m_underlays (f (sy_mux s)) = m_underlays (sy_mux s) →
      m_isClient (f (sy_mux s)) = m_isClient (sy_mux s) → system_ok (mkSystem (f (sy_mux s)) (sy_dials s) (sy_now s))) as Hf.
    { intros f E1 E2 E3. assert (same_scheds (sy_mux s) (f (sy_mux s))) as Hsame by (intros i; by rewrite E1).
      apply (system_ok_same s); [done|done| |done..|by eauto|done|done]. exists ids. by apply (slice_ok_same ids (sy_mux s)). }
    apply (Hf (λ m, (UpdateEndpoints listen eps m).1)); unfold UpdateEndpoints; destruct (m_done _); try done; by destruct (_ || _).
  - by apply system_ok_time.
Qed.
Lemma muxSteps_ok s s' : rtc muxStep s s' → system_ok s → system_ok s'.
Proof using LAWS. induction 1 as [|s1 s2 s3 Hst _ IH]; [done|]. intros Hs. by apply IH, (muxStep_ok s1). Qed.

(** A multiplexer that has not dialed. *)
Definition fresh_mux (m : @Mux U) : Prop := m_underlays m = emptySlice.
Definition started (m : @Mux U) (now : Z) : system := mkSystem m [] now.
Lemma started_ok m now : m_heap m = ∅ → m_underlays m = emptySlice → system_ok (started m now).
Proof using.
  intros Hh Hu. split; cbn; [exists []; by apply empty_slice_ok| | |done].
  - intros d i Hd. by apply not_elem_of_nil in Hd.
  - intros i e. by rewrite Hh, lookup_empty.
Qed.

(** The pending sessions of an underlay are exact: however many dials run at
    once, interleaved with cleaning, closing, changes of the underlays and time,
    an underlay that still takes sessions counts as pending exactly the dials
    that are between their [IncPending] and their [DecPending] at it, and the
    slice holds distinct underlays. *)
Theorem pending_is_exact (m : @Mux U) (now : Z) (s : system) :
  m_heap m = ∅ → m_underlays m = emptySlice → rtc muxStep (started m now) s →
  (∃ ids, slice_ok ids (sy_mux s)) ∧
  ∀ i e, m_heap (sy_mux s) !! i = Some e → IsDisabled (sy_now s) (mu_scheduler e) = false →
    pending (mu_scheduler e) = dialsAt i (sy_dials s).
Proof using LAWS.
  intros Hh Hu Hrtc. pose proof (muxSteps_ok _ _ Hrtc (started_ok m now Hh Hu)) as [Hsl _ Hsch _]. split; [done|].
  intros i e He Hdis. destruct (sk_pending _ _ _ _ (Hsch i e He)) as [E|E]; [congruence|done].
Qed.

(** C10. Cleaning does not pull an underlay from under a dial: an open underlay at
    which a dial has a pending session, counted no longer than
    [scheduleIdleTime] before the cleaning looks at it, stays in the slice and
    open, with its sessions, however dials, cleaning, closing and time
    interleaved before.  The bound is needed: [Idle] does not look at the pending
    count, so a dial that takes longer than that can lose its underlay. *)
Theorem pending_dial_keeps_underlay (m : @Mux U) (now : Z) (s : system) (d : dialState U) (t i : Z) (e : muxUnderlay) (ids : list Z) (ce : cleanEnv) (also : bool) :
  m_heap m = ∅ → m_underlays m = emptySlice → rtc muxStep (started m now) s → 0 <= idle < 2 ^ 63 - 1 →
  d ∈ sy_dials s → held d = Some (true, t, i) → slice_ok ids (sy_mux s) → i ∈ ids → m_heap (sy_mux s) !! i = Some e →
  ul_Done (mu_underlay e) = false → ce_now ce i <= t + idle →
  ∃ m' ids' e', cleanUnderlay idle ce also (sy_mux s) = Ok m' ∧ slice_ok ids' m' ∧ i ∈ ids' ∧ m_heap m' !! i = Some e' ∧
    mu_underlay e' = mu_underlay e.
Proof using LAWS.
  intros Hh Hu Hrtc Hidle Hd Hheld Hsl Hi He Hopen Hnow. pose proof (muxSteps_ok _ _ Hrtc (started_ok m now Hh Hu)) as [_ _ Hsch Hcl].
  destruct (sk_held _ _ _ _ (Hsch i e He) d t Hd Hheld) as (_ & l & Hl & Htl).
  assert (m_isClient (sy_mux s) = true) as Hclient by (apply Hcl; intros E; rewrite E in Hd; by apply not_elem_of_nil in Hd).
  assert (cleanAt idle ce also (sy_mux s) i e = ((if also then disableUnderlay idle (m_multiplexFactor (sy_mux s)) (ce_now ce i) e else e), true)) as Ec.
  { unfold cleanAt, cleanOne. rewrite Hopen, Hclient. cbn. rewrite (recent_not_idle idle (ce_now ce i) _ l) by (done || lia). rewrite andb_false_r. by destruct also, e. }
  assert (stays idle ce also (sy_mux s) i = true) as Hst by (unfold stays; by rewrite He, Ec).
  destruct (cleanUnderlay_spec idle ce also (sy_mux s) ids Hsl) as (sl & Hrun & Hsl').
  eexists _, (List.filter (stays idle ce also (sy_mux s)) ids), _. split; [exact Hrun|]. split; [by apply cleaned_ok|].
  split; [apply list_elem_of_In, filter_In; split; [by apply list_elem_of_In|done]|].
  cbn. rewrite cleanedHeap_lookup, He. cbn. rewrite bool_decide_eq_true_2 by done. rewrite Ec. split; [done|]. destruct also; [apply disable_underlay|done].
Qed.

(** What a client's cleaning does to the scheduler of an unused underlay. *)
Lemma disableUnderlay_unused factor now (e : @muxUnderlay U) d :
  ul_SessionCount (mu_underlay e) = 0 → disableTime (TryDisableIdle idle now (mu_scheduler e)).1 = Some d →
  mu_scheduler (disableUnderlay idle factor now e) = (TryDisableIdle idle now (mu_scheduler e)).1.
Proof using. intros Hc Hd. unfold disableUnderlay. rewrite Hc. cbn. unfold IsZero, DisableTime. by rewrite Hd. Qed.
Lemma client_cleanAt_unused ce (m : @Mux U) i e d :
  m_isClient m = true → ul_Done (mu_underlay e) = false → ul_SessionCount (mu_underlay e) = 0 →
  disableTime (TryDisableIdle idle (ce_now ce i) (mu_scheduler e)).1 = Some d →
  mu_scheduler (cleanAt idle ce true m i e).1 = (TryDisableIdle idle (ce_now ce i) (mu_scheduler e)).1.
Proof using LAWS.
  intros Hcl Hopen Hc Hd. unfold cleanAt, cleanOne. rewrite Hopen, Hcl. cbn [negb andb].
  assert (e<|mu_underlay := mu_underlay e|> = e) as -> by (by destruct e).
  destruct (_ && Idle _ _ _); cbn [fst]; [|by apply (disableUnderlay_unused _ _ _ d)].
  assert (ul_SessionCount (ul_Close (ce_close ce i) (mu_underlay e)) = 0) as Hc'.
  { rewrite ul_count. destruct (ul_close_done (ce_close ce i) (mu_underlay e)) as (_ & -> & _). by rewrite <-ul_count. }
  destruct e as [u c]. exact (disableUnderlay_unused _ _ (mkMuxUnderlay _ c) d Hc' Hd).
Qed.

(** An underlay that nobody uses is closed by two cleanings: if it has no
    session, no dial is pending, and its last dial is at least
    [scheduleIdleTime] ago, a client's cleaning disables it, and a cleaning more
    than [scheduleIdleTime] later closes it and takes it out of the slice,
    whatever happened in between to the rest, unless it got a session. *)
Theorem unused_underlay_closed (ce1 ce2 : cleanEnv) (also : bool) (m m1 m2 : @Mux U) (ids ids2 : list Z) (i : Z) (e e1 e2 : muxUnderlay) :
  0 <= idle < 2 ^ 63 - 1 → 0 <= ce_now ce2 i →
  slice_ok ids m → m_isClient m = true → i ∈ ids → m_heap m !! i = Some e →
  ul_Done (mu_underlay e) = false → ul_SessionCount (mu_underlay e) = 0 → pending (mu_scheduler e) <= 0 →
  (∀ l, lastScheduleTime (mu_scheduler e) = Some l → l + idle <= ce_now ce1 i) →
  (∀ d, disableTime (mu_scheduler e) = Some d → d <= ce_now ce1 i) →
  cleanUnderlay idle ce1 true m = Ok m1 → m_heap m1 !! i = Some e1 →
  slice_ok ids2 m2 → m_heap m2 !! i = Some e2 → mu_scheduler e2 = mu_scheduler e1 → ul_SessionCount (mu_underlay e2) = 0 →
  ce_now ce1 i + idle < ce_now ce2 i →
  ∃ m3 ids3, cleanUnderlay idle ce2 also m2 = Ok m3 ∧ slice_ok ids3 m3 ∧ ¬ (i ∈ ids3) ∧
    (i ∈ ids2 → ∃ e3, m_heap m3 !! i = Some e3 ∧ ul_Done (mu_underlay e3) = true).
Proof using LAWS.
  intros Hidle Hnow2 Hsl Hcl Hi He Hopen Hcount Hpend Hlast Hdis Hrun1 He1 Hsl2 He2 Hsame Hcount2 Hlater.
  assert (∃ d, disableTime (mu_scheduler e1) = Some d ∧ d <= ce_now ce1 i ∧ lastScheduleTime (mu_scheduler e1) = lastScheduleTime (mu_scheduler e)) as (d & Hd & Hdle & Hl1).
  { destruct (cleanUnderlay_spec idle ce1 true m ids Hsl) as (s1 & Hrun & _). rewrite Hrun1 in Hrun. injection Hrun as ->.
    cbn in He1. rewrite cleanedHeap_lookup, He in He1. cbn in He1. rewrite bool_decide_eq_true_2 in He1 by done. injection He1 as <-.
    destruct (unused_disabled idle (ce_now ce1 i) (mu_scheduler e)) as (d & Hd & Hl & Hnew); [done..|].
    rewrite (client_cleanAt_unused ce1 m i e d) by done.
    exists d. split; [done|]. split; [|done]. destruct (disableTime (mu_scheduler e)) as [d0|] eqn:E0; [|by rewrite Hnew].
    assert (d = d0) as ->; [|by apply Hdis]. pose proof (di_disabled _ _ (TryDisableIdle_disables idle (ce_now ce1 i) (mu_scheduler e)) d0 E0). congruence. }
  assert (stays idle ce2 also m2 i = false) as Hst.
  { unfold stays. rewrite He2. unfold cleanAt, cleanOne. destruct (ul_Done (mu_underlay e2)) eqn:Ed2; [done|].
    assert (Idle idle (ce_now ce2 i) (mu_scheduler e2) = true) as Hidl.
    { rewrite Hsame. apply (unused_idle _ _ _ d); [done|done|lia| |done]. intros l. rewrite Hl1. intros E. specialize (Hlast l E). lia. }
    assert (e2<|mu_underlay := mu_underlay e2|> = e2) as Eta by (by destruct e2).
    destruct (negb (m_isClient m2) && _); [destruct (ul_closeIfIdle _ _ _ _) as [u [|]] eqn:Ei; [done|]; apply ul_idle_kept in Ei as ->|].
    all: rewrite Eta, Hcount2, Hidl; by destruct also. }
  destruct (cleanUnderlay_spec idle ce2 also m2 ids2 Hsl2) as (s2 & Hrun2 & Hs2). eexists _, (List.filter (stays idle ce2 also m2) ids2).
  split; [exact Hrun2|]. split; [by apply cleaned_ok|]. split.
  - intros Hin. apply list_elem_of_In, filter_In in Hin as [_ Hin]. congruence.
  - intros Hin. cbn. rewrite cleanedHeap_lookup, He2. cbn. rewrite bool_decide_eq_true_2 by done. eexists. split; [reflexivity|].
    rewrite cleanAt_done. unfold stays in Hst. rewrite He2 in Hst. by rewrite Hst.
Qed.

(** ** One dial by itself *)

(** An underlay that is open and can take the session [sid] of a client. *)
Definition takes (sid : Z) (m : @Mux U) (i : Z) : Prop :=
  ∃ e, m_heap m !! i = Some e ∧ ul_Done (mu_underlay e) = false ∧ ul_client (mu_underlay e) = true ∧ ¬ (sid ∈ ul_sessions (mu_underlay e)).
(** Opening succeeds at every endpoint, with an underlay without sessions. *)
Record opens_ok (oe : openEnv) (m : @Mux U) : Prop := {
  op_draw : ∀ n, 0 < n → 0 <= oe_draw oe n < n;
  op_open : ∀ p, p ∈ m_endpoints m → ∃ e, oe_open oe (m_username m) (m_password m) p (m_trafficPattern m) = Ok e ∧
    ul_Done (mu_underlay e) = false ∧ ul_client (mu_underlay e) = true ∧ ul_sessions (mu_underlay e) = ∅
}.
(** What the steps of a dial leave as it is. *)
Definition same_settings (m m' : @Mux U) : Prop :=
  m_isClient m' = m_isClient m ∧ m_endpoints m' = m_endpoints m ∧ m_username m' = m_username m ∧ m_password m' = m_password m ∧
  m_trafficPattern m' = m_trafficPattern m ∧ m_done m' = m_done m ∧ m_multiplexFactor m' = m_multiplexFactor m.

Lemma opens_ok_same oe m m' : same_settings m m' → opens_ok oe m → opens_ok oe m'.
Proof using LAWS. intros (_ & E1 & E2 & E3 & E4 & _) [H1 H2]. split; [done|]. by rewrite E1, E2, E3, E4. Qed.

Lemma newUnderlay_ok oe m ids sid :
  slice_ok ids m → m_endpoints m ≠ [] → opens_ok oe m →
  ∃ m' i, newUnderlay oe m = (m', Ok i) ∧ slice_ok (ids ++ [i]) m' ∧ takes sid m' i ∧ same_settings m m'.
Proof using LAWS.
  intros Hsl Hne [Hdraw Hopen]. unfold newUnderlay, chooseEndpoint.
  assert (0 < len (m_endpoints m)) as Hlen by (destruct (m_endpoints m); [done|rewrite len_cons; pose proof (len_nonneg l); lia]).
  destruct (Z.leb_spec (len (m_endpoints m)) 0); [lia|]. specialize (Hdraw _ Hlen).
  destruct (lookup_lt_is_Some_2 (m_endpoints m) (Z.to_nat (oe_draw oe (len (m_endpoints m))))) as [p Hp]; [unfold len in *; lia|]. rewrite Hp.
  destruct (Hopen p) as (e & -> & He1 & He2 & He3); [by eapply list_elem_of_lookup_2|].
  destruct (addUnderlay (oe_grow oe) e m) as [m' i] eqn:Ea. destruct (addUnderlay_spec _ _ _ _ _ _ Hsl Ea) as (_ & Hh & Hsl' & Em).
  exists m', i. split; [done|]. split; [done|]. split; [|by rewrite Em].
  exists e. rewrite Hh, lookup_insert_eq, He3. split_and!; [done..|set_solver].
Qed.
Lemma incPending_takes now i m ids sid :
  slice_ok ids m → takes sid m i → let m' := (incPending now i m).1 in slice_ok ids m' ∧ takes sid m' i ∧ same_settings m m'.
Proof using LAWS.
  intros [H1 H2 H3] (e & He & Hd & Hc & Hs). unfold incPending. rewrite He. destruct (IncPending now _) as [c ok]. cbn.
  split; [|split; [exists (e<|mu_scheduler := c|>); cbn; by rewrite lookup_insert_eq|done]].
  split; [done|done|]. eapply Forall_impl; [exact H3|]. intros j Hj. cbn. rewrite lookup_insert_is_Some'. by right.
Qed.
Lemma addSession_takes micro sid jitterMs i m ids :
  slice_ok ids m → takes sid m i → sid ≠ 0 →
  ∃ m' e', addSession micro sid jitterMs i m = (m', Ok sid) ∧ slice_ok ids m' ∧ m_heap m' !! i = Some e' ∧ ul_Done (mu_underlay e') = false ∧
    sid ∈ ul_sessions (mu_underlay e').
Proof using LAWS.
  intros Hsl (e & He & Hd & Hc & Hs) Hsid. destruct (addSession micro sid jitterMs i m) as [m' r] eqn:Ea.
  pose proof Ea as (Hsame & Hu & _)%addSession_effect. unfold addSession in Ea. rewrite He in Ea.
  assert (∃ en, newSessionWithServerUserPolicy micro sid true (ul_MTU (mu_underlay e)) noPolicy (m_trafficPattern m) jitterMs = Ok en ∧
    id (e_session en) = sid ∧ fresh_session true en) as (en & Hen & Hid & Hf) by (eexists; split; [reflexivity|]; split; [done|by split]).
  rewrite Hen, bind_Ok in Ea. rewrite <-Hc in Hf. destruct (ul_add_fresh en None (mu_underlay e) Hf) as [u Hadd]; [by rewrite Hid|].
  rewrite Hadd in Ea. injection Ea as <- <-. destruct (ul_add_Ok _ _ _ _ Hadd) as (_ & Hs' & Hd' & _).
  eexists _, _. split; [done|]. split; [by apply (slice_ok_same ids m)|]. cbn. rewrite lookup_insert_eq. split; [done|]. cbn.
  rewrite Hd', Hs', Hid. split; [done|set_solver].
Qed.
Lemma dialOn_ok de i m ids :
  slice_ok ids m → i ∈ ids → takes (de_sessionID de) m i → m_endpoints m ≠ [] → opens_ok (de_second de) m → de_sessionID de ≠ 0 →
  ∃ m' i' e' ids', dialOn de i m = (m', Ok (i', de_sessionID de)) ∧ slice_ok ids' m' ∧ i' ∈ ids' ∧ m_heap m' !! i' = Some e' ∧
    ul_Done (mu_underlay e') = false ∧ de_sessionID de ∈ ul_sessions (mu_underlay e').
Proof using LAWS.
  intros Hsl Hi Ht Hne Hopen Hsid. unfold dialOn. pose proof (incPending_takes (de_inc de).1 i m ids _ Hsl Ht) as (Hsl1 & Ht1 & Hset1).
  destruct (incPending (de_inc de).1 i m) as [m1 ok]. cbn [fst] in *.
  assert (∃ m2 i' ids', (if ok then (m1, Ok i) else match newUnderlay (de_second de) m1 with
      | (m, Ok i) => ((incPending (de_inc de).2 i m).1, Ok i) | (m, r) => (m, r) end) = (m2, Ok i') ∧ slice_ok ids' m2 ∧ i' ∈ ids' ∧ takes (de_sessionID de) m2 i')
    as (m2 & i' & ids' & Erun & Hsl2 & Hi' & Ht2).
  { destruct ok; [by exists m1, i, ids|].
    destruct (newUnderlay_ok (de_second de) m1 ids (de_sessionID de) Hsl1) as (m2 & j & Hnew & Hsl2 & Ht2 & _);
      [destruct Hset1 as (_ & E & _); by rewrite E|by apply (opens_ok_same _ m)|].
    pose proof (incPending_takes (de_inc de).2 j m2 _ _ Hsl2 Ht2) as (Hsl3 & Ht3 & _). rewrite Hnew.
    eexists _, j, (ids ++ [j]). split; [done|]. split; [done|]. split; [set_solver|done]. }
  rewrite Erun. destruct (addSession_takes (de_micro de) (de_sessionID de) (de_jitterMs de) i' m2 ids' Hsl2 Ht2 Hsid) as (m3 & e' & -> & Hsl3 & He' & Hd' & Hs').
  eexists _, i', _, ids'. split; [done|]. split.
  - destruct Hsl3 as [H1 H2 H3]. split; [done|done|]. eapply Forall_impl; [exact H3|]. intros j Hj. cbn. by apply lookup_alter_is_Some.
  - split; [done|]. cbn. rewrite lookup_alter_eq, He'. split; [done|]. by cbn.
Qed.

Lemma cleanAt_stays ce also (m : @Mux U) i e : (cleanAt idle ce also m i e).2 = true → mu_underlay (cleanAt idle ce also m i e).1 = mu_underlay e.
Proof using LAWS.
  unfold cleanAt, cleanOne. destruct (ul_Done (mu_underlay e)); [done|].
  assert (e<|mu_underlay := mu_underlay e|> = e) as Eta by (by destruct e).
  destruct (negb (m_isClient m) && _); [destruct (ul_closeIfIdle _ _ _ _) as [u [|]] eqn:Ei; [done|]; apply ul_idle_kept in Ei as ->|].
  all: rewrite Eta; destruct (_ && Idle _ _ _); [done|]; intros _; destruct also; [apply disable_underlay|done].
Qed.

(** C9. A dial gets a session: on a client that has a password and endpoints, if
    opening an underlay works and the session's random id is neither zero nor in
    use, [DialContext] returns a session with that id, and it is in an open
    underlay of the slice, be that a reused one, a new one, or a second new one
    because the first choice was disabled in between. *)
Theorem dial_succeeds (de : dialEnv) (m : @Mux U) (ids : list Z) :
  slice_ok ids m → m_isClient m = true → m_password m ≠ [] → m_endpoints m ≠ [] →
  Forall (λ p, IsNilNetAddr (Some (ep_RemoteAddr p)) = false) (m_endpoints m) →
  0 <= m_multiplexFactor m → len ids * m_multiplexFactor m < 2 ^ 63 - 1 → (∀ n, 0 < n → 0 <= de_pick de n < n) →
  opens_ok (de_first de) m → opens_ok (de_second de) m → de_sessionID de ≠ 0 →
  (∀ i e, i ∈ ids → m_heap m !! i = Some e → ul_client (mu_underlay e) = true ∧ ¬ (de_sessionID de ∈ ul_sessions (mu_underlay e))) →
  ∃ m' i e ids', DialContext idle de m = (m', Ok (i, de_sessionID de)) ∧ slice_ok ids' m' ∧ i ∈ ids' ∧ m_heap m' !! i = Some e ∧
    ul_Done (mu_underlay e) = false ∧ de_sessionID de ∈ ul_sessions (mu_underlay e).
Proof using LAWS.
  intros Hsl Hcl Hpw Hne Hrem Hf Hfb Hpick Ho1 Ho2 Hsid Hall. unfold DialContext, dialCheck.
  assert (∀ {A} (l : list A), l ≠ [] → (len l =? 0) = false) as Hlen by (intros A [|x l] ?; [done|rewrite len_cons; pose proof (len_nonneg l); lia]).
  rewrite Hcl, !Hlen by done. cbn [negb].
  assert (existsb (λ p, IsNilNetAddr (Some (ep_RemoteAddr p))) (m_endpoints m) = false) as ->.
  { apply not_true_is_false. intros (p & Hp & E)%existsb_exists. apply list_elem_of_In in Hp. eapply Forall_forall in Hrem; [|exact Hp]. congruence. }
  set (m0 := m<|m_used := true|>). assert (slice_ok ids m0) as Hsl0 by (by destruct Hsl).
  destruct (cleanUnderlay_spec idle (de_clean de) true m0 ids Hsl0) as (s & Hclean & Hs).
  pose proof (cleaned_ok idle (de_clean de) true ids m0 s Hsl0 Hs) as Hsl1. unfold dialPick. fold m0. rewrite Hclean, bind_Ok.
  set (ids1 := List.filter _ ids) in *. set (m1 := cleaned _ _ _ _ _ _) in *.
  assert (same_settings m m1) as Hset by done.
  unfold maybePickExistingUnderlay. rewrite (active_spec (ce_now (de_clean de)) m1 ids1 Hsl1), bind_Ok. set (act := List.filter _ ids1).
  assert (len act <= len ids) as Hlact.
  { unfold act, ids1, len. pose proof (filter_length_le (usable (ce_now (de_clean de)) m1) (List.filter (stays idle (de_clean de) true m0) ids)).
    pose proof (filter_length_le (stays idle (de_clean de) true m0) ids). lia. }
  assert (m_endpoints m1 ≠ []) as Hne1 by (destruct Hset as (_ & E & _); by rewrite E).
  assert (∃ r, pickFrom (de_pick de) (m_multiplexFactor m1) act = Ok r ∧ ∀ i, r = Some i → i ∈ ids1 ∧ takes (de_sessionID de) m1 i) as (r & Hr & Hri).
  { assert (pickFrom (de_pick de) (m_multiplexFactor m1) act = Ok None ∨ ∃ i, pickFrom (de_pick de) (m_multiplexFactor m1) act = Ok (Some i)) as [->|[i Ei]].
    - change (m_multiplexFactor m1) with (m_multiplexFactor m). destruct (decide (m_multiplexFactor m = 0)) as [->|Hf0]; [by left|].
      pose proof (len_nonneg act). assert (len act * m_multiplexFactor m <= len ids * m_multiplexFactor m) as Hle by (apply Z.mul_le_mono_nonneg_r; lia).
      pose proof (Hpick (len act * m_multiplexFactor m + 1) ltac:(nia)) as Hd.
      pose proof (pickFrom_value (m_multiplexFactor m) act (de_pick de (len act * m_multiplexFactor m + 1)) ltac:(lia) ltac:(lia) ltac:(lia)) as Hv.
      assert (pickFrom (de_pick de) (m_multiplexFactor m) act = pickFrom (λ _, de_pick de (len act * m_multiplexFactor m + 1)) (m_multiplexFactor m) act) as ->.
      { unfold pickFrom. rewrite (i64_id (len act * m_multiplexFactor m)), (i64_id (len act * m_multiplexFactor m + 1)) by nia. done. }
      rewrite Hv. destruct (act !! _); [right; by eexists|by left].
    - by exists None.
    - exists (Some i). split; [done|]. intros j [= <-].
      assert (maybePickExistingUnderlay (ce_now (de_clean de)) (de_pick de) m1 = Ok (Some i)) as Hpk
        by (unfold maybePickExistingUnderlay; by rewrite (active_spec (ce_now (de_clean de)) m1 ids1 Hsl1), bind_Ok).
      destruct (pick_usable _ _ _ _ _ Hsl1 Hpk) as [Hi Hu]. split; [done|]. pose proof Hi as Hi0. unfold ids1 in Hi. apply list_elem_of_In, filter_In in Hi as [Hi Hst].
      apply list_elem_of_In in Hi. unfold usable in Hu. destruct (m_heap m1 !! i) as [e'|] eqn:He'; [|done]. apply andb_true_iff in Hu as [Hd _]. apply negb_true_iff in Hd.
      pose proof He' as He. cbn in He. rewrite cleanedHeap_lookup in He. cbn in He. apply fmap_Some in He as (e & He & E). rewrite bool_decide_eq_true_2 in E by done.
      unfold stays in Hst. cbn in Hst. rewrite He in Hst. exists e'. split; [done|]. split; [done|]. rewrite E, (cleanAt_stays _ _ _ _ _ Hst). by apply (Hall i e). }
  rewrite Hr, bind_Ok. destruct r as [i|].
  - destruct (Hri i eq_refl) as [Hi Ht]. destruct (dialOn_ok de i m1 ids1 Hsl1 Hi Ht Hne1) as (m' & i' & e' & ids' & H); [by apply (opens_ok_same _ m)|done|].
    by exists m', i', e', ids'.
  - destruct (newUnderlay_ok (de_first de) m1 ids1 (de_sessionID de) Hsl1 Hne1) as (m2 & i & -> & Hsl2 & Ht2 & Hset2); [by apply (opens_ok_same _ m)|].
    destruct (dialOn_ok de i m2 (ids1 ++ [i]) Hsl2) as (m' & i' & e' & ids' & H); [set_solver|done|destruct Hset2 as (_ & E & _); by rewrite E| |done|by exists m', i', e', ids'].
    apply (opens_ok_same _ m1); [done|by apply (opens_ok_same _ m)].
Qed.
End system.

(** ** Opening the underlays of the program *)

Section program.
Context `{BT : BTree} `{F : GoFloat} `{C : Crypto}.

(** [NewPacketUnderlay] of a client; [resolved]: the address of the server;
    [listened]: the outcome of [ListenPacket]; [now]: when both are done and
    [SetRemainingTime] reads the clock.  The scheduler is created with it:
    the cipher expires. *)
Definition NewPacketUnderlay (now : Z) (network : string) (resolved : result netAddr) (listened : option error) (mtu : Z) (blk : aeadBlockCipher)
    (trafficPattern : option TrafficPattern) (w : ServerUser.world) (fixedV : hintCache)
    : result (PacketUnderlay * ScheduleController) :=
  if negb (bool_decide (network ∈ ["udp"; "udp4"; "udp6"]%string)) then Err (Errorf "network is not supported by packet underlay") else
  if negb (IsStateless blk) then Err (Errorf "packet underlay block cipher must be stateless") else
  match resolved with
  | Err e => Err (Wrapf "ResolveUDPAddr() failed" e)
  | Panic m => Panic m
  | Ok serverAddr =>
    match listened with
    | Some e => Err (Wrapf "ListenPacket() failed" e)
    | None => Ok (mkPacketUnderlay (newBaseUnderlay true mtu trafficPattern) serverAddr (Some blk) None w fixedV,
                  SetRemainingTime now (KeyRefreshInterval `quot` 2) newScheduler)
    end
  end.

(** What the network and the package state are when an underlay is opened.  The
    clock is read twice: [ow_now] when the key is derived, [ow_opened] when the
    remaining time is set, after the name was resolved and the socket opened. *)
Record openWorld := mkOpenWorld {
  ow_now : Z;
  ow_opened : Z;
  ow_jitterMs : Z;
  ow_ciphers : cipherCache;
  ow_resolved : result netAddr;
  ow_connected : option error;    (* dialing, or listening for datagrams *)
  ow_users : ServerUser.world;
  ow_fixedV : hintCache
}.
Definition clientBlock (ow : openWorld) (username password : list Z) (stateless : bool) (t : option TrafficPattern) : result aeadBlockCipher :=
  match (BlockCipherFromPassword (ow_ciphers ow) password stateless (ow_now ow) (ow_jitterMs ow)).2 with
  | Ok block =>
    let block := SetBlockContext username block in
    Ok (if bool_decide (t = None) then block else SetNoncePattern (GetNonce t) block)
  | Err e => Err (Wrapf "cipher.BlockCipherFromPassword() failed" e)
  | Panic m => Panic m
  end.
(** The middle of [newUnderlay]. *)
Definition openUnderlay (ow : openWorld) (username password : list Z) (p : endpoint) (t : option TrafficPattern)
    : result (@muxUnderlay (StreamUnderlay + PacketUnderlay)) :=
  match ep_TransportProtocol p with
  | StreamTransport =>
    block ← clientBlock ow username password false t;
    match (match ow_connected ow with
           | Some e => Err (Wrapf "DialContext() failed" e)
           | None => NewStreamUnderlay (addr_Network (ep_RemoteAddr p)) (ep_MTU p) block t (ow_fixedV ow)
           end) with
    | Ok u => Ok (mkMuxUnderlay (inl u) newScheduler)
    | Err e => Err (Wrapf "NewTCPUnderlay() failed" e)
    | Panic m => Panic m
    end
  | PacketTransport =>
    block ← clientBlock ow username password true t;
    match NewPacketUnderlay (ow_opened ow) (addr_Network (ep_RemoteAddr p)) (ow_resolved ow) (ow_connected ow) (ep_MTU p) block t (ow_users ow)
            (ow_fixedV ow) with
    | Ok (u, c) => Ok (mkMuxUnderlay (inr u) c)
    | Err e => Err (Wrapf "NewUDPUnderlay() failed" e)
    | Panic m => Panic m
    end
  | UnknownTransport => Err (Errorf "unsupport transport protocol")
  end.
End program.

Section keys.
Context `{BT : BTree} `{F : GoFloat} `{CL : CryptoLaws}.

Lemma clientBlock_key ow username password t :
  cache_wf (ow_ciphers ow) → password ≠ [] →
  ∃ b, clientBlock ow username password true t = Ok b ∧ c_key b = keyAt password (Time_Round (ow_now ow) KeyRefreshInterval) ∧ IsStateless b = true.
Proof using CL.
  intros Hc Hp. unfold clientBlock, BlockCipherFromPassword.
  destruct (cache_lookup (ow_ciphers ow) password (ow_now ow) (ow_jitterMs ow) Hc Hp) as (cache' & e & -> & Hn & _).
  rewrite newBlockCipherList_spec in Hn by done. injection Hn as Hn. cbn [snd]. rewrite bind_Ok, <-Hn. cbn.
  eexists. split; [done|]. by destruct (bool_decide _).
Qed.

Lemma openUnderlay_packet ow username password p t a :
  cache_wf (ow_ciphers ow) → password ≠ [] → ep_TransportProtocol p = PacketTransport → addr_Network (ep_RemoteAddr p) = "udp"%string →
  ow_resolved ow = Ok a → ow_connected ow = None →
  ∃ u, openUnderlay ow username password p t = Ok (mkMuxUnderlay (inr u) (SetRemainingTime (ow_opened ow) (KeyRefreshInterval `quot` 2) newScheduler)) ∧
    u_done (base u) = false ∧ isClient_ u = true ∧ sessionMap (base u) = ∅.
Proof using CL.
  intros Hc Hp Htr Hnet Hres Hcon. unfold openUnderlay. rewrite Htr. destruct (clientBlock_key ow username password t Hc Hp) as (b & -> & _ & Hst).
  rewrite bind_Ok. unfold NewPacketUnderlay. rewrite Hnet, Hst, Hres, Hcon. cbn. by eexists.
Qed.

(** C31. No session is scheduled on a key that servers have dropped: if a client's
    packet underlay still takes a session, whatever was done to its scheduler
    since it was opened, then it was opened at most half of the refresh interval
    ago, and its key is one of the three that a server tries whose clock is off
    by at most the other half, less the time that passed between the derivation
    of the key and the end of the opening (the resolution of the name and the
    opening of the socket). *)
Theorem packet_session_key_known (ow : openWorld) (username password : list Z) (p : endpoint) (t : option TrafficPattern)
    (u : PacketUnderlay) (c c' c'' : ScheduleController) (now server : Z) :
  cache_wf (ow_ciphers ow) → password ≠ [] → ep_TransportProtocol p = PacketTransport →
  openUnderlay ow username password p t = Ok (mkMuxUnderlay (inr u) c) →
  rtc (λ c c', ∃ n, later n c c') c c' → IncPending now c' = (c'', true) →
  ow_now ow <= ow_opened ow <= now → Z.abs (server - now) + (ow_opened ow - ow_now ow) <= KeyRefreshInterval / 2 →
  now <= ow_opened ow + KeyRefreshInterval / 2 ∧
  ∃ b s, ublock u = Some b ∧ s ∈ saltTimes server ∧ c_key b = keyAt password s.
Proof using CL.
  intros Hc Hp Htr Hopen Hrtc Hinc Hnow Hskew. unfold openUnderlay in Hopen. rewrite Htr in Hopen.
  destruct (clientBlock_key ow username password t Hc Hp) as (b & Hb & Hkey & Hst). rewrite Hb, bind_Ok in Hopen.
  unfold NewPacketUnderlay in Hopen. destruct (negb (bool_decide _)); [done|]. rewrite Hst in Hopen. cbn in Hopen.
  destruct (ow_resolved ow) as [a|e|m]; [|done..]. destruct (ow_connected ow); [done|]. injection Hopen as <- <-.
  assert (disableTime c' = Some (ow_opened ow + KeyRefreshInterval `quot` 2)) as Hd.
  { clear -Hrtc. assert (∀ x y, rtc (λ c c', ∃ n, later n c c') x y → ∀ d, disableTime x = Some d → disableTime y = Some d) as H.
    { induction 1 as [|x y z [n Hl] _ IH]; [done|]. intros d Hd. apply IH. by apply (la_disabled _ _ _ Hl). }
    by apply (H _ _ Hrtc). }
  assert (IsDisabled now c' = false) as Hen.
  { apply negb_true_iff. rewrite <-IsDisabled_refuses. by rewrite Hinc. }
  unfold IsDisabled, IsZero in Hen. rewrite Hd, Since_pos in Hen. cbn in Hen. apply Z.ltb_ge in Hen. change (KeyRefreshInterval `quot` 2) with (KeyRefreshInterval / 2) in Hen.
  split; [done|]. destruct (skew_member (ow_now ow) server) as (s & Hs & E).
  - unfold KeyRefreshInterval, Minute, Second, Millisecond, Microsecond in *. change (2 * (60 * (1000 * (1000 * 1000))) / 2) with 60000000000 in *. lia.
  - exists b, s. split; [done|]. split; [done|]. by rewrite Hkey, E.
Qed.
End keys.

(** ** Examples: a client with one packet endpoint *)

#[local] Existing Instance taggedCrypto.
#[local] Existing Instance taggedCrypto_laws.
#[local] Existing Instance fractionFloat.
#[local] Existing Instance fractionFloat_laws.
#[local] Existing Instance listTree.

Abbreviation exampleUnderlay := (StreamUnderlay + PacketUnderlay)%type.
Definition example_idle : Z := 150 * Second.
Definition example_endpoint : endpoint := NewUnderlayProperties 1400 PacketTransport None (Some example_server_addr).
Definition example_openWorld : openWorld := mkOpenWorld example_now (example_now + Second) 5 ∅ (Ok example_server_addr) None example_world ∅.
Definition example_password : list Z := Eval vm_compute in HashPassword [113] [98].
Definition example_mux : @Mux exampleUnderlay :=
  (NewMux true)<|m_endpoints := [example_endpoint]|><|m_username := [98]|><|m_password := example_password|><|m_multiplexFactor := 2|>.
Definition example_openEnv : openEnv := mkOpenEnv (λ _, 0) (openUnderlay example_openWorld) (λ n, 2 * n)%nat.
Definition example_cleanEnv (now : Z) : cleanEnv := mkCleanEnv (λ _, now) (λ _ _, Lifecycle.example_env).
Definition example_dialEnv (now sid : Z) : dialEnv :=
  mkDialEnv (example_cleanEnv now) (λ _, 0) example_openEnv example_openEnv (now, now) now (now / Microsecond) sid 0.
Definition example_entry0 : @muxUnderlay exampleUnderlay := mkMuxUnderlay (inr example_client) newScheduler.
Definition example_mux1 : @Mux exampleUnderlay := example_mux<|m_heap := {[0 := example_entry0]}|><|m_underlays := mkSlice [Some 0; None] 1|>.

Lemma example_slice_ok (m : @Mux exampleUnderlay) e k :
  m_underlays m = mkSlice (Some 0 :: replicate k None) 1 → m_heap m !! 0 = Some e → slice_ok [0] m.
Proof.
  intros Hs He. split.
  - rewrite Hs. split; [done|by exists k].
  - apply NoDup_singleton.
  - apply Forall_singleton. by eexists.
Qed.
Lemma example_mux1_ok : slice_ok [0] example_mux1.
Proof. by apply (example_slice_ok _ example_entry0 1). Qed.
Lemma example_opens_ok m : m_endpoints m = [example_endpoint] → m_username m = [98] → m_password m = example_password →
  m_trafficPattern m = None → opens_ok example_openEnv m.
Proof.
  intros E1 E2 E3 E4. split; [intros n Hn; cbn; lia|]. rewrite E1, E2, E3, E4. intros p ->%list_elem_of_singleton.
  destruct (openUnderlay_packet example_openWorld [98] example_password example_endpoint None example_server_addr) as (u & E & H1 & H2 & H3).
  1: apply cache_wf_empty. 1: vm_compute; discriminate. 1-4: reflexivity.
  eexists. split; [exact E|]. split; [exact H1|]. split; [exact H2|]. change (dom (sessionMap (base u)) = ∅). by rewrite H3, dom_empty_L.
Qed.

Lemma cleaning_is_filter_witness :
  ∃ m', cleanUnderlay example_idle (example_cleanEnv example_now) true example_mux1 = Ok m' ∧ slice_ok [0] m'.
Proof.
  destruct (cleaning_is_filter example_idle (example_cleanEnv example_now) true example_mux1 [0] example_mux1_ok) as (m' & H1 & H2 & _).
  exists m'. split; [exact H1|]. exact H2.
Defined.

Lemma reuse_weights_witness :
  len (List.filter (λ n, bool_decide (pickFrom (λ _, n) 3 [7; 8] = Ok (Some 8))) (seqZ 0 (len [7; 8] * 3 + 1))) = 3.
Proof.
  destruct (reuse_weights 3 [7; 8]) as (_ & H & _).
  - apply (bool_decide_unpack _); vm_compute; exact I.
  - done.
  - done.
  - apply H. right. left.
Defined.

(** A dial that has counted its session at a new underlay. *)
Definition example_opened : @Mux exampleUnderlay := (addUnderlay (λ n, 2 * n)%nat example_entry0 (example_mux<|m_used := true|>)).1.
Definition example_dialing : system :=
  mkSystem (incPending example_now 0 example_opened).1 [DialPending true example_now 0] example_now.
Lemma example_reached : rtc (muxStep example_idle) (started example_mux example_now) example_dialing.
Proof.
  eapply rtc_l; [apply (StepBegin example_idle (started example_mux example_now) (example_cleanEnv example_now) (λ _, 0) (example_mux<|m_used := true|>) None example_now);
    [reflexivity|reflexivity|reflexivity|intros i; split; reflexivity]|].
  eapply rtc_l; [eapply (StepChoose _ _ 0%nat false (λ _, 0)); reflexivity|].
  eapply rtc_l; [eapply (StepOpened _ _ 0%nat false example_endpoint None (λ n, 2 * n)%nat example_entry0); [reflexivity|by split|reflexivity]|].
  eapply rtc_l; [eapply (StepIncrement _ _ 0%nat false 0 _ true); reflexivity|].
  apply rtc_refl.
Qed.

Lemma pending_is_exact_witness :
  ∃ e, m_heap (sy_mux example_dialing) !! 0 = Some e ∧ pending (mu_scheduler e) = dialsAt 0 (sy_dials example_dialing) ∧ dialsAt 0 (sy_dials example_dialing) = 1.
Proof.
  destruct (pending_is_exact example_idle example_mux example_now example_dialing) as [_ H]; [reflexivity|reflexivity|exact example_reached|].
  eexists. split; [reflexivity|]. split; [|reflexivity]. apply (H 0); reflexivity.
Defined.

Lemma pending_dial_keeps_underlay_witness :
  ∃ m' ids' e', cleanUnderlay example_idle (example_cleanEnv (example_now + 100 * Second)) true (sy_mux example_dialing) = Ok m' ∧
    slice_ok ids' m' ∧ 0 ∈ ids' ∧ m_heap m' !! 0 = Some e' ∧ mu_underlay e' = inr example_client.
Proof.
  apply (pending_dial_keeps_underlay example_idle example_mux example_now example_dialing (DialPending true example_now 0) example_now 0
    (mkMuxUnderlay (inr example_client) (IncPending example_now newScheduler).1) [0] (example_cleanEnv (example_now + 100 * Second)) true).
  - reflexivity.
  - reflexivity.
  - exact example_reached.
  - split; [discriminate|reflexivity].
  - left.
  - reflexivity.
  - eapply (example_slice_ok _ _ 0); reflexivity.
  - left.
  - reflexivity.
  - reflexivity.
  - vm_compute. discriminate.
Defined.

Lemma unused_underlay_closed_witness :
  ∃ m1 m3 ids3, cleanUnderlay example_idle (example_cleanEnv example_now) true example_mux1 = Ok m1 ∧
    cleanUnderlay example_idle (example_cleanEnv (example_now + 200 * Second)) true m1 = Ok m3 ∧ slice_ok ids3 m3 ∧ ¬ (0 ∈ ids3).
Proof.
  destruct (cleanUnderlay_spec example_idle (example_cleanEnv example_now) true example_mux1 [0] example_mux1_ok) as (sl & E1 & Hsl).
  pose proof (cleaned_ok example_idle (example_cleanEnv example_now) true [0] example_mux1 sl example_mux1_ok Hsl) as Hok.
  set (m1 := cleaned _ _ _ _ _ _) in *.
  assert (m_heap m1 !! 0 = Some (mkMuxUnderlay (inr example_client) (mkScheduler 0 None (Some example_now)))) as He.
  { unfold m1. cbn [m_heap]. change (cleanedHeap example_idle (example_cleanEnv example_now) true example_mux1 [0] !! 0 =
      Some (mkMuxUnderlay (inr example_client) (mkScheduler 0 None (Some example_now)))). rewrite cleanedHeap_lookup. reflexivity. }
  destruct (unused_underlay_closed example_idle (example_cleanEnv example_now) (example_cleanEnv (example_now + 200 * Second)) true example_mux1 m1 m1 [0] [0] 0
    example_entry0 (mkMuxUnderlay (inr example_client) (mkScheduler 0 None (Some example_now))) (mkMuxUnderlay (inr example_client) (mkScheduler 0 None (Some example_now))))
    as (m3 & ids3 & H1 & H2 & H3 & _).
  - split; [discriminate|reflexivity].
  - discriminate.
  - exact example_mux1_ok.
  - reflexivity.
  - left.
  - reflexivity.
  - reflexivity.
  - reflexivity.
  - discriminate.
  - discriminate.
  - discriminate.
  - exact E1.
  - exact He.
  - exact Hok.
  - exact He.
  - reflexivity.
  - reflexivity.
  - reflexivity.
  - exists m1, m3, ids3. split; [exact E1|]. split; [exact H1|]. split; [exact H2|exact H3].
Defined.

Lemma dial_succeeds_witness :
  ∃ m' i e ids', DialContext example_idle (example_dialEnv example_now 77) example_mux = (m', Ok (i, 77)) ∧ slice_ok ids' m' ∧ i ∈ ids' ∧
    m_heap m' !! i = Some e ∧ ul_Done (mu_underlay e) = false ∧ 77 ∈ ul_sessions (mu_underlay e).
Proof.
  apply (dial_succeeds example_idle (example_dialEnv example_now 77) example_mux []).
  - apply empty_slice_ok. reflexivity.
  - reflexivity.
  - vm_compute. discriminate.
  - discriminate.
  - apply Forall_singleton. reflexivity.
  - discriminate.
  - reflexivity.
  - intros n Hn. split; [reflexivity|exact Hn].
  - apply example_opens_ok; reflexivity.
  - apply example_opens_ok; reflexivity.
  - discriminate.
  - intros i e Hi. apply not_elem_of_nil in Hi. destruct Hi.
Defined.

Lemma packet_session_key_known_witness :
  ∃ u c b s, openUnderlay example_openWorld [98] example_password example_endpoint None = Ok (mkMuxUnderlay (inr u) c) ∧
    ublock u = Some b ∧ s ∈ saltTimes (example_now + 90 * Second) ∧ c_key b = keyAt example_password s.
Proof.
  destruct (openUnderlay_packet example_openWorld [98] example_password example_endpoint None example_server_addr) as (u & E & _).
  1: apply cache_wf_empty. 1: vm_compute; discriminate. 1-4: reflexivity.
  set (c := SetRemainingTime _ _ _) in E.
  destruct (packet_session_key_known example_openWorld [98] example_password example_endpoint None u c c
    (IncPending (example_now + 40 * Second) c).1 (example_now + 40 * Second) (example_now + 90 * Second)) as (_ & b & s & H1 & H2 & H3).
  - apply cache_wf_empty.
  - vm_compute. discriminate.
  - reflexivity.
  - exact E.
  - apply rtc_refl.
  - vm_compute. reflexivity.
  - split; apply (bool_decide_unpack _); vm_compute; exact I.
  - vm_compute. discriminate.
  - exists u, c, b, s. split; [exact E|]. split; [exact H1|]. split; [exact H2|exact H3].
Defined.

(** A dial that is opening its underlay while the multiplexer is closed adds it
    afterwards: nothing looks at [done] on this path, and closing again does
    nothing, so the underlay stays open. *)
Theorem dial_during_close_leaks :
  ∃ s, rtc (muxStep example_idle) (started example_mux example_now) s ∧ m_done (sy_mux s) = true ∧
    (∃ i e, elements (m_underlays (sy_mux s)) = [Some i] ∧ m_heap (sy_mux s) !! i = Some e ∧ ul_Done (mu_underlay e) = false) ∧
    ∀ e, Close_mux e (sy_mux s) = sy_mux s.
Proof.
  set (m1 := example_mux<|m_used := true|>). set (m2 := Close_mux (λ _ _, Lifecycle.example_env) m1).
  exists (mkSystem (addUnderlay (λ n, 2 * n)%nat example_entry0 m2).1 [DialReady false 0] example_now). split; [|split; [reflexivity|split]].
  - eapply rtc_l; [apply (StepBegin example_idle (started example_mux example_now) (example_cleanEnv example_now) (λ _, 0) m1 None example_now);
      [reflexivity|reflexivity|reflexivity|intros i; split; reflexivity]|].
    eapply rtc_l; [eapply (StepChoose _ _ 0%nat false (λ _, 0)); reflexivity|].
    eapply rtc_l; [apply (StepClose _ _ (λ _ _, Lifecycle.example_env))|].
    eapply rtc_l; [eapply (StepOpened _ _ 0%nat false example_endpoint None (λ n, 2 * n)%nat example_entry0); [reflexivity|by split|reflexivity]|].
    apply rtc_refl.
  - eexists 0, example_entry0. split; [reflexivity|]. split; reflexivity.
  - reflexivity.
Qed.

Lemma newEndpoints_elem old new p : p ∈ newEndpoints old new ↔ p ∈ new ∧ ¬ (p ∈ old).
Proof.
  unfold newEndpoints. rewrite !list_elem_of_In, filter_In, negb_true_iff, <-not_true_iff_false, existsb_exists. split.
  - intros [Hp Hn]. split; [done|]. intros Hin. apply Hn. exists p. by rewrite bool_decide_eq_true.
  - intros [Hp Hn]. split; [done|]. intros (q & Hq & E). by apply bool_decide_eq_true in E as <-.
Qed.
Lemma omap_either {A B : Type} (l : list (A * option B)) :
  (length (omap (λ x, match x.2 with None => Some x.1 | Some _ => None end) l) + length (omap snd l) = length l)%nat.
Proof. induction l as [|[a [b|]] l IH]; cbn; lia. Qed.

(** [UpdateEndpoints] of a running server keeps the old endpoints, in order, and
    adds only new ones; an endpoint that is asked for is listened to then, or its
    error is reported. *)
Theorem update_endpoints_spec {U : Type} (listen : nat → endpoint → option error) (endpoints : list endpoint) (m : @Mux U) :
  m_done m = false → m_isClient m = false → m_used m = true →
  let '(m', r) := UpdateEndpoints listen endpoints m in
  ∃ added errs, m_endpoints m' = m_endpoints m ++ added ∧ r = Ok errs ∧
    (length added + length errs = length (newEndpoints (m_endpoints m) endpoints))%nat ∧
    (∀ p, p ∈ added → p ∈ endpoints ∧ ¬ (p ∈ m_endpoints m)) ∧
    (∀ p, p ∈ endpoints → p ∈ m_endpoints m' ∨ ∃ k e, startListening (listen k) p = Some e ∧ e ∈ errs).
Proof.
  intros H1 H2 H3. unfold UpdateEndpoints. rewrite H1, H2, H3. cbn [orb negb]. set (results := attempts _ _).
  exists (omap (λ x, match x.2 with None => Some x.1 | Some _ => None end) results), (omap snd results).
  assert (∀ p r, (p, r) ∈ results ↔ ∃ k, newEndpoints (m_endpoints m) endpoints !! k = Some p ∧ r = startListening (listen k) p) as Hr.
  { intros p r. unfold results, attempts. rewrite list_elem_of_lookup. split.
    - intros (k & E). rewrite list_lookup_imap in E. destruct (_ !! k) as [q|] eqn:Eq; [|done]. cbn in E. inversion E; subst. by exists k.
    - intros (k & E & ->). exists k. by rewrite list_lookup_imap, E. }
  split_and!; [done|done| | |].
  - rewrite omap_either. unfold results, attempts. apply length_imap.
  - intros p Hp. apply newEndpoints_elem. apply list_elem_of_omap in Hp as ([q [e|]] & Hin & E); inversion E; subst.
    apply Hr in Hin as (k & Ek & _). by eapply list_elem_of_lookup_2.
  - intros p Hp. destruct (decide (p ∈ m_endpoints m)) as [|Hn]; [left; cbn; by apply elem_of_app; left|].
    assert (p ∈ newEndpoints (m_endpoints m) endpoints) as (k & Ek)%list_elem_of_lookup by by apply newEndpoints_elem.
    assert ((p, startListening (listen k) p) ∈ results) as Hin by (apply Hr; by exists k).
    destruct (startListening (listen k) p) as [e|] eqn:El.
    + right. exists k, e. split; [done|]. apply list_elem_of_omap. by eexists (_, _).
    + left. cbn. apply elem_of_app. right. apply list_elem_of_omap. by eexists (_, _).
Qed.
