(* ===== verification/Network.v ===== *)
(** * Two sessions and a network

    A client and a server session of one connection, each with its application,
    its loops and its closing goroutines, over packets.  A step is one
    operation of one side; a received segment is a copy of any segment that the
    peer has ever handed to its underlay, so the network may lose, duplicate,
    delay and reorder as it likes.  What it may not do is forge: the underlay
    authenticates every segment (Cipher.v).  Clocks, write failures, and quota
    outcomes are arbitrary at every step.

    The theorems are by induction over the steps, with the invariant of
    Delivery.v for both sides and the frame of Lifecycle.v for the requests to
    close that are under way. *)
From S2P Require Import Prelude MathExt Messages LowEntropy Metadata GoStd Ascii Cipher Segment GoFloat Congestion Session Hoare Delivery Lifecycle.

Section network.
Context `{B : BTree} `{F : GoFloat}.

(** One side: its session, everything that happened there, the bytes its
    application has read, and the closing goroutines that wait. *)
Record side := mkSide {
  sess : Session;
  trace : list event;
  got : list Z;
  pending : list closing;
  panicked : bool
}.

Definition panics {A} (r : result A) : bool := match r with Panic _ => true | _ => false end.
Definition okOr {A} (d : A) (r : result A) : A := match r with Ok a => a | _ => d end.

(** A step of side [x] whose operation ended in [o]. *)
Definition stepped {A} (x : side) (o : Session * list event * result A) (bytes : list Z) (pend : list closing) : side :=
  mkSide o.1.1 (trace x ++ o.1.2) (got x ++ bytes) pend (panicked x || panics o.2).

(** [y] is a copy of a segment that was sent, as the underlay hands it over:
    decoded metadata of the kind that fits, and the cipher of the user. *)
Definition arrives (u : list Z) (y x : segment) : Prop :=
  core x = core y ∧ seg_unAck x = seg_unAck y ∧ typed x ∧ (∀ b, seg_block x = Some b → c_userName b = u).

Inductive sideStep (u : list Z) (peer x : side) : side → Prop :=
  | StepWrite e b : sideStep u peer x (stepped x (Write e b (sess x)) [] (pending x))
  | StepRead e size : 0 <= size →
      sideStep u peer x (stepped x (Read e size (sess x)) (okOr [] (Read e size (sess x)).2) (pending x))
  | StepOutput e : sideStep u peer x (stepped x (runOutputOncePacket e (sess x)) [] (pending x))
  | StepInput e y seg : y ∈ sent (trace peer) → arrives u y seg →
      sideStep u peer x (stepped x (runInputOnce e seg (sess x)) [] (pending x))
  | StepCloseBegin g :
      sideStep u peer x (stepped x (closeBegin g (sess x)) [] (okOr NotClosing (closeBegin g (sess x)).2 :: pending x))
  | StepCloseFinish e c l r : pending x = l ++ c :: r →
      sideStep u peer x (stepped x (closeFinish e c (sess x)) [] (l ++ r))
  | StepDeadline t t' : sideStep u peer x (stepped x ((_ ← SetReadDeadline t; SetWriteDeadline t') (sess x)) [] (pending x)).

Record world := mkWorld { client : side; server : side }.
Inductive step (u : list Z) : world → world → Prop :=
  | StepClient c s c' : sideStep u s c c' → step u (mkWorld c s) (mkWorld c' s)
  | StepServer c s s' : sideStep u c s s' → step u (mkWorld c s) (mkWorld c s').

(** A session that was just attached: its user is not known yet, or is [u]. *)
Definition fresh (u : list Z) (cl : bool) (x : side) : Prop :=
  ∃ now id mtu tp jitter b s0,
    newSession now id cl mtu tp jitter = Ok s0 ∧ packetOverhead < mtu ∧
    (b = None ∨ ∃ c, b = Some c ∧ c_userName c = u) ∧
    x = mkSide ((attach PacketTransport s0).1.1<|block := b|>) [] [] [] false.
Definition initial (u : list Z) (w : world) : Prop := fresh u true (client w) ∧ fresh u false (server w).

(** Bytes carried by the segments a side has numbered. *)
Definition stream (x : side) : list Z := mjoin (seg_payload <$> hist (trace x)).
End network.

Section theorems.
Context `{BL : BTreeLaws} `{F : GoFloat}.

Definition pending_ok (x : side) (c : closing) : Prop :=
  match c with
  | NotClosing => True
  | ClosingQuietly => closeRequested (sess x) = true
  | ClosingWith seg _ => closeRequested (sess x) = true ∧ sendable (view_of (sess x)) (trace x) seg
  end.
Definition side_inv (lo : Z) (u : list Z) (peer x : side) : Prop :=
  IS (nextRecv (sess peer)) (hist (trace peer)) u lo (got x) (λ _, False) True (sess x) (trace x) ∧
  Forall (pending_ok x) (pending x) ∧ panicked x = false.

(** The peer has moved on. *)
Lemma Inv_peer n h u n' h' lo rd exc rm v tr :
  n <= n' → h `prefix_of` h' → Inv n h u lo rd exc rm v tr → Inv n' h' u lo rd exc rm v tr.
Proof.
  intros Hn [k ->] H. destruct H. split; try done.
  - intros Hc j Hj. apply i_kept; [done|lia].
  - intros x Hx. destruct (i_got x Hx). split; [by apply copy_of_app|done].
  - rewrite len_app. pose proof (len_nonneg k). lia.
  - rewrite i_bytes, take_app_le; [done|]. unfold len in *. lia.
Qed.
Lemma Inv_lo n h u lo lo' rd exc rm v tr :
  0 <= lo' <= vNextRecv v → Inv n h u lo rd exc rm v tr → Inv n h u lo' rd exc rm v tr.
Proof. intros Hl H. destruct H. split; try done. lia. Qed.

Lemma sendable_mono v tr v' ev x :
  vNextRecv v <= vNextRecv v' → sendable v tr x → sendable v' (tr ++ ev) x.
Proof.
  intros Hn (? & ? & Hc). split_and!; [done|lia|]. destruct Hc as [?|?]; [by left|right].
  rewrite hist_app. by apply copy_of_app.
Qed.

Lemma arrives_deliverable u peer y seg n' h' u' lo rd exc rm :
  IS n' h' u' lo rd exc rm (sess peer) (trace peer) → y ∈ sent (trace peer) → arrives u y seg → 0 < len u →
  deliverable (nextRecv (sess peer)) (hist (trace peer)) u seg.
Proof.
  intros HI Hy (Hc & Hua & Ht & Hb) Hu. destruct (i_sent _ _ _ _ _ _ _ _ _ HI y Hy) as (_ & Hn & Hs).
  split_and!; [done|rewrite Hua; exact Hn| |done|done].
  unfold core in Hc. injection Hc as E1 E2 E3. destruct Hs as [?|?]; [left; congruence|right].
  eapply copy_of_core; [|done]. unfold core. congruence.
Qed.

Abbreviation fullp u peer lo rd := (IS (nextRecv (sess peer)) (hist (trace peer)) u lo rd (λ _, False) True).

(** One operation [m] of side [x], from its triple and its frame. *)
Lemma stepped_ok {A} u peer x (m : M A) (f : A → list Z) bytes pend (P : Session → list event → Prop) :
  let lo := nextRecv (sess x) in
  (fullp u peer lo (got x) (sess x) (trace x) → P (sess x) (trace x)) →
  hoare P m (λ a, fullp u peer lo (got x ++ f a)) (λ _, fullp u peer lo (got x)) →
  frames m → side_inv 0 u peer x → bounded (trace x ++ (m (sess x)).1.2) →
  bytes = match (m (sess x)).2 with Ok a => f a | _ => [] end →
  (∀ c, c ∈ pend → c ∈ pending x ∨ pending_ok (stepped x (m (sess x)) bytes pend) c) →
  side_inv lo u peer (stepped x (m (sess x)) bytes pend).
Proof.
  intros lo HP Hm Hf (HI & Hp & Hn) Hb -> Hpend.
  assert (fullp u peer lo (got x) (sess x) (trace x)) as HI'.
  { eapply Inv_lo; [|exact HI]. subst lo. pose proof (Inv_nextRecv_nonneg _ _ _ _ _ _ _ _ _ HI). simpl in *. lia. }
  specialize (Hm _ _ (HP HI')). specialize (Hf (sess x)). unfold stepped, side_inv in *.
  destruct (m (sess x)) as [[s' ev] r]. simpl in *. specialize (Hm Hb).
  assert (fullp u peer lo (got x ++ match r with Ok a => f a | _ => [] end) s' (trace x ++ ev)) as Hfull.
  { destruct r; [done|by rewrite app_nil_r|done]. }
  split_and!; [done| |rewrite Hn; by destruct r].
  apply Forall_forall. intros c Hc. apply Hpend in Hc as [Hc|?]; [|done].
  rewrite Forall_forall in Hp. specialize (Hp c Hc). destruct c as [| |seg q]; cbn in *; [done|by apply (f_closeRequested _ _ Hf)|].
  destruct Hp as [Hp1 Hp2]. split; [by apply (f_closeRequested _ _ Hf)|].
  eapply sendable_mono; [|done]. destruct (i_nextRecv _ _ _ _ _ _ _ _ _ Hfull). simpl in *. lia.
Qed.

Lemma hoare_full_nil {A} n h u lo rd P (m : M A) :
  hoare P m (λ _, IS n h u lo rd (λ _, False) True) (λ _, IS n h u lo rd (λ _, False) True) →
  hoare P m (λ _, IS n h u lo (rd ++ []) (λ _, False) True) (λ _, IS n h u lo rd (λ _, False) True).
Proof. by rewrite app_nil_r. Qed.

Lemma side_step u peer x x' n' h' lo' rd' exc' rm' :
  0 < len u → bounded (trace peer) → bounded (trace x') →
  IS n' h' u lo' rd' exc' rm' (sess peer) (trace peer) → side_inv 0 u peer x →
  sideStep u peer x x' → side_inv (nextRecv (sess x)) u peer x'.
Proof.
  intros Hu Hbp Hbx HIp Hx Hs. destruct Hs as [e b|e size Hsz|e|e y seg Hy Ha|g|e c l r El|t t'].
  - eapply (stepped_ok u peer x (Write e b) (λ _, []));
      [|apply hoare_full_nil, hoare_Write|apply frames_Write|done|done| |by left]; [done|].
    by destruct (Write e b (sess x)).2.
  - eapply (stepped_ok u peer x (Read e size) (λ b, b)); [|by apply hoare_Read|apply frames_Read|done|done|done|by left]; done.
  - eapply (stepped_ok u peer x (runOutputOncePacket e) (λ _, []));
      [|apply hoare_full_nil|apply frames_runOutputOncePacket|done|done| |by left].
    2: { eapply hoare_conseq; [apply hoare_runOutputOncePacket|intros s tr _ H; exact H|intros a s tr H; exact H|by intros er s tr []]. }
    + done.
    + by destruct (_ (sess x)).2.
  - eapply (stepped_ok u peer x (runInputOnce e seg) (λ _, []));
      [|apply hoare_full_nil|apply frames_runInputOnce|done|done| |by left].
    2: { apply hoare_runInputOnce; [exact Hbp|]. eapply arrives_deliverable; eauto. }
    + done.
    + by destruct (_ (sess x)).2.
  - eapply (stepped_ok u peer x (closeBegin g) (λ _, [])); [|apply hoare_full_nil|apply frames_closeBegin|done|done|by destruct (_ (sess x)).2|].
    2: { eapply hoare_conseq; [eapply hoare_closeBegin|intros s tr _ H; exact H| |intros er s tr H; exact H].
         intros c s tr (HI & _ & Hc). by eapply Inv_closing; [|exact HI]. }
    + by apply IS_weak.
    + intros c [->|?]%elem_of_cons; [right|by left].
      destruct Hx as (HI & _ & _). apply IS_weak in HI.
      pose proof (hoare_closeBegin _ _ _ _ _ g (λ _ _ _, True) _ _ HI) as H; cbn beta in H.
      unfold stepped in *. destruct (closeBegin g (sess x)) as [[s' ev] [c| |]]; cbn; try done.
      destruct (H Hbx) as (_ & Hc & Hcr). by destruct c.
  - destruct Hx as (HI & Hp & Hn). pose proof Hp as Hp'. rewrite El in Hp'. apply Forall_app in Hp' as [_ [Hc _]%Forall_cons].
    assert (∀ c', c' ∈ l ++ r → c' ∈ pending x) as Hin.
    { intros c'. rewrite El, !elem_of_app, elem_of_cons. tauto. }
    assert (c = NotClosing ∨ c ≠ NotClosing) as [->|Hnc] by (destruct c; auto).
    { eapply (stepped_ok u peer x (closeFinish e NotClosing) (λ _, [])); [|apply hoare_full_nil|apply frames_closeFinish|done|done|done|auto].
      2: by apply hoare_ret.
      done. }
    eapply (stepped_ok u peer x (closeFinish e c) (λ _, [])); [|apply hoare_full_nil, hoare_closeFinish|apply frames_closeFinish|done|done|by destruct (_ (sess x)).2|auto].
    intros HIx. split; [by eapply IS_weak|]. destruct c; cbn in Hc; tauto || done.
  - eapply (stepped_ok u peer x (_ ← SetReadDeadline t; SetWriteDeadline t') (λ _, []) _ _ (fullp u peer (nextRecv (sess x)) (got x))); [|apply hoare_full_nil| |done|done| |by left].
    2: { apply hoare_modify_bind. apply hoare_modify. by intros s tr (s0 & HI & ->). }
    + done.
    + intros s. by split.
    + done.
Qed.

Lemma sideStep_frame u peer x x' :
  sideStep u peer x x' → ∃ ev, trace x' = trace x ++ ev.
Proof. intros []; unfold stepped; cbn; by eexists. Qed.

Lemma attach_init t s :
  state s = sessionInit → (attach t s).1.1 = s<|transportProtocol := t|><|state := sessionAttached|>.
Proof.
  intros Hs. change ((attach t s).1.1) with
    (if sessionAttached <=? state s then s<|transportProtocol := t|> else s<|transportProtocol := t|><|state := sessionAttached|>).
  by rewrite Hs.
Qed.

Lemma newSession_facts now id cl mtu0 tp jitter s0 :
  newSession now id cl mtu0 tp jitter = Ok s0 →
  state s0 = sessionInit ∧ mtu s0 = mtu0 ∧ nextSend s0 = 0 ∧ nextRecv s0 = 0 ∧ unreadBuf s0 = [] ∧
  (tree_ok segmentSendQueueTreeCapacity (sendQueue s0) ∧ items (sendQueue s0) = []) ∧
  (tree_ok segmentTreeCapacity (sendBuf s0) ∧ items (sendBuf s0) = []) ∧
  (tree_ok segmentTreeCapacity (recvBuf s0) ∧ items (recvBuf s0) = []) ∧
  (tree_ok segmentTreeCapacity (recvQueue s0) ∧ items (recvQueue s0) = []).
Proof.
  intros Hs. unfold newSession in Hs.
  destruct (newSegmentTree_spec segmentSendQueueTreeCapacity eq_refl) as (q & Eq & Iq & Cq & Oq).
  destruct (newSegmentTree_spec segmentTreeCapacity eq_refl) as (t & Et & It & Ct & Ot).
  rewrite Eq, Et in Hs. rewrite !bind_Ok in Hs. unfold NewCubicSendAlgorithm in Hs.
  destruct (minWindow >? maxWindow); [done|]. rewrite bind_Ok in Hs. injection Hs as <-.
  by split_and!.
Qed.

Lemma attached_view s t b :
  view_of (s<|transportProtocol := t|><|state := sessionAttached|><|block := b|>) =
  mkView t (isClient s) (mtu s) b (nextSend s) (sendQueue s) (sendBuf s) (closeRequested s)
    (reserved (s<|transportProtocol := t|><|state := sessionAttached|><|block := b|>)) (recvBuf s) (recvQueue s) (nextRecv s) (unreadBuf s).
Proof. reflexivity. Qed.

Lemma fresh_inv u cl peer x :
  hist (trace peer) = [] → nextRecv (sess peer) = 0 → fresh u cl x → side_inv 0 u peer x.
Proof.
  intros Hh Hn (now & id & mtu0 & tp & jitter & b & s0 & Hs & Hmtu & Hb & ->).
  apply newSession_facts in Hs as (Es & Em & En & Er & Eu & [Oq Iq] & [Ot It] & [Orb Irb] & [Orq Irq]).
  rewrite attach_init by done. unfold side_inv, IS. rewrite Hh, Hn. split_and!; [|constructor|done].
  cbn [sess trace got]. rewrite attached_view. split;
    cbn [vTransport vMtu vBlock vNextSend vSendQueue vSendBuf vCloseRequested vReserved vRecvBuf vRecvQueue vNextRecv vUnread];
    rewrite ?Iq, ?It, ?Irb, ?Irq, ?Er, ?Eu, ?En, ?Em; try done.
  - by destruct Hb as [->|(c & -> & <-)]; [|intros ? [= <-]].
  - by intros x [?%elem_of_nil|?%elem_of_nil].
  - by intros x ?%elem_of_nil.
  - intros _ k ?. lia.
  - by intros x [?%elem_of_nil|?%elem_of_nil].
  - by intros x ?%elem_of_nil.
Qed.

Definition world_inv (u : list Z) (w : world) : Prop :=
  side_inv 0 u (server w) (client w) ∧ side_inv 0 u (client w) (server w).

Lemma side_inv_peer u peer peer' x :
  nextRecv (sess peer) <= nextRecv (sess peer') → (∃ ev, trace peer' = trace peer ++ ev) →
  side_inv 0 u peer x → side_inv 0 u peer' x.
Proof.
  intros Hn [ev Ev] (HI & Hp & Hpan). split_and!; [|done|done]. eapply Inv_peer; [exact Hn| |exact HI].
  rewrite Ev, hist_app. by apply prefix_app_r.
Qed.
Lemma side_inv_next lo u peer x : 0 <= lo → side_inv lo u peer x → lo <= nextRecv (sess x) ∧ side_inv 0 u peer x.
Proof.
  intros Hlo (HI & Hp & Hpan). destruct (i_nextRecv _ _ _ _ _ _ _ _ _ HI) as [Hl _]. simpl in Hl.
  split; [lia|]. split_and!; [|done|done]. eapply Inv_lo; [|exact HI]. simpl. lia.
Qed.
Lemma side_inv_nonneg lo u peer x : side_inv lo u peer x → 0 <= nextRecv (sess x).
Proof. intros (HI & _). exact (Inv_nextRecv_nonneg _ _ _ _ _ _ _ _ _ HI). Qed.

Lemma world_step u w w' :
  0 < len u → bounded (trace (client w')) → bounded (trace (server w')) → world_inv u w → step u w w' → world_inv u w'.
Proof.
  intros Hu Hc Hs [Ic Is] Hst. destruct Hst as [c s c' Hst|c s s' Hst]; cbn in *.
  - pose proof (side_inv_nonneg _ _ _ _ Ic).
    pose proof (side_step u s c c' _ _ _ _ _ _ Hu Hs Hc (proj1 Is) Ic Hst) as [Hle Ic']%side_inv_next; [|done].
    split; [done|]. eapply side_inv_peer; [exact Hle|by eapply sideStep_frame|done].
  - pose proof (side_inv_nonneg _ _ _ _ Is).
    pose proof (side_step u c s s' _ _ _ _ _ _ Hu Hc Hs (proj1 Ic) Is Hst) as [Hle Is']%side_inv_next; [|done].
    split; [|done]. eapply side_inv_peer; [exact Hle|by eapply sideStep_frame|done].
Qed.

Lemma reachable_inv u w w' :
  0 < len u → initial u w → rtc (step u) w w' → bounded (trace (client w')) → bounded (trace (server w')) → world_inv u w'.
Proof.
  intros Hu Hi Hr. revert w' Hr.
  apply (rtc_ind_r (λ w', bounded (trace (client w')) → bounded (trace (server w')) → world_inv u w') w);
    [intros Hc Hs|intros w1 w2 _ Hst IH Hc Hs].
  - destruct w as [c s], Hi as [Hfc Hfs]; cbn in *.
    pose proof Hfc as (? & ? & ? & ? & ? & ? & ? & Hns & _ & _ & Ec). pose proof Hfs as (? & ? & ? & ? & ? & ? & ? & Hns' & _ & _ & Es).
    assert (∀ now id cl mtu tp jitter s0 b, newSession now id cl mtu tp jitter = Ok s0 →
      nextRecv ((attach PacketTransport s0).1.1<|block := b|>) = 0) as Hz.
    { intros ? ? ? ? ? ? s0 ? (Es0 & _ & _ & En & _)%newSession_facts. by rewrite attach_init. }
    split; (eapply fresh_inv; [| |done]); subst; cbn [trace sess]; try done; by eapply Hz.
  - eapply world_step; [done..| |done]. apply IH.
    + destruct Hst as [c s c' Hst|]; [|done]. apply sideStep_frame in Hst as [ev E]. cbn in *. rewrite E in Hc. by eapply bounded_app.
    + destruct Hst as [|c s s' Hst]; [done|]. apply sideStep_frame in Hst as [ev E]. cbn in *. rewrite E in Hs. by eapply bounded_app.
Qed.

Lemma side_delivers lo u peer x : side_inv lo u peer x → got x `prefix_of` stream peer.
Proof.
  intros (HI & _). pose proof (i_bytes _ _ _ _ _ _ _ _ _ HI) as Hb. cbn in Hb. unfold stream.
  rewrite <-(take_drop (Z.to_nat (nextRecv (sess x))) (hist (trace peer))), fmap_app, join_app, <-Hb, <-app_assoc.
  by eexists.
Qed.

(** C1. Reliable, ordered delivery over a network that may lose, duplicate and
    reorder packets: whatever two attached sessions do and whatever the
    network, the clocks and the underlay's failures are, what each application
    has read is a prefix of the bytes its peer has numbered, in order and
    without gaps or repetitions; and no operation panics.  (While each side
    numbers fewer than 2^32 segments.) *)
Theorem reliable_delivery (u : list Z) (w w' : world) :
  0 < len u → initial u w → rtc (step u) w w' → bounded (trace (client w')) → bounded (trace (server w')) →
  got (client w') `prefix_of` stream (server w') ∧ got (server w') `prefix_of` stream (client w') ∧
  panicked (client w') = false ∧ panicked (server w') = false.
Proof.
  intros Hu Hi Hr Hc Hs. destruct (reachable_inv u w w' Hu Hi Hr Hc Hs) as [Ic Is].
  split_and!; [by eapply side_delivers|by eapply side_delivers|apply Ic|apply Is].
Qed.

(** C29. Nothing is given up before it has arrived: in every reachable state, a
    side that was not asked to close holds, in its send queue or its
    retransmission buffer, a copy of every segment it has numbered and its
    peer has not yet put in order. *)
Theorem unreceived_is_held (u : list Z) (w w' : world) (k : Z) :
  0 < len u → initial u w → rtc (step u) w w' → bounded (trace (client w')) → bounded (trace (server w')) →
  let c := sess (client w') in let s := sess (server w') in
  (closeRequested c = false → nextRecv s <= k < nextSend c →
   ∃ x, (x ∈ items (sendQueue c) ∨ x ∈ items (sendBuf c)) ∧ Seq x = k ∧ copy_of (hist (trace (client w'))) x) ∧
  (closeRequested s = false → nextRecv c <= k < nextSend s →
   ∃ x, (x ∈ items (sendQueue s) ∨ x ∈ items (sendBuf s)) ∧ Seq x = k ∧ copy_of (hist (trace (server w'))) x).
Proof.
  intros Hu Hi Hr Hc Hs. destruct (reachable_inv u w w' Hu Hi Hr Hc Hs) as [[Ic _] [Is _]]. cbv zeta.
  assert (∀ n h rd s tr, IS n h u 0 rd (λ _, False) True s tr → closeRequested s = false → n <= k < nextSend s →
    ∃ x, (x ∈ items (sendQueue s) ∨ x ∈ items (sendBuf s)) ∧ Seq x = k ∧ copy_of (hist tr) x) as H.
  { intros n h rd s tr HI Hcr Hk. destruct (i_kept _ _ _ _ _ _ _ _ _ HI Hcr k Hk) as [[]|(x & Hx & E)].
    exists x. split_and!; [done|done|]. by apply (i_stored _ _ _ _ _ _ _ _ _ HI). }
  split; intros; by eapply H.
Qed.
End theorems.

(** ** A run

    The client writes three bytes, which travel in the open session request;
    its output loop sends it, the server receives it and reads. *)
Module Example.
#[local] Existing Instance listTree.
#[local] Existing Instance listTree_laws.
#[local] Existing Instance fractionFloat.

Definition new (cl : bool) : { s | newSession 1000000 7 cl 1400 None 1000 = Ok s }.
Proof. eexists. reflexivity. Defined.
Definition start (cl : bool) : side :=
  mkSide ((attach PacketTransport (proj1_sig (new cl))).1.1<|block := None|>) [] [] [] false.
Definition at_ (t : Z) : env := mkEnv t (λ _, WOk) true 1000.
Definition user : list Z := [117].

Definition wrote : side := stepped (start true) (Write (at_ 1000100) [1; 2; 3] (sess (start true))) [] [].
Definition flushed : side := stepped wrote (runOutputOncePacket (at_ 1000200) (sess wrote)) [] [].
Definition packet : segment := default (example_segment 0) (head (sent (trace flushed))).
Definition received : side := stepped (start false) (runInputOnce (at_ 1000300) packet (sess (start false))) [] [].
Definition read : side :=
  stepped received (Read (at_ 1000400) 10 (sess received)) (okOr [] (Read (at_ 1000400) 10 (sess received)).2) [].

Definition world0 : world := mkWorld (start true) (start false).
Definition world1 : world := mkWorld wrote (start false).
Definition world2 : world := mkWorld flushed read.

Lemma fresh_start cl : fresh user cl (start cl).
Proof.
  exists 1000000, 7, 1400, None, 1000, None, (proj1_sig (new cl)).
  split_and!; [exact (proj2_sig (new cl))|done|by left|done].
Qed.
Lemma initial0 : initial user world0.
Proof. split; apply fresh_start. Qed.
Lemma reach1 : rtc (step user) world0 world1.
Proof. eapply rtc_once, StepClient, StepWrite. Qed.
Lemma arrives_packet : packet ∈ sent (trace flushed) ∧ arrives user packet packet.
Proof.
  assert (head (sent (trace flushed)) = Some packet) as E by (vm_compute; reflexivity).
  split; [destruct (sent (trace flushed)); [done|]; injection E as ->; by left|].
  split_and!; [done|done| |]; vm_compute; done.
Qed.
Lemma reach2 : rtc (step user) world0 world2.
Proof.
  etrans; [apply reach1|]. destruct arrives_packet as [Hs Ha].
  eapply rtc_l; [eapply StepClient, (StepOutput _ _ wrote (at_ 1000200))|].
  eapply rtc_l; [eapply StepServer, (StepInput _ _ (start false) (at_ 1000300) packet packet); [exact Hs|exact Ha]|].
  eapply rtc_l; [eapply StepServer, (StepRead _ _ received (at_ 1000400) 10); done|]. apply rtc_refl.
Qed.
End Example.
#[local] Existing Instance listTree.
#[local] Existing Instance listTree_laws.
#[local] Existing Instance fractionFloat.

Lemma reliable_delivery_witness :
  initial Example.user Example.world0 ∧ rtc (step Example.user) Example.world0 Example.world2 ∧
  got (server Example.world2) = [1; 2; 3] ∧
  got (server Example.world2) `prefix_of` stream (client Example.world2).
Proof.
  split_and!; [apply Example.initial0|apply Example.reach2|vm_compute; reflexivity|].
  destruct (reliable_delivery Example.user Example.world0 Example.world2) as (_ & H & _);
    [done|apply Example.initial0|apply Example.reach2|vm_compute; reflexivity..|exact H].
Defined.

Lemma unreceived_is_held_witness :
  ∃ x, (x ∈ items (sendQueue (sess (client Example.world1))) ∨ x ∈ items (sendBuf (sess (client Example.world1)))) ∧
    Seq x = 0 ∧ copy_of (hist (trace (client Example.world1))) x.
Proof.
  destruct (unreceived_is_held Example.user Example.world0 Example.world1 0) as [H _];
    [done|apply Example.initial0|apply Example.reach1|vm_compute; reflexivity..|].
  apply H; [vm_compute; reflexivity|]. split; [vm_compute; congruence|vm_compute; reflexivity].
Defined.
