(* ===== verification/Writing.v ===== *)
(** * What a write numbers

    [Write] cuts the application's bytes into segments.  The theorems of
    Network.v are about the bytes a side has numbered; here these are shown to
    be exactly the bytes that were written, cut into fragments of the size the
    transport carries and counted down to zero. *)
From S2P Require Import Prelude MathExt Messages LowEntropy Metadata GoStd Ascii Cipher Segment GoFloat Congestion Session Hoare.

(** The bytes of the segments numbered in a list of events. *)
Definition written (ev : list event) : list Z := mjoin (seg_payload <$> hist ev).

Lemma written_app ev ev' : written (ev ++ ev') = written ev ++ written ev'.
Proof. unfold written. by rewrite hist_app, fmap_app, join_app. Qed.

(** Fragments of at most [size] bytes, numbered from [seq] and counted down
    from [n - 1]. *)
Fixpoint fragmented (size seq : Z) (n : nat) (l : list segment) {struct l} : Prop :=
  match l, n with
  | [], _ => True
  | x :: l, S n => len (seg_payload x) <= size ∧ Seq x = seq ∧ Fragment x = u8 (Z.of_nat n) ∧ fragmented size (u32 (seq + 1)) n l
  | _ :: _, O => False
  end.

Section writing.
Context `{B : BTree} `{F : GoFloat}.

Lemma insertSendQueue_events seg s : ∃ s' r, insertSendQueue seg s = (s', [], r) ∧ nextSend s' = nextSend s.
Proof.
  unfold insertSendQueue, gets, lift, modify, ret, mbind, M_bind. destruct (Insert seg (sendQueue s)) as [[ok t]| |]; by eexists _, _.
Qed.

(** One round of the fragment loop. *)
Lemma writeFragments_S e lm lr le size n ptr s :
  let part := slice_to (Min size (len ptr)) ptr in
  writeFragments e (lm, lr, le) size (S n) ptr s =
  match writeStopped e s with
  | Some err => (s, [], Err err)
  | None =>
    match (if le then lowEntropyEncodedPayloadLen (Min size (len ptr)) lm else Ok (u16 (Min size (len ptr)))) with
    | Err er => (s, [], Err er)
    | Panic p => (s, [], Panic p)
    | Ok pl =>
      let x := dataSegment s lm lr le (Z.of_nat n) pl part (nextSend s) in
      match insertSendQueue x (s<|nextSend := u32 (nextSend s + 1)|>) with
      | (s2, e1, Ok true) =>
        let '(s3, e3, r3) := writeFragments e (lm, lr, le) size n (slice_from (Min size (len ptr)) ptr) s2 in
        (s3, Numbered x :: e1 ++ e3, r3)
      | (s2, e1, Ok false) => (s2, Numbered x :: e1, Err (Errorf "insert to send queue failed"))
      | (s2, e1, Err er) => (s2, Numbered x :: e1, Err er)
      | (s2, e1, Panic p) => (s2, Numbered x :: e1, Panic p)
      end
    end
  end.
Proof.
  cbv zeta. cbn [writeFragments]. unfold number, fail, gets, lift, modify, log, ret, mret, M_ret, mbind, M_bind.
  destruct (writeStopped e s); [done|].
  set (pl := if le then lowEntropyEncodedPayloadLen (Min size (len ptr)) lm else Ok (u16 (Min size (len ptr)))).
  assert (∀ X, (if le then (λ s0 : Session, (s0, [] : list event, lowEntropyEncodedPayloadLen (Min size (len ptr)) lm))
            else (λ s0 : Session, (s0, [], Ok (u16 (Min size (len ptr)))))) X = (X, [], pl)) as -> by (intros; by destruct le).
  destruct pl as [pl'| |]; [|done..].
  destruct (insertSendQueue _ _) as [[s2 e1] [[]| |]]; cbn [negb app]; rewrite ?app_nil_r; try done.
  by destruct (writeFragments _ _ _ _ _ _) as [[s3 e3] r3].
Qed.

Lemma slice_take {A} (k : Z) (l : list A) : slice_to (Min k (len l)) l = take (Z.to_nat k) l.
Proof.
  unfold slice_to. rewrite Min_spec. destruct (Z.le_ge_cases k (len l)); [by rewrite Z.min_l by lia|].
  rewrite Z.min_r by lia. unfold len in *. by rewrite !firstn_all2 by lia.
Qed.
Lemma slice_drop {A} (k : Z) (l : list A) : slice_from (Min k (len l)) l = drop (Z.to_nat k) l.
Proof.
  unfold slice_from. rewrite Min_spec. destruct (Z.le_ge_cases k (len l)); [by rewrite Z.min_l by lia|].
  rewrite Z.min_r by lia. unfold len in *. by rewrite !drop_ge by lia.
Qed.

(** What the fragment loop may leave behind, from the number [seq] on. *)
Definition cut (size seq : Z) (n : nat) (b : list Z) (ev : list event) (r : result unit) : Prop :=
  ∃ l, ev = Numbered <$> l ∧ fragmented size seq n l ∧ written ev `prefix_of` b ∧
    (r = Ok tt → length l = n ∧ written ev = take (n * Z.to_nat size) b).

Lemma cut_nil size seq n b r : (n ≠ 0)%nat → r ≠ Ok tt → cut size seq n b [] r.
Proof. intros. exists []. split_and!; [done|done|apply prefix_nil|done]. Qed.
Lemma cut_cons size seq n b x ev r :
  len (seg_payload x) <= size → Seq x = seq → Fragment x = u8 (Z.of_nat n) →
  seg_payload x = take (Z.to_nat size) b → cut size (u32 (seq + 1)) n (drop (Z.to_nat size) b) ev r →
  cut size seq (S n) b (Numbered x :: ev) r.
Proof.
  intros Hl Hs Hf Hx (l & -> & Hfr & Hp & Hok). exists (x :: l).
  assert (written (Numbered x :: (Numbered <$> l)) = take (Z.to_nat size) b ++ written (Numbered <$> l)) as Ew
    by (rewrite <-Hx; done).
  rewrite Ew. split_and!; [done..| |].
  - rewrite <-(take_drop (Z.to_nat size) b) at 2. by apply prefix_app.
  - intros Hr. destruct (Hok Hr) as [Hn Hw]. split; [cbn; by f_equal|]. rewrite Hw.
    rewrite <-(take_drop (Z.to_nat size) (take (S n * Z.to_nat size) b)). f_equal.
    + rewrite take_take. f_equal. lia.
    + rewrite skipn_firstn_comm. f_equal. lia.
Qed.
Lemma cut_one size seq n b x r :
  len (seg_payload x) <= size → Seq x = seq → Fragment x = u8 (Z.of_nat n) →
  seg_payload x = take (Z.to_nat size) b → r ≠ Ok tt → cut size seq (S n) b [Numbered x] r.
Proof.
  intros. apply cut_cons; [done..|]. exists []. split_and!; [done|done|apply prefix_nil|done].
Qed.

Lemma writeFragments_cut e config size n ptr s :
  0 <= size →
  match writeFragments e config size n ptr s with (s', ev, r) => cut size (nextSend s) n ptr ev r end.
Proof.
  intros Hsize. destruct config as [[lm lr] le]. revert ptr s. induction n as [|n IH]; intros ptr s.
  { exists []. split_and!; [done|done|apply prefix_nil|done]. }
  rewrite writeFragments_S. cbv zeta. destruct (writeStopped e s); [by apply cut_nil|].
  destruct (if le then _ else _) as [pl| |]; [|by apply cut_nil..]. rewrite slice_take, slice_drop.
  set (x := dataSegment _ _ _ _ _ _ _ _).
  assert (len (seg_payload x) <= size) as Hx by (unfold x; cbn; rewrite len_take; lia).
  destruct (insertSendQueue_events x (s<|nextSend := u32 (nextSend s + 1)|>)) as (s2 & r & -> & En).
  destruct r as [[]| |]; [|by apply cut_one..].
  specialize (IH (drop (Z.to_nat size) ptr) s2). rewrite En in IH.
  destruct (writeFragments _ _ _ _ _ s2) as [[s3 e3] r]. by apply cut_cons.
Qed.

(** A fragment size is never negative. *)
Lemma maxFragmentSize_nonneg mtu transport mode n : maxFragmentSize mtu transport mode = Ok n → 0 <= n.
Proof.
  unfold maxFragmentSize. assert (∀ tp, 0 <= maxFragmentSizeInternal mtu tp) as Hi.
  { intros tp. unfold maxFragmentSizeInternal. case_decide; [done|]. rewrite Max_spec. lia. }
  case_match; [intros [= <-]; apply Hi|].
  destruct (buildLowEntropyParams mode) as [ps| |] eqn:Hb; [rewrite bind_Ok|done..].
  pose proof (buildLowEntropyParams_inv _ _ Hb) as [Hs _]. destruct transport.
  - intros [= <-]. apply Hi.
  - intros [= <-]. rewrite Min_spec. change (MaxUint16 `quot` lowEntropyChunkLen) with 8191.
    specialize (Hi StreamTransport). lia.
  - destruct (Z.leb_spec ((mtu - packetOverhead) `quot` lowEntropyChunkLen) 0); [done|]. intros [= <-]. nia.
Qed.


(** Events and result of a chunk: either nothing was numbered, or the bytes were
    cut into fragments that the transport can carry. *)
Definition chunk (s : Session) (b : list Z) (ev : list event) (r : result Z) : Prop :=
  (ev = [] ∧ ¬ is_Ok r) ∨
  ∃ size n l, maxFragmentSize (mtu s) (transportProtocol s) (lowEntropySendConfig s).1.1 = Ok size ∧
    ev = Numbered <$> l ∧ fragmented size (nextSend s) n l ∧ written ev `prefix_of` b ∧
    (∀ k, r = Ok k → length l = n ∧ k = len b ∧ written ev = b).

Lemma writeChunk_chunk e b s :
  match writeChunk e b s with (s', ev, r) => chunk s b ev r end.
Proof.
  assert (∀ (s0 : Session) (r : result Z), ¬ is_Ok r → chunk s b [] r) as Hno by (intros; by left).
  unfold writeChunk. destruct (len b >? maxPDU); [apply (Hno s); by intros []|].
  unfold fail, gets, lift, modify, ret, mret, M_ret, mbind, M_bind.
  destruct (maxFragmentSize _ _ _) as [size| |] eqn:Es; [|apply (Hno s); by intros []..].
  pose proof (maxFragmentSize_nonneg _ _ _ _ Es) as Hsize.
  destruct (if len b >? size then _ else _) as [nF| |] eqn:En; [|apply (Hno s); by intros []..].
  assert (take (Z.to_nat nF * Z.to_nat size) b = b) as Hall.
  { apply firstn_all2. destruct (Z.gtb_spec (len b) size) as [Hg|Hg]; [|injection En as <-; unfold len in Hg; lia].
    destruct (Z.eqb_spec size 0); [done|]. injection En as <-. rewrite Z.quot_div_nonneg by lia.
    pose proof (Z.mul_succ_div_gt (len b - 1) size ltac:(lia)). pose proof (Z.div_pos (len b - 1) size ltac:(lia) ltac:(lia)).
    unfold len in *. nia. }
  destruct (Remaining (sendQueue s) <=? nF); [destruct (writeStopped e s); apply (Hno s); by intros []|].

  pose proof (writeFragments_cut e (lowEntropySendConfig s) size (Z.to_nat nF) b s Hsize) as H.
  destruct (writeFragments _ _ _ _ _ s) as [[s2 ev] r]. destruct H as (l & -> & Hf & Hp & Hok).
  destruct r as [[]| |]; cbn; rewrite ?app_nil_r; right; exists size, (Z.to_nat nF), l; split_and!; try done.
  intros k [= <-]. destruct (Hok eq_refl) as [? Hw]. by rewrite Hall in Hw.
Qed.

(** A count of [k - n] bytes with an optional error: at least these bytes were
    numbered, without an error all of them. *)
Definition wrote (b : list Z) (n : Z) (ev : list event) (r : result (Z * option error)) : Prop :=
  written ev `prefix_of` b ∧
  ∀ k o, r = Ok (k, o) → n <= k <= n + len b ∧ take (Z.to_nat (k - n)) b `prefix_of` written ev ∧
    (o = None → k = n + len b ∧ written ev = b).

Lemma wrote_some b n ev err : written ev `prefix_of` b → wrote b n ev (Ok (n, Some err)).
Proof.
  intros Hp. split; [done|]. intros k o [= <- <-]. rewrite Z.sub_diag. pose proof (len_nonneg b).
  split_and!; [lia|lia|apply prefix_nil|done].
Qed.

Lemma chunk_written s b ev r : chunk s b ev r → written ev `prefix_of` b ∧ (∀ k, r = Ok k → k = len b ∧ written ev = b).
Proof.
  intros [[-> Hr]|(size & n & l & _ & _ & _ & Hp & Hok)].
  - split; [apply prefix_nil|]. intros k ->. destruct Hr. by eexists.
  - split; [done|]. intros k Hk. by destruct (Hok k Hk) as (_ & ? & ?).
Qed.

Lemma writeLoop_wrote e fuel b n s :
  (length b < fuel)%nat → match writeLoop e fuel b n s with (s', ev, r) => wrote b n ev r end.
Proof.
  revert b n s. induction fuel as [|fuel IH]; intros b n s Hf; [lia|]. cbn [writeLoop].
  destruct (Z.leb_spec (len b) 0) as [Hb|Hb].
  { pose proof (len_nonneg b). assert (b = []) as -> by (apply len_zero; lia).
    split; [apply prefix_nil|]. intros k o [= <- <-]. change (len []) with 0.
    split_and!; [lia|lia|by rewrite take_nil|intros; split; [lia|done]]. }
  unfold mbind, M_bind, try. set (size := Min (len b) maxPDU).
  assert (0 < size <= len b) as Hsize by (unfold size; rewrite Min_spec; unfold maxPDU; lia).
  pose proof (writeChunk_chunk e (slice_to size b) s) as Hc.
  destruct (writeChunk _ _ s) as [[s1 ev] r]. apply chunk_written in Hc as [Hp Hok].
  assert (written ev `prefix_of` b) as Hpb by (etrans; [exact Hp|apply prefix_take]).
  destruct r as [k|err|p].
  - destruct (Hok k eq_refl) as [-> Hw].
    assert (len (slice_to size b) = size) as Hl by (unfold slice_to; rewrite len_take; unfold len in *; lia). rewrite Hl.
    destruct (Z.eqb_spec size 0); [lia|].
    assert (length (slice_from size b) < fuel)%nat as Hf' by (unfold slice_from; rewrite length_drop; unfold len in *; lia).
    specialize (IH (slice_from size b) (n + size) s1 Hf').
    destruct (writeLoop _ _ _ _ s1) as [[s2 ev2] r2]. destruct IH as [Hp2 Hr2].
    assert (slice_to size b ++ slice_from size b = b) as Esplit by apply take_drop.
    assert (len (slice_from size b) = len b - size) as Hl2 by (unfold slice_from; rewrite len_drop; unfold len in *; lia).
    split.
    + rewrite written_app, Hw. etrans; [by apply prefix_app|]. by rewrite Esplit.
    + intros k o ->. destruct (Hr2 k o eq_refl) as (Hk & Ht & Hn). rewrite Hl2 in *. split_and!; [lia|lia| |].
      * rewrite written_app, Hw.
        assert (∀ j, take j (slice_to size b ++ slice_from size b) = take j b) as <- by (intros; by rewrite Esplit).
        rewrite take_app_ge by (unfold len in Hl; lia). apply prefix_app.
        replace (Z.to_nat (k - n) - length (slice_to size b))%nat with (Z.to_nat (k - (n + size))) by (unfold len in Hl; lia). done.
      * intros Ho. destruct (Hn Ho) as [-> Hw2]. split; [lia|]. by rewrite written_app, Hw, Hw2.
  - cbn. rewrite app_nil_r. by apply wrote_some.
  - split; [done|]. done.
Qed.

(** Sequencing by cases. *)
Lemma gets_bind {A C} (f : Session → A) (k : A → M C) s : (gets f ≫= k) s = k (f s) s.
Proof. unfold gets, mbind, M_bind. by destruct (k (f s) s) as [[s2 e2] r]. Qed.
Lemma modify_bind {C} (f : Session → Session) (k : unit → M C) s : (modify f ≫= k) s = k tt (f s).
Proof. unfold modify, mbind, M_bind. by destruct (k tt (f s)) as [[s2 e2] r]. Qed.

Lemma M_assoc {A C D} (m : M A) (k : A → M C) (k' : C → M D) s :
  ((m ≫= k) ≫= k') s = (m ≫= (λ a, k a ≫= k')) s.
Proof.
  unfold mbind, M_bind. destruct (m s) as [[s1 e1] [a| |]]; [|done..].
  destruct (k a s1) as [[s2 e2] [c| |]]; [|done..]. destruct (k' c s2) as [[s3 e3] r]. by rewrite app_assoc.
Qed.
Lemma M_left_id {A C} (a : A) (k : A → M C) s : (ret a ≫= k) s = k a s.
Proof. unfold ret, mret, M_ret, mbind, M_bind. by destruct (k a s) as [[s2 e2] r]. Qed.

(** The end of [Write]: the deadline is cleared unless the writer waits. *)
Definition finishWrite (r : Z * option error) : M (Z * option error) :=
  match r with
  | (_, Some ErrNotReady) => ret r
  | _ => _ ← modify (λ s, s<|writeDeadline := 0|>); ret r
  end.
Lemma finishWrite_ok r s : ∃ s', finishWrite r s = (s', [], Ok r).
Proof. destruct r as [k [[]|]]; by eexists. Qed.

Lemma finish_wrote b s (m : M (Z * option error)) :
  match m s with (s', ev, r) => wrote b 0 ev r end →
  match (m ≫= finishWrite) s with (s', ev, r) => wrote b 0 ev r end.
Proof.
  unfold mbind, M_bind. destruct (m s) as [[s1 ev] [a|err|msg]]; intros Hw; [|done..].
  destruct (finishWrite_ok a s1) as [s2 ->]. by rewrite app_nil_r.
Qed.

(** [Write], from any state and with any failure: the bytes of the
    segments it numbers are a prefix of the caller's bytes, in order; a return
    without error has numbered exactly the caller's bytes and reports their
    count; a return of [k] bytes with an error has numbered at least the first
    [k]. *)
Theorem Write_numbers (e : env) (b : list Z) (s : Session) :
  match Write e b s with (s', ev, r) => wrote b 0 ev r end.
Proof.
  assert (∀ err, wrote b 0 [] (Ok (0, Some err))) as Hno by (intros; apply wrote_some, prefix_nil).
  unfold Write. rewrite gets_bind. destruct (closeRequested s); [by apply Hno|].
  destruct (isStateBefore _ _ s); [by apply Hno|]. destruct (isStateAfter _ _ s); [by apply Hno|].
  set (opening := isClient s && _ && _). destruct (lowEntropySendConfig s) as [[lm lr] le].
  set (payload := if negb le && (len b <=? MaxSessionOpenPayload) then b else []).
  pose proof (λ s1, writeLoop_wrote e (S (length b)) b 0 s1 ltac:(lia)) as Hloop.
  match goal with |- match (?m1 ≫= ?k) s with _ => _ end =>
    change (match (m1 ≫= (λ r, (match r with Some r => ret r | None => writeLoop e (S (length b)) b 0 end) ≫= finishWrite)) s
      with (s', ev, r) => wrote b 0 ev r end); rewrite <-M_assoc; apply finish_wrote end.
  destruct opening; [|rewrite (M_left_id None); apply Hloop].
  rewrite M_assoc, modify_bind, M_assoc. unfold number. rewrite M_assoc, gets_bind. cbv zeta.
  set (s1 := s<|openSessionRequestSent := true|>). set (seg := sessionSegment _ _ _ _ _).
  unfold log, modify, mbind, M_bind, ret, mret, M_ret.
  destruct (insertSendQueue_events seg (s1<|nextSend := u32 (nextSend s1 + 1)|>)) as (s2 & r & -> & _).
  assert (payload = b ∨ payload = []) as Hpl by (unfold payload; destruct (_ && _); auto).
  assert (written [Numbered seg] = payload) as Ew by (unfold written; cbn; apply app_nil_r).
  assert (written [Numbered seg] `prefix_of` b) as Hp.
  { rewrite Ew. destruct Hpl as [->| ->]; [done|apply prefix_nil]. }
  destruct r as [[]|err|msg]; cbn [negb app]; [|by apply wrote_some|by split..].
  destruct (Z.gtb_spec (len payload) 0) as [Hg|Hg].
  - destruct Hpl as [E|E]; [|rewrite E in Hg; by change (len []) with 0 in Hg]. cbn [app]. split; [done|].
    intros k o [= <- <-]. rewrite Ew, E. pose proof (len_nonneg b).
    split_and!; [lia|lia|apply prefix_take|intros; split; [lia|done]].
  - assert (payload = []) as E0 by (apply len_zero; pose proof (len_nonneg payload); lia).
    specialize (Hloop s2). destruct (writeLoop _ _ b 0 s2) as [[s3 e3] r3]. cbn [app].
    assert (written (Numbered seg :: e3) = written e3) as E1.
    { change (Numbered seg :: e3) with ([Numbered seg] ++ e3). by rewrite written_app, Ew, E0. }
    unfold wrote. by rewrite E1.
Qed.

(** Fragmentation: a chunk of at most 32 KiB is numbered as fragments with
    consecutive sequence numbers and with fragment numbers that count down to
    zero, each within the size that [maxFragmentSize] allows for the MTU, the
    transport and the low entropy mode; if the chunk is accepted these are all
    the fragments and all the bytes, and a failure before the first fragment
    numbers nothing. *)
Theorem writeChunk_fragments (e : env) (b : list Z) (s : Session) :
  match writeChunk e b s with (s', ev, r) => chunk s b ev r end.
Proof. exact (writeChunk_chunk e b s). Qed.
End writing.
