(* ===== verification/GoIP.v ===== *)
(** * What the SOCKS5 code uses of packages [net], [net/netip], [strconv] and
    [strings]

    Addresses and their text, as the standard library reads them: predicates on
    IPs, the parsers of addresses and of CIDR ranges, host and port, and the
    functions on strings.  A string is its bytes.

    Lemmas: an address that is parsed has 4 or 16 bytes, and of which bytes its
    text consists ([ParseAddr_spec]). *)
From S2P Require Import Prelude GoStd GoNet.

(** ** Predicates on an IP *)

Definition IPv4zero : list Z := v4InV6Prefix ++ [0; 0; 0; 0].
Definition IPv6unspecified : list Z := replicate 16 0.
Definition IPv6loopback : list Z := replicate 15 0 ++ [1].
Definition IPv4 (a b c d : Z) : list Z := v4InV6Prefix ++ [a; b; c; d].
Definition To16 (ip : list Z) : option (list Z) :=
  if len ip =? 4 then Some (v4InV6Prefix ++ ip) else if len ip =? 16 then Some ip else None.
Definition IsUnspecified (ip : list Z) : bool := IP_Equal ip IPv4zero || IP_Equal ip IPv6unspecified.
Definition IsLoopback (ip : list Z) : bool :=
  match To4 ip with Some ip4 => byte_at 0 ip4 =? 127 | None => IP_Equal ip IPv6loopback end.
Definition IsPrivate (ip : list Z) : bool :=
  match To4 ip with
  | Some ip4 => (byte_at 0 ip4 =? 10) || ((byte_at 0 ip4 =? 172) && (Z.land (byte_at 1 ip4) 240 =? 16)) ||
                ((byte_at 0 ip4 =? 192) && (byte_at 1 ip4 =? 168))
  | None => (len ip =? 16) && (Z.land (byte_at 0 ip) 254 =? 252)
  end.

(** ** Strings *)

(** [strings.IndexByte], [strings.LastIndexByte], [strings.Cut]. *)
Fixpoint IndexByte (c : Z) (s : list Z) : option nat :=
  match s with [] => None | x :: s => if x =? c then Some O else S <$> IndexByte c s end.
Definition LastIndexByte (c : Z) (s : list Z) : option nat := (λ i, length s - S i)%nat <$> IndexByte c (rev s).
Definition Cut (c : Z) (s : list Z) : option (list Z * list Z) := (λ i, (take i s, drop (S i) s)) <$> IndexByte c s.
Definition HasSuffix (s suffix : list Z) : bool :=
  (len suffix <=? len s) && bool_decide (drop (length s - length suffix) s = suffix).
Definition TrimSuffix (s suffix : list Z) : list Z := if HasSuffix s suffix then take (length s - length suffix) s else s.
(** [strings.ToLower] as far as a comparison with an ASCII string sees it: the
    ASCII letters, and the only two other characters whose lower case is ASCII,
    U+0130 and U+212A.  Other characters are left as they are; their lower case
    is not ASCII either. *)
Fixpoint ToLower (s : list Z) : list Z :=
  match s with
  | 196 :: 176 :: s => 105 :: ToLower s
  | 226 :: 132 :: 170 :: s => 107 :: ToLower s
  | x :: s => (if (65 <=? x) && (x <=? 90) then x + 32 else x) :: ToLower s
  | [] => []
  end.

Definition isDigit (c : Z) : bool := (48 <=? c) && (c <=? 57).
Definition decimal (s : list Z) : Z := foldl (λ n c, n * 10 + (c - 48)) 0 s.
(** [strconv.Atoi] *)
Definition Atoi (s : list Z) : result Z :=
  let digits := match s with 45 :: s | 43 :: s => s | _ => s end in
  let n := if bool_decide (head s = Some 45) then - decimal digits else decimal digits in
  if (len digits =? 0) || negb (forallb isDigit digits) then Err (Errorf "invalid syntax") else
  if (- 2 ^ 63 <=? n) && (n <? 2 ^ 63) then Ok n else Err (Errorf "value out of range").

(** ** [netip.ParseAddr] *)

(** An address of 4 or 16 bytes, and its zone. *)
Definition addrz : Type := list Z * list Z.

(** The loop over the bytes of four decimal fields: [first]: no byte was read;
    [prev]: the last byte was a dot. *)
Fixpoint ipv4Fields (s : list Z) (first prev : bool) (val digLen : Z) (fields : list Z) : option (list Z) :=
  match s with
  | [] => if len fields <? 3 then None else Some (fields ++ [val])
  | c :: s =>
    if isDigit c then
      if (digLen =? 1) && (val =? 0) then None else
      let val := val * 10 + (c - 48) in
      if val >? 255 then None else ipv4Fields s false false val (digLen + 1) fields
    else if c =? 46 then
      if first || prev || bool_decide (s = []) then None else
      if len fields =? 3 then None else ipv4Fields s false true 0 0 (fields ++ [val])
    else None
  end.
Definition parseIPv4 (s : list Z) : option (list Z) := ipv4Fields s true false 0 0 [].

Definition hexDigit (c : Z) : option Z :=
  if isDigit c then Some (c - 48) else
  if (97 <=? c) && (c <=? 102) then Some (c - 87) else
  if (65 <=? c) && (c <=? 70) then Some (c - 55) else None.
(** A group of hexadecimal digits, of which [off] were read: its value and what
    follows. *)
Fixpoint hexGroup (s : list Z) (off acc : Z) : option (Z * Z * list Z) :=
  match s with
  | c :: s' =>
    match hexDigit c with
    | Some d => let acc := acc * 16 + d in if (off >? 3) || (acc >? 65535) then None else hexGroup s' (off + 1) acc
    | None => Some (off, acc, s)
    end
  | [] => Some (off, acc, [])
  end.
(** The loop of [parseIPv6]: [ip] are the bytes so far, [ell] where the ellipsis
    is; it returns what is left of the string. *)
Fixpoint ipv6Loop (fuel : nat) (s : list Z) (ell : option nat) (ip : list Z) : option (list Z * option nat * list Z) :=
  match fuel with
  | O => None
  | S fuel =>
    if len ip >=? 16 then Some (ip, ell, s) else
    match hexGroup s 0 0 with
    | None => None
    | Some (off, acc, rest) =>
      if off =? 0 then None else
      if bool_decide (head rest = Some 46) then
        if bool_decide (ell = None) && negb (len ip =? 12) then None else
        if len ip + 4 >? 16 then None else
        ip4 ← parseIPv4 s; Some (ip ++ ip4, ell, [])
      else
        let ip := ip ++ [acc / 256; acc mod 256] in
        match rest with
        | [] => Some (ip, ell, [])
        | c :: rest =>
          if negb (c =? 58) then None else
          match rest with
          | [] => None
          | c :: rest' =>
            if c =? 58 then
              match ell with
              | Some _ => None
              | None => if bool_decide (rest' = []) then Some (ip, Some (length ip), []) else ipv6Loop fuel rest' (Some (length ip)) ip
              end
            else ipv6Loop fuel rest ell ip
          end
        end
    end
  end.
Definition parseIPv6 (s : list Z) : option addrz :=
  '(s, zone) ← match Cut 37 s with
               | Some (s, zone) => if len zone =? 0 then None else Some (s, zone)
               | None => Some (s, []) end;
  let '(ell, s) := match s with 58 :: 58 :: s => (Some O, s) | _ => (None, s) end in
  if bool_decide (ell = Some O) && (len s =? 0) then Some (IPv6unspecified, zone) else
  '(ip, ell, s) ← ipv6Loop 9 s ell [];
  if negb (len s =? 0) then None else
  if len ip <? 16 then
    match ell with
    | None => None
    | Some k => Some (take k ip ++ replicate (16 - length ip) 0 ++ drop k ip, zone)
    end
  else if bool_decide (ell = None) then Some (ip, zone) else None.
Definition ParseAddr (s : list Z) : option addrz :=
  match List.find (λ c, (c =? 46) || (c =? 58) || (c =? 37)) s with
  | Some c => if c =? 46 then (λ ip, (ip, [])) <$> parseIPv4 s else if c =? 58 then parseIPv6 s else None
  | None => None
  end.

(** ** [net.ParseIP], [net.ParseCIDR] *)

Definition ParseIP (s : list Z) : option (list Z) :=
  '(ip, zone) ← ParseAddr s; if len zone =? 0 then canonicalIP ip else None.
(** [net.dtoi] of a whole string: it refuses numbers from 2^24 - 1. *)
Definition dtoi (s : list Z) : option Z :=
  if (len s =? 0) || negb (forallb isDigit s) then None else
  if existsb (λ i, decimal (take i s) >=? 16777215) (seq 1 (length s)) then None else Some (decimal s).
(** [net.CIDRMask] for an address of [n] bytes. *)
Definition CIDRMask (ones : Z) (n : nat) : list Z :=
  (λ i, let k := Z.max 0 (Z.min 8 (ones - 8 * i)) in 256 - 2 ^ (8 - k)) <$> seqZ 0 (Z.of_nat n).
Record IPNet := mkIPNet { net_IP : list Z; net_Mask : list Z }.
Definition maskBytes (ip mask : list Z) : list Z := zip_with Z.land ip mask.
(** The network of a range, as 4 or 16 bytes. *)
Definition ParseCIDR (s : list Z) : option IPNet :=
  '(addr, mask) ← Cut 47 s;
  '(ip, zone) ← ParseAddr addr;
  if negb (len zone =? 0) then None else
  n ← dtoi mask;
  if n >? 8 * len ip then None else
  let m := CIDRMask n (length ip) in
  Some (mkIPNet (maskBytes ip m) m).
(** [networkNumberAndMask] and [Contains]. *)
Definition networkNumberAndMask (n : IPNet) : option (list Z * list Z) :=
  ip ← match To4 (net_IP n) with Some ip4 => Some ip4 | None => if len (net_IP n) =? 16 then Some (net_IP n) else None end;
  let m := net_Mask n in
  if len m =? 4 then (if len ip =? 4 then Some (ip, m) else None) else
  if len m =? 16 then Some (ip, if len ip =? 4 then drop 12 m else m) else None.
Definition Contains (n : IPNet) (ip : list Z) : bool :=
  let '(nn, m) := default ([], []) (networkNumberAndMask n) in
  let ip := default ip (To4 ip) in
  (len ip =? len nn) && bool_decide (maskBytes nn m = maskBytes ip m).

(** ** [net.SplitHostPort] *)

Definition SplitHostPort (hostport : list Z) : result (list Z * list Z) :=
  match LastIndexByte 58 hostport with
  | None => Err (Errorf "missing port in address")
  | Some i =>
    match (if bool_decide (head hostport = Some 91) then
             match IndexByte 93 hostport with
             | None => Err (Errorf "missing ']' in address")
             | Some e =>
               if (S e =? length hostport)%nat then Err (Errorf "missing port in address") else
               if (S e =? i)%nat then Ok (slice 1 (Z.of_nat e) hostport, 1%nat, S e) else
               if byte_at (S e) hostport =? 58 then Err (Errorf "too many colons in address") else Err (Errorf "missing port in address")
             end
           else
             let host := take i hostport in
             if bool_decide (IndexByte 58 host = None) then Ok (host, 0%nat, 0%nat) else Err (Errorf "too many colons in address")) with
    | Err e => Err e
    | Panic m => Panic m
    | Ok (host, j, k) =>
      if negb (bool_decide (IndexByte 91 (drop j hostport) = None)) then Err (Errorf "unexpected '[' in address") else
      if negb (bool_decide (IndexByte 93 (drop k hostport) = None)) then Err (Errorf "unexpected ']' in address") else
      Ok (host, drop (S i) hostport)
    end
  end.

Local Abbreviation str := bytes_of_string.
Example parse_ip4 : ParseIP (str "192.168.1.100") = Some (IPv4 192 168 1 100) ∧ ParseIP (str "1.2.3.04") = None ∧
  ParseIP (str "1.2.3.256") = None ∧ ParseIP (str "1..2.3") = None ∧ ParseIP (str "1.2.3.") = None ∧ ParseIP (str "1.2.3") = None.
Proof. by vm_compute. Qed.
Example parse_ip6 : ParseIP (str "::1") = Some IPv6loopback ∧ ParseIP (str "::") = Some IPv6unspecified ∧
  ParseIP (str "fe80::1%eth0") = None ∧ ParseIP (str "::ffff:10.0.0.1") = Some (IPv4 10 0 0 1) ∧
  ParseIP (str "2001:DB8::1:0:0:ab") = Some ([32; 1; 13; 184] ++ replicate 4 0 ++ [0; 1] ++ replicate 5 0 ++ [171]) ∧
  ParseIP (str "1:2:3:4:5:6:7:8") = Some [0; 1; 0; 2; 0; 3; 0; 4; 0; 5; 0; 6; 0; 7; 0; 8] ∧
  ParseIP (str "1:2:3:4:5:6:7") = None ∧ ParseIP (str "1:2:3:4:5:6:7::") = Some [0; 1; 0; 2; 0; 3; 0; 4; 0; 5; 0; 6; 0; 7; 0; 0] ∧
  ParseIP (str "1:2:3:4:5:6:7:8:9") = None ∧ ParseIP (str "1::2::3") = None ∧ ParseIP (str "12345::") = None ∧
  ParseIP (str "localhost") = None.
Proof. by vm_compute. Qed.
Example parse_cidr : ParseCIDR (str "10.1.2.3/8") = Some (mkIPNet [10; 0; 0; 0] [255; 0; 0; 0]) ∧ ParseCIDR (str "10.0.0.0/33") = None ∧
  ParseCIDR (str "fd00::/7") = Some (mkIPNet (252 :: replicate 15 0) (254 :: replicate 15 0)) ∧ ParseCIDR (str "10.0.0.0") = None ∧
  from_option (λ n, Contains n (IPv4 10 9 8 7)) false (ParseCIDR (str "10.0.0.0/8")) = true ∧
  from_option (λ n, Contains n (IPv4 11 9 8 7)) true (ParseCIDR (str "10.0.0.0/8")) = false.
Proof. by vm_compute. Qed.
Example split_host_port : SplitHostPort (str "[::1]:80") = Ok (str "::1", str "80") ∧ SplitHostPort (str "a.b:443") = Ok (str "a.b", str "443") ∧
  SplitHostPort (str "::1:80") = Err (Errorf "too many colons in address") ∧ SplitHostPort (str ":80") = Ok ([], str "80") ∧
  SplitHostPort (str "a.b") = Err (Errorf "missing port in address") ∧ Atoi (str "0443") = Ok 443 ∧ Atoi (str "-1") = Ok (-1) ∧ Atoi [] = Err (Errorf "invalid syntax").
Proof. by vm_compute. Qed.

(** ** What the parsers accept *)

(** The bytes of an IPv4 address, and of an IPv6 address without zone. *)
Definition v4Byte (c : Z) : bool := isDigit c || (c =? 46).
Definition v6Byte (c : Z) : bool := bool_decide (is_Some (hexDigit c)) || (c =? 46) || (c =? 58).
Lemma v4Byte_v6Byte c : v4Byte c = true → v6Byte c = true.
Proof. unfold v4Byte, v6Byte, hexDigit. destruct (isDigit c); [done|]. cbn. intros ->. by rewrite orb_true_r. Qed.

Lemma ipv4Fields_spec s first prev val digLen fields ip :
  ipv4Fields s first prev val digLen fields = Some ip → len fields <= 3 → length ip = 4%nat ∧ Forall (λ c, v4Byte c = true) s.
Proof.
  revert first prev val digLen fields. induction s as [|c s IH]; intros first prev val digLen fields; cbn.
  - destruct (Z.ltb_spec (len fields) 3); [done|]. intros [= <-] Hf. unfold len in *. rewrite length_app. cbn. split; [lia|constructor].
  - unfold v4Byte. destruct (isDigit c) eqn:Ed.
    + destruct (_ && _); [done|]. destruct (_ >? 255); [done|]. intros H Hf. destruct (IH _ _ _ _ _ H Hf) as [H1 H2]. split; [done|]. constructor; [by rewrite Ed|done].
    + destruct (Z.eqb_spec c 46) as [->|]; [|done]. destruct (_ || _); [done|]. destruct (Z.eqb_spec (len fields) 3); [done|]. intros H Hf.
      destruct (IH _ _ _ _ _ H) as [H1 H2]; [unfold len in *; rewrite length_app; cbn; lia|]. split; [done|]. by constructor.
Qed.
Lemma parseIPv4_spec s ip : parseIPv4 s = Some ip → length ip = 4%nat ∧ Forall (λ c, v4Byte c = true) s.
Proof. intros H. by apply (ipv4Fields_spec _ _ _ _ _ _ _ H). Qed.
Lemma hexGroup_spec s off acc off' acc' rest :
  hexGroup s off acc = Some (off', acc', rest) → ∃ d, s = d ++ rest ∧ Forall (λ c, v6Byte c = true) d.
Proof.
  revert off acc. induction s as [|c s IH]; intros off acc; cbn; [intros [= _ _ <-]; by exists []|].
  destruct (hexDigit c) as [x|] eqn:Ex; [|intros [= _ _ <-]; by exists []]. destruct (_ || _); [done|].
  intros H. destruct (IH _ _ H) as (d & -> & Hd). exists (c :: d). split; [done|]. constructor; [|done].
  unfold v6Byte. by rewrite Ex.
Qed.
(** The loop reads pairs of bytes, and no more than 16. *)
Lemma ipv6Loop_spec fuel s ell ip ip' ell' rest :
  ipv6Loop fuel s ell ip = Some (ip', ell', rest) → (Nat.even (length ip) = true) → (length ip <= 16)%nat → (∀ k, ell = Some k → k <= length ip)%nat →
  (length ip' <= 16)%nat ∧ (∀ k, ell' = Some k → k <= length ip')%nat ∧ ∃ d, s = d ++ rest ∧ Forall (λ c, v6Byte c = true) d.
Proof.
  revert s ell ip. induction fuel as [|fuel IH]; intros s ell ip; cbn [ipv6Loop]; [done|].
  intros H He Hl Hk. revert H. rewrite Z.geb_leb. destruct (Z.leb_spec 16 (len ip)) as [H16|H16].
  { intros [= <- <- <-]. split_and!; [done|done|]. by exists []. }
  assert (length ip <= 14)%nat as Hl2.
  { unfold len in H16. destruct (decide (length ip = 15%nat)) as [E|]; [by rewrite E in He|lia]. }
  destruct (hexGroup s 0 0) as [[[off acc] rest0]|] eqn:Eg; [|done]. destruct (off =? 0); [done|].
  destruct (hexGroup_spec _ _ _ _ _ _ Eg) as (d & Es & Hd). case_bool_decide as E46.
  - destruct (_ && _); [done|]. rewrite Z.gtb_ltb. destruct (Z.ltb_spec 16 (len ip + 4)) as [|H4]; [done|].
    destruct (parseIPv4 s) as [ip4|] eqn:E4; [|done]. cbn. intros [= <- <- <-]. apply parseIPv4_spec in E4 as [L4 F4].
    unfold len in H4. rewrite length_app. split_and!; [lia|intros k E; specialize (Hk k E); lia|]. exists s. rewrite app_nil_r. split; [done|].
    eapply Forall_impl; [exact F4|]. apply v4Byte_v6Byte.
  - set (ip2 := ip ++ [acc / 256; acc mod 256]). assert (length ip2 = (length ip + 2)%nat) as L2 by (unfold ip2; by rewrite length_app).
    assert (Nat.even (length ip2) = true) as He2 by (rewrite L2, Nat.even_add, He; done).
    destruct rest0 as [|c rest0].
    { intros [= <- <- <-]. split_and!; [lia|intros k E; specialize (Hk k E); lia|]. by exists d. }
    destruct (Z.eqb_spec c 58) as [->|]; [|done]. cbn [negb]. destruct rest0 as [|c rest']; [done|].
    destruct (Z.eqb_spec c 58) as [->|Hc].
    + destruct ell; [done|]. case_bool_decide as E0.
      * intros [= <- <- <-]. subst rest'. split_and!; [lia|by intros k [= <-]|]. exists s. rewrite app_nil_r. split; [done|].
        rewrite Es. apply Forall_app. split; [done|]. by repeat constructor.
      * intros H. destruct (IH _ _ _ H He2 ltac:(lia)) as (H1 & H2 & d' & -> & Hd'); [by intros k [= <-]|]. split_and!; [done|done|].
        exists (d ++ 58 :: 58 :: d'). rewrite Es, <-app_assoc. split; [done|]. apply Forall_app. split; [done|]. by repeat constructor.
    + intros H. destruct (IH _ _ _ H He2 ltac:(lia)) as (H1 & H2 & d' & E' & Hd'); [intros k E; specialize (Hk k E); lia|]. split_and!; [done|done|].
      exists (d ++ 58 :: d'). rewrite Es, E', <-app_assoc. split; [done|]. apply Forall_app. split; [done|]. by constructor.
Qed.
Lemma IndexByte_Some c s i : IndexByte c s = Some i → s = take i s ++ [c] ++ drop (S i) s.
Proof.
  revert i. induction s as [|x s IH]; [done|]. intros i. cbn. destruct (Z.eqb_spec x c) as [->|]; [by intros [= <-]|].
  destruct (IndexByte c s) as [j|]; [|done]. intros [= <-]. cbn. f_equal. by apply IH.
Qed.
(** An address is of 4 bytes, and its text has digits and dots; or it is of 16
    bytes, and its text before the zone has hexadecimal digits, dots and colons. *)
Lemma ParseAddr_spec s ip zone :
  ParseAddr s = Some (ip, zone) →
  (length ip = 4%nat ∧ zone = [] ∧ Forall (λ c, v4Byte c = true) s) ∨
  (length ip = 16%nat ∧ ∃ t, Forall (λ c, v6Byte c = true) t ∧ (zone = [] ∧ s = t ∨ zone ≠ [] ∧ s = t ++ 37 :: zone)).
Proof.
  unfold ParseAddr. destruct (List.find _ s) as [c|] eqn:Ef; [|done]. destruct (c =? 46).
  { destruct (parseIPv4 s) as [ip4|] eqn:E4; [|done]. intros [= <- <-]. apply parseIPv4_spec in E4 as [? ?]. by left. }
  destruct (c =? 58); [|done]. intros H. right. unfold parseIPv6 in H.
  destruct (match Cut 37 s with Some (s, zone) => if len zone =? 0 then None else Some (s, zone) | None => Some (s, []) end) as [[t z]|] eqn:Et; [|done].
  assert (z = [] ∧ s = t ∨ z ≠ [] ∧ s = t ++ 37 :: z) as Hz.
  { unfold Cut in Et. destruct (IndexByte 37 s) as [i|] eqn:Ei; cbn in Et; [|injection Et as <- <-; by left].
    destruct (Z.eqb_spec (len (drop (S i) s)) 0) as [|N]; [done|]. injection Et as <- <-. right. split; [intros E; by rewrite E in N|].
    by apply IndexByte_Some in Ei. }
  cbn [mbind option_bind] in H. assert (length ip = 16%nat ∧ z = zone ∧ Forall (λ c, v6Byte c = true) t) as (Hl & <- & Ht); [|by split; [|exists t]]. clear Hz Et Ef.
  destruct (match t with 58 :: 58 :: s0 => (Some 0%nat, s0) | _ => (None, t) end) as [ell s0] eqn:Ee.
  assert ((∀ k, ell = Some k → k = 0%nat) ∧ (Forall (λ c, v6Byte c = true) s0 → Forall (λ c, v6Byte c = true) t)) as [Hell Hs0].
  { destruct t as [|c1 [|c2 t]]; [by injection Ee as <- <-|..].
    - assert ((None, [c1]) = (ell, s0)) as [= <- <-]; [|done]. rewrite <-Ee. by repeat (destruct c1 as [|c1|c1]; try done).
    - destruct (decide (c1 = 58)) as [->|N1].
      + destruct (decide (c2 = 58)) as [->|N2]; [injection Ee as <- <-; split; [by intros k [= <-]|by repeat constructor]|].
        assert ((None, 58 :: c2 :: t) = (ell, s0)) as [= <- <-]; [|done]. rewrite <-Ee. clear - N2. by repeat (destruct c2 as [|c2|c2]; try done).
      + assert ((None, c1 :: c2 :: t) = (ell, s0)) as [= <- <-]; [|done]. rewrite <-Ee. clear - N1. by repeat (destruct c1 as [|c1|c1]; try done). }
  destruct (_ && _) eqn:E0.
  { injection H as <- <-. split_and!; [done|done|]. apply Hs0. apply andb_true_iff in E0 as [_ E0]. apply Z.eqb_eq, len_zero in E0 as ->. constructor. }
  destruct (ipv6Loop 9 s0 ell []) as [[[ip' ell'] rest]|] eqn:El; cbn [mbind option_bind] in H; [|discriminate H].
  destruct (ipv6Loop_spec _ _ _ _ _ _ _ El) as (L1 & L2 & d & Es & Hd); [done|cbn; lia|intros k E; by rewrite (Hell k E)|].
  destruct (Z.eqb_spec (len rest) 0) as [Er|]; [|done]. cbn [negb] in H. apply len_zero in Er as ->. rewrite app_nil_r in Es. subst d.
  destruct (Z.ltb_spec (len ip') 16) as [Hl|Hl].
  - destruct ell' as [k|]; [|done]. injection H as <- <-. specialize (L2 k eq_refl). unfold len in Hl. split_and!; [|done|by apply Hs0].
    rewrite !length_app, length_take, length_replicate, length_drop. lia.
  - case_bool_decide; [|done]. injection H as <- <-. unfold len in Hl. split_and!; [lia|done|by apply Hs0].
Qed.
