(* ===== verification/Effects.v ===== *)
(** * Programs that talk over connections

    The SOCKS5 code is straight-line code around network calls.  A program is a
    tree of calls with the program's reaction to each answer ([io]); a function
    that returns [(A, error)] is an [io (result A)].  The relays that follow a
    handshake run until a connection ends; they are calls here ([Relay]), and
    modelled as loops of their own in UDPRelay.v and UDPCopy.v.

    [run] gives a program to a handler, which answers the calls and changes a
    state; [calls_ok] is a weakest precondition for what a program calls, and
    [run_calls_ok] is its soundness for every handler; [past_ok] and
    [trace_past_ok] are the same for calls that may depend on what was answered
    before.  [duplex] composes the
    two ends of a connection; its steps commute, so that all interleavings lead
    where one of them leads ([duplex_confluent]). *)
From S2P Require Import Prelude GoStd GoNet.

(** A connection or socket is a number. *)
Abbreviation conn := Z (only parsing).

(** The loops of pkg/common/copy.go, pkg/socks5/copy.go and pkg/socks5/udp.go
    that run after a handshake. *)
Inductive relay :=
| BidiCopy (c1 c2 : conn)
| BidiCopyTimeout (c1 c2 : conn) (writeTimeout : Z)
| BidiCopySocks5 (c proxy : conn) (pending : list Z)
| BidiCopyUDP (udp tunnel : conn)
| UDPAssociate (udp tunnel : conn)
| UDPForwarding (udp tunnel : conn) (downstream : inetAddr) (ctrl : conn)
| UDPDatagram (udp ctrl : conn).

Inductive ioE : Type → Type :=
| ReadFull (c : conn) (n : Z) : ioE (result (list Z))
| Write (c : conn) (l : list Z) : ioE (option error)
| CloseConn (c : conn) : ioE unit
| SetReadTimeout (c : conn) (t : Z) : ioE unit
| Dial (network : string) (addr : list Z) : ioE (result conn)
| ListenUDP (network : string) : ioE (result conn)
| LocalAddr (c : conn) : ioE netAddr
| RemoteAddr (c : conn) : ioE netAddr
| LookupIP (network : string) (host : list Z) : ioE (result (list (list Z)))
| Intn (n : Z) : ioE Z
| UserName (c : conn) : ioE (list Z)
| ProxyDial : ioE (result conn)
| Relay (r : relay) : ioE (result unit).

Inductive io (A : Type) : Type :=
| Ret (a : A)
| Do {X : Type} (e : ioE X) (k : X → io A).
Arguments Ret {A} a.
Arguments Do {A X} e k.

#[export] Instance io_ret : MRet io := @Ret.
Fixpoint io_bind_ {A B} (f : A → io B) (p : io A) : io B :=
  match p with Ret a => f a | Do e k => Do e (λ x, io_bind_ f (k x)) end.
#[export] Instance io_bind : MBind io := @io_bind_.

Definition call {X} (e : ioE X) : io X := Do e Ret.
Definition fail {A} (e : error) : io (result A) := Ret (Err e).
Definition ok {A} (a : A) : io (result A) := Ret (Ok a).
(** [x, err := p; if err != nil { return err }] *)
Definition attempt {A B} (p : io (result A)) (k : A → io (result B)) : io (result B) :=
  io_bind_ (λ r, match r with Ok a => k a | Err e => Ret (Err e) | Panic m => Ret (Panic m) end) p.
(** [... { return fmt.Errorf(msg + ": %w", err) }] *)
Definition wrapping {A} (msg : string) (p : io (result A)) : io (result A) :=
  io_bind_ (λ r, Ret (match r with Err e => Err (Wrapf msg e) | r => r end)) p.
Definition lift {A} (r : result A) : io (result A) := Ret r.
Definition read (c : conn) (n : Z) : io (result (list Z)) := call (ReadFull c n).
Definition write (c : conn) (l : list Z) : io (result unit) :=
  Do (Write c l) (λ o, Ret (match o with Some e => Err e | None => Ok tt end)).
(** The error of a failed write is dropped, or [defer f()] whose result is not
    looked at. *)
Definition ignore {A} (p : io A) : io unit := io_bind_ (λ _, Ret tt) p.
Definition andThen {A B} (p : io A) (q : io B) : io B := io_bind_ (λ _, q) p.
(** [defer]: [q] runs when [p] has returned. *)
Definition deferred {A} (q : io unit) (p : io A) : io A := io_bind_ (λ a, io_bind_ (λ _, Ret a) q) p.

Declare Scope io_scope.
Delimit Scope io_scope with io.
Notation "'let!' x := p 'in' q" := (attempt p (λ x, q)) (at level 10, x pattern, p at level 100, q at level 200) : io_scope.
Notation "p >> q" := (andThen p q) (at level 100, right associativity) : io_scope.
#[global] Open Scope io_scope.

(** ** Running against a handler *)

Inductive called : Type :=
| Called {X : Type} (e : ioE X).
Definition handler (S : Type) : Type := ∀ X, ioE X → S → X * S.
(** The result, the state after the run, and the calls in order. *)
Fixpoint run {S A} (h : handler S) (p : io A) (s : S) : A * S * list called :=
  match p with
  | Ret a => (a, s, [])
  | Do e k => let '(x, s) := h _ e s in let '(r, log) := run h (k x) s in (r, Called e :: log)
  end.

Lemma run_bind {S A B} (h : handler S) (p : io A) (f : A → io B) s :
  run h (io_bind_ f p) s =
    let '(a, s, log) := run h p s in let '(r, log') := run h (f a) s in (r, log ++ log').
Proof.
  revert s. induction p as [a|X e k IH]; intros s; cbn.
  - by destruct (run h (f a) s).
  - destruct (h X e s) as [x s']. rewrite IH. destruct (run h (k x) s') as [[a s''] log].
    by destruct (run h (f a) s'').
Qed.

(** ** What a program may call *)

(** [G]: the calls that are allowed; [R]: the answers that are possible. *)
Section calls.
Context (G : ∀ X, ioE X → Prop) (R : ∀ X, ioE X → X → Prop).

Fixpoint calls_ok {A} (p : io A) (Q : A → Prop) : Prop :=
  match p with
  | Ret a => Q a
  | Do e k => G _ e ∧ ∀ x, R _ e x → calls_ok (k x) Q
  end.

Lemma calls_ok_bind {A B} (p : io A) (f : A → io B) (Q : B → Prop) :
  calls_ok p (λ a, calls_ok (f a) Q) → calls_ok (io_bind_ f p) Q.
Proof.
  induction p as [a|X e k IH]; cbn; [done|]. intros [He Hk]. split; [done|]. intros x Hx. by apply IH, Hk.
Qed.
Lemma calls_ok_mono {A} (p : io A) (Q Q' : A → Prop) : (∀ a, Q a → Q' a) → calls_ok p Q → calls_ok p Q'.
Proof. intros HQ. induction p as [a|X e k IH]; cbn; [apply HQ|]. intros [He Hk]. split; [done|]. eauto. Qed.

Definition obeys {S} (h : handler S) : Prop := ∀ X (e : ioE X) s, R _ e (h _ e s).1.
Theorem run_calls_ok {S A} (h : handler S) (p : io A) (Q : A → Prop) s :
  obeys h → calls_ok p Q → Q (run h p s).1.1 ∧ Forall (λ c, match c with Called e => G _ e end) (run h p s).2.
Proof.
  intros Hh. revert s. induction p as [a|X e k IH]; intros s; cbn; [by split|]. intros [He Hk].
  pose proof (Hh X e s) as Hx. destruct (h X e s) as [x s']. cbn in Hx. specialize (IH x s' (Hk x Hx)).
  destruct (run h (k x) s') as [[a s''] log]. cbn in *. destruct IH as [IH1 IH2]. split; [done|]. by constructor.
Qed.
End calls.

(** *** Calls that depend on earlier answers *)

(** A call with its answer. *)
Inductive answered : Type :=
| Answered {X : Type} (e : ioE X) (x : X).
(** The calls of a run with their answers, in order. *)
Fixpoint trace {S A} (h : handler S) (p : io A) (s : S) : list answered :=
  match p with
  | Ret a => []
  | Do e k => let '(x, s) := h _ e s in Answered e x :: trace h (k x) s
  end.
Lemma run_trace {S A} (h : handler S) (p : io A) s :
  (run h p s).2 = (λ c, match c with Answered e _ => Called e end) <$> trace h p s.
Proof.
  revert s. induction p as [a|X e k IH]; intros s; cbn; [done|]. destruct (h X e s) as [x s']. specialize (IH x s').
  destruct (run h (k x) s') as [[r s''] log]. cbn in *. by rewrite IH.
Qed.
(** What was read from a connection. *)
Definition readFrom (c : conn) (past : list answered) : list Z :=
  past ≫= λ a, match a with
               | Answered (ReadFull c' n) x => match x with Ok l => if c' =? c then l else [] | _ => [] end
               | _ => []
               end.
Lemma readFrom_app c past past' : readFrom c (past ++ past') = readFrom c past ++ readFrom c past'.
Proof. apply bind_app. Qed.

(** [G past]: the calls that are allowed after [past]. *)
Section past.
Context (G : list answered → ∀ X, ioE X → Prop) (R : ∀ X, ioE X → X → Prop).

Fixpoint past_ok {A} (past : list answered) (p : io A) (Q : list answered → A → Prop) : Prop :=
  match p with
  | Ret a => Q past a
  | Do e k => G past _ e ∧ ∀ x, R _ e x → past_ok (past ++ [Answered e x]) (k x) Q
  end.

Lemma past_bind {A B} past (p : io A) (f : A → io B) Q :
  past_ok past p (λ past a, past_ok past (f a) Q) → past_ok past (io_bind_ f p) Q.
Proof.
  revert past. induction p as [a|X e k IH]; intros past; cbn; [done|]. intros [He Hk]. split; [done|]. intros x Hx. by apply IH, Hk.
Qed.
Lemma past_mono {A} past (p : io A) (Q Q' : list answered → A → Prop) :
  (∀ past a, Q past a → Q' past a) → past_ok past p Q → past_ok past p Q'.
Proof.
  intros HQ. revert past. induction p as [a|X e k IH]; intros past; cbn; [apply HQ|]. intros [He Hk]. split; [done|]. eauto.
Qed.
Lemma past_attempt {A B} past (p : io (result A)) (k : A → io (result B)) Q :
  past_ok past p (λ past r, match r with Ok a => past_ok past (k a) Q | Err e => Q past (Err e) | Panic m => Q past (Panic m) end) →
  past_ok past (attempt p k) Q.
Proof. intros H. apply past_bind. eapply past_mono, H. by intros ? []. Qed.
Lemma past_wrapping {A} past m (p : io (result A)) Q :
  past_ok past p (λ past r, Q past (match r with Err e => Err (Wrapf m e) | r => r end)) → past_ok past (wrapping m p) Q.
Proof. intros H. by apply past_bind. Qed.
Lemma past_deferred {A} past (q : io unit) (p : io A) Q :
  past_ok past p (λ past a, past_ok past q (λ past _, Q past a)) → past_ok past (deferred q p) Q.
Proof. intros H. apply past_bind. eapply past_mono, H. intros past' a Ha. by apply past_bind. Qed.
Lemma past_andThen {A B} past (p : io A) (q : io B) Q :
  past_ok past p (λ past _, past_ok past q Q) → past_ok past (p >> q) Q.
Proof. intros H. by apply past_bind. Qed.

(** A part whose calls are allowed after anything. *)
Lemma past_calls (G0 : ∀ X, ioE X → Prop) {A} past (p : io A) (Q0 : A → Prop) (Q : list answered → A → Prop) :
  (∀ past X (e : ioE X), G0 X e → G past X e) → calls_ok G0 R p Q0 →
  (∀ more a, Forall (λ c, match c with Answered e _ => G0 _ e end) more → Q0 a → Q (past ++ more) a) → past_ok past p Q.
Proof.
  intros HG. revert past. induction p as [a|X e k IH]; intros past; cbn.
  - intros Ha HQ. rewrite <-(app_nil_r past). by apply HQ.
  - intros [He Hk] HQ. split; [by apply HG|]. intros x Hx. apply (IH x); [by apply Hk|].
    intros more a Hm Ha. rewrite <-app_assoc. apply HQ; [by constructor|done].
Qed.

(** Soundness: a call of a run is allowed after the calls before it. *)
Theorem trace_past_ok {S A} (h : handler S) (p : io A) (Q : list answered → A → Prop) past s before c after :
  obeys R h → past_ok past p Q → trace h p s = before ++ [c] ++ after →
  match c with Answered e _ => G (past ++ before) _ e end.
Proof.
  intros Hh. revert past s before. induction p as [a|X e k IH]; intros past s before; cbn; [by destruct before|]. intros [He Hk].
  pose proof (Hh X e s) as Hx. destruct (h X e s) as [x s']. cbn in Hx. destruct before as [|b before]; cbn; intros [= <- Ht].
  - by rewrite app_nil_r.
  - specialize (IH x _ s' before (Hk x Hx) Ht). by rewrite <-app_assoc in IH.
Qed.
End past.

(** ** The two ends of a connection *)

(** An end: its program, the state of what it calls besides the connection, the
    bytes on their way to it, and whether it closed the connection. *)
Record side (S A : Type) := mkSide { sd_prog : io A; sd_state : S; sd_inq : list Z; sd_shut : bool }.
Arguments mkSide {S A}.
Arguments sd_prog {S A}.
Arguments sd_state {S A}.
Arguments sd_inq {S A}.
Arguments sd_shut {S A}.
Definition receive {S A} (l : list Z) (x : side S A) : side S A := mkSide (sd_prog x) (sd_state x) (sd_inq x ++ l) (sd_shut x).

(** One call of the program of an end whose connection is [c]; a read waits for
    all of its bytes, unless the peer closed.  The bytes that are written are
    the second component. *)
Definition sideStep {S A} (h : handler S) (c : conn) (peerShut : bool) (x : side S A) : option (side S A * list Z) :=
  match sd_prog x with
  | Ret _ => None
  | @Do _ X e k =>
    let continue (y : X) q shut w := Some (mkSide (k y) (sd_state x) q shut, w) in
    let local := let '(y, s) := h X e (sd_state x) in Some (mkSide (k y) s (sd_inq x) (sd_shut x), []) in
    match e in ioE X return ((X → list Z → bool → list Z → option (side S A * list Z)) → option (side S A * list Z)) with
    | ReadFull c' n => λ continue,
      if negb (c' =? c) then local else
      if sd_shut x then continue (Err ErrClosedPipe) (sd_inq x) true [] else
      if n <=? len (sd_inq x) then continue (Ok (slice_to n (sd_inq x))) (slice_from n (sd_inq x)) false [] else
      if peerShut then continue (Err (if len (sd_inq x) =? 0 then EOF else ErrUnexpectedEOF)) [] false [] else None
    | Write c' l => λ continue,
      if negb (c' =? c) then local else
      if sd_shut x then continue (Some ErrClosedPipe) (sd_inq x) true [] else continue None (sd_inq x) false l
    | CloseConn c' => λ continue, if negb (c' =? c) then local else continue tt (sd_inq x) true []
    | _ => λ _, local
    end continue
  end.

Section duplex.
Context {S A T B : Type} (hl : handler S) (cl : conn) (hr : handler T) (cr : conn).
Abbreviation state := (side S A * side T B)%type.

Inductive duplex : state → state → Prop :=
| StepLeft x x' y w : sideStep hl cl (sd_shut y) x = Some (x', w) → duplex (x, y) (x', receive w y)
| StepRight x y y' w : sideStep hr cr (sd_shut x) y = Some (y', w) → duplex (x, y) (receive w x, y').

(** Left first, as long as it can. *)
Fixpoint drive (fuel : nat) (s : state) : state :=
  match fuel with
  | O => s
  | Datatypes.S fuel =>
    match sideStep hl cl (sd_shut s.2) s.1 with
    | Some (x, w) => drive fuel (x, receive w s.2)
    | None =>
      match sideStep hr cr (sd_shut s.1) s.2 with
      | Some (y, w) => drive fuel (receive w s.1, y)
      | None => s
      end
    end
  end.
Lemma drive_duplex fuel s : rtc duplex s (drive fuel s).
Proof.
  revert s. induction fuel as [|fuel IH]; intros [x y]; cbn; [done|].
  destruct (sideStep hl cl (sd_shut y) x) as [[x' w]|] eqn:E; [eapply rtc_l; [by apply StepLeft|apply IH]|].
  destruct (sideStep hr cr (sd_shut x) y) as [[y' w]|] eqn:E'; [eapply rtc_l; [by apply StepRight|apply IH]|done].
Qed.
Definition stuck (s : state) : Prop := ∀ s', ¬ duplex s s'.
End duplex.

Section sides.
Context {S A : Type} (h : handler S) (c : conn).
Implicit Types x : side S A.

(** What arrives later does not change a step. *)
Lemma sideStep_receive x x' w l peerShut :
  sideStep h c false x = Some (x', w) → sideStep h c peerShut (receive l x) = Some (receive l x', w).
Proof.
  destruct x as [p s q shut]. unfold sideStep, receive. cbn [sd_prog sd_state sd_inq sd_shut].
  destruct p as [a|X e k]; [done|]. destruct e; cbn; case_match; cbn.
  all: repeat case_match; intros [= <- <-]; subst; try done; bool_to_prop; rewrite ?len_app in *; pose proof (len_nonneg l); try lia.
  all: unfold receive, slice_to, slice_from in *; cbn in *; do 3 f_equal.
  all: try (rewrite take_app_le by (unfold len in *; lia)); try (rewrite drop_app_le by (unfold len in *; lia)); done.
Qed.
Lemma sideStep_shut peerShut x x' w :
  sideStep h c peerShut x = Some (x', w) → sd_shut x = true → w = [] ∧ sd_shut x' = true.
Proof.
  destruct x as [p s q shut]. unfold sideStep. cbn. intros Hs ->. destruct p as [a|X e k]; [done|].
  destruct e; cbn in Hs; repeat case_match; simplify_eq; done.
Qed.
End sides.

Lemma receive_nil {S A} (x : side S A) : receive [] x = x.
Proof. destruct x. unfold receive. cbn. by rewrite app_nil_r. Qed.

Section confluence.
Context {S A T B : Type} (hl : handler S) (cl : conn) (hr : handler T) (cr : conn).
Abbreviation duplex := (@duplex S A T B hl cl hr cr).
Abbreviation state := (side S A * side T B)%type.

Lemma sideStep_peer {U C V D} (h : handler U) (g : handler V) c d (x x' : side U C) (y y' : side V D) w v :
  sideStep h c (sd_shut y) x = Some (x', w) → sideStep g d (sd_shut x) y = Some (y', v) →
  sideStep g d (sd_shut x') (receive w y) = Some (receive w y', v).
Proof.
  intros Hx Hy. destruct (sd_shut x) eqn:E; [|by apply sideStep_receive].
  apply sideStep_shut in Hx as [-> ->]; [|done]. by rewrite !receive_nil.
Qed.
Lemma duplex_diamond s a b : duplex s a → duplex s b → a = b ∨ ∃ t, duplex a t ∧ duplex b t.
Proof.
  intros Ha Hb. destruct Ha as [x x' y w Hx|x y y' w Hy]; inversion Hb as [? x'' ? v Hx'|? ? y'' v Hy']; subst.
  - left. by rewrite Hx in Hx'; simplify_eq.
  - right. exists (receive v x', receive w y''). split; constructor; by eapply sideStep_peer.
  - right. exists (receive w x'', receive v y'). split; constructor; by eapply sideStep_peer.
  - left. by rewrite Hy in Hy'; simplify_eq.
Qed.
Lemma duplex_strip n s t u : nsteps duplex n s t → stuck hl cl hr cr t → duplex s u → ∃ m, n = Datatypes.S m ∧ nsteps duplex m u t.
Proof.
  revert s u. induction n as [|n IH]; intros s u Hn Ht Hu.
  - inversion Hn; subst. by destruct (Ht u).
  - inversion_clear Hn as [|? ? a ? Ha Hn']. exists n. split; [done|].
    destruct (duplex_diamond s a u Ha Hu) as [<-|(v & Hv & Hv')]; [done|].
    destruct (IH a v Hn' Ht Hv) as (m & -> & Hm). by eapply nsteps_l.
Qed.
(** All interleavings are as long as one that ends where nothing more can be
    done, or can be continued to the same end. *)
Theorem duplex_confluent n m s t u :
  nsteps duplex n s t → stuck hl cl hr cr t → nsteps duplex m s u → (m <= n)%nat ∧ nsteps duplex (n - m) u t.
Proof.
  intros Hn Ht. revert n s Hn. induction m as [|m IH]; intros n s Hn Hm.
  - inversion Hm; subst. rewrite Nat.sub_0_r. split; [lia|done].
  - inversion_clear Hm as [|? ? a ? Ha Hm']. destruct (duplex_strip n s t a Hn Ht Ha) as (k & -> & Hk).
    destruct (IH k a Hk Hm') as [H1 H2]. split; [lia|done].
Qed.
Corollary duplex_ends s t : rtc duplex s t → stuck hl cl hr cr t → ∃ n, ∀ m u, nsteps duplex m s u → (m <= n)%nat ∧ rtc duplex u t.
Proof.
  intros Hst Ht. apply rtc_nsteps in Hst as (n & Hn). exists n. intros m u Hm.
  destruct (duplex_confluent n m s t u Hn Ht Hm) as [H1 H2]. split; [done|]. apply rtc_nsteps. by eexists.
Qed.
Lemma ret_stuck a b s q q' t z z' : @stuck S A T B hl cl hr cr (mkSide (Ret a) s q z, mkSide (Ret b) t q' z').
Proof. intros s' H. inversion H; by simplify_eq. Qed.
End confluence.

(** ** Running an end as far as its bytes allow *)

Section advance.
Context {S : Type} (h : handler S) (c : conn) (peerShut : bool).

(** The end when it waits for more bytes or has returned, and the bytes that it
    wrote. *)
Fixpoint advance {A} (p : io A) (s : S) (q : list Z) (shut : bool) : side S A * list Z :=
  match p with
  | Ret a => (mkSide (Ret a) s q shut, [])
  | @Do _ X e k =>
    let local := let '(y, s) := h X e s in advance (k y) s q shut in
    match e in ioE X return (X → io A) → (X → S → list Z → bool → side S A * list Z) → side S A * list Z with
    | ReadFull c' n => λ k adv,
      if negb (c' =? c) then local else
      if shut then adv (Err ErrClosedPipe) s q true else
      if n <=? len q then adv (Ok (slice_to n q)) s (slice_from n q) false else
      if peerShut then adv (Err (if len q =? 0 then EOF else ErrUnexpectedEOF)) s [] false else (mkSide (Do (ReadFull c' n) k) s q false, [])
    | Write c' l => λ k adv,
      if negb (c' =? c) then local else
      if shut then adv (Some ErrClosedPipe) s q true else let '(x, w) := adv None s q false in (x, l ++ w)
    | CloseConn c' => λ k adv, if negb (c' =? c) then local else adv tt s q true
    | _ => λ k adv, local
    end k (λ y s q shut, advance (k y) s q shut)
  end.

Lemma advance_bind {A B} (f : A → io B) (p : io A) s q shut :
  advance (io_bind_ f p) s q shut =
    match advance p s q shut with
    | (mkSide (Ret a) s q shut, w) => let '(x, w') := advance (f a) s q shut in (x, w ++ w')
    | (mkSide p s q shut, w) => (mkSide (io_bind_ f p) s q shut, w)
    end.
Proof.
  revert s q shut. induction p as [a|X e k IH]; intros s q shut; cbn.
  - by destruct (advance (f a) s q shut).
  - destruct e; cbn; try (by destruct (h _ _ s) as [y s']).
    + destruct (negb _); [by destruct (h _ _ s) as [y s']|]. destruct shut; [apply IH|]. destruct (_ <=? _); [apply IH|].
      destruct peerShut; [apply IH|done].
    + destruct (negb _); [by destruct (h _ _ s) as [y s']|]. destruct shut; [apply IH|]. rewrite IH.
      destruct (advance (k None) s q false) as [[p' s' q' z] w]. destruct p'; [|done].
      destruct (advance (f a) s' q' z). by rewrite app_assoc.
    + destruct (negb _); [by destruct (h _ _ s) as [y s']|apply IH].
Qed.

Lemma advance_steps {A} (P : side S A → list Z → Prop) (p : io A) s q shut :
  P (mkSide p s q shut) [] →
  (∀ x x' w v, P x v → sideStep h c peerShut x = Some (x', w) → P x' (v ++ w)) →
  P (advance p s q shut).1 (advance p s q shut).2.
Proof.
  intros HP Hs. enough (∀ v, P (mkSide p s q shut) v → P (advance p s q shut).1 (v ++ (advance p s q shut).2)) as H by by apply (H []).
  clear HP. revert s q shut. induction p as [a|X e k IH]; intros s q shut v HP; cbn; [by rewrite app_nil_r|].
  assert (∀ y s' q' z, sideStep h c peerShut (mkSide (Do e k) s q shut) = Some (mkSide (k y) s' q' z, []) →
    P (advance (k y) s' q' z).1 (v ++ (advance (k y) s' q' z).2)) as Hstep.
  { intros y s' q' z E. apply IH. rewrite <-(app_nil_r v). by eapply Hs. }
  destruct e; cbn; try (destruct (h _ _ s) as [y s'] eqn:Eh; apply Hstep; unfold sideStep; cbn; by rewrite Eh).
  - destruct (negb (_ =? c)) eqn:Ec; [destruct (h _ _ s) as [y s'] eqn:Eh; apply Hstep; unfold sideStep; cbn; by rewrite Ec, Eh|].
    destruct shut; [apply Hstep; unfold sideStep; cbn; by rewrite Ec|].
    destruct (_ <=? _) eqn:El; [apply Hstep; unfold sideStep; cbn; by rewrite Ec, El|].
    destruct peerShut; [apply Hstep; unfold sideStep; cbn; by rewrite Ec, El|by rewrite app_nil_r].
  - destruct (negb (_ =? c)) eqn:Ec; [destruct (h _ _ s) as [y s'] eqn:Eh; apply Hstep; unfold sideStep; cbn; by rewrite Ec, Eh|].
    destruct shut; [apply Hstep; unfold sideStep; cbn; by rewrite Ec|].
    specialize (IH None s q false (v ++ l)). destruct (advance (k None) s q false) as [x w]. cbn [fst snd] in *. rewrite app_assoc. apply IH.
    eapply Hs; [done|]. unfold sideStep. cbn. by rewrite Ec.
  - destruct (negb (_ =? c)) eqn:Ec; [destruct (h _ _ s) as [y s'] eqn:Eh; apply Hstep; unfold sideStep; cbn; by rewrite Ec, Eh|].
    apply Hstep. unfold sideStep. cbn. by rewrite Ec.
Qed.
End advance.

Section advance_duplex.
Context {S A T B : Type} (hl : handler S) (cl : conn) (hr : handler T) (cr : conn).
Abbreviation duplex := (@duplex S A T B hl cl hr cr).

Lemma receive_app {U C} (l k : list Z) (x : side U C) : receive k (receive l x) = receive (l ++ k) x.
Proof. unfold receive. cbn. by rewrite app_assoc. Qed.
Lemma advance_left p s q z y x' w :
  advance hl cl (sd_shut y) p s q z = (x', w) → rtc duplex (mkSide p s q z, y) (x', receive w y).
Proof.
  pose proof (advance_steps hl cl (sd_shut y) (λ x w, rtc duplex (mkSide p s q z, y) (x, receive w y)) p s q z) as H.
  intros E. rewrite E in H. cbn in H. apply H; [by rewrite receive_nil|]. intros x x'' v w' Hr Hs. eapply rtc_r; [done|].
  rewrite <-receive_app. apply StepLeft. exact Hs.
Qed.
Lemma advance_right p s q z x y' w :
  advance hr cr (sd_shut x) p s q z = (y', w) → rtc duplex (x, mkSide p s q z) (receive w x, y').
Proof.
  pose proof (advance_steps hr cr (sd_shut x) (λ y w, rtc duplex (x, mkSide p s q z) (receive w x, y)) p s q z) as H.
  intros E. rewrite E in H. cbn in H. apply H; [by rewrite receive_nil|]. intros y y'' v w' Hr Hs. eapply rtc_r; [done|].
  rewrite <-receive_app. apply StepRight. exact Hs.
Qed.
End advance_duplex.

Section advance_rules.
Context {S : Type} (h : handler S) (c : conn).
Implicit Types (s : S) (q : list Z) (ps : bool).

Lemma advance_read {A} ps m n (k : list Z → io (result A)) s q :
  advance h c ps (attempt (wrapping m (read c n)) k) s q false =
    if n <=? len q then advance h c ps (k (slice_to n q)) s (slice_from n q) false else
    if ps then (mkSide (Ret (Err (Wrapf m (if len q =? 0 then EOF else ErrUnexpectedEOF)))) s [] false, [])
    else (mkSide (attempt (wrapping m (read c n)) k) s q false, []).
Proof. cbn. rewrite Z.eqb_refl. cbn. destruct (n <=? len q); [done|]. by destruct ps. Qed.
Lemma advance_read_app {A} ps m n (k : list Z → io (result A)) s w q :
  len w = n → advance h c ps (attempt (wrapping m (read c n)) k) s (w ++ q) false = advance h c ps (k w) s q false.
Proof.
  intros <-. rewrite advance_read, len_app. pose proof (len_nonneg q). rewrite (proj2 (Z.leb_le _ _)) by lia.
  by rewrite slice_to_app, slice_from_app.
Qed.
Lemma advance_read_nil {A} ps m n (k : list Z → io (result A)) s :
  0 < n → advance h c ps (attempt (wrapping m (read c n)) k) s [] false =
    (mkSide (if ps then Ret (Err (Wrapf m EOF)) else attempt (wrapping m (read c n)) k) s [] false, []).
Proof. intros. rewrite advance_read, len_nil, (proj2 (Z.leb_gt _ _)) by lia. by destruct ps. Qed.
Lemma advance_write {A} ps m l (k : unit → io (result A)) s q :
  advance h c ps (attempt (wrapping m (write c l)) k) s q false = let '(x, w) := advance h c ps (k tt) s q false in (x, l ++ w).
Proof. cbn. by rewrite Z.eqb_refl. Qed.
Lemma advance_write_last ps m l s q : advance h c ps (wrapping m (write c l)) s q false = (mkSide (Ret (Ok tt)) s q false, l).
Proof. cbn. rewrite Z.eqb_refl. cbn. by rewrite app_nil_r. Qed.
Lemma advance_timeout {A} ps c' t (p : io A) s q z :
  advance h c ps (call (SetReadTimeout c' t) >> p) s q z = let '(_, s) := h _ (SetReadTimeout c' t) s in advance h c ps p s q z.
Proof. done. Qed.

(** The program returns without an error. *)
Definition wins {A} (p : io (result A)) s q : Prop := ∃ a, sd_prog (advance h c false p s q false).1 = Ret (Ok a).
Lemma wins_read {A} m n (k : list Z → io (result A)) s q :
  wins (attempt (wrapping m (read c n)) k) s q ↔ n <= len q ∧ wins (k (slice_to n q)) s (slice_from n q).
Proof.
  unfold wins. rewrite advance_read. destruct (Z.leb_spec n (len q)); [naive_solver|]. split; [|naive_solver lia].
  by intros (a & E).
Qed.
Lemma wins_write {A} m l (k : unit → io (result A)) s q : wins (attempt (wrapping m (write c l)) k) s q ↔ wins (k tt) s q.
Proof. unfold wins. rewrite advance_write. by destruct (advance h c false (k tt) s q false). Qed.
Lemma wins_write_last m l s q : wins (wrapping m (write c l)) s q.
Proof. unfold wins. rewrite advance_write_last. by eexists. Qed.
Lemma wins_fail {A} e s q : ¬ wins (A := A) (fail e) s q.
Proof. by intros (a & E). Qed.
Lemma wins_deferred {A} c' t (p : io (result A)) s q :
  wins (deferred (call (SetReadTimeout c' t)) p) s q ↔ wins p s q.
Proof.
  unfold wins, deferred. rewrite advance_bind. destruct (advance h c false p s q false) as [[p' s' q' z] w]. destruct p' as [r|X e k].
  - cbn. destruct (h _ _ s') as [x s'']. done.
  - cbn. split; by intros (a & E).
Qed.
Lemma wins_timeout {A} c' t (p : io (result A)) s q :
  (∀ s, (h _ (SetReadTimeout c' t) s).2 = s) → wins (call (SetReadTimeout c' t) >> p) s q ↔ wins p s q.
Proof. intros Hh. unfold wins. rewrite advance_timeout. pose proof (Hh s). destruct (h _ _ s) as [x s']. cbn in *. by subst. Qed.
End advance_rules.

Lemma advance_bind_ret {S A B} (h : handler S) c ps (f : A → io B) p s q z a s' q' z' w :
  advance h c ps p s q z = (mkSide (Ret a) s' q' z', w) →
  advance h c ps (io_bind_ f p) s q z = let '(x, w') := advance h c ps (f a) s' q' z' in (x, w ++ w').
Proof. intros E. by rewrite advance_bind, E. Qed.
Lemma advance_bind_wait {S A B X} (h : handler S) c ps (f : A → io B) p s q z (e : ioE X) (k : X → io A) s' q' z' w :
  advance h c ps p s q z = (mkSide (Do e k) s' q' z', w) →
  advance h c ps (io_bind_ f p) s q z = (mkSide (io_bind_ f (Do e k)) s' q' z', w).
Proof. intros E. by rewrite advance_bind, E. Qed.

Section calls_rules.
Context (G : ∀ X, ioE X → Prop) (R : ∀ X, ioE X → X → Prop).

Lemma calls_attempt {A B} (p : io (result A)) (k : A → io (result B)) Q :
  calls_ok G R p (λ r, match r with Ok a => calls_ok G R (k a) Q | Err e => Q (Err e) | Panic m => Q (Panic m) end) →
  calls_ok G R (attempt p k) Q.
Proof. intros H. apply calls_ok_bind. eapply calls_ok_mono, H. by intros []. Qed.
Lemma calls_wrapping {A} m (p : io (result A)) Q :
  calls_ok G R p (λ r, Q (match r with Err e => Err (Wrapf m e) | r => r end)) → calls_ok G R (wrapping m p) Q.
Proof. intros H. by apply calls_ok_bind. Qed.
Lemma calls_deferred {A} (q : io unit) (p : io A) Q :
  calls_ok G R p (λ a, calls_ok G R q (λ _, Q a)) → calls_ok G R (deferred q p) Q.
Proof. intros H. apply calls_ok_bind. eapply calls_ok_mono, H. intros a Ha. by apply calls_ok_bind. Qed.
Lemma calls_andThen {A B} (p : io A) (q : io B) Q : calls_ok G R p (λ _, calls_ok G R q Q) → calls_ok G R (p >> q) Q.
Proof. intros H. by apply calls_ok_bind. Qed.
End calls_rules.

(** ** Composition in time *)

Definition andThenSide {S A B} (f : A → io B) (x : side S A) : side S B :=
  mkSide (io_bind_ f (sd_prog x)) (sd_state x) (sd_inq x) (sd_shut x).
Lemma sideStep_bind {S A B} (h : handler S) c ps (f : A → io B) (x x' : side S A) w :
  sideStep h c ps x = Some (x', w) → sideStep h c ps (andThenSide f x) = Some (andThenSide f x', w).
Proof.
  destruct x as [p s q z]. unfold sideStep, andThenSide. cbn [sd_prog sd_state sd_inq sd_shut]. destruct p as [a|X e k]; [done|].
  destruct e; cbn; repeat case_match; intros [= <- <-]; done.
Qed.
(** What two ends do, they do at the start of longer programs. *)
Lemma duplex_bind_left {S T A B A'} (hl : handler S) cl (hr : handler T) cr (f : A → io A') (x x' : side S A) (y y' : side T B) :
  rtc (duplex hl cl hr cr) (x, y) (x', y') → rtc (duplex hl cl hr cr) (andThenSide f x, y) (andThenSide f x', y').
Proof.
  intros Hr. refine (rtc_congruence (λ s : side S A * side T B, (andThenSide f s.1, s.2)) (duplex hl cl hr cr) (x, y) (x', y') _ Hr). intros s t Hs. destruct Hs as [u u' v w H|u v v' w H]; cbn.
  - by constructor; apply sideStep_bind.
  - by apply (StepRight hl cl hr cr (andThenSide f u)).
Qed.
Lemma duplex_bind_right {S T A B B'} (hl : handler S) cl (hr : handler T) cr (g : B → io B') (x x' : side S A) (y y' : side T B) :
  rtc (duplex hl cl hr cr) (x, y) (x', y') → rtc (duplex hl cl hr cr) (x, andThenSide g y) (x', andThenSide g y').
Proof.
  intros Hr. refine (rtc_congruence (λ s : side S A * side T B, (s.1, andThenSide g s.2)) (duplex hl cl hr cr) (x, y) (x', y') _ Hr). intros s t Hs. destruct Hs as [u u' v w H|u v v' w H]; cbn.
  - by apply (StepLeft hl cl hr cr _ _ (andThenSide g v)).
  - by constructor; apply sideStep_bind.
Qed.

Section ends.
Context {S A T B : Type} (hl : handler S) (cl : conn) (hr : handler T) (cr : conn).
Abbreviation duplex := (@duplex S A T B hl cl hr cr).

(** The two ends can come to where [N] holds. *)
Definition ends (N : side S A → side T B → Prop) x y : Prop := ∃ x' y', N x' y' ∧ rtc duplex (x, y) (x', y').
Lemma ends_left N p st q z y x' w :
  advance hl cl (sd_shut y) p st q z = (x', w) → ends N x' (receive w y) → ends N (mkSide p st q z) y.
Proof. intros E (x & y' & HN & Hr). exists x, y'. split; [done|]. etrans; [|exact Hr]. by eapply advance_left. Qed.
Lemma ends_right N p t q z x y' w :
  advance hr cr (sd_shut x) p t q z = (y', w) → ends N (receive w x) y' → ends N x (mkSide p t q z).
Proof. intros E (x' & y & HN & Hr). exists x', y. split; [done|]. etrans; [|exact Hr]. by eapply advance_right. Qed.
Lemma ends_prefix N x y x' y' : rtc duplex (x, y) (x', y') → ends N x' y' → ends N x y.
Proof. intros Hr (u & v & HN & Hr'). exists u, v. split; [done|]. by etrans. Qed.
Lemma ends_here (N : side S A → side T B → Prop) x y : N x y → ends N x y.
Proof. intros. by exists x, y. Qed.
Lemma ends_receive N x p t q z l : ends N x (mkSide p t (q ++ l) z) → ends N x (receive l (mkSide p t q z)).
Proof. done. Qed.
Lemma ends_receive_left N p st q z l y : ends N (mkSide p st (q ++ l) z) y → ends N (receive l (mkSide p st q z)) y.
Proof. done. Qed.
(** If nothing more can be done there, every interleaving comes there. *)
Lemma ends_all N x y :
  (∀ x y, N x y → stuck hl cl hr cr (x, y)) → ends N x y →
  ∃ x' y' n, N x' y' ∧ ∀ m u, nsteps duplex m (x, y) u → (m <= n)%nat ∧ rtc duplex u (x', y').
Proof.
  intros HN (x' & y' & H & Hr). destruct (duplex_ends hl cl hr cr _ _ Hr (HN _ _ H)) as (n & Hn). by exists x', y', n.
Qed.
End ends.
