(* ===== verification/Socks.v ===== *)
(** * apis/model: SOCKS5 addresses, requests and responses; and
    apis/common/packet_over_stream.go: packets in a stream

    What is read from an [io.Reader] is a program of reads [rd], with three
    readers: [rd_bytes] is [bytes.Reader] (and a connection that has already
    sent its bytes and ends), [rd_conn] a connection, [rd_tee] a [TeeReader].  A
    function that writes to an [io.Writer] builds its bytes and writes them in
    one call; here it returns the bytes.

    Theorems: an address, a request and a response are read back from what is
    written, and only from that; [Raw] is what was read; a [TeeReader] records
    what was read; the packets that are written to a tunnel are read from it, in
    order. *)
From S2P Require Import Prelude GoStd GoNet GoIP Effects.

(** ** Readers *)

Inductive rd (A : Type) : Type :=
| RRet (r : result A)
| RRead (n : Z) (k : list Z → rd A).
Arguments RRet {A} r.
Arguments RRead {A} n k.
#[export] Instance rd_ret : MRet rd := λ A a, RRet (Ok a).
Fixpoint rd_bind_ {A B} (f : A → rd B) (p : rd A) : rd B :=
  match p with
  | RRet (Ok a) => f a
  | RRet (Err e) => RRet (Err e)
  | RRet (Panic m) => RRet (Panic m)
  | RRead n k => RRead n (λ l, rd_bind_ f (k l))
  end.
#[export] Instance rd_bind : MBind rd := @rd_bind_.
Definition rread (n : Z) : rd (list Z) := RRead n (λ l, RRet (Ok l)).
Definition rfail {A} (e : error) : rd A := RRet (Err e).

(** [io.ReadFull] fails with EOF if there is no byte at all. *)
Fixpoint rd_bytes {A} (p : rd A) (l : list Z) : result A * list Z :=
  match p with
  | RRet r => (r, l)
  | RRead n k =>
    if n <=? len l then rd_bytes (k (slice_to n l)) (slice_from n l)
    else (Err (if len l =? 0 then EOF else ErrUnexpectedEOF), [])
  end.
Fixpoint rd_conn {A} (c : conn) (p : rd A) : io (result A) :=
  match p with
  | RRet r => Ret r
  | RRead n k => let! l := read c n in rd_conn c (k l)
  end.
(** The result with the bytes that were read. *)
Fixpoint rd_tee_ {A} (buf : list Z) (p : rd A) : rd (A * list Z) :=
  match p with
  | RRet r => RRet ((λ a, (a, buf)) <$> r)
  | RRead n k => RRead n (λ l, rd_tee_ (buf ++ l) (k l))
  end.
Definition rd_tee {A} (p : rd A) : rd (A * list Z) := rd_tee_ [] p.

(** ** apis/constant/socks5.go *)

Definition Socks5Version : Z := 5.
Definition Socks5ConnectCmd : Z := 1.
Definition Socks5BindCmd : Z := 2.
Definition Socks5UDPAssociateCmd : Z := 3.
Definition Socks5IPv4Address : Z := 1.
Definition Socks5FQDNAddress : Z := 3.
Definition Socks5IPv6Address : Z := 4.
Definition Socks5NoAuth : Z := 0.
Definition Socks5UserPassAuth : Z := 2.
Definition Socks5NoAcceptableAuth : Z := 255.
Definition Socks5UserPassAuthVersion : Z := 1.
Definition Socks5AuthSuccess : Z := 0.
Definition Socks5AuthFailure : Z := 1.
Definition Socks5ReplySuccess : Z := 0.
Definition Socks5ReplyNotAllowedByRuleSet : Z := 2.
Definition Socks5ReplyNetworkUnreachable : Z := 3.
Definition Socks5ReplyHostUnreachable : Z := 4.
Definition Socks5ReplyConnectionRefused : Z := 5.
Definition Socks5ReplyCommandNotSupported : Z := 7.
Definition Socks5ReplyAddrTypeNotSupported : Z := 8.
Definition Socks5MaxUDPHeaderLen : Z := 262.

(** ** apis/model/addr.go *)

Definition ErrUnrecognizedAddrType : error := Errorf "unrecognized address type".

(** An empty [a_IP] is the nil IP. *)
Record AddrSpec := mkAddrSpec { FQDN : list Z; a_IP : list Z; a_Port : Z }.
#[export] Instance AddrSpec_eta : Settable AddrSpec := λ a, mkAddrSpec (FQDN a) (a_IP a) (a_Port a).
#[global] Instance AddrSpec_eq_dec : EqDecision AddrSpec.
Proof. solve_decision. Defined.
Definition noAddr : AddrSpec := mkAddrSpec [] [] 0.

Definition AddrSpec_String (a : AddrSpec) : list Z :=
  if negb (len (a_IP a) =? 0) then JoinHostPort (IP_String (a_IP a)) (Itoa (a_Port a)) else JoinHostPort (FQDN a) (Itoa (a_Port a)).
Definition AddrType (a : AddrSpec) : Z :=
  if bool_decide (is_Some (To4 (a_IP a))) then Socks5IPv4Address else
  if bool_decide (is_Some (To16 (a_IP a))) then Socks5IPv6Address else
  if negb (len (FQDN a) =? 0) then Socks5FQDNAddress else 0.
Definition AddrSpec_From (addr : list Z) : result AddrSpec :=
  '(host, portStr) ← SplitHostPort addr;
  port ← Atoi portStr;
  if (port <? 0) || (port >? 65535) then Err (Errorf "port is out of range") else
  match ParseIP host with
  | Some ip => Ok (mkAddrSpec [] ip port)
  | None => if len host >? 255 then Err (Errorf "FQDN exceeds 255 bytes") else Ok (mkAddrSpec host [] port)
  end.

(** [ReadFromSocks5], from the type on: [a] is the object it is called on. *)
Definition readAddr (a : AddrSpec) (addrType : Z) : rd AddrSpec :=
  a ← (if addrType =? Socks5IPv4Address then addr ← rread 4; mret (a<|a_IP := addr|>) else
       if addrType =? Socks5IPv6Address then addr ← rread 16; mret (a<|a_IP := addr|>) else
       if addrType =? Socks5FQDNAddress then
         addrLen ← rread 1;
         fqdn ← rread (byte_at 0 addrLen);
         mret (a<|FQDN := fqdn|>)
       else rfail ErrUnrecognizedAddrType);
  port ← rread 2;
  mret (a<|a_Port := Z.lor (Z.shiftl (byte_at 0 port) 8) (byte_at 1 port)|>).
Definition ReadFromSocks5 (a : AddrSpec) : rd AddrSpec :=
  addrType ← rread 1;
  readAddr a (byte_at 0 addrType).
Definition WriteToSocks5 (a : AddrSpec) : result (list Z) :=
  b ← match To4 (a_IP a), To16 (a_IP a) with
      | Some ip4, _ => Ok (Socks5IPv4Address :: ip4)
      | None, Some ip => Ok (Socks5IPv6Address :: ip)
      | None, None => if negb (len (FQDN a) =? 0) then Ok (Socks5FQDNAddress :: u8 (len (FQDN a)) :: FQDN a) else Err ErrUnrecognizedAddrType
      end;
  let addrPort := u16 (a_Port a) in
  Ok (b ++ [u8 (Z.shiftr addrPort 8); u8 (Z.land addrPort 255)]).

Record NetAddrSpec := mkNetAddrSpec { n_AddrSpec : AddrSpec; n_Net : string }.
(** [From] of an address of another type. *)
Definition NetAddrSpec_From (addr : list Z) (network : string) : result NetAddrSpec :=
  a ← AddrSpec_From addr; Ok (mkNetAddrSpec a network).

(** ** apis/model/socks.go *)

Record Request := mkRequest { Command : Z; DstAddr : AddrSpec; Raw : list Z }.
#[export] Instance Request_eta : Settable Request := λ r, mkRequest (Command r) (DstAddr r) (Raw r).
Record Response := mkResponse { Reply : Z; BindAddr : AddrSpec; r_Raw : list Z }.
#[export] Instance Response_eta : Settable Response := λ r, mkResponse (Reply r) (BindAddr r) (r_Raw r).

(** The [MultiReader] gives the type first, and the rest from the tee. *)
Definition readSocks5AddrAfterType (addrType : Z) : rd (AddrSpec * list Z) := rd_tee (readAddr noAddr addrType).
Definition ReadSocks5Request : rd Request :=
  header ← rread 4;
  '(dstAddr, addrRaw) ← readSocks5AddrAfterType (byte_at 3 header);
  mret (mkRequest (byte_at 1 header) dstAddr (header ++ addrRaw)).
Definition ReadSocks5Response : rd Response :=
  header ← rread 4;
  '(bindAddr, addrRaw) ← readSocks5AddrAfterType (byte_at 3 header);
  mret (mkResponse (byte_at 1 header) bindAddr (header ++ addrRaw)).

(** The body of [ReadFromSocks5] of both types: code and address. *)
Definition readMessage (a : AddrSpec) : rd (Z * AddrSpec) :=
  header ← rread 3;
  if negb (byte_at 0 header =? Socks5Version) then rfail (Errorf "invalid version") else
  addr ← ReadFromSocks5 a;
  mret (byte_at 1 header, addr).
Definition Request_ReadFromSocks5 (r : Request) : rd Request :=
  '((c, a), buf) ← rd_tee (readMessage (DstAddr r)); mret (mkRequest c a buf).
Definition Response_ReadFromSocks5 (r : Response) : rd Response :=
  '((c, a), buf) ← rd_tee (readMessage (BindAddr r)); mret (mkResponse c a buf).
Definition noRequest : Request := mkRequest 0 noAddr [].
Definition noResponse : Response := mkResponse 0 noAddr [].

(** The request with the bytes that are written. *)
Definition Request_WriteToSocks5 (r : Request) : result Request :=
  b ← WriteToSocks5 (DstAddr r); Ok (r<|Raw := [Socks5Version; Command r; 0] ++ b|>).
Definition Response_WriteToSocks5 (r : Response) : result Response :=
  b ← WriteToSocks5 (BindAddr r); Ok (r<|r_Raw := [Socks5Version; Reply r; 0] ++ b|>).
Definition WriteSocks5Request (c : conn) (command : Z) (dst : AddrSpec) : io (result unit) :=
  let! req := lift (Request_WriteToSocks5 (mkRequest command dst [])) in write c (Raw req).
Definition WriteSocks5Response (c : conn) (reply : Z) (bind : AddrSpec) : io (result unit) :=
  let! resp := lift (Response_WriteToSocks5 (mkResponse reply bind [])) in write c (r_Raw resp).
Definition ToNetAddrSpec (r : Request) : result NetAddrSpec :=
  if Command r =? Socks5ConnectCmd then Ok (mkNetAddrSpec (DstAddr r) "tcp") else
  if Command r =? Socks5UDPAssociateCmd then Ok (mkNetAddrSpec (DstAddr r) "udp") else Err (Errorf "unsupported socks5 command").

(** ** apis/common/packet_over_stream.go *)

(** [Read] into a buffer of [size] bytes: the packet; [tunnelBody] is the part
    behind the length. *)
Definition tunnelBody (length : Z) : rd (list Z) :=
  p ← rread length;
  delim ← rread 1;
  if negb (byte_at 0 delim =? 255) then rfail (Errorf "packet suffix is not 0xff") else
  mret p.
Definition tunnelRead (size : Z) : rd (list Z) :=
  delim ← rread 1;
  if negb (byte_at 0 delim =? 0) then rfail (Errorf "packet prefix is not 0x00") else
  lengthBytes ← rread 2;
  let length := be_get lengthBytes in
  if length >? size then rfail ErrShortBuffer else tunnelBody length.
Definition tunnelFrame (p : list Z) : result (list Z) :=
  if len p >? 65535 then Err (Errorf "packet length is larger than maximum length 65535") else
  Ok ([0] ++ be_put 2 (u16 (len p)) ++ p ++ [255]).
Definition tunnelWrite (c : conn) (p : list Z) : io (result Z) :=
  let! data := lift (tunnelFrame p) in let! _ := write c data in ok (len p).

(** ** Lemmas on readers *)

Lemma rd_bytes_bind {A B} (p : rd A) (f : A → rd B) l :
  rd_bytes (rd_bind_ f p) l =
    match rd_bytes p l with (Ok a, r) => rd_bytes (f a) r | (Err e, r) => (Err e, r) | (Panic m, r) => (Panic m, r) end.
Proof.
  revert l. induction p as [[]|n k IH]; intros l; cbn; try done. destruct (n <=? len l); [apply IH|done].
Qed.
Lemma rd_bytes_suffix {A} (p : rd A) l a r : rd_bytes p l = (Ok a, r) → ∃ w, l = w ++ r.
Proof.
  revert l. induction p as [res|n k IH]; intros l; cbn.
  - intros [= _ <-]. by exists [].
  - destruct (n <=? len l); [|done]. intros H. apply IH in H as (w & E). exists (slice_to n l ++ w).
    by rewrite <-app_assoc, <-E, slice_to_from.
Qed.
Lemma take_prefix {A} (w r : list A) : take (length (w ++ r) - length r) (w ++ r) = w.
Proof. rewrite length_app. replace (_ + _ - _)%nat with (length w) by lia. apply take_app_length. Qed.
(** A [TeeReader] changes nothing, and records what is read. *)
Lemma rd_tee_spec_ {A} (buf : list Z) (p : rd A) l :
  rd_bytes (rd_tee_ buf p) l =
    match rd_bytes p l with
    | (Ok a, r) => (Ok (a, buf ++ take (length l - length r) l), r) | (Err e, r) => (Err e, r) | (Panic m, r) => (Panic m, r)
    end.
Proof.
  revert buf l. induction p as [[a|e|m]|n k IH]; intros buf l; cbn; try done.
  - by rewrite Nat.sub_diag, take_0, app_nil_r.
  - destruct (n <=? len l); [|done]. rewrite IH. destruct (rd_bytes (k _) _) as [[a|e|m] r] eqn:E; [|done|done].
    apply rd_bytes_suffix in E as (w & E). do 3 f_equal. rewrite <-app_assoc. f_equal.
    assert (l = (slice_to n l ++ w) ++ r) as El by (by rewrite <-app_assoc, <-E, slice_to_from).
    rewrite E, take_prefix. generalize (slice_to n l) El. intros h ->. by rewrite take_prefix.
Qed.
Lemma rd_tee_Ok {A} (p : rd A) w r a : rd_bytes p (w ++ r) = (Ok a, r) → rd_bytes (rd_tee p) (w ++ r) = (Ok (a, w), r).
Proof.
  intros H. unfold rd_tee. rewrite rd_tee_spec_, H. by rewrite take_prefix.
Qed.
Lemma rd_tee_raw {A} (p : rd A) l a b r : rd_bytes (rd_tee p) l = (Ok (a, b), r) → l = b ++ r ∧ rd_bytes p l = (Ok a, r).
Proof.
  unfold rd_tee. rewrite rd_tee_spec_. destruct (rd_bytes p l) as [[a'|e|m] r'] eqn:E; [|done|done]. intros [= <- <- <-]. split; [|done].
  apply rd_bytes_suffix in E as (w & ->). by rewrite take_prefix.
Qed.
Lemma rread_Ok n w r : len w = n → rd_bytes (rread n) (w ++ r) = (Ok w, r).
Proof.
  intros <-. unfold rread. cbn. rewrite len_app. pose proof (len_nonneg r). rewrite (proj2 (Z.leb_le _ _)) by lia.
  by rewrite slice_to_app, slice_from_app.
Qed.
Lemma rread_inv n l w r : rd_bytes (rread n) l = (Ok w, r) → 0 <= n → l = w ++ r ∧ len w = n.
Proof.
  unfold rread. cbn. destruct (n <=? len l) eqn:E; [|done]. bool_to_prop. intros [= <- <-] Hn.
  split; [by rewrite slice_to_from|]. by apply len_slice_to.
Qed.
Lemma rd_bind_eq {A B} (p : rd A) (f : A → rd B) : p ≫= f = rd_bind_ f p.
Proof. done. Qed.

(** ** Addresses *)

(** What a SOCKS5 message can hold. *)
Record addr_ok (a : AddrSpec) : Prop := {
  ao_IP : bytes_ok (a_IP a);
  ao_FQDN : bytes_ok (FQDN a) ∧ len (FQDN a) <= 255;
  ao_some : is_Some (To16 (a_IP a)) ∨ a_IP a = [] ∧ FQDN a ≠ [];
  ao_Port : is_u16 (a_Port a)
}.
(** What the receiver sees: an IP hides the name, and an IPv4-mapped address is
    an IPv4 address. *)
Definition normalAddr (a : AddrSpec) : AddrSpec :=
  match To4 (a_IP a), To16 (a_IP a) with
  | Some ip, _ | None, Some ip => mkAddrSpec [] ip (a_Port a)
  | None, None => mkAddrSpec (FQDN a) [] (a_Port a)
  end.

Lemma To4_len ip ip4 : To4 ip = Some ip4 → len ip4 = 4.
Proof.
  unfold To4. repeat case_match; intros [= <-]; bool_to_prop; [done|]. rewrite len_drop. lia.
Qed.
Lemma To4_To16 ip ip4 : To4 ip = Some ip4 → is_Some (To16 ip).
Proof. unfold To4, To16. repeat case_match; intros; bool_to_prop; try done; eauto. Qed.
Lemma To4_none_To16 ip ip16 : To4 ip = None → To16 ip = Some ip16 → len ip16 = 16 ∧ ip16 = ip.
Proof. unfold To4, To16. repeat case_match; intros; simplify_eq; bool_to_prop; try done. Qed.
Lemma To16_nil : To16 [] = None ∧ To4 [] = None.
Proof. done. Qed.

Lemma lor_add a b n : 0 <= n → in_width n b → Z.lor (a * 2 ^ n) b = a * 2 ^ n + b.
Proof.
  intros Hn Hb. assert (Z.land (a * 2 ^ n) b = 0) as H.
  { apply Z.bits_inj'. intros m Hm. rewrite Z.land_spec, Z.bits_0. destruct (Z.ltb_spec m n).
    - by rewrite Z.mul_pow2_bits_low.
    - by rewrite (in_width_high n Hn b m Hb), andb_false_r. }
  by rewrite <-Z.lxor_lor, <-Z.add_nocarry_lxor.
Qed.
Lemma port_bytes p : is_u16 p → Z.lor (Z.shiftl (u8 (Z.shiftr (u16 p) 8)) 8) (u8 (Z.land (u16 p) 255)) = p.
Proof.
  intros Hp. rewrite (wrap_id 16 p Hp).
  replace 255 with (Z.ones 8) by done. rewrite Z.land_ones, Z.shiftr_div_pow2, Z.shiftl_mul_pow2 by lia. unfold is_u16, in_width in Hp.
  unfold wrap. rewrite Z.mod_mod by lia. assert (0 <= p / 2 ^ 8 < 2 ^ 8) by (Z.to_euclidean_division_equations; lia).
  rewrite (Z.mod_small (p / 2 ^ 8)) by done. rewrite lor_add by (try apply Z.mod_pos_bound; lia). rewrite (Z.div_mod p (2 ^ 8)) at 3 by lia. lia.
Qed.

Lemma rd_bytes_rread {A} n w (f : list Z → rd A) r : len w = n → rd_bytes (rd_bind_ f (rread n)) (w ++ r) = rd_bytes (f w) r.
Proof. intros. by rewrite rd_bytes_bind, rread_Ok. Qed.
(** Reading depends on what is read only. *)
Lemma rd_bytes_prefix {A} (p : rd A) w r r' a : rd_bytes p (w ++ r) = (Ok a, r) → rd_bytes p (w ++ r') = (Ok a, r').
Proof.
  revert w. induction p as [res|n k IH]; intros w; cbn.
  - intros [= -> E]. apply (f_equal length) in E. rewrite length_app in E. destruct w; [done|cbn in E; lia].
  - destruct (n <=? len (w ++ r)) eqn:E; [|done]. intros H. bool_to_prop. pose proof (rd_bytes_suffix _ _ _ _ H) as (v & Hv).
    assert (w = slice_to n (w ++ r) ++ v) as Ew.
    { apply (app_inv_tail r). by rewrite <-app_assoc, <-Hv, slice_to_from. }
    assert (len (slice_to n (w ++ r)) = Z.max 0 n) as Hn.
    { unfold slice_to. rewrite len_take. pose proof (len_nonneg (w ++ r)). lia. }
    set (h := slice_to n (w ++ r)) in *. clearbody h. rewrite Hv in H. subst w. apply IH in H.
    pose proof (len_nonneg v). pose proof (len_nonneg r'). rewrite !len_app in *. rewrite (proj2 (Z.leb_le _ _)) by lia.
    rewrite <-app_assoc. unfold slice_to, slice_from. rewrite take_app_length', drop_app_length' by (unfold len in Hn; lia). done.
Qed.

Lemma addr_body a :
  addr_ok a →
  ∃ t body, WriteToSocks5 a = Ok (t :: body) ∧ ∀ r, rd_bytes (readAddr noAddr t) (body ++ r) = (Ok (normalAddr a), r).
Proof.
  intros [Hip [Hf1 Hf2] Hs Hp]. unfold WriteToSocks5, normalAddr.
  set (port := [u8 (Z.shiftr (u16 (a_Port a)) 8); u8 (Z.land (u16 (a_Port a)) 255)]).
  assert (Z.lor (Z.shiftl (byte_at 0 port) 8) (byte_at 1 port) = a_Port a) as Eport by by apply port_bytes.
  assert (len port = 2) as Lport by done. clearbody port.
  destruct (To4 (a_IP a)) as [ip4|] eqn:E4; [|destruct (To16 (a_IP a)) as [ip|] eqn:E6].
  - exists Socks5IPv4Address, (ip4 ++ port). split; [done|]. intros r. unfold readAddr. cbn [Z.eqb Socks5IPv4Address Pos.eqb]. rewrite <-app_assoc, !rd_bind_eq.
    rewrite rd_bytes_bind, rd_bytes_rread by by eapply To4_len. cbn [rd_bytes rd_ret mret]. rewrite rd_bytes_rread by done. cbn.
    by rewrite Eport.
  - destruct (To4_none_To16 _ _ E4 E6) as [Hl ->]. exists Socks5IPv6Address, (a_IP a ++ port). split; [done|]. intros r. unfold readAddr.
    cbn [Z.eqb Socks5IPv6Address Socks5IPv4Address Pos.eqb]. rewrite <-app_assoc, !rd_bind_eq.
    rewrite rd_bytes_bind, rd_bytes_rread by done. cbn [rd_bytes rd_ret mret]. rewrite rd_bytes_rread by done. cbn. by rewrite Eport.
  - destruct Hs as [[? ?]|[Hi Hn]]; [done|]. assert (0 < len (FQDN a)).
    { pose proof (len_nonneg (FQDN a)). destruct (decide (len (FQDN a) = 0)) as [E0|]; [by apply len_zero in E0|lia]. }
    rewrite (proj2 (Z.eqb_neq (len (FQDN a)) 0)) by lia. cbn [negb]. exists Socks5FQDNAddress, ((u8 (len (FQDN a)) :: FQDN a) ++ port). split; [done|]. intros r. unfold readAddr.
    cbn [Z.eqb Socks5FQDNAddress Socks5IPv6Address Socks5IPv4Address Pos.eqb]. rewrite <-app_assoc, !rd_bind_eq.
    change (u8 (len (FQDN a)) :: FQDN a) with ([u8 (len (FQDN a))] ++ FQDN a). rewrite <-app_assoc.
    rewrite rd_bytes_bind, rd_bytes_rread by done. unfold byte_at at 1. cbn [nth]. rewrite !rd_bind_eq, rd_bytes_rread.
    2: { rewrite wrap_id; [done|]. split; [lia|]. change (2 ^ 8) with 256. lia. }
    cbn [rd_bytes rd_ret mret]. rewrite rd_bytes_rread by done. cbn. by rewrite Eport.
Qed.
Lemma addr_ok_write a : addr_ok a → is_Ok (WriteToSocks5 a).
Proof. intros H. destruct (addr_body a H) as (t & b & E & _). by eexists. Qed.

Lemma ReadFromSocks5_written a w r : addr_ok a → WriteToSocks5 a = Ok w → rd_bytes (ReadFromSocks5 noAddr) (w ++ r) = (Ok (normalAddr a), r).
Proof.
  intros Ha Hw. destruct (addr_body a Ha) as (t & b & E & Hr). rewrite E in Hw. simplify_eq. unfold ReadFromSocks5.
  change (t :: b) with ([t] ++ b). rewrite <-app_assoc, rd_bind_eq, rd_bytes_rread by done. apply Hr.
Qed.

(** ** Messages *)

Lemma readMessage_written c a w r :
  addr_ok a → WriteToSocks5 a = Ok w → rd_bytes (readMessage noAddr) (([Socks5Version; c; 0] ++ w) ++ r) = (Ok (c, normalAddr a), r).
Proof.
  intros Ha Hw. unfold readMessage. rewrite <-app_assoc, rd_bind_eq, rd_bytes_rread by done.
  change (byte_at 0 [Socks5Version; c; 0] =? Socks5Version) with true. cbn [negb].
  by rewrite rd_bind_eq, rd_bytes_bind, (ReadFromSocks5_written a).
Qed.
Lemma readRequest_written c a w r :
  addr_ok a → WriteToSocks5 a = Ok w →
  rd_bytes (Request_ReadFromSocks5 noRequest) (([Socks5Version; c; 0] ++ w) ++ r) =
    (Ok (mkRequest c (normalAddr a) ([Socks5Version; c; 0] ++ w)), r).
Proof.
  intros Ha Hw. unfold Request_ReadFromSocks5. change (DstAddr noRequest) with noAddr. rewrite rd_bind_eq, rd_bytes_bind.
  by rewrite (rd_tee_Ok _ _ _ _ (readMessage_written c a w r Ha Hw)).
Qed.
Lemma readResponse_written c a w r :
  addr_ok a → WriteToSocks5 a = Ok w →
  rd_bytes (Response_ReadFromSocks5 noResponse) (([Socks5Version; c; 0] ++ w) ++ r) =
    (Ok (mkResponse c (normalAddr a) ([Socks5Version; c; 0] ++ w)), r).
Proof.
  intros Ha Hw. unfold Response_ReadFromSocks5. change (BindAddr noResponse) with noAddr. rewrite rd_bind_eq, rd_bytes_bind.
  by rewrite (rd_tee_Ok _ _ _ _ (readMessage_written c a w r Ha Hw)).
Qed.
Lemma readSocks5Message_written {A} (mk : Z → AddrSpec → list Z → A) c a w r :
  addr_ok a → WriteToSocks5 a = Ok w →
  rd_bytes (header ← rread 4; '(addr, raw) ← readSocks5AddrAfterType (byte_at 3 header); mret (mk (byte_at 1 header) addr (header ++ raw)))
    (([Socks5Version; c; 0] ++ w) ++ r) = (Ok (mk c (normalAddr a) ([Socks5Version; c; 0] ++ w)), r).
Proof.
  intros Ha Hw. destruct (addr_body a Ha) as (t & b & E & Hr). rewrite E in Hw. simplify_eq.
  change (([Socks5Version; c; 0] ++ t :: b) ++ r) with ([Socks5Version; c; 0; t] ++ (b ++ r)).
  rewrite rd_bind_eq, rd_bytes_rread by done. rewrite rd_bind_eq, rd_bytes_bind. unfold readSocks5AddrAfterType.
  change (byte_at 3 [Socks5Version; c; 0; t]) with t. by rewrite (rd_tee_Ok _ _ _ _ (Hr r)).
Qed.

(** A request or response that is written is read back, by both readers of
    each, and nothing behind it is touched; an IP hides a name, and an
    IPv4-mapped address comes back as an IPv4 address. *)
Theorem socks5_message_roundtrip (c : Z) (a : AddrSpec) (raw rest : list Z) :
  addr_ok a →
  ∃ w, Request_WriteToSocks5 (mkRequest c a raw) = Ok (mkRequest c a w) ∧ Response_WriteToSocks5 (mkResponse c a raw) = Ok (mkResponse c a w) ∧
    rd_bytes (Request_ReadFromSocks5 noRequest) (w ++ rest) = (Ok (mkRequest c (normalAddr a) w), rest) ∧
    rd_bytes (Response_ReadFromSocks5 noResponse) (w ++ rest) = (Ok (mkResponse c (normalAddr a) w), rest) ∧
    rd_bytes ReadSocks5Request (w ++ rest) = (Ok (mkRequest c (normalAddr a) w), rest) ∧
    rd_bytes ReadSocks5Response (w ++ rest) = (Ok (mkResponse c (normalAddr a) w), rest).
Proof.
  intros Ha. destruct (addr_ok_write a Ha) as (b & Hb). exists ([Socks5Version; c; 0] ++ b).
  unfold Request_WriteToSocks5, Response_WriteToSocks5. cbn [DstAddr BindAddr]. rewrite Hb. split; [done|]. split; [done|].
  split; [by apply readRequest_written|]. split; [by apply readResponse_written|].
  split; [by apply (readSocks5Message_written mkRequest)|by apply (readSocks5Message_written mkResponse)].
Qed.

(** [Raw] is what was read, and reading it again gives the same message: the
    egress rules judge the request that is served. *)
Lemma tee_again {A B} (p : rd A) (f : A * list Z → B) l b r :
  rd_bytes (rd_bind_ (λ x, RRet (Ok (f x))) (rd_tee p)) l = (Ok b, r) →
  ∃ a w, l = w ++ r ∧ b = f (a, w) ∧ rd_bytes (rd_bind_ (λ x, RRet (Ok (f x))) (rd_tee p)) w = (Ok b, []).
Proof.
  rewrite rd_bytes_bind. destruct (rd_bytes (rd_tee p) l) as [[[a w]|e|m] r'] eqn:E; [|done|done]. intros [= <- <-].
  apply rd_tee_raw in E as [-> E]. exists a, w. split; [done|]. split; [done|].
  rewrite rd_bytes_bind. rewrite <-(app_nil_r w) at 1. apply (rd_bytes_prefix _ _ _ []) in E. by rewrite (rd_tee_Ok _ _ _ _ E).
Qed.
Lemma request_raw l req r :
  rd_bytes (Request_ReadFromSocks5 noRequest) l = (Ok req, r) →
  l = Raw req ++ r ∧ rd_bytes (Request_ReadFromSocks5 noRequest) (Raw req) = (Ok req, []).
Proof.
  set (f := λ x : Z * AddrSpec * list Z, mkRequest x.1.1 x.1.2 x.2).
  assert (∀ l, rd_bytes (Request_ReadFromSocks5 noRequest) l = rd_bytes (rd_bind_ (λ x, RRet (Ok (f x))) (rd_tee (readMessage noAddr))) l) as E.
  { intros l0. unfold Request_ReadFromSocks5. rewrite rd_bind_eq, !rd_bytes_bind. by destruct (rd_bytes _ l0) as [[[[]]| |]]. }
  rewrite !E. intros H. destruct (tee_again _ _ _ _ _ H) as (a & w & -> & -> & H'). split; [done|]. exact H'.
Qed.

(** What an address that was read looks like: it can be written again, unless
    it is the empty name. *)
Lemma read_addr_ok l a r : bytes_ok l → rd_bytes (ReadFromSocks5 noAddr) l = (Ok a, r) → addr_ok a ∨ a_IP a = [] ∧ FQDN a = [].
Proof.
  intros Hl. unfold ReadFromSocks5. rewrite rd_bind_eq, rd_bytes_bind. destruct (rd_bytes (rread 1) l) as [[t|e|m] l1] eqn:E1; [|done|done].
  apply rread_inv in E1 as [-> Ht]; [|done]. apply bytes_ok_app in Hl as [Hlt Hl]. unfold readAddr. rewrite rd_bind_eq, rd_bytes_bind.
  destruct (rd_bytes _ l1) as [[a1|e|m] l2] eqn:E2; [|done|done]. rewrite rd_bind_eq, rd_bytes_bind.
  destruct (rd_bytes (rread 2) l2) as [[p|e|m] l3] eqn:E3; [|done|done]. apply rread_inv in E3 as [-> Hp]; [|done]. intros [= <- <-].
  assert (∀ b, bytes_ok b → is_u16 (Z.lor (Z.shiftl (byte_at 0 b) 8) (byte_at 1 b))) as Hport.
  { intros b Hb. apply lor_in_width; [lia| |].
    - pose proof (byte_at_u8 0 b Hb) as [? ?]. rewrite Z.shiftl_mul_pow2 by lia. split; lia.
    - pose proof (byte_at_u8 1 b Hb) as [? ?]. split; [done|]. change (2 ^ 16) with 65536. change (2 ^ 8) with 256 in *. lia. }
  revert E2. repeat case_match; rewrite ?rd_bind_eq; intros E2; bool_to_prop.
  1-2: rewrite rd_bytes_bind in E2; destruct (rd_bytes (rread _) l1) as [[w|e|m] l4] eqn:E; try done; apply rread_inv in E as [-> Hw]; [|done];
    apply bytes_ok_app in Hl as [Hlw Hl]; injection E2 as <- ->; apply bytes_ok_app in Hl as [Hlp _]; left; split; cbn; try done;
    [by split; [constructor|]|left; unfold To16; rewrite Hw; by eexists|by apply Hport].
  - rewrite rd_bytes_bind in E2. destruct (rd_bytes (rread 1) l1) as [[n|e|m] l4] eqn:E; try done. apply rread_inv in E as [-> Hn]; [|done].
    apply bytes_ok_app in Hl as [Hln Hl]. rewrite rd_bind_eq, rd_bytes_bind in E2. pose proof (byte_at_u8 0 n Hln) as [? ?].
    destruct (rd_bytes (rread _) l4) as [[w|e|m] l5] eqn:E'; try done. apply rread_inv in E' as [-> Hw]; [|done].
    apply bytes_ok_app in Hl as [Hlw Hl]. injection E2 as <- ->. apply bytes_ok_app in Hl as [Hlp _].
    destruct (decide (w = [])) as [->|Hn0]; [by right|]. left. split; cbn; try done; [constructor|split; [done|]|by right|by apply Hport].
    change (2 ^ 8) with 256 in *. lia.
  - done.
Qed.

(** ** Packets in a stream *)

Fixpoint tunnelReads (size : Z) (n : nat) : rd (list (list Z)) :=
  match n with O => mret [] | S n => p ← tunnelRead size; ps ← tunnelReads size n; mret (p :: ps) end.
Lemma tunnelRead_header size p w r :
  tunnelFrame p = Ok w →
  rd_bytes (tunnelRead size) (w ++ r) =
    if len p >? size then (Err ErrShortBuffer, p ++ [255] ++ r) else rd_bytes (tunnelBody (len p)) (p ++ [255] ++ r).
Proof.
  unfold tunnelFrame. destruct (Z.gtb_spec (len p) 65535); [done|]. intros Hw. pose proof (len_nonneg p).
  assert (w = [0] ++ be_put 2 (u16 (len p)) ++ p ++ [255]) as -> by by injection Hw as <-.
  clear Hw. rewrite wrap_id by (split; [done|]; change (2 ^ 16) with 65536; lia).
  assert (be_get (be_put 2 (len p)) = len p) as Eg by (rewrite be_get_put; apply Z.mod_small; change (256 ^ Z.of_nat 2) with 65536; lia).
  assert (len (be_put 2 (len p)) = 2) as El by (unfold len; by rewrite be_put_length). revert Eg El. generalize (be_put 2 (len p)). intros h Eg El.
  unfold tunnelRead. rewrite rd_bind_eq. rewrite <-!app_assoc, rd_bytes_rread by done.
  change (byte_at 0 [0] =? 0) with true. cbn [negb]. rewrite rd_bind_eq, rd_bytes_rread by done. cbv zeta. rewrite Eg.
  by destruct (len p >? size).
Qed.
Lemma tunnelRead_frame size p w r :
  len p <= size → tunnelFrame p = Ok w → rd_bytes (tunnelRead size) (w ++ r) = (Ok p, r).
Proof.
  intros Hs Hw. rewrite (tunnelRead_header size p w r Hw). destruct (Z.gtb_spec (len p) size); [lia|]. unfold tunnelBody.
  rewrite rd_bind_eq, rd_bytes_rread by done. by rewrite rd_bind_eq, rd_bytes_rread by done.
Qed.
(** The packets that are written to a tunnel are read from it one by one, in
    order and whole, if they fit the reader's buffer; a packet of more than
    65535 bytes is refused, and one that does not fit the buffer is an error. *)
Theorem tunnel_roundtrip (size : Z) (ps : list (list Z)) (rest : list Z) :
  (Forall (λ p, len p <= size ∧ len p <= 65535) ps →
   ∃ ws, mapM (M := result) tunnelFrame ps = Ok ws ∧ rd_bytes (tunnelReads size (length ps)) (mjoin ws ++ rest) = (Ok ps, rest)) ∧
  (∀ p, 65535 < len p → is_Err (tunnelFrame p)) ∧
  (∀ p w, tunnelFrame p = Ok w → size < len p → (rd_bytes (tunnelRead size) (w ++ rest)).1 = Err ErrShortBuffer).
Proof.
  split; [|split].
  - intros Hps. revert rest. induction Hps as [|p ps [Hs Hp] Hps IH]; intros rest; [by exists []|].
    destruct (IH rest) as (ws & Ews & Er). assert (∃ w, tunnelFrame p = Ok w) as (w & Ew).
    { unfold tunnelFrame. destruct (Z.gtb_spec (len p) 65535); [lia|]. by eexists. }
    exists (w :: ws). split; [cbn [mapM]; rewrite Ew; cbn; by rewrite Ews|].
    change (mjoin (w :: ws)) with (w ++ mjoin ws).
    cbn [length tunnelReads]. rewrite rd_bind_eq.
    rewrite <-app_assoc, rd_bytes_bind, (tunnelRead_frame size p) by done.
    by rewrite rd_bind_eq, rd_bytes_bind, Er.
  - intros p Hp. unfold tunnelFrame. destruct (Z.gtb_spec (len p) 65535); [by eexists|lia].
  - intros p w Hw Hs. rewrite (tunnelRead_header size p w rest Hw). destruct (Z.gtb_spec (len p) size); [done|lia].
Qed.

(** ** Readers on a connection *)

Lemma advance_rd {S A} (h : handler S) c ps (p : rd A) s l a r :
  rd_bytes p l = (Ok a, r) → advance h c ps (rd_conn c p) s l false = (mkSide (Ret (Ok a)) s r false, []).
Proof.
  revert l. induction p as [res|n k IH]; intros l; cbn [rd_bytes rd_conn].
  - by intros [= -> ->].
  - destruct (n <=? len l) eqn:E; [|done]. intros H. unfold attempt, read, call. cbn. rewrite Z.eqb_refl, E. cbn. by apply IH.
Qed.
Lemma advance_attempt_rd {S A B} (h : handler S) c ps m (p : rd A) (k : A → io (result B)) s l a r :
  rd_bytes p l = (Ok a, r) → advance h c ps (attempt (wrapping m (rd_conn c p)) k) s l false = advance h c ps (k a) s r false.
Proof.
  intros E. unfold attempt, wrapping. rewrite !advance_bind, (advance_rd h c ps p s l a r E). cbn. by destruct (advance h c ps (k a) s r false).
Qed.
Lemma advance_attempt_rd_nil {S A B} (h : handler S) c m (p : rd A) (k : A → io (result B)) n k' s :
  p = RRead n k' → 0 < n → advance h c false (attempt (wrapping m (rd_conn c p)) k) s [] false = (mkSide (attempt (wrapping m (rd_conn c p)) k) s [] false, []).
Proof. intros -> Hn. cbn. rewrite Z.eqb_refl. cbn. by destruct n. Qed.

Lemma socks5_message_roundtrip_witness :
  ∃ w, Request_WriteToSocks5 (mkRequest 1 (mkAddrSpec [97] [] 443) []) = Ok (mkRequest 1 (mkAddrSpec [97] [] 443) w) ∧
    Response_WriteToSocks5 (mkResponse 1 (mkAddrSpec [97] [] 443) []) = Ok (mkResponse 1 (mkAddrSpec [97] [] 443) w) ∧
    rd_bytes (Request_ReadFromSocks5 noRequest) (w ++ [9]) = (Ok (mkRequest 1 (mkAddrSpec [97] [] 443) w), [9]) ∧
    rd_bytes (Response_ReadFromSocks5 noResponse) (w ++ [9]) = (Ok (mkResponse 1 (mkAddrSpec [97] [] 443) w), [9]) ∧
    rd_bytes ReadSocks5Request (w ++ [9]) = (Ok (mkRequest 1 (mkAddrSpec [97] [] 443) w), [9]) ∧
    rd_bytes ReadSocks5Response (w ++ [9]) = (Ok (mkResponse 1 (mkAddrSpec [97] [] 443) w), [9]).
Proof.
  apply (socks5_message_roundtrip 1 (mkAddrSpec [97] [] 443) [] [9]).
  split; cbn; [constructor|split; [by repeat constructor|done]|right; done|done].
Defined.
Lemma tunnel_roundtrip_witness :
  (∃ ws, mapM (M := result) tunnelFrame [[1; 2]; []; [3]] = Ok ws ∧ rd_bytes (tunnelReads 10 3) (mjoin ws ++ [7]) = (Ok [[1; 2]; []; [3]], [7])) ∧
  is_Err (tunnelFrame (replicate (Z.to_nat 65536) 0)) ∧
  (rd_bytes (tunnelRead 1) ([0; 0; 2; 5; 6; 255] ++ [])).1 = Err ErrShortBuffer.
Proof.
  split; [|split].
  - apply (proj1 (tunnel_roundtrip 10 [[1; 2]; []; [3]] [7])). by repeat constructor.
  - apply (proj1 (proj2 (tunnel_roundtrip 10 [] []))). unfold len. rewrite length_replicate, Z2Nat.id by lia. lia.
  - apply (proj2 (proj2 (tunnel_roundtrip 1 [] [])) [5; 6]); [by vm_compute|done].
Defined.
