(* ===== verification/Egress.v ===== *)
(** * pkg/socks5/egress.go: where a request may go

    [FindAction] judges the bytes of a SOCKS5 request: a request for a private
    or loopback address is rejected unless its user may use them, and the first
    egress rule that matches decides about the others.  The choice between
    several proxies of a rule is a call of the random source.

    Its theorems are where the rest of the server is: in SocksServer.v exactly
    when a request is rejected for its address, and in ServerConfig.v that the
    first rule that matches decides, with a proxy of that rule. *)
From S2P Require Import Prelude GoStd GoNet GoIP ServerUser Effects Socks.

(** ** The configuration (proto Egress) *)

Record AuthMsg := mkAuthMsg { am_User : option (list Z); am_Password : option (list Z) }.
Definition GetAuthUser (a : option AuthMsg) : list Z := default [] (a ≫= am_User).
Definition GetAuthPassword (a : option AuthMsg) : list Z := default [] (a ≫= am_Password).
Definition EgressAction_PROXY : Z := 0.
Definition EgressAction_DIRECT : Z := 1.
Definition EgressAction_REJECT : Z := 2.
Record EgressProxy := mkEgressProxy { ep_Name : option (list Z); ep_Host : option (list Z); ep_Port : option Z; ep_Auth : option AuthMsg; ep_Protocol : option Z }.
Definition GetProxyName (p : EgressProxy) : list Z := default [] (ep_Name p).
Definition GetHost (p : EgressProxy) : list Z := default [] (ep_Host p).
Definition GetPort (p : EgressProxy) : Z := default 0 (ep_Port p).
Definition GetSocks5Authentication (p : EgressProxy) : option AuthMsg := ep_Auth p.
Record EgressRule := mkEgressRule { IpRanges : list (list Z); DomainNames : list (list Z); er_Action : option Z; ProxyNames : list (list Z) }.
Definition GetAction (r : EgressRule) : Z := default EgressAction_PROXY (er_Action r).
Record Egress := mkEgress { Proxies : list EgressProxy; Rules : list EgressRule }.

Definition SOCKS5_PROXY_PROTOCOL : Z := 1.
(** pkg/egress/controller.go *)
Record Input := mkInput { in_Protocol : Z; in_Data : list Z; in_Env : gmap string (list Z) }.
Record Action := mkAction { ac_Action : Z; ac_Proxy : option EgressProxy }.
Definition DIRECT : Action := mkAction EgressAction_DIRECT None.
Definition REJECT : Action := mkAction EgressAction_REJECT None.

(** ** Decisions *)

Definition wellKnownIPv4LocalDomainNames : list (list Z) :=
  bytes_of_string <$> ["localhost"; "localhost4"; "localhost.localdomain"; "localhost4.localdomain4"]%string.
Definition wellKnownIPv6LocalDomainNames : list (list Z) :=
  bytes_of_string <$> ["localhost6"; "ip6-localhost"; "ip6-loopback"; "localhost6.localdomain6"]%string.

(** The part of the server's configuration that is read here. *)
Record rules := mkRules {
  c_Users : gmap (list Z) (option User);
  c_Egress : Egress;
  c_AllowLoopbackDestination : bool
}.

(** The address that is checked: the IP, or the one of a well-known name. *)
Definition checkedIP (dst : AddrSpec) : option (list Z) :=
  if (len (a_IP dst) =? 0) && negb (len (FQDN dst) =? 0) then
    let domainName := ToLower (TrimSuffix (FQDN dst) (bytes_of_string ".")) in
    if existsb (λ d, bool_decide (domainName = d)) wellKnownIPv4LocalDomainNames then ParseIP (bytes_of_string "127.0.0.1") else
    if existsb (λ d, bool_decide (domainName = d)) wellKnownIPv6LocalDomainNames then ParseIP (bytes_of_string "::1") else None
  else if len (a_IP dst) =? 0 then None else Some (a_IP dst).
Definition rejectPrivateAndLoopbackIPAction (c : rules) (inp : Input) (req : Request) : Action :=
  match checkedIP (DstAddr req) with
  | None => DIRECT
  | Some ip =>
    if negb (IsPrivate ip) && negb (IsLoopback ip) then DIRECT else
    if IsLoopback ip && c_AllowLoopbackDestination c then DIRECT else
    match in_Env inp !! "user"%string with
    | None => REJECT
    | Some userName =>
      if len userName =? 0 then REJECT else
      match c_Users c !! userName with
      | None => REJECT
      | Some user =>
        if IsPrivate ip && GetAllowPrivateIP user then DIRECT else
        if IsLoopback ip && GetAllowLoopbackIP user then DIRECT else REJECT
      end
    end
  end.

Definition matchIPRange (addr ipRange : list Z) : bool :=
  if bool_decide (ipRange = bytes_of_string "*") then true else
  match ParseCIDR ipRange with None => false | Some cidr => Contains cidr addr end.
Definition matchDomain (domain d : list Z) : bool :=
  if bool_decide (d = bytes_of_string "*") then true else bool_decide (domain = d) || HasSuffix domain (bytes_of_string "." ++ d).
Definition matchEgressRule (addr domain : list Z) (rule : EgressRule) : bool :=
  if negb (len addr =? 0) then existsb (matchIPRange addr) (IpRanges rule) else
  if negb (len domain =? 0) then existsb (matchDomain domain) (DomainNames rule) else false.
Definition forwardToProxyAction (c : rules) (req : Request) : io Action :=
  let addr := a_IP (DstAddr req) in
  let domain := FQDN (DstAddr req) in
  if (len addr =? 0) && (len domain =? 0) then Ret DIRECT else
  match List.find (matchEgressRule addr domain) (Rules (c_Egress c)) with
  | None => Ret DIRECT
  | Some rule =>
    if GetAction rule =? EgressAction_PROXY then
      selectedProxyName ← (if 0 <? len (ProxyNames rule) then
                             idx ← call (Intn (len (ProxyNames rule))); Ret (default [] (ProxyNames rule !! Z.to_nat idx))
                           else Ret []);
      match List.find (λ p, bool_decide (GetProxyName p = selectedProxyName)) (Proxies (c_Egress c)) with
      | Some proxy => Ret (mkAction (GetAction rule) (Some proxy))
      | None => Ret (mkAction (GetAction rule) None)
      end
    else Ret (mkAction (GetAction rule) None)
  end.
Definition parseEgressSocks5Request (data : list Z) : result Request := (rd_bytes (Request_ReadFromSocks5 noRequest) data).1.
Definition FindAction (c : rules) (inp : Input) : io Action :=
  if negb (in_Protocol inp =? SOCKS5_PROXY_PROTOCOL) then Ret DIRECT else
  if len (in_Data inp) <? 4 then Ret DIRECT else
  if negb (byte_at 0 (in_Data inp) =? Socks5Version) then Ret DIRECT else
  match parseEgressSocks5Request (in_Data inp) with
  | Ok req =>
    if (Command req =? Socks5ConnectCmd) || (Command req =? Socks5UDPAssociateCmd) then
      let action := rejectPrivateAndLoopbackIPAction c inp req in
      if ac_Action action =? EgressAction_REJECT then Ret action else forwardToProxyAction c req
    else Ret DIRECT
  | _ => Ret DIRECT
  end.
