(* ===== verification/SocksServer.v ===== *)
(** * pkg/socks5: authentication, requests and connections

    auth.go, handler.go, socks5.go and dialer.go: the SOCKS5 server that runs in
    the proxy server and, relaying the handshake, in the proxy client; and the
    SOCKS5 client that dials through a proxy.  Every function is a program of
    Effects.v over its connections; what follows the handshake is one of the
    relays.  Timeouts are calls without effect here, metrics and logs are left
    out, and so is the choice of a deadline by a context.

    Theorems: authentication succeeds exactly for clients that need none or send
    a registered credential; client and server agree on the outcome of the
    negotiation; a request that the egress rules reject is answered and nothing
    is dialed for it; the server dials only after an accepted authentication and
    a request whose destination the user may use, and what it dials is what that
    request asks for, resolved by the network's own answer, or a configured
    egress proxy; a client dial through the server connects to the address that
    was asked for, in all interleavings of the two. *)
From S2P Require Import Prelude GoStd GoNet GoIP ServerUser Effects Socks Egress.
From Stdlib Require String.

(** [err.Error()] of the errors that reach a test of their text. *)
Fixpoint Error (e : error) : string :=
  match e with
  | Errorf msg => msg
  | Wrapf msg e => msg +:+ ": " +:+ Error e
  | TypedError _ e => Error e
  | EOF => "EOF"%string
  | ErrTimeout => "timeout"%string
  | _ => EmptyString
  end.
(** [strings.Contains] *)
Definition Contains_string (s sub : string) : bool :=
  match String.index 0 sub s with Some _ => true | None => false end.

(** ** Configuration *)

Record Credential := mkCredential { cr_User : list Z; cr_Password : list Z }.
#[global] Instance Credential_eq_dec : EqDecision Credential.
Proof. solve_decision. Defined.
Record Auth := mkAuth { ClientSideAuthentication : bool; IngressCredentials : list Credential; EgressCredential : option Credential }.
Definition UDPAssociateModePacketOverStream : Z := 0.
Definition UDPAssociateModeDatagram : Z := 1.
Record Config := mkConfig {
  HasProxyDialer : bool;
  AuthOpts : Auth;
  HandshakeTimeout : Z;
  UseProxy : bool;
  UDPAssociateMode : Z;
  c_rules : rules;
  DualStackPreference : Z;
  HandshakeNoWait : bool
}.
#[export] Instance Config_eta : Settable Config := λ c,
  mkConfig (HasProxyDialer c) (AuthOpts c) (HandshakeTimeout c) (UseProxy c) (UDPAssociateMode c) (c_rules c) (DualStackPreference c) (HandshakeNoWait c).
(** [New]: the configuration that the server keeps. *)
Definition New (conf : Config) : result Config :=
  if UseProxy conf && negb (HasProxyDialer conf) then Err (Errorf "ProxyDialer must be set when proxy is enabled") else
  if negb ((UDPAssociateMode conf =? UDPAssociateModePacketOverStream) || (UDPAssociateMode conf =? UDPAssociateModeDatagram))
  then Err (Errorf "unsupported UDP associate mode") else
  Ok (conf<|HandshakeTimeout := Z.max (HandshakeTimeout conf) 0|>).

(** ** auth.go *)

(** The loop over the credentials. *)
Definition registered (creds : list Credential) (user password : list Z) : bool :=
  existsb (λ cr, bool_decide (cr_User cr = user) && bool_decide (cr_Password cr = password)) creds.
(** From the client's methods on. *)
Definition chooseAuthentication (s : Config) (c : conn) (authMethods : list Z) : io (result unit) :=
  let requestNoAuth := existsb (Z.eqb Socks5NoAuth) authMethods in
  let requestUserPassAuth := existsb (Z.eqb Socks5UserPassAuth) authMethods in
  let credentials := IngressCredentials (AuthOpts s) in
  if negb requestNoAuth && negb requestUserPassAuth then
    let! _ := wrapping "write authentication response (no acceptable methods) failed" (write c [Socks5Version; Socks5NoAcceptableAuth]) in
    fail (Errorf "socks5 client provided authentication is not supported by socks5 server")
  else if requestNoAuth && (len credentials =? 0) then
    wrapping "write authentication response (no authentication required) failed" (write c [Socks5Version; Socks5NoAuth])
  else if requestUserPassAuth then
    if len credentials =? 0 then fail (Errorf "there is no registered socks5 server user") else
    let! _ := wrapping "write user password authentication request failed" (write c [Socks5Version; Socks5UserPassAuth]) in
    let! header := wrapping "get user password authentication version failed" (read c 1) in
    if negb (byte_at 0 header =? Socks5UserPassAuthVersion) then fail (Errorf "user password authentication version is not supported by socks5 server") else
    let! header := wrapping "get user length failed" (read c 1) in
    let! user := wrapping "read user failed" (read c (byte_at 0 header)) in
    let! header := wrapping "get password length failed" (read c 1) in
    let! password := wrapping "read password failed" (read c (byte_at 0 header)) in
    if registered credentials user password then
      wrapping "write user password authentication success response failed" (write c [Socks5UserPassAuthVersion; Socks5AuthSuccess])
    else
      let! _ := wrapping "write user password authentication failure response failed" (write c [Socks5UserPassAuthVersion; Socks5AuthFailure]) in
      fail (Errorf "user password authentication failed: invalid user or password")
  else fail (Errorf "socks5 client requested no authentication, but user and password are required by socks5 server").
Definition handleAuthentication (s : Config) (c : conn) : io (result unit) :=
  deferred (call (SetReadTimeout c 0)) (
  call (SetReadTimeout c (HandshakeTimeout s)) >>
  let! version := wrapping "get socks version failed" (read c 1) in
  if negb (byte_at 0 version =? Socks5Version) then fail (Errorf "unsupported socks version") else
  let! nAuthMethods := wrapping "get number of authentication method failed" (read c 1) in
  if byte_at 0 nAuthMethods =? 0 then fail (Errorf "number of authentication method is 0") else
  let! authMethods := wrapping "get authentication method failed" (read c (byte_at 0 nAuthMethods)) in
  chooseAuthentication s c authMethods).

(** User and password, once the server has chosen them. *)
Definition clientCredential (c : conn) (cr : Credential) : io (result unit) :=
  if (len (cr_User cr) >? 255) || (len (cr_Password cr) >? 255) then fail (Errorf "socks5 username and password must not exceed 255 bytes") else
  let req := [Socks5UserPassAuthVersion; u8 (len (cr_User cr))] ++ cr_User cr ++ [u8 (len (cr_Password cr))] ++ cr_Password cr in
  let! _ := wrapping "write socks5 username password authentication failed" (write c req) in
  let! resp := wrapping "read socks5 username password authentication failed" (read c 2) in
  if negb (byte_at 0 resp =? Socks5UserPassAuthVersion) || negb (byte_at 1 resp =? Socks5AuthSuccess)
  then fail (Errorf "socks5 username password authentication failed") else ok tt.
Definition clientNegotiateAuthentication (c : conn) (credential : option Credential) : io (result unit) :=
  let method := if bool_decide (credential = None) then Socks5NoAuth else Socks5UserPassAuth in
  let! _ := wrapping "write socks5 authentication methods failed" (write c [Socks5Version; 1; method]) in
  let! resp := wrapping "read socks5 authentication method failed" (read c 2) in
  if negb (byte_at 0 resp =? Socks5Version) || negb (byte_at 1 resp =? method) then fail (Errorf "socks5 authentication method negotiation failed") else
  match credential with None => ok tt | Some cr => clientCredential c cr end.

(** ** handler.go: requests *)

Definition zeroBindAddr : AddrSpec := mkAddrSpec [] (IPv4 0 0 0 0) 0.
(** Send a reply, then return the error [e]. *)
Definition reply (c : conn) (code : Z) (e : error) : io (result unit) :=
  let! _ := wrapping "failed to send reply" (WriteSocks5Response c code zeroBindAddr) in fail e.

(** [common.SelectIPFromList] *)
Definition SelectIPFromList (ips : list (list Z)) (strategy : Z) : option (list Z) :=
  match ips with
  | [] => None
  | first :: _ =>
    let ipv4 := List.find (λ ip, bool_decide (is_Some (To4 ip))) ips in
    let ipv6 := List.find (λ ip, negb (bool_decide (is_Some (To4 ip)))) ips in
    if strategy =? 1 then (if bool_decide (is_Some ipv4) then ipv4 else ipv6) else
    if strategy =? 2 then (if bool_decide (is_Some ipv6) then ipv6 else ipv4) else
    if strategy =? 3 then ipv4 else if strategy =? 4 then ipv6 else Some first
  end.

Definition localUDPPort (udpConn : conn) : io (result Z) :=
  local ← call (LocalAddr udpConn);
  match local with
  | UDPAddr (Some a) => ok (Port a)
  | UDPAddr None => Ret (Panic "nil pointer dereference")
  | _ => fail (Errorf "UDP listener local address has unexpected type")
  end.
Definition readRequest (s : Config) (c : conn) : io (result Request) :=
  deferred (call (SetReadTimeout c 0)) (
  call (SetReadTimeout c (HandshakeTimeout s)) >>
  rd_conn c (Request_ReadFromSocks5 noRequest)).

Definition handleConnect (req : Request) (proxyConn : conn) : io (result unit) :=
  target ← call (Dial "tcp" (AddrSpec_String (DstAddr req)));
  match target with
  | Panic m => Ret (Panic m)
  | Err err =>
    let replyCode :=
      if Contains_string (Error err) "refused" then Socks5ReplyConnectionRefused else
      if Contains_string (Error err) "network is unreachable" then Socks5ReplyNetworkUnreachable else Socks5ReplyHostUnreachable in
    reply proxyConn replyCode (Wrapf "connect failed" err)
  | Ok target =>
    deferred (call (CloseConn target)) (
    local ← call (LocalAddr target);
    match local with
    | TCPAddr (Some local) =>
      let bind := mkAddrSpec [] (IP local) (Port local) in
      let! _ := wrapping "failed to send reply" (WriteSocks5Response proxyConn Socks5ReplySuccess bind) in
      call (Relay (BidiCopy proxyConn target))
    | TCPAddr None => Ret (Panic "nil pointer dereference")
    | _ => Ret (Panic "interface conversion")
    end)
  end.
Definition handleBind (proxyConn : conn) : io (result unit) :=
  wrapping "failed to send reply" (WriteSocks5Response proxyConn Socks5ReplyCommandNotSupported zeroBindAddr).

Definition handleAssociatePacketOverStream (proxyConn : conn) : io (result unit) :=
  let! udpConn := wrapping "failed to listen UDP" (call (ListenUDP "udp")) in
  let! udpPort := localUDPPort udpConn in
  let bind := mkAddrSpec [] [0; 0; 0; 0] udpPort in
  let! _ := wrapping "failed to send reply" (WriteSocks5Response proxyConn Socks5ReplySuccess bind) in
  call (Relay (UDPAssociate udpConn proxyConn)).
Definition socks5UDPAssociateBindIP (local : netAddr) (udpLocal : inetAddr) : list Z :=
  match local with
  | TCPAddr (Some tcpAddr) =>
    if negb (len (IP tcpAddr) =? 0) && negb (IsUnspecified (IP tcpAddr)) then IP tcpAddr else
    if negb (len (IP udpLocal) =? 0) && negb (IsUnspecified (IP udpLocal)) then IP udpLocal else IPv4 0 0 0 0
  | _ => if negb (len (IP udpLocal) =? 0) && negb (IsUnspecified (IP udpLocal)) then IP udpLocal else IPv4 0 0 0 0
  end.
Definition handleAssociateDatagram (proxyConn : conn) : io (result unit) :=
  let! udpConn := wrapping "failed to listen UDP" (call (ListenUDP "udp")) in
  local ← call (LocalAddr udpConn);
  match local with
  | UDPAddr (Some local) =>
    connLocal ← call (LocalAddr proxyConn);
    let bind := mkAddrSpec [] (socks5UDPAssociateBindIP connLocal local) (Port local) in
    r ← WriteSocks5Response proxyConn Socks5ReplySuccess bind;
    match r with
    | Err e => call (CloseConn udpConn) >> fail (Wrapf "failed to send reply" e)
    | Panic m => Ret (Panic m)
    | Ok _ => call (Relay (UDPDatagram udpConn proxyConn))
    end
  | UDPAddr None => Ret (Panic "nil pointer dereference")
  | _ => call (CloseConn udpConn) >> fail (Errorf "UDP listener local address has unexpected type")
  end.
Definition handleAssociate (s : Config) (proxyConn : conn) : io (result unit) :=
  if UDPAssociateMode s =? UDPAssociateModeDatagram then handleAssociateDatagram proxyConn else handleAssociatePacketOverStream proxyConn.

(** The switch on the command. *)
Definition handleCommand (s : Config) (req : Request) (proxyConn : conn) : io (result unit) :=
  if Command req =? Socks5ConnectCmd then handleConnect req proxyConn else
  if Command req =? Socks5BindCmd then handleBind proxyConn else
  if Command req =? Socks5UDPAssociateCmd then handleAssociate s proxyConn else
  reply proxyConn Socks5ReplyCommandNotSupported (Errorf "unsupported command").
Definition handleRequest (s : Config) (req : Request) (proxyConn : conn) : io (result unit) :=
  let dst := DstAddr req in
  if negb (len (FQDN dst) =? 0) then
    ips ← call (LookupIP "ip" (FQDN dst));
    match ips with
    | Panic m => Ret (Panic m)
    | Err err => reply proxyConn Socks5ReplyHostUnreachable (Wrapf "failed to resolve destination" err)
    | Ok [] => reply proxyConn Socks5ReplyHostUnreachable (Errorf "IP address not found for domain name")
    | Ok ips =>
      match SelectIPFromList ips (DualStackPreference s) with
      | None => reply proxyConn Socks5ReplyNetworkUnreachable (Errorf "no IP address satisfy DNS dual stack preference")
      | Some ip => handleCommand s (req<|DstAddr := dst<|a_IP := ip|>|>) proxyConn
      end
    end
  else handleCommand s req proxyConn.

(** ** handler.go: forwarding to an egress proxy *)

(** [resp.Raw] keeps its length. *)
Definition rewriteSocks5ResponseBindPort (resp : Response) (port : Z) : result Response :=
  if (port <? 0) || (port >? 65535) then Err (Errorf "port is out of range") else
  let resp := resp<|BindAddr := (BindAddr resp)<|a_Port := port|>|> in
  if len (r_Raw resp) >=? 2
  then Ok (resp<|r_Raw := take (length (r_Raw resp) - 2) (r_Raw resp) ++ [u8 (Z.shiftr port 8); u8 port]|>)
  else Response_WriteToSocks5 resp.
Definition socks5UDPAddrFromResponse (remote : netAddr) (resp : Response) : result inetAddr :=
  match remote with
  | TCPAddr tcpRemote =>
    let port := a_Port (BindAddr resp) in
    if (port <? 1) || (port >? 65535) then Err (Errorf "socks5 UDP bind port is invalid") else
    let ip := a_IP (BindAddr resp) in
    match (if (len ip =? 0) || IsUnspecified ip
           then match tcpRemote with Some a => Ok (IP a) | None => Panic "nil pointer dereference" end else Ok ip) with
    | Ok ip => if (len ip =? 0) || IsUnspecified ip then Err (Errorf "socks5 UDP bind address is unspecified") else Ok (mkAddr ip port [])
    | Err e => Err e
    | Panic m => Panic m
    end
  | _ => Err (Errorf "socks5 proxy remote address has unexpected type")
  end.

(** [p] with [q] run if it fails: [if err != nil { q; return err }]. *)
Definition orClose {A} (q : io unit) (p : io (result A)) : io (result A) :=
  r ← p; match r with Err e => q >> fail e | r => Ret r end.

Definition handleForwardingUDP (proxyConn egressConn : conn) : io (result unit) :=
  let closeEgress := call (CloseConn egressConn) in
  let! _ := orClose closeEgress (wrapping "failed to write socks5 request to egress proxy"
              (WriteSocks5Request egressConn Socks5UDPAssociateCmd (mkAddrSpec [] IPv4zero 0))) in
  let! resp := orClose closeEgress (wrapping "failed to read socks5 response from egress proxy" (rd_conn egressConn ReadSocks5Response)) in
  if negb (Reply resp =? Socks5ReplySuccess) then
    closeEgress >> ignore (write proxyConn (r_Raw resp)) >> fail (Errorf "egress proxy returned error")
  else
  remote ← call (RemoteAddr egressConn);
  let! downstreamUDPAddr := orClose closeEgress (lift (socks5UDPAddrFromResponse remote resp)) in
  let! udpConn := orClose closeEgress (wrapping "failed to listen UDP" (call (ListenUDP "udp4"))) in
  let closeBoth := call (CloseConn udpConn) >> closeEgress in
  let! udpPort := orClose closeBoth (localUDPPort udpConn) in
  let! resp := orClose closeBoth (lift (rewriteSocks5ResponseBindPort resp udpPort)) in
  let! _ := orClose closeBoth (wrapping "failed to send socks5 response to client" (write proxyConn (r_Raw resp))) in
  call (Relay (UDPForwarding udpConn proxyConn downstreamUDPAddr egressConn)).

(** [common.MaybeDecorateIPv6] *)
Definition MaybeDecorateIPv6 (addr : list Z) : list Z :=
  match ParseAddr addr with
  | Some (ip, _) => if len ip =? 16 then bytes_of_string "[" ++ addr ++ bytes_of_string "]" else addr
  | None => addr
  end.
Definition forwardingWriteTimeout : Z := Minute.
(** The credential of an egress proxy. *)
Definition proxyCredential (proxy : EgressProxy) : option Credential :=
  let auth := GetSocks5Authentication proxy in
  if negb (bool_decide (auth = None)) && negb (len (GetAuthUser auth) =? 0) && negb (len (GetAuthPassword auth) =? 0)
  then Some (mkCredential (GetAuthUser auth) (GetAuthPassword auth)) else None.
Definition handleForwarding (s : Config) (req : Request) (proxyConn : conn) (proxy : EgressProxy) : io (result unit) :=
  let! egressConn := wrapping "dial to egress proxy failed"
                       (call (Dial "tcp" (MaybeDecorateIPv6 (GetHost proxy) ++ bytes_of_string ":" ++ Itoa (GetPort proxy)))) in
  let closeEgress := call (CloseConn egressConn) in
  call (SetReadTimeout egressConn (HandshakeTimeout s)) >>
  err ← clientNegotiateAuthentication egressConn (proxyCredential proxy);
  call (SetReadTimeout egressConn 0) >>
  let! _ := orClose closeEgress (wrapping "socks5 authentication with egress proxy failed" (lift err)) in
  if Command req =? Socks5ConnectCmd then
    let! _ := orClose closeEgress (wrapping "failed to write socks5 request to egress proxy" (write egressConn (Raw req))) in
    call (Relay (BidiCopyTimeout proxyConn egressConn forwardingWriteTimeout))
  else if Command req =? Socks5UDPAssociateCmd then handleForwardingUDP proxyConn egressConn
  else fail (Errorf "unsupported command").

(** ** socks5.go *)

Definition userEnv (userName : list Z) : gmap string (list Z) :=
  if len userName =? 0 then ∅ else {["user"%string := userName]}.
(** What the proxy server does with an authenticated connection's request. *)
Definition serveRequest (s : Config) (request : Request) (proxyConn : conn) : io (result unit) :=
  userName ← call (UserName proxyConn);
  action ← FindAction (c_rules s) (mkInput SOCKS5_PROXY_PROTOCOL (Raw request) (userEnv userName));
  if ac_Action action =? EgressAction_DIRECT then wrapping "handleRequest() failed" (handleRequest s request proxyConn) else
  if ac_Action action =? EgressAction_PROXY then
    match ac_Proxy action with
    | None => fail (Errorf "egress action is PROXY but proxy info is unavailable")
    | Some proxy => handleForwarding s request proxyConn proxy
    end
  else if ac_Action action =? EgressAction_REJECT then
    let! _ := wrapping "failed to send reply for notAllowedByRuleSet error"
                (WriteSocks5Response proxyConn Socks5ReplyNotAllowedByRuleSet zeroBindAddr) in
    fail (Errorf "connection is rejected by egress rules")
  else ok tt.
(** [serverReadRequest] is the part behind the authentication. *)
Definition serverReadRequest (s : Config) (proxyConn : conn) : io (result unit) :=
  request ← readRequest s proxyConn;
  match request with
  | Panic m => Ret (Panic m)
  | Err err =>
    let! _ := (if bool_decide (err = ErrUnrecognizedAddrType)
               then wrapping "failed to send reply for addrTypeNotSupported error"
                      (WriteSocks5Response proxyConn Socks5ReplyAddrTypeNotSupported zeroBindAddr)
               else ok tt) in
    fail (Wrapf "failed to read destination address" err)
  | Ok request => serveRequest s request proxyConn
  end.
Definition serverServeConn (s : Config) (proxyConn : conn) : io (result unit) :=
  let! _ := (if negb (ClientSideAuthentication (AuthOpts s)) then handleAuthentication s proxyConn else ok tt) in
  serverReadRequest s proxyConn.

(** The proxy client: it relays the handshake between the user and the server. *)
Definition proxySocks5AuthReq (s : Config) (userConn proxyConn : conn) : io (result unit) :=
  deferred (call (SetReadTimeout proxyConn 0) >> call (SetReadTimeout userConn 0)) (
  call (SetReadTimeout userConn (HandshakeTimeout s)) >>
  let! version := wrapping "failed to get version byte" (read userConn 1) in
  if negb (byte_at 0 version =? Socks5Version) then fail (Errorf "unsupported SOCKS version") else
  let! nMethods := wrapping "failed to get the length of authentication methods" (read userConn 1) in
  let! methods := wrapping "failed to get authentication methods" (read userConn (byte_at 0 nMethods)) in
  let! _ := wrapping "failed to write authentication request to the server" (write proxyConn (version ++ nMethods ++ methods)) in
  call (SetReadTimeout proxyConn (HandshakeTimeout s)) >>
  let! authResp := wrapping "failed to read authentication response from the socks5 server" (read proxyConn 2) in
  wrapping "failed to write authentication response to the socks5 client" (write userConn authResp)).

(** The UDP connection of an association, and the request that is still to be
    sent to the server. *)
Definition proxySocks5ConnReq (s : Config) (userConn proxyConn : conn) : io (result (option conn * list Z)) :=
  deferred (call (SetReadTimeout proxyConn 0) >> call (SetReadTimeout userConn 0)) (
  call (SetReadTimeout userConn (HandshakeTimeout s)) >>
  let! req := wrapping "failed to get socks5 connection request" (rd_conn userConn ReadSocks5Request) in
  let cmd := Command req in
  let connReq := Raw req in
  if HandshakeNoWait s && (cmd =? Socks5ConnectCmd) then
    remote ← call (RemoteAddr proxyConn);
    let! serverBoundAddr := wrapping "failed to get proxy connection address" (lift (AddrSpec_From (addr_String remote))) in
    let! addr := wrapping "failed to write proxy connection address" (lift (WriteToSocks5 serverBoundAddr)) in
    let! _ := wrapping "failed to write fake connection response to the socks5 client"
                (write userConn ([Socks5Version; Socks5ReplySuccess; 0] ++ addr)) in
    ok (None, connReq)
  else
  let! _ := wrapping "failed to write connection request to the server" (write proxyConn connReq) in
  call (SetReadTimeout proxyConn (HandshakeTimeout s)) >>
  let! connResp := wrapping "failed to read connection response from the server" (rd_conn proxyConn ReadSocks5Response) in
  if cmd =? Socks5UDPAssociateCmd then
    let! udpConn := wrapping "net.ListenUDP() failed" (call (ListenUDP "udp4")) in
    let closeUDP := call (CloseConn udpConn) in
    let! udpPort := orClose closeUDP (localUDPPort udpConn) in
    let! connResp := orClose closeUDP (lift (rewriteSocks5ResponseBindPort connResp udpPort)) in
    let! _ := orClose closeUDP (wrapping "failed to write connection response to the socks5 client" (write userConn (r_Raw connResp))) in
    ok (Some udpConn, [])
  else
    let! _ := wrapping "failed to write connection response to the socks5 client" (write userConn (r_Raw connResp)) in
    ok (None, [])).

Definition clientServeConn (s : Config) (userConn : conn) : io (result unit) :=
  let! _ := (if ClientSideAuthentication (AuthOpts s) then handleAuthentication s userConn else ok tt) in
  let! proxyConn := wrapping "proxy dialer DialContext() failed" (call ProxyDial) in
  let closeProxy := call (CloseConn proxyConn) in
  let! _ := (if negb (ClientSideAuthentication (AuthOpts s)) then orClose closeProxy (proxySocks5AuthReq s userConn proxyConn) else ok tt) in
  let! (udpAssociateConn, pendingConnReq) := orClose closeProxy (proxySocks5ConnReq s userConn proxyConn) in
  match udpAssociateConn with
  | None =>
    if HandshakeNoWait s then call (Relay (BidiCopySocks5 userConn proxyConn pendingConnReq)) else call (Relay (BidiCopy userConn proxyConn))
  | Some udpConn => call (Relay (BidiCopyUDP udpConn proxyConn))
  end.
Definition ServeConn (s : Config) (c : conn) : io (result unit) :=
  deferred (call (CloseConn c)) (if UseProxy s then clientServeConn s c else serverServeConn s c).

(** ** dialer.go *)

Record ClientDialer := mkClientDialer { ProxyAddress : list Z; d_Credential : option Credential; d_UDPAssociate : bool }.
(** The control connection, and for an association the UDP socket and the
    address of the server's; [clientRequest] is the part behind the
    authentication. *)
Definition clientRequest (c : conn) (cmd : Z) (raddr : list Z) : io (result (conn * option (conn * inetAddr))) :=
  let! dstAddr := wrapping "parse target address failed" (lift (AddrSpec_From raddr)) in
  let! _ := wrapping "write socks5 request failed" (WriteSocks5Request c cmd dstAddr) in
  let! resp := wrapping "read socks5 response failed" (rd_conn c (Response_ReadFromSocks5 noResponse)) in
  if negb (Reply resp =? Socks5ReplySuccess) then fail (Errorf "socks5 request failed with reply code") else
  if cmd =? Socks5UDPAssociateCmd then
    remote ← call (RemoteAddr c);
    let! serverListenAddr := lift (socks5UDPAddrFromResponse remote resp) in
    let! udpConn := call (ListenUDP "udp4") in
    ok (c, Some (udpConn, serverListenAddr))
  else ok (c, None).
Definition dial (d : ClientDialer) (cmd : Z) (raddr : list Z) : io (result (conn * option (conn * inetAddr))) :=
  if len (ProxyAddress d) =? 0 then fail (Errorf "socks5 proxy address is empty") else
  if negb (cmd =? Socks5ConnectCmd) && negb (cmd =? Socks5UDPAssociateCmd) then fail (Errorf "socks5 command is not supported") else
  let! c := wrapping "dial socks5 proxy failed" (call (Dial "tcp" (ProxyAddress d))) in
  orClose (call (CloseConn c)) (
  let! _ := clientNegotiateAuthentication c (d_Credential d) in
  clientRequest c cmd raddr).
Definition DialContext (d : ClientDialer) (network : string) (address : list Z) : io (result conn) :=
  if negb (bool_decide (network ∈ ["tcp"; "tcp4"; "tcp6"]%string)) then fail (Errorf "unknown network") else
  let! (c, _) := dial d Socks5ConnectCmd address in ok c.
(** The packet connection: its sockets, the server's UDP address, and the
    destination. *)
Record clientPacketConn := mkClientPacketConn { ctrlConn : conn; udpConn_ : conn; serverListenAddr : inetAddr; remoteAddr : NetAddrSpec }.
Definition ListenPacket (d : ClientDialer) (network : string) (raddr : list Z) : io (result clientPacketConn) :=
  if negb (bool_decide (network ∈ ["udp"; "udp4"; "udp6"]%string)) then fail (Errorf "unknown network") else
  if negb (d_UDPAssociate d) then fail (Errorf "socks5 UDP ASSOCIATE is disabled") else
  let! remoteAddrSpec := wrapping "parse remote address failed" (lift (AddrSpec_From raddr)) in
  let! (c, udp) := dial d Socks5UDPAssociateCmd raddr in
  match udp with
  | Some (udpConn, listenAddr) => ok (mkClientPacketConn c udpConn listenAddr (mkNetAddrSpec remoteAddrSpec network))
  | None => Ret (Panic "unreachable")
  end.

(** ** Authentication *)

Lemma registered_elem creds u p : registered creds u p = true ↔ mkCredential u p ∈ creds.
Proof.
  unfold registered. rewrite existsb_exists, list_elem_of_In. split.
  - intros ([u' p'] & Hin & E). bool_to_prop. cbn in *. by subst.
  - intros Hin. exists (mkCredential u p). split; [done|]. cbn. by rewrite !bool_decide_eq_true_2.
Qed.
Lemma elem_existsb (x : Z) l : existsb (Z.eqb x) l = true ↔ x ∈ l.
Proof. rewrite existsb_exists, list_elem_of_In. split; [intros (y & Hy & E); bool_to_prop; by subst|intros H; exists x; by rewrite Z.eqb_refl]. Qed.

(** A read of one byte, then of as many as it says. *)
Definition counted (l s r : list Z) : Prop := l = [len s] ++ s ++ r.
Lemma counted_inv l : bytes_ok l → 1 <= len l → byte_at 0 (slice_to 1 l) <= len (slice_from 1 l) →
  counted l (slice_to (byte_at 0 (slice_to 1 l)) (slice_from 1 l)) (slice_from (byte_at 0 (slice_to 1 l)) (slice_from 1 l)).
Proof.
  intros Hb Hl Hn. destruct l as [|x l]; [rewrite len_nil in Hl; lia|]. change (slice_to 1 (x :: l)) with [x] in *. change (slice_from 1 (x :: l)) with l in *.
  unfold byte_at in *. cbn [nth] in *. apply Forall_cons in Hb as [[? ?] Hb]. unfold counted. rewrite len_slice_to by lia.
  cbn. f_equal. by rewrite slice_to_from.
Qed.
Lemma counted_eq l s r : counted l s r →
  1 <= len l ∧ byte_at 0 (slice_to 1 l) = len s ∧ len s <= len (slice_from 1 l) ∧
  slice_to (len s) (slice_from 1 l) = s ∧ slice_from (len s) (slice_from 1 l) = r.
Proof.
  intros ->. change (slice_to 1 ([len s] ++ s ++ r)) with [len s]. change (slice_from 1 ([len s] ++ s ++ r)) with (s ++ r).
  rewrite slice_to_app, slice_from_app by done. rewrite !len_app. change (len [len s]) with 1. pose proof (len_nonneg s). pose proof (len_nonneg r).
  split_and!; try done; lia.
Qed.
Lemma slice_from_bytes n l : bytes_ok l → bytes_ok (slice_from n l).
Proof. apply bytes_ok_drop. Qed.

Section auth.
Context {S : Type} (h : handler S) (c : conn).
Hypothesis Hquiet : ∀ c t s, (h _ (SetReadTimeout c t) s).2 = s.

(** A counted read of the program: what it wins on are the counted strings. *)
Lemma wins_counted {A} m1 m2 (k : list Z → io (result A)) s q :
  bytes_ok q →
  wins h c (let! n := wrapping m1 (read c 1) in let! x := wrapping m2 (read c (byte_at 0 n)) in k x) s q ↔
  ∃ x r, counted q x r ∧ wins h c (k x) s r.
Proof.
  intros Hq. rewrite wins_read, wins_read. split.
  - intros (H1 & H2 & H3). eexists _, _. split; [by apply counted_inv|done].
  - intros (x & r & Hc & Hw). apply counted_eq in Hc as (H1 & -> & H3 & -> & ->). done.
Qed.
Lemma counted_bytes q x r : counted q x r → bytes_ok q → bytes_ok x ∧ bytes_ok r.
Proof. by intros -> [_ [? ?]%bytes_ok_app]%bytes_ok_app. Qed.

(** The first three reads. *)
Lemma wins_head {A} m1 m2 m3 e1 e2 (k : list Z → io (result A)) s l :
  bytes_ok l →
  wins h c (let! version := wrapping m1 (read c 1) in
            if negb (byte_at 0 version =? Socks5Version) then fail e1 else
            let! n := wrapping m2 (read c 1) in
            if byte_at 0 n =? 0 then fail e2 else
            let! methods := wrapping m3 (read c (byte_at 0 n)) in k methods) s l ↔
  ∃ methods rest, l = [Socks5Version; len methods] ++ methods ++ rest ∧ methods ≠ [] ∧ wins h c (k methods) s rest.
Proof.
  intros Hl. rewrite wins_read. split.
  - intros [H1 Hw]. destruct l as [|v l]; [rewrite len_nil in H1; lia|]. change (slice_to 1 (v :: l)) with [v] in Hw. change (slice_from 1 (v :: l)) with l in Hw.
    change (byte_at 0 [v]) with v in Hw. apply Forall_cons in Hl as [_ Hl].
    destruct (Z.eqb_spec v Socks5Version) as [->|]; cbn [negb] in Hw; [|by apply wins_fail in Hw].
    rewrite wins_read in Hw. destruct Hw as [H2 Hw]. destruct (Z.eqb_spec (byte_at 0 (slice_to 1 l)) 0) as [|Hn]; [by apply wins_fail in Hw|].
    rewrite wins_read in Hw. destruct Hw as [H3 Hw]. pose proof (counted_inv l Hl H2 H3) as Hc. eexists _, _. split; [|split; [|exact Hw]].
    + exact (f_equal (cons Socks5Version) Hc).
    + intros E. apply counted_eq in Hc as (_ & Hc & _). rewrite E in Hc. done.
  - intros (methods & rest & -> & Hm & Hw). split; [rewrite !len_app; pose proof (len_nonneg methods); pose proof (len_nonneg rest); change (len [Socks5Version; len methods]) with 2; lia|].
    change (slice_from 1 _) with ([len methods] ++ methods ++ rest). change (byte_at 0 (slice_to 1 _) =? Socks5Version) with true. cbn [negb].
    destruct (counted_eq ([len methods] ++ methods ++ rest) methods rest ltac:(done)) as (H1 & H2 & H3 & H4 & H5).
    rewrite wins_read, H2. split; [done|]. destruct (Z.eqb_spec (len methods) 0) as [E%len_zero|]; [done|].
    rewrite wins_read, H4, H5. done.
Qed.
(** The exchange of user and password. *)
Lemma wins_password {A} m1 m2 m3 m4 m5 m6 e1 (k : list Z → list Z → io (result A)) s l :
  bytes_ok l →
  wins h c (let! _ := wrapping m1 (write c [Socks5Version; Socks5UserPassAuth]) in
            let! header := wrapping m2 (read c 1) in
            if negb (byte_at 0 header =? Socks5UserPassAuthVersion) then fail e1 else
            let! header := wrapping m3 (read c 1) in
            let! user := wrapping m4 (read c (byte_at 0 header)) in
            let! header := wrapping m5 (read c 1) in
            let! password := wrapping m6 (read c (byte_at 0 header)) in k user password) s l ↔
  ∃ user password rest, l = [Socks5UserPassAuthVersion; len user] ++ user ++ [len password] ++ password ++ rest ∧ wins h c (k user password) s rest.
Proof.
  intros Hl. rewrite wins_write, wins_read. split.
  - intros [H1 Hw]. destruct l as [|v l]; [rewrite len_nil in H1; lia|]. change (slice_to 1 (v :: l)) with [v] in Hw. change (slice_from 1 (v :: l)) with l in Hw.
    change (byte_at 0 [v]) with v in Hw. apply Forall_cons in Hl as [_ Hl].
    destruct (Z.eqb_spec v Socks5UserPassAuthVersion) as [->|]; cbn [negb] in Hw; [|by apply wins_fail in Hw].
    rewrite wins_counted in Hw by done. destruct Hw as (user & r & Hc & Hw). destruct (counted_bytes _ _ _ Hc Hl) as [_ Hr].
    rewrite wins_counted in Hw by done. destruct Hw as (password & r' & Hc' & Hw). exists user, password, r'. split; [|done].
    unfold counted in *. by subst.
  - intros (user & password & rest & -> & Hw). split; [rewrite len_app; pose proof (len_nonneg (user ++ [len password] ++ password ++ rest)); change (len [Socks5UserPassAuthVersion; len user]) with 2; lia|].
    change (slice_from 1 _) with ([len user] ++ user ++ [len password] ++ password ++ rest).
    change (byte_at 0 (slice_to 1 _) =? Socks5UserPassAuthVersion) with true. cbn [negb]. apply Forall_cons in Hl as [_ Hl].
    rewrite wins_counted by exact Hl. eexists _, _. split; [done|]. apply Forall_cons in Hl as [_ [_ Hl]%bytes_ok_app].
    rewrite wins_counted by exact Hl. by eexists _, _.
Qed.
Lemma wins_registered creds m1 m2 m3 m4 m5 m6 m7 m8 e1 e2 s l :
  bytes_ok l →
  wins h c (let! _ := wrapping m1 (write c [Socks5Version; Socks5UserPassAuth]) in
            let! header := wrapping m2 (read c 1) in
            if negb (byte_at 0 header =? Socks5UserPassAuthVersion) then fail e1 else
            let! header := wrapping m3 (read c 1) in
            let! user := wrapping m4 (read c (byte_at 0 header)) in
            let! header := wrapping m5 (read c 1) in
            let! password := wrapping m6 (read c (byte_at 0 header)) in
            if registered creds user password
            then wrapping m7 (write c [Socks5UserPassAuthVersion; Socks5AuthSuccess])
            else let! _ := wrapping m8 (write c [Socks5UserPassAuthVersion; Socks5AuthFailure]) in fail e2) s l ↔
  ∃ user password rest, mkCredential user password ∈ creds ∧
    l = [Socks5UserPassAuthVersion; len user] ++ user ++ [len password] ++ password ++ rest.
Proof.
  intros Hl. rewrite wins_password by done. f_equiv. intros user. f_equiv. intros password. f_equiv. intros rest.
  rewrite <-registered_elem. destruct (registered creds user password).
  - split; [naive_solver|]. intros [_ H]. split; [done|]. apply wins_write_last.
  - rewrite wins_write. split; [by intros [_ ?%wins_fail]|naive_solver].
Qed.

(** The server authenticates exactly the clients that it should: those that
    offer no authentication to a server without credentials, and those that
    offer user and password to a server with credentials and send one of them;
    what follows is left for the request. *)
Theorem authentication_spec (s : Config) (st : S) (l : list Z) :
  bytes_ok l →
  let creds := IngressCredentials (AuthOpts s) in
  wins h c (handleAuthentication s c) st l ↔
  ∃ methods rest, methods ≠ [] ∧ l = [Socks5Version; len methods] ++ methods ++ rest ∧
    (Socks5NoAuth ∈ methods ∧ creds = [] ∨
     Socks5UserPassAuth ∈ methods ∧ creds ≠ [] ∧ ∃ user password rest',
       mkCredential user password ∈ creds ∧
       rest = [Socks5UserPassAuthVersion; len user] ++ user ++ [len password] ++ password ++ rest').
Proof.
  intros Hl creds. unfold handleAuthentication. rewrite wins_deferred, wins_timeout by done. rewrite wins_head by done.
  enough (∀ methods rest, bytes_ok rest → wins h c (chooseAuthentication s c methods) st rest ↔ Socks5NoAuth ∈ methods ∧ creds = [] ∨
     Socks5UserPassAuth ∈ methods ∧ creds ≠ [] ∧ ∃ user password rest', mkCredential user password ∈ creds ∧
       rest = [Socks5UserPassAuthVersion; len user] ++ user ++ [len password] ++ password ++ rest') as H.
  { split; intros (methods & rest & H1 & H2 & H3); subst l.
    - exists methods, rest. split; [done|]. split; [done|]. rewrite <-H; [exact H3|]. by apply bytes_ok_app in Hl as [_ [_ ?]%bytes_ok_app].
    - exists methods, rest. split; [done|]. split; [done|]. rewrite H; [exact H3|]. by apply bytes_ok_app in Hl as [_ [_ ?]%bytes_ok_app]. }
  intros methods rest Hr. unfold chooseAuthentication. fold creds. rewrite <-!elem_existsb.
  destruct (existsb (Z.eqb Socks5NoAuth) methods), (existsb (Z.eqb Socks5UserPassAuth) methods), creds as [|cr creds'] eqn:Ec; cbn [negb andb].
  - split; [intros _; by left|intros _; apply wins_write_last].
  - change (len (cr :: creds') =? 0) with false. cbn [andb]. rewrite wins_registered by done. naive_solver.
  - split; [intros _; by left|intros _; apply wins_write_last].
  - change (len (cr :: creds') =? 0) with false. cbn [andb]. split; [by intros ?%wins_fail|naive_solver].
  - split; [by intros ?%wins_fail|naive_solver].
  - change (len (cr :: creds') =? 0) with false. cbn [andb]. rewrite wins_registered by done. naive_solver.
  - rewrite wins_write. split; [by intros ?%wins_fail|naive_solver].
  - rewrite wins_write. split; [by intros ?%wins_fail|naive_solver].
Qed.
End auth.

(** ** What the server connects to *)

Section dials.
Context (s : Config) (u : list Z).
Let c := c_rules s.

(** May user [u] use this address? *)
Definition permitted (ip : list Z) : bool :=
  negb (IsPrivate ip || IsLoopback ip) || (IsLoopback ip && c_AllowLoopbackDestination c) ||
  match c_Users c !! u with
  | Some user => negb (len u =? 0) && ((IsPrivate ip && GetAllowPrivateIP user) || (IsLoopback ip && GetAllowLoopbackIP user))
  | None => false
  end.
Definition allowed (dst : AddrSpec) : bool := match checkedIP dst with Some ip => permitted ip | None => true end.
Lemma reject_spec inp req :
  in_Env inp = userEnv u →
  rejectPrivateAndLoopbackIPAction c inp req = if allowed (DstAddr req) then DIRECT else REJECT.
Proof.
  intros He. unfold rejectPrivateAndLoopbackIPAction, allowed, permitted. rewrite He. unfold userEnv.
  destruct (checkedIP (DstAddr req)) as [ip|]; [|done].
  destruct (IsPrivate ip), (IsLoopback ip), (c_AllowLoopbackDestination c); cbn; try done.
  all: destruct (len u =? 0) eqn:E; [rewrite lookup_empty; by destruct (c_Users c !! u)|rewrite lookup_singleton_eq, E].
  all: destruct (c_Users c !! u) as [user|]; cbn; [|done].
  all: destruct (GetAllowPrivateIP user); destruct (GetAllowLoopbackIP user); done.
Qed.

(** A request that was read has a type byte and the right version. *)
Lemma request_header l req : rd_bytes (Request_ReadFromSocks5 noRequest) l = (Ok req, []) → 4 <= len l ∧ byte_at 0 l = Socks5Version.
Proof.
  unfold Request_ReadFromSocks5. rewrite rd_bind_eq, rd_bytes_bind. destruct (rd_bytes (rd_tee _) l) as [[[[cmd a] buf]|e|m] r] eqn:E; [|done|done].
  apply rd_tee_raw in E as [_ E]. intros _. unfold readMessage in E. rewrite rd_bind_eq, rd_bytes_bind in E.
  destruct (rd_bytes (rread 3) l) as [[w|e|m] r'] eqn:E3; [|done|done]. apply rread_inv in E3 as [-> Hw]; [|done].
  destruct (Z.eqb_spec (byte_at 0 w) Socks5Version) as [Ev|]; [|done]. cbn [negb] in E. rewrite rd_bind_eq, rd_bytes_bind in E.
  unfold ReadFromSocks5 in E. rewrite rd_bind_eq, rd_bytes_bind in E. destruct (rd_bytes (rread 1) r') as [[t|e|m] r''] eqn:E1; [|done|done].
  apply rread_inv in E1 as [-> Ht]; [|done]. rewrite !len_app, Hw, Ht. pose proof (len_nonneg r''). split; [lia|].
  destruct w; [by rewrite len_nil in Hw|done].
Qed.

(** What the environment answers: reads give what was asked for, the user's name
    is [u], random numbers are in range. *)
Definition answers : ∀ X, ioE X → X → Prop := λ X e,
  match e in ioE X return X → Prop with
  | ReadFull _ n => λ r, match r with Ok l => len l = n | _ => True end
  | UserName _ => λ x, x = u
  | Intn n => λ x, 0 < n → 0 <= x < n
  | _ => λ _, True
  end.
Definition proxyAddress (p : EgressProxy) : list Z := MaybeDecorateIPv6 (GetHost p) ++ bytes_of_string ":" ++ Itoa (GetPort p).

(** What a client sends before its request: nothing if the other end of the
    tunnel authenticates, and otherwise the methods that it offers, with a
    registered credential if the server has any. *)
Definition authenticated (w : list Z) : Prop :=
  if ClientSideAuthentication (AuthOpts s) then w = [] else
  ∃ methods, methods ≠ [] ∧
    (Socks5NoAuth ∈ methods ∧ IngressCredentials (AuthOpts s) = [] ∧ w = [Socks5Version; len methods] ++ methods ∨
     Socks5UserPassAuth ∈ methods ∧ ∃ user password, mkCredential user password ∈ IngressCredentials (AuthOpts s) ∧
       w = [Socks5Version; len methods] ++ methods ++ [Socks5UserPassAuthVersion; len user] ++ user ++ [len password] ++ password).
(** The bytes that the client of the connection [cn] has sent are those and the
    request. *)
Definition requested (cn : conn) (past : list answered) (req : Request) : Prop :=
  ∃ w, authenticated w ∧ readFrom cn past = w ++ Raw req ∧ rd_bytes (Request_ReadFromSocks5 noRequest) (Raw req) = (Ok req, []).
(** The address that a request asks for: its own, or with the IP that is chosen
    from what the resolver answered for its name. *)
Definition destinationOf (past : list answered) (dst : AddrSpec) (a : list Z) : Prop :=
  if len (FQDN dst) =? 0 then a = AddrSpec_String dst else
  ∃ ips ip, Answered (LookupIP "ip" (FQDN dst)) (Ok ips) ∈ past ∧ SelectIPFromList ips (DualStackPreference s) = Some ip ∧
    a = AddrSpec_String (dst<|a_IP := ip|>).
(** The addresses the server may dial for the connection [cn] after [past]: for
    a request whose destination is allowed for the user, the one it asks for, or
    an egress proxy. *)
Definition dial_allowed (cn : conn) (past : list answered) : ∀ X, ioE X → Prop := λ X e,
  match e with
  | Dial network a =>
    network = "tcp"%string ∧
    ∃ req, requested cn past req ∧ allowed (DstAddr req) = true ∧
      (Command req = Socks5ConnectCmd ∧ destinationOf past (DstAddr req) a ∨
       (Command req = Socks5ConnectCmd ∨ Command req = Socks5UDPAssociateCmd) ∧ ∃ p, p ∈ Proxies (c_Egress c) ∧ a = proxyAddress p)
  | _ => True
  end.

(** The parts that dial nothing, and those that read nothing either. *)
Definition undialed : ∀ X, ioE X → Prop := λ X e, match e with Dial _ _ => False | _ => True end.
Definition decides : ∀ X, ioE X → Prop := λ X e, match e with Intn _ => True | _ => False end.
Abbreviation safe := (calls_ok undialed answers).

Ltac calls :=
  repeat first
    [ exact I
    | match goal with HQ : ∀ r, ?Q r |- ?Q _ => apply HQ end
    | apply calls_attempt | apply calls_wrapping | apply calls_deferred | apply calls_andThen
    | match goal with |- calls_ok _ _ (if ?b then _ else _) _ => destruct b end
    | match goal with |- calls_ok _ _ (match ?x with _ => _ end) _ => destruct x end
    | match goal with |- calls_ok _ _ (call _) _ => split; [exact I|]; intros ? ?; cbn [calls_ok] end
    | match goal with |- calls_ok _ _ (Ret _) _ => cbn [calls_ok] end
    | match goal with |- match ?x with _ => _ end => destruct x end
    | match goal with |- undialed _ _ ∧ _ => split; [exact I|]; intros ? ? end
    | progress cbn [calls_ok] ].

Lemma safe_write cn l (Q : result unit → Prop) : (∀ r, Q r) → safe (write cn l) Q.
Proof. intros HQ. split; [done|]. intros o _. apply HQ. Qed.
Lemma safe_reply cn code b (Q : result unit → Prop) : (∀ r, Q r) → safe (WriteSocks5Response cn code b) Q.
Proof. intros HQ. unfold WriteSocks5Response, lift, write. calls. Qed.
Lemma safe_negotiate cn cr (Q : result unit → Prop) : (∀ r, Q r) → safe (clientNegotiateAuthentication cn cr) Q.
Proof. intros HQ. unfold clientNegotiateAuthentication, clientCredential, read, fail, ok, write. cbv zeta. calls. Qed.
(** Reading from a connection gives what the reader makes of some bytes. *)
Lemma safe_rd {A} cn (p : rd A) (Q : result A → Prop) :
  (∀ l a, rd_bytes p l = (Ok a, []) → Q (Ok a)) → (∀ e, Q (Err e)) → (∀ m, Q (Panic m)) → safe (rd_conn cn p) Q.
Proof.
  revert Q. induction p as [r|n k IH]; intros Q H1 H2 H3; cbn [rd_conn].
  - destruct r; cbn; [by apply (H1 [])|apply H2|apply H3].
  - apply calls_attempt. split; [done|]. intros r Hr. cbn [calls_ok]. destruct r as [l|e|m]; [|apply H2|apply H3]. cbn in Hr.
    apply IH; [|done|done]. intros l' a E. apply (H1 (l ++ l')). cbn. rewrite len_app. pose proof (len_nonneg l').
    rewrite (proj2 (Z.leb_le _ _)) by lia. by rewrite slice_to_app, slice_from_app.
Qed.
Ltac hq := solve [unfold fail, ok; cbn [calls_ok]; intros; match goal with HQ : ∀ r, ?Q r |- ?Q _ => apply HQ end].
Lemma safe_associate cn (Q : result unit → Prop) : (∀ r, Q r) → safe (handleAssociate s cn) Q.
Proof.
  intros HQ. unfold handleAssociate. case_match.
  - unfold handleAssociateDatagram, lift, fail. apply calls_attempt, calls_wrapping. split; [done|]. intros r _. cbn [calls_ok].
    destruct r as [udp|e|m]; try hq. apply calls_ok_bind. split; [done|]. intros local _. cbn [calls_ok].
    destruct local as [a|[a|]|n l|l]; try hq; try (apply calls_andThen; split; [done|]; intros ? _; hq).
    apply calls_ok_bind. split; [done|]. intros l _. cbn [calls_ok]. apply calls_ok_bind, safe_reply. intros []; try hq.
    + split; [done|]. intros r _. hq.
    + apply calls_andThen. split; [done|]. intros ? _. hq.
  - unfold handleAssociatePacketOverStream, localUDPPort, ok, fail. apply calls_attempt, calls_wrapping. split; [done|]. intros r _. cbn [calls_ok].
    destruct r as [udp|e|m]; try hq. apply calls_attempt, calls_ok_bind. split; [done|]. intros local _. cbn [calls_ok].
    destruct local as [a|[a|]|n l|l]; try hq. cbn [calls_ok]. apply calls_attempt, calls_wrapping, safe_reply. intros []; try hq.
    split; [done|]. intros r _. hq.
Qed.
Lemma calls_orClose {A} (q : io unit) (p : io (result A)) Q :
  safe q (λ _, True) → safe p (λ r, Q r) → safe (orClose q p) Q.
Proof.
  intros Hq Hp. apply calls_ok_bind. eapply calls_ok_mono, Hp. intros [a|e|m]; try done. intros He. apply calls_andThen.
  eapply calls_ok_mono, Hq. done.
Qed.
Lemma safe_forwarding_udp cn en (Q : result unit → Prop) : (∀ r, Q r) → safe (handleForwardingUDP cn en) Q.
Proof.
  intros HQ. unfold handleForwardingUDP, ok, fail, lift. cbv zeta.
  assert (safe (call (CloseConn en)) (λ _, True)) as Hen by by split.
  apply calls_attempt, calls_orClose; [done|]. apply calls_wrapping. unfold WriteSocks5Request, lift. apply calls_attempt. cbn [calls_ok].
  destruct (Request_WriteToSocks5 _); try hq. apply safe_write. intros []; try hq.
  apply calls_attempt, calls_orClose; [done|]. apply calls_wrapping, safe_rd; try (intros; hq). intros l resp _.
  case_match; [apply calls_andThen; split; [done|]; intros ? _; apply calls_andThen, calls_ok_bind, safe_write; intros; hq|].
  apply calls_ok_bind. split; [done|]. intros remote _. cbn [calls_ok]. apply calls_attempt, calls_orClose; [done|]. cbn [calls_ok].
  destruct (socks5UDPAddrFromResponse _ _) as [addr|e|m]; try hq.
  apply calls_attempt, calls_orClose; [done|]. apply calls_wrapping. split; [done|]. intros udp _. cbn [calls_ok]. destruct udp as [udp|e|m]; try hq.
  assert (safe (call (CloseConn udp) >> call (CloseConn en)) (λ _, True)) as Hboth by (apply calls_andThen; split; [done|]; by split).
  apply calls_attempt, calls_orClose; [done|]. unfold localUDPPort, ok, fail. apply calls_ok_bind. split; [done|]. intros local _. cbn [calls_ok].
  destruct local as [la|[la|]|n' l'|l']; try hq. cbn [calls_ok].
  apply calls_attempt, calls_orClose; [done|]. cbn [calls_ok]. destruct (rewriteSocks5ResponseBindPort _ _) as [r|e|m]; try hq.
  apply calls_attempt, calls_orClose; [done|]. apply calls_wrapping, safe_write. intros []; try hq. split; [done|]. intros r' _. hq.
Qed.
(** The rules judge the request that is served. *)
Lemma FindAction_spec inp req (Q : Action → Prop) :
  in_Protocol inp = SOCKS5_PROXY_PROTOCOL → in_Env inp = userEnv u →
  rd_bytes (Request_ReadFromSocks5 noRequest) (in_Data inp) = (Ok req, []) →
  let served := (Command req =? Socks5ConnectCmd) || (Command req =? Socks5UDPAssociateCmd) in
  (∀ a, (ac_Action a = EgressAction_REJECT ∨ (served = true → allowed (DstAddr req) = true)) →
        (∀ p, ac_Proxy a = Some p → served = true ∧ p ∈ Proxies (c_Egress c)) → Q a) →
  calls_ok decides answers (FindAction c inp) Q.
Proof.
  intros Hp He Hr served HQ. pose proof (request_header _ _ Hr) as [Hl Hv]. unfold FindAction, parseEgressSocks5Request.
  rewrite Hp, Hr, Hv. cbn [fst]. rewrite (proj2 (Z.ltb_ge _ _) Hl). cbn [negb Z.eqb SOCKS5_PROXY_PROTOCOL Socks5Version Pos.eqb].
  fold served. destruct served eqn:Ec; [|apply HQ; [by right|done]].
  rewrite (reject_spec _ _ He). destruct (allowed (DstAddr req)) eqn:Ea; cbn [ac_Action DIRECT REJECT Z.eqb EgressAction_DIRECT EgressAction_REJECT Pos.eqb].
  2: { apply HQ; [by left|done]. }
  unfold forwardToProxyAction. assert (∀ a, (∀ p, ac_Proxy a = Some p → p ∈ Proxies (c_Egress c)) → Q a) as HQ'
    by (intros a Ha; apply HQ; [by right|]; intros p Hpr; split; [done|by apply Ha]).
  assert (∀ act n, calls_ok decides answers (match List.find (λ p, bool_decide (GetProxyName p = n)) (Proxies (c_Egress c)) with
                         | Some proxy => Ret (mkAction act (Some proxy)) | None => Ret (mkAction act None) end) Q) as Hfind.
  { intros act n. destruct (List.find _ _) as [p|] eqn:Ef; apply HQ'; [|done]. intros p' [= <-]. apply find_some in Ef as [Hin _].
    by apply list_elem_of_In. }
  case_match; [by apply HQ'|]. destruct (List.find _ _) as [rule|]; [|by apply HQ']. case_match; [|by apply HQ'].
  case_match; [|apply Hfind]. apply calls_ok_bind. split; [done|]. intros idx _. apply Hfind.
Qed.

(** *** What is read before the request *)

Section served.
Context (cn : conn).
Abbreviation past_safe := (past_ok (dial_allowed cn) answers).

Lemma undialed_allowed past X (e : ioE X) : undialed X e → dial_allowed cn past X e.
Proof. by destruct e. Qed.
Lemma past_undialed {A} past (p : io A) : safe p (λ _, True) → past_safe past p (λ _ _, True).
Proof. intros Hp. eapply (past_calls _ _ undialed); [apply undialed_allowed|exact Hp|done]. Qed.

(** The program has read [w], and ends where [Q] holds of what it has read by
    then. *)
Definition reading {A} (w : list Z) (p : io A) (Q : list Z → A → Prop) : Prop :=
  ∀ past, readFrom cn past = w → past_safe past p (λ past r, Q (readFrom cn past) r).
(** Only a result without an error counts. *)
Definition onOk {A} (Q : list Z → A → Prop) (w : list Z) (r : result A) : Prop := match r with Ok a => Q w a | _ => True end.

Lemma readFrom_other past (a : answered) :
  match a with Answered (ReadFull _ _) (Ok _) => False | _ => True end → readFrom cn (past ++ [a]) = readFrom cn past.
Proof.
  intros H. rewrite readFrom_app. assert (readFrom cn [a] = []) as ->; [|apply app_nil_r].
  destruct a as [X e x]. destruct e; try done. by destruct x.
Qed.
Lemma readFrom_read past n l : readFrom cn (past ++ [Answered (ReadFull cn n) (Ok l)]) = readFrom cn past ++ l.
Proof. rewrite readFrom_app. cbn. by rewrite Z.eqb_refl, app_nil_r. Qed.

Lemma reading_read {A} w m n (k : list Z → io (result A)) (Q : list Z → A → Prop) :
  (∀ l, len l = n → reading (w ++ l) (k l) (onOk Q)) → reading w (attempt (wrapping m (read cn n)) k) (onOk Q).
Proof.
  intros H past <-. apply past_attempt, past_wrapping. split; [done|]. intros r Hr. destruct r as [l|e|m']; cbn; [|done..].
  apply H; [exact Hr|apply readFrom_read].
Qed.
Lemma reading_write {A} w m b (k : unit → io (result A)) (Q : list Z → A → Prop) :
  reading w (k tt) (onOk Q) → reading w (attempt (wrapping m (write cn b)) k) (onOk Q).
Proof.
  intros H past <-. apply past_attempt, past_wrapping. split; [done|]. intros [e|] _; cbn; [done|]. apply H, readFrom_other. done.
Qed.
Lemma reading_write_last w m b (Q : list Z → unit → Prop) : Q w tt → reading w (wrapping m (write cn b)) (onOk Q).
Proof.
  intros H past <-. apply past_wrapping. split; [done|]. intros [e|] _; cbn; [done|]. by rewrite readFrom_other.
Qed.
Lemma reading_fail {A} w e (Q : list Z → A → Prop) : reading w (fail e) (onOk Q).
Proof. done. Qed.
Lemma reading_timeouts {A} w t t' (p : io (result A)) Q :
  reading w p Q → reading w (deferred (call (SetReadTimeout cn t)) (call (SetReadTimeout cn t') >> p)) Q.
Proof.
  intros H past <-. apply past_deferred, past_andThen. split; [done|]. intros x _. cbn [past_ok].
  eapply past_mono; [|apply H, readFrom_other; done]. intros past' r Hr. split; [done|]. intros y _. cbn [past_ok]. by rewrite readFrom_other.
Qed.
Lemma reading_rd {A} w (p : rd A) (Q : list Z → A → Prop) :
  (∀ l a, rd_bytes p l = (Ok a, []) → Q (w ++ l) a) → reading w (rd_conn cn p) (onOk Q).
Proof.
  revert w. induction p as [r|n k IH]; intros w H; cbn [rd_conn].
  - intros past <-. destruct r; cbn; [|done..]. rewrite <-(app_nil_r (readFrom cn past)). by apply H.
  - intros past <-. apply past_attempt. split; [done|]. intros r Hr. destruct r as [l|e|m]; cbn [past_ok]; [|done..]. cbn in Hr.
    apply (IH l (readFrom cn past ++ l)); [|apply readFrom_read]. intros l' a E. rewrite <-app_assoc. apply H. cbn. rewrite len_app.
    pose proof (len_nonneg l'). rewrite (proj2 (Z.leb_le _ _)) by lia. by rewrite slice_to_app, slice_from_app.
Qed.

Lemma one_byte (l : list Z) : len l = 1 → l = [byte_at 0 l].
Proof. intros H. destruct l as [|x [|y l]]; [done|done|]. rewrite !len_cons in H. pose proof (len_nonneg l). lia. Qed.

Lemma authentication_reads : ClientSideAuthentication (AuthOpts s) = false → reading [] (handleAuthentication s cn) (onOk (λ w _, authenticated w)).
Proof.
  intros Hc. unfold handleAuthentication. apply reading_timeouts, reading_read. intros version Hv.
  destruct (Z.eqb_spec (byte_at 0 version) Socks5Version) as [Ev|]; cbn [negb]; [|apply reading_fail].
  apply one_byte in Hv. rewrite Ev in Hv. subst version.
  apply reading_read. intros n Hn. destruct (Z.eqb_spec (byte_at 0 n) 0) as [|En]; [apply reading_fail|].
  apply reading_read. intros methods Hm. apply one_byte in Hn. rewrite <-Hm in Hn, En. subst n.
  assert (methods ≠ []) as Hne by (intros ->; by rewrite len_nil in En).
  change ((([] ++ [Socks5Version]) ++ [len methods]) ++ methods) with ([Socks5Version; len methods] ++ methods).
  set (w := [Socks5Version; len methods] ++ methods). unfold chooseAuthentication. cbv zeta.
  destruct (existsb (Z.eqb Socks5NoAuth) methods) eqn:E1, (existsb (Z.eqb Socks5UserPassAuth) methods) eqn:E2,
    (Z.eqb_spec (len (IngressCredentials (AuthOpts s))) 0) as [Ec|Ec]; cbn [negb andb].
  all: try apply reading_fail; try (apply reading_write, reading_fail).
  all: try (apply reading_write_last; unfold authenticated; rewrite Hc; exists methods; split; [done|]; left; apply len_zero in Ec; by rewrite <-elem_existsb).
  all: apply reading_write, reading_read; intros v Hv;
    (destruct (Z.eqb_spec (byte_at 0 v) Socks5UserPassAuthVersion) as [Ev'|]; cbn [negb]; [|apply reading_fail]);
    apply one_byte in Hv; rewrite Ev' in Hv; subst v;
    (apply reading_read); intros n1 Hn1; (apply reading_read); intros user Hu;
    (apply reading_read); intros n2 Hn2; (apply reading_read); intros password Hp;
    apply one_byte in Hn1, Hn2; rewrite <-Hu in Hn1; rewrite <-Hp in Hn2; subst n1 n2;
    (destruct (registered _ user password) eqn:Er; [|apply reading_write, reading_fail]);
    apply reading_write_last; unfold authenticated; rewrite Hc; exists methods; (split; [done|]); right;
    (split; [by apply elem_existsb|]); exists user, password; (split; [by apply registered_elem|]); unfold w; by rewrite <-!app_assoc.
Qed.
Lemma readRequest_reads w : reading w (readRequest s cn) (onOk (λ w' req, w' = w ++ Raw req ∧ rd_bytes (Request_ReadFromSocks5 noRequest) (Raw req) = (Ok req, []))).
Proof.
  unfold readRequest. apply reading_timeouts, reading_rd. intros l req E. apply request_raw in E as [-> E]. by rewrite app_nil_r.
Qed.

(** *** From the request to the dial *)

Abbreviation served req := ((Command req =? Socks5ConnectCmd) || (Command req =? Socks5UDPAssociateCmd)).

Lemma past_connect past req0 req :
  requested cn past req0 → allowed (DstAddr req0) = true → Command req0 = Socks5ConnectCmd →
  destinationOf past (DstAddr req0) (AddrSpec_String (DstAddr req)) → past_safe past (handleConnect req cn) (λ _ _, True).
Proof.
  intros Hr Ha Hc Hd. unfold handleConnect. apply past_bind. split; [split; [done|]; exists req0; auto|]. intros r _. cbn [past_ok].
  apply past_undialed. destruct r as [target|e|m]; [| |done].
  - apply calls_deferred, calls_ok_bind. split; [done|]. intros a _. cbn [calls_ok].
    assert (safe (call (CloseConn target)) (λ _, True)) as Hclose by done.
    destruct a as [[a|]|a|n l|l]; try done. apply calls_attempt, calls_wrapping, safe_reply. intros []; try done.
  - unfold reply, fail. apply calls_attempt, calls_wrapping, safe_reply. by intros [].
Qed.
Lemma past_command past req0 req :
  requested cn past req0 → Command req = Command req0 → (Command req0 = Socks5ConnectCmd → allowed (DstAddr req0) = true) →
  destinationOf past (DstAddr req0) (AddrSpec_String (DstAddr req)) → past_safe past (handleCommand s req cn) (λ _ _, True).
Proof.
  intros Hr Hcmd Ha Hd. unfold handleCommand, handleBind, reply, fail. destruct (Z.eqb_spec (Command req) Socks5ConnectCmd) as [E|_].
  { rewrite Hcmd in E. eapply past_connect; eauto. }
  apply past_undialed. repeat case_match.
  - apply calls_wrapping, safe_reply. by intros [].
  - by apply safe_associate.
  - apply calls_attempt, calls_wrapping, safe_reply. by intros [].
Qed.
Lemma past_request past req :
  requested cn past req → (Command req = Socks5ConnectCmd → allowed (DstAddr req) = true) → past_safe past (handleRequest s req cn) (λ _ _, True).
Proof.
  intros Hr Ha. unfold handleRequest. destruct (len (FQDN (DstAddr req)) =? 0) eqn:E; cbn [negb].
  { eapply past_command; [done..|]. unfold destinationOf. by rewrite E. }
  apply past_bind. split; [done|]. intros ips _. cbn [past_ok].
  assert (∀ code e, past_safe (past ++ [Answered (LookupIP "ip" (FQDN (DstAddr req))) ips]) (reply cn code e) (λ _ _, True)) as Hreply.
  { intros code e. apply past_undialed. unfold reply, fail. apply calls_attempt, calls_wrapping, safe_reply. by intros []. }
  destruct ips as [[|ip ips]|e|m]; [apply Hreply| |apply Hreply|done].
  destruct (SelectIPFromList _ _) as [ip'|] eqn:Es; [|apply Hreply].
  apply (past_command _ req); [|done|done|].
  - destruct Hr as (w & H1 & H2 & H3). exists w. by rewrite readFrom_other.
  - unfold destinationOf. rewrite E. exists (ip :: ips), ip'. split; [|done]. apply elem_of_app. right. by left.
Qed.
Lemma past_forwarding past req p :
  requested cn past req → allowed (DstAddr req) = true → served req = true → p ∈ Proxies (c_Egress c) →
  past_safe past (handleForwarding s req cn p) (λ _ _, True).
Proof.
  intros Hr Ha Hc Hp. unfold handleForwarding, ok, fail, lift. cbv zeta. apply past_attempt, past_wrapping. split.
  { split; [done|]. exists req. split; [done|]. split; [done|]. right. split; [|by exists p].
    apply orb_true_iff in Hc as [?%Z.eqb_eq|?%Z.eqb_eq]; auto. }
  intros r _. cbn [past_ok]. destruct r as [en|e|m]; [|done..]. apply past_undialed.
  assert (safe (call (CloseConn en)) (λ _, True)) as Hen by by split.
  apply calls_andThen. split; [done|]. intros ? _. apply calls_ok_bind, safe_negotiate. intros err.
  apply calls_andThen. split; [done|]. intros ? _. apply calls_attempt, calls_orClose; [done|]. apply calls_wrapping. cbn [calls_ok].
  destruct err; [|done..]. repeat case_match; [|by apply safe_forwarding_udp|done].
  apply calls_attempt, calls_orClose; [done|]. apply calls_wrapping, safe_write. by intros [].
Qed.
Lemma past_serveRequest past req : requested cn past req → past_safe past (serveRequest s req cn) (λ _ _, True).
Proof.
  intros Hr. unfold serveRequest. apply past_bind. split; [done|]. intros user ->. cbn [past_ok].
  set (past1 := past ++ _). assert (requested cn past1 req) as Hr1 by (destruct Hr as (w & H1 & H2 & H3); exists w; unfold past1; by rewrite readFrom_other).
  clearbody past1. clear Hr. apply past_bind. destruct Hr1 as (w & Hw & Hread & Hreq).
  eapply (past_calls _ _ decides); [by intros ? ? []|apply (FindAction_spec _ req); [done|done|exact Hreq|]; intros a Ha Hp; exact (conj Ha Hp)|].
  intros more a Hmore [Ha Hp]. cbn beta.
  assert (requested cn (past1 ++ more) req) as Hr1.
  { exists w. split; [done|]. split; [|done]. rewrite readFrom_app, Hread. rewrite <-(app_nil_r (w ++ Raw req)) at 2. f_equal. clear -Hmore.
    induction Hmore as [|[X e x] more He _ IH]; [done|].
    change (readFrom cn ([Answered e x] ++ more) = []). rewrite readFrom_app, IH, app_nil_r. by destruct e. }
  destruct (Z.eqb_spec (ac_Action a) EgressAction_DIRECT) as [E|E].
  { apply past_wrapping, past_request; [done|]. intros Hc. destruct Ha as [Ha|Ha]; [by rewrite E in Ha|]. apply Ha. by rewrite Hc. }
  destruct (Z.eqb_spec (ac_Action a) EgressAction_PROXY) as [E'|E'].
  - destruct (ac_Proxy a) as [p|] eqn:Ep; [|done]. destruct (Hp p eq_refl) as [Hs Hin].
    apply past_forwarding; [done| |done|done]. destruct Ha as [Ha|Ha]; [by rewrite E' in Ha|by apply Ha].
  - apply past_undialed. case_match; [|done]. apply calls_attempt, calls_wrapping, safe_reply. by intros [].
Qed.
Lemma past_ServeConn : UseProxy s = false → past_safe [] (ServeConn s cn) (λ _ _, True).
Proof.
  intros Hp. unfold ServeConn. rewrite Hp. apply past_deferred. enough (past_safe [] (serverServeConn s cn) (λ _ _, True)) as H.
  { eapply past_mono, H. intros past r _. by split. }
  unfold serverServeConn. apply past_attempt.
  assert (past_safe [] (if negb (ClientSideAuthentication (AuthOpts s)) then handleAuthentication s cn else ok tt)
    (λ past r, onOk (λ w _, authenticated w) (readFrom cn past) r)) as Hauth.
  { destruct (ClientSideAuthentication (AuthOpts s)) eqn:Ec; cbn [negb]; [cbn; unfold authenticated; by rewrite Ec|by apply authentication_reads]. }
  eapply past_mono, Hauth. intros past r Hr. destruct r as [[]|e|m]; [|done..]. cbn [onOk] in Hr.
  unfold serverReadRequest. apply past_bind. eapply past_mono, (readRequest_reads (readFrom cn past)); [|done].
  intros past' req Hreq. destruct req as [req|e|m]; [| |done].
  - destruct Hreq as [E1 E2]. apply past_serveRequest. by exists (readFrom cn past).
  - apply past_undialed. unfold ok, fail. apply calls_attempt. destruct (bool_decide _); [apply calls_wrapping, safe_reply; by intros []|done].
Qed.
End served.
End dials.

(** C11. A server connects only where the user may go: whatever the network
    answers and whatever the client sends, when the server dials for a
    connection, then the client has sent exactly an authentication that the
    server accepts and a request, the request's destination is allowed for the
    user of the connection, and the address that is dialed is the one that the
    request asks for, with the IP that the dual stack preference selects from
    what the resolver had answered for its name if it has one, or else the
    address of an egress proxy of the configuration. *)
Theorem dials_are_allowed {S : Type} (h : handler S) (s : Config) (u : list Z) (cn : conn) (st : S) (before after : list answered) (x : answered) :
  UseProxy s = false → obeys (answers u) h → trace h (ServeConn s cn) st = before ++ [x] ++ after →
  match x with Answered e _ => dial_allowed s u cn before _ e end.
Proof.
  intros Hp Hh Ht. by apply (trace_past_ok (dial_allowed s u cn) (answers u) h (ServeConn s cn) (λ _ _, True) [] st before x after Hh (past_ServeConn s u cn Hp)).
Qed.

Lemma FindAction_reject s u inp req :
  in_Protocol inp = SOCKS5_PROXY_PROTOCOL → in_Env inp = userEnv u →
  rd_bytes (Request_ReadFromSocks5 noRequest) (in_Data inp) = (Ok req, []) →
  Command req = Socks5ConnectCmd ∨ Command req = Socks5UDPAssociateCmd → allowed s u (DstAddr req) = false →
  FindAction (c_rules s) inp = Ret REJECT.
Proof.
  intros Hp He Hr Hc Ha. pose proof (request_header _ _ Hr) as [Hl Hv]. unfold FindAction, parseEgressSocks5Request.
  rewrite Hp, Hr, Hv, (proj2 (Z.ltb_ge _ _) Hl). cbn [fst negb Z.eqb SOCKS5_PROXY_PROTOCOL Socks5Version Pos.eqb].
  rewrite (reject_spec s u _ _ He), Ha. by destruct Hc as [-> | ->].
Qed.
(** C14. A request for an address that the user may not use ends with an error,
    and nothing but the reply leaves the server for it: no name is resolved and
    nothing is dialed or listened to. *)
Theorem forbidden_request_rejected {S : Type} (h : handler S) (s : Config) (u l rest : list Z) (req : Request) (cn : conn) (st : S) :
  rd_bytes (Request_ReadFromSocks5 noRequest) l = (Ok req, rest) →
  Command req = Socks5ConnectCmd ∨ Command req = Socks5UDPAssociateCmd → allowed s u (DstAddr req) = false → obeys (answers u) h →
  let '(r, _, log) := run h (serveRequest s req cn) st in
  is_Err r ∧ Forall (λ x, match x with Called e => match e with UserName _ => True | Write c' b => c' = cn ∧ byte_at 1 b = Socks5ReplyNotAllowedByRuleSet | _ => False end end) log.
Proof.
  intros Hr Hc Ha Hh. apply request_raw in Hr as [_ Hr].
  set (G := λ X (e : ioE X), match e with UserName _ => True | Write c' b => c' = cn ∧ byte_at 1 b = Socks5ReplyNotAllowedByRuleSet | _ => False end).
  enough (calls_ok G (answers u) (serveRequest s req cn) is_Err) as H.
  { apply (run_calls_ok G (answers u) h _ _ st Hh) in H as [H1 H2]. by destruct (run h _ st) as [[r st'] log]. }
  unfold serveRequest. apply calls_ok_bind. split; [done|]. intros user ->. cbn [calls_ok].
  erewrite (FindAction_reject s u (mkInput _ _ _) req) by done. cbn. split; [done|]. intros [e|] _; by eexists.
Qed.

(** ** Addresses of the local system that the check does not see *)

Lemma FindAction_direct s u inp req :
  in_Protocol inp = SOCKS5_PROXY_PROTOCOL → in_Env inp = userEnv u →
  rd_bytes (Request_ReadFromSocks5 noRequest) (in_Data inp) = (Ok req, []) →
  allowed s u (DstAddr req) = true → List.find (matchEgressRule (a_IP (DstAddr req)) (FQDN (DstAddr req))) (Rules (c_Egress (c_rules s))) = None →
  FindAction (c_rules s) inp = Ret DIRECT.
Proof.
  intros Hp He Hr Ha Hf. pose proof (request_header _ _ Hr) as [Hl Hv]. unfold FindAction, parseEgressSocks5Request.
  rewrite Hp, Hr, Hv, (proj2 (Z.ltb_ge _ _) Hl). cbn [fst negb Z.eqb SOCKS5_PROXY_PROTOCOL Socks5Version Pos.eqb].
  case_match; [|done]. rewrite (reject_spec s u _ _ He), Ha. cbn [ac_Action DIRECT Z.eqb EgressAction_DIRECT EgressAction_REJECT Pos.eqb].
  unfold forwardToProxyAction. rewrite Hf. by case_match.
Qed.

Lemma read_empty_name cmd p :
  is_u16 p →
  let raw := [Socks5Version; cmd; 0] ++ [Socks5FQDNAddress] ++ [0] ++ [u8 (Z.shiftr (u16 p) 8); u8 (Z.land (u16 p) 255)] in
  rd_bytes (Request_ReadFromSocks5 noRequest) raw = (Ok (mkRequest cmd (mkAddrSpec [] [] p) raw), []).
Proof.
  intros Hp. pose proof (port_bytes p Hp) as E. revert E. generalize (u8 (Z.shiftr (u16 p) 8)) (u8 (Z.land (u16 p) 255)). intros x y E raw.
  unfold Request_ReadFromSocks5. rewrite rd_bind_eq, rd_bytes_bind. change (DstAddr noRequest) with noAddr.
  rewrite <-(app_nil_r raw) at 1. rewrite (rd_tee_Ok _ _ _ (cmd, mkAddrSpec [] [] p)); [done|]. rewrite app_nil_r.
  unfold readMessage, raw. rewrite rd_bind_eq, rd_bytes_rread by done. change (byte_at 0 [Socks5Version; cmd; 0] =? Socks5Version) with true. cbn [negb].
  unfold ReadFromSocks5. rewrite rd_bind_eq, rd_bytes_bind, rd_bind_eq, rd_bytes_rread by done. unfold readAddr.
  change (byte_at 0 [Socks5FQDNAddress]) with Socks5FQDNAddress. cbn [Z.eqb Socks5FQDNAddress Socks5IPv6Address Socks5IPv4Address Pos.eqb]. rewrite rd_bind_eq, rd_bytes_bind, rd_bind_eq, rd_bytes_rread by done.
  change (byte_at 0 [0]) with (len (A:=Z) []). change [x; y] with ([] ++ [x; y]). rewrite rd_bind_eq, rd_bytes_rread by done. cbn [app].
  cbn [rd_bytes mret rd_ret]. rewrite rd_bind_eq. rewrite <-(app_nil_r [x; y]). rewrite rd_bytes_rread by done. cbn. unfold byte_at. cbn [nth]. by rewrite E.
Qed.
Lemma run_log {S A X} (h : handler S) (e : ioE X) (k : X → io A) st :
  (run h (Do e k) st).2 = Called e :: (run h (k (h _ e st).1) (h _ e st).2).2.
Proof. cbn. destruct (h X e st) as [x st']. cbn. by destruct (run h (k x) st') as [[? ?] ?]. Qed.
(** The request of any user for the empty name, or for 0.0.0.0, passes the check
    of private and loopback addresses, and the server dials [":port"] or
    ["0.0.0.0:port"], which package net takes for the local system. *)
Theorem local_system_reachable {S : Type} (h : handler S) (s : Config) (u : list Z) (p : Z) (cn : conn) (st : S) :
  obeys (answers u) h → Rules (c_Egress (c_rules s)) = [] → is_u16 p →
  ∀ dst a, (dst, a) ∈ [(mkAddrSpec [] [] p, [58] ++ Itoa p); (mkAddrSpec [] [0; 0; 0; 0] p, bytes_of_string "0.0.0.0:" ++ Itoa p)] →
  ∃ raw log, rd_bytes (Request_ReadFromSocks5 noRequest) raw = (Ok (mkRequest Socks5ConnectCmd dst raw), []) ∧
    (run h (serveRequest s (mkRequest Socks5ConnectCmd dst raw) cn) st).2 = Called (UserName cn) :: Called (Dial "tcp" a) :: log.
Proof.
  intros Hh Hrules Hp dst a Hin.
  assert (∃ raw, rd_bytes (Request_ReadFromSocks5 noRequest) raw = (Ok (mkRequest Socks5ConnectCmd dst raw), [])) as (raw & Hr).
  { rewrite !elem_of_cons in Hin. destruct Hin as [[= -> ->]|[[= -> ->]|Hin%not_elem_of_nil]]; [| |done].
    - eexists. by apply read_empty_name.
    - assert (addr_ok (mkAddrSpec [] [0; 0; 0; 0] p)) as Ha by (split; cbn; [by repeat constructor|by split; [constructor|]|left; by eexists|done]).
      destruct (addr_ok_write _ Ha) as (w & Hw). exists ([Socks5Version; Socks5ConnectCmd; 0] ++ w).
      pose proof (readRequest_written Socks5ConnectCmd _ w [] Ha Hw) as Hr. rewrite app_nil_r in Hr. exact Hr. }
  assert (allowed s u dst = true ∧ FQDN dst = [] ∧ AddrSpec_String dst = a) as (Ha & Hn & Hs).
  { rewrite !elem_of_cons in Hin. by destruct Hin as [[= -> ->]|[[= -> ->]|Hin%not_elem_of_nil]]. }
  exists raw. eexists. split; [exact Hr|]. unfold serveRequest, call. cbn [mbind io_bind io_bind_]. rewrite run_log. f_equal.
  pose proof (Hh _ (UserName cn) st) as Hu. cbn in Hu. rewrite Hu.
  erewrite (FindAction_direct s u (mkInput _ _ _)) by (try done; by rewrite Hrules).
  cbn [io_bind_ ac_Action DIRECT]. change (EgressAction_DIRECT =? EgressAction_DIRECT) with true. cbv iota.
  unfold handleRequest. cbn [DstAddr]. rewrite Hn. change (negb (len [] =? 0)) with false. cbv iota. unfold handleCommand. cbn [Command].
  change (Socks5ConnectCmd =? Socks5ConnectCmd) with true. cbv iota. unfold handleConnect, wrapping, call. cbn [mbind io_bind io_bind_ DstAddr].
  rewrite Hs. apply run_log.
Qed.

(** ** Client and server negotiate *)

Section negotiation.
Context {S T : Type} (hl : handler S) (hr : handler T) (cl cr : conn) (s : Config).
Hypothesis Hquiet : ∀ c t st, hr _ (SetReadTimeout c t) st = (tt, st).
Let creds := IngressCredentials (AuthOpts s).
Abbreviation duplex := (duplex hl cl hr cr).

(** Both ends as their callers run them: who fails closes the connection. *)
Definition Client {A} (p : io (result A)) : io (result A) := orClose (call (CloseConn cl)) p.
Definition Server {A} (p : io (result A)) : io (result A) := orClose (call (CloseConn cr)) (deferred (call (SetReadTimeout cr 0)) p).

(** How a run as far as possible ends: with a result, an error, or waiting. *)
Lemma client_err {A} ps (p : io (result A)) st q e st' q' z w :
  advance hl cl ps p st q false = (mkSide (Ret (Err e)) st' q' z, w) → advance hl cl ps (Client p) st q false = (mkSide (Ret (Err e)) st' q' true, w).
Proof. intros E. unfold Client, orClose. rewrite advance_bind, E. cbn. rewrite Z.eqb_refl. cbn. by rewrite app_nil_r. Qed.
Lemma client_waits {A} ps (p : io (result A)) st q m n (k : list Z → io (result A)) st' q' w :
  advance hl cl ps p st q false = (mkSide (attempt (wrapping m (read cl n)) k) st' q' false, w) →
  advance hl cl ps (Client p) st q false = (mkSide (Client (attempt (wrapping m (read cl n)) k)) st' q' false, w).
Proof. intros E. unfold Client, orClose. by rewrite advance_bind, E. Qed.
Lemma server_err {A} ps (p : io (result A)) t q e t' q' z w :
  advance hr cr ps p t q false = (mkSide (Ret (Err e)) t' q' z, w) → advance hr cr ps (Server p) t q false = (mkSide (Ret (Err e)) t' q' true, w).
Proof.
  intros E. unfold Server, orClose, deferred. rewrite advance_bind, advance_bind, E. cbn. rewrite Hquiet. cbn. rewrite Z.eqb_refl. cbn. by rewrite !app_nil_r.
Qed.
Lemma server_waits {A} ps (p : io (result A)) t q m n (k : list Z → io (result A)) t' q' w :
  advance hr cr ps p t q false = (mkSide (attempt (wrapping m (read cr n)) k) t' q' false, w) →
  advance hr cr ps (Server p) t q false = (mkSide (Server (attempt (wrapping m (read cr n)) k)) t' q' false, w).
Proof. intros E. unfold Server, orClose, deferred. by rewrite advance_bind, advance_bind, E. Qed.

(** The server up to the choice of the method. *)
Definition Timed {A} (p : io (result A)) : io (result A) := deferred (call (SetReadTimeout cr 0)) p.
Lemma timed_ok {A} ps (p : io (result A)) t q a t' q' z w :
  advance hr cr ps p t q false = (mkSide (Ret a) t' q' z, w) → advance hr cr ps (Timed p) t q false = (mkSide (Ret a) t' q' z, w).
Proof. intros E. unfold Timed, deferred. rewrite advance_bind, E. cbn. rewrite Hquiet. cbn. by rewrite app_nil_r. Qed.
Lemma timed_waits {A} ps (p : io (result A)) t q m n (k : list Z → io (result A)) t' q' w :
  advance hr cr ps p t q false = (mkSide (attempt (wrapping m (read cr n)) k) t' q' false, w) →
  advance hr cr ps (Timed p) t q false = (mkSide (Timed (attempt (wrapping m (read cr n)) k)) t' q' false, w).
Proof. intros E. unfold Timed, deferred. by rewrite advance_bind, E. Qed.
Lemma timed_head ps t methods q :
  methods ≠ [] →
  advance hr cr ps (handleAuthentication s cr) t ([Socks5Version; len methods] ++ methods ++ q) false =
  advance hr cr ps (Timed (chooseAuthentication s cr methods)) t q false.
Proof.
  intros Hm. unfold Timed, handleAuthentication, deferred. rewrite !advance_bind, advance_timeout, Hquiet.
  change ([Socks5Version; len methods] ++ methods ++ q) with ([Socks5Version] ++ [len methods] ++ methods ++ q).
  rewrite advance_read_app by done. change (byte_at 0 [Socks5Version] =? Socks5Version) with true. cbn [negb].
  rewrite advance_read_app by done. change (byte_at 0 [len methods]) with (len methods).
  destruct (Z.eqb_spec (len methods) 0) as [E%len_zero|]; [done|]. by rewrite advance_read_app by done.
Qed.

Lemma server_head ps t methods q :
  methods ≠ [] →
  advance hr cr ps (orClose (call (CloseConn cr)) (handleAuthentication s cr)) t ([Socks5Version; len methods] ++ methods ++ q) false =
  advance hr cr ps (Server (chooseAuthentication s cr methods)) t q false.
Proof. intros Hm. unfold Server, orClose. by rewrite advance_bind, timed_head, <-advance_bind. Qed.

(** The request for user and password, and what the server makes of them. *)
Definition password_bytes (user password : list Z) : list Z :=
  [Socks5UserPassAuthVersion; u8 (len user)] ++ user ++ [u8 (len password)] ++ password.
Definition after_password (user password : list Z) (e : error) : result unit := if registered creds user password then Ok tt else Err e.
Lemma choose_password t :
  creds ≠ [] →
  ∃ m k e, advance hr cr false (chooseAuthentication s cr [Socks5UserPassAuth]) t [] false =
           (mkSide (attempt (wrapping m (read cr 1)) k) t [] false, [Socks5Version; Socks5UserPassAuth]) ∧
    ∀ ps user password, len user <= 255 → len password <= 255 →
      advance hr cr ps (attempt (wrapping m (read cr 1)) k) t (password_bytes user password) false =
        (mkSide (Ret (after_password user password e)) t [] false,
         [Socks5UserPassAuthVersion; if registered creds user password then Socks5AuthSuccess else Socks5AuthFailure]).
Proof.
  intros Hc. assert ((len creds =? 0) = false) as El by (apply Z.eqb_neq; by rewrite len_zero). eexists _, _, _. split.
  - unfold chooseAuthentication. fold creds. rewrite El. cbn [existsb Z.eqb Socks5NoAuth Socks5UserPassAuth Pos.eqb orb negb andb].
    by rewrite advance_write, advance_read_nil by lia.
  - intros ps user password Hu Hp. pose proof (len_nonneg user). pose proof (len_nonneg password). unfold password_bytes, after_password.
    rewrite !wrap_id by (split; [lia|]; change (2 ^ 8) with 256; lia).
    change ([Socks5UserPassAuthVersion; len user] ++ user ++ [len password] ++ password)
      with ([Socks5UserPassAuthVersion] ++ [len user] ++ user ++ [len password] ++ password).
    rewrite advance_read_app by done. change (negb (byte_at 0 [Socks5UserPassAuthVersion] =? Socks5UserPassAuthVersion)) with false. cbv iota.
    rewrite advance_read_app by done. rewrite advance_read_app by done. rewrite advance_read_app by done.
    rewrite <-(app_nil_r password) at 2. rewrite advance_read_app by done.
    destruct (registered creds user password); [apply advance_write_last|by rewrite advance_write].
Qed.
(** Without credentials, or for a client without any, the server has nothing to
    ask for. *)
Lemma choose_silent m : m = Socks5UserPassAuth ∧ creds = [] ∨ m = Socks5NoAuth ∧ creds ≠ [] → ∃ e, chooseAuthentication s cr [m] = fail e.
Proof.
  intros [[-> Hc]|[-> Hc]]; unfold chooseAuthentication; fold creds.
  - rewrite Hc. by eexists.
  - replace (len creds =? 0) with false by (symmetry; apply Z.eqb_neq; by rewrite len_zero). by eexists.
Qed.

(** When both sides should agree, and how they end. *)
Definition acceptable (cred : option Credential) : bool :=
  match cred with
  | None => bool_decide (creds = [])
  | Some cr => bool_decide (cr ∈ creds) && (len (cr_User cr) <=? 255) && (len (cr_Password cr) <=? 255)
  end.
Definition agreed (st : S) (t : T) (x : side S (result unit)) (y : side T (result unit)) : Prop :=
  x = mkSide (Ret (Ok tt)) st [] false ∧ y = mkSide (Ret (Ok tt)) t [] false.
Definition disagreed (st : S) (t : T) (x : side S (result unit)) (y : side T (result unit)) : Prop :=
  ∃ e e' q, x = mkSide (Ret (Err e)) st [] true ∧ y = mkSide (Ret (Err e')) t q true.

Abbreviation clientMethod cred := (if bool_decide (cred = None) then Socks5NoAuth else Socks5UserPassAuth).
Lemma client_start cred st :
  ∃ m k, advance hl cl false (clientNegotiateAuthentication cl cred) st [] false =
         (mkSide (attempt (wrapping m (read cl 2)) k) st [] false, [Socks5Version; len [clientMethod cred]] ++ [clientMethod cred] ++ []) ∧
       ∀ ps, advance hl cl ps (attempt (wrapping m (read cl 2)) k) st [Socks5Version; clientMethod cred] false =
             advance hl cl ps (match cred with None => ok tt | Some cr => clientCredential cl cr end) st [] false.
Proof.
  eexists _, _. split.
  - unfold clientNegotiateAuthentication. rewrite advance_write, advance_read_nil by lia. reflexivity.
  - intros ps. rewrite <-(app_nil_r [_; _]), advance_read_app by done. by destruct cred.
Qed.
Lemma client_password user password st :
  len user <= 255 → len password <= 255 →
  ∃ m k e, advance hl cl false (clientCredential cl (mkCredential user password)) st [] false =
           (mkSide (attempt (wrapping m (read cl 2)) k) st [] false, password_bytes user password) ∧
    ∀ ps b, advance hl cl ps (attempt (wrapping m (read cl 2)) k) st [Socks5UserPassAuthVersion; b] false =
              (mkSide (Ret (if b =? Socks5AuthSuccess then Ok tt else Err e)) st [] false, []).
Proof.
  intros Hu Hp. eexists _, _, _. split.
  - unfold clientCredential. cbn [cr_User cr_Password]. replace (_ || _) with false by (symmetry; apply orb_false_iff; lia).
    rewrite advance_write, advance_read_nil by lia. by rewrite app_nil_r.
  - intros ps b. rewrite <-(app_nil_r [_; _]), advance_read_app by done. cbn. by destruct (b =? _).
Qed.

Abbreviation begin cred st t := (mkSide (Client (clientNegotiateAuthentication cl cred)) st [] false,
  mkSide (orClose (call (CloseConn cr)) (handleAuthentication s cr)) t [] false).

Lemma negotiate_silent cred st t e :
  chooseAuthentication s cr [clientMethod cred] = fail e → ends hl cl hr cr (disagreed st t) (begin cred st t).1 (begin cred st t).2.
Proof.
  intros He. destruct (client_start cred st) as (m & k & E & _). eapply ends_left; [exact (client_waits _ _ _ _ _ _ _ _ _ _ E)|].
  apply ends_receive. eapply ends_right; [cbn [sd_shut]; rewrite app_nil_l, server_head by done; eapply server_err; rewrite He; reflexivity|].
  rewrite receive_nil. eapply ends_left; [eapply client_err; rewrite advance_read_nil by lia; reflexivity|].
  rewrite receive_nil. apply ends_here. by eexists _, _, _.
Qed.
(** Both succeed: without credentials, and with a registered one. *)
Lemma negotiate_none st t :
  creds = [] → ends hl cl hr cr (agreed st t) (mkSide (clientNegotiateAuthentication cl None) st [] false) (mkSide (handleAuthentication s cr) t [] false).
Proof.
  intros Hc. destruct (client_start None st) as (m & k & E & Ek). eapply ends_left; [exact E|].
  apply ends_receive. eapply ends_right.
  { cbn [sd_shut]. rewrite app_nil_l, timed_head by done. eapply timed_ok. unfold chooseAuthentication. fold creds. rewrite Hc. apply advance_write_last. }
  apply ends_receive_left. eapply ends_left; [cbn [app]; rewrite Ek; reflexivity|]. rewrite receive_nil. by apply ends_here.
Qed.
Lemma negotiate_registered user password st t :
  registered creds user password = true → len user <= 255 → len password <= 255 →
  ends hl cl hr cr (agreed st t)
    (mkSide (clientNegotiateAuthentication cl (Some (mkCredential user password))) st [] false) (mkSide (handleAuthentication s cr) t [] false).
Proof.
  intros Hreg Hu Hp. assert (creds ≠ []) as Hc by (by intros E; rewrite E in Hreg).
  destruct (client_start (Some (mkCredential user password)) st) as (m & k & E & Ek), (choose_password t Hc) as (m' & k' & e & E' & Ek').
  destruct (client_password user password st Hu Hp) as (m2 & k2 & e2 & E2 & Ek2).
  eapply ends_left; [exact E|]. apply ends_receive. eapply ends_right.
  { cbn [sd_shut]. rewrite app_nil_l, timed_head by done. exact (timed_waits _ _ _ _ _ _ _ _ _ _ E'). }
  apply ends_receive_left. eapply ends_left; [cbn [app sd_shut]; rewrite Ek; exact E2|].
  apply ends_receive. rewrite app_nil_l. specialize (Ek' false user password Hu Hp). unfold after_password in Ek'. rewrite Hreg in Ek'.
  eapply ends_right; [exact (timed_ok _ _ _ _ _ _ _ _ _ Ek')|]. apply ends_receive_left. rewrite app_nil_l.
  eapply ends_left; [exact (Ek2 _ Socks5AuthSuccess)|]. rewrite receive_nil. by apply ends_here.
Qed.
Lemma negotiation_good cred st t :
  acceptable cred = true →
  ends hl cl hr cr (agreed st t) (mkSide (clientNegotiateAuthentication cl cred) st [] false) (mkSide (handleAuthentication s cr) t [] false).
Proof.
  destruct cred as [[user password]|]; unfold acceptable; cbn [cr_User cr_Password]; intros H; [|by apply bool_decide_eq_true in H; apply negotiate_none].
  rewrite !andb_true_iff, bool_decide_eq_true in H. destruct H as [[Hin ?] ?]. apply negotiate_registered; [by apply registered_elem|lia|lia].
Qed.
Lemma negotiation_good_closing cred st t :
  acceptable cred = true → ends hl cl hr cr (agreed st t) (begin cred st t).1 (begin cred st t).2.
Proof.
  intros (x & y & [-> ->] & Hr)%(negotiation_good cred st t). exists (mkSide (Ret (Ok tt)) st [] false), (mkSide (Ret (Ok tt)) t [] false). split; [done|].
  pose (f c (r : result unit) := match r with Err e => call (CloseConn c) >> fail e | r => Ret r end).
  exact (duplex_bind_left hl cl hr cr (f cl) _ _ _ _ (duplex_bind_right hl cl hr cr (f cr) _ _ _ _ Hr)).
Qed.
Lemma after_client_choice {A} ps (p p' : io (result A)) st q q' z z' :
  advance hl cl ps p st q z = advance hl cl ps p' st q' z' → advance hl cl ps (Client p) st q z = advance hl cl ps (Client p') st q' z'.
Proof. intros E. unfold Client, orClose. by rewrite !advance_bind, E. Qed.
Lemma negotiate_long user password st t :
  creds ≠ [] → 255 < len user ∨ 255 < len password →
  ends hl cl hr cr (disagreed st t) (begin (Some (mkCredential user password)) st t).1 (begin (Some (mkCredential user password)) st t).2.
Proof.
  intros Hc Hl. destruct (client_start (Some (mkCredential user password)) st) as (m & k & E & Ek), (choose_password t Hc) as (m' & k' & e & E' & _).
  eapply ends_left; [exact (client_waits _ _ _ _ _ _ _ _ _ _ E)|]. apply ends_receive. eapply ends_right.
  { cbn [sd_shut]. rewrite app_nil_l, server_head by done. exact (server_waits _ _ _ _ _ _ _ _ _ _ E'). }
  apply ends_receive_left. eapply ends_left.
  { eapply client_err. cbn [app sd_shut]. rewrite Ek. unfold clientCredential. cbn [cr_User cr_Password].
    replace (_ || _) with true by (symmetry; apply orb_true_iff; lia). reflexivity. }
  rewrite receive_nil. eapply ends_right; [eapply server_err; cbn [sd_shut]; rewrite advance_read_nil by lia; reflexivity|].
  rewrite receive_nil. apply ends_here. by eexists _, _, _.
Qed.
Lemma negotiate_unregistered user password st t :
  creds ≠ [] → registered creds user password = false → len user <= 255 → len password <= 255 →
  ends hl cl hr cr (disagreed st t) (begin (Some (mkCredential user password)) st t).1 (begin (Some (mkCredential user password)) st t).2.
Proof.
  intros Hc Hreg Hu Hp. destruct (client_start (Some (mkCredential user password)) st) as (m & k & E & Ek), (choose_password t Hc) as (m' & k' & e & E' & Ek').
  destruct (client_password user password st Hu Hp) as (m2 & k2 & e2 & E2 & Ek2).
  eapply ends_left; [exact (client_waits _ _ _ _ _ _ _ _ _ _ E)|]. apply ends_receive. eapply ends_right.
  { cbn [sd_shut]. rewrite app_nil_l, server_head by done. exact (server_waits _ _ _ _ _ _ _ _ _ _ E'). }
  apply ends_receive_left. eapply ends_left.
  { cbn [app sd_shut]. etrans; [exact (after_client_choice _ _ _ _ _ _ _ _ (Ek false))|]. exact (client_waits _ _ _ _ _ _ _ _ _ _ E2). }
  apply ends_receive. rewrite app_nil_l. specialize (Ek' false user password Hu Hp). unfold after_password in Ek'. rewrite Hreg in Ek'.
  eapply ends_right; [exact (server_err _ _ _ _ _ _ _ _ _ Ek')|]. apply ends_receive_left. rewrite app_nil_l.
  eapply ends_left; [exact (client_err _ _ _ _ _ _ _ _ _ (Ek2 _ Socks5AuthFailure))|]. rewrite receive_nil. apply ends_here. by eexists _, _, _.
Qed.
Lemma negotiation_bad cred st t :
  acceptable cred = false → ends hl cl hr cr (disagreed st t) (begin cred st t).1 (begin cred st t).2.
Proof.
  destruct (decide (creds = [])) as [Hc|Hc], cred as [[user password]|]; unfold acceptable; cbn [cr_User cr_Password]; intros Ha.
  - destruct (choose_silent Socks5UserPassAuth) as (e & He); [tauto|]. by apply negotiate_silent with e.
  - by rewrite bool_decide_eq_true_2 in Ha.
  - destruct (Z.leb_spec (len user) 255), (Z.leb_spec (len password) 255); try (apply negotiate_long; [done|lia]).
    apply negotiate_unregistered; [done| |done|done]. apply not_true_iff_false. intros Hr%registered_elem.
    by rewrite bool_decide_eq_true_2 in Ha.
  - destruct (choose_silent Socks5NoAuth) as (e & He); [tauto|]. by apply negotiate_silent with e.
Qed.
End negotiation.

(** C13. The client's credential and the server's list decide how a negotiation
    ends, and the network does not: over any interleaving of the two ends, which
    always stops, the run can only go on to where both returned without an error
    and no byte is left over, if the server has no credentials and the client
    none, or the client's one is in the server's list; and otherwise to where
    both returned an error and closed the connection. *)
Theorem negotiation_agrees {S T : Type} (hl : handler S) (hr : handler T) (cl cr : conn) (s : Config) (cred : option Credential) (st : S) (t : T) :
  (∀ c d st, hr _ (SetReadTimeout c d) st = (tt, st)) →
  ∃ x y n, (if acceptable s cred then agreed st t x y else disagreed st t x y) ∧
  ∀ m u, nsteps (duplex hl cl hr cr) m
           (mkSide (orClose (call (CloseConn cl)) (clientNegotiateAuthentication cl cred)) st [] false,
            mkSide (orClose (call (CloseConn cr)) (handleAuthentication s cr)) t [] false) u →
         (m <= n)%nat ∧ rtc (duplex hl cl hr cr) u (x, y).
Proof.
  intros Hq. destruct (acceptable s cred) eqn:Ha.
  - apply ends_all; [intros x y [-> ->]; apply ret_stuck|]. by apply (negotiation_good_closing hl hr cl cr s Hq cred st t).
  - apply ends_all; [intros x y (e & e' & q & -> & ->); apply ret_stuck|]. by apply (negotiation_bad hl hr cl cr s Hq cred st t).
Qed.

(** ** A client dials through a server *)

Section connect.
Context {S T : Type} (hl : handler S) (hr : handler T) (cl cr : conn) (s : Config) (u : list Z).
Hypothesis Hquiet : ∀ c t st, hr _ (SetReadTimeout c t) st = (tt, st).

(** What the server's network answers for a destination: the address to dial,
    with the IP of a name. *)
Definition resolves (dst : AddrSpec) (t : T) : option (AddrSpec * T) :=
  if len (FQDN dst) =? 0 then Some (dst, t) else
  match hr _ (LookupIP "ip" (FQDN dst)) t with
  | (Ok ips, t) => (λ ip, (dst<|a_IP := ip|>, t)) <$> SelectIPFromList ips (DualStackPreference s)
  | _ => None
  end.
(** ... and for the connection to it, its relay and its end: the local address,
    and the state at the end. *)
Definition connects (dst : AddrSpec) (t : T) : option (inetAddr * T) :=
  '(dst, t) ← resolves dst t;
  match hr _ (Dial "tcp" (AddrSpec_String dst)) t with
  | (Ok target, t) =>
    match hr _ (LocalAddr target) t with
    | (TCPAddr (Some local), t) =>
      if target =? cr then None else
      let '(_, t) := hr _ (Relay (BidiCopy cr target)) t in
      let '(_, t) := hr _ (CloseConn target) t in Some (local, t)
    | _ => None
    end
  | _ => None
  end.

Lemma advance_handleConnect ps dst raw t q target t1 local t2 w :
  hr _ (Dial "tcp" (AddrSpec_String dst)) t = (Ok target, t1) → hr _ (LocalAddr target) t1 = (TCPAddr (Some local), t2) → target ≠ cr →
  WriteToSocks5 (mkAddrSpec [] (IP local) (Port local)) = Ok w →
  advance hr cr ps (handleConnect (mkRequest Socks5ConnectCmd dst raw) cr) t q false =
    let '(r, t) := hr _ (Relay (BidiCopy cr target)) t2 in
    let '(_, t) := hr _ (CloseConn target) t in (mkSide (Ret r) t q false, [Socks5Version; Socks5ReplySuccess; 0] ++ w).
Proof.
  intros Ed El Hne Hw. unfold handleConnect, call. cbn [mbind io_bind io_bind_ DstAddr advance]. rewrite Ed. cbn [io_bind_ deferred advance]. rewrite El.
  unfold WriteSocks5Response, Response_WriteToSocks5. cbn [BindAddr Reply]. rewrite Hw. cbn.
  rewrite Z.eqb_refl. cbn.  destruct (hr _ (Relay _) t2) as [r t3]. rewrite (proj2 (Z.eqb_neq _ _) Hne). cbn.
  cbn. destruct (hr _ (CloseConn target) t3) as [[] t4]. by rewrite app_nil_r.
Qed.

(** The server's part, from the request to the end of its relay. *)
Lemma server_connects ps dst raw t t1 q local t2 w :
  rd_bytes (Request_ReadFromSocks5 noRequest) raw = (Ok (mkRequest Socks5ConnectCmd dst raw), []) →
  hr _ (UserName cr) t = (u, t1) → allowed s u dst = true → List.find (matchEgressRule (a_IP dst) (FQDN dst)) (Rules (c_Egress (c_rules s))) = None →
  connects dst t1 = Some (local, t2) → WriteToSocks5 (mkAddrSpec [] (IP local) (Port local)) = Ok w →
  ∃ r, advance hr cr ps (serveRequest s (mkRequest Socks5ConnectCmd dst raw) cr) t q false =
    (mkSide (Ret r) t2 q false, [Socks5Version; Socks5ReplySuccess; 0] ++ w).
Proof.
  intros Hraw Hu Ha Hf Hc Hw. unfold serveRequest, call. cbn [mbind io_bind io_bind_ advance]. rewrite Hu.
  erewrite (FindAction_direct s u (mkInput _ _ _)) by done. 
  match goal with |- ∃ r, advance _ _ _ ?p _ _ _ = _ => change p with (wrapping "handleRequest() failed" (handleRequest s (mkRequest Socks5ConnectCmd dst raw) cr)) end.
  unfold wrapping. rewrite advance_bind.
  enough (∃ r, advance hr cr ps (handleRequest s (mkRequest Socks5ConnectCmd dst raw) cr) t1 q false =
    (mkSide (Ret r) t2 q false, [Socks5Version; Socks5ReplySuccess; 0] ++ w)) as (r & ->) by (eexists; cbn [advance]; by rewrite app_nil_r).
  assert (∃ dst' t1', resolves dst t1 = Some (dst', t1') ∧
    advance hr cr ps (handleRequest s (mkRequest Socks5ConnectCmd dst raw) cr) t1 q false =
    advance hr cr ps (handleConnect (mkRequest Socks5ConnectCmd dst' raw) cr) t1' q false) as (dst' & t1' & Hr & ->).
  { unfold connects in Hc. unfold handleRequest, resolves in *. cbn [DstAddr]. destruct (len (FQDN dst) =? 0); cbn [negb]; [by eexists _, _|].
    unfold call. cbn [mbind io_bind io_bind_ advance]. destruct (hr _ (LookupIP _ _) t1) as [[[|ip ips]|e|m] t1']; [done| |done|done].
    destruct (SelectIPFromList _ _) as [ip'|]; [|done]. by eexists _, _. }
  unfold connects in Hc. rewrite Hr in Hc. cbn [mbind option_bind] in Hc.
  destruct (hr _ (Dial _ _) t1') as [[target|?|?] t3] eqn:Ed; [|done|done].
  destruct (hr _ (LocalAddr target) t3) as [[[local'|]|?|?|?] t4] eqn:El; try done.
  destruct (Z.eqb_spec target cr) as [|Hne]; [done|].
  destruct (hr _ (Relay _) t4) as [r t5] eqn:Er. destruct (hr _ (CloseConn target) t5) as [[] t6] eqn:Ec. injection Hc as -> ->.
  exists r. rewrite (advance_handleConnect _ _ _ _ _ _ _ _ _ _ Ed El Hne Hw), Er. by rewrite Ec.
Qed.
Definition Serving (p : io (result unit)) : io (result unit) := deferred (call (CloseConn cr)) p.
Lemma server_request ps dst raw t t1 local t2 w :
  rd_bytes (Request_ReadFromSocks5 noRequest) raw = (Ok (mkRequest Socks5ConnectCmd dst raw), []) →
  hr _ (UserName cr) t = (u, t1) → allowed s u dst = true → List.find (matchEgressRule (a_IP dst) (FQDN dst)) (Rules (c_Egress (c_rules s))) = None →
  connects dst t1 = Some (local, t2) → WriteToSocks5 (mkAddrSpec [] (IP local) (Port local)) = Ok w →
  ∃ r, advance hr cr ps (Serving (serverReadRequest s cr)) t raw false =
    (mkSide (Ret r) t2 [] true, [Socks5Version; Socks5ReplySuccess; 0] ++ w).
Proof.
  intros Hraw Hu Ha Hf Hc Hw. destruct (server_connects ps dst raw t t1 [] local t2 w Hraw Hu Ha Hf Hc Hw) as (r & E). exists r.
  unfold Serving, deferred. rewrite advance_bind. unfold serverReadRequest, readRequest, deferred.
  erewrite advance_bind_ret; [|rewrite advance_bind, advance_timeout, Hquiet, (advance_rd _ _ _ _ _ _ _ _ Hraw); cbn; by rewrite Hquiet].
  cbv beta iota. rewrite E. cbn. rewrite Z.eqb_refl. cbn. by rewrite !app_nil_r.
Qed.
(** The client's part. *)
Definition Dialing (p : io (result (conn * option (conn * inetAddr)))) : io (result conn) :=
  let! (c, _) := orClose (call (CloseConn cl)) p in ok c.
Lemma dialing_waits {X} ps p st q (e : ioE X) k st' q' w :
  advance hl cl ps p st q false = (mkSide (Do e k) st' q' false, w) → advance hl cl ps (Dialing p) st q false = (mkSide (Dialing (Do e k)) st' q' false, w).
Proof. intros E. unfold Dialing, orClose, attempt. by rewrite advance_bind, advance_bind, E. Qed.
Lemma dialing_ok ps p st q x st' q' w :
  advance hl cl ps p st q false = (mkSide (Ret (Ok x)) st' q' false, w) → advance hl cl ps (Dialing p) st q false = (mkSide (Ret (Ok x.1)) st' q' false, w).
Proof. intros E. unfold Dialing, orClose, attempt. rewrite advance_bind, advance_bind, E. destruct x. cbn. by rewrite !app_nil_r. Qed.
Lemma attempt_lift {A B} m (a : A) (k : A → io (result B)) : attempt (wrapping m (lift (Ok a))) k = k a.
Proof. done. Qed.
Lemma write_request m a b (k : unit → io (result (conn * option (conn * inetAddr)))) :
  WriteToSocks5 a = Ok b →
  attempt (wrapping m (WriteSocks5Request cl Socks5ConnectCmd a)) k = attempt (wrapping m (write cl ([Socks5Version; Socks5ConnectCmd; 0] ++ b))) k.
Proof. intros Hb. unfold WriteSocks5Request, Request_WriteToSocks5. cbn [DstAddr Command]. by rewrite Hb. Qed.
Lemma client_request raddr a b st :
  AddrSpec_From raddr = Ok a → WriteToSocks5 a = Ok b →
  ∃ p, advance hl cl false (Dialing (clientRequest cl Socks5ConnectCmd raddr)) st [] false = (mkSide (Dialing p) st [] false, [Socks5Version; Socks5ConnectCmd; 0] ++ b) ∧
    ∀ ps l resp, rd_bytes (Response_ReadFromSocks5 noResponse) l = (Ok resp, []) → Reply resp = Socks5ReplySuccess →
      advance hl cl ps (Dialing p) st l false = (mkSide (Ret (Ok cl)) st [] false, []).
Proof.
  intros Ha Hb. eexists. split.
  - eapply dialing_waits.
    { unfold clientRequest. rewrite Ha, attempt_lift, (write_request _ _ _ _ Hb), advance_write.
         erewrite (advance_attempt_rd_nil hl cl _ (Response_ReadFromSocks5 noResponse) _ 3 _ st eq_refl) by lia. rewrite app_nil_r. reflexivity. }
  - intros ps l resp Hl Hr. cbv beta. match goal with |- advance _ _ _ (Dialing ?p) _ _ _ = _ =>
      assert (advance hl cl ps p st l false = (mkSide (Ret (Ok (cl, None))) st [] false, [])) as E end.
    { etrans; [exact (advance_attempt_rd hl cl ps _ _ _ st l resp [] Hl)|]. cbv beta. rewrite Hr. by cbn. }
    exact (dialing_ok _ _ _ _ _ _ _ _ E).
Qed.

(** Both begin with the negotiation. *)
Lemma connect_negotiates (d : ClientDialer) address st st1 t :
  UseProxy s = false → ClientSideAuthentication (AuthOpts s) = false → ProxyAddress d ≠ [] →
  hl _ (Dial "tcp" (ProxyAddress d)) st = (Ok cl, st1) → acceptable s (d_Credential d) = true →
  rtc (duplex hl cl hr cr) (mkSide (DialContext d "tcp" address) st [] false, mkSide (ServeConn s cr) t [] false)
    (mkSide (Dialing (clientRequest cl Socks5ConnectCmd address)) st1 [] false, mkSide (Serving (serverReadRequest s cr)) t [] false).
Proof.
  intros Hup Hca Hpa Hd Hacc. destruct (negotiation_good hl hr cl cr s Hquiet (d_Credential d) st1 t Hacc) as (x & y & [-> ->] & Hr).
  eapply rtc_l.
  - apply (StepLeft hl cl hr cr _ (mkSide (Dialing (attempt (clientNegotiateAuthentication cl (d_Credential d)) (λ _, clientRequest cl Socks5ConnectCmd address))) st1 [] false) _ []).
    unfold DialContext, dial. rewrite (proj2 (Z.eqb_neq (len (ProxyAddress d)) 0)) by (by rewrite len_zero).
    change (negb (bool_decide ("tcp"%string ∈ ["tcp"; "tcp4"; "tcp6"]%string))) with false. unfold sideStep. cbn. by rewrite Hd.
  - rewrite receive_nil. unfold ServeConn, serverServeConn. rewrite Hup, Hca.
    set (F := λ B (p : io (result B)) (r : result unit), match r with Ok _ => p | Err e => Ret (Err e) | Panic m => Ret (Panic m) end).
    set (G := λ r : result (conn * option (conn * inetAddr)), match r with Err e => call (CloseConn cl) >> fail e | r => Ret r end).
    apply (duplex_bind_left hl cl hr cr _ (mkSide (io_bind_ G _) st1 [] false) (mkSide (io_bind_ G _) st1 [] false)).
    apply (duplex_bind_left hl cl hr cr G (mkSide (io_bind_ (F _ (clientRequest cl Socks5ConnectCmd address)) (clientNegotiateAuthentication cl (d_Credential d))) st1 [] false) (mkSide (clientRequest cl Socks5ConnectCmd address) st1 [] false)).
    apply (duplex_bind_left hl cl hr cr (F _ (clientRequest cl Socks5ConnectCmd address)) (mkSide _ st1 [] false) (mkSide (Ret (Ok tt)) st1 [] false)).
    apply (duplex_bind_right hl cl hr cr _ _ _ (mkSide _ t [] false) (mkSide _ t [] false)).
    exact (duplex_bind_right hl cl hr cr (F _ (serverReadRequest s cr)) _ _ (mkSide _ t [] false) (mkSide (Ret (Ok tt)) t [] false) Hr).
Qed.
End connect.

(** C12. A dial through a server reaches its target, whatever the order in which
    the two ends run: if the client's credential is accepted, the server lets its
    user go to the address and its network connects to it, then every
    interleaving of [DialContext] and [ServeConn] is finite and ends with a
    connection for the client, no byte of the handshake left on it, and a server
    that dialed exactly the address that was asked for, with the IP of its name,
    relayed, and closed. *)
Theorem socks5_connect {S T : Type} (hl : handler S) (hr : handler T) (cl cr : conn) (s : Config) (u : list Z) (d : ClientDialer)
    (address : list Z) (a : AddrSpec) (local : inetAddr) (st st1 : S) (t t1 t2 : T) :
  (∀ c d t, hr _ (SetReadTimeout c d) t = (tt, t)) → UseProxy s = false → ClientSideAuthentication (AuthOpts s) = false →
  ProxyAddress d ≠ [] → hl _ (Dial "tcp" (ProxyAddress d)) st = (Ok cl, st1) → acceptable s (d_Credential d) = true →
  AddrSpec_From address = Ok a → addr_ok a → hr _ (UserName cr) t = (u, t1) → allowed s u (normalAddr a) = true →
  List.find (matchEgressRule (a_IP (normalAddr a)) (FQDN (normalAddr a))) (Rules (c_Egress (c_rules s))) = None →
  connects hr cr s (normalAddr a) t1 = Some (local, t2) → addr_ok (mkAddrSpec [] (IP local) (Port local)) →
  ∃ r n, ∀ m x, nsteps (duplex hl cl hr cr) m (mkSide (DialContext d "tcp" address) st [] false, mkSide (ServeConn s cr) t [] false) x →
    (m <= n)%nat ∧ rtc (duplex hl cl hr cr) x (mkSide (Ret (Ok cl)) st1 [] false, mkSide (Ret r) t2 [] true).
Proof.
  intros Hq Hup Hca Hpa Hd Hacc Ha Hok Hu Hal Hf Hc Hlo.
  destruct (addr_ok_write _ Hok) as (b & Hb), (addr_ok_write _ Hlo) as (w & Hw).
  destruct (client_request hl cl address a b st1 Ha Hb) as (p & E1 & E3).
  pose proof (readRequest_written Socks5ConnectCmd a b [] Hok Hb) as Hraw. rewrite app_nil_r in Hraw.
  destruct (server_request hr cr s u Hq false _ _ t t1 local t2 w Hraw Hu Hal Hf Hc Hw) as (r & E2). exists r.
  enough (ends hl cl hr cr (λ x y, x = mkSide (Ret (Ok cl)) st1 [] false ∧ y = mkSide (Ret r) t2 [] true)
            (mkSide (DialContext d "tcp" address) st [] false) (mkSide (ServeConn s cr) t [] false)) as Hends.
  { apply ends_all in Hends as (x & y & n & [-> ->] & Hn); [by exists n|]. intros x y [-> ->]. apply ret_stuck. }
  apply (ends_prefix hl cl hr cr _ _ _ _ _ (connect_negotiates hl hr cl cr s Hq d address st st1 t Hup Hca Hpa Hd Hacc)).
  eapply ends_left; [exact E1|]. apply ends_receive. eapply ends_right; [exact E2|]. apply ends_receive_left.
  pose proof (readResponse_written Socks5ReplySuccess _ w [] Hlo Hw) as Hresp. rewrite app_nil_r in Hresp.
  eapply ends_left; [exact (E3 _ _ _ Hresp eq_refl)|]. rewrite receive_nil. by apply ends_here.
Qed.

(** ** Witnesses *)

(** A network where nothing answers, and user [u] at the other end. *)
Definition idle (u : list Z) : handler unit := λ X e st,
  (match e in ioE X return X with
   | ReadFull _ _ => Err EOF
   | Write _ _ => None
   | CloseConn _ => tt
   | SetReadTimeout _ _ => tt
   | Dial _ _ => Err ErrTimeout
   | ListenUDP _ => Err ErrTimeout
   | LocalAddr _ => TCPAddr None
   | RemoteAddr _ => TCPAddr None
   | LookupIP _ _ => Err ErrTimeout
   | Intn _ => 0
   | UserName _ => u
   | ProxyDial => Err ErrTimeout
   | Relay _ => Ok tt
   end, st).
Lemma idle_obeys u : obeys (answers u) (idle u).
Proof. intros X e st. destruct e; cbn; try done; lia. Qed.
(** A server with one registered credential and no user. *)
Definition smallServer : Config :=
  mkConfig false (mkAuth false [mkCredential [117] [112]] None) 0 false 0 (mkRules ∅ (mkEgress [] []) false) 0 false.
Definition loopbackRequest : Request :=
  mkRequest Socks5ConnectCmd (mkAddrSpec [] [127; 0; 0; 1] 80) [5; 1; 0; 1; 127; 0; 0; 1; 0; 80].

Lemma authentication_spec_witness :
  wins (idle []) 7 (handleAuthentication smallServer 7) tt [5; 1; 2; 1; 1; 117; 1; 112] ∧
  ¬ wins (idle []) 7 (handleAuthentication smallServer 7) tt [5; 1; 2; 1; 1; 117; 1; 113].
Proof.
  split.
  - apply (authentication_spec (idle []) 7 (λ _ _ _, eq_refl) smallServer tt [5; 1; 2; 1; 1; 117; 1; 112]).
    + repeat constructor; lia.
    + exists [2], [1; 1; 117; 1; 112]. split; [done|]. split; [done|]. right. split; [by left|]. split; [done|].
      exists [117], [112], []. split; [by left|done].
  - intros (a & E). by vm_compute in E.
Defined.
(** A network where connection 7 has these bytes to read, every name one address,
    and every dial succeeds. *)
Definition scripted (u : list Z) : handler (list Z) := λ X e q,
  match e in ioE X return X * list Z with
  | ReadFull _ n => if (0 <=? n) && (n <=? len q) then (Ok (slice_to n q), slice_from n q) else (Err EOF, [])
  | Dial _ _ => (Ok 9, q)
  | LocalAddr _ => (TCPAddr (Some (mkAddr [10; 0; 0; 1] 50000 [])), q)
  | LookupIP _ _ => (Ok [[93; 184; 215; 14]], q)
  | e => let '(x, _) := idle u _ e tt in (x, q)
  end.
Lemma scripted_obeys u : obeys (answers u) (scripted u).
Proof.
  intros X e q. destruct e; cbn; try done. destruct (_ && _) eqn:E; cbn; [|done]. apply andb_true_iff in E as [E1 E2].
  bool_to_prop. apply len_slice_to. lia.
Qed.
Definition example_session : list Z :=
  [5; 1; 2] ++ [1; 1; 117; 1; 112] ++ [5; 1; 0; 3; 11] ++ bytes_of_string "example.com" ++ [0; 80].
Definition example_trace : list answered := trace (scripted [117]) (ServeConn smallServer 7) example_session.
(** The client authenticates and asks for example.com; the name is resolved, and
    its address is dialed. *)
Lemma dials_are_allowed_witness :
  example_trace = take 21 example_trace ++ [Answered (Dial "tcp" (bytes_of_string "93.184.215.14:80")) (Ok 9)] ++ drop 22 example_trace ∧
  dial_allowed smallServer [117] 7 (take 21 example_trace) _ (Dial "tcp" (bytes_of_string "93.184.215.14:80")).
Proof.
  assert (example_trace = take 21 example_trace ++ [Answered (Dial "tcp" (bytes_of_string "93.184.215.14:80")) (Ok 9)] ++ drop 22 example_trace) as E
    by (vm_compute; reflexivity).
  split; [exact E|].
  exact (dials_are_allowed (scripted [117]) smallServer [117] 7 example_session (take 21 example_trace) (drop 22 example_trace)
    (Answered (Dial "tcp" (bytes_of_string "93.184.215.14:80")) (Ok 9)) eq_refl (scripted_obeys [117]) E).
Defined.
Lemma forbidden_request_rejected_witness :
  let '(r, _, log) := run (idle [117]) (serveRequest smallServer loopbackRequest 7) tt in
  is_Err r ∧ Forall (λ x, match x with Called e => match e with UserName _ => True | Write c' b => c' = 7 ∧ byte_at 1 b = Socks5ReplyNotAllowedByRuleSet | _ => False end end) log.
Proof.
  apply (forbidden_request_rejected (idle [117]) smallServer [117] (Raw loopbackRequest) [] loopbackRequest 7 tt);
    [by vm_compute|by left|by vm_compute|apply idle_obeys].
Defined.
Lemma negotiation_agrees_witness :
  let cred := Some (mkCredential [117] [112]) in
  acceptable smallServer cred = true ∧
  ∃ x y n, agreed (S := unit) (T := unit) tt tt x y ∧
  ∀ m u, nsteps (duplex (idle []) 1 (idle []) 2) m
           (mkSide (orClose (call (CloseConn 1)) (clientNegotiateAuthentication 1 cred)) tt [] false,
            mkSide (orClose (call (CloseConn 2)) (handleAuthentication smallServer 2)) tt [] false) u →
         (m <= n)%nat ∧ rtc (duplex (idle []) 1 (idle []) 2) u (x, y).
Proof. split; [by vm_compute|]. exact (negotiation_agrees (idle []) (idle []) 1 2 smallServer (Some (mkCredential [117] [112])) tt tt (λ _ _ _, eq_refl)). Defined.

(** A network where every dial succeeds, and every name has one address. *)
Definition reachable (c : conn) : handler unit := λ X e st,
  (match e in ioE X return X → X with
   | Dial _ _ => λ _, Ok c
   | LocalAddr _ => λ _, TCPAddr (Some (mkAddr [10; 0; 0; 1] 50000 []))
   | LookupIP _ _ => λ _, Ok [[93; 184; 215; 14]]
   | _ => λ x, x
   end (idle [117] X e st).1, st).
Lemma socks5_connect_witness :
  let d := mkClientDialer [112] (Some (mkCredential [117] [112])) false in
  let address := bytes_of_string "example.com:443" in
  ∃ r n, ∀ m x, nsteps (duplex (reachable 1) 1 (reachable 9) 2) m (mkSide (DialContext d "tcp" address) tt [] false, mkSide (ServeConn smallServer 2) tt [] false) x →
    (m <= n)%nat ∧ rtc (duplex (reachable 1) 1 (reachable 9) 2) x (mkSide (Ret (Ok 1)) tt [] false, mkSide (Ret r) tt [] true).
Proof.
  refine (socks5_connect (reachable 1) (reachable 9) 1 2 smallServer [117] (mkClientDialer [112] (Some (mkCredential [117] [112])) false)
    (bytes_of_string "example.com:443") (mkAddrSpec (bytes_of_string "example.com") [] 443) (mkAddr [10; 0; 0; 1] 50000 []) tt tt tt tt tt
    (λ _ _ _, eq_refl) eq_refl eq_refl _ eq_refl _ _ _ eq_refl _ _ _ _);
    [done|by vm_compute|by vm_compute| |by vm_compute|by vm_compute|by vm_compute|].
  - split; cbn; [constructor|split; [by repeat constructor|done]|by right|done].
  - split; cbn; [by repeat constructor|by split; [constructor|]|left; by eexists|done].
Defined.
