(* ===== verification/UDPRelay.v ===== *)
(** * pkg/socks5/udp.go and copy.go: the datagrams of an association; and
    apis/common/dns.go

    A SOCKS5 datagram is a header with an address, and a payload.  The server
    relays the datagrams of an association in one of two ways: for a client
    whose datagrams come through a tunnel ([RunUDPAssociateLoop]: two
    goroutines, here a step relation over their program points and the shared
    map of headers), or for one that sends them to a socket of the server
    ([runUDPAssociateDatagramLoop]: one loop, here a function from what is
    received).  The proxy client runs [BidiCopyUDP] and, for its own datagrams,
    [clientPacketConn].  What the network answers is in the labels of the steps
    and the arguments of the functions; metrics and logs are left out.

    Theorems: datagrams are read back from what is written; a header always fits
    the space that is kept for it; what the relays send is what they received, at
    most once and in order, to where it was sent or from where it came; only the
    client's endpoint and targets that it named are heard; a relay that ends has
    an error to return, and panics only after an error of the socket. *)
From S2P Require Import Prelude GoStd GoNet GoIP Effects Socks SocksServer.

(** ** apis/common/dns.go *)

Definition NormalizeDomainName (host : list Z) : list Z := TrimSuffix (ToLower host) (bytes_of_string ".").
(** A resolver: [LookupIP(network, host)]. *)
Definition DNSResolver : Type := string → list Z → result (list (list Z)).
Definition HostMapResolver_LookupIP (resolver : option DNSResolver) (hosts : gmap (list Z) (list Z)) : DNSResolver := λ network host,
  match hosts !! NormalizeDomainName host with
  | Some ip =>
    if bool_decide (network ∈ [""; "ip"]%string) then Ok [ip] else
    if bool_decide (network = "ip4"%string) then Ok (match To4 ip with Some ipv4 => [ipv4] | None => [] end) else
    if bool_decide (network = "ip6"%string) then Ok (match To4 ip with Some _ => [] | None => [default [] (To16 ip)] end) else
    Err (Errorf "unknown network")
  | None => match resolver with None => Err (Errorf "look up IP address is not supported") | Some r => r network host end
  end.
(** The networks are ["udp"], ["udp4"], ["udp6"] or empty, and the same with
    ["tcp"]; the two functions differ in nothing else. *)
Definition dnsQueryNetwork (proto network : string) : option string :=
  if bool_decide (network = proto ∨ network = ""%string) then Some "ip"%string else
  if bool_decide (network = proto +:+ "4") then Some "ip4"%string else
  if bool_decide (network = proto +:+ "6") then Some "ip6"%string else None.
Definition ResolveAddr (proto : string) (r : DNSResolver) (network : string) (address : list Z) : result inetAddr :=
  match dnsQueryNetwork proto network with
  | None => Err (Errorf "unknown network")
  | Some query =>
    '(host, portStr) ← SplitHostPort address;
    port ← Atoi portStr;
    if len host =? 0 then Ok (mkAddr [] port []) else
    match ParseAddr host with
    | Some (ip, zone) => Ok (mkAddr ip port zone)
    | None =>
      ips ← r query host;
      match ips with [] => Err (Errorf "IP address not found") | ip :: _ => Ok (mkAddr ip port []) end
    end
  end.
Definition ResolveTCPAddr : DNSResolver → string → list Z → result inetAddr := ResolveAddr "tcp".
Definition ResolveUDPAddr : DNSResolver → string → list Z → result inetAddr := ResolveAddr "udp".

(** ** Datagrams *)

Definition ErrNoEnoughData : error := Errorf "NO ENOUGH DATA".
Record socks5UDPDatagram := mkDatagram { dg_Addr : AddrSpec; dg_Header : list Z; dg_Payload : list Z }.
Definition parseSocks5UDPDatagram (pkt : list Z) : result socks5UDPDatagram :=
  if len pkt <=? 6 then Err ErrNoEnoughData else
  if negb (byte_at 0 pkt =? 0) || negb (byte_at 1 pkt =? 0) then Err ErrInvalidArgument else
  if negb (byte_at 2 pkt =? 0) then Err ErrUnsupported else
  match rd_bytes (ReadFromSocks5 noAddr) (slice_from 3 pkt) with
  | (Err e, _) => Err (if bool_decide (e = EOF ∨ e = ErrUnexpectedEOF) then ErrNoEnoughData else e)
  | (Panic m, _) => Panic m
  | (Ok dst, r) =>
    let headerLen := len pkt - len r in
    if len pkt <? headerLen then Err ErrNoEnoughData else
    Ok (mkDatagram dst (slice_to headerLen pkt) (slice_from headerLen pkt))
  end.
Definition newSocks5UDPDatagram (addr : AddrSpec) (payload : list Z) : result (list Z) :=
  b ← WriteToSocks5 addr; Ok ([0; 0; 0] ++ b ++ payload).
Definition resolveSocks5UDPAddr (r : DNSResolver) (addr : AddrSpec) : result inetAddr :=
  if bool_decide (is_Some (To4 (a_IP addr)) ∨ is_Some (To16 (a_IP addr))) then Ok (mkAddr (a_IP addr) (a_Port addr) []) else
  if negb (len (FQDN addr) =? 0) then ResolveUDPAddr r "udp" (AddrSpec_String addr) else Err ErrUnrecognizedAddrType.
Definition parseUDPAssociateDatagram (pkt : list Z) (r : DNSResolver) : result (inetAddr * list Z) :=
  datagram ← parseSocks5UDPDatagram pkt;
  dstAddr ← resolveSocks5UDPAddr r (dg_Addr datagram);
  Ok (dstAddr, dg_Payload datagram).
Definition udpAddrSpec (addr : inetAddr) : AddrSpec := mkAddrSpec [] (IP addr) (Port addr).
Definition udpAddrToHeader (addr : option inetAddr) : result (list Z) :=
  match addr with
  | None => Panic "the UDP address is nil"
  | Some addr =>
    match newSocks5UDPDatagram (udpAddrSpec addr) [] with
    | Err e => Panic "newSocks5UDPDatagram"
    | r => r
    end
  end.
(** A destination: a [NetAddrSpec], or the [String] and [Network] of another
    [net.Addr]; [NetAddrSpec.From] of it. *)
Inductive destination := SpecAddr (n : NetAddrSpec) | TextAddr (addr : list Z) (network : string).
Definition netAddrSpec (d : destination) : result NetAddrSpec :=
  match d with SpecAddr n => Ok n | TextAddr addr network => NetAddrSpec_From addr network end.
Definition wrapSocks5UDPPacket (addr : destination) (payload : list Z) : result (list Z) :=
  netAddr ← netAddrSpec addr; newSocks5UDPDatagram (n_AddrSpec netAddr) payload.
Definition unwrapSocks5UDPPacket (pkt : list Z) : result (list Z) :=
  datagram ← parseSocks5UDPDatagram pkt; Ok (dg_Payload datagram).
Definition sameUDPAddr (a b : option inetAddr) : bool :=
  match a, b with
  | Some a, Some b => (Port a =? Port b) && IP_Equal (IP a) (IP b)
  | None, None => true
  | _, _ => false
  end.

(** [TransceiveUDPPacket]: what it sends, and what it makes of an answer of [n]
    bytes in a buffer. *)
Definition transceiveRequest (dstAddr : inetAddr) (payload : list Z) : list Z :=
  let port := [u8 (Z.shiftr (Port dstAddr) 8); u8 (Port dstAddr)] in
  match To4 (IP dstAddr) with
  | Some ip4 => [0; 0; 0; Socks5IPv4Address] ++ ip4 ++ port ++ payload
  | None => [0; 0; 0; Socks5IPv6Address] ++ default [] (To16 (IP dstAddr)) ++ port ++ payload
  end.
Definition transceiveResponse (proxyAddr readAddr : inetAddr) (resp : list Z) : result (list Z) :=
  let n := len resp in
  if negb (Port readAddr =? Port proxyAddr) then Err (Errorf "unexpected read from a different address") else
  if n <? 4 then Err (Errorf "UDP associate response is too short") else
  if byte_at 3 resp =? Socks5IPv4Address then
    if n <=? 10 then Err (Errorf "UDP associate response is too short for IPv4 address") else Ok (slice_from 10 resp)
  else if byte_at 3 resp =? Socks5IPv6Address then
    if n <=? 22 then Err (Errorf "UDP associate response is too short for IPv6 address") else Ok (slice_from 22 resp)
  else if byte_at 3 resp =? Socks5FQDNAddress then
    if n <? 5 then Err (Errorf "UDP associate response is too short for FQDN address") else
    let headerLen := 7 + byte_at 4 resp in
    if n <=? headerLen then Err (Errorf "UDP associate response is too short for FQDN address") else Ok (slice_from headerLen resp)
  else Err (Errorf "UDP associate unsupported address type").

(** ** dialer.go: [clientPacketConn] *)

(** [ReadFrom] into a buffer of [size] bytes: the answers of the socket, and
    those that are left. *)
Fixpoint ReadFrom (c : clientPacketConn) (size : Z) (l : list (result (list Z * inetAddr))) : option (result (list Z * NetAddrSpec) * list (result (list Z * inetAddr))) :=
  match l with
  | [] => None
  | Err e :: l => Some (Err e, l)
  | Panic m :: l => Some (Panic m, l)
  | Ok (pkt, addr) :: l =>
    if negb (sameUDPAddr (Some addr) (Some (serverListenAddr c))) then ReadFrom c size l else
    match unwrapSocks5UDPPacket pkt with
    | Ok payload => Some (Ok (slice_to size payload, remoteAddr c), l)
    | Err e => Some (Err e, l)
    | Panic m => Some (Panic m, l)
    end
  end.
(** [WriteTo]: the datagram for the server's UDP address. *)
Definition WriteTo (c : clientPacketConn) (p : list Z) (addr : option destination) : result (list Z * inetAddr) :=
  pkt ← wrapSocks5UDPPacket (default (SpecAddr (remoteAddr c)) addr) p; Ok (pkt, serverListenAddr c).

(** ** The relay for a client's datagrams: [runUDPAssociateDatagramLoop] *)

(** A datagram that the socket received, with the resolver's answers and what
    becomes of the write that follows. *)
Record received := mkReceived { rc_pkt : list Z; rc_addr : inetAddr; rc_resolver : DNSResolver; rc_write : option error }.
Record datagramState := mkDatagramState { clientAddr : option inetAddr; targetAddrs : gset (list Z) }.
#[export] Instance datagramState_eta : Settable datagramState := λ s, mkDatagramState (clientAddr s) (targetAddrs s).
(** One round of the loop: the new state, and the write. *)
Definition datagramStep (s : datagramState) (x : received) : result (datagramState * option (list Z * inetAddr)) :=
  if bool_decide (clientAddr s = None) || sameUDPAddr (Some (rc_addr x)) (clientAddr s) then
    match parseUDPAssociateDatagram (rc_pkt x) (rc_resolver x) with
    | Panic m => Panic m
    | Err _ => Ok (s, None)
    | Ok (dstAddr, payload) =>
      let s := s<|clientAddr := Some (default (rc_addr x) (clientAddr s))|> in
      Ok (if bool_decide (rc_write x = None) then s<|targetAddrs := {[inet_String dstAddr]} ∪ targetAddrs s|> else s, Some (payload, dstAddr))
    end
  else if bool_decide (inet_String (rc_addr x) ∉ targetAddrs s) then Ok (s, None)
  else
    header ← udpAddrToHeader (Some (rc_addr x));
    Ok (s, (λ client, (header ++ rc_pkt x, client)) <$> clientAddr s).
(** The loop, until the socket fails: the writes in order. *)
Fixpoint datagramLoop (s : datagramState) (l : list received) : result (datagramState * list (list Z * inetAddr)) :=
  match l with
  | [] => Ok (s, [])
  | x :: l =>
    '(s, w) ← datagramStep s x;
    '(s, ws) ← datagramLoop s l;
    Ok (s, match w with Some w => w :: ws | None => ws end)
  end.
Definition noClient : datagramState := mkDatagramState None ∅.
(** What the function returns when [ReadFromUDP] fails. *)
Definition datagramEnd (isEOF isClosed : bool) (e : error) : result unit :=
  if negb isEOF && negb isClosed then Err (Wrapf "UDP datagram relay ReadFromUDP() failed" e) else Ok tt.

(** ** The relay behind a tunnel: [RunUDPAssociateLoop] *)

(** Errors with their dynamic type, as far as [atomic.Value] sees it: those of
    packages errors and fmt without [%w], those of a socket, others. *)
Inductive dynType := errorString | opError | otherError.
#[global] Instance dynType_eq_dec : EqDecision dynType.
Proof. solve_decision. Defined.
Record dynErr := mkDyn { de_type : dynType; de_err : error }.
(** [atomic.Value.Store] panics if the dynamic types differ. *)
Definition Store (v : option dynErr) (d : dynErr) : result (option dynErr) :=
  match v with
  | Some d' => if bool_decide (de_type d' = de_type d) then Ok (Some d) else Panic "sync/atomic: store of inconsistently typed value into Value"
  | None => Ok (Some d)
  end.

(** The program points of the two goroutines. *)
Inductive uploader :=
| UpRead
| UpStore (dst : inetAddr) (header payload : list Z)
| UpSend (dst : inetAddr) (payload : list Z)
| UpError (d : dynErr)
| UpClose
| UpDone.
Inductive downloader :=
| DownRead
| DownLoad (payload : list Z) (addr : inetAddr)
| DownStore (payload : list Z) (addr : inetAddr) (header : list Z)
| DownWrite (payload : list Z) (addr : inetAddr) (header : list Z)
| DownError (d : dynErr)
| DownErrorStore (d : dynErr)
| DownDone.
Record association := mkAssociation {
  up : uploader;
  down : downloader;
  addrMap : gmap (list Z) (list Z);
  udpOpen : bool;
  udpErr : option dynErr;
  panicked : bool
}.
#[export] Instance association_eta : Settable association := λ s, mkAssociation (up s) (down s) (addrMap s) (udpOpen s) (udpErr s) (panicked s).
Definition newAssociation : association := mkAssociation UpRead DownRead ∅ true None false.

(** What a step exchanges with the network: a packet of the tunnel and where its
    payload goes, a datagram to or from the socket, a packet to the tunnel (with
    the address it came from), an error of the tunnel or of the socket. *)
Inductive event :=
| FromTunnel (pkt : list Z) (dst : option (inetAddr * socks5UDPDatagram))
| ToSocket (payload : list Z) (dst : inetAddr)
| FromSocket (payload : list Z) (addr : inetAddr)
| ToTunnel (pkt : list Z)
| TunnelError (d : dynErr)
| SocketError (d : dynErr) (open : bool)
| Internal.

Inductive upStep (s : association) : event → association → Prop :=
| up_read_error d : up s = UpRead → upStep s (TunnelError d) (s<|up := UpError d|>)
| up_read pkt r dg dst :
    up s = UpRead → bytes_ok pkt → parseSocks5UDPDatagram pkt = Ok dg → resolveSocks5UDPAddr r (dg_Addr dg) = Ok dst →
    upStep s (FromTunnel pkt (Some (dst, dg))) (s<|up := UpStore dst (dg_Header dg) (dg_Payload dg)|>)
| up_read_unresolved pkt r dg e :
    up s = UpRead → parseSocks5UDPDatagram pkt = Ok dg → resolveSocks5UDPAddr r (dg_Addr dg) = Err e →
    upStep s (FromTunnel pkt None) s
| up_read_malformed pkt e :
    up s = UpRead → parseSocks5UDPDatagram pkt = Err e → upStep s (FromTunnel pkt None) (s<|up := UpError (mkDyn errorString e)|>)
| up_store dst header payload :
    up s = UpStore dst header payload →
    upStep s Internal (s<|addrMap := <[inet_String dst := header]> (addrMap s)|><|up := UpSend dst payload|>)
| up_send dst payload : up s = UpSend dst payload → upStep s (ToSocket payload dst) (s<|up := UpRead|>)
| up_error d v : up s = UpError d → Store (udpErr s) d = Ok v → upStep s Internal (s<|udpErr := v|><|up := UpClose|>)
| up_error_panics d m : up s = UpError d → Store (udpErr s) d = Panic m → upStep s Internal (s<|panicked := true|>)
| up_close : up s = UpClose → upStep s Internal (s<|udpOpen := false|><|up := UpDone|>).

Inductive downStep (s : association) : event → association → Prop :=
| down_read payload addr :
    down s = DownRead → udpOpen s = true → is_Some (To16 (IP addr)) → downStep s (FromSocket payload addr) (s<|down := DownLoad payload addr|>)
| down_read_error d : down s = DownRead → downStep s (SocketError d (udpOpen s)) (s<|down := DownError d|>)
| down_load_hit payload addr header :
    down s = DownLoad payload addr → addrMap s !! inet_String addr = Some header → downStep s Internal (s<|down := DownWrite payload addr header|>)
| down_load_miss payload addr header :
    down s = DownLoad payload addr → addrMap s !! inet_String addr = None → udpAddrToHeader (Some addr) = Ok header →
    downStep s Internal (s<|down := DownStore payload addr header|>)
| down_header_panics payload addr m :
    down s = DownLoad payload addr → addrMap s !! inet_String addr = None → udpAddrToHeader (Some addr) = Panic m →
    downStep s Internal (s<|panicked := true|>)
| down_store payload addr header :
    down s = DownStore payload addr header →
    downStep s Internal (s<|addrMap := <[inet_String addr := header]> (addrMap s)|><|down := DownWrite payload addr header|>)
| down_slice_panics payload addr header :
    down s = DownWrite payload addr header → Socks5MaxUDPHeaderLen < len header → downStep s Internal (s<|panicked := true|>)
| down_write payload addr header w :
    down s = DownWrite payload addr header → len header <= Socks5MaxUDPHeaderLen → tunnelFrame (header ++ payload) = Ok w →
    downStep s (ToTunnel (header ++ payload)) (s<|down := DownRead|>)
| down_write_refused payload addr header e :
    down s = DownWrite payload addr header → len header <= Socks5MaxUDPHeaderLen → tunnelFrame (header ++ payload) = Err e →
    downStep s Internal (s<|down := DownError (mkDyn errorString e)|>)
| down_write_error payload addr header d :
    down s = DownWrite payload addr header → len header <= Socks5MaxUDPHeaderLen → downStep s (TunnelError d) (s<|down := DownError d|>)
| down_error_first d : down s = DownError d → udpErr s = None → downStep s Internal (s<|down := DownErrorStore d|>)
| down_error_later d e : down s = DownError d → udpErr s = Some e → downStep s Internal (s<|down := DownDone|>)
| down_error_store d v : down s = DownErrorStore d → Store (udpErr s) d = Ok v → downStep s Internal (s<|udpErr := v|><|down := DownDone|>)
| down_error_panics d m : down s = DownErrorStore d → Store (udpErr s) d = Panic m → downStep s Internal (s<|panicked := true|>).

(** The goroutines take turns, until one panics. *)
Inductive associationStep (s : association) (e : event) (s' : association) : Prop :=
| step_up : panicked s = false → upStep s e s' → associationStep s e s'
| step_down : panicked s = false → downStep s e s' → associationStep s e s'.
(** The events so far, the latest one first. *)
Inductive associated : list event → association → Prop :=
| associated_start : associated [] newAssociation
| associated_step tr s e s' : associated tr s → associationStep s e s' → associated (e :: tr) s'.
(** [RunUDPAssociateLoop] returns when both are done. *)
Definition associationResult (s : association) : option (result unit) :=
  match up s, down s with
  | UpDone, DownDone => Some (match udpErr s with Some d => Err (de_err d) | None => Panic "interface conversion" end)
  | _, _ => None
  end.

(** ** Lemmas on datagrams *)

Lemma addr_len a b : addr_ok a → WriteToSocks5 a = Ok b → 5 <= len b <= 259.
Proof.
  intros [Hip [Hf1 Hf2] Hs Hp] E. unfold WriteToSocks5 in E.
  destruct (To4 (a_IP a)) as [ip4|] eqn:E4; [|destruct (To16 (a_IP a)) as [ip|] eqn:E6].
  - cbn in E. injection E as <-. apply To4_len in E4. rewrite len_cons, len_app, E4. done.
  - cbn in E. injection E as <-. destruct (To4_none_To16 _ _ E4 E6) as [Hl _]. rewrite len_cons, len_app, Hl. done.
  - destruct Hs as [[? ?]|[_ Hn]]; [done|]. destruct (Z.eqb_spec (len (FQDN a)) 0) as [H0|]; [by apply len_zero in H0|].
    cbn in E. injection E as <-. rewrite !len_cons, len_app. pose proof (len_nonneg (FQDN a)). change (len [_; _]) with 2. lia.
Qed.
(** Reading an address takes at most as many bytes as the longest name needs. *)
Lemma read_addr_len l a r : bytes_ok l → rd_bytes (ReadFromSocks5 noAddr) l = (Ok a, r) → ∃ w, l = w ++ r ∧ len w <= 259.
Proof.
  intros Hl E. unfold ReadFromSocks5 in E. rewrite rd_bind_eq, rd_bytes_bind in E.
  destruct (rd_bytes (rread 1) l) as [[t|e|m] r1] eqn:E1; [|done|done]. apply rread_inv in E1 as [-> Ht]; [|done].
  apply bytes_ok_app in Hl as [_ Hl]. unfold readAddr in E. rewrite rd_bind_eq, rd_bytes_bind in E.
  destruct (rd_bytes _ r1) as [[a1|e|m] r2] eqn:E2; [|done|done].
  assert (∃ w, r1 = w ++ r2 ∧ len w <= 256) as (w & -> & Hw).
  { repeat case_match.
    - rewrite rd_bind_eq, rd_bytes_bind in E2. destruct (rd_bytes (rread 4) r1) as [[v|e|m] r3] eqn:E3; [|done|done].
      apply rread_inv in E3 as [-> Hv]; [|done]. injection E2 as _ <-. exists v. split; [done|lia].
    - rewrite rd_bind_eq, rd_bytes_bind in E2. destruct (rd_bytes (rread 16) r1) as [[v|e|m] r3] eqn:E3; [|done|done].
      apply rread_inv in E3 as [-> Hv]; [|done]. injection E2 as _ <-. exists v. split; [done|lia].
    - rewrite rd_bind_eq, rd_bytes_bind in E2. destruct (rd_bytes (rread 1) r1) as [[v|e|m] r3] eqn:E3; [|done|done].
      apply rread_inv in E3 as [-> Hv]; [|done]. apply bytes_ok_app in Hl as [Hv' Hl].
      assert (0 <= byte_at 0 v <= 255) as Hb.
      { destruct v as [|x v]; [done|]. apply Forall_cons in Hv' as [[? ?] _]. change (2 ^ 8) with 256 in *. unfold byte_at. cbn. lia. }
      rewrite rd_bind_eq, rd_bytes_bind in E2. destruct (rd_bytes (rread _) r3) as [[v2|e|m] r4] eqn:E4; [|done|done].
      apply rread_inv in E4 as [-> Hv2]; [|lia]. injection E2 as _ <-. exists (v ++ v2). rewrite <-app_assoc, len_app. split; [done|lia].
    - done. }
  rewrite rd_bind_eq, rd_bytes_bind in E. destruct (rd_bytes (rread 2) r2) as [[v|e|m] r3] eqn:E3; [|done|done].
  apply rread_inv in E3 as [-> Hv]; [|done]. injection E as _ <-. exists (t ++ w ++ v). rewrite <-!app_assoc, !len_app. split; [done|lia].
Qed.

Lemma parse_written a payload w :
  addr_ok a → newSocks5UDPDatagram a payload = Ok w →
  ∃ header, w = header ++ payload ∧ len header <= Socks5MaxUDPHeaderLen ∧ parseSocks5UDPDatagram w = Ok (mkDatagram (normalAddr a) header payload).
Proof.
  intros Ha E. unfold newSocks5UDPDatagram in E. destruct (WriteToSocks5 a) as [b|e|m] eqn:Eb; [|done|done].
  cbn in E. injection E as <-. destruct (addr_len a b Ha Eb). exists ([0; 0; 0] ++ b). split; [done|].
  change (0 :: 0 :: 0 :: b ++ payload) with ([0; 0; 0] ++ b ++ payload).
  split; [rewrite len_app; change (len [0; 0; 0]) with 3; unfold Socks5MaxUDPHeaderLen; lia|].
  unfold parseSocks5UDPDatagram. pose proof (len_nonneg payload).
  assert (len ([0; 0; 0] ++ b ++ payload) = 3 + len b + len payload) as El by (rewrite !len_app; change (len [0; 0; 0]) with 3; lia).
  rewrite (proj2 (Z.leb_gt _ _)) by lia. change (negb _ || negb _) with false. change (negb _) with false. cbv iota.
  change (slice_from 3 _) with (b ++ payload). rewrite (ReadFromSocks5_written a b payload Ha Eb).
  rewrite (proj2 (Z.ltb_ge _ _)) by lia. rewrite El, (app_assoc _ b payload).
  rewrite slice_to_app, slice_from_app by (rewrite len_app; change (len [0; 0; 0]) with 3; lia). done.
Qed.
Lemma parse_inv pkt dg :
  bytes_ok pkt → parseSocks5UDPDatagram pkt = Ok dg → pkt = dg_Header dg ++ dg_Payload dg ∧ len (dg_Header dg) <= Socks5MaxUDPHeaderLen.
Proof.
  intros Hb E. unfold parseSocks5UDPDatagram in E. destruct (Z.leb_spec (len pkt) 6) as [|Hl]; [done|]. repeat case_match; try done.
  injection E as <-. cbn [dg_Header dg_Payload]. rewrite slice_to_from. split; [done|]. bool_to_prop.
  match goal with H : rd_bytes _ _ = _ |- _ => apply read_addr_len in H as (w & Ew & Hw); [|by apply slice_from_bytes] end.
  match goal with H : slice_from 3 pkt = w ++ ?r |- _ => assert (len pkt = 3 + len w + len r) as El end.
  { rewrite <-(slice_to_from 3 pkt) at 1. rewrite len_app, Ew, len_app, len_slice_to by lia. lia. }
  unfold slice_to. rewrite len_take. unfold Socks5MaxUDPHeaderLen. pose proof (len_nonneg w). lia.
Qed.
Lemma header_written addr h : udpAddrToHeader (Some addr) = Ok h → newSocks5UDPDatagram (udpAddrSpec addr) [] = Ok h.
Proof. cbn. by destruct (newSocks5UDPDatagram _ _). Qed.
(** The address of a datagram that a socket received has a header. *)
Lemma header_ok addr :
  is_Some (To16 (IP addr)) →
  ∃ h b, udpAddrToHeader (Some addr) = Ok h ∧ WriteToSocks5 (udpAddrSpec addr) = Ok b ∧ h = [0; 0; 0] ++ b ∧ len h <= Socks5MaxUDPHeaderLen.
Proof.
  intros [ip Hip]. unfold udpAddrToHeader, newSocks5UDPDatagram, WriteToSocks5. change (a_IP (udpAddrSpec addr)) with (IP addr).
  destruct (To4 (IP addr)) as [ip4|] eqn:E4.
  - eexists _, _. cbn. split; [done|]. split; [done|]. apply To4_len in E4. rewrite app_nil_r. split; [done|].
    rewrite !len_cons, !len_app, E4. done.
  - rewrite Hip. destruct (To4_none_To16 _ _ E4 Hip) as [Hl _]. eexists _, _. cbn. split; [done|]. split; [done|]. rewrite app_nil_r. split; [done|].
    rewrite !len_cons, !len_app, Hl. done.
Qed.

(** ** Round trips *)

Lemma byte_at_app_l i (l k : list Z) : (i < length l)%nat → byte_at i (l ++ k) = byte_at i l.
Proof. intros. unfold byte_at. by apply app_nth1. Qed.
(** [TransceiveUDPPacket] finds the payload by its own arithmetic. *)
Lemma transceive_written proxyAddr readAddr a payload w :
  addr_ok a → payload ≠ [] → Port readAddr = Port proxyAddr → newSocks5UDPDatagram a payload = Ok w →
  transceiveResponse proxyAddr readAddr w = Ok payload.
Proof.
  intros [Hip [Hf1 Hf2] Hs Hp] Hne Hport E. unfold newSocks5UDPDatagram, WriteToSocks5 in E.
  assert (0 < len payload) by (destruct payload; [done|rewrite len_cons; pose proof (len_nonneg payload); lia]).
  unfold transceiveResponse. rewrite Hport, Z.eqb_refl. cbn [negb].
  set (port := [u8 (Z.shiftr (u16 (a_Port a)) 8); u8 (Z.land (u16 (a_Port a)) 255)]) in E. assert (len port = 2) as Lp by done. clearbody port.
  destruct (To4 (a_IP a)) as [ip4|] eqn:E4; [|destruct (To16 (a_IP a)) as [ip|] eqn:E6].
  - apply To4_len in E4. cbn in E. injection E as <-. change (0 :: 0 :: 0 :: Socks5IPv4Address :: (ip4 ++ port) ++ payload) with (([0; 0; 0; Socks5IPv4Address] ++ (ip4 ++ port)) ++ payload).
    assert (len ([0; 0; 0; Socks5IPv4Address] ++ (ip4 ++ port)) = 10) as L by (rewrite !len_app, E4, Lp; done).
    rewrite len_app, L, (proj2 (Z.ltb_ge _ _)), (proj2 (Z.leb_gt _ _)) by lia. cbn [app]. change (byte_at 3 _ =? Socks5IPv4Address) with true. cbv iota.
    f_equal. by apply (slice_from_app _ ([0; 0; 0; Socks5IPv4Address] ++ (ip4 ++ port))).
  - destruct (To4_none_To16 _ _ E4 E6) as [Hl _]. cbn in E. injection E as <-.
    change (0 :: 0 :: 0 :: Socks5IPv6Address :: (ip ++ port) ++ payload) with (([0; 0; 0; Socks5IPv6Address] ++ (ip ++ port)) ++ payload).
    assert (len ([0; 0; 0; Socks5IPv6Address] ++ (ip ++ port)) = 22) as L by (rewrite !len_app, Hl, Lp; done).
    rewrite len_app, L, (proj2 (Z.ltb_ge _ _)), !(proj2 (Z.leb_gt _ _)) by lia. cbn [app]. change (byte_at 3 _) with Socks5IPv6Address.
    change (Socks5IPv6Address =? Socks5IPv4Address) with false. change (Socks5IPv6Address =? Socks5IPv6Address) with true. cbv iota.
    f_equal. by apply (slice_from_app _ ([0; 0; 0; Socks5IPv6Address] ++ (ip ++ port))).
  - destruct Hs as [[? ?]|[_ Hn]]; [done|]. destruct (Z.eqb_spec (len (FQDN a)) 0) as [H0|]; [by apply len_zero in H0|]. cbn in E. injection E as <-.
    pose proof (len_nonneg (FQDN a)). rewrite wrap_id by (split; [lia|]; change (2 ^ 8) with 256; lia).
    change (0 :: 0 :: 0 :: Socks5FQDNAddress :: len (FQDN a) :: (FQDN a ++ port) ++ payload) with (([0; 0; 0; Socks5FQDNAddress; len (FQDN a)] ++ (FQDN a ++ port)) ++ payload).
    assert (len ([0; 0; 0; Socks5FQDNAddress; len (FQDN a)] ++ (FQDN a ++ port)) = 7 + len (FQDN a)) as L
      by (rewrite !len_app, Lp; change (len [0; 0; 0; Socks5FQDNAddress; len (FQDN a)]) with 5; lia).
    rewrite len_app, L, !(proj2 (Z.ltb_ge _ _)) by lia. cbn [app]. change (byte_at 3 _) with Socks5FQDNAddress.
    change (Socks5FQDNAddress =? Socks5IPv4Address) with false. change (Socks5FQDNAddress =? Socks5IPv6Address) with false. change (Socks5FQDNAddress =? Socks5FQDNAddress) with true. cbv iota.
    change (byte_at 4 _) with (len (FQDN a)). rewrite (proj2 (Z.leb_gt _ _)) by lia.
    f_equal. by apply (slice_from_app _ ([0; 0; 0; Socks5FQDNAddress; len (FQDN a)] ++ (FQDN a ++ port))).
Qed.
Lemma transceive_request dstAddr payload :
  is_Some (To16 (IP dstAddr)) → is_u16 (Port dstAddr) → newSocks5UDPDatagram (udpAddrSpec dstAddr) payload = Ok (transceiveRequest dstAddr payload).
Proof.
  intros [ip Hip] Hp. unfold newSocks5UDPDatagram, WriteToSocks5, transceiveRequest. change (a_IP (udpAddrSpec dstAddr)) with (IP dstAddr).
  change (a_Port (udpAddrSpec dstAddr)) with (Port dstAddr). rewrite (wrap_id 16 _ Hp).
  assert (u8 (Z.land (Port dstAddr) 255) = u8 (Port dstAddr)) as ->.
  { replace 255 with (Z.ones 8) by done. rewrite Z.land_ones by lia. unfold wrap. by rewrite Z.mod_mod. }
  destruct (To4 (IP dstAddr)) as [ip4|]; [|rewrite Hip]; cbn; by rewrite <-app_assoc.
Qed.

(** A SOCKS5 datagram is read back from what is written, by every reader of
    the program: its address (an IP hides a name), its header and its payload,
    also when the payload is empty, and the header fits the space that the relay
    keeps in front of a datagram.  [TransceiveUDPPacket], which has its own
    encoder and its own arithmetic to skip a header, writes the same bytes and
    finds the same payload, if it is not empty. *)
Theorem datagram_roundtrip (a : AddrSpec) (payload : list Z) :
  addr_ok a →
  ∃ header w, newSocks5UDPDatagram a payload = Ok w ∧ w = header ++ payload ∧ len header <= Socks5MaxUDPHeaderLen ∧
    parseSocks5UDPDatagram w = Ok (mkDatagram (normalAddr a) header payload) ∧ unwrapSocks5UDPPacket w = Ok payload ∧
    (∀ dst, udpAddrSpec dst = a → is_Some (To16 (IP dst)) → transceiveRequest dst payload = w) ∧
    (∀ proxyAddr readAddr, payload ≠ [] → Port readAddr = Port proxyAddr → transceiveResponse proxyAddr readAddr w = Ok payload).
Proof.
  intros Ha. destruct (addr_ok_write a Ha) as (b & Eb). assert (newSocks5UDPDatagram a payload = Ok ([0; 0; 0] ++ b ++ payload)) as Ew.
  { unfold newSocks5UDPDatagram. by rewrite Eb. }
  destruct (parse_written a payload _ Ha Ew) as (header & Eh & Hl & Ep). exists header, ([0; 0; 0] ++ b ++ payload).
  split; [done|]. split; [done|]. split; [done|]. split; [done|]. split; [unfold unwrapSocks5UDPPacket; by rewrite Ep|]. split.
  - intros dst <- Hip. pose proof (transceive_request dst payload Hip (ao_Port _ Ha)) as E. rewrite Ew in E. by injection E.
  - intros pa ra Hne Hport. by apply (transceive_written pa ra a).
Qed.

(** ** The datagram relay and its history *)

(** The same relay, without state: what is sent for a datagram depends on what
    came before. *)
Definition request (x : received) : option (inetAddr * list Z) :=
  match parseUDPAssociateDatagram (rc_pkt x) (rc_resolver x) with Ok r => Some r | _ => None end.
(** The client is who sent the first datagram that can be relayed. *)
Definition clientOf (pre : list received) : option inetAddr :=
  rc_addr <$> List.find (λ x, bool_decide (is_Some (request x))) pre.
Definition fromClient (pre : list received) (x : received) : bool :=
  match clientOf pre with None => true | Some c => sameUDPAddr (Some (rc_addr x)) (Some c) end.
(** Targets: where datagrams of the client went. *)
Definition namedBy (pre : list received) (k : list Z) (y : received) : bool :=
  match request y, clientOf pre with
  | Some (dst, _), Some c => sameUDPAddr (Some (rc_addr y)) (Some c) && bool_decide (rc_write y = None) && bool_decide (inet_String dst = k)
  | _, _ => false
  end.
Definition target (pre : list received) (k : list Z) : bool := existsb (namedBy pre k) pre.
Definition relayed (pre : list received) (x : received) : option (list Z * inetAddr) :=
  if fromClient pre x then (λ r, (r.2, r.1)) <$> request x else
  if target pre (inet_String (rc_addr x)) then
    match udpAddrToHeader (Some (rc_addr x)), clientOf pre with Ok h, Some c => Some (h ++ rc_pkt x, c) | _, _ => None end
  else None.
Fixpoint relays (pre l : list received) : list (list Z * inetAddr) :=
  match l with [] => [] | x :: l => option_list (relayed pre x) ++ relays (pre ++ [x]) l end.

Lemma sameUDPAddr_refl a : sameUDPAddr (Some a) (Some a) = true.
Proof. cbn. unfold IP_Equal. by rewrite !Z.eqb_refl, bool_decide_eq_true_2. Qed.
Lemma find_app {A} (f : A → bool) l k : List.find f (l ++ k) = match List.find f l with Some x => Some x | None => List.find f k end.
Proof. induction l as [|x l IH]; cbn; [done|]. by destruct (f x). Qed.
Lemma clientOf_app pre x :
  clientOf (pre ++ [x]) = match clientOf pre with Some c => Some c | None => if bool_decide (is_Some (request x)) then Some (rc_addr x) else None end.
Proof. unfold clientOf. rewrite find_app. destruct (List.find _ pre); [done|]. cbn. by case_match. Qed.
Lemma clientOf_None pre : clientOf pre = None → ∀ y, y ∈ pre → request y = None.
Proof.
  unfold clientOf. destruct (List.find _ pre) eqn:E; [done|]. intros _ y Hy. apply list_elem_of_In in Hy.
  pose proof (List.find_none _ _ E y Hy) as H. apply bool_decide_eq_false in H.
  destruct (request y); [|done]. by destruct H.
Qed.
Lemma target_app pre x k :
  target (pre ++ [x]) k = target pre k ||
    match request x with Some (dst, _) => fromClient pre x && bool_decide (rc_write x = None) && bool_decide (inet_String dst = k) | None => false end.
Proof.
  unfold target. rewrite existsb_app. cbn [existsb]. rewrite orb_false_r. f_equal.
  - apply eq_true_iff_eq. rewrite !existsb_exists. split; intros (y & Hy & E); exists y; (split; [done|]); revert E; unfold namedBy; rewrite clientOf_app;
      destruct (clientOf pre) eqn:Ec; try done; rewrite (clientOf_None _ Ec y) by (by apply list_elem_of_In); done.
  - unfold namedBy, fromClient. rewrite clientOf_app. destruct (request x) as [[dst p]|]; [|done].
    destruct (clientOf pre); [done|]. cbn [bool_decide]. rewrite bool_decide_eq_true_2 by (by eexists). by rewrite sameUDPAddr_refl.
Qed.

Definition quietResolver (r : DNSResolver) : Prop := ∀ network host, ¬ is_Panic (r network host).
Lemma bind_quiet {A B} (r : result A) (f : A → result B) : ¬ is_Panic r → (∀ a, ¬ is_Panic (f a)) → ¬ is_Panic (r ≫= f).
Proof. intros Hr Hf [m E]. destruct r; cbn in E; [by apply (Hf a); eexists|done|by apply Hr; eexists]. Qed.
Lemma split_quiet hp : ¬ is_Panic (SplitHostPort hp).
Proof. unfold SplitHostPort. intros [m E]. repeat case_match; simplify_eq. Qed.
Lemma resolve_quiet proto r network address : quietResolver r → ¬ is_Panic (ResolveAddr proto r network address).
Proof.
  intros Hr. unfold ResolveAddr. case_match; [|by intros [m [=]]]. apply bind_quiet; [apply split_quiet|]. intros [host portStr].
  apply bind_quiet; [unfold Atoi; intros [m E]; repeat case_match; done|]. intros port. case_match; [by intros [m [=]]|].
  case_match; [case_match; by intros [m [=]]|]. apply bind_quiet; [apply Hr|]. intros []; by intros [m [=]].
Qed.
Lemma rread_quiet {A} n (k : list Z → rd A) l : (∀ w r, ¬ is_Panic (rd_bytes (k w) r).1) → ¬ is_Panic (rd_bytes (rread n ≫= k) l).1.
Proof.
  intros Hk. rewrite rd_bind_eq, rd_bytes_bind. unfold rread. cbn. destruct (n <=? len l); cbn; [apply Hk|by intros [m [=]]].
Qed.
Lemma read_addr_quiet a l : ¬ is_Panic (rd_bytes (ReadFromSocks5 a) l).1.
Proof.
  apply rread_quiet. intros t r. unfold readAddr. rewrite rd_bind_eq, rd_bytes_bind.
  assert (∀ (a : AddrSpec) l, ¬ is_Panic (rd_bytes (mret a) l).1) as Hret by (by intros ? ? [m [=]]).
  assert (∀ p : rd AddrSpec, (∀ l, ¬ is_Panic (rd_bytes p l).1) → ∀ k l, (∀ a l, ¬ is_Panic (rd_bytes (k a) l).1) →
    ¬ is_Panic (match rd_bytes p l with (Ok a, r) => rd_bytes (k a) r | (Err e, r) => (Err e, r) | (Panic m, r) => (@Panic AddrSpec m, r) end).1) as Hbind.
  { intros p Hp k l' Hk. pose proof (Hp l') as H. destruct (rd_bytes p l') as [[a'|e|m] r']; [apply Hk|by intros [m [=]]|by destruct H; eexists]. }
  apply Hbind.
  - intros l'. repeat case_match; try (apply rread_quiet; intros; apply Hret); [|by intros [m [=]]].
    apply rread_quiet. intros v r'. apply rread_quiet. intros. apply Hret.
  - intros a' l'. apply rread_quiet. intros. apply Hret.
Qed.
Lemma parse_quiet pkt : ¬ is_Panic (parseSocks5UDPDatagram pkt).
Proof.
  intros [m E]. unfold parseSocks5UDPDatagram in E. pose proof (read_addr_quiet noAddr (slice_from 3 pkt)) as Hq.
  repeat case_match; simplify_eq. apply Hq. by eexists.
Qed.
Lemma request_quiet pkt r : quietResolver r → ¬ is_Panic (parseUDPAssociateDatagram pkt r).
Proof.
  intros Hr. unfold parseUDPAssociateDatagram. apply bind_quiet; [apply parse_quiet|]. intros dg. apply bind_quiet; [|intros ?; by intros [m [=]]].
  unfold resolveSocks5UDPAddr. repeat case_match; try (by intros [m [=]]). by apply resolve_quiet.
Qed.

(** What the loop knows is what its history says. *)
Definition remembers (pre : list received) (s : datagramState) : Prop :=
  clientAddr s = clientOf pre ∧ ∀ k, k ∈ targetAddrs s ↔ target pre k = true.
Definition ip_sender (x : received) : Prop := is_Some (To16 (IP (rc_addr x))) ∧ quietResolver (rc_resolver x).
Lemma remembers_ignored pre s x : remembers pre s → request x = None ∨ fromClient pre x = false → remembers (pre ++ [x]) s.
Proof.
  intros [Hc Ht] Hx. split.
  - rewrite clientOf_app, Hc. destruct (clientOf pre) eqn:Ec; [done|]. destruct Hx as [->|Hf]; [done|]. unfold fromClient in Hf. by rewrite Ec in Hf.
  - intros k. rewrite target_app, Ht. destruct Hx as [->| ->]; [by rewrite orb_false_r|]. destruct (request x) as [[]|]; by rewrite orb_false_r.
Qed.
Lemma remembers_request pre s x dst payload :
  remembers pre s → request x = Some (dst, payload) → fromClient pre x = true →
  let s1 := s<|clientAddr := Some (default (rc_addr x) (clientAddr s))|> in
  remembers (pre ++ [x]) (if bool_decide (rc_write x = None) then s1<|targetAddrs := {[inet_String dst]} ∪ targetAddrs s1|> else s1).
Proof.
  intros [Hc Ht] Hr Hf s1. split.
  - transitivity (clientAddr s1); [by case_bool_decide|]. unfold s1. cbn. rewrite clientOf_app, Hr, Hc. by destruct (clientOf pre).
  - intros k. rewrite target_app, Hr, Hf. case_bool_decide; cbn [andb].
    + cbn. rewrite elem_of_union, elem_of_singleton, Ht, orb_true_iff, bool_decide_eq_true. naive_solver.
    + rewrite orb_false_r. apply Ht.
Qed.
Lemma step_relayed pre s x :
  remembers pre s → ip_sender x → ∃ s', datagramStep s x = Ok (s', relayed pre x) ∧ remembers (pre ++ [x]) s'.
Proof.
  intros Hs [Hip Hq]. pose proof Hs as [Hc Ht]. unfold datagramStep, relayed.
  assert (bool_decide (clientAddr s = None) || sameUDPAddr (Some (rc_addr x)) (clientAddr s) = fromClient pre x) as ->.
  { unfold fromClient. rewrite Hc. by destruct (clientOf pre). }
  destruct (fromClient pre x) eqn:Ef.
  - pose proof (request_quiet (rc_pkt x) _ Hq) as Hnp. destruct (parseUDPAssociateDatagram _ _) as [[dst payload]|e|m] eqn:Ep; [| |by destruct Hnp; eexists].
    + assert (request x = Some (dst, payload)) as Er by (unfold request; by rewrite Ep). rewrite Er. eexists. split; [done|]. by apply remembers_request with payload.
    + assert (request x = None) as Er by (unfold request; by rewrite Ep). rewrite Er. exists s. split; [done|]. apply remembers_ignored; auto.
  - assert (∃ c, clientOf pre = Some c) as (c & Ec) by (unfold fromClient in Ef; destruct (clientOf pre); [by eexists|done]).
    exists s. split; [|apply remembers_ignored; auto]. case_bool_decide as Hn.
    + rewrite Ht in Hn. by destruct (target pre _).
    + apply Ht in Hn. rewrite Hn. destruct (header_ok _ Hip) as (h & b & Eh & _). rewrite Eh, Hc, Ec. done.
Qed.

(** C15. The datagram relay is its history: whatever arrives at its socket, in
    whatever order, it does not panic, and what it sends is exactly this.  The
    client is the endpoint of the first datagram that can be relayed, for good.
    A datagram of the client goes, payload unchanged, to the address in its
    header; a datagram of anyone else goes to the client if it comes from an
    address that a datagram of the client has been sent to, behind a header that
    names its sender, and is dropped otherwise. *)
Theorem datagram_relay (l : list received) :
  Forall ip_sender l →
  (∃ s, datagramLoop noClient l = Ok (s, relays [] l) ∧ clientAddr s = clientOf l) ∧
  (∀ pre k c, clientOf pre = Some c → clientOf (pre ++ k) = Some c) ∧
  (∀ pre x, Forall is_u8 (IP (rc_addr x)) → is_u16 (Port (rc_addr x)) → fromClient pre x = false → ∀ w c, relayed pre x = Some (w, c) →
    clientOf pre = Some c ∧ (∃ y, y ∈ pre ∧ namedBy pre (inet_String (rc_addr x)) y = true) ∧
    ∃ h, parseSocks5UDPDatagram w = Ok (mkDatagram (normalAddr (udpAddrSpec (rc_addr x))) h (rc_pkt x))).
Proof.
  intros Hl. split; [|split].
  - enough (∀ pre s, remembers pre s → ∃ s', datagramLoop s l = Ok (s', relays pre l) ∧ clientAddr s' = clientOf (pre ++ l)) as H
      by (apply (H [] noClient); split; [done|]; intros k; cbn; split; [set_solver|done]).
    induction Hl as [|x l Hx Hl IH]; intros pre s Hs; [exists s; by rewrite app_nil_r; destruct Hs|].
    destruct (step_relayed pre s x Hs Hx) as (s1 & E1 & Hs1). destruct (IH _ _ Hs1) as (s2 & E2 & Hc2). exists s2.
    cbn [datagramLoop relays]. rewrite E1. cbn. rewrite E2. cbn. split; [by destruct (relayed pre x)|]. by rewrite <-app_assoc in Hc2.
  - intros pre k c Hc. unfold clientOf in *. rewrite find_app. by destruct (List.find _ pre).
  - intros pre x Hb Hp Hf w c. unfold relayed. rewrite Hf. destruct (target pre _) eqn:Et; [|done].
    destruct (udpAddrToHeader _) as [h|e|m] eqn:Eh; [|done|done]. destruct (clientOf pre) as [c'|]; [|done]. intros [= <- <-]. split; [done|]. split.
    + unfold target in Et. apply existsb_exists in Et as (y & Hy & Ey). exists y. by rewrite list_elem_of_In.
    + apply header_written in Eh. unfold newSocks5UDPDatagram in Eh. destruct (WriteToSocks5 (udpAddrSpec (rc_addr x))) as [b|e|m] eqn:Eb; [|done|done].
      cbn in Eh. injection Eh as <-. rewrite app_nil_r.
      assert (addr_ok (udpAddrSpec (rc_addr x))) as Ha.
      { split; [done|by split; [constructor|]| |done]. left. cbn. unfold WriteToSocks5 in Eb. change (a_IP (udpAddrSpec (rc_addr x))) with (IP (rc_addr x)) in Eb.
        destruct (To4 _) eqn:E4; [by eapply To4_To16|]. destruct (To16 _); [by eexists|done]. }
      destruct (parse_written _ (rc_pkt x) ([0; 0; 0] ++ b ++ rc_pkt x) Ha) as (h & _ & _ & Epar); [unfold newSocks5UDPDatagram; by rewrite Eb|].
      exists h. exact Epar.
Qed.

(** ** The relay behind a tunnel *)

(** What the events say, the latest one first. *)
Definition requestOf (e : event) : option (list Z * inetAddr) :=
  match e with FromTunnel _ (Some (dst, dg)) => Some (dg_Payload dg, dst) | _ => None end.
Definition sentOf (e : event) : option (list Z * inetAddr) := match e with ToSocket payload dst => Some (payload, dst) | _ => None end.
Definition answerOf (e : event) : option (list Z * inetAddr) := match e with FromSocket payload addr => Some (payload, addr) | _ => None end.
Definition writtenOf (e : event) : option (list Z) := match e with ToTunnel pkt => Some pkt | _ => None end.
(** A header for an address: one that a packet of the tunnel used for it, or its
    own. *)
Definition headerFor (tr : list event) (k h : list Z) : Prop :=
  len h <= Socks5MaxUDPHeaderLen ∧
  ((∃ pkt dst dg, FromTunnel pkt (Some (dst, dg)) ∈ tr ∧ inet_String dst = k ∧ h = dg_Header dg) ∨
   (∃ addr, inet_String addr = k ∧ udpAddrToHeader (Some addr) = Ok h)).
Lemma headerFor_cons tr e k h : headerFor tr k h → headerFor (e :: tr) k h.
Proof. intros [Hl [(pkt & dst & dg & H & ?)|H]]; split; [done| |done|by right]. left. exists pkt, dst, dg. split; [by right|done]. Qed.

(** What the goroutines hold. *)
Definition pendingUp (s : association) : list (list Z * inetAddr) :=
  match up s with UpStore dst _ payload | UpSend dst payload => [(payload, dst)] | _ => [] end.
Definition pendingDown (s : association) : list (list Z * inetAddr) :=
  match down s with DownLoad payload addr | DownStore payload addr _ | DownWrite payload addr _ => [(payload, addr)] | _ => [] end.
Definition answers (tr : list event) (pkt : list Z) (a : list Z * inetAddr) : Prop := ∃ h, pkt = h ++ a.1 ∧ headerFor tr (inet_String a.2) h.
Record relaying (tr : list event) (s : association) : Prop := {
  re_up : sublist (pendingUp s ++ omap sentOf tr) (omap requestOf tr);
  re_down : ∃ l, Forall2 (answers tr) (omap writtenOf tr) l ∧ sublist (pendingDown s ++ l) (omap answerOf tr);
  re_map : ∀ k h, addrMap s !! k = Some h → headerFor tr k h;
  re_store : match up s with UpStore dst h _ => headerFor tr (inet_String dst) h | _ => True end;
  re_write : match down s with DownLoad _ addr => is_Some (To16 (IP addr)) | DownStore _ addr h | DownWrite _ addr h => headerFor tr (inet_String addr) h | _ => True end
}.

Lemma answers_cons tr e l k : Forall2 (answers tr) l k → Forall2 (answers (e :: tr)) l k.
Proof. intros H0. eapply Forall2_impl; [exact H0|]. intros p a (h & -> & H). exists h. split; [done|]. by apply headerFor_cons. Qed.
Lemma header_for_own tr addr h : is_Some (To16 (IP addr)) → udpAddrToHeader (Some addr) = Ok h → headerFor tr (inet_String addr) h.
Proof. intros Ha E. destruct (header_ok addr Ha) as (h' & b & E' & _ & _ & Hl). rewrite E in E'. simplify_eq. split; [done|]. right. by exists addr. Qed.
Lemma pending_cons {A} (p : list A) l k : sublist (p ++ l) k → sublist l k.
Proof. intros H. etrans; [|exact H]. by apply sublist_inserts_l. Qed.
Lemma map_cons (tr : list event) (e : event) (m : gmap (list Z) (list Z)) : (∀ k h, m !! k = Some h → headerFor tr k h) → ∀ k h, m !! k = Some h → headerFor (e :: tr) k h.
Proof. intros H k h Hk. by apply headerFor_cons, H. Qed.
Lemma map_insert (tr : list event) (e : event) (m : gmap (list Z) (list Z)) k0 h0 :
  headerFor tr k0 h0 → (∀ k h, m !! k = Some h → headerFor tr k h) → ∀ k h, <[k0 := h0]> m !! k = Some h → headerFor (e :: tr) k h.
Proof. intros H0 H k h. rewrite lookup_insert_Some. intros [[<- <-]|[_ Hk]]; apply headerFor_cons; [done|by apply H]. Qed.
#[local] Hint Resolve answers_cons headerFor_cons : core.

Lemma relaying_up tr s e s' : relaying tr s → upStep s e s' → relaying (e :: tr) s'.
Proof.
  intros [Hu (l & Hd & Hl) Hm Hs Hw] Hstep.
  assert (match down s with DownLoad _ addr => is_Some (To16 (IP addr)) | DownStore _ addr h | DownWrite _ addr h => headerFor (e :: tr) (inet_String addr) h | _ => True end)
    as Hw' by (destruct (down s); auto).
  assert (∃ l, Forall2 (answers (e :: tr)) (omap writtenOf tr) l ∧ sublist (pendingDown s ++ l) (omap answerOf tr)) as Hd' by eauto.
  pose proof (map_cons tr e _ Hm) as Hm'. pose proof (pending_cons _ _ _ Hu) as Hu'. unfold pendingUp in Hu.
  destruct Hstep as [d E|pkt r dg dst E Hb Ep Er|pkt r dg e E Ep Er|pkt e E Ep|dst h p E|dst p E|d v E Es|d m E Es|E]; rewrite E in *; cbn in Hu.
  all: try (split; unfold pendingUp; cbn; rewrite ?E; done).
  - split; cbn; try done.
    { by apply sublist_skip. }
    apply parse_inv in Ep as [-> Hh]; [|done]. split; [done|]. left. eexists _, _, _. split; [by left|done].
  - split; cbn; try done. by apply map_insert.
Qed.
Lemma relaying_down tr s e s' : relaying tr s → downStep s e s' → relaying (e :: tr) s'.
Proof.
  intros [Hu (l & Hd & Hl) Hm Hs Hw] Hstep.
  assert (match up s with UpStore dst h _ => headerFor (e :: tr) (inet_String dst) h | _ => True end) as Hs' by (destruct (up s); auto).
  pose proof (map_cons tr e _ Hm) as Hm'. pose proof (answers_cons tr e _ _ Hd) as Hd'. pose proof (pending_cons _ _ _ Hl) as Hl'. unfold pendingDown in Hl.
  destruct Hstep as [p a E Ho Ha|d E|p a h E Ea|p a h E Ea Eh|p a m E Ea Eh|p a h E|p a h E Hlen|p a h w E Hlen Ew|p a h er E Hlen Ew|p a h d E Hlen
    |d E Eu|d er E Eu|d v E Ev|d m E Ev]; rewrite E in *; cbn in Hl.
  all: split; unfold pendingDown; cbn; rewrite ?E; try done; try (exists l; split; done).
  - exists l. split; [done|]. by apply sublist_skip.
  - by apply Hm'.
  - by apply header_for_own.
  - by apply map_insert.
  - by apply headerFor_cons.
  - by apply headerFor_cons.
  - exists ((p, a) :: l). split; [|done]. constructor; [|done]. exists h. split; [done|]. by apply headerFor_cons.
Qed.
Lemma associated_relaying tr s : associated tr s → relaying tr s.
Proof.
  induction 1 as [|tr s e s' _ IH [_ Hs|_ Hs]]; [|by eapply relaying_up|by eapply relaying_down].
  split; cbn; try done. exists []. split; [constructor|done].
Qed.

(** ** When the relay panics *)

(** The socket fails only after it was closed, and the tunnel's errors are not
    wrapped. *)
Definition orderly (e : event) : Prop :=
  match e with TunnelError d => de_type d = errorString | SocketError _ open => open = false | _ => True end.
Definition plain (v : option dynErr) : Prop := match v with Some d => de_type d = errorString | None => True end.
Record sound (s : association) : Prop := {
  so_panicked : panicked s = false;
  so_err : plain (udpErr s);
  so_closed : udpOpen s = false → is_Some (udpErr s);
  so_up : match up s with UpError d => de_type d = errorString | UpClose => is_Some (udpErr s) | UpDone => udpOpen s = false | _ => True end;
  so_down : match down s with DownError d => de_type d = errorString ∨ is_Some (udpErr s) | DownErrorStore d => de_type d = errorString | _ => True end
}.
Lemma Store_plain v d : plain v → de_type d = errorString → Store v d = Ok (Some d).
Proof. destruct v as [d'|]; [|done]. cbn. intros -> ->. done. Qed.
Lemma sound_up s e s' : sound s → upStep s e s' → orderly e → sound s'.
Proof.
  intros [Hp He Hc Hu Hd] Hstep Ho.
  destruct Hstep as [d E|pkt r dg dst E Hb Ep Er|pkt r dg e E Ep Er|pkt e E Ep|dst h p E|dst p E|d v E Es|d m E Es|E]; rewrite E in *; cbn in Ho.
  all: try (rewrite (Store_plain _ _ He Hu) in Es; simplify_eq).
  all: split; cbn; rewrite ?E; try done.
  all: try (destruct (down s); naive_solver).
Qed.
Lemma sound_down tr s e s' : relaying tr s → sound s → downStep s e s' → orderly e → sound s'.
Proof.
  intros Hr [Hp He Hc Hu Hd] Hstep Ho. pose proof (re_write _ _ Hr) as Hw.
  destruct Hstep as [p a E Hop Ha|d E|p a h E Ea|p a h E Ea Eh|p a m E Ea Eh|p a h E|p a h E Hlen|p a h w E Hlen Ew|p a h er E Hlen Ew|p a h d E Hlen
    |d E Eu|d er E Eu|d v E Ev|d m E Ev]; rewrite E in *; cbn in Ho.
  all: try (rewrite (Store_plain _ _ He Hd) in Ev; simplify_eq).
  all: try (destruct (header_ok _ Hw) as (h' & b' & E' & _); congruence).
  all: try (apply proj1 in Hw; lia).
  all: split; cbn; rewrite ?E; try done.
  - right. by apply Hc.
  - by left.
  - by left.
  - rewrite Eu in Hd. destruct Hd as [|[? ?]]; done.
  - by destruct (up s).
Qed.
Lemma associated_sound tr s : associated tr s → Forall orderly tr → sound s.
Proof.
  intros Ha. induction Ha as [|tr s e s' Ha IH [_ Hs|_ Hs]]; intros Ho.
  - by split.
  - apply Forall_cons in Ho as [Ho1 Ho2]. eapply sound_up; [by apply IH|exact Hs|done].
  - apply Forall_cons in Ho as [Ho1 Ho2]. eapply sound_down; [by eapply associated_relaying|by apply IH|exact Hs|done].
Qed.
(** A goroutine that has ended left an error. *)
Lemma ended_with_error tr s : associated tr s → up s = UpClose ∨ up s = UpDone → is_Some (udpErr s).
Proof.
  induction 1 as [|tr s e s' _ IH [_ Hs|_ Hs]]; [by intros [|]| |].
  - destruct Hs as [d E|pkt r dg dst E Hb Ep Er|pkt r dg e E Ep Er|pkt e E Ep|dst h p E|dst p E|d v E Es|d m E Es|E]; cbn; rewrite ?E; try (by intros [|]).
    + intros _. unfold Store in Es. repeat case_match; simplify_eq; by eexists.
    + intros _. apply IH. by left.
  - destruct Hs as [p a E Hop Ha|d E|p a h E Ea|p a h E Ea Eh|p a m E Ea Eh|p a h E|p a h E Hlen|p a h w E Hlen Ew|p a h er E Hlen Ew|p a h d E Hlen
      |d E Eu|d er E Eu|d v E Ev|d m E Ev]; cbn; try apply IH.
    intros _. unfold Store in Ev. repeat case_match; simplify_eq; by eexists.
Qed.

Lemma go_up tr s e s' : associated tr s → upStep s e s' → panicked s = false → associated (e :: tr) s'.
Proof. intros. by eapply associated_step, step_up. Qed.
Lemma go_down tr s e s' : associated tr s → downStep s e s' → panicked s = false → associated (e :: tr) s'.
Proof. intros. by eapply associated_step, step_down. Qed.

(** C16. The relay behind a tunnel passes datagrams on and nothing else, for every
    interleaving of its two goroutines, every network and resolver.  What goes to
    the socket are payloads of packets of the tunnel, each at most once, in
    order, to the address in its header; what goes into the tunnel are datagrams
    of the socket, each at most once, in order, behind a header for the address
    it came from that never exceeds the space kept for it.  When both goroutines
    have ended, there is an error to return.  If the socket fails only after it
    was closed, and the errors of the tunnel are not wrapped ones, nothing
    panics. *)
Theorem association_relays (tr : list event) (s : association) :
  associated tr s →
  sublist (omap sentOf tr) (omap requestOf tr) ∧
  (∃ l, sublist l (omap answerOf tr) ∧ Forall2 (answers tr) (omap writtenOf tr) l) ∧
  (∀ r, associationResult s = Some r → is_Err r) ∧
  (Forall orderly tr → panicked s = false).
Proof.
  intros Ha. destruct (associated_relaying tr s Ha) as [Hu (l & Hd & Hl) _ _ _]. split; [by eapply pending_cons|]. split; [|split].
  - exists l. split; [by eapply pending_cons|done].
  - intros r Hr. unfold associationResult in Hr. destruct (up s) eqn:E; try done. destruct (down s); try done.
    destruct (ended_with_error tr s Ha) as (d & Ed); [by right|]. rewrite Ed in Hr. injection Hr as <-. by eexists.
  - intros Ho. by apply (associated_sound tr s Ha Ho).
Qed.
Lemma association_relays_witness :
  let tr := [ToSocket [9] (mkAddr [1; 2; 3; 4] 53 []); Internal; FromTunnel ([0; 0; 0; 1; 1; 2; 3; 4; 0; 53; 9])
    (Some (mkAddr [1; 2; 3; 4] 53 [], mkDatagram (mkAddrSpec [] [1; 2; 3; 4] 53) [0; 0; 0; 1; 1; 2; 3; 4; 0; 53] [9]))] in
  ∃ s, associated tr s ∧ sublist (omap sentOf tr) (omap requestOf tr) ∧ panicked s = false.
Proof.
  intros tr. set (pkt := [0; 0; 0; 1; 1; 2; 3; 4; 0; 53; 9]).
  assert (upStep newAssociation (FromTunnel pkt (Some (mkAddr [1; 2; 3; 4] 53 [], mkDatagram (mkAddrSpec [] [1; 2; 3; 4] 53) [0; 0; 0; 1; 1; 2; 3; 4; 0; 53] [9])))
    (newAssociation<|up := UpStore (mkAddr [1; 2; 3; 4] 53 []) [0; 0; 0; 1; 1; 2; 3; 4; 0; 53] [9]|>)) as Hr.
  { apply (up_read newAssociation pkt (λ _ _, Err EOF) (mkDatagram (mkAddrSpec [] [1; 2; 3; 4] 53) [0; 0; 0; 1; 1; 2; 3; 4; 0; 53] [9])); [done|by repeat constructor|by vm_compute|by vm_compute]. }
  pose proof (go_up _ _ _ _ associated_start Hr eq_refl) as H1.
  pose proof (go_up _ _ _ _ H1 (up_store (newAssociation<|up := UpStore _ _ _|>) _ _ _ eq_refl) eq_refl) as H2.
  pose proof (go_up _ _ _ _ H2 (up_send (newAssociation<|up := UpStore _ _ _|><|addrMap := _|><|up := UpSend _ _|>) _ _ eq_refl) eq_refl) as Ha.
  eexists. split; [exact Ha|]. destruct (association_relays tr _ Ha) as (G1 & _ & _ & G4). split; [exact G1|]. apply G4. by repeat constructor.
Defined.

(** An error of the socket that comes first makes the end of the tunnel a panic:
    [udpErr] holds an error of another type. *)
Theorem socket_error_panics d :
  de_type d = opError → ∃ tr s, associated tr s ∧ panicked s = true ∧ Forall (λ e, match e with TunnelError d => d = mkDyn errorString EOF | _ => True end) tr.
Proof.
  intros Hd.
  set (eof := mkDyn errorString EOF). set (s1 := newAssociation<|down := DownError d|>). set (s2 := s1<|down := DownErrorStore d|>).
  set (s3 := s2<|udpErr := Some d|><|down := DownDone|>). set (s4 := s3<|up := UpError eof|>).
  assert (Store (Some d) eof = Panic "sync/atomic: store of inconsistently typed value into Value") as Hs by (cbn; by rewrite Hd).
  pose proof (go_down _ _ _ s1 associated_start (down_read_error newAssociation d eq_refl) eq_refl) as H1.
  pose proof (go_down _ _ _ s2 H1 (down_error_first s1 d eq_refl eq_refl) eq_refl) as H2.
  pose proof (go_down _ _ _ s3 H2 (down_error_store s2 d _ eq_refl eq_refl) eq_refl) as H3.
  pose proof (go_up _ _ _ s4 H3 (up_read_error s3 eof eq_refl) eq_refl) as H4.
  pose proof (go_up _ _ _ _ H4 (up_error_panics s4 eof _ eq_refl Hs) eq_refl) as H5.
  eexists _, _. split; [exact H5|]. split; [done|]. by repeat constructor.
Qed.

(** ** Witnesses *)

Lemma datagram_roundtrip_witness :
  ∃ header w, newSocks5UDPDatagram (mkAddrSpec [97; 46; 98] [] 53) [1; 2] = Ok w ∧ w = header ++ [1; 2] ∧ len header <= Socks5MaxUDPHeaderLen ∧
    parseSocks5UDPDatagram w = Ok (mkDatagram (normalAddr (mkAddrSpec [97; 46; 98] [] 53)) header [1; 2]) ∧ unwrapSocks5UDPPacket w = Ok [1; 2].
Proof.
  destruct (datagram_roundtrip (mkAddrSpec [97; 46; 98] [] 53) [1; 2]) as (header & w & H1 & H2 & H3 & H4 & H5 & _).
  - split; cbn; [constructor|split; [by repeat constructor|done]|by right|done].
  - by exists header, w.
Defined.
(** A client at 10.0.0.2 sends a datagram to 9.9.9.9:53, a stranger one to the
    relay, and 9.9.9.9:53 answers. *)
Definition exchange : list received :=
  [mkReceived [0; 0; 0; 1; 9; 9; 9; 9; 0; 53; 7] (mkAddr [10; 0; 0; 2] 4000 []) (λ _ _, Err EOF) None;
   mkReceived [1; 2; 3] (mkAddr [8; 8; 8; 8] 53 []) (λ _ _, Err EOF) None;
   mkReceived [5; 6] (mkAddr [9; 9; 9; 9] 53 []) (λ _ _, Err EOF) None].
Lemma datagram_relay_witness :
  (∃ s, datagramLoop noClient exchange = Ok (s, relays [] exchange) ∧ clientAddr s = clientOf exchange) ∧
  relays [] exchange = [([7], mkAddr [9; 9; 9; 9] 53 []); ([0; 0; 0; 1; 9; 9; 9; 9; 0; 53; 5; 6], mkAddr [10; 0; 0; 2] 4000 [])].
Proof.
  split; [|by vm_compute]. apply (proj1 (datagram_relay exchange ltac:(repeat constructor; try (by eexists); intros ? ? [m [=]]))).
Defined.
