(* ===== verification/UDPCopy.v ===== *)
(** * pkg/socks5/copy.go and udp.go: copying the datagrams of an association

    [BidiCopyUDP] in the proxy client (between the socket that the user sends its
    datagrams to and the tunnel) and [RunUDPForwardingLoop] in the proxy server
    (between the tunnel and an egress proxy), as step relations: a constructor is
    what a goroutine does between two points where the others may run.  Endpoints
    are known by their [String]; metrics and logs are left out.

    Theorems: for every interleaving, [BidiCopyUDP] talks to the first endpoint
    only, passes packets at most once and in order, and returns when both of its
    goroutines have ended and both connections are closed; the forwarding loop
    passes packets at most once and in order, sends to the egress proxy only, and
    returns the first error when everything is closed. *)
From S2P Require Import Prelude GoStd.

(** ** [BidiCopyUDP] *)

Inductive copyUp := CopyUpRead | CopyUpGot (pkt a : list Z) | CopyUpWrite (pkt a : list Z) | CopyUpDone.
Inductive copyDown := CopyDownRead | CopyDownGot (pkt : list Z) | CopyDownSend (pkt a : list Z) | CopyDownDone.
(** The function itself: waiting for the first error, closing, waiting for the
    second one. *)
Inductive copyMain := WaitFirst | Closing | WaitSecond | Returned.
Record copying := mkCopying {
  cp_up : copyUp;
  cp_down : copyDown;
  cp_main : copyMain;
  cp_addr : option (list Z);
  cp_errCh : nat;
  cp_open : bool
}.
#[export] Instance copying_eta : Settable copying := λ s, mkCopying (cp_up s) (cp_down s) (cp_main s) (cp_addr s) (cp_errCh s) (cp_open s).
Definition newCopying : copying := mkCopying CopyUpRead CopyDownRead WaitFirst None 0 true.
Inductive copyEvent :=
| CopyFromUser (pkt a : list Z)
| CopyToTunnel (pkt a : list Z)
| CopyFromTunnel (pkt : list Z)
| CopyToUser (pkt a : list Z)
| CopyInternal.

Definition upFails (s : copying) : copying := s<|cp_errCh := S (cp_errCh s)|><|cp_up := CopyUpDone|>.
Definition downFails (s : copying) : copying := s<|cp_errCh := S (cp_errCh s)|><|cp_down := CopyDownDone|>.
(** The label [a] of [CopyToTunnel] is where the packet came from. *)
Inductive copyStep (s : copying) : copyEvent → copying → Prop :=
| cu_read pkt a : cp_up s = CopyUpRead → cp_open s = true → copyStep s (CopyFromUser pkt a) (s<|cp_up := CopyUpGot pkt a|>)
| cu_read_error : cp_up s = CopyUpRead → copyStep s CopyInternal (upFails s)
| cu_first pkt a : cp_up s = CopyUpGot pkt a → cp_addr s = None → copyStep s CopyInternal (s<|cp_addr := Some a|><|cp_up := CopyUpWrite pkt a|>)
| cu_same pkt a : cp_up s = CopyUpGot pkt a → cp_addr s = Some a → copyStep s CopyInternal (s<|cp_up := CopyUpWrite pkt a|>)
| cu_other pkt a b : cp_up s = CopyUpGot pkt a → cp_addr s = Some b → a ≠ b → copyStep s CopyInternal (upFails s)
| cu_write pkt a : cp_up s = CopyUpWrite pkt a → copyStep s (CopyToTunnel pkt a) (s<|cp_up := CopyUpRead|>)
| cu_write_error pkt a : cp_up s = CopyUpWrite pkt a → copyStep s CopyInternal (upFails s)
| cd_read pkt : cp_down s = CopyDownRead → cp_open s = true → copyStep s (CopyFromTunnel pkt) (s<|cp_down := CopyDownGot pkt|>)
| cd_read_error : cp_down s = CopyDownRead → copyStep s CopyInternal (downFails s)
| cd_not_ready pkt : cp_down s = CopyDownGot pkt → cp_addr s = None → copyStep s CopyInternal (downFails s)
| cd_ready pkt a : cp_down s = CopyDownGot pkt → cp_addr s = Some a → copyStep s CopyInternal (s<|cp_down := CopyDownSend pkt a|>)
| cd_send pkt a : cp_down s = CopyDownSend pkt a → copyStep s (CopyToUser pkt a) (s<|cp_down := CopyDownRead|>)
| cd_send_error pkt a : cp_down s = CopyDownSend pkt a → copyStep s CopyInternal (downFails s)
| cm_first n : cp_main s = WaitFirst → cp_errCh s = S n → copyStep s CopyInternal (s<|cp_errCh := n|><|cp_main := Closing|>)
| cm_close : cp_main s = Closing → copyStep s CopyInternal (s<|cp_open := false|><|cp_main := WaitSecond|>)
| cm_second n : cp_main s = WaitSecond → cp_errCh s = S n → copyStep s CopyInternal (s<|cp_errCh := n|><|cp_main := Returned|>).
(** The events so far, the latest one first. *)
Inductive copied : list copyEvent → copying → Prop :=
| copied_start : copied [] newCopying
| copied_step tr s e s' : copied tr s → copyStep s e s' → copied (e :: tr) s'.

(** ** [RunUDPForwardingLoop] *)

Inductive forwarder := ForwardRead | ForwardWrite (pkt : list Z) | ForwardFail (e : option error) | ForwardDone.
Record forwarding := mkForwarding {
  fw_up : forwarder;
  fw_down : forwarder;
  fw_monitor : forwarder;
  fw_open : bool;
  fw_err : option (option error)
}.
#[export] Instance forwarding_eta : Settable forwarding := λ s, mkForwarding (fw_up s) (fw_down s) (fw_monitor s) (fw_open s) (fw_err s).
Definition newForwarding : forwarding := mkForwarding ForwardRead ForwardRead ForwardRead true None.
(** [closeAll]: the first error counts, which is nil if the control connection
    could be read; [sync.Once] makes it one step. *)
Definition closeAll (s : forwarding) (e : option error) : forwarding :=
  match fw_err s with None => s<|fw_err := Some e|><|fw_open := false|> | Some _ => s end.
Inductive forwardEvent := ForwardFromTunnel (pkt : list Z) | ForwardToProxy (pkt : list Z) | ForwardFromProxy (pkt : list Z) | ForwardToTunnel (pkt : list Z) | ForwardInternal.
(** A failed write to the socket is only counted. *)
Inductive forwardStep (s : forwarding) : forwardEvent → forwarding → Prop :=
| fu_read pkt : fw_up s = ForwardRead → fw_open s = true → forwardStep s (ForwardFromTunnel pkt) (s<|fw_up := ForwardWrite pkt|>)
| fu_read_error (e : error) : fw_up s = ForwardRead → forwardStep s ForwardInternal (s<|fw_up := ForwardFail (Some e)|>)
| fu_write pkt : fw_up s = ForwardWrite pkt → forwardStep s (ForwardToProxy pkt) (s<|fw_up := ForwardRead|>)
| fu_write_error pkt : fw_up s = ForwardWrite pkt → forwardStep s ForwardInternal (s<|fw_up := ForwardRead|>)
| fu_fail e : fw_up s = ForwardFail e → forwardStep s ForwardInternal ((closeAll s e)<|fw_up := ForwardDone|>)
| fd_read pkt : fw_down s = ForwardRead → fw_open s = true → forwardStep s (ForwardFromProxy pkt) (s<|fw_down := ForwardWrite pkt|>)
| fd_read_error (e : error) : fw_down s = ForwardRead → forwardStep s ForwardInternal (s<|fw_down := ForwardFail (Some e)|>)
| fd_write pkt : fw_down s = ForwardWrite pkt → forwardStep s (ForwardToTunnel pkt) (s<|fw_down := ForwardRead|>)
| fd_write_error pkt (e : error) : fw_down s = ForwardWrite pkt → forwardStep s ForwardInternal (s<|fw_down := ForwardFail (Some e)|>)
| fd_fail e : fw_down s = ForwardFail e → forwardStep s ForwardInternal ((closeAll s e)<|fw_down := ForwardDone|>)
| fm_read e : fw_monitor s = ForwardRead → forwardStep s ForwardInternal (s<|fw_monitor := ForwardFail e|>)
| fm_fail e : fw_monitor s = ForwardFail e → forwardStep s ForwardInternal ((closeAll s e)<|fw_monitor := ForwardDone|>).
Inductive forwarded : list forwardEvent → forwarding → Prop :=
| forwarded_start : forwarded [] newForwarding
| forwarded_step tr s e s' : forwarded tr s → forwardStep s e s' → forwarded (e :: tr) s'.
(** [wg.Wait()], then the result. *)
Definition forwardResult (s : forwarding) : option (option (option error)) :=
  match fw_up s, fw_down s, fw_monitor s with ForwardDone, ForwardDone, ForwardDone => Some (fw_err s) | _, _, _ => None end.

(** ** What the user's copy passes on *)

Definition upReceived (e : copyEvent) : option (list Z * list Z) := match e with CopyFromUser pkt a => Some (pkt, a) | _ => None end.
Definition upWritten (e : copyEvent) : option (list Z * list Z) := match e with CopyToTunnel pkt a => Some (pkt, a) | _ => None end.
Definition downReceived (e : copyEvent) : option (list Z) := match e with CopyFromTunnel pkt => Some pkt | _ => None end.
Definition downSent (e : copyEvent) : option (list Z) := match e with CopyToUser pkt _ => Some pkt | _ => None end.
Definition heldUp (s : copying) : list (list Z * list Z) := match cp_up s with CopyUpGot pkt a | CopyUpWrite pkt a => [(pkt, a)] | _ => [] end.
Definition heldDown (s : copying) : list (list Z) := match cp_down s with CopyDownGot pkt | CopyDownSend pkt _ => [pkt] | _ => [] end.
Definition is_first (s : copying) (a : list Z) : Prop := cp_addr s = Some a.
Definition user (e : copyEvent) : option (list Z) := match e with CopyToTunnel _ a | CopyToUser _ a => Some a | _ => None end.
Definition doneCount (s : copying) : nat :=
  (match cp_up s with CopyUpDone => 1 | _ => 0 end) + (match cp_down s with CopyDownDone => 1 | _ => 0 end).
Definition consumed (s : copying) : nat := match cp_main s with WaitFirst => 0 | Closing | WaitSecond => 1 | Returned => 2 end.
Record copy_inv (tr : list copyEvent) (s : copying) : Prop := {
  ci_up : sublist (heldUp s ++ omap upWritten tr) (omap upReceived tr);
  ci_down : sublist (heldDown s ++ omap downSent tr) (omap downReceived tr);
  ci_first : match cp_addr s with
             | Some a => snd <$> last (omap upReceived tr) = Some a
             | None => match cp_up s with
                       | CopyUpRead => omap upReceived tr = []
                       | CopyUpGot pkt a => omap upReceived tr = [(pkt, a)]
                       | CopyUpWrite _ _ => False
                       | CopyUpDone => True
                       end
             end;
  ci_user : Forall (is_first s) (omap user tr);
  ci_write : match cp_up s with CopyUpWrite _ a => is_first s a | _ => True end;
  ci_send : match cp_down s with CopyDownSend _ a => is_first s a | _ => True end;
  ci_count : (cp_errCh s + consumed s = doneCount s)%nat;
  ci_open : match cp_main s with WaitSecond | Returned => cp_open s = false | _ => True end
}.
Lemma held_skip {A} (p : list A) l k : sublist (p ++ l) k → sublist l k.
Proof. intros H. etrans; [|exact H]. by apply sublist_inserts_l. Qed.
Lemma last_cons_first {A B} (f : A → B) x l (a : B) : f <$> last l = Some a → f <$> last (x :: l) = Some a.
Proof. by destruct l. Qed.
Lemma copied_inv tr s : copied tr s → copy_inv tr s.
Proof.
  induction 1 as [|tr s e s' _ [Hu Hd Hfi Hus Hw Hs Hc Ho] Hstep]; [by split|].
  pose proof (held_skip _ _ _ Hu) as Hu'. pose proof (held_skip _ _ _ Hd) as Hd'. unfold heldUp, heldDown, doneCount, consumed, is_first in *.
  destruct Hstep as [p a E Eo|E|p a E Ea|p a E Ea|p a b E Ea Hne|p a E|p a E|p E Eo|E|p E Ea|p a E Ea|p a E|p a E|n E En|E|n E En].
  all: split; unfold heldUp, heldDown, doneCount, consumed, is_first; cbn; rewrite ?E in *; try done; try (by apply sublist_skip); try lia.
  all: try (destruct (cp_addr s); naive_solver).
  - destruct (cp_addr s); [by apply last_cons_first|by rewrite Hfi].
  - rewrite Ea in Hfi. by rewrite Hfi.
  - eapply Forall_impl; [exact Hus|]. by rewrite Ea.
  - rewrite Ea in Hs. by destruct (cp_down s).
Qed.

(** C17. Whatever the order in which its goroutines run, the copy between a user
    and the tunnel serves one endpoint, the one that the first datagram came
    from: every packet that goes into the tunnel came from it, and every packet
    that leaves the tunnel goes to it.  Packets are passed at most once and in
    order, and when the function returns, both goroutines have ended and both
    connections are closed. *)
Theorem user_copy (tr : list copyEvent) (s : copying) :
  copied tr s →
  sublist (omap upWritten tr) (omap upReceived tr) ∧ sublist (omap downSent tr) (omap downReceived tr) ∧
  (∀ a, a ∈ omap user tr → snd <$> last (omap upReceived tr) = Some a) ∧
  (cp_main s = Returned → cp_up s = CopyUpDone ∧ cp_down s = CopyDownDone ∧ cp_open s = false).
Proof.
  intros [Hu Hd Hfi Hus _ _ Hc Ho]%copied_inv. split; [by eapply held_skip|]. split; [by eapply held_skip|]. split.
  - intros a Ha. rewrite Forall_forall in Hus. specialize (Hus a Ha). unfold is_first in Hus. by rewrite Hus in Hfi.
  - intros E. rewrite E in Ho. unfold consumed, doneCount in Hc. rewrite E in Hc. destruct (cp_up s), (cp_down s); try lia. done.
Qed.

(** ** What the forwarding loop passes on *)

Definition fwFromTunnel (e : forwardEvent) : option (list Z) := match e with ForwardFromTunnel p => Some p | _ => None end.
Definition fwToProxy (e : forwardEvent) : option (list Z) := match e with ForwardToProxy p => Some p | _ => None end.
Definition fwFromProxy (e : forwardEvent) : option (list Z) := match e with ForwardFromProxy p => Some p | _ => None end.
Definition fwToTunnel (e : forwardEvent) : option (list Z) := match e with ForwardToTunnel p => Some p | _ => None end.
Definition fwHeld (f : forwarder) : list (list Z) := match f with ForwardWrite p => [p] | _ => [] end.
Definition ended (s : forwarding) : Prop := fw_up s = ForwardDone ∨ fw_down s = ForwardDone ∨ fw_monitor s = ForwardDone.
Record forward_inv (tr : list forwardEvent) (s : forwarding) : Prop := {
  fi_up : sublist (fwHeld (fw_up s) ++ omap fwToProxy tr) (omap fwFromTunnel tr);
  fi_down : sublist (fwHeld (fw_down s) ++ omap fwToTunnel tr) (omap fwFromProxy tr);
  fi_once : fw_open s = bool_decide (fw_err s = None);
  fi_ended : ended s → is_Some (fw_err s)
}.
Lemma closeAll_spec s e : let s' := closeAll s e in
  is_Some (fw_err s') ∧ (fw_open s = bool_decide (fw_err s = None) → fw_open s' = false) ∧ fw_up s' = fw_up s ∧ fw_down s' = fw_down s ∧ fw_monitor s' = fw_monitor s.
Proof. unfold closeAll. destruct (fw_err s) eqn:E; cbn; rewrite ?E; split_and!; try done; by eexists. Qed.
Lemma forwarded_inv tr s : forwarded tr s → forward_inv tr s.
Proof.
  induction 1 as [|tr s e s' _ [Hu Hd Ho He] Hstep]; [split; try done; by intros [|[|]]|].
  pose proof (held_skip _ _ _ Hu) as Hu'. pose proof (held_skip _ _ _ Hd) as Hd'. unfold ended in *.
  destruct Hstep as [p E Eo|e E|p E|p E|e E|p E Eo|e E|p E|p e E|e E|e E|e E].
  all: match goal with E : _ = ForwardFail ?e |- _ => destruct (closeAll_spec s e) as ([o Ei] & Ec & E1 & E2 & E3); specialize (Ec Ho) | _ => idtac end.
  all: split; unfold ended; cbn; rewrite ?E1, ?E2, ?E3, ?Ec, ?Ei, ?E in *; try done; try (by apply sublist_skip); try (by eexists); try tauto; try (by naive_solver).
Qed.

(** The forwarding loop, in every interleaving of its three goroutines,
    passes each datagram at most once and in order, in both directions.  A
    goroutine that has ended has closed everything; when all have ended the
    result is that of the first to fail. *)
Theorem forwarding_copy (tr : list forwardEvent) (s : forwarding) :
  forwarded tr s →
  sublist (omap fwToProxy tr) (omap fwFromTunnel tr) ∧ sublist (omap fwToTunnel tr) (omap fwFromProxy tr) ∧
  (ended s → fw_open s = false ∧ is_Some (fw_err s)) ∧
  (∀ e s' ev, forwardStep s ev s' → fw_err s = Some e → fw_err s' = Some e) ∧
  (∀ r, forwardResult s = Some r → is_Some r).
Proof.
  intros [Hu Hd Ho He]%forwarded_inv. split; [by eapply held_skip|]. split; [by eapply held_skip|]. split; [|split].
  - intros H. specialize (He H). rewrite Ho. split; [|done]. destruct He as [o ->]. done.
  - intros e s' ev Hs E. destruct Hs; cbn; unfold closeAll; by rewrite ?E.
  - intros r Hr. unfold forwardResult in Hr. destruct (fw_up s) eqn:E; try done. destruct (fw_down s); try done.
    destruct (fw_monitor s); try done. injection Hr as <-. apply He. by left.
Qed.

Lemma user_copy_witness :
  let tr := [CopyToTunnel [7] [1]; CopyInternal; CopyFromUser [7] [1]] in
  ∃ s, copied tr s ∧ ∀ a, a ∈ omap user tr → snd <$> last (omap upReceived tr) = Some a.
Proof.
  intros tr. set (s1 := newCopying<|cp_up := CopyUpGot [7] [1]|>). set (s2 := s1<|cp_addr := Some [1]|><|cp_up := CopyUpWrite [7] [1]|>).
  pose proof (copied_step _ _ _ s1 copied_start (cu_read newCopying [7] [1] eq_refl eq_refl)) as H1.
  pose proof (copied_step _ _ _ s2 H1 (cu_first s1 _ _ eq_refl eq_refl)) as H2.
  pose proof (copied_step _ _ _ _ H2 (cu_write s2 _ _ eq_refl)) as H3.
  eexists. split; [exact H3|]. exact (proj1 (proj2 (proj2 (user_copy tr _ H3)))).
Defined.
Lemma forwarding_copy_witness :
  ∃ s, forwarded [ForwardInternal; ForwardInternal] s ∧ ended s ∧ fw_open s = false.
Proof.
  set (s1 := newForwarding<|fw_up := ForwardFail (Some EOF)|>).
  pose proof (forwarded_step _ _ _ s1 forwarded_start (fu_read_error newForwarding EOF eq_refl)) as H1.
  pose proof (forwarded_step _ _ _ _ H1 (fu_fail s1 _ eq_refl)) as H2.
  eexists. split; [exact H2|]. assert (ended ((closeAll s1 (Some EOF))<|fw_up := ForwardDone|>)) as He by (by left).
  split; [exact He|]. exact (proj1 (proj1 (proj2 (proj2 (forwarding_copy _ _ H2))) He)).
Defined.
