(* ===== verification/TrafficConfig.v ===== *)
(** * apis/trafficpattern/config.go: from a traffic pattern to the effective one

    The user's pattern is validated; what it leaves open is drawn from hashed
    hints that depend on its seed, or on the host and the version of the program.
    The cache of hints of package rng is explicit state ([gen]).

    Theorems: a pattern is accepted iff it is valid; what the user has set is
    kept, everything else is set to a value in its range that depends on the seed
    alone; every part of the protocol that reads the result accepts it, although
    it may be refused as a pattern itself. *)
From S2P Require Import Prelude Messages LowEntropy GoStd GoNet Ascii Cipher Rng Padding.

#[export] Instance TCPFragment_eta : Settable TCPFragment := λ f, mkTCPFragment (Enable f) (MaxSleepMs f).
#[export] Instance NoncePattern_eta : Settable NoncePattern := λ n,
  mkNoncePattern (NType n) (ApplyToAllUDPPacket n) (MinLen n) (MaxLen n) (CustomHexStrings n).
#[export] Instance PaddingPattern_eta : Settable PaddingPattern := λ p, mkPaddingPattern (MaxMiddlePaddingLen p) (MaxEndPaddingLen p).
#[export] Instance LowEntropyPattern_eta : Settable LowEntropyPattern := λ l, mkLowEntropyPattern (Mode l) (MaskRotation l).
#[export] Instance TrafficPattern_eta : Settable TrafficPattern := λ t,
  mkTrafficPattern (Seed t) (UnlockAll t) (TcpFragment t) (Nonce t) (Padding t) (LowEntropy t).

(** ** Validation *)

(** A field that is not nil and does not satisfy the test. *)
Definition set_and {A} (o : option A) (bad : A → bool) : bool := match o with Some x => bad x | None => false end.

Definition maxPaddingLen : Z := 255.
Definition validateTCPFragment (fragment : option TCPFragment) : result unit :=
  match fragment with
  | None => Ok tt
  | Some f =>
    if set_and (MaxSleepMs f) (λ x, x <? 0) then Err (Errorf "TCPFragment maxSleepMs is negative") else
    if set_and (MaxSleepMs f) (λ x, x >? 100) then Err (Errorf "TCPFragment maxSleepMs exceeds maximum value 100") else
    Ok tt
  end.
Fixpoint validateHexStrings (hexStrings : list string) : result unit :=
  match hexStrings with
  | [] => Ok tt
  | hexStr :: hexStrings =>
    match DecodeString hexStr with
    | None => Err (Errorf "NoncePattern customHexStrings is not a valid hex string")
    | Some decoded =>
      if len decoded >? 12 then Err (Errorf "NoncePattern customHexStrings decoded length exceeds maximum 12 bytes")
      else validateHexStrings hexStrings
    end
  end.
Definition validateNoncePattern (nonce : option NoncePattern) : result unit :=
  match nonce with
  | None => Ok tt
  | Some n =>
    if set_and (MinLen n) (λ x, x <? 0) then Err (Errorf "NoncePattern minLen is negative") else
    if set_and (MinLen n) (λ x, x >? 12) then Err (Errorf "NoncePattern minLen exceeds maximum value 12") else
    if set_and (MaxLen n) (λ x, x <? 0) then Err (Errorf "NoncePattern maxLen is negative") else
    if set_and (MaxLen n) (λ x, x >? 12) then Err (Errorf "NoncePattern maxLen exceeds maximum value 12") else
    if set_and (MinLen n) (λ x, set_and (MaxLen n) (λ y, x >? y)) then Err (Errorf "NoncePattern minLen is greater than maxLen") else
    validateHexStrings (CustomHexStrings n)
  end.
Definition validatePaddingPattern (padding : option PaddingPattern) : result unit :=
  match padding with
  | None => Ok tt
  | Some p =>
    if set_and (MaxMiddlePaddingLen p) (λ x, x <? 0) then Err (Errorf "PaddingPattern maxMiddlePaddingLen is negative") else
    if set_and (MaxMiddlePaddingLen p) (λ x, x >? maxPaddingLen) then Err (Errorf "PaddingPattern maxMiddlePaddingLen exceeds maximum value") else
    if set_and (MaxEndPaddingLen p) (λ x, x <? 0) then Err (Errorf "PaddingPattern maxEndPaddingLen is negative") else
    if set_and (MaxEndPaddingLen p) (λ x, x >? maxPaddingLen) then Err (Errorf "PaddingPattern maxEndPaddingLen exceeds maximum value") else
    Ok tt
  end.
Definition validateLowEntropyPattern (lowEntropy : option LowEntropyPattern) : result unit :=
  match lowEntropy with
  | None => Ok tt
  | Some l =>
    if set_and (Mode l) (λ x, negb (bool_decide (x ∈ LowEntropyMode_name))) then Err (Errorf "LowEntropyPattern mode is invalid") else
    if set_and (MaskRotation l) (λ x, negb (bool_decide (x ∈ LowEntropyMaskRotation_name))) then Err (Errorf "LowEntropyPattern maskRotation is invalid") else
    Ok tt
  end.
Definition Validate (pattern : option TrafficPattern) : result unit :=
  match pattern with
  | None => Ok tt
  | Some _ =>
    _ ← validateTCPFragment (GetTcpFragment pattern);
    _ ← validateNoncePattern (GetNonce pattern);
    _ ← validatePaddingPattern (GetPadding pattern);
    validateLowEntropyPattern (GetLowEntropy pattern)
  end.

(** ** Generation *)

(** The caches of package rng: of hints, and of hints with a version. *)
Record hints := mkHints { fixed : hintCache; fixedV : hintCache }.
(** A computation with the caches. *)
Definition gen (A : Type) : Type := hints → hints * A.
#[export] Instance gen_ret : MRet gen := λ A a h, (h, a).
#[export] Instance gen_bind : MBind gen := λ A B f m h, let '(h, a) := m h in f a h.

(** [fmt.Sprintf("%d:name", seed)] *)
Definition hintOfSeed (seed : Z) (name : string) : list Z := Itoa seed ++ bytes_of_string (":" ++ name).
Definition draw (n seed : Z) (name : string) : gen Z := λ h,
  let '(c, x) := FixedInt (fixed h) n (hintOfSeed seed name) in (mkHints c (fixedV h), x).
Definition s32 (z : Z) : Z := u32 (z + 2 ^ 31) - 2 ^ 31.
(** The value of a field: as it is in the user's pattern, or generated. *)
Definition unless_set {A} (original : option A) (effective : option A) (m : gen A) : gen (option A) :=
  match original with Some _ => mret effective | None => x ← m; mret (Some x) end.

Definition generateTCPFragment (original : TrafficPattern) (seed : Z) (unlockAll : bool) (effective : TrafficPattern) : gen TrafficPattern :=
  let f := default (mkTCPFragment None None) (TcpFragment effective) in
  enable ← unless_set (TcpFragment original ≫= Enable) (Enable f)
    (if unlockAll then x ← draw 2 seed "tcpFragment.enable"; mret (x =? 1) else mret false);
  maxSleepMs ← unless_set (TcpFragment original ≫= MaxSleepMs) (MaxSleepMs f)
    (if unlockAll then x ← draw 100 seed "tcpFragment.maxSleepMs"; mret (s32 (s32 x + 1)) else mret 0);
  mret (effective<|TcpFragment := Some (f<|Enable := enable|><|MaxSleepMs := maxSleepMs|>)|>).

Definition generateNoncePattern (original : TrafficPattern) (seed : Z) (unlockAll : bool) (effective : TrafficPattern) : gen TrafficPattern :=
  let n := default (mkNoncePattern None None None None []) (Nonce effective) in
  type ← unless_set (Nonce original ≫= NType) (NType n)
    (if unlockAll then x ← draw 3 seed "nonce.type"; mret (s32 x) else x ← draw 2 seed "nonce.type"; mret (s32 (x + 1)));
  applyToAll ← unless_set (Nonce original ≫= ApplyToAllUDPPacket) (ApplyToAllUDPPacket n)
    (x ← draw 2 seed "nonce.applyToAllUDPPacket"; mret (x =? 1));
  minLen ← unless_set (Nonce original ≫= MinLen) (MinLen n)
    (if unlockAll then x ← draw 13 seed "nonce.minLen"; mret (s32 x) else x ← draw 7 seed "nonce.minLen"; mret (s32 (s32 x + 6)));
  let n := n<|NType := type|><|ApplyToAllUDPPacket := applyToAll|><|MinLen := minLen|> in
  maxLen ← unless_set (Nonce original ≫= MaxLen) (MaxLen n)
    (let minLen := GetMinLen (Some n) in
     x ← draw (13 - minLen) seed "nonce.maxLen"; mret (s32 (minLen + x)));
  mret (effective<|Nonce := Some (n<|MaxLen := maxLen|>)|>).

Definition generatePaddingPattern (original : TrafficPattern) (seed : Z) (unlockAll : bool) (effective : TrafficPattern) : gen TrafficPattern :=
  let p := default (mkPaddingPattern None None) (Padding effective) in
  middle ← unless_set (Padding original ≫= MaxMiddlePaddingLen) (MaxMiddlePaddingLen p)
    (x ← draw (maxPaddingLen + 1) seed "padding.maxMiddlePaddingLen";
     let maxMiddlePaddingLen := x - 128 in
     mret (s32 (if maxMiddlePaddingLen <=? 0 then 0 else maxMiddlePaddingLen)));
  end_ ← unless_set (Padding original ≫= MaxEndPaddingLen) (MaxEndPaddingLen p)
    (if unlockAll then x ← draw (maxPaddingLen + 1) seed "padding.maxEndPaddingLen"; mret (s32 x) else mret maxPaddingLen);
  mret (effective<|Padding := Some (p<|MaxMiddlePaddingLen := middle|><|MaxEndPaddingLen := end_|>)|>).

Definition generateLowEntropyPattern (original : TrafficPattern) (seed : Z) (unlockAll : bool) (effective : TrafficPattern) : gen TrafficPattern :=
  let l := default (mkLowEntropyPattern None None) (LowEntropy effective) in
  mode ← unless_set (LowEntropy original ≫= Mode) (Mode l)
    (if unlockAll then x ← draw (len LowEntropyMode_name) seed "lowEntropy.mode"; mret (s32 x) else mret LOW_ENTROPY_MODE_OFF);
  rotation ← unless_set (LowEntropy original ≫= MaskRotation) (MaskRotation l)
    (rotationIndex ← draw (len LowEntropyMaskRotation_name) seed "lowEntropy.maskRotation";
     mret (s32 (if rotationIndex <=? 15 then rotationIndex else (rotationIndex - 15) * 16)));
  mret (effective<|LowEntropy := Some (l<|Mode := mode|><|MaskRotation := rotation|>)|>).

Record Config := mkConfig { original : TrafficPattern; effective : TrafficPattern }.

Section config.
Context (appVersion hostName : list Z).

Definition MaxInt32 : Z := 2 ^ 31 - 1.
Definition patternSeed (original : TrafficPattern) : gen Z :=
  match Seed original with
  | Some _ => mret (GetSeed (Some original))
  | None => λ h, let '(c, x) := FixedIntVH appVersion hostName (fixedV h) MaxInt32 in (mkHints (fixed h) c, x)
  end.
Definition generateImplicitTrafficPattern (original effective : TrafficPattern) : gen TrafficPattern :=
  seed ← patternSeed original;
  let unlockAll := GetUnlockAll (Some original) in
  effective ← generateTCPFragment original seed unlockAll effective;
  effective ← generateNoncePattern original seed unlockAll effective;
  effective ← generatePaddingPattern original seed unlockAll effective;
  generateLowEntropyPattern original seed unlockAll effective.

Definition NewConfig (pattern : option TrafficPattern) : gen (result Config) :=
  let original := default (mkTrafficPattern None None None None None None) pattern in
  match Validate (Some original) with
  | Ok _ => effective ← generateImplicitTrafficPattern original original; mret (Ok (mkConfig original effective))
  | Err e => mret (Err (Wrapf "TrafficPattern is invalid" e))
  | Panic m => mret (Panic m)
  end.
End config.

(** ** Valid patterns *)

Definition within (lo hi : Z) (o : option Z) : Prop := from_option (λ x, lo <= x <= hi) True o.
Definition hex_ok (s : string) : Prop := ∃ bs, DecodeString s = Some bs ∧ len bs <= 12.
Record pattern_ok (o : TrafficPattern) : Prop := {
  ok_sleep : within 0 100 (TcpFragment o ≫= MaxSleepMs);
  ok_minLen : within 0 12 (Nonce o ≫= MinLen);
  ok_maxLen : within 0 12 (Nonce o ≫= MaxLen);
  ok_lens : ∀ x y, Nonce o ≫= MinLen = Some x → Nonce o ≫= MaxLen = Some y → x <= y;
  ok_hex : Forall hex_ok (GetCustomHexStrings (Nonce o));
  ok_middle : within 0 255 (Padding o ≫= MaxMiddlePaddingLen);
  ok_end : within 0 255 (Padding o ≫= MaxEndPaddingLen);
  ok_mode : from_option (λ x, x ∈ LowEntropyMode_name) True (LowEntropy o ≫= Mode);
  ok_rotation : from_option (λ x, x ∈ LowEntropyMaskRotation_name) True (LowEntropy o ≫= MaskRotation)
}.

(** Two consecutive tests of a field for a range. *)
Lemma range_tests (o : option Z) lo hi e1 e2 (r : result unit) :
  (if set_and o (λ x, x <? lo) then Err e1 else if set_and o (λ x, x >? hi) then Err e2 else r) = Ok tt ↔
  within lo hi o ∧ r = Ok tt.
Proof.
  destruct o as [x|]; cbn; [|naive_solver]. rewrite Z.gtb_ltb.
  destruct (Z.ltb_spec x lo), (Z.ltb_spec hi x); naive_solver lia.
Qed.
Lemma one_test {A} (o : option A) bad (P : A → Prop) e (r : result unit) :
  (∀ x, o = Some x → bad x = false ↔ P x) →
  (if set_and o bad then Err e else r) = Ok tt ↔ from_option P True o ∧ r = Ok tt.
Proof.
  intros H. destruct o as [x|]; cbn; [|naive_solver]. specialize (H x eq_refl).
  destruct (bad x); [|naive_solver]. split; [done|]. intros [Hp _]. by apply H in Hp.
Qed.
Lemma validateHexStrings_spec l : validateHexStrings l = Ok tt ↔ Forall hex_ok l.
Proof.
  induction l as [|s l IH]; cbn; [by split|]. rewrite Forall_cons, <-IH. unfold hex_ok.
  destruct (DecodeString s) as [bs|]; [|naive_solver]. rewrite Z.gtb_ltb. destruct (Z.ltb_spec 12 (len bs)); naive_solver lia.
Qed.
Lemma bind_unit (r : result unit) (k : result unit) : (_ ← r; k) = Ok tt ↔ r = Ok tt ∧ k = Ok tt.
Proof. destruct r as [[]|?|?]; cbn; naive_solver. Qed.

Lemma Validate_spec o : Validate (Some o) = Ok tt ↔ pattern_ok o.
Proof.
  unfold Validate. rewrite !bind_unit. unfold GetTcpFragment, GetNonce, GetPadding, GetLowEntropy. cbn [mbind option_bind].
  assert (validateTCPFragment (TcpFragment o) = Ok tt ↔ within 0 100 (TcpFragment o ≫= MaxSleepMs)) as ->.
  { unfold validateTCPFragment. destruct (TcpFragment o) as [f|]; [|done]. rewrite range_tests. cbn. naive_solver. }
  assert (validatePaddingPattern (Padding o) = Ok tt ↔
    within 0 255 (Padding o ≫= MaxMiddlePaddingLen) ∧ within 0 255 (Padding o ≫= MaxEndPaddingLen)) as ->.
  { unfold validatePaddingPattern, maxPaddingLen. destruct (Padding o) as [f|]; [|done]. rewrite !range_tests. cbn. naive_solver. }
  assert (validateLowEntropyPattern (LowEntropy o) = Ok tt ↔
    from_option (λ x, x ∈ LowEntropyMode_name) True (LowEntropy o ≫= Mode) ∧
    from_option (λ x, x ∈ LowEntropyMaskRotation_name) True (LowEntropy o ≫= MaskRotation)) as ->.
  { unfold validateLowEntropyPattern. destruct (LowEntropy o) as [f|]; [|done]. cbn [mbind option_bind].
    rewrite (one_test _ _ (λ x, x ∈ LowEntropyMode_name)), (one_test _ _ (λ x, x ∈ LowEntropyMaskRotation_name));
      [naive_solver|intros x _; by rewrite negb_false_iff, bool_decide_eq_true..]. }
  assert (validateNoncePattern (Nonce o) = Ok tt ↔
    within 0 12 (Nonce o ≫= MinLen) ∧ within 0 12 (Nonce o ≫= MaxLen) ∧
    (∀ x y, Nonce o ≫= MinLen = Some x → Nonce o ≫= MaxLen = Some y → x <= y) ∧ Forall hex_ok (GetCustomHexStrings (Nonce o))) as ->.
  { unfold validateNoncePattern. destruct (Nonce o) as [n|]; [|cbn; naive_solver]. rewrite !range_tests.
    rewrite (one_test _ _ (λ x, ∀ y, MaxLen n = Some y → x <= y)).
    - rewrite validateHexStrings_spec. cbn. destruct (MinLen n); cbn; naive_solver.
    - intros x _. destruct (MaxLen n) as [y|]; cbn; [|naive_solver]. rewrite Z.gtb_ltb, Z.ltb_ge. naive_solver. }
  split; [intros (H1 & (H2 & H3 & H4 & H5) & (H6 & H7) & H8 & H9); by split|intros []; naive_solver].
Qed.
Lemma Validate_total o : Validate (Some o) = Ok tt ∨ is_Err (Validate (Some o)).
Proof.
  assert (∀ l, validateHexStrings l = Ok tt ∨ is_Err (validateHexStrings l)) as Hh.
  { induction l as [|s l IH]; cbn; [by left|]. destruct (DecodeString s); [|right; by eexists]. case_match; [right; by eexists|done]. }
  assert (∀ r k : result unit, r = Ok tt ∨ is_Err r → k = Ok tt ∨ is_Err k → (_ ← r; k) = Ok tt ∨ is_Err (_ ← r; k)) as Hb.
  { intros r k [->|[e ->]]; [by rewrite bind_Ok|]. right. by eexists. }
  unfold Validate. repeat apply Hb.
  - unfold validateTCPFragment. repeat case_match; auto; right; by eexists.
  - unfold validateNoncePattern. destruct (GetNonce _) as [n|]; [|by left]. repeat (case_match; [right; by eexists|]). apply Hh.
  - unfold validatePaddingPattern. repeat case_match; auto; right; by eexists.
  - unfold validateLowEntropyPattern. repeat case_match; auto; right; by eexists.
Qed.

(** ** The effective pattern *)

(** Both caches hold the values of their hints. *)
Definition hints_ok (ver : list Z) (h : hints) : Prop := cache_of (λ h, h) (fixed h) ∧ cache_of (versioned ver) (fixedV h).
(** What is drawn for a seed, whatever was drawn before. *)
Definition pick (n seed : Z) (name : string) : Z := hintValue (hintOfSeed seed name) mod n.

Definition effectivePattern (seed : Z) (o : TrafficPattern) : TrafficPattern :=
  let u := GetUnlockAll (Some o) in
  let minLen := default (if u then pick 13 seed "nonce.minLen" else pick 7 seed "nonce.minLen" + 6) (Nonce o ≫= MinLen) in
  let rotation := pick 31 seed "lowEntropy.maskRotation" in
  mkTrafficPattern (Seed o) (UnlockAll o)
    (Some (mkTCPFragment
      (Some (default (u && (pick 2 seed "tcpFragment.enable" =? 1)) (TcpFragment o ≫= Enable)))
      (Some (default (if u then pick 100 seed "tcpFragment.maxSleepMs" + 1 else 0) (TcpFragment o ≫= MaxSleepMs)))))
    (Some (mkNoncePattern
      (Some (default (if u then pick 3 seed "nonce.type" else pick 2 seed "nonce.type" + 1) (Nonce o ≫= NType)))
      (Some (default (pick 2 seed "nonce.applyToAllUDPPacket" =? 1) (Nonce o ≫= ApplyToAllUDPPacket)))
      (Some minLen)
      (Some (default (minLen + pick (13 - minLen) seed "nonce.maxLen") (Nonce o ≫= MaxLen)))
      (GetCustomHexStrings (Nonce o))))
    (Some (mkPaddingPattern
      (Some (default (Z.max 0 (pick 256 seed "padding.maxMiddlePaddingLen" - 128)) (Padding o ≫= MaxMiddlePaddingLen)))
      (Some (default (if u then pick 256 seed "padding.maxEndPaddingLen" else 255) (Padding o ≫= MaxEndPaddingLen)))))
    (Some (mkLowEntropyPattern
      (Some (default (if u then pick 5 seed "lowEntropy.mode" else LOW_ENTROPY_MODE_OFF) (LowEntropy o ≫= Mode)))
      (Some (default (if rotation <=? 15 then rotation else (rotation - 15) * 16) (LowEntropy o ≫= MaskRotation))))).

Lemma pick_range n seed name : 0 < n → 0 <= pick n seed name < n.
Proof. intros. by apply Z.mod_pos_bound. Qed.
Lemma s32_id z : - 2 ^ 31 <= z < 2 ^ 31 → s32 z = z.
Proof. intros. unfold s32. rewrite wrap_id; [lia|]. split; lia. Qed.

(** A field of the user's pattern that is set is set in the effective one. *)
Ltac same_field := match goal with |- context [_ <$> ?o] => destruct o | |- context [?o ≫= _] => destruct o end; [done|intros ? [=]].
Ltac pick_bounds := repeat match goal with |- context [pick ?n ?s ?name] =>
  lazymatch goal with _ : 0 <= pick n s name < n |- _ => fail | _ => pose proof (pick_range n s name ltac:(lia)) end end.
Ltac s32s := repeat rewrite (s32_id (pick _ _ _)) by lia; rewrite ?s32_id by lia.

Section gives.
Context (ver : list Z).

(** A computation that gives [a] in every good state of the caches. *)
Definition gives {A} (m : gen A) (a : A) : Prop := ∀ h, hints_ok ver h → ∃ h', m h = (h', a) ∧ hints_ok ver h'.
Lemma gives_ret {A} (a : A) : gives (mret a) a.
Proof. intros h Hh. by exists h. Qed.
Lemma gives_bind {A B} (m : gen A) (f : A → gen B) a b : gives m a → gives (f a) b → gives (m ≫= f) b.
Proof.
  intros Hm Hf h Hh. destruct (Hm h Hh) as (h1 & E1 & H1). destruct (Hf h1 H1) as (h2 & E2 & H2).
  exists h2. split; [|done]. unfold mbind, gen_bind. by rewrite E1.
Qed.
Lemma gives_draw n seed name : 0 < n → gives (draw n seed name) (pick n seed name).
Proof.
  intros Hn h [Hh Hv]. unfold draw. destruct (FixedInt_spec (fixed h) n (hintOfSeed seed name) Hh Hn) as [E Hc].
  destruct (FixedInt _ _ _) as [c x]. cbn in *. subst x. eexists. split; [done|]. by split.
Qed.
Lemma gives_unless {A} (o e : option A) (m : gen A) a :
  (∀ x, o = Some x → e = Some x) → gives m a → gives (unless_set o e m) (Some (default a o)).
Proof.
  intros He Hm. destruct o as [x|]; cbn.
  - rewrite (He x eq_refl). apply gives_ret.
  - eapply gives_bind; [exact Hm|]. apply gives_ret.
Qed.
(** A draw whose value is worked on. *)
Lemma gives_map {B} n seed name (f : Z → B) b : 0 < n → f (pick n seed name) = b → gives (x ← draw n seed name; mret (f x)) b.
Proof. intros Hn <-. eapply gives_bind; [by apply gives_draw|]. apply gives_ret. Qed.
Lemma gives_if {A} (b : bool) (m1 m2 : gen A) a1 a2 : gives m1 a1 → gives m2 a2 → gives (if b then m1 else m2) (if b then a1 else a2).
Proof. by destruct b. Qed.

(** A generated number that fits its type. *)
Ltac drawn := apply gives_map; [lia|pick_bounds; s32s; reflexivity].
Section generate.
Context (o : TrafficPattern) (seed : Z).
Local Abbreviation u := (GetUnlockAll (Some o)).

Lemma generateTCPFragment_gives e :
  TcpFragment e = TcpFragment o →
  gives (generateTCPFragment o seed u e) (e<|TcpFragment := TcpFragment (effectivePattern seed o)|>).
Proof.
  intros He. unfold generateTCPFragment. rewrite He.
  eapply gives_bind; [apply gives_unless; [same_field|]|eapply gives_bind; [apply gives_unless; [same_field|]|]].
  - apply (gives_if u); [by apply gives_map|apply gives_ret].
  - apply (gives_if u); [|apply gives_ret]. drawn.
  - cbn. destruct (TcpFragment o) as [[]|], u; apply gives_ret.
Qed.

Lemma generatePaddingPattern_gives e :
  Padding e = Padding o →
  gives (generatePaddingPattern o seed u e) (e<|Padding := Padding (effectivePattern seed o)|>).
Proof.
  intros He. unfold generatePaddingPattern, maxPaddingLen. rewrite He.
  eapply gives_bind; [apply gives_unless; [same_field|]|eapply gives_bind; [apply gives_unless; [same_field|]|]].
  - eapply (gives_map 256); [done|]. instantiate (1 := Z.max 0 (pick 256 seed "padding.maxMiddlePaddingLen" - 128)).
    pick_bounds. cbv beta. destruct (Z.leb_spec (pick 256 seed "padding.maxMiddlePaddingLen" - 128) 0); rewrite s32_id; lia.
  - apply (gives_if u); [|apply gives_ret]. drawn.
  - cbn. destruct (Padding o) as [[]|], u; apply gives_ret.
Qed.

Lemma generateLowEntropyPattern_gives e :
  LowEntropy e = LowEntropy o →
  gives (generateLowEntropyPattern o seed u e) (e<|LowEntropy := LowEntropy (effectivePattern seed o)|>).
Proof.
  intros He. unfold generateLowEntropyPattern. rewrite He.
  eapply gives_bind; [apply gives_unless; [same_field|]|eapply gives_bind; [apply gives_unless; [same_field|]|]].
  - apply (gives_if u); [|apply gives_ret]. change (len LowEntropyMode_name) with 5. drawn.
  - change (len LowEntropyMaskRotation_name) with 31.
    eapply (gives_map 31); [done|]. instantiate (1 := let rotation := pick 31 seed "lowEntropy.maskRotation" in
      if rotation <=? 15 then rotation else (rotation - 15) * 16).
    pick_bounds. cbv beta zeta. case_match; rewrite s32_id; lia.
  - cbn. destruct (LowEntropy o) as [[]|], u; apply gives_ret.
Qed.

Lemma generateNoncePattern_gives e :
  within 0 12 (Nonce o ≫= MinLen) → Nonce e = Nonce o →
  gives (generateNoncePattern o seed u e) (e<|Nonce := Nonce (effectivePattern seed o)|>).
Proof.
  intros Hmin He. unfold generateNoncePattern. rewrite He.
  eapply gives_bind; [apply gives_unless; [same_field|]|eapply gives_bind; [apply gives_unless; [same_field|]|
    eapply gives_bind; [apply gives_unless; [same_field|]|eapply gives_bind; [apply gives_unless; [same_field|]|]]]].
  - apply (gives_if u); drawn.
  - by apply gives_map.
  - apply (gives_if u); drawn.
  - cbn. match goal with |- context [13 - ?m] => assert (0 <= m <= 12) end.
    { destruct (Nonce o ≫= MinLen); cbn in *; [done|]. pick_bounds. case_match; lia. }
    drawn.
  - cbn. destruct (Nonce o) as [[]|], u; apply gives_ret.
Qed.
End generate.

(** The seed: the user's, or one of the host and the version. *)
Definition seedOf (hostName : list Z) (o : TrafficPattern) : Z :=
  default (hintValue (versioned ver hostName) mod MaxInt32) (Seed o).

Lemma patternSeed_gives hostName o : gives (patternSeed ver hostName o) (seedOf hostName o).
Proof using Type.
  unfold patternSeed, seedOf, GetSeed. cbn. destruct (Seed o) as [s|]; [apply gives_ret|].
  intros h [Hf Hv]. unfold FixedIntVH. destruct (FixedIntV_spec ver (fixedV h) MaxInt32 hostName Hv ltac:(done)) as [E Hc].
  destruct (FixedIntV _ _ _ _) as [c x]. cbn in *. subst x. eexists. split; [done|]. by split.
Qed.

Lemma generate_gives hostName o :
  pattern_ok o → gives (generateImplicitTrafficPattern ver hostName o o) (effectivePattern (seedOf hostName o) o).
Proof using Type.
  intros Ho. unfold generateImplicitTrafficPattern.
  eapply gives_bind; [apply patternSeed_gives|]. cbv zeta.
  eapply gives_bind; [by apply generateTCPFragment_gives|].
  eapply gives_bind; [by apply generateNoncePattern_gives; [apply Ho|]|].
  eapply gives_bind; [by apply generatePaddingPattern_gives|].
  by apply generateLowEntropyPattern_gives.
Qed.
End gives.

(** ** The effective pattern is in range *)

(** A number below the number of names is a name, or counts the rotations. *)
Lemma mode_name k : 0 <= k < 5 → k ∈ LowEntropyMode_name.
Proof. intros. assert (k = 0 ∨ k = 1 ∨ k = 2 ∨ k = 3 ∨ k = 4) by lia. unfold LowEntropyMode_name. set_solver. Qed.
Lemma rotation_name k : 0 <= k < 31 → (if k <=? 15 then k else (k - 15) * 16) ∈ LowEntropyMaskRotation_name.
Proof.
  intros. unfold LowEntropyMaskRotation_name. rewrite elem_of_app, elem_of_seqZ, list_elem_of_fmap.
  destruct (Z.leb_spec k 15); [left; lia|right]. exists (k - 15). rewrite elem_of_seqZ. lia.
Qed.
Lemma rotation_valid k : k ∈ LowEntropyMaskRotation_name ↔ isValidLowEntropyRotation k = true.
Proof.
  unfold LowEntropyMaskRotation_name, isValidLowEntropyRotation, LOW_ENTROPY_MASK_NO_ROTATION, LOW_ENTROPY_MASK_ROTATE_RIGHT_1,
    LOW_ENTROPY_MASK_ROTATE_RIGHT_15, LOW_ENTROPY_MASK_ROTATE_LEFT_1, LOW_ENTROPY_MASK_ROTATE_LEFT_15.
  rewrite elem_of_app, elem_of_seqZ, list_elem_of_fmap, !orb_true_iff, !andb_true_iff, !Z.eqb_eq, !Z.geb_le, !Z.leb_le. split.
  - intros [H|(y & -> & Hy%elem_of_seqZ)]; [lia|]. right. split; [lia|]. rewrite Z.rem_mod_nonneg by lia. by rewrite Z.mul_comm, Z.mod_mul.
  - intros [H|[H Hr]]; [left; lia|]. right. exists (k `quot` 16). rewrite elem_of_seqZ.
    pose proof (Z.quot_rem' k 16). lia.
Qed.

Section effective.
Context (seed : Z) (o : TrafficPattern) (Ho : pattern_ok o).
Local Abbreviation e := (effectivePattern seed o).

Lemma effective_sleep : 0 <= GetMaxSleepMs (TcpFragment e) <= 100.
Proof using Ho.
  destruct Ho as [H _ _ _ _ _ _ _ _]. cbn -[pick GetUnlockAll]. destruct (TcpFragment o ≫= MaxSleepMs); [done|].
  cbn -[pick GetUnlockAll]. pick_bounds. case_match; lia.
Qed.
Lemma effective_minLen : 0 <= GetMinLen (Nonce e) <= 12.
Proof using Ho.
  destruct Ho as [_ H _ _ _ _ _ _ _]. cbn -[pick GetUnlockAll]. destruct (Nonce o ≫= MinLen); [done|].
  cbn -[pick GetUnlockAll]. pick_bounds. case_match; lia.
Qed.
Lemma effective_maxLen : 0 <= GetMaxLen (Nonce e) <= 12.
Proof using Ho.
  pose proof effective_minLen as H0. destruct Ho as [_ _ H _ _ _ _ _ _]. cbn -[pick GetUnlockAll] in *.
  destruct (Nonce o ≫= MaxLen); [done|]. cbn -[pick GetUnlockAll]. pick_bounds. lia.
Qed.
Lemma effective_paddings :
  0 <= GetMaxMiddlePaddingLen (Padding e) <= 255 ∧ 0 <= GetMaxEndPaddingLen (Padding e) <= 255.
Proof using Ho.
  destruct Ho as [_ _ _ _ _ H1 H2 _ _]. cbn -[pick GetUnlockAll]. split.
  - destruct (Padding o ≫= MaxMiddlePaddingLen); [done|]. cbn -[pick GetUnlockAll]. pick_bounds. lia.
  - destruct (Padding o ≫= MaxEndPaddingLen); [done|]. cbn -[pick GetUnlockAll]. pick_bounds. case_match; lia.
Qed.

Lemma effective_low_entropy :
  GetMode (LowEntropy e) ∈ LowEntropyMode_name ∧ GetMaskRotation (LowEntropy e) ∈ LowEntropyMaskRotation_name.
Proof using Ho.
  destruct Ho as [_ _ _ _ _ _ _ H1 H2]. cbn -[pick GetUnlockAll LowEntropyMode_name LowEntropyMaskRotation_name]. split.
  - destruct (LowEntropy o ≫= Mode); [done|]. cbn -[pick GetUnlockAll LowEntropyMode_name]. pick_bounds. apply mode_name.
    case_match; [lia|done].
  - destruct (LowEntropy o ≫= MaskRotation); [done|]. cbn -[pick GetUnlockAll LowEntropyMaskRotation_name].
    apply rotation_name. by apply pick_range.
Qed.

(** As a pattern it is valid but for the order of its lengths. *)
Lemma effective_valid : Validate (Some e) = Ok tt ↔ GetMinLen (Nonce e) <= GetMaxLen (Nonce e).
Proof using Ho.
  rewrite Validate_spec.
  pose proof effective_sleep as H1. pose proof effective_minLen as H2. pose proof effective_maxLen as H3.
  destruct effective_paddings as [H4 H5], effective_low_entropy as [H6 H7].
  unfold GetMaxSleepMs, GetMinLen, GetMaxLen, GetMaxMiddlePaddingLen, GetMaxEndPaddingLen, GetMode, GetMaskRotation in *.
  split.
  - intros [_ _ _ Hl _ _ _ _ _]. by apply Hl.
  - intros Hl. split; try done; [|apply Ho].
    intros x y [= <-] [= <-]. exact Hl.
Qed.
End effective.

(** ** The nonces made with an effective pattern *)

(** The random sources answer as they are asked: a full nonce, numbers below
    the bounds, and enough batches whose first draw is not thrown away. *)
Record nonceDraws_ok (c : aeadBlockCipher) (nd : nonceDraws) (bs : list Z) : Prop := {
  nok_bytes : nd_bytes nd = Some bs ∧ len bs = DefaultNonceSize;
  nok_batches : Forall (λ randBuf, bytes_ok randBuf ∧ Ascii.draw randBuf 0 < printableUint16Limit) (nd_batches nd) ∧ (12 <= length (nd_batches nd))%nat;
  nok_rewrite : 0 <= nd_rewrite nd <= GetMaxLen (noncePattern c) - Z.min (GetMinLen (noncePattern c)) (GetMaxLen (noncePattern c));
  nok_hex : (nd_hexIdx nd < Nat.max 1 (length (GetCustomHexStrings (noncePattern c))))%nat
}.
(** What the cipher needs to know of its pattern. *)
Record nonce_ok (p : option NoncePattern) : Prop := {
  nonce_minLen : 0 <= GetMinLen p <= 12;
  nonce_maxLen : 0 <= GetMaxLen p <= 12;
  nonce_hex : Forall hex_ok (GetCustomHexStrings p)
}.

Section nonce.
Context (c : aeadBlockCipher) (nd : nonceDraws) (bs : list Z).
Context (Hp : nonce_ok (noncePattern c)) (Hd : nonceDraws_ok c nd bs).

Lemma nonceRewriteLen_range : 0 <= nonceRewriteLen c nd <= 12.
Proof using Hp Hd.
  destruct Hp as [H1 H2 _], Hd as [_ _ H3 _]. unfold nonceRewriteLen, NonceSize, DefaultNonceSize.
  rewrite !Z.gtb_ltb. destruct (Z.ltb_spec 24 (GetMaxLen (noncePattern c))); [lia|].
  destruct (Z.ltb_spec (GetMaxLen (noncePattern c)) (GetMinLen (noncePattern c))); case_match; lia.
Qed.

(** Nothing behind the first twelve bytes changes. *)
Definition prefix_changed (nonce : list Z) : Prop := length nonce = length bs ∧ drop 12 nonce = drop 12 bs.

Lemma outside_prefix_changed (n : nat) (nonce : list Z) :
  (n <= 12)%nat → length nonce = length bs → (∀ i, (i < 0 ∨ n <= i)%nat → nonce !! i = bs !! i) → prefix_changed nonce.
Proof using Type.
  intros Hn Hl Ho. split; [done|]. apply list_eq. intros i. rewrite !lookup_drop. apply Ho. lia.
Qed.

Lemma newNonceTo_usable : ∃ c' nonce, newNonceTo c nd (NonceSize c) = Ok (c', nonce) ∧ prefix_changed nonce.
Proof using Hp Hd.
  pose proof nonceRewriteLen_range as Hr. destruct Hp as [_ _ Hh], Hd as [[Hb Hl] [Hba Hbl] _ Hi].
  assert (length bs = 24%nat) as Hlb by (unfold len, DefaultNonceSize in Hl; lia).
  unfold newNonceTo. rewrite Z.ltb_irrefl, Hb. destruct (noncePattern c) as [pat|] eqn:Ep; [|by eexists _, bs].
  destruct (_ && _ && _); [by eexists _, bs|].
  set (r := if _ =? NONCE_TYPE_PRINTABLE then _ else _).
  assert (∃ nonce, r = Ok nonce ∧ prefix_changed nonce) as (nonce & -> & Hc); [|rewrite bind_Ok; by eexists _, nonce].
  subst r. unfold rewritePrefix. destruct (Z.ltb_spec (nonceRewriteLen c nd) 0); [lia|].
  destruct (_ =? NONCE_TYPE_PRINTABLE).
  { destruct (ToPrintableChar_spec (nd_batches nd) bs 0 (Z.to_nat (nonceRewriteLen c nd))) as (b' & E & Hlen & Ho & _); [lia|apply Hba|lia|].
    exists b'. split; [done|]. eapply outside_prefix_changed; [|done..]. lia. }
  destruct (_ =? NONCE_TYPE_PRINTABLE_SUBSET).
  { unfold ToCommon64Set. destruct (Nat.ltb_spec (Z.to_nat (nonceRewriteLen c nd)) 0); [lia|].
    destruct (Nat.ltb_spec (length bs) (Z.to_nat (nonceRewriteLen c nd))); [lia|]. eexists. split; [done|].
    destruct (common64Loop_spec (Z.to_nat (nonceRewriteLen c nd) - 0) 0 bs) as [Hc1 Hc2]; [lia|].
    apply (outside_prefix_changed (Z.to_nat (nonceRewriteLen c nd))); [|done|intros i Hi'; apply Hc2; lia]. lia. }
  destruct (_ =? NONCE_TYPE_FIXED); [|by eexists].
  destruct (Z.gtb_spec (len (GetCustomHexStrings (Some pat))) 0) as [Hn|]; [|by eexists].
  set (hs := GetCustomHexStrings (Some pat)) in *.
  destruct (lookup_lt_is_Some_2 hs (nd_hexIdx nd)) as [s Es]; [unfold len in Hn; lia|].
  rewrite (nth_lookup_Some _ _ _ _ Es). rewrite Forall_lookup in Hh. destruct (Hh _ _ Es) as (dec & Ed & Hdl). rewrite Ed.
  eexists. split; [done|]. unfold NonceSize, DefaultNonceSize. destruct (Z.gtb_spec (len dec) 24); [lia|].
  rewrite slice_to_all by lia. split; [apply length_copy_at; lia|]. unfold copy_at. change (take 0 bs) with (@nil Z). cbn [app].
  replace (Nat.min (length dec) (length bs - 0)) with (length dec) by (unfold len in Hdl; lia).
  rewrite drop_app_ge by (rewrite length_take; unfold len in Hdl; lia). rewrite drop_drop, length_take. f_equal.
  unfold len in Hdl. lia.
Qed.
End nonce.

(** Nothing cached yet. *)
Lemma no_hints_ok ver : hints_ok ver (mkHints ∅ ∅).
Proof. split; intros hint v; cbn; by rewrite lookup_empty. Qed.
Lemma NewConfig_valid ver hostName o h :
  hints_ok ver h → pattern_ok o →
  ∃ h', hints_ok ver h' ∧ NewConfig ver hostName (Some o) h = (h', Ok (mkConfig o (effectivePattern (seedOf ver hostName o) o))).
Proof.
  intros Hh Ho. destruct (generate_gives ver hostName o Ho h Hh) as (h' & Eg & Hh'). exists h'. split; [done|].
  apply Validate_spec in Ho. unfold NewConfig. change (default _ (Some o)) with o. rewrite Ho. unfold mbind, gen_bind. by rewrite Eg.
Qed.
(** An accepted pattern, and what is made of it. *)
Lemma NewConfig_inv ver hostName pattern h h' cfg :
  hints_ok ver h → NewConfig ver hostName pattern h = (h', Ok cfg) →
  let o := default (mkTrafficPattern None None None None None None) pattern in
  pattern_ok o ∧ cfg = mkConfig o (effectivePattern (seedOf ver hostName o) o).
Proof.
  intros Hh Hc o. unfold NewConfig in Hc. fold o in Hc.
  destruct (Validate_total o) as [E|[err E]]; rewrite E in Hc; [|done]. apply Validate_spec in E.
  destruct (generate_gives ver hostName o E h Hh) as (h1 & Eg & _). unfold mbind, gen_bind in Hc. rewrite Eg in Hc.
  by injection Hc as _ <-.
Qed.

(** ** Properties *)

(** A pattern is accepted iff every value that it sets is in its range and
    the lengths of nonces are in order, and then the configuration holds it and
    the effective pattern: what the user has set, and else a value drawn for the
    seed (the user's, or one of the host and the version), whatever was drawn
    before.  Otherwise there is an error and nothing is drawn. *)
Theorem new_config_spec (ver hostName : list Z) (pattern : option TrafficPattern) (h : hints) :
  hints_ok ver h →
  let o := default (mkTrafficPattern None None None None None None) pattern in
  ∃ h', hints_ok ver h' ∧
    ((pattern_ok o ∧ NewConfig ver hostName pattern h = (h', Ok (mkConfig o (effectivePattern (seedOf ver hostName o) o)))) ∨
     (¬ pattern_ok o ∧ h' = h ∧ ∃ err, NewConfig ver hostName pattern h = (h', Err err))).
Proof.
  intros Hh o. destruct (Validate_total o) as [E|[err E]].
  - apply Validate_spec in E. destruct (NewConfig_valid ver hostName o h Hh E) as (h' & Hh' & Eg).
    exists h'. split; [done|]. left. split; [done|]. by destruct pattern.
  - unfold NewConfig. fold o. rewrite E. exists h. split; [done|]. right. split_and!; [|done|by eexists]. rewrite <-Validate_spec, E. done.
Qed.
Lemma new_config_spec_witness :
  ∃ h', hints_ok [] h' ∧
    ((pattern_ok (mkTrafficPattern (Some 7) None None None None None) ∧
      NewConfig [] [] (Some (mkTrafficPattern (Some 7) None None None None None)) (mkHints ∅ ∅) =
        (h', Ok (mkConfig (mkTrafficPattern (Some 7) None None None None None)
                   (effectivePattern 7 (mkTrafficPattern (Some 7) None None None None None))))) ∨
     (¬ pattern_ok (mkTrafficPattern (Some 7) None None None None None) ∧ h' = mkHints ∅ ∅ ∧
      ∃ err, NewConfig [] [] (Some (mkTrafficPattern (Some 7) None None None None None)) (mkHints ∅ ∅) = (h', Err err))).
Proof.
  apply (new_config_spec [] [] (Some (mkTrafficPattern (Some 7) None None None None None)) (mkHints ∅ ∅)). apply no_hints_ok.
Defined.

(** C26. What the protocol reads of the effective pattern it can use: a nonce is
    always made, and differs from the random one in its first twelve bytes at
    most, so that user hints are never overwritten; a low entropy mode that is
    on has a half mask that its receiver accepts; the paddings and the sleeping
    time are in their ranges. *)
Theorem effective_pattern_usable (ver hostName : list Z) (pattern : option TrafficPattern) (h h' : hints) (cfg : Config)
    (c : aeadBlockCipher) (nd : nonceDraws) (bs : list Z) (maskDraws : nat → Z) :
  hints_ok ver h → NewConfig ver hostName pattern h = (h', Ok cfg) →
  let e := effective cfg in
  nonceDraws_ok (SetNoncePattern (Nonce e) c) nd bs → draws_in_range maskDraws →
  (∃ c' nonce, newNonce (SetNoncePattern (Nonce e) c) nd = Ok (c', nonce) ∧ length nonce = length bs ∧ drop 12 nonce = drop 12 bs) ∧
  (∀ mode rotation, extractLowEntropyConfig (Some e) = (mode, rotation, true) →
     ∃ params m, newLowEntropyHalfMask maskDraws mode = Ok m ∧ validateLowEntropyCodecParams mode m rotation = Ok params) ∧
  0 <= GetMaxMiddlePaddingLen (Padding e) <= 255 ∧ 0 <= GetMaxEndPaddingLen (Padding e) <= 255 ∧
  0 <= GetMaxSleepMs (TcpFragment e) <= 100.
Proof.
  intros Hh Hc e Hd Hm. destruct (NewConfig_inv _ _ _ _ _ _ Hh Hc) as [E ->]. set (o := default _ pattern) in *. set (seed := seedOf ver hostName o) in *.
  assert (nonce_ok (Nonce e)) as Hn.
  { split; [by apply (effective_minLen seed o)|by apply (effective_maxLen seed o)|apply E]. }
  destruct (effective_paddings seed o E). split; [|split; [|split; [done|split; [done|by apply effective_sleep]]]].
  - destruct (newNonceTo_usable (SetNoncePattern (Nonce e) c) nd bs Hn Hd) as (c' & nonce & H1 & H2 & H3). by exists c', nonce.
  - intros mode rotation. destruct (effective_low_entropy seed o E) as [Hmode Hrot].
    unfold extractLowEntropyConfig. cbn [e mbind option_bind].
    change (LowEntropy e) with (LowEntropy (effectivePattern seed o)). 
    destruct (LowEntropy (effectivePattern seed o)) as [le|]; [|done].
    destruct (Z.eqb_spec (GetMode (Some le)) LOW_ENTROPY_MODE_OFF) as [|Hoff]; [done|]. intros [= <- <-].
    apply rotation_valid in Hrot. pose proof (newLowEntropyHalfMask_spec maskDraws (GetMode (Some le)) _ Hm Hrot) as Hs.
    assert (is_Ok (buildLowEntropyParams (GetMode (Some le)))) as [params Hb].
    { revert Hmode Hoff. generalize (GetMode (Some le)) as k. intros k. unfold LowEntropyMode_name. rewrite !elem_of_cons, elem_of_nil.
      intros [->|[->|[->|[->|[->|[]]]]]] Hoff; try done; by eexists. }
    rewrite Hb in Hs. destruct Hs as (m & H1 & _ & H2). by exists params, m.
Qed.

(** A fixed nonce, and low entropy on. *)
Definition example_pattern : TrafficPattern :=
  mkTrafficPattern (Some 7) (Some true) None (Some (mkNoncePattern (Some NONCE_TYPE_FIXED) None None None ["00ff"%string])) None
    (Some (mkLowEntropyPattern (Some LOW_ENTROPY_MODE_40) None)).
Lemma example_pattern_ok : pattern_ok example_pattern.
Proof. by apply Validate_spec. Qed.
Definition example_nonceDraws : nonceDraws := mkDraws (Some (seqZ 100 24)) (replicate 12 [0; 0]) 0 0.
Lemma effective_pattern_usable_witness :
  ∃ h' cfg, NewConfig [] [] (Some example_pattern) (mkHints ∅ ∅) = (h', Ok cfg) ∧
    let e := effective cfg in
    (∃ c' nonce, newNonce (SetNoncePattern (Nonce e) example_cipher) example_nonceDraws = Ok (c', nonce) ∧ length nonce = 24%nat ∧ drop 12 nonce = seqZ 112 12) ∧
    (∀ mode rotation, extractLowEntropyConfig (Some e) = (mode, rotation, true) →
       ∃ params m, newLowEntropyHalfMask (λ _, 0) mode = Ok m ∧ validateLowEntropyCodecParams mode m rotation = Ok params) ∧
    0 <= GetMaxMiddlePaddingLen (Padding e) <= 255 ∧ 0 <= GetMaxEndPaddingLen (Padding e) <= 255 ∧
    0 <= GetMaxSleepMs (TcpFragment e) <= 100.
Proof.
  destruct (NewConfig_valid [] [] example_pattern (mkHints ∅ ∅) (no_hints_ok []) example_pattern_ok) as (h' & _ & E).
  exists h', (mkConfig example_pattern (effectivePattern (seedOf [] [] example_pattern) example_pattern)). split; [exact E|].
  apply (effective_pattern_usable [] [] (Some example_pattern) (mkHints ∅ ∅) h' _ example_cipher example_nonceDraws (seqZ 100 24) (λ _, 0)
    (no_hints_ok []) E).
  - split; [by split| | |].
    + split; [|done]. repeat constructor; vm_compute; congruence.
    + pose proof (effective_maxLen 7 example_pattern example_pattern_ok). pose proof (effective_minLen 7 example_pattern example_pattern_ok).
      change (noncePattern _) with (Nonce (effectivePattern 7 example_pattern)). cbn [nd_rewrite example_nonceDraws]. lia.
    + cbn. lia.
  - intros i Hi. lia.
Defined.

(** C27. The effective pattern is itself a valid pattern exactly when the user
    has not given a greatest length of nonces that is below the drawn least one:
    a pattern with [maxLen] alone and below 6 is accepted, but its effective
    pattern is refused when it is used as a pattern. *)
Theorem effective_pattern_valid_iff (ver hostName : list Z) (o : TrafficPattern) (h h' : hints) (cfg : Config) :
  hints_ok ver h → NewConfig ver hostName (Some o) h = (h', Ok cfg) →
  let e := effective cfg in
  (Validate (Some e) = Ok tt ↔ GetMinLen (Nonce e) <= GetMaxLen (Nonce e)) ∧
  (∀ m, GetUnlockAll (Some o) = false → Nonce o ≫= MinLen = None → Nonce o ≫= MaxLen = Some m → m < 6 → is_Err (Validate (Some e))) ∧
  (Nonce o ≫= MinLen ≠ None ∨ Nonce o ≫= MaxLen = None → Validate (Some e) = Ok tt).
Proof.
  intros Hh Hc e. destruct (NewConfig_inv _ _ _ _ _ _ Hh Hc) as [Ho Ecfg]. change (default _ (Some o)) with o in *. subst e cfg. cbn [effective].
  generalize (seedOf ver hostName o) as seed. clear Hc. intros seed. pose proof (effective_valid seed o Ho) as Hv. split_and!; [done| |].
  - intros m Hu Hmin Hmax Hm. destruct (Validate_total (effectivePattern seed o)) as [E|E]; [|done]. exfalso. apply Hv in E.
    revert E. unfold effectivePattern. rewrite Hu, Hmin, Hmax. cbn -[pick].
    pose proof (pick_range 7 seed "nonce.minLen" ltac:(done)). lia.
  - intros Hor. apply Hv. pose proof (effective_minLen seed o Ho) as Hr. revert Hr. cbn -[pick GetUnlockAll].
    destruct (Nonce o ≫= MaxLen) as [y|] eqn:Ey.
    + destruct (Nonce o ≫= MinLen) as [x|] eqn:Ex; [|naive_solver]. intros _. exact (ok_lens o Ho x y Ex Ey).
    + cbn -[pick GetUnlockAll]. intros Hr. pick_bounds. lia.
Qed.
Definition example_maxLen : TrafficPattern :=
  mkTrafficPattern (Some 1) None None (Some (mkNoncePattern None None None (Some 3) [])) None None.
Lemma effective_pattern_valid_iff_witness :
  ∃ h' cfg, NewConfig [] [] (Some example_maxLen) (mkHints ∅ ∅) = (h', Ok cfg) ∧ is_Err (Validate (Some (effective cfg))).
Proof.
  assert (pattern_ok example_maxLen) as Ho by by apply Validate_spec.
  destruct (NewConfig_valid [] [] example_maxLen (mkHints ∅ ∅) (no_hints_ok []) Ho) as (h' & _ & E).
  exists h', (mkConfig example_maxLen (effectivePattern (seedOf [] [] example_maxLen) example_maxLen)). split; [exact E|].
  by apply (proj1 (proj2 (effective_pattern_valid_iff [] [] example_maxLen (mkHints ∅ ∅) h' _ (no_hints_ok []) E)) 3).
Defined.
