(* ===== verification/AppCommon.v ===== *)
(** * pkg/appctl/appctlcommon: what client and server make of their configuration

    Port bindings, listen addresses, users, timeouts, the host table of a
    resolver, and a client's profile: validation, and what is built from it (the
    endpoints, and the multiplexer with its settings).  A nil element of a list
    of messages is an empty message here, because the getters do not tell them
    apart; strings are their bytes.  A Go map that is ranged over is the list of
    its pairs in the order of the iteration.

    Theorems: port bindings are accepted iff each of them is well-formed, and
    give every port once, in order, TCP before UDP; a profile that is accepted
    gives a multiplexer that can dial; client and server derive the same
    credential from the same user, before and after the password is hashed; the
    host table does not depend on the order of iteration. *)
From S2P Require Import Prelude MathExt Messages GoStd GoFloat GoNet GoIP Ascii Cipher Rng SourceCache ServerUser Underlay Segment Session SessionMap.
From S2P Require Import Scheduler UnderlayClass Mux TrafficConfig Socks Egress SocksServer UDPRelay.

(** ** Messages *)

Definition UNKNOWN_TRANSPORT_PROTOCOL : Z := 0.
Definition TransportProtocol_UDP : Z := 1.
Definition TransportProtocol_TCP : Z := 2.
Record PortBinding := mkPortBinding { pb_Port : option Z; pb_Protocol : option Z; pb_PortRange : option (list Z) }.
Definition GetBindingPort (b : PortBinding) : Z := default 0 (pb_Port b).
Definition GetBindingProtocol (b : PortBinding) : Z := default UNKNOWN_TRANSPORT_PROTOCOL (pb_Protocol b).
Definition GetPortRange (b : PortBinding) : list Z := default [] (pb_PortRange b).

Record ServerEndpoint := mkServerEndpoint { IpAddress : option (list Z); DomainName : option (list Z); se_PortBindings : list PortBinding }.
Definition GetIpAddress (s : ServerEndpoint) : list Z := default [] (IpAddress s).
Definition GetDomainName (s : ServerEndpoint) : list Z := default [] (DomainName s).

Definition MULTIPLEXING_DEFAULT : Z := 0.
Definition MULTIPLEXING_OFF : Z := 1.
Definition MULTIPLEXING_LOW : Z := 2.
Definition MULTIPLEXING_MIDDLE : Z := 3.
Definition MULTIPLEXING_HIGH : Z := 4.
Record MultiplexingConfig := mkMultiplexingConfig { Level : option Z }.

Record ClientDialerMsg := mkClientDialerMsg {
  cd_Protocol : option Z; cd_Host : option (list Z); cd_Port : option Z; Socks5UDPAssociate : option bool; cd_Auth : option AuthMsg
}.
Record ClientProfile := mkClientProfile {
  ProfileName : option (list Z); cp_User : option User; Servers : list ServerEndpoint; cp_Mtu : option Z;
  Multiplexing : option MultiplexingConfig; HandshakeMode : option Z; cp_TrafficPattern : option TrafficPattern; cp_Dialer : option ClientDialerMsg
}.
#[export] Instance ClientProfile_eta : Settable ClientProfile := λ p,
  mkClientProfile (ProfileName p) (cp_User p) (Servers p) (cp_Mtu p) (Multiplexing p) (HandshakeMode p) (cp_TrafficPattern p) (cp_Dialer p).
Definition GetProfileName (p : ClientProfile) : list Z := default [] (ProfileName p).
Definition GetMtu (p : ClientProfile) : Z := default 0 (cp_Mtu p).
Definition GetLevel (p : ClientProfile) : Z := default MULTIPLEXING_DEFAULT (Multiplexing p ≫= Level).

(** [for _, x := range l { if err := f(x); err != nil { return err } }], and the
    loop that appends what [f] gives. *)
Fixpoint each {A} (f : A → result unit) (l : list A) : result unit :=
  match l with [] => Ok tt | x :: l => _ ← f x; each f l end.
Fixpoint collect {A B} (f : A → result (list B)) (l : list A) : result (list B) :=
  match l with [] => Ok [] | x :: l => a ← f x; b ← collect f l; Ok (a ++ b) end.

(** ** port_binding.go *)

(** [for i := small; i <= big; i++ { ports[i] = struct{}{} }] *)
Definition addRange (small big : Z) (ports : gset Z) : gset Z := ports ∪ list_to_set (seqZ small (big - small + 1)).
(** The match of [^(\d+)-(\d+)$]. *)
Definition validPortRange (s : list Z) : option (list Z * list Z) :=
  '(a, b) ← Cut 45 s;
  if negb (len a =? 0) && negb (len b =? 0) && forallb isDigit a && forallb isDigit b then Some (a, b) else None.
(** The range of a binding without a port. *)
Definition bindingRange (b : PortBinding) : result (Z * Z) :=
  match validPortRange (GetPortRange b) with
  | None => Err (Errorf "unable to parse port range")
  | Some (first, second) =>
    match Atoi first with
    | Ok small =>
      match Atoi second with
      | Ok big =>
        if (small <? 1) || (small >? 65535) then Err (Errorf "port number is invalid") else
        if (big <? 1) || (big >? 65535) then Err (Errorf "port number is invalid") else
        if small >? big then Err (Errorf "begin of port range is bigger than end of port range") else Ok (small, big)
      | _ => Err (Errorf "unable to parse int")
      end
    | _ => Err (Errorf "unable to parse int")
    end
  end.
(** One binding: the ports of TCP and of UDP so far. *)
Definition flatStep (ports : gset Z * gset Z) (b : PortBinding) : result (gset Z * gset Z) :=
  let '(tcp, udp) := ports in
  let add f :=
    if GetBindingProtocol b =? TransportProtocol_TCP then Ok (f tcp, udp) else
    if GetBindingProtocol b =? TransportProtocol_UDP then Ok (tcp, f udp) else Err (Errorf "unknown protocol") in
  if GetBindingProtocol b =? UNKNOWN_TRANSPORT_PROTOCOL then Err (Errorf "protocol is not set") else
  if negb (GetBindingPort b =? 0) then
    if (GetBindingPort b <? 1) || (GetBindingPort b >? 65535) then Err (Errorf "port number is invalid") else
    add (λ s, {[GetBindingPort b]} ∪ s)
  else
    '(small, big) ← bindingRange b;
    add (addRange small big).
Fixpoint flatLoop (bindings : list PortBinding) (ports : gset Z * gset Z) : result (gset Z * gset Z) :=
  match bindings with
  | [] => Ok ports
  | b :: bindings => ports ← flatStep ports b; flatLoop bindings ports
  end.
Definition sortedPorts (ports : gset Z) : list Z := merge_sort Z.le (base.elements ports).
Definition FlatPortBindings (bindings : list PortBinding) : result (list PortBinding) :=
  '(tcp, udp) ← flatLoop bindings (∅, ∅);
  Ok (((λ port, mkPortBinding (Some port) (Some TransportProtocol_TCP) None) <$> sortedPorts tcp) ++
      ((λ port, mkPortBinding (Some port) (Some TransportProtocol_UDP) None) <$> sortedPorts udp)).

Definition ValidateServerListenIPAddress (address : list Z) : result unit :=
  if len address =? 0 then Ok tt else
  match ParseAddr address with
  | Some (_, zone) => if len zone =? 0 then Ok tt else Err (Errorf "server listen IP address is invalid")
  | None => Err (Errorf "server listen IP address is invalid")
  end.
(** [&net.TCPAddr{IP: ip, Port: port}] and the like. *)
Definition ipAddr (ip : option (list Z)) (port : Z) : inetAddr := mkAddr (default [] ip) port [].
Definition listenEndpoint (ip : option (list Z)) (mtu : Z) (b : PortBinding) : result (list endpoint) :=
  if GetBindingProtocol b =? TransportProtocol_TCP then
    Ok [NewUnderlayProperties mtu StreamTransport (Some (TCPAddr (Some (ipAddr ip (GetBindingPort b))))) None] else
  if GetBindingProtocol b =? TransportProtocol_UDP then
    Ok [NewUnderlayProperties mtu PacketTransport (Some (UDPAddr (Some (ipAddr ip (GetBindingPort b))))) None]
  else Err (Errorf "invalid transport protocol").
Definition AddrPortToUnderlayProperties (listenIPAddress : list Z) (portBindings : list PortBinding) (mtu : Z) : result (list endpoint) :=
  _ ← ValidateServerListenIPAddress listenIPAddress;
  match FlatPortBindings portBindings with
  | Ok flat => collect (listenEndpoint (ParseIP listenIPAddress) mtu) flat
  | Err e => Err (Wrapf "invalid port bindings" e)
  | Panic m => Panic m
  end.

(** ** user.go *)

Definition UserListToMap (users : list (option User)) : gmap (list Z) (option User) :=
  foldl (λ m u, <[GetName u := u]> m) ∅ users.

(** [hex.EncodeToString] *)
Definition hexChar (d : Z) : Z := if d <? 10 then 48 + d else 87 + d.
Definition EncodeToString (l : list Z) : list Z := mjoin ((λ b, [hexChar (b / 16); hexChar (b mod 16)]) <$> l).
Definition HashUserPassword (u : option User) (keepPlaintext : bool) : option User :=
  match u with
  | None => None
  | Some msg =>
    if len (GetPassword u) =? 0 then u else
    Some (mkUserMsg (Name msg) (if keepPlaintext then Password msg else Some [])
            (Some (EncodeToString (HashPassword (GetPassword u) (GetName u)))) (Quotas msg) (AllowPrivateIP msg) (AllowLoopbackIP msg))
  end.
Definition HashUserPasswords (users : list (option User)) (keepPlaintext : bool) : list (option User) :=
  (λ u, HashUserPassword u keepPlaintext) <$> users.

(** ** dns.go *)

Fixpoint hostsLoop (entries : list (list Z * list Z)) (hosts : gmap (list Z) (list Z)) : result (gmap (list Z) (list Z)) :=
  match entries with
  | [] => Ok hosts
  | (domainName, ipString) :: entries =>
    if bool_decide (head domainName = Some 46) then Err (Errorf "domain name must not begin with a dot") else
    if HasSuffix domainName (bytes_of_string ".") then Err (Errorf "domain name must not end with a dot") else
    let normalizedDomainName := NormalizeDomainName domainName in
    if len normalizedDomainName =? 0 then Err (Errorf "domain name is empty") else
    match hosts !! normalizedDomainName with
    | Some _ => Err (Errorf "found duplicate domain name after normalization")
    | None =>
      match ParseIP ipString with
      | None => Err (Errorf "domain name has invalid IP address")
      | Some ip => hostsLoop entries (<[normalizedDomainName := ip]> hosts)
      end
    end
  end.
Record DNS := mkDNS { DualStack : option Z; Hosts : list (list Z * list Z) }.
(** A nil map is empty. *)
Definition TransformDNSHosts (dns : option DNS) : result (gmap (list Z) (list Z)) := hostsLoop (from_option Hosts [] dns) ∅.

(** ** server.go *)

Section duration.
Context `{F : GoFloat}.

(** [time.ParseDuration]: a leading number, and a leading fraction with its
    scale; digits that do not fit are read and dropped. *)
Fixpoint leadingInt (s : list Z) (x : Z) : result (Z * list Z) :=
  match s with
  | c :: s' =>
    if isDigit c then
      if x >? 2 ^ 63 / 10 then Err (Errorf "bad [0-9]*") else
      let x := x * 10 + (c - 48) in
      if x >? 2 ^ 63 then Err (Errorf "bad [0-9]*") else leadingInt s' x
    else Ok (x, s)
  | [] => Ok (x, [])
  end.
Fixpoint leadingFraction (s : list Z) (x : Z) (scale : f64) (overflow : bool) : Z * f64 * list Z :=
  match s with
  | c :: s' =>
    if isDigit c then
      if overflow then leadingFraction s' x scale true else
      if x >? (2 ^ 63 - 1) / 10 then leadingFraction s' x scale true else
      let y := x * 10 + (c - 48) in
      if y >? 2 ^ 63 then leadingFraction s' x scale true else leadingFraction s' y (f64_mul scale (f64_of 10)) false
    else (x, scale, s)
  | [] => (x, scale, [])
  end.
Fixpoint unitName (s : list Z) : list Z * list Z :=
  match s with
  | c :: s' => if (c =? 46) || isDigit c then ([], s) else let '(u, rest) := unitName s' in (c :: u, rest)
  | [] => ([], [])
  end.
Definition unitMap : gmap (list Z) Z := list_to_map [
  (bytes_of_string "ns", Nanosecond); (bytes_of_string "us", Microsecond); ([194; 181; 115], Microsecond); ([206; 188; 115], Microsecond);
  (bytes_of_string "ms", Millisecond); (bytes_of_string "s", Second); (bytes_of_string "m", Minute); (bytes_of_string "h", 60 * Minute)].
Definition errDuration : error := Errorf "time: invalid duration".
(** One number with its unit, and what follows. *)
Definition durationPart (s : list Z) : result (Z * list Z) :=
  if negb (bool_decide (head s = Some 46) || from_option isDigit false (head s)) then Err errDuration else
  match leadingInt s 0 with
  | Ok (v, s1) =>
    let pre := negb (len s1 =? len s) in
    let '(f, scale, post, s2) :=
      match s1 with
      | 46 :: s' => let '(f, scale, s2) := leadingFraction s' 0 (f64_of 1) false in (f, scale, negb (len s2 =? len s'), s2)
      | _ => (0, f64_of 1, false, s1)
      end in
    if negb pre && negb post then Err errDuration else
    let '(u, s3) := unitName s2 in
    if len u =? 0 then Err (Errorf "time: missing unit in duration") else
    match unitMap !! u with
    | None => Err (Errorf "time: unknown unit in duration")
    | Some unit =>
      if v >? 2 ^ 63 / unit then Err errDuration else
      let v := v * unit in
      let v := if f >? 0 then u64 (v + f64_int (f64_mul (f64_of f) (f64_div (f64_of unit) scale))) else v in
      if (f >? 0) && (v >? 2 ^ 63) then Err errDuration else Ok (v, s3)
    end
  | _ => Err errDuration
  end.
(** Every part is at least one byte, so that the length is enough fuel. *)
Fixpoint durationLoop (fuel : nat) (s : list Z) (d : Z) : result Z :=
  match fuel, s with
  | _, [] => Ok d
  | O, _ => Panic "out of fuel"
  | S fuel, _ =>
    '(v, s) ← durationPart s;
    let d := u64 (d + v) in
    if d >? 2 ^ 63 then Err errDuration else durationLoop fuel s d
  end.
Definition ParseDuration (s : list Z) : result Z :=
  let '(neg, s) := match s with 45 :: s => (true, s) | 43 :: s => (false, s) | _ => (false, s) end in
  if bool_decide (s = bytes_of_string "0") then Ok 0 else
  if len s =? 0 then Err errDuration else
  d ← durationLoop (length s) s 0;
  if neg : bool then Ok (- d) else
  if d >? 2 ^ 63 - 1 then Err errDuration else Ok d.

Definition ParseServerTCPIdleTimeout (value : list Z) : result Z :=
  if len value =? 0 then Ok 0 else
  match ParseDuration value with
  | Ok d => if d <? Minute then Err (Errorf "TCP idle timeout is less than 1 minute") else Ok d
  | Err e => Err (Wrapf "TCP idle timeout is invalid" e)
  | Panic m => Panic m
  end.
End duration.

Definition validateQuota (q : QuotaMsg) : result unit :=
  if GetDays q <=? 0 then Err (Errorf "quota: number of days is invalid") else
  if GetMegabytes q <=? 0 then Err (Errorf "quota: traffic volume in megabyte is invalid") else Ok tt.
Definition ValidateServerConfigSingleUser (u : option User) : result unit :=
  if len (GetName u) =? 0 then Err (Errorf "user name is not set") else
  if (len (GetPassword u) =? 0) && (len (GetHashedPassword u) =? 0) then Err (Errorf "user password is not set") else
  if len (GetName u) >? MaxUserNameLen then Err (Errorf "user name exceeds the maximum") else
  if negb (len (GetPassword u) =? 0) && (len (GetPassword u) >? 64) then Err (Errorf "user password exceeds 64 bytes") else
  each validateQuota (GetQuotas u).

(** ** client.go *)

Definition validateServerEndpoint (server : ServerEndpoint) : result unit :=
  if (len (GetIpAddress server) =? 0) && (len (GetDomainName server) =? 0) then Err (Errorf "neither server IP address nor domain name is set") else
  if negb (len (GetIpAddress server) =? 0) && bool_decide (ParseIP (GetIpAddress server) = None) then Err (Errorf "failed to parse IP address") else
  if len (se_PortBindings server) =? 0 then Err (Errorf "server port binding is not set") else
  _ ← FlatPortBindings (se_PortBindings server); Ok tt.
Definition validateClientProfileDialer (p : ClientProfile) : result unit :=
  match cp_Dialer p with
  | None => Ok tt
  | Some d =>
    if negb (default 0 (cd_Protocol d) =? SOCKS5_PROXY_PROTOCOL) then Err (Errorf "client profile dialer protocol is not supported") else
    if len (default [] (cd_Host d)) =? 0 then Err (Errorf "client profile dialer host is not set") else
    let port := default 0 (cd_Port d) in
    if (port <? 1) || (port >? 65535) then Err (Errorf "client profile dialer port number is invalid") else
    match cd_Auth d with
    | None => Ok tt
    | auth =>
      if len (GetAuthUser auth) =? 0 then Err (Errorf "client profile dialer socks5 authentication user is not set") else
      if len (GetAuthPassword auth) =? 0 then Err (Errorf "client profile dialer socks5 authentication password is not set") else Ok tt
    end
  end.
Definition ValidateClientConfigSingleProfile (p : ClientProfile) : result unit :=
  if len (GetProfileName p) =? 0 then Err (Errorf "profile name is not set") else
  let user := cp_User p in
  if len (GetName user) =? 0 then Err (Errorf "user name is not set") else
  if (len (GetPassword user) =? 0) && (len (GetHashedPassword user) =? 0) then Err (Errorf "user password is not set") else
  if len (GetName user) >? MaxUserNameLen then Err (Errorf "user name exceeds the maximum") else
  if negb (len (GetPassword user) =? 0) && (len (GetPassword user) >? 64) then Err (Errorf "user password exceeds 64 bytes") else
  if negb (len (GetQuotas user) =? 0) then Err (Errorf "user quota is not supported by proxy client") else
  if len (Servers p) =? 0 then Err (Errorf "servers are not set") else
  _ ← each validateServerEndpoint (Servers p);
  if negb (GetMtu p =? 0) && ((GetMtu p <? 1280) || (GetMtu p >? 1500)) then Err (Errorf "MTU value is out of range, valid range is [1280, 1500]") else
  match TrafficConfig.Validate (cp_TrafficPattern p) with
  | Ok _ => validateClientProfileDialer p
  | Err e => Err (Wrapf "invalid traffic pattern" e)
  | Panic m => Panic m
  end.

Definition newSocks5Dialer (d : ClientDialerMsg) : ClientDialer :=
  mkClientDialer (JoinHostPort (default [] (cd_Host d)) (Itoa (default 0 (cd_Port d))))
    (match cd_Auth d with None => None | auth => Some (mkCredential (GetAuthUser auth) (GetAuthPassword auth)) end)
    (default false (Socks5UDPAssociate d)).

Definition DefaultMTU : Z := 1400.
(** Where an endpoint is: an IP address, or a name to resolve. *)
Definition dialEndpoint (proxyHost : list Z) (proxyIP : option (list Z)) (mtu : Z) (b : PortBinding) : result (list endpoint) :=
  let port := GetBindingPort b in
  let spec := AddrSpec_String (mkAddrSpec proxyHost [] port) in
  if GetBindingProtocol b =? TransportProtocol_TCP then
    Ok [NewUnderlayProperties mtu StreamTransport None
          (Some (match proxyIP with Some _ => TCPAddr (Some (ipAddr proxyIP port)) | None => GoNet.SpecAddr "tcp" spec end))] else
  if GetBindingProtocol b =? TransportProtocol_UDP then
    Ok [NewUnderlayProperties mtu PacketTransport None
          (Some (match proxyIP with Some _ => UDPAddr (Some (ipAddr proxyIP port)) | None => GoNet.SpecAddr "udp" spec end))]
  else Err (Errorf "invalid transport protocol").
Definition serverEndpoints (mtu : Z) (server : ServerEndpoint) : result (list endpoint) :=
  '(proxyHost, proxyIP) ←
    (if negb (len (GetDomainName server) =? 0) then Ok (GetDomainName server, None) else
     match ParseIP (GetIpAddress server) with
     | None => Err (Errorf "parse IP address failed")
     | Some ip => Ok (GetIpAddress server, Some ip)
     end);
  match FlatPortBindings (se_PortBindings server) with
  | Ok flat => collect (dialEndpoint proxyHost proxyIP mtu) flat
  | Err e => Err (Wrapf "invalid port bindings" e)
  | Panic m => Panic m
  end.
Definition profileMtu (p : ClientProfile) : Z := if negb (GetMtu p =? 0) then GetMtu p else DefaultMTU.
Definition clientEndpointsFromProfile (p : ClientProfile) : result (list endpoint) :=
  endpoints ← collect (serverEndpoints (profileMtu p)) (Servers p);
  if len endpoints =? 0 then Err (Errorf "no server listening endpoint found") else Ok endpoints.

Definition multiplexFactorOf (level : Z) : Z :=
  if level =? MULTIPLEXING_OFF then 0 else
  if level =? MULTIPLEXING_LOW then 1 else
  if level =? MULTIPLEXING_MIDDLE then 2 else
  if level =? MULTIPLEXING_HIGH then 3 else 1.
Definition profilePassword (p : ClientProfile) : result (list Z) :=
  let user := cp_User p in
  if negb (len (GetHashedPassword user) =? 0) then
    match hexDecode (GetHashedPassword user) with
    | Some hashedPassword => Ok hashedPassword
    | None => Err (Errorf "decode hashed password failed")
    end
  else Ok (HashPassword (GetPassword user) (GetName user)).

(** The dialers that the multiplexer uses: given ones, or through the proxy of
    the profile. *)
Inductive muxDialer (D : Type) := GivenDialer (d : D) | ProfileDialer (d : ClientDialer).
Arguments GivenDialer {D} d.
Arguments ProfileDialer {D} d.
Definition chooseDialers {D P : Type} (p : ClientProfile) (dialer : option D) (packetDialer : option P)
    : option (muxDialer D) * option (muxDialer P) :=
  match cp_Dialer p, dialer, packetDialer with
  | Some d, None, None =>
    (Some (ProfileDialer (newSocks5Dialer d)), if default false (Socks5UDPAssociate d) then Some (ProfileDialer (newSocks5Dialer d)) else None)
  | _, _, _ => (GivenDialer <$> dialer, GivenDialer <$> packetDialer)
  end.

Section profile.
Context `{BT : BTree} `{F : GoFloat} {U : Type} `{UL : !UnderlayOps U} {D P : Type}.
Context (appVersion hostName : list Z).

Definition NewClientMuxFromProfile (p : ClientProfile) (dialer : option D) (packetDialer : option P)
    : gen (result (Mux (U:=U) * (option (muxDialer D) * option (muxDialer P)))) :=
  let mux := NewMux true in
  let dialers := chooseDialers p dialer packetDialer in
  trafficPattern ← NewConfig appVersion hostName (cp_TrafficPattern p);
  mret (
    trafficPattern ← trafficPattern;
    let mux := SetTrafficPattern (Some (effective trafficPattern)) mux in
    hashedPassword ← profilePassword p;
    mux ← SetClientUserNamePassword (GetName (cp_User p)) hashedPassword mux;
    mux ← SetClientMultiplexFactor (multiplexFactorOf (GetLevel p)) mux;
    endpoints ← clientEndpointsFromProfile p;
    Ok (SetEndpoints (λ _ _, None) endpoints mux, dialers)).
End profile.

(** ** Loops over lists *)

Lemma each_spec {A} (f : A → result unit) l : each f l = Ok tt ↔ Forall (λ x, f x = Ok tt) l.
Proof. induction l as [|x l IH]; cbn; [by split|]. by rewrite bind_unit, IH, Forall_cons. Qed.
Lemma each_no_panic {A} (f : A → result unit) l : (∀ x, f x = Ok tt ∨ is_Err (f x)) → each f l = Ok tt ∨ is_Err (each f l).
Proof.
  intros Hf. induction l as [|x l IH]; cbn; [by left|]. destruct (Hf x) as [->|[e ->]]; [by rewrite bind_Ok|right; by eexists].
Qed.
Lemma guard_spec (b : bool) e (r : result unit) : (if b then Err e else r) = Ok tt ↔ b = false ∧ r = Ok tt.
Proof. destruct b; naive_solver. Qed.
Lemma collect_spec {A B} (f : A → result (list B)) (g : A → list B) l :
  (∀ x, x ∈ l → f x = Ok (g x)) → collect f l = Ok (l ≫= g).
Proof.
  induction l as [|x l IH]; intros H; [done|]. cbn. rewrite H by left. rewrite bind_Ok, IH; [done|]. intros y Hy. apply H. by right.
Qed.

(** ** Port bindings *)

(** The ports that a binding names: its port, or its range. *)
Definition digits_only (s : list Z) : Prop := s ≠ [] ∧ Forall (λ c, isDigit c = true) s.
Definition names (b : PortBinding) (lo hi : Z) : Prop :=
  (GetBindingPort b ≠ 0 ∧ lo = GetBindingPort b ∧ hi = GetBindingPort b) ∨
  (GetBindingPort b = 0 ∧ ∃ d1 d2, GetPortRange b = d1 ++ [45] ++ d2 ∧ digits_only d1 ∧ digits_only d2 ∧ decimal d1 = lo ∧ decimal d2 = hi).
Definition binding_ok (b : PortBinding) : Prop :=
  (GetBindingProtocol b = TransportProtocol_TCP ∨ GetBindingProtocol b = TransportProtocol_UDP) ∧
  ∃ lo hi, names b lo hi ∧ 1 <= lo ∧ lo <= hi ∧ hi <= 65535.
(** A port of a protocol that one of the bindings names. *)
Definition bound (bindings : list PortBinding) (protocol port : Z) : Prop :=
  ∃ b lo hi, b ∈ bindings ∧ GetBindingProtocol b = protocol ∧ names b lo hi ∧ lo <= port <= hi.

Lemma forallb_digits s : forallb isDigit s = true ↔ Forall (λ c, isDigit c = true) s.
Proof. rewrite forallb_forall, Forall_forall. split; intros H x Hx; apply H; by apply list_elem_of_In. Qed.
Lemma digit_not_dash d : Forall (λ c, isDigit c = true) d → IndexByte 45 d = None.
Proof.
  induction 1 as [|c d Hc _ IH]; [done|]. cbn. destruct (Z.eqb_spec c 45) as [->|]; [done|]. by rewrite IH.
Qed.
Lemma IndexByte_app c d l : IndexByte c d = None → IndexByte c (d ++ c :: l) = Some (length d).
Proof.
  induction d as [|x d IH]; cbn; [by rewrite Z.eqb_refl|]. destruct (x =? c); [done|].
  destruct (IndexByte c d) eqn:E; [done|]. intros _. by rewrite IH.
Qed.
Lemma validPortRange_spec s d1 d2 : validPortRange s = Some (d1, d2) ↔ s = d1 ++ [45] ++ d2 ∧ digits_only d1 ∧ digits_only d2.
Proof.
  unfold validPortRange, Cut, digits_only. split.
  - destruct (IndexByte 45 s) as [i|] eqn:E; [|done]. cbn. apply IndexByte_Some in E.
    case_match eqn:Et; [|done]. intros [= <- <-]. bool_to_prop. rewrite len_zero, forallb_digits in *. by repeat split.
  - intros (-> & [Hn1 H1] & [Hn2 H2]). cbn [app]. rewrite IndexByte_app by by apply digit_not_dash. cbn.
    rewrite take_app_length, drop_app_ge by lia. replace (S (length d1) - length d1)%nat with 1%nat by lia. cbn. rewrite drop_0.
    apply forallb_digits in H1, H2. rewrite H1, H2. rewrite <-len_zero in Hn1, Hn2. by rewrite !(proj2 (Z.eqb_neq _ _)) by done.
Qed.

Lemma decimal_nonneg_acc s n : 0 <= n → Forall (λ c, isDigit c = true) s → 0 <= foldl (λ n c, n * 10 + (c - 48)) n s.
Proof.
  intros Hn Hs. revert n Hn. induction Hs as [|c s Hc _ IH]; intros n Hn; [done|]. cbn. apply IH. unfold isDigit in Hc. bool_to_prop. lia.
Qed.
Lemma Atoi_digits d : digits_only d → Atoi d = if decimal d <? 2 ^ 63 then Ok (decimal d) else Err (Errorf "value out of range").
Proof.
  intros [Hn Hd]. destruct d as [|c d]; [done|]. pose proof (decimal_nonneg_acc _ 0 ltac:(done) Hd) as H0. fold (decimal (c :: d)) in H0.
  unfold Atoi. assert (isDigit c = true) as Hc by by apply Forall_cons in Hd as [? _].
  assert (c ≠ 45 ∧ c ≠ 43) as [H45 H43] by (unfold isDigit in Hc; bool_to_prop; lia).
  assert (∀ A (x y z : A), (match c with 45 => x | 43 => y | _ => z end) = z) as Hm.
  { intros. destruct c as [|p|p]; try done. do 6 (try destruct p as [p|p|]); done. }
  rewrite Hm. rewrite bool_decide_eq_false_2 by (cbn; congruence). apply forallb_digits in Hd. rewrite Hd.
  cbn [negb orb]. rewrite (proj2 (Z.eqb_neq (len (c :: d)) 0)) by (rewrite len_cons; pose proof (len_nonneg d); lia). cbn [orb].
  by rewrite (proj2 (Z.leb_le _ _)) by lia.
Qed.

Lemma bindingRange_spec b lo hi :
  GetBindingPort b = 0 → bindingRange b = Ok (lo, hi) ↔ names b lo hi ∧ 1 <= lo ∧ lo <= hi ∧ hi <= 65535.
Proof.
  intros Hp. unfold bindingRange, names. split.
  - destruct (validPortRange _) as [[d1 d2]|] eqn:E; [|done]. apply validPortRange_spec in E as (E & H1 & H2).
    rewrite !Atoi_digits by done. destruct (Z.ltb_spec (decimal d1) (2 ^ 63)); [|done]. destruct (Z.ltb_spec (decimal d2) (2 ^ 63)); [|done].
    repeat (case_match; [done|]). intros [= <- <-]. bool_to_prop. split; [|lia]. right. split; [done|]. by exists d1, d2.
  - intros ([[? _]|(_ & d1 & d2 & E & H1 & H2 & <- & <-)] & Hr); [done|].
    rewrite (proj2 (validPortRange_spec _ d1 d2)) by done. rewrite !Atoi_digits by done.
    rewrite !(proj2 (Z.ltb_lt _ (2 ^ 63))) by lia. rewrite !Z.gtb_ltb.
    rewrite !(proj2 (Z.ltb_ge _ _)) by lia. done.
Qed.
Lemma bindingRange_no_panic b : (∃ r, bindingRange b = Ok r) ∨ is_Err (bindingRange b).
Proof. unfold bindingRange. repeat case_match; eauto; right; by eexists. Qed.
Lemma names_functional b lo hi lo' hi' : names b lo hi → names b lo' hi' → lo = lo' ∧ hi = hi'.
Proof.
  intros [(H1 & -> & ->)|(H1 & d1 & d2 & E & Ha & Hb & <- & <-)] [(H2 & -> & ->)|(H2 & d1' & d2' & E' & Ha' & Hb' & <- & <-)]; try done.
  assert (Some (d1, d2) = Some (d1', d2')) as [= -> ->]; [|done].
  rewrite <-(proj2 (validPortRange_spec _ d1 d2) (conj E (conj Ha Hb))). by apply validPortRange_spec.
Qed.

Lemma elem_of_addRange lo hi ports p : p ∈ addRange lo hi ports ↔ p ∈ ports ∨ lo <= p <= hi.
Proof. unfold addRange. rewrite elem_of_union, elem_of_list_to_set, elem_of_seqZ. intuition lia. Qed.

(** One binding, and all. *)
Definition adds (b : PortBinding) (protocol : Z) (s s' : gset Z) : Prop :=
  ∀ p, p ∈ s' ↔ p ∈ s ∨ (GetBindingProtocol b = protocol ∧ ∃ lo hi, names b lo hi ∧ lo <= p <= hi).
Lemma flatStep_spec ports b :
  match flatStep ports b with
  | Ok ports' => binding_ok b ∧ adds b TransportProtocol_TCP ports.1 ports'.1 ∧ adds b TransportProtocol_UDP ports.2 ports'.2
  | Err _ => ¬ binding_ok b
  | Panic _ => False
  end.
Proof.
  destruct ports as [tcp udp]. unfold flatStep. cbn [fst snd].
  assert (∀ f lo hi, names b lo hi → 1 <= lo → lo <= hi → hi <= 65535 → (∀ s p, p ∈ f s ↔ p ∈ s ∨ lo <= p <= hi) →
    GetBindingProtocol b ≠ UNKNOWN_TRANSPORT_PROTOCOL →
    match (if GetBindingProtocol b =? TransportProtocol_TCP then Ok (f tcp, udp)
           else if GetBindingProtocol b =? TransportProtocol_UDP then Ok (tcp, f udp) else Err (Errorf "unknown protocol")) with
    | Ok ports' => binding_ok b ∧ adds b TransportProtocol_TCP tcp ports'.1 ∧ adds b TransportProtocol_UDP udp ports'.2
    | Err _ => ¬ binding_ok b
    | Panic _ => False
    end) as Hadd.
  { intros f lo hi Hn H1 H2 H3 Hf Hp.
    assert (∀ p, (∃ lo' hi', names b lo' hi' ∧ lo' <= p <= hi') ↔ lo <= p <= hi) as Hex.
    { intros p. split; [intros (lo' & hi' & Hn' & Hr)|by exists lo, hi]. by destruct (names_functional _ _ _ _ _ Hn Hn') as [-> ->]. }
    unfold adds, binding_ok. destruct (Z.eqb_spec (GetBindingProtocol b) TransportProtocol_TCP) as [E|N].
    { rewrite E. split_and!; [by left|by exists lo, hi|cbn; intros p; rewrite Hf, Hex; tauto|]. cbn. intros p. intuition done. }
    destruct (Z.eqb_spec (GetBindingProtocol b) TransportProtocol_UDP) as [E|N']; [|tauto].
    rewrite E. split_and!; [by right|by exists lo, hi| |cbn; intros p; rewrite Hf, Hex; tauto]. cbn. intros p. intuition done. }
  destruct (Z.eqb_spec (GetBindingProtocol b) UNKNOWN_TRANSPORT_PROTOCOL) as [E|Hp].
  { intros [[E'|E'] _]; by rewrite E in E'. }
  destruct (Z.eqb_spec (GetBindingPort b) 0) as [Hz|Hnz]; cbn [negb].
  - destruct (bindingRange_no_panic b) as [[[lo hi] E]|[e E]]; rewrite E; cbn [mbind result_bind].
    + apply bindingRange_spec in E as (Hn & H1 & H2 & H3); [|done]. apply (Hadd (addRange lo hi) lo hi); try done. intros. apply elem_of_addRange.
    + intros [_ (lo & hi & Hn & Hr)]. by rewrite (proj2 (bindingRange_spec b lo hi Hz)) in E.
  - rewrite Z.gtb_ltb. destruct (Z.ltb_spec (GetBindingPort b) 1) as [|H1]; cbn [orb].
    { intros [_ (lo & hi & [(_ & -> & ->)|[? _]] & Hr)]; [lia|done]. }
    destruct (Z.ltb_spec 65535 (GetBindingPort b)) as [|H2].
    { intros [_ (lo & hi & [(_ & -> & ->)|[? _]] & Hr)]; [lia|done]. }
    apply (Hadd (λ s, {[GetBindingPort b]} ∪ s) (GetBindingPort b) (GetBindingPort b)); [by left|lia..| |done]. intros. rewrite elem_of_union, elem_of_singleton. intuition lia.
Qed.

Lemma flatLoop_spec bindings ports :
  match flatLoop bindings ports with
  | Ok ports' => Forall binding_ok bindings ∧
      (∀ p, p ∈ ports'.1 ↔ p ∈ ports.1 ∨ bound bindings TransportProtocol_TCP p) ∧
      (∀ p, p ∈ ports'.2 ↔ p ∈ ports.2 ∨ bound bindings TransportProtocol_UDP p)
  | Err _ => ¬ Forall binding_ok bindings
  | Panic _ => False
  end.
Proof.
  revert ports. induction bindings as [|b bindings IH]; intros ports; cbn [flatLoop].
  { split_and!; [done|..]; intros p; unfold bound; set_solver. }
  pose proof (flatStep_spec ports b) as Hb. destruct (flatStep ports b) as [ports1|e|m]; cbn [mbind result_bind]; [|by rewrite Forall_cons; tauto|done].
  destruct Hb as (Hok & H1 & H2). specialize (IH ports1). destruct (flatLoop bindings ports1) as [ports2|e|m]; [|by rewrite Forall_cons; tauto|done].
  destruct IH as (Hall & H3 & H4). split; [by constructor|].
  assert (∀ protocol p, bound (b :: bindings) protocol p ↔
    (GetBindingProtocol b = protocol ∧ ∃ lo hi, names b lo hi ∧ lo <= p <= hi) ∨ bound bindings protocol p) as Hc.
  { intros protocol p. unfold bound. setoid_rewrite elem_of_cons. naive_solver. }
  split; intros p; rewrite Hc; [rewrite H3, (H1 p)|rewrite H4, (H2 p)]; tauto.
Qed.

Lemma sortedPorts_spec ports : StronglySorted Z.lt (sortedPorts ports) ∧ ∀ p, p ∈ sortedPorts ports ↔ p ∈ ports.
Proof.
  assert (sortedPorts ports ≡ₚ base.elements ports) as Hp by apply merge_sort_Permutation. split.
  - assert (StronglySorted Z.le (sortedPorts ports)) as Hs by (apply StronglySorted_merge_sort; [intros ???; lia|intros ??; lia]).
    assert (NoDup (sortedPorts ports)) as Hn by (rewrite Hp; apply NoDup_elements).
    clear Hp. induction Hs as [|x l Hs IH Hall]; [constructor|]. apply NoDup_cons in Hn as [Hx Hn]. constructor; [by apply IH|].
    rewrite Forall_forall in *. intros y Hy. specialize (Hall y Hy). assert (x ≠ y) by congruence. lia.
  - intros p. by rewrite Hp, elem_of_elements.
Qed.

(** The flat bindings of the sorted ports of TCP and UDP. *)
Definition flat (tcp udp : list Z) : list PortBinding :=
  ((λ port, mkPortBinding (Some port) (Some TransportProtocol_TCP) None) <$> tcp) ++
  ((λ port, mkPortBinding (Some port) (Some TransportProtocol_UDP) None) <$> udp).
Lemma FlatPortBindings_spec bindings :
  match FlatPortBindings bindings with
  | Ok res => Forall binding_ok bindings ∧ ∃ tcp udp, res = flat tcp udp ∧ StronglySorted Z.lt tcp ∧ StronglySorted Z.lt udp ∧
      (∀ p, p ∈ tcp ↔ bound bindings TransportProtocol_TCP p) ∧ (∀ p, p ∈ udp ↔ bound bindings TransportProtocol_UDP p)
  | Err _ => ¬ Forall binding_ok bindings
  | Panic _ => False
  end.
Proof.
  unfold FlatPortBindings. pose proof (flatLoop_spec bindings (∅, ∅)) as H. destruct (flatLoop _ _) as [[tcp udp]|e|m]; [|done|done].
  cbn in *. destruct H as (Hok & H1 & H2). split; [done|]. exists (sortedPorts tcp), (sortedPorts udp).
  destruct (sortedPorts_spec tcp) as [S1 E1], (sortedPorts_spec udp) as [S2 E2].
  split_and!; [done..| |]; intros p; [rewrite E1, H1|rewrite E2, H2]; set_solver.
Qed.
Lemma FlatPortBindings_flat bindings res : FlatPortBindings bindings = Ok res → ∃ tcp udp, res = flat tcp udp.
Proof. pose proof (FlatPortBindings_spec bindings) as H. intros E. rewrite E in H. destruct H as (_ & tcp & udp & -> & _). by exists tcp, udp. Qed.
(** Well-formed bindings name a port at least. *)
Lemma FlatPortBindings_nonempty bindings res : FlatPortBindings bindings = Ok res → bindings ≠ [] → res ≠ [].
Proof.
  pose proof (FlatPortBindings_spec bindings) as H. intros E Hn. rewrite E in H. destruct H as (Hok & tcp & udp & -> & _ & _ & H1 & H2).
  destruct bindings as [|b bindings]; [done|]. apply Forall_cons in Hok as [[Hp (lo & hi & Hb & Hr)] _].
  unfold flat. destruct Hp as [Hp|Hp].
  - assert (lo ∈ tcp) as Hin by (apply H1; exists b, lo, hi; split_and!; [by left|done|done|lia|lia]). destruct tcp; [by apply elem_of_nil in Hin|done].
  - assert (lo ∈ udp) as Hin by (apply H2; exists b, lo, hi; split_and!; [by left|done|done|lia|lia]). destruct udp; [by apply elem_of_nil in Hin|].
    destruct tcp; done.
Qed.

(** ** Credentials *)

Lemma hexChar_decode d : 0 <= d < 16 → fromHexChar (hexChar d) = Some d.
Proof.
  intros Hd. unfold hexChar, fromHexChar. destruct (Z.ltb_spec d 10).
  - rewrite !(proj2 (Z.leb_le _ _)) by lia. cbn. f_equal. lia.
  - rewrite (proj2 (Z.leb_gt (87 + d) 57)), andb_false_r by lia. rewrite !(proj2 (Z.leb_le _ _)) by lia. cbn. f_equal. lia.
Qed.
Lemma EncodeToString_cons x l : EncodeToString (x :: l) = hexChar (x / 16) :: hexChar (x mod 16) :: EncodeToString l.
Proof. done. Qed.
Lemma hexDecode_EncodeToString l : bytes_ok l → hexDecode (EncodeToString l) = Some l.
Proof.
  induction 1 as [|x l [H1 H2] _ IH]; [done|]. rewrite EncodeToString_cons. cbn [hexDecode].
  assert (0 <= x / 16 < 16) as Hq by (split; [apply Z.div_pos; lia|apply Z.div_lt_upper_bound; lia]).
  assert (0 <= x mod 16 < 16) as Hr by (apply Z.mod_pos_bound; lia).
  rewrite (hexChar_decode _ Hq), (hexChar_decode _ Hr).
  cbn [mbind option_bind]. rewrite IH. cbn. f_equal. f_equal. pose proof (Z.div_mod x 16 ltac:(done)). lia.
Qed.
Lemma EncodeToString_length l : length (EncodeToString l) = (2 * length l)%nat.
Proof. induction l as [|x l IH]; [done|]. rewrite EncodeToString_cons. cbn [length]. lia. Qed.
Lemma hexDecode_nonempty s l : hexDecode s = Some l → s ≠ [] → l ≠ [].
Proof.
  destruct s as [|a [|b s]]; [done|done|]. cbn. destruct (fromHexChar a), (fromHexChar b), (hexDecode s); try done. cbn. by intros [= <-].
Qed.

(** The credential that a user with a password has. *)
Definition credentialOf (u : option User) : list Z := HashPassword (GetPassword u) (GetName u).
Lemma HashPassword_32 pw nm : len (HashPassword pw nm) = 32 ∧ bytes_ok (HashPassword pw nm).
Proof. unfold HashPassword, len. rewrite Sum256_length. split; [done|apply Sum256_bytes]. Qed.

Lemma HashUserPassword_getters u keep :
  len (GetPassword u) ≠ 0 →
  GetName (HashUserPassword u keep) = GetName u ∧ GetHashedPassword (HashUserPassword u keep) = EncodeToString (credentialOf u) ∧
  GetQuotas (HashUserPassword u keep) = GetQuotas u ∧ GetPassword (HashUserPassword u keep) = (if keep then GetPassword u else []) ∧
  GetAllowPrivateIP (HashUserPassword u keep) = GetAllowPrivateIP u ∧ GetAllowLoopbackIP (HashUserPassword u keep) = GetAllowLoopbackIP u.
Proof. intros Hp. destruct u as [u|]; [|done]. cbn [HashUserPassword]. rewrite (proj2 (Z.eqb_neq _ _) Hp). by destruct keep. Qed.
Lemma HashUserPassword_none u keep : len (GetPassword u) = 0 → HashUserPassword u keep = u.
Proof. intros Hp. destruct u as [u|]; [|done]. cbn [HashUserPassword]. by rewrite Hp. Qed.
Lemma HashUserPassword_name u keep : GetName (HashUserPassword u keep) = GetName u.
Proof. destruct (Z.eq_dec (len (GetPassword u)) 0); [by rewrite HashUserPassword_none|by apply HashUserPassword_getters]. Qed.

Lemma decode_credential u : hexDecode (EncodeToString (credentialOf u)) = Some (credentialOf u).
Proof. apply hexDecode_EncodeToString, HashPassword_32. Qed.
Lemma encoded_credential_nonempty u : len (EncodeToString (credentialOf u)) ≠ 0.
Proof. unfold len. rewrite EncodeToString_length. pose proof (HashPassword_32 (GetPassword u) (GetName u)) as [H _]. unfold len, credentialOf in *. lia. Qed.

Lemma hashed_credential u keep nm :
  len (GetPassword u) ≠ 0 → buildCredential (HashUserPassword u keep) nm = Ok (credentialOf u).
Proof.
  intros Hp. assert (is_Some (HashUserPassword u keep)) as [msg E].
  { destruct u as [u|]; [|by destruct (Hp eq_refl)]. cbn [HashUserPassword]. rewrite (proj2 (Z.eqb_neq _ _) Hp). by eexists. }
  destruct (HashUserPassword_getters u keep Hp) as (_ & Hh & _). unfold buildCredential.
  rewrite E in *. rewrite Hh.
  rewrite (proj2 (Z.eqb_neq _ _) (encoded_credential_nonempty u)). cbn [negb]. rewrite decode_credential.
  unfold credentialOf. by rewrite (proj1 (HashPassword_32 _ _)).
Qed.
Lemma hashed_profilePassword p keep :
  len (GetPassword (cp_User p)) ≠ 0 →
  profilePassword (p<|cp_User := HashUserPassword (cp_User p) keep|>) = Ok (credentialOf (cp_User p)).
Proof.
  intros Hp. destruct (HashUserPassword_getters (cp_User p) keep Hp) as (_ & Hh & _). unfold profilePassword. cbn [cp_User set_field].
  change (cp_User (p<|cp_User := _|>)) with (HashUserPassword (cp_User p) keep). rewrite Hh.
  rewrite (proj2 (Z.eqb_neq _ _) (encoded_credential_nonempty _)). cbn [negb]. by rewrite decode_credential.
Qed.

(** ** Durations *)

Section duration.
Context `{F : GoFloat}.

Lemma leadingInt_spec s x : match leadingInt s x with Ok (_, s') => (length s' <= length s)%nat | Err _ => True | Panic _ => False end.
Proof.
  revert x. induction s as [|c s IH]; intros x; [cbn; lia|]. cbn [leadingInt]. destruct (isDigit c); [|cbn; lia].
  destruct (x >? _); [done|]. cbn zeta. destruct (_ >? 2 ^ 63); [done|]. specialize (IH (x * 10 + (c - 48))). destruct (leadingInt s _) as [[v s']|e|m]; cbn [length]; [lia|done..].
Qed.
Lemma leadingFraction_length s x scale o : (length (leadingFraction s x scale o).2 <= length s)%nat.
Proof.
  revert x scale o. induction s as [|c s IH]; intros x scale o; [cbn; lia|]. cbn [leadingFraction].
  destruct (isDigit c); [|cbn; lia]. repeat case_match; cbn [length]; rewrite IH; lia.
Qed.
Lemma unitName_length s : (length (unitName s).1 + length (unitName s).2 = length s)%nat.
Proof.
  induction s as [|c s IH]; [done|]. cbn [unitName]. destruct (_ || _); [done|]. destruct (unitName s) as [u rest]. cbn in *. lia.
Qed.
Lemma durationPart_spec s : match durationPart s with Ok (_, s') => (length s' < length s)%nat | Err _ => True | Panic _ => False end.
Proof.
  unfold durationPart. destruct (negb (bool_decide _ || _)); [done|]. pose proof (leadingInt_spec s 0) as Hi. destruct (leadingInt s 0) as [[v s1]|e|m]; [|done..].
  set (frac := match s1 with 46 :: s' => _ | _ => _ end). assert (length frac.2 <= length s1)%nat as Hf.
  { subst frac. destruct s1 as [|c s1]; [done|]. destruct c as [|c|c]; try done. do 6 (try destruct c as [c|c|]); try done.
    cbn zeta. pose proof (leadingFraction_length s1 0 (f64_of 1) false). destruct (leadingFraction _ _ _ _) as [[f sc] s2]. cbn in *. lia. }
  destruct frac as [[[f scale] post] s2]. cbn in Hf. destruct (negb _ && negb _); [done|].
  pose proof (unitName_length s2) as Hu. destruct (unitName s2) as [u s3]. cbn in Hu.
  destruct (Z.eqb_spec (len u) 0) as [|Hn]; [done|]. destruct (unitMap !! u) as [unit|]; [|done]. destruct (v >? _); [done|]. cbn zeta. destruct ((f >? 0) && _); [done|].
  unfold len in Hn. lia.
Qed.
Lemma durationLoop_total fuel s d : (length s <= fuel)%nat → is_Ok (durationLoop fuel s d) ∨ is_Err (durationLoop fuel s d).
Proof.
  revert s d. induction fuel as [|fuel IH]; intros [|c s] d Hl; cbn [length] in Hl; try (left; by eexists); [lia|]. cbn [durationLoop].
  pose proof (durationPart_spec (c :: s)) as Hp. destruct (durationPart _) as [[v s']|e|m]; [|right; by eexists|done].
  cbn [mbind result_bind length] in *. case_match; [right; by eexists|]. apply IH. lia.
Qed.
Lemma ParseDuration_total s : is_Ok (ParseDuration s) ∨ is_Err (ParseDuration s).
Proof.
  unfold ParseDuration. destruct (match s with 45 :: s => (true, s) | 43 :: s => (false, s) | _ => (false, s) end) as [neg s'].
  destruct (bool_decide _); [left; by eexists|]. destruct (_ =? 0); [right; by eexists|].
  destruct (durationLoop_total (length s') s' 0 ltac:(done)) as [[d ->]|[e ->]]; [|right; by eexists].
  rewrite bind_Ok. destruct neg; [left; by eexists|]. destruct (d >? _); [right|left]; by eexists.
Qed.
(** A timeout is zero or at least a minute. *)
Lemma ParseServerTCPIdleTimeout_spec value :
  match ParseServerTCPIdleTimeout value with Ok d => d = 0 ∨ Minute <= d | Err _ => True | Panic _ => False end.
Proof.
  unfold ParseServerTCPIdleTimeout. destruct (_ =? 0); [by left|].
  destruct (ParseDuration_total value) as [[d ->]|[e ->]]; [|done]. destruct (Z.ltb_spec d Minute); [done|]. by right.
Qed.
End duration.
Example parse_duration_examples :
  (ParseDuration (F:=fractionFloat) (bytes_of_string "1h30m") = Ok (90 * Minute)) ∧
  ParseDuration (F:=fractionFloat) (bytes_of_string "1.5s") = Ok (1500 * Millisecond) ∧
  ParseDuration (F:=fractionFloat) (bytes_of_string "-.5ms") = Ok (- 500 * Microsecond) ∧
  ParseDuration (F:=fractionFloat) (bytes_of_string "10") = Err (Errorf "time: missing unit in duration") ∧
  ParseDuration (F:=fractionFloat) (bytes_of_string "1d") = Err (Errorf "time: unknown unit in duration") ∧
  ParseDuration (F:=fractionFloat) (bytes_of_string "3000000h") = Err errDuration ∧
  ParseServerTCPIdleTimeout (F:=fractionFloat) (bytes_of_string "59s") = Err (Errorf "TCP idle timeout is less than 1 minute").
Proof. by vm_compute. Qed.

(** ** The host table *)

Definition host_ok (e : list Z * list Z) : Prop :=
  head e.1 ≠ Some 46 ∧ HasSuffix e.1 (bytes_of_string ".") = false ∧ NormalizeDomainName e.1 ≠ [] ∧ is_Some (ParseIP e.2).
Lemma hostsLoop_spec entries hosts :
  match hostsLoop entries hosts with
  | Ok m => Forall host_ok entries ∧ NoDup (NormalizeDomainName ∘ fst <$> entries) ∧
      (∀ e, e ∈ entries → hosts !! NormalizeDomainName e.1 = None) ∧
      (∀ n ip, m !! n = Some ip ↔ hosts !! n = Some ip ∨ ∃ e, e ∈ entries ∧ NormalizeDomainName e.1 = n ∧ ParseIP e.2 = Some ip)
  | Err _ => ¬ (Forall host_ok entries ∧ NoDup (NormalizeDomainName ∘ fst <$> entries) ∧ (∀ e, e ∈ entries → hosts !! NormalizeDomainName e.1 = None))
  | Panic _ => False
  end.
Proof.
  revert hosts. induction entries as [|[d s] entries IH]; intros hosts.
  { cbn. split_and!; [by constructor|by constructor|set_solver|]. intros n ip. set_solver. }
  cbn [hostsLoop]. unfold host_ok at 2.
  destruct (bool_decide_reflect (head d = Some 46)) as [E|Hh].
  { intros (H & _). apply Forall_cons in H as [(H & _) _]. done. }
  destruct (HasSuffix d (bytes_of_string ".")) eqn:Hs.
  { intros (H & _). apply Forall_cons in H as [(_ & H & _) _]. cbn [fst] in H. congruence. }
  destruct (Z.eqb_spec (len (NormalizeDomainName d)) 0) as [E|Hn].
  { intros (H & _). apply Forall_cons in H as [(_ & _ & H & _) _]. by apply len_zero in E. }
  destruct (hosts !! NormalizeDomainName d) as [ip0|] eqn:E0.
  { intros (_ & _ & H). assert (hosts !! NormalizeDomainName d = None) by (apply (H (d, s)); left). congruence. }
  destruct (ParseIP s) as [ip|] eqn:Ep.
  2: { intros (H & _). apply Forall_cons in H as [(_ & _ & _ & [x H]) _]. cbn [snd] in H. congruence. }
  specialize (IH (<[NormalizeDomainName d:=ip]> hosts)).
  assert ((∀ e, e ∈ entries → (<[NormalizeDomainName d:=ip]> hosts) !! NormalizeDomainName e.1 = None) ↔
    (NormalizeDomainName d ∉ fmap (NormalizeDomainName ∘ fst) entries) ∧ ∀ e, e ∈ entries → hosts !! NormalizeDomainName e.1 = None) as Hins.
  { rewrite list_elem_of_fmap. split.
    - intros H. split; [|intros e He; by apply (lookup_insert_None hosts (NormalizeDomainName d) _ ip), H].
      intros (e & Ee & He). specialize (H e He). apply lookup_insert_None in H as [_ H]. done.
    - intros [H1 H2] e He. apply lookup_insert_None. split; [by apply H2|]. intros Ee. apply H1. by exists e. }
  assert (∀ P : Prop, (Forall host_ok entries ∧ NoDup (NormalizeDomainName ∘ fst <$> entries) ∧
      (∀ e, e ∈ entries → (<[NormalizeDomainName d:=ip]> hosts) !! NormalizeDomainName e.1 = None)) ↔
    (Forall host_ok ((d, s) :: entries) ∧ NoDup (NormalizeDomainName ∘ fst <$> (d, s) :: entries) ∧
      (∀ e, e ∈ (d, s) :: entries → hosts !! NormalizeDomainName e.1 = None))) as Hiff.
  { intros _. rewrite Hins, Forall_cons, fmap_cons, NoDup_cons. split.
    - intros (H1 & H2 & H3 & H4). split_and!; try done.
      + repeat split; [done|done|by rewrite <-len_zero|by exists ip].
      + intros e [->|He]%elem_of_cons; [done|by apply H4].
    - intros ([_ H1] & [H2 H3] & H4). split_and!; try done. intros e He. apply H4. by right. }
  destruct (hostsLoop entries _) as [m|e|msg]; [|by rewrite <-(Hiff True)|done].
  destruct IH as (H1 & H2 & H3 & H4). destruct (proj1 (Hiff True) (conj H1 (conj H2 H3))) as (G1 & G2 & G3).
  split_and!; [done..|]. intros n ip'. rewrite H4, lookup_insert_Some. setoid_rewrite elem_of_cons. split.
  - intros [[[<- <-]|[Hne Hl]]|(e & He & Hr)]; [right; exists (d, s); naive_solver|by left|right; exists e; naive_solver].
  - intros [Hl|(e & [->|He] & <- & Hp)].
    + left. right. split; [|done]. intros <-. congruence.
    + left. left. cbn [fst snd] in *. split; [done|congruence].
    + right. by exists e.
Qed.

(** ** Profiles *)

Lemma collect_elem {A B} (f : A → result (list B)) l res :
  collect f l = Ok res → ∀ y, y ∈ res ↔ ∃ x r, x ∈ l ∧ f x = Ok r ∧ y ∈ r.
Proof.
  revert res. induction l as [|x l IH]; cbn; intros res; [intros [= <-] y; set_solver|].
  destruct (f x) as [a|e|m] eqn:Ef; [|done..]. rewrite bind_Ok. destruct (collect f l) as [b|e|m]; [|done..]. rewrite bind_Ok.
  intros [= <-] y. rewrite elem_of_app, (IH b eq_refl). setoid_rewrite elem_of_cons. split.
  - intros [Hy|(x' & r & Hx & Hr & Hy)]; [by exists x, a; auto|by exists x', r; auto].
  - intros (x' & r & [->|Hx] & Hr & Hy); [|by right; exists x', r]. left. rewrite Ef in Hr. by injection Hr as <-.
Qed.
Lemma collect_Ok {A B} (f : A → result (list B)) l : (∀ x, x ∈ l → is_Ok (f x)) → is_Ok (collect f l).
Proof.
  induction l as [|x l IH]; intros H; cbn; [by eexists|]. destruct (H x ltac:(left)) as [a ->]. rewrite bind_Ok.
  destruct IH as [b ->]; [intros y Hy; apply H; by right|]. rewrite bind_Ok. by eexists.
Qed.

(** The endpoint of a port of a server: at its name if it has one, else at its
    IP address. *)
Definition endpointOf (mtu : Z) (server : ServerEndpoint) (protocol port : Z) : endpoint :=
  let ip := if len (GetDomainName server) =? 0 then ParseIP (GetIpAddress server) else None in
  let spec := AddrSpec_String (mkAddrSpec (GetDomainName server) [] port) in
  if protocol =? TransportProtocol_TCP
  then mkEndpoint mtu StreamTransport NilNetAddr (match ip with Some _ => TCPAddr (Some (ipAddr ip port)) | None => GoNet.SpecAddr "tcp" spec end)
  else mkEndpoint mtu PacketTransport NilNetAddr (match ip with Some _ => UDPAddr (Some (ipAddr ip port)) | None => GoNet.SpecAddr "udp" spec end).

Lemma elem_of_flat tcp udp b :
  b ∈ flat tcp udp ↔ ∃ protocol port, b = mkPortBinding (Some port) (Some protocol) None ∧
    ((protocol = TransportProtocol_TCP ∧ port ∈ tcp) ∨ (protocol = TransportProtocol_UDP ∧ port ∈ udp)).
Proof. unfold flat. rewrite elem_of_app, !list_elem_of_fmap. naive_solver. Qed.

Lemma serverEndpoints_spec mtu server :
  validateServerEndpoint server = Ok tt →
  ∃ res, serverEndpoints mtu server = Ok res ∧ res ≠ [] ∧
    ∀ ep, ep ∈ res ↔ ∃ protocol port, (protocol = TransportProtocol_TCP ∨ protocol = TransportProtocol_UDP) ∧
      bound (se_PortBindings server) protocol port ∧ ep = endpointOf mtu server protocol port.
Proof.
  unfold validateServerEndpoint. rewrite !guard_spec. intros (H1 & H2 & H3 & H4). unfold serverEndpoints.
  pose proof (FlatPortBindings_spec (se_PortBindings server)) as Hf. pose proof (FlatPortBindings_nonempty (se_PortBindings server)) as Hne.
  destruct (FlatPortBindings (se_PortBindings server)) as [res0|e|m]; [|done..]. clear H4.
  specialize (Hne res0 eq_refl). destruct Hf as (_ & tcp & udp & -> & _ & _ & Ht & Hu).
  apply Z.eqb_neq in H3. assert (se_PortBindings server ≠ []) as Hb by (intros E; by rewrite E in H3). specialize (Hne Hb).
  set (host := if negb _ then _ else _).
  assert (∃ proxyHost proxyIP, host = Ok (proxyHost, proxyIP) ∧
    proxyIP = (if len (GetDomainName server) =? 0 then ParseIP (GetIpAddress server) else None) ∧
    (proxyIP = None → proxyHost = GetDomainName server)) as (proxyHost & proxyIP & -> & Hip & Hhost).
  { subst host. destruct (Z.eqb_spec (len (GetDomainName server)) 0) as [E|N]; cbn [negb]; [|by eexists _, _].
    destruct (ParseIP (GetIpAddress server)) as [ip|] eqn:Ep; [by eexists _, _|].
    exfalso. apply andb_false_iff in H1 as [H1|H1]; [rewrite H1 in H2; cbn in H2; done|]. by try rewrite E in H1. }
  rewrite bind_Ok. cbn beta iota.
  assert (∀ b, b ∈ flat tcp udp → ∃ protocol port, b = mkPortBinding (Some port) (Some protocol) None ∧
    ((protocol = TransportProtocol_TCP ∧ port ∈ tcp) ∨ (protocol = TransportProtocol_UDP ∧ port ∈ udp)) ∧
    dialEndpoint proxyHost proxyIP mtu b = Ok [endpointOf mtu server protocol port]) as Hd.
  { intros b (protocol & port & -> & Hor)%elem_of_flat. exists protocol, port. split_and!; [done..|].
    unfold dialEndpoint, endpointOf. rewrite <-Hip. unfold GetBindingProtocol, GetBindingPort. cbn [pb_Protocol pb_Port default from_option id].
    destruct Hor as [[-> _]|[-> _]]; (destruct proxyIP as [ip|]; [done|by rewrite Hhost]). }
  destruct (collect_Ok (dialEndpoint proxyHost proxyIP mtu) (flat tcp udp)) as [res Hc].
  { intros b Hin. destruct (Hd b Hin) as (? & ? & _ & _ & ->). by eexists. }
  exists res. split; [done|]. pose proof (collect_elem _ _ _ Hc) as He. split.
  - destruct (flat tcp udp) as [|b l]; [done|]. destruct (Hd b ltac:(left)) as (pr & po & _ & _ & Hb'). intros ->.
    eapply not_elem_of_nil, He. exists b, [endpointOf mtu server pr po]. split_and!; [by left|done|by left].
  - intros ep. rewrite He. split.
    + intros (b & r & Hin & Hr & Hep). destruct (Hd b Hin) as (pr & po & -> & Hor & Hb'). rewrite Hb' in Hr. injection Hr as <-.
      apply list_elem_of_singleton in Hep as ->. exists pr, po. destruct Hor as [[-> Hp]|[-> Hp]];
        (split_and!; [auto| |done]); [by apply Ht|by apply Hu].
    + intros (pr & po & Hor & Hbd & ->). assert (mkPortBinding (Some po) (Some pr) None ∈ flat tcp udp) as Hin.
      { apply elem_of_flat. exists pr, po. split; [done|]. destruct Hor as [-> | ->]; [left; split; [done|by apply Ht]|right; split; [done|by apply Hu]]. }
      destruct (Hd _ Hin) as (pr' & po' & Heq & _ & E). injection Heq as <- <-. exists (mkPortBinding (Some po) (Some pr) None), [endpointOf mtu server pr po].
      split_and!; [done|done|by left].
Qed.

Lemma multiplexFactorOf_range level : 0 <= multiplexFactorOf level <= 3.
Proof. unfold multiplexFactorOf. repeat (destruct (level =? _); [done|]). done. Qed.

(** ** Properties *)

(** Port bindings are accepted iff each of them has the protocol TCP or UDP
    and a port, or else a range of decimal ports, in 1..65535 with its ends in
    order; they give every port that is named once, sorted, TCP before UDP. *)
Theorem port_bindings_spec (bindings : list PortBinding) :
  match FlatPortBindings bindings with
  | Ok res => Forall binding_ok bindings ∧ ∃ tcp udp, res = flat tcp udp ∧ StronglySorted Z.lt tcp ∧ StronglySorted Z.lt udp ∧
      (∀ p, p ∈ tcp ↔ bound bindings TransportProtocol_TCP p) ∧ (∀ p, p ∈ udp ↔ bound bindings TransportProtocol_UDP p)
  | Err _ => ¬ Forall binding_ok bindings
  | Panic _ => False
  end.
Proof. apply FlatPortBindings_spec. Qed.
Example port_bindings_example :
  FlatPortBindings [mkPortBinding None (Some TransportProtocol_UDP) (Some (bytes_of_string "8000-8002"));
                    mkPortBinding (Some 443) (Some TransportProtocol_TCP) None;
                    mkPortBinding None (Some TransportProtocol_UDP) (Some (bytes_of_string "7999-8000"))] = Ok (flat [443] [7999; 8000; 8001; 8002]) ∧
  FlatPortBindings [mkPortBinding None (Some TransportProtocol_UDP) (Some (bytes_of_string "8002-8000"))] =
    Err (Errorf "begin of port range is bigger than end of port range").
Proof. by vm_compute. Qed.

(** Client and server derive the same credential from a user with a
    password, from the plain text and from what either of them stores: hashing
    with or without keeping the plain text, once or again. *)
Theorem credentials_agree (p : ClientProfile) (keep : bool) :
  let u := cp_User p in
  len (GetPassword u) ≠ 0 →
  buildCredential (HashUserPassword u keep) (GetName (HashUserPassword u keep)) = Ok (credentialOf u) ∧
  profilePassword (p<|cp_User := HashUserPassword u keep|>) = Ok (credentialOf u) ∧
  (GetHashedPassword u = [] → buildCredential u (GetName u) = Ok (credentialOf u) ∧ profilePassword p = Ok (credentialOf u)) ∧
  (∀ keep', buildCredential (HashUserPassword (HashUserPassword u keep) keep') (GetName u) = Ok (credentialOf u)).
Proof.
  intros u Hp. split_and!.
  - by apply hashed_credential.
  - by apply hashed_profilePassword.
  - intros Hh. unfold buildCredential, profilePassword. fold u. rewrite Hh. destruct u as [msg|]; [|by destruct (Hp eq_refl)].
    cbn [negb Z.eqb len length]. by rewrite (proj2 (Z.eqb_neq _ _) Hp).
  - intros keep'. destruct (HashUserPassword_getters u keep Hp) as (Hn & _ & _ & Hpw & _). destruct keep.
    + rewrite hashed_credential by by rewrite Hpw. unfold credentialOf. by rewrite Hn, Hpw.
    + rewrite HashUserPassword_none by by rewrite Hpw. by apply hashed_credential.
Qed.
Definition example_user : option User := Some (mkUserMsg (Some [98]) (Some [113]) None [] None None).
Definition example_profile : ClientProfile :=
  mkClientProfile (Some (bytes_of_string "default")) example_user
    [mkServerEndpoint (Some (bytes_of_string "203.0.113.5")) None
       [mkPortBinding (Some 443) (Some TransportProtocol_TCP) None; mkPortBinding None (Some TransportProtocol_UDP) (Some (bytes_of_string "8000-8001"))]]
    None None None None None.
Lemma credentials_agree_witness :
  buildCredential (HashUserPassword example_user false) [98] = Ok (credentialOf example_user) ∧
  profilePassword (example_profile<|cp_User := HashUserPassword example_user false|>) = Ok (credentialOf example_user) ∧
  (GetHashedPassword example_user = [] → buildCredential example_user [98] = Ok (credentialOf example_user) ∧ profilePassword example_profile = Ok (credentialOf example_user)) ∧
  (∀ keep', buildCredential (HashUserPassword (HashUserPassword example_user false) keep') [98] = Ok (credentialOf example_user)).
Proof. by apply (credentials_agree example_profile false). Defined.

(** A profile that is accepted gives a multiplexer that can dial, unless its
    hashed password is no hexadecimal text: with the user's name and credential,
    the factor of its level, and an endpoint for every port of every server and
    no other, at the server's name or else its IP address, with an MTU that is
    the profile's or the default. *)
Theorem accepted_profile_dials {U D P : Type} (ver hostName : list Z) (p : ClientProfile) (dialer : option D) (packetDialer : option P) (h : hints) :
  ValidateClientConfigSingleProfile p = Ok tt → is_Ok (profilePassword p) → hints_ok ver h →
  ∃ h' (m : Mux (U:=U)), hints_ok ver h' ∧
    NewClientMuxFromProfile ver hostName p dialer packetDialer h = (h', Ok (m, chooseDialers p dialer packetDialer)) ∧
    dialCheck m = Ok tt ∧ m_username m = GetName (cp_User p) ∧ Ok (m_password m) = profilePassword p ∧
    0 <= m_multiplexFactor m <= 3 ∧ 1280 <= profileMtu p <= 1500 ∧
    ∀ ep, ep ∈ m_endpoints m ↔ ∃ server protocol port, server ∈ Servers p ∧
      (protocol = TransportProtocol_TCP ∨ protocol = TransportProtocol_UDP) ∧ bound (se_PortBindings server) protocol port ∧
      ep = endpointOf (profileMtu p) server protocol port.
Proof.
  unfold ValidateClientConfigSingleProfile. rewrite !guard_spec, bind_unit, guard_spec, each_spec.
  intros (_ & Hname & Hpw & _ & _ & _ & Hsrv & Hall & Hmtu & Htp) [pw Epw] Hh.
  set (o := default (mkTrafficPattern None None None None None None) (cp_TrafficPattern p)).
  assert (TrafficConfig.Validate (Some o) = Ok tt) as Ht.
  { subst o. destruct (cp_TrafficPattern p) as [t|]; [|reflexivity]. change (default _ (Some t)) with t.
    destruct (TrafficConfig.Validate (Some t)) as [[]|e|m]; done. }
  apply Validate_spec in Ht.
  destruct (NewConfig_valid ver hostName o h Hh Ht) as (h' & Hh' & Ec).
  assert (NewConfig ver hostName (cp_TrafficPattern p) h = NewConfig ver hostName (Some o) h) as Eo by (subst o; by destruct (cp_TrafficPattern p)).
  destruct (collect_Ok (serverEndpoints (profileMtu p)) (Servers p)) as [eps Eeps].
  { intros s Hs. rewrite Forall_forall in Hall. destruct (serverEndpoints_spec (profileMtu p) s (Hall s Hs)) as (r & E & _). by exists r. }
  pose proof (collect_elem _ _ _ Eeps) as Hin.
  assert (len eps ≠ 0) as Hne.
  { rewrite len_zero. intros ->. destruct (Servers p) as [|s l] eqn:Es; [done|]. apply Forall_cons in Hall as [Hs _].
    destruct (serverEndpoints_spec (profileMtu p) s Hs) as (r & E & Hr & _). destruct r as [|e r]; [done|].
    apply (not_elem_of_nil e), Hin. exists s, (e :: r). split_and!; [by left|done|by left]. }
  assert (∀ ep, ep ∈ eps ↔ ∃ server protocol port, server ∈ Servers p ∧
      (protocol = TransportProtocol_TCP ∨ protocol = TransportProtocol_UDP) ∧ bound (se_PortBindings server) protocol port ∧
      ep = endpointOf (profileMtu p) server protocol port) as Heps.
  { intros ep. rewrite Hin. rewrite Forall_forall in Hall. split.
    - intros (s & r & Hs & Er & He). destruct (serverEndpoints_spec (profileMtu p) s (Hall s Hs)) as (r' & Er' & _ & Hr).
      assert (r' = r) as -> by congruence. apply Hr in He as (pr & po & H). exists s, pr, po. tauto.
    - intros (s & pr & po & Hs & H). destruct (serverEndpoints_spec (profileMtu p) s (Hall s Hs)) as (r & Er & _ & Hr).
      exists s, r. split_and!; [done..|]. apply Hr. by exists pr, po. }
  eexists h', _. split; [done|]. split.
  { unfold NewClientMuxFromProfile, mbind at 1, gen_bind. rewrite Eo, Ec. unfold mret, gen_ret. do 2 f_equal.
    rewrite bind_Ok, Epw, bind_Ok. unfold SetClientUserNamePassword, SetClientMultiplexFactor, clientEndpointsFromProfile. rewrite Eeps, bind_Ok.
    cbn [SetTrafficPattern NewMux m_isClient m_used negb set_field]. rewrite (proj2 (Z.eqb_neq _ _) Hne). reflexivity. }
  assert (len pw ≠ 0) as Hpw0.
  { revert Epw. unfold profilePassword. destruct (Z.eqb_spec (len (GetHashedPassword (cp_User p))) 0) as [|Hnz]; cbn [negb].
    - intros [= <-]. by rewrite (proj1 (HashPassword_32 _ _)).
    - destruct (hexDecode _) as [d|] eqn:Ed; [|done]. intros [= <-] E0. apply len_zero in E0. apply (hexDecode_nonempty _ _ Ed); [|done].
      by rewrite <-len_zero. }
  split; [|split; [reflexivity|split; [by rewrite Epw|split; [|split; [|exact Heps]]]]].
  - unfold dialCheck. cbn [m_isClient m_password m_endpoints SetEndpoints UpdateEndpoints NewMux set_field m_done m_used negb orb fst].
    cbn. rewrite (proj2 (Z.eqb_neq _ _) Hpw0), (proj2 (Z.eqb_neq _ _) Hne).
    match goal with |- context [existsb ?f eps] => destruct (existsb f eps) eqn:Ex end; [|done].
    exfalso. apply existsb_exists in Ex as (ep & Hep & Hnil). apply list_elem_of_In, Heps in Hep as (s & pr & po & _ & _ & _ & ->).
    unfold endpointOf in Hnil. destruct (pr =? _); cbn in Hnil; by destruct (if len (GetDomainName s) =? 0 then _ else _).
  - change (0 <= Max (multiplexFactorOf (GetLevel p)) 0 <= 3). rewrite Max_spec.
    pose proof (multiplexFactorOf_range (GetLevel p)). lia.
  - unfold profileMtu, DefaultMTU. destruct (Z.eqb_spec (GetMtu p) 0); cbn [negb]; [lia|]. bool_to_prop.
    apply andb_false_iff in Hmtu as [Hmtu|Hmtu]; bool_to_prop; lia.
Qed.
Lemma accepted_profile_dials_witness :
  ValidateClientConfigSingleProfile example_profile = Ok tt ∧
  ∃ h' (m : Mux (U:=unit)), hints_ok [] h' ∧
    NewClientMuxFromProfile (D:=unit) (P:=unit) [] [] example_profile None None (mkHints ∅ ∅) = (h', Ok (m, chooseDialers example_profile None None)) ∧
    dialCheck m = Ok tt ∧ m_username m = [98] ∧ Ok (m_password m) = profilePassword example_profile ∧
    0 <= m_multiplexFactor m <= 3 ∧ 1280 <= profileMtu example_profile <= 1500 ∧
    ∀ ep, ep ∈ m_endpoints m ↔ ∃ server protocol port, server ∈ Servers example_profile ∧
      (protocol = TransportProtocol_TCP ∨ protocol = TransportProtocol_UDP) ∧ bound (se_PortBindings server) protocol port ∧
      ep = endpointOf (profileMtu example_profile) server protocol port.
Proof.
  assert (ValidateClientConfigSingleProfile example_profile = Ok tt) as Hv by by vm_compute. split; [exact Hv|].
  apply (accepted_profile_dials [] [] example_profile None None (mkHints ∅ ∅) Hv); [by eexists|apply no_hints_ok].
Defined.

(** The table of hosts does not depend on the order in which the map of the
    configuration is ranged over, and the resolver answers with the configured
    address for a configured name in any case of its letters, with or without a
    final dot. *)
Theorem host_table_spec (dns dns' : DNS) (m : gmap (list Z) (list Z)) :
  Hosts dns ≡ₚ Hosts dns' → TransformDNSHosts (Some dns) = Ok m →
  TransformDNSHosts (Some dns') = Ok m ∧
  ∀ resolver d s host, (d, s) ∈ Hosts dns → NormalizeDomainName host = NormalizeDomainName d →
    ∃ ip, ParseIP s = Some ip ∧ HostMapResolver_LookupIP resolver m "ip" host = Ok [ip].
Proof.
  unfold TransformDNSHosts. cbn [from_option]. intros Hp Hm.
  pose proof (hostsLoop_spec (Hosts dns) ∅) as H. rewrite Hm in H. destruct H as (H1 & H2 & H3 & H4).
  pose proof (hostsLoop_spec (Hosts dns') ∅) as H'. split.
  - destruct (hostsLoop (Hosts dns') ∅) as [m'|e|msg]; [|exfalso; apply H'; split_and!; [by rewrite <-Hp|by rewrite <-Hp|intros e' He'; by rewrite lookup_empty]|done].
    f_equal. apply map_eq. intros n. destruct H' as (_ & _ & _ & H4'). apply option_eq. intros ip. rewrite H4, H4'. by setoid_rewrite Hp.
  - intros resolver d s host Hin Hn. pose proof H1 as Hf. rewrite Forall_forall in Hf. destruct (Hf _ Hin) as (_ & _ & _ & [ip Hip]).
    exists ip. split; [done|]. unfold HostMapResolver_LookupIP. rewrite Hn.
    assert (m !! NormalizeDomainName d = Some ip) as ->; [|done]. apply H4. right. by exists (d, s).
Qed.
Lemma host_table_spec_witness :
  let dns := mkDNS None [(bytes_of_string "Example.com", bytes_of_string "192.0.2.1"); (bytes_of_string "b", bytes_of_string "::1")] in
  let dns' := mkDNS None [(bytes_of_string "b", bytes_of_string "::1"); (bytes_of_string "Example.com", bytes_of_string "192.0.2.1")] in
  ∃ m, TransformDNSHosts (Some dns) = Ok m ∧ TransformDNSHosts (Some dns') = Ok m ∧
  ∀ resolver d s host, (d, s) ∈ Hosts dns → NormalizeDomainName host = NormalizeDomainName d →
    ∃ ip, ParseIP s = Some ip ∧ HostMapResolver_LookupIP resolver m "ip" host = Ok [ip].
Proof.
  intros dns dns'. destruct (TransformDNSHosts (Some dns)) as [m|e|msg] eqn:E; [|vm_compute in E; discriminate E..].
  exists m. split; [done|]. apply (host_table_spec dns dns' m); [|exact E]. apply Permutation_swap.
Defined.
