(* ===== verification/ServerConfig.v ===== *)
(** * pkg/appctl/server.go: the server's configuration and its life

    Patches are validated, merged into the stored configuration and validated as
    a whole; the stored configuration makes a server proxy, and is loaded again
    by [Reload].  The file of the configuration holds the bytes of the codec
    ([stored], nothing before the daemon's first run); reading and writing it may
    fail ([load_err], [store_err]), and a write that fails after the file was
    truncated leaves what it had written by then.  The codec is proto's: an argument, with the
    hypothesis that what was encoded decodes.  The RPC transport, logs, metrics
    and the serving goroutine are left out.

    Theorems: a valid patch of a valid configuration gives a valid configuration
    with the users of both ([merge_valid]); commands and file errors keep the
    stored configuration valid and free of plain passwords, unless a write stops
    in the middle, and then the next one that succeeds in replacing or patching
    it makes it so again ([stored_config_good]); a valid configuration starts a server that listens
    at its ports and knows its users ([valid_config_starts]); a reload changes
    what the multiplexer knows of users and ports ([reload_spec]), and nothing
    of what the SOCKS5 server knows ([revoked_permission_remains]); the egress
    rules of a valid configuration always decide ([egress_rules_decide]). *)
From S2P Require Import Prelude MathExt Messages GoStd GoFloat GoNet GoIP Ascii Cipher Rng SourceCache ServerUser Underlay Segment Session SessionMap.
From S2P Require Import Scheduler UnderlayClass Mux TrafficConfig Effects Socks Egress SocksServer UDPRelay AppCommon.
From S2P Require PacketUnderlay.

(** ** Messages *)

Record ServerAdvancedSettings := mkServerAdvancedSettings {
  MetricsLoggingInterval : option (list Z); UserHintIsMandatory : option bool; TcpIdleTimeout : option (list Z)
}.
(** A nil slice of port bindings is [None]: merging tells it from an empty one. *)
Record ServerConfig := mkServerConfig {
  ListenIPAddress : option (list Z);
  PortBindings : option (list PortBinding);
  sc_Users : list (option User);
  AdvancedSettings : option ServerAdvancedSettings;
  LoggingLevel : option Z;
  sc_Mtu : option Z;
  sc_Egress : option Egress;
  Dns : option DNS;
  sc_TrafficPattern : option TrafficPattern
}.
#[export] Instance ServerConfig_eta : Settable ServerConfig := λ c,
  mkServerConfig (ListenIPAddress c) (PortBindings c) (sc_Users c) (AdvancedSettings c) (LoggingLevel c) (sc_Mtu c) (sc_Egress c) (Dns c) (sc_TrafficPattern c).
Definition emptyServerConfig : ServerConfig := mkServerConfig None None [] None None None None None None.
Definition GetListenIPAddress (c : ServerConfig) : list Z := default [] (ListenIPAddress c).
Definition GetPortBindings (c : ServerConfig) : list PortBinding := default [] (PortBindings c).
Definition GetServerMtu (c : ServerConfig) : Z := default 0 (sc_Mtu c).
Definition GetLoggingLevel (c : ServerConfig) : Z := default 0 (LoggingLevel c).
Definition GetMetricsLoggingInterval (c : ServerConfig) : list Z := default [] (AdvancedSettings c ≫= MetricsLoggingInterval).
Definition GetTcpIdleTimeout (c : ServerConfig) : list Z := default [] (AdvancedSettings c ≫= TcpIdleTimeout).
Definition GetUserHintIsMandatory (c : ServerConfig) : bool := default false (AdvancedSettings c ≫= UserHintIsMandatory).
Definition GetProxies (c : ServerConfig) : list EgressProxy := from_option Proxies [] (sc_Egress c).
Definition GetRules (c : ServerConfig) : list EgressRule := from_option Rules [] (sc_Egress c).

(** [proto.Equal(config, &pb.ServerConfig{})] *)
Definition isEmptyServerConfig (c : ServerConfig) : bool :=
  bool_decide (ListenIPAddress c = None) && (len (GetPortBindings c) =? 0) && (len (sc_Users c) =? 0) &&
  (match AdvancedSettings c with None => true | Some _ => false end) && bool_decide (LoggingLevel c = None) && bool_decide (sc_Mtu c = None) &&
  (match sc_Egress c with None => true | Some _ => false end) && (match Dns c with None => true | Some _ => false end) &&
  (match sc_TrafficPattern c with None => true | Some _ => false end).

(** ** Validation *)

Definition UNKNOWN_PROXY_PROTOCOL : Z := 0.
(** The loop over the proxies; it remembers the names. *)
Fixpoint validateProxies (proxies : list EgressProxy) (usedProxyNames : gset (list Z)) : result (gset (list Z)) :=
  match proxies with
  | [] => Ok usedProxyNames
  | proxy :: proxies =>
    if len (GetProxyName proxy) =? 0 then Err (Errorf "egress proxy name is empty") else
    if bool_decide (GetProxyName proxy ∈ usedProxyNames) then Err (Errorf "found duplicate egress proxy name") else
    let usedProxyNames := {[GetProxyName proxy]} ∪ usedProxyNames in
    if default UNKNOWN_PROXY_PROTOCOL (ep_Protocol proxy) =? UNKNOWN_PROXY_PROTOCOL then Err (Errorf "egress proxy protocol is not set") else
    if len (GetHost proxy) =? 0 then Err (Errorf "egress proxy host is not set") else
    if (GetPort proxy <? 1) || (GetPort proxy >? 65535) then Err (Errorf "egress proxy port number is invalid") else
    let hasUser := negb (len (GetAuthUser (GetSocks5Authentication proxy)) =? 0) in
    let hasPassword := negb (len (GetAuthPassword (GetSocks5Authentication proxy)) =? 0) in
    if negb hasUser && hasPassword then Err (Errorf "egress proxy socks5 authentication user is not set") else
    if hasUser && negb hasPassword then Err (Errorf "egress proxy socks5 authentication password is not set") else
    validateProxies proxies usedProxyNames
  end.
Definition validateIPRange (ipRange : list Z) : result unit :=
  if negb (bool_decide (ipRange = bytes_of_string "*")) && (match ParseCIDR ipRange with None => true | Some _ => false end)
  then Err (Errorf "egress rule: invalid IP CIDR") else Ok tt.
Definition validateRuleDomain (domain : list Z) : result unit :=
  if len domain =? 0 then Err (Errorf "egress rule: domain name is empty") else
  if byte_at 0 domain =? 46 then Err (Errorf "egress rule: domain name must not begin with a dot") else
  if byte_at (length domain - 1) domain =? 46 then Err (Errorf "egress rule: domain name must not end with a dot") else Ok tt.
Definition validateRule (usedProxyNames : gset (list Z)) (rule : EgressRule) : result unit :=
  _ ← each validateIPRange (IpRanges rule);
  _ ← each validateRuleDomain (DomainNames rule);
  if GetAction rule =? EgressAction_PROXY then
    if len (ProxyNames rule) =? 0 then Err (Errorf "egress rule: proxy name list is empty for PROXY action") else
    each (λ name, if bool_decide (name ∈ usedProxyNames) then Ok tt else Err (Errorf "egress rule: proxy is referenced but not defined")) (ProxyNames rule)
  else if len (ProxyNames rule) >? 0 then Err (Errorf "egress rule: proxy name list is not empty for non-PROXY action") else Ok tt.
Definition validateEgress (c : ServerConfig) : result unit :=
  usedProxyNames ← validateProxies (GetProxies c) ∅;
  each (validateRule usedProxyNames) (GetRules c).

Section duration.
Context `{F : GoFloat}.

Definition validateMetricsInterval (value : list Z) : result unit :=
  if len value =? 0 then Ok tt else
  match ParseDuration value with
  | Ok d => if d <? Second then Err (Errorf "metrics logging interval is less than 1 second") else Ok tt
  | Err e => Err (Wrapf "metrics logging interval is invalid" e)
  | Panic m => Panic m
  end.
Definition mtuOutOfRange (mtu : Z) : bool := negb (mtu =? 0) && ((mtu <? 1280) || (mtu >? 1500)).
Definition ValidateServerConfigPatch (patch : ServerConfig) : result unit :=
  _ ← ValidateServerListenIPAddress (GetListenIPAddress patch);
  _ ← FlatPortBindings (GetPortBindings patch);
  _ ← each ValidateServerConfigSingleUser (sc_Users patch);
  if mtuOutOfRange (GetServerMtu patch) then Err (Errorf "MTU value is out of range, valid range is [1280, 1500]") else
  _ ← validateEgress patch;
  _ ← (match TransformDNSHosts (Dns patch) with Err e => Err (Wrapf "invalid DNS configuration" e) | Ok _ => Ok tt | Panic m => Panic m end);
  _ ← validateMetricsInterval (GetMetricsLoggingInterval patch);
  _ ← ParseServerTCPIdleTimeout (GetTcpIdleTimeout patch);
  match TrafficConfig.Validate (sc_TrafficPattern patch) with
  | Ok _ => Ok tt
  | Err e => Err (Wrapf "invalid traffic pattern" e)
  | Panic m => Panic m
  end.
Definition ValidateFullServerConfig (config : ServerConfig) : result unit :=
  _ ← ValidateServerConfigPatch config;
  if isEmptyServerConfig config then Err (Errorf "server config is empty") else
  if len (GetPortBindings config) =? 0 then Err (Errorf "server port binding is not set") else Ok tt.
End duration.

(** ** Merging *)

(** [sort.Strings] of distinct names, and the map from names to messages in the
    order of the names. *)
Definition bytesLe (a b : list Z) : Prop := bytesLtb b a = false.
#[export] Instance bytesLe_dec : RelDecision bytesLe.
Proof. intros a b. unfold bytesLe. apply _. Defined.
Definition sortedValues {V} (m : gmap (list Z) V) : list V :=
  omap (λ name, m !! name) (merge_sort bytesLe (map_to_list m).*1).
Definition replaceNil {A} (dst src : option A) : option A := match src with Some _ => src | None => dst end.
(** The messages of both lists, by the names that [f] gives them. *)
Definition mergeBy {V} (f : V → list Z) (dst src : list V) : list V :=
  sortedValues (foldl (λ m u, <[f u := u]> m) (foldl (λ m u, <[f u := u]> m) ∅ dst) src).
Definition mergeUsers : list (option User) → list (option User) → list (option User) := mergeBy GetName.
Definition MergeServerConfig (dst src : ServerConfig) : ServerConfig :=
  mkServerConfig (replaceNil (ListenIPAddress dst) (ListenIPAddress src))
    (replaceNil (PortBindings dst) (PortBindings src))
    (mergeUsers (sc_Users dst) (sc_Users src))
    (replaceNil (AdvancedSettings dst) (AdvancedSettings src))
    (Some (default (GetLoggingLevel dst) (LoggingLevel src)))
    (Some (default (GetServerMtu dst) (sc_Mtu src)))
    (replaceNil (sc_Egress dst) (sc_Egress src))
    (replaceNil (Dns dst) (Dns src))
    (replaceNil (sc_TrafficPattern dst) (sc_TrafficPattern src)).

(** The users whose name is not to be deleted. *)
Definition remainingUsers (names : list (list Z)) (users : list (option User)) : list (option User) :=
  List.filter (λ u, negb (existsb (λ toDelete, bool_decide (GetName u = toDelete)) names)) users.

(** ** The stored configuration *)

(** How [os.WriteFile] fails: the file, or its directory, cannot be opened; or
    it was opened, which truncates it, and the write stopped with [part] in it. *)
Inductive writeFault (B : Type) :=
| OpenFails (e : error)
| WriteStops (e : error) (part : B).
Arguments OpenFails {B} e.
Arguments WriteStops {B} e part.
(** The file, as bytes of the codec, and what reading it and writing it meets. *)
Record disk (B : Type) := mkDisk { stored : option B; load_err : option error; store_err : option (writeFault B) }.
Arguments mkDisk {B} stored load_err store_err.
Arguments stored {B} d.
Arguments load_err {B} d.
Arguments store_err {B} d.
#[export] Instance disk_eta B : Settable (disk B) := λ d, mkDisk (stored d) (load_err d) (store_err d).
Definition ErrFileNotExist : error := Errorf "file does not exist".
(** [os.WriteFile]. *)
Definition WriteFile {B} (b : B) (d : disk B) : disk B * result unit :=
  match store_err d with
  | None => (d<|stored := Some b|>, Ok tt)
  | Some (OpenFails e) => (d, Err (Wrapf "os.WriteFile() failed" e))
  | Some (WriteStops e part) => (d<|stored := Some part|>, Err (Wrapf "os.WriteFile() failed" e))
  end.
(** No write stops after the file was truncated. *)
Definition writes_whole {B} (fault : option (writeFault B)) : Prop :=
  match fault with Some (WriteStops _ _) => False | _ => True end.

(** [if err != nil { return fmt.Errorf(msg, err) }] *)
Definition wrapped {A} (msg : string) (r : result A) : result A := match r with Err e => Err (Wrapf msg e) | _ => r end.

Section disk.
Context `{F : GoFloat} {B : Type} (Marshal : ServerConfig → option B) (Unmarshal : B → option ServerConfig).

Definition LoadServerConfig (d : disk B) : result ServerConfig :=
  match load_err d with
  | Some e => Err e
  | None =>
    match stored d with
    | None => Err ErrFileNotExist
    | Some b => match Unmarshal b with Some c => Ok c | None => Err (Errorf "proto.Unmarshal() failed") end
    end
  end.
(** The file holds the passwords as hashes only. *)
Definition StoreServerConfig (config : option ServerConfig) (d : disk B) : disk B * result unit :=
  match config with
  | None => (d, Err (Errorf "ServerConfig is nil"))
  | Some c =>
    let c := c<|sc_Users := HashUserPasswords (sc_Users c) false|> in
    match Marshal c with
    | None => (d, Err (Errorf "proto.Marshal() failed"))
    | Some b => WriteFile b d
    end
  end.
Definition DeleteServerUsers (names : list (list Z)) (d : disk B) : disk B * result unit :=
  match LoadServerConfig d with
  | Ok config =>
    match StoreServerConfig (Some (config<|sc_Users := remainingUsers names (sc_Users config)|>)) d with
    | (d, Err e) => (d, Err (Wrapf "StoreServerConfig() failed" e))
    | r => r
    end
  | Err e => (d, Err (Wrapf "LoadServerConfig() failed" e))
  | Panic m => (d, Panic m)
  end.
(** The RPC service. *)
Definition GetConfig (d : disk B) : result ServerConfig :=
  match LoadServerConfig d with Err e => Err (Wrapf "LoadServerConfig() failed" e) | r => r end.
Definition SetConfig (req : ServerConfig) (d : disk B) : disk B * result ServerConfig :=
  match StoreServerConfig (Some req) d with
  | (d, Ok _) => (d, GetConfig d)
  | (d, Err e) => (d, Err (Wrapf "StoreServerConfig() failed" e))
  | (d, Panic m) => (d, Panic m)
  end.
(** The commands that call it: apply, replace, and delete users. *)
Definition cliSet (config : result ServerConfig) (d : disk B) : disk B * result unit :=
  match config with
  | Err e => (d, Err e)
  | Panic m => (d, Panic m)
  | Ok c => let '(d, r) := SetConfig c d in (d, wrapped "set mita server config failed" ((λ _, tt) <$> r))
  end.
Definition serverApplyConfig (patch : ServerConfig) (d : disk B) : disk B * result unit :=
  cliSet (_ ← wrapped "validate server config patch failed" (ValidateServerConfigPatch patch);
          config ← wrapped "get mita server config failed" (GetConfig d);
          let config := MergeServerConfig config patch in
          _ ← wrapped "ValidateFullServerConfig() failed" (ValidateFullServerConfig config);
          Ok config) d.
Definition serverReplaceConfig (config : ServerConfig) (d : disk B) : disk B * result unit :=
  cliSet (_ ← wrapped "ValidateFullServerConfig() failed" (ValidateFullServerConfig config); Ok config) d.
Definition serverDeleteUser (names : list (list Z)) (d : disk B) : disk B * result unit :=
  cliSet (config ← wrapped "get mita server config failed" (GetConfig d); Ok (config<|sc_Users := remainingUsers names (sc_Users config)|>)) d.
(** The daemon stores an empty configuration before its first run. *)
Definition initServerConfig (d : disk B) : disk B * result unit :=
  match LoadServerConfig d with
  | Err e => if bool_decide (e = ErrFileNotExist) then
      let '(d, r) := StoreServerConfig (Some emptyServerConfig) d in (d, wrapped "create empty mita server config file failed" r)
    else (d, Err e)
  | Ok _ => (d, Ok tt)
  | Panic m => (d, Panic m)
  end.
End disk.

(** ** The server proxy *)

Definition AppStatus_IDLE : Z := 1.
Definition AppStatus_STARTING : Z := 2.
Definition AppStatus_RUNNING : Z := 3.
Definition AppStatus_STOPPING : Z := 4.
Definition AppStatus_STOPPED : Z := 5.

Section server.
Context `{F : GoFloat} `{BT : BTree} {U : Type} `{UL : !UnderlayOps U} {B : Type} (Unmarshal : B → option ServerConfig).
Context (appVersion hostName : list Z).

Definition serverMtu (config : ServerConfig) : Z := if negb (GetServerMtu config =? 0) then GetServerMtu config else DefaultMTU.
Definition configEndpoints (config : ServerConfig) : result (list endpoint) :=
  AddrPortToUnderlayProperties (GetListenIPAddress config) (GetPortBindings config) (serverMtu config).

Record serverProxy := mkServerProxy { sp_mux : Mux (U:=U); sp_socks5Server : Config; sp_hosts : gmap (list Z) (list Z) }.
(** The SOCKS5 server's configuration: the users are those of now. *)
Definition egressSocks5Config (config : ServerConfig) : Config :=
  mkConfig false (SocksServer.mkAuth true [] None) (10 * Second) false UDPAssociateModePacketOverStream
    (mkRules (UserListToMap (sc_Users config)) (mkEgress (GetProxies config) (GetRules config)) false)
    (default 0 (Dns config ≫= DualStack)) false.
(** [n] is the number of the generation of users that is compiled. *)
Definition newServerProxy (n : Z) (config : ServerConfig) : gen (result serverProxy) :=
  trafficPattern ← NewConfig appVersion hostName (sc_TrafficPattern config);
  mret (
    trafficPattern ← trafficPattern;
    tcpIdleTimeout ← ParseServerTCPIdleTimeout (GetTcpIdleTimeout config);
    let mux := SetTrafficPattern (Some (TrafficConfig.effective trafficPattern)) (NewMux false) in
    mux ← SetServerUsers n (UserListToMap (sc_Users config)) mux;
    mux ← SetServerUserHintIsMandatory (GetUserHintIsMandatory config) mux;
    mux ← SetServerTCPIdleTimeout tcpIdleTimeout mux;
    endpoints ← configEndpoints config;
    let mux := SetEndpoints (λ _ _, None) endpoints mux in
    dnsHosts ← TransformDNSHosts (Dns config);
    socks5Server ← New (egressSocks5Config config);
    Ok (mkServerProxy mux socks5Server dnsHosts)).

(** What the process refers to: the SOCKS5 server, the multiplexer, the status
    and the logging level; the caches of hints; and the number of the next
    generation of users. *)
Record server := mkServer {
  socks5ServerRef : option Config;
  serverMuxRef : option (Mux (U:=U));
  appStatus : Z;
  logLevel : Z;
  srv_hints : hints;
  srv_generation : Z
}.
#[export] Instance server_eta : Settable server := λ s,
  mkServer (socks5ServerRef s) (serverMuxRef s) (appStatus s) (logLevel s) (srv_hints s) (srv_generation s).

(** What the multiplexer meets when it starts. *)
Record startEnv := mkStartEnv { se_listen : nat → endpoint → option error; se_order : list nat; se_close : Z → Z → env }.
Definition StartServerProxy (e : startEnv) (config : ServerConfig) (s : server) : server * result unit :=
  match socks5ServerRef s with
  | Some _ => (s, Ok tt)
  | None =>
    let s := s<|appStatus := AppStatus_STARTING|> in
    let '(h, proxy) := newServerProxy (srv_generation s) config (srv_hints s) in
    let s := s<|srv_hints := h|><|srv_generation := srv_generation s + 1|> in
    match proxy with
    | Err err => (s<|appStatus := AppStatus_STOPPED|>, Err err)
    | Panic m => (s, Panic m)
    | Ok p =>
      match Mux.Start (se_listen e) (se_order e) (se_close e) (sp_mux p) with
      | (_, Err err) => (s<|appStatus := AppStatus_STOPPED|>, Err err)
      | (_, Panic m) => (s, Panic m)
      | (mux, Ok _) => (s<|serverMuxRef := Some mux|><|socks5ServerRef := Some (sp_socks5Server p)|><|appStatus := AppStatus_RUNNING|>, Ok tt)
      end
    end
  end.
Definition setLogLevel (config : ServerConfig) (s : server) : server :=
  if GetLoggingLevel config =? 0 then s else s<|logLevel := GetLoggingLevel config|>.
Definition loadValidConfig (d : disk B) : result ServerConfig :=
  match LoadServerConfig Unmarshal d with
  | Err e => Err (Wrapf "LoadServerConfig() failed" e)
  | Panic m => Panic m
  | Ok config =>
    match ValidateFullServerConfig config with
    | Err e => Err (Wrapf "ValidateFullServerConfig() failed" e)
    | Panic m => Panic m
    | Ok _ => Ok config
    end
  end.
Definition Start_rpc (e : startEnv) (d : disk B) (s : server) : server * result unit :=
  match loadValidConfig d with
  | Err err => (s, Err err)
  | Panic m => (s, Panic m)
  | Ok config => StartServerProxy e config (setLogLevel config s)
  end.
Definition Stop_rpc (s : server) : server :=
  s<|socks5ServerRef := None|><|serverMuxRef := None|><|appStatus := AppStatus_IDLE|>.

(** What [Reload] changes of a running multiplexer, in its order. *)
Definition reloadMux (listen : nat → endpoint → option error) (n : Z) (config : ServerConfig) (mux : Mux (U:=U)) : Mux (U:=U) * result unit :=
  match configEndpoints config with
  | Err e => (mux, Err e)
  | Panic m => (mux, Panic m)
  | Ok endpoints =>
    match UpdateEndpoints listen endpoints mux with
    | (mux, Err e) => (mux, Err (Wrapf "reload server listeners failed" e))
    | (mux, Panic m) => (mux, Panic m)
    | (mux, Ok (_ :: _)) => (mux, Err (Errorf "reload server listeners failed"))
    | (mux, Ok []) =>
      match (mux ← SetServerUsers n (UserListToMap (sc_Users config)) mux;
             SetServerUserHintIsMandatory (GetUserHintIsMandatory config) mux) with
      | Ok mux =>
        match ParseServerTCPIdleTimeout (GetTcpIdleTimeout config) with
        | Ok t => match SetServerTCPIdleTimeout t mux with Ok mux => (mux, Ok tt) | Err e => (mux, Err e) | Panic m => (mux, Panic m) end
        | Err e => (mux, Err e)
        | Panic m => (mux, Panic m)
        end
      | Err e => (mux, Err e)
      | Panic m => (mux, Panic m)
      end
    end
  end.
Definition Reload_rpc (listen : nat → endpoint → option error) (d : disk B) (s : server) : server * result unit :=
  match loadValidConfig d with
  | Err err => (s, Err err)
  | Panic m => (s, Panic m)
  | Ok config =>
    let s := setLogLevel config s in
    match serverMuxRef s with
    | None => (s, Ok tt)
    | Some mux =>
      let '(mux, r) := reloadMux listen (srv_generation s) config mux in
      (s<|serverMuxRef := Some mux|><|srv_generation := srv_generation s + 1|>, r)
    end
  end.
End server.

(** ** Go's order of strings *)

Lemma bytesLtb_irrefl a : bytesLtb a a = false.
Proof. induction a as [|x a IH]; [done|]. cbn. by rewrite Z.ltb_irrefl. Qed.
Lemma bytesLtb_trichotomy a b : bytesLtb a b = true ∨ a = b ∨ bytesLtb b a = true.
Proof.
  revert b. induction a as [|x a IH]; intros [|y b]; cbn; auto.
  destruct (Z.ltb_spec x y); [by left|]. destruct (Z.ltb_spec y x); [by right; right|]. assert (x = y) as -> by lia.
  destruct (IH b) as [?|[->|?]]; auto.
Qed.
Lemma bytesLtb_trans a b c : bytesLtb a b = true → bytesLtb b c = true → bytesLtb a c = true.
Proof.
  revert b c. induction a as [|x a IH]; intros [|y b] [|z c]; cbn; try done.
  destruct (Z.ltb_spec x y), (Z.ltb_spec y x), (Z.ltb_spec y z), (Z.ltb_spec z y), (Z.ltb_spec x z), (Z.ltb_spec z x); try done; try lia.
  apply IH.
Qed.
Lemma bytesLtb_asym a b : bytesLtb a b = true → bytesLtb b a = false.
Proof.
  intros H. destruct (bytesLtb b a) eqn:E; [|done]. pose proof (bytesLtb_trans _ _ _ H E) as H'. by rewrite bytesLtb_irrefl in H'.
Qed.
#[export] Instance bytesLe_total : Total bytesLe.
Proof. intros a b. unfold bytesLe. destruct (bytesLtb_trichotomy a b) as [H|[->|H]]; [left|left|right]; [by apply bytesLtb_asym|apply bytesLtb_irrefl|by apply bytesLtb_asym]. Qed.
Lemma bytesLe_cases a b : bytesLe a b ↔ a = b ∨ bytesLtb a b = true.
Proof.
  unfold bytesLe. split.
  - intros H. destruct (bytesLtb_trichotomy a b) as [?|[?|?]]; auto. congruence.
  - intros [->|H]; [apply bytesLtb_irrefl|by apply bytesLtb_asym].
Qed.
#[export] Instance bytesLe_trans : Transitive bytesLe.
Proof.
  intros a b c. rewrite !bytesLe_cases. intros [->|H1] [->|H2]; auto. right. by eapply bytesLtb_trans.
Qed.

(** ** Merging by names *)

(** Who has the name: the last one of the list. *)
Definition lastBy {V} (f : V → list Z) (name : list Z) (l : list V) : option V := last (filter (λ u, f u = name) l).
Definition ofBoth {V} (f : V → list Z) (dst src : list V) (name : list Z) : option V :=
  match lastBy f name src with Some u => Some u | None => lastBy f name dst end.
Lemma lastBy_snoc {V} (f : V → list Z) name l u :
  lastBy f name (l ++ [u]) = if decide (f u = name) then Some u else lastBy f name l.
Proof.
  unfold lastBy. rewrite filter_app, filter_cons, filter_nil. destruct (decide _); [by rewrite last_snoc|by rewrite app_nil_r].
Qed.
Lemma foldl_by {V} (f : V → list Z) (m : gmap (list Z) V) l name :
  foldl (λ m u, <[f u := u]> m) m l !! name = match lastBy f name l with Some u => Some u | None => m !! name end.
Proof.
  induction l as [|u l IH] using rev_ind; [done|]. rewrite foldl_app, lastBy_snoc. cbn. destruct (decide (f u = name)) as [<-|Hne].
  - by rewrite lookup_insert_eq.
  - by rewrite lookup_insert_ne.
Qed.
Lemma lastBy_Some {V} (f : V → list Z) name l u : lastBy f name l = Some u → f u = name ∧ u ∈ l.
Proof. unfold lastBy. intros H%last_Some_elem_of. by apply list_elem_of_filter in H. Qed.
Lemma ofBoth_Some {V} (f : V → list Z) dst src n u : ofBoth f dst src n = Some u → f u = n ∧ (u ∈ src ∨ u ∈ dst).
Proof.
  unfold ofBoth. destruct (lastBy f n src) as [x|] eqn:E; [intros [= <-]|intros E'];
    [apply lastBy_Some in E as [? ?]|apply lastBy_Some in E' as [? ?]]; auto.
Qed.

(** Maps from the names of their values. *)
Lemma sortedValues_spec {V} (f : V → list Z) (m : gmap (list Z) V) :
  (∀ n v, m !! n = Some v → f v = n) →
  StronglySorted (λ a b, bytesLtb (f a) (f b) = true) (sortedValues m) ∧ ∀ v, v ∈ sortedValues m ↔ m !! f v = Some v.
Proof.
  intros Hf. unfold sortedValues. set (ks := merge_sort bytesLe _).
  assert (ks ≡ₚ (map_to_list m).*1) as Hp by apply merge_sort_Permutation.
  assert (NoDup ks) as Hn by (rewrite Hp; apply NoDup_fst_map_to_list).
  assert (∀ n, n ∈ ks → is_Some (m !! n)) as Hk.
  { intros n Hin. rewrite Hp, list_elem_of_fmap in Hin. destruct Hin as ([k v] & -> & Hin%elem_of_map_to_list). by exists v. }
  assert (StronglySorted bytesLe ks) as Hs by (apply (StronglySorted_merge_sort bytesLe)). split.
  - clear Hp. induction Hs as [|n l Hs IH Hall]; [constructor|]. apply NoDup_cons in Hn as [Hni Hn]. cbn.
    destruct (Hk n ltac:(left)) as [v Ev]. rewrite Ev. constructor; [apply IH; [done|]; intros n' Hn'; apply Hk; by right|].
    apply Forall_forall. intros w (n' & Hin & Ew)%list_elem_of_omap. rewrite (Hf _ _ Ev), (Hf _ _ Ew).
    rewrite Forall_forall in Hall. specialize (Hall n' Hin). apply bytesLe_cases in Hall as [->|?]; [done|done].
  - intros v. rewrite list_elem_of_omap. split.
    + intros (n & _ & E). by rewrite (Hf _ _ E).
    + intros E. exists (f v). split; [|done]. rewrite Hp, list_elem_of_fmap. exists (f v, v). split; [done|]. by apply elem_of_map_to_list.
Qed.
Lemma mergeBy_spec {V} (f : V → list Z) dst src :
  StronglySorted (λ a b, bytesLtb (f a) (f b) = true) (mergeBy f dst src) ∧
  ∀ u, u ∈ mergeBy f dst src ↔ ofBoth f dst src (f u) = Some u.
Proof.
  set (m := foldl (λ m u, <[f u := u]> m) (foldl (λ m u, <[f u := u]> m) (∅ : gmap (list Z) V) dst) src).
  assert (∀ n, m !! n = ofBoth f dst src n) as Hm.
  { intros n. unfold m, ofBoth. rewrite !foldl_by. destruct (lastBy f n src); [done|]. by destruct (lastBy f n dst). }
  destruct (sortedValues_spec f m) as [H1 H2]; [intros n v; rewrite Hm; by intros [? _]%ofBoth_Some|].
  split; [exact H1|]. intros u. rewrite <-Hm. exact (H2 u).
Qed.

(** ** What is validated *)

Section valid.
Context `{F : GoFloat}.

Definition part_ok {A} (r : result A) : Prop := is_Ok r.
(** The checks of a patch, field by field. *)
Record patch_ok (c : ServerConfig) : Prop := {
  ok_listen : ValidateServerListenIPAddress (GetListenIPAddress c) = Ok tt;
  ok_ports : is_Ok (FlatPortBindings (GetPortBindings c));
  ok_users : Forall (λ u, ValidateServerConfigSingleUser u = Ok tt) (sc_Users c);
  ok_mtu : mtuOutOfRange (GetServerMtu c) = false;
  ok_egress : validateEgress c = Ok tt;
  ok_dns : is_Ok (TransformDNSHosts (Dns c));
  ok_metrics : validateMetricsInterval (GetMetricsLoggingInterval c) = Ok tt;
  ok_idle : is_Ok (ParseServerTCPIdleTimeout (GetTcpIdleTimeout c));
  ok_pattern : TrafficConfig.Validate (sc_TrafficPattern c) = Ok tt
}.
Lemma bind_any {A} (r : result A) (k : result unit) : (_ ← r; k) = Ok tt ↔ is_Ok r ∧ k = Ok tt.
Proof. destruct r as [a|e|m]; cbn; [|split; [done|by intros [[? [=]] _]]..]. split; [|by intros []]. intros H. split; [by eexists|done]. Qed.
Lemma is_Ok_unit (r : result unit) : is_Ok r ↔ r = Ok tt.
Proof. split; [by intros [[] ->]|intros ->; by eexists]. Qed.
Lemma match_Ok {A} (r : result A) f g : match r with Ok _ => Ok tt | Err e => Err (f e) | Panic m => Panic (g m) end = Ok tt ↔ is_Ok r.
Proof. destruct r; split; try done; try (by intros [? [=]]). intros _. by eexists. Qed.

Lemma ValidateServerConfigPatch_spec c : ValidateServerConfigPatch c = Ok tt ↔ patch_ok c.
Proof.
  unfold ValidateServerConfigPatch. rewrite bind_unit, bind_any, bind_unit, guard_spec, !bind_unit, bind_any, each_spec.
  assert ((match TransformDNSHosts (Dns c) with Ok _ => Ok tt | Err e => Err (Wrapf "invalid DNS configuration" e) | Panic m => Panic m end) = Ok tt
    ↔ is_Ok (TransformDNSHosts (Dns c))) as -> by apply (match_Ok _ _ (λ m, m)).
  assert ((match TrafficConfig.Validate (sc_TrafficPattern c) with Ok _ => Ok tt | Err e => Err (Wrapf "invalid traffic pattern" e) | Panic m => Panic m end) = Ok tt
    ↔ TrafficConfig.Validate (sc_TrafficPattern c) = Ok tt) as -> by (rewrite (match_Ok _ _ (λ m, m)); apply is_Ok_unit).
  split; [intros (H1 & H2 & H3 & H4 & H5 & H6 & H7 & H8 & H9); by split|by intros []].
Qed.
Lemma isEmpty_no_ports c : isEmptyServerConfig c = true → GetPortBindings c = [].
Proof. unfold isEmptyServerConfig. intros H. bool_to_prop. by apply len_zero. Qed.
Lemma ValidateFullServerConfig_spec c : ValidateFullServerConfig c = Ok tt ↔ patch_ok c ∧ GetPortBindings c ≠ [].
Proof.
  unfold ValidateFullServerConfig. rewrite bind_unit, !guard_spec, ValidateServerConfigPatch_spec, Z.eqb_neq, len_zero. split; [tauto|].
  intros [H1 H2]. split; [done|]. split; [|done]. destruct (isEmptyServerConfig c) eqn:E; [|done]. by apply isEmpty_no_ports in E.
Qed.

Lemma merged_ok dst src : patch_ok dst → patch_ok src → patch_ok (MergeServerConfig dst src).
Proof.
  intros [D1 D2 D3 D4 D5 D6 D7 D8 D9] [S1 S2 S3 S4 S5 S6 S7 S8 S9].
  split; unfold GetListenIPAddress, GetPortBindings, GetServerMtu, GetMetricsLoggingInterval, GetTcpIdleTimeout, validateEgress, GetProxies, GetRules in *;
    cbn [MergeServerConfig ListenIPAddress PortBindings sc_Users sc_Mtu sc_Egress Dns AdvancedSettings sc_TrafficPattern]; unfold replaceNil.
  - by destruct (ListenIPAddress src).
  - by destruct (PortBindings src).
  - rewrite Forall_forall in *. intros u Hu. apply mergeBy_spec, ofBoth_Some in Hu as [_ [Hu|Hu]]; auto.
  - unfold GetServerMtu. by destruct (sc_Mtu src).
  - by destruct (sc_Egress src).
  - by destruct (Dns src).
  - by destruct (AdvancedSettings src).
  - by destruct (AdvancedSettings src).
  - by destruct (sc_TrafficPattern src).
Qed.
End valid.

(** ** The stored configuration stays valid *)

(** What decoding makes of an encoded configuration: an empty list of port
    bindings is nil. *)
Definition decoded (c : ServerConfig) : ServerConfig :=
  c<|PortBindings := match PortBindings c with Some [] => None | o => o end|>.

Section stored.
Context `{F : GoFloat} {B : Type} (Marshal : ServerConfig → option B) (Unmarshal : B → option ServerConfig).
Hypothesis codec : ∀ c b, Marshal c = Some b → Unmarshal b = Some (decoded c).

Lemma decoded_ports c : GetPortBindings (decoded c) = GetPortBindings c.
Proof using. unfold decoded, GetPortBindings. cbn. by destruct (PortBindings c) as [[|]|]. Qed.
Lemma decoded_patch_ok c : patch_ok c → patch_ok (decoded c).
Proof using. intros []. split; rewrite ?decoded_ports; assumption. Qed.

(** Passwords in the file are hashes. *)
Definition no_plaintext (c : ServerConfig) : Prop := Forall (λ u, GetPassword u = []) (sc_Users c).
(** A stored configuration is good: valid, or the one of before the first
    [apply], without users. *)
Definition config_good (c : ServerConfig) : Prop :=
  no_plaintext c ∧ patch_ok c ∧ (GetPortBindings c ≠ [] ∨ (isEmptyServerConfig c = true)).
Definition disk_good (d : disk B) : Prop := ∀ b, stored d = Some b → ∃ c, Unmarshal b = Some c ∧ config_good c.

Lemma hashed_user_ok u : ValidateServerConfigSingleUser u = Ok tt → ValidateServerConfigSingleUser (HashUserPassword u false) = Ok tt.
Proof using.
  destruct (Z.eq_dec (len (GetPassword u)) 0) as [E|Hp]; [by rewrite HashUserPassword_none|].
  destruct (HashUserPassword_getters u false Hp) as (H1 & H2 & H3 & H4 & _).
  unfold ValidateServerConfigSingleUser. rewrite H1, H2, H3, H4, !guard_spec. intros (G1 & _ & G2 & _ & G3).
  cbn [len length Z.of_nat Z.eqb negb andb]. rewrite (proj2 (Z.eqb_neq _ _) (encoded_credential_nonempty u)). done.
Qed.
Lemma hashed_no_password u : GetPassword (HashUserPassword u false) = [].
Proof using.
  destruct (Z.eq_dec (len (GetPassword u)) 0) as [E|Hp]; [rewrite HashUserPassword_none by done; by apply len_zero|].
  by destruct (HashUserPassword_getters u false Hp) as (_ & _ & _ & H4 & _).
Qed.
Lemma hashed_patch_ok c : patch_ok c → patch_ok (c<|sc_Users := HashUserPasswords (sc_Users c) false|>).
Proof using.
  intros [H1 H2 H3 H4 H5 H6 H7 H8 H9]. split; try assumption. cbn. unfold HashUserPasswords. rewrite Forall_fmap.
  eapply Forall_impl; [exact H3|]. intros u Hu. by apply hashed_user_ok.
Qed.
Lemma isEmpty_hashed c : isEmptyServerConfig (c<|sc_Users := HashUserPasswords (sc_Users c) false|>) = isEmptyServerConfig c.
Proof using. unfold isEmptyServerConfig, HashUserPasswords, len. cbn. by rewrite length_fmap. Qed.
Lemma isEmpty_decoded c : isEmptyServerConfig (decoded c) = isEmptyServerConfig c.
Proof using. unfold isEmptyServerConfig. by rewrite decoded_ports. Qed.

(** Storing a configuration that is valid, or empty. *)
Lemma stored_good c b :
  patch_ok c → GetPortBindings c ≠ [] ∨ isEmptyServerConfig c = true → Marshal (c<|sc_Users := HashUserPasswords (sc_Users c) false|>) = Some b →
  ∃ c', Unmarshal b = Some c' ∧ config_good c'.
Proof using codec.
  intros Hc Hor Em. exists (decoded (c<|sc_Users := HashUserPasswords (sc_Users c) false|>)). split; [by apply codec|]. split_and!.
  - unfold no_plaintext. cbn. unfold HashUserPasswords. rewrite Forall_fmap, Forall_forall. intros u _. apply hashed_no_password.
  - by apply decoded_patch_ok, hashed_patch_ok.
  - rewrite decoded_ports, isEmpty_decoded, isEmpty_hashed. exact Hor.
Qed.
(** What is on the disk afterwards; it is good if it was, and the write does not
    stop in the middle, and also if the write succeeds. *)
Lemma store_good c d :
  patch_ok c → GetPortBindings c ≠ [] ∨ isEmptyServerConfig c = true →
  let '(d', r) := StoreServerConfig Marshal (Some c) d in
  store_err d' = store_err d ∧ (disk_good d ∧ writes_whole (store_err d) ∨ is_Ok r → disk_good d').
Proof using codec.
  intros Hc Hor. unfold StoreServerConfig. destruct (Marshal _) as [b|] eqn:Em; [|split; [done|intros [[? _]|[? ?]]; done]].
  unfold WriteFile, writes_whole. destruct (store_err d) as [[e|e left]|] eqn:Ee; (split; [by rewrite <-?Ee|]).
  - by intros [[? _]|[? ?]].
  - by intros [[_ ?]|[? ?]].
  - intros _ b' [= <-]. by apply (stored_good c).
Qed.
Lemma load_good d c : disk_good d → LoadServerConfig Unmarshal d = Ok c → config_good c.
Proof using.
  intros Hd. unfold LoadServerConfig. destruct (load_err d); [done|]. destruct (stored d) as [b|] eqn:Eb; [|done].
  destruct (Hd b Eb) as (c' & -> & Hc). by intros [= <-].
Qed.

(** The commands that change the file, whatever reading and writing it meet. *)
Inductive command :=
| CmdInit
| CmdApply (patch : ServerConfig)
| CmdReplace (config : ServerConfig)
| CmdDeleteUser (names : list (list Z))
| CmdErrors (load_err : option error) (store_err : option (writeFault B)).
Definition runCommand (d : disk B) (cmd : command) : disk B :=
  match cmd with
  | CmdInit => (initServerConfig Marshal Unmarshal d).1
  | CmdApply patch => (serverApplyConfig Marshal Unmarshal patch d).1
  | CmdReplace config => (serverReplaceConfig Marshal Unmarshal config d).1
  | CmdDeleteUser names => (serverDeleteUser Marshal Unmarshal names d).1
  | CmdErrors l s => d<|load_err := l|><|store_err := s|>
  end.

(** The command lets no write stop in the middle. *)
Definition command_whole (cmd : command) : Prop := match cmd with CmdErrors _ s => writes_whole s | _ => True end.

Lemma cliSet_good r d :
  (∀ c, r = Ok c → patch_ok c ∧ (GetPortBindings c ≠ [] ∨ isEmptyServerConfig c = true)) →
  let '(d', r') := cliSet Marshal Unmarshal r d in
  store_err d' = store_err d ∧ (disk_good d ∧ writes_whole (store_err d) ∨ is_Ok r' → disk_good d').
Proof using codec.
  intros Hr. unfold cliSet. destruct r as [c|e|m]; [|split; [done|by intros [[? _]|[? ?]]]..]. destruct (Hr c eq_refl) as [H1 H2].
  pose proof (store_good c d H1 H2) as Hs. unfold SetConfig.
  destruct (StoreServerConfig Marshal (Some c) d) as [d' [[]|e|m]]; destruct Hs as [H3 H4]; (split; [done|]); intros [H|[x H]]; try done; apply H4; auto.
  right. by eexists.
Qed.
Lemma remaining_ok names c :
  patch_ok c → GetPortBindings c ≠ [] ∨ isEmptyServerConfig c = true →
  patch_ok (c<|sc_Users := remainingUsers names (sc_Users c)|>) ∧
  (GetPortBindings (c<|sc_Users := remainingUsers names (sc_Users c)|>) ≠ [] ∨
   isEmptyServerConfig (c<|sc_Users := remainingUsers names (sc_Users c)|>) = true).
Proof using.
  intros [H1 H2 H3 H4 H5 H6 H7 H8 H9] Hor. split.
  - split; try assumption. cbn. rewrite Forall_forall in *. intros u Hu. apply H3.
    unfold remainingUsers in Hu. apply list_elem_of_In, filter_In in Hu as [Hu _]. by apply list_elem_of_In.
  - destruct Hor as [Hor|He]; [by left|right]. unfold isEmptyServerConfig in *. cbn. bool_to_prop.
    assert (sc_Users c = []) as Eu by by apply len_zero. rewrite Eu. cbn. unfold GetPortBindings in *. cbn. rewrite !andb_true_iff.
    split_and!; try done; by apply Z.eqb_eq || by apply bool_decide_eq_true.
Qed.
Lemma apply_good patch d :
  let '(d', r) := serverApplyConfig Marshal Unmarshal patch d in
  store_err d' = store_err d ∧ (disk_good d ∧ writes_whole (store_err d) ∨ is_Ok r → disk_good d').
Proof using codec.
  apply cliSet_good. intros c.
  destruct (ValidateServerConfigPatch patch) as [[]|e|m] eqn:Ep; [|done..]. cbn [wrapped]. rewrite bind_Ok. apply ValidateServerConfigPatch_spec in Ep.
  unfold GetConfig. destruct (LoadServerConfig Unmarshal d) as [config|e|m] eqn:El; [|done..]. cbn [wrapped]. rewrite bind_Ok.
  destruct (ValidateFullServerConfig _) as [[]|e|m] eqn:Ef; [|done..]. cbn [wrapped]. rewrite bind_Ok. intros [= <-].
  apply ValidateFullServerConfig_spec in Ef as [H1 H2]. auto.
Qed.
Lemma replace_good config d :
  let '(d', r) := serverReplaceConfig Marshal Unmarshal config d in
  store_err d' = store_err d ∧ (disk_good d ∧ writes_whole (store_err d) ∨ is_Ok r → disk_good d').
Proof using codec.
  apply cliSet_good. intros c. destruct (ValidateFullServerConfig config) as [[]|e|m] eqn:Ef; [|done..]. cbn [wrapped]. rewrite bind_Ok. intros [= <-].
  apply ValidateFullServerConfig_spec in Ef as [H1 H2]. auto.
Qed.
Lemma runCommand_good cmd d :
  command_whole cmd → writes_whole (store_err d) → disk_good d → writes_whole (store_err (runCommand d cmd)) ∧ disk_good (runCommand d cmd).
Proof using codec.
  intros Hcmd Hw Hd. destruct cmd as [|patch|config|names|l s]; cbn [runCommand].
  - unfold initServerConfig. destruct (LoadServerConfig Unmarshal d); [done| |done]. destruct (bool_decide _); [|done].
    pose proof (store_good emptyServerConfig d) as Hs. destruct (StoreServerConfig _ _ d) as [d' r].
    destruct Hs as [E Hg]; [apply ValidateServerConfigPatch_spec; reflexivity|by right|]. cbn [fst]. split; [by rewrite E|]. apply Hg. by left.
  - pose proof (apply_good patch d) as Hs. destruct (serverApplyConfig _ _ _ d) as [d' r]. destruct Hs as [E Hg]. cbn [fst]. split; [by rewrite E|]. apply Hg. by left.
  - pose proof (replace_good config d) as Hs. destruct (serverReplaceConfig _ _ _ d) as [d' r]. destruct Hs as [E Hg]. cbn [fst]. split; [by rewrite E|]. apply Hg. by left.
  - assert (let '(d', r) := serverDeleteUser Marshal Unmarshal names d in
      store_err d' = store_err d ∧ (disk_good d ∧ writes_whole (store_err d) ∨ is_Ok r → disk_good d')) as Hs.
    { apply cliSet_good. intros c. unfold GetConfig. destruct (LoadServerConfig Unmarshal d) as [config|e|m] eqn:El; [|done..].
      cbn [wrapped]. rewrite bind_Ok. intros [= <-]. destruct (load_good _ _ Hd El) as (_ & H1 & H2). by apply remaining_ok. }
    destruct (serverDeleteUser _ _ _ d) as [d' r]. destruct Hs as [E Hg]. cbn [fst]. split; [by rewrite E|]. apply Hg. by left.
  - done.
Qed.
End stored.

(** ** The server proxy of a valid configuration *)

Section proxy.
Context `{F : GoFloat} `{BT : BTree} {U : Type} `{UL : !UnderlayOps U}.
Context (ver hostName : list Z).

(** The endpoint that listens on a port. *)
Definition listenOn (config : ServerConfig) (protocol port : Z) : endpoint :=
  let a := Some (ipAddr (ParseIP (GetListenIPAddress config)) port) in
  if protocol =? TransportProtocol_TCP then mkEndpoint (serverMtu config) StreamTransport (TCPAddr a) NilNetAddr
  else mkEndpoint (serverMtu config) PacketTransport (UDPAddr a) NilNetAddr.

Lemma configEndpoints_spec config :
  patch_ok config → GetPortBindings config ≠ [] →
  ∃ eps, configEndpoints config = Ok eps ∧ eps ≠ [] ∧
    ∀ ep, ep ∈ eps ↔ ∃ protocol port, (protocol = TransportProtocol_TCP ∨ protocol = TransportProtocol_UDP) ∧
      bound (GetPortBindings config) protocol port ∧ ep = listenOn config protocol port.
Proof using.
  intros Hok Hne. unfold configEndpoints, AddrPortToUnderlayProperties. rewrite (ok_listen _ Hok), bind_Ok.
  pose proof (FlatPortBindings_spec (GetPortBindings config)) as Hf. pose proof (FlatPortBindings_nonempty (GetPortBindings config)) as Hne'.
  destruct (ok_ports _ Hok) as [res0 E]. rewrite E in *. specialize (Hne' res0 eq_refl Hne). destruct Hf as (_ & tcp & udp & -> & _ & _ & Ht & Hu).
  set (mtu := serverMtu config). set (ip := ParseIP _).
  assert (∀ b, b ∈ flat tcp udp → ∃ protocol port, b = mkPortBinding (Some port) (Some protocol) None ∧
    ((protocol = TransportProtocol_TCP ∧ port ∈ tcp) ∨ (protocol = TransportProtocol_UDP ∧ port ∈ udp)) ∧
    listenEndpoint ip mtu b = Ok [listenOn config protocol port]) as Hd.
  { intros b (protocol & port & -> & Hor)%elem_of_flat. exists protocol, port. split_and!; [done..|]. by destruct Hor as [[-> _]|[-> _]]. }
  destruct (collect_Ok (listenEndpoint ip mtu) (flat tcp udp)) as [res Hc].
  { intros b Hin. destruct (Hd b Hin) as (? & ? & _ & _ & ->). by eexists. }
  exists res. split; [done|]. pose proof (collect_elem _ _ _ Hc) as He. split.
  - destruct (flat tcp udp) as [|b l]; [done|]. destruct (Hd b ltac:(left)) as (pr & po & _ & _ & Hb'). intros ->.
    eapply not_elem_of_nil, He. exists b, [listenOn config pr po]. split_and!; [by left|done|by left].
  - intros ep. rewrite He. split.
    + intros (b & r & Hin & Hr & Hep). destruct (Hd b Hin) as (pr & po & -> & Hor & Hb'). rewrite Hb' in Hr. injection Hr as <-.
      apply list_elem_of_singleton in Hep as ->. exists pr, po. destruct Hor as [[-> Hp]|[-> Hp]];
        (split_and!; [auto| |done]); [by apply Ht|by apply Hu].
    + intros (pr & po & Hor & Hbd & ->). assert (mkPortBinding (Some po) (Some pr) None ∈ flat tcp udp) as Hin.
      { apply elem_of_flat. exists pr, po. split; [done|].
        destruct Hor as [-> | ->]; [left; split; [done|by apply Ht]|right; split; [done|by apply Hu]]. }
      destruct (Hd _ Hin) as (pr' & po' & Heq & _ & E'). injection Heq as <- <-. exists (mkPortBinding (Some po) (Some pr) None), [listenOn config pr po].
      split_and!; [done|done|by left].
Qed.

(** The multiplexer of a configuration. *)
Definition muxOf (n : Z) (config : ServerConfig) (pattern : TrafficPattern) (timeout : Z) (eps : list endpoint) (m : Mux (U:=U)) : Prop :=
  m_isClient m = false ∧ m_used m = false ∧ m_done m = false ∧ m_acceptErr m = None ∧ m_underlays m = emptySlice ∧
  m_trafficPattern m = Some pattern ∧ m_endpoints m = eps ∧ m_serverTCPIdleTimeout m = timeout ∧
  m_serverUsers m = SetHintMandatory (GetUserHintIsMandatory config) (SetUsers n (UserListToMap (sc_Users config)) (mkRegistry None false)).
Lemma newServerProxy_ok n config h :
  ValidateFullServerConfig config = Ok tt → hints_ok ver h →
  ∃ h' p pattern timeout eps, hints_ok ver h' ∧ newServerProxy (U:=U) ver hostName n config h = (h', Ok p) ∧
    sp_socks5Server p = egressSocks5Config config ∧ muxOf n config pattern timeout eps (sp_mux p) ∧
    configEndpoints config = Ok eps ∧ (timeout = 0 ∨ Minute <= timeout).
Proof using.
  intros [Hok Hne]%ValidateFullServerConfig_spec Hh.
  set (o := default (mkTrafficPattern None None None None None None) (sc_TrafficPattern config)).
  assert (pattern_ok o) as Ho.
  { apply Validate_spec. subst o. pose proof (ok_pattern _ Hok). by destruct (sc_TrafficPattern config). }
  destruct (NewConfig_valid ver hostName o h Hh Ho) as (h' & Hh' & Ec).
  assert (NewConfig ver hostName (sc_TrafficPattern config) h = NewConfig ver hostName (Some o) h) as Eo by (subst o; by destruct (sc_TrafficPattern config)).
  destruct (ok_idle _ Hok) as [t Et]. pose proof (ParseServerTCPIdleTimeout_spec (GetTcpIdleTimeout config)) as Ht. rewrite Et in Ht.
  destruct (configEndpoints_spec config Hok Hne) as (eps & Ee & _ & _). destruct (ok_dns _ Hok) as [hosts Eh].
  assert (0 <= t) as Ht0 by (unfold Minute, Second, Millisecond, Microsecond in Ht; lia).
  eexists h', (mkServerProxy _ _ hosts), _, t, eps. split; [done|]. split.
  { unfold newServerProxy, mbind at 1, gen_bind. rewrite Eo, Ec. unfold mret, gen_ret. do 2 f_equal.
    rewrite bind_Ok, Et, bind_Ok. unfold SetServerUsers, SetServerUserHintIsMandatory, SetServerTCPIdleTimeout.
    do 2 (match goal with |- context [m_isClient ?m] => change (m_isClient m) with false end; cbv iota; rewrite bind_Ok).
    match goal with |- context [m_isClient ?m] => change (m_isClient m) with false end. cbv iota.
    rewrite (proj2 (Z.ltb_ge t 0) Ht0), bind_Ok, Ee, bind_Ok, Eh, bind_Ok. reflexivity. }
  split; [reflexivity|]. split; [|done]. by split_and!.
Qed.

Lemma newServerProxy_socks5 n config h h' p :
  newServerProxy (U:=U) ver hostName n config h = (h', Ok p) → sp_socks5Server p = egressSocks5Config config.
Proof using.
  unfold newServerProxy, mbind at 1, gen_bind. destruct (NewConfig _ _ _ h) as [h0 [tp|e|m]]; unfold mret, gen_ret; [|done..].
  intros [= _ H]. revert H.
  repeat match goal with |- mbind _ ?r = _ → _ => destruct r; [rewrite bind_Ok|done..] end. by intros [= <-].
Qed.

Lemma JoinHostPort_nonempty host port : (len (JoinHostPort host port) =? 0) = false.
Proof using.
  apply Z.eqb_neq. unfold JoinHostPort. rewrite len_zero. destruct (existsb _ _); [done|]. intros H. by apply app_eq_nil in H as [_ H].
Qed.
Lemma listenOn_listens config protocol port (listen : endpoint → option error) :
  startListening listen (listenOn config protocol port) = listen (listenOn config protocol port) ∧
  IsNilNetAddr (Some (ep_LocalAddr (listenOn config protocol port))) = false.
Proof using.
  assert (∀ a, (len (inet_String a) =? 0) = false) as Hs by (intros a; unfold inet_String; destruct (len (Zone a) =? 0); apply JoinHostPort_nonempty).
  unfold startListening, listenOn. destruct (protocol =? _); cbn [ep_LocalAddr addr_String addr_Network IsNilNetAddr];
    rewrite Hs; done.
Qed.
Lemma Start_ok listen order close (m : Mux (U:=U)) :
  m_isClient m = false → HasUsers (m_serverUsers m) = true → m_endpoints m ≠ [] → m_acceptErr m = None →
  (∀ k ep, ep ∈ m_endpoints m → startListening (listen k) ep = None ∧ IsNilNetAddr (Some (ep_LocalAddr ep)) = false) →
  Mux.Start listen order close m = (m<|m_used := true|>, Ok tt).
Proof using.
  intros H1 H2 H3 H4 H5. unfold Mux.Start. rewrite H1, H2, (proj2 (Z.eqb_neq _ _)) by by rewrite len_zero. cbn [negb].
  assert (existsb (λ p, IsNilNetAddr (Some (ep_LocalAddr p))) (m_endpoints m) = false) as ->.
  { destruct (existsb _ _) eqn:E; [|done]. apply existsb_exists in E as (ep & Hin & E). apply list_elem_of_In in Hin.
    destruct (H5 0%nat ep Hin) as [_ E']. congruence. }
  assert (∀ k p r, attempts listen (m_endpoints m) !! k = Some (p, r) → r = None) as Ha.
  { intros k p r. unfold attempts. rewrite list_lookup_imap. destruct (m_endpoints m !! k) as [ep|] eqn:E; [|done]. cbn. intros [= <- <-].
    apply H5. by eapply list_elem_of_lookup_2. }
  assert (∀ l (mm : Mux (U:=U)), foldl (λ (m0 : Mux (U:=U)) k, match attempts listen (m_endpoints m) !! k with Some (_, Some err) => setAcceptErr err m0 | _ => m0 end) (mm : Mux (U:=U)) l = mm) as Hf.
  { induction l as [|k l IH]; intros mm; [done|]. cbn. destruct (attempts _ _ !! k) as [[p [err|]]|] eqn:E; [|apply IH..]. by apply Ha in E. }
  rewrite Hf. change (m_acceptErr (m<|m_used := true|>)) with (m_acceptErr m). by rewrite H4.
Qed.
Lemma StartServerProxy_ok e config (s : server (U:=U)) :
  ValidateFullServerConfig config = Ok tt → hints_ok ver (srv_hints s) → socks5ServerRef s = None →
  HasUsers (SetUsers (srv_generation s) (UserListToMap (sc_Users config)) (mkRegistry None false)) = true →
  (∀ k ep, se_listen e k ep = None) →
  ∃ s' m, StartServerProxy ver hostName e config s = (s', Ok tt) ∧ hints_ok ver (srv_hints s') ∧ appStatus s' = AppStatus_RUNNING ∧
    socks5ServerRef s' = Some (egressSocks5Config config) ∧ serverMuxRef s' = Some m ∧ m_isClient m = false ∧ m_used m = true ∧ m_done m = false ∧
    m_serverUsers m = SetHintMandatory (GetUserHintIsMandatory config) (SetUsers (srv_generation s) (UserListToMap (sc_Users config)) (mkRegistry None false)) ∧
    configEndpoints config = Ok (m_endpoints m).
Proof using.
  intros Hv Hh Hs Hu Hl. destruct (newServerProxy_ok (srv_generation s) config (srv_hints s) Hv Hh) as (h' & p & pat & t & eps & Hh' & Ep & E1 & Hm & Ee & _).
  destruct Hm as (M1 & M2 & M3 & M4 & M5 & M6 & M7 & M8 & M9).
  apply ValidateFullServerConfig_spec in Hv as [Hok Hne].
  destruct (configEndpoints_spec config Hok Hne) as (eps' & Ee' & Hne' & Heps). rewrite Ee in Ee'. injection Ee' as <-.
  pose proof (Start_ok (se_listen e) (se_order e) (se_close e) (sp_mux p)) as Hst. rewrite M7, M9 in Hst.
  assert (Mux.Start (se_listen e) (se_order e) (se_close e) (sp_mux p) = ((sp_mux p)<|m_used := true|>, Ok tt)) as Est.
  { apply Hst; [done|exact Hu|done|done|]. intros k ep (pr & po & _ & _ & ->)%Heps.
    destruct (listenOn_listens config pr po (se_listen e k)) as [-> Hn]. split; [apply Hl|exact Hn]. }
  unfold StartServerProxy. rewrite Hs.
  change (srv_hints (s<|appStatus := AppStatus_STARTING|>)) with (srv_hints s).
  change (srv_generation (s<|appStatus := AppStatus_STARTING|>)) with (srv_generation s). rewrite Ep, Est.
  eexists _, ((sp_mux p)<|m_used := true|>). split; [reflexivity|]. cbn. rewrite E1, M1, M3, M7, M9. by split_and!.
Qed.
End proxy.

(** ** Reloading *)

Section reload.
Context `{F : GoFloat} {U : Type} {B : Type} (Unmarshal : B → option ServerConfig).

(** Whatever a reload meets, the SOCKS5 server is the same, and the multiplexer
    keeps its endpoints and underlays. *)
Lemma reloadMux_keeps listen n config (m : Mux (U:=U)) :
  m_isClient m = false → m_used m = true →
  let m' := (reloadMux listen n config m).1 in
  m_isClient m' = false ∧ m_used m' = true ∧ m_underlays m' = m_underlays m ∧ m_heap m' = m_heap m ∧ m_done m' = m_done m ∧ m_chAccept m' = m_chAccept m ∧
  (∃ added, m_endpoints m' = m_endpoints m ++ added).
Proof using.
  intros Hc Hu. unfold reloadMux, UpdateEndpoints, SetServerUsers, SetServerUserHintIsMandatory, SetServerTCPIdleTimeout.
  assert (∃ added, m_endpoints m = m_endpoints m ++ added) as H0 by (exists []; by rewrite app_nil_r).
  destruct (configEndpoints config) as [eps|e|msg]; [|by split_and!..].
  destruct (m_done m) eqn:Ed; [by split_and!|]. rewrite Hc, Hu. cbn [orb negb].
  set (m1 := m<|m_endpoints := _|>).
  assert (m_isClient m1 = false) as Hc1 by done. set (rs := omap snd _). 
  assert (m_isClient m1 = false ∧ m_used m1 = true ∧ m_underlays m1 = m_underlays m ∧ m_heap m1 = m_heap m ∧ m_done m1 = false ∧ m_chAccept m1 = m_chAccept m ∧
    ∃ added, m_endpoints m1 = m_endpoints m ++ added) as H1 by (split_and!; try done; by eexists).
  destruct rs as [|r rs]; [|exact H1]. rewrite Hc1, bind_Ok.
  match goal with |- context [m_isClient ?x] => change (m_isClient x) with (m_isClient m1) end. rewrite Hc1.
  destruct (ParseServerTCPIdleTimeout _) as [t|e|msg]; [|exact H1..].
  match goal with |- context [m_isClient ?x] => change (m_isClient x) with (m_isClient m1) end. rewrite Hc1.
  destruct (t <? 0); exact H1.
Qed.
(** A reload that can listen installs the users and the settings. *)
Lemma reloadMux_updated listen n config eps t (m m1 : Mux (U:=U)) :
  m_isClient m = false → configEndpoints config = Ok eps → UpdateEndpoints listen eps m = (m1, Ok []) →
  ParseServerTCPIdleTimeout (GetTcpIdleTimeout config) = Ok t → 0 <= t →
  reloadMux listen n config m =
    (m1<|m_serverUsers := SetHintMandatory (GetUserHintIsMandatory config) (SetUsers n (UserListToMap (sc_Users config)) (m_serverUsers m1))|>
       <|m_serverTCPIdleTimeout := t|>, Ok tt).
Proof using.
  intros Hc Ee Eu Et Ht. unfold reloadMux, SetServerUsers, SetServerUserHintIsMandatory, SetServerTCPIdleTimeout. rewrite Ee, Eu, Et.
  assert (m_isClient m1 = false) as Hc1.
  { unfold UpdateEndpoints in Eu. destruct (m_done m); [done|]. destruct (_ || _); by injection Eu as <-. }
  rewrite Hc1, bind_Ok. repeat (match goal with |- context [m_isClient ?x] => change (m_isClient x) with (m_isClient m1) end; rewrite Hc1).
  by rewrite (proj2 (Z.ltb_ge _ _) Ht).
Qed.
Lemma updated_users listen eps (m m1 : Mux (U:=U)) r : UpdateEndpoints listen eps m = (m1, r) → m_serverUsers m1 = m_serverUsers m.
Proof using. unfold UpdateEndpoints. destruct (m_done m); [by intros [= <- _]|]. destruct (_ || _); by intros [= <- _]. Qed.
Lemma setLogLevel_refs config (s : server (U:=U)) :
  socks5ServerRef (setLogLevel config s) = socks5ServerRef s ∧ serverMuxRef (setLogLevel config s) = serverMuxRef s ∧
  srv_generation (setLogLevel config s) = srv_generation s ∧ srv_hints (setLogLevel config s) = srv_hints s.
Proof using. unfold setLogLevel. by destruct (_ =? 0). Qed.
Lemma Reload_socks listen d (s : server (U:=U)) : socks5ServerRef (Reload_rpc Unmarshal listen d s).1 = socks5ServerRef s.
Proof using.
  unfold Reload_rpc. destruct (loadValidConfig Unmarshal d) as [config|e|msg]; [|done..].
  destruct (setLogLevel_refs config s) as (H1 & H2 & _). rewrite H2. destruct (serverMuxRef s) as [m|]; [|done].
  destruct (reloadMux _ _ _ _) as [m' r]. done.
Qed.
End reload.


(** ** Users of a generation *)

(** The registry knows a user of this name, with this credential and policy. *)
Definition registered (r : Registry) (nm cred : list Z) (p : Policy) : Prop :=
  ∃ s u, r_users r = Some s ∧ u ∈ users s ∧ name u = nm ∧ credential u = cred ∧ policy u = p.
(** The list of the configuration has a user of this name, the last one counts,
    with this credential. *)
Definition configured (l : list (option User)) (nm cred : list Z) (p : Policy) : Prop :=
  ∃ m, lastBy GetName nm l = Some m ∧ buildCredential m nm = Ok cred ∧ p = buildPolicy m.

Lemma UserListToMap_lookup l nm : UserListToMap l !! nm = lastBy GetName nm l.
Proof. unfold UserListToMap. rewrite foldl_by, lookup_empty. by destruct (lastBy GetName nm l). Qed.
Lemma UserListToMap_size l : Z.of_nat (size (UserListToMap l)) <= len l.
Proof.
  unfold UserListToMap, len. induction l as [|u l IH] using rev_ind; [done|]. rewrite foldl_app, length_app. cbn.
  rewrite map_size_insert. destruct (_ !! _); cbn; lia.
Qed.
Lemma HasUsers_registered r : HasUsers r = true ↔ ∃ nm cred p, registered r nm cred p.
Proof.
  unfold HasUsers, registered. destruct (r_users r) as [s|]; [|split; [done|by intros (? & ? & ? & ? & ? & [=] & _)]].
  rewrite negb_true_iff, Z.eqb_neq, len_zero. split.
  - destruct (users s) as [|u us] eqn:E; [done|]. intros _. exists (name u), (credential u), (policy u), s, u. rewrite E. split_and!; [done|left|done..].
  - intros (? & ? & ? & ? & u & [= <-] & Hu & _) E. rewrite E in Hu. by apply not_elem_of_nil in Hu.
Qed.
Lemma registered_mandatory b r nm cred p : registered (SetHintMandatory b r) nm cred p ↔ registered r nm cred p.
Proof. done. Qed.

(** A generation has exactly the users of the configuration with a credential. *)
Lemma SetUsers_registered n l r :
  Forall (λ u, ValidateServerConfigSingleUser u = Ok tt) l → len l < 2 ^ 32 - 1 →
  ∀ nm cred p, registered (SetUsers n (UserListToMap l) r) nm cred p ↔ configured l nm cred p.
Proof.
  intros Hv Hlen nm cred p. unfold registered, configured, SetUsers. cbn [r_users]. set (st := match r_users r with Some s => _ | None => _ end).
  destruct (buildState_users n (UserListToMap l) st) as [_ Hs]; [pose proof (UserListToMap_size l); lia|]. specialize (Hs nm cred p).
  assert ((∃ s u, Some (buildState n (UserListToMap l) st) = Some s ∧ u ∈ users s ∧ name u = nm ∧ credential u = cred ∧ policy u = p) ↔
    ∃ u, u ∈ users (buildState n (UserListToMap l) st) ∧ name u = nm ∧ credential u = cred ∧ policy u = p) as ->.
  { split; [intros (s & u & [= <-] & H); by exists u|intros (u & H); by eexists _, u]. }
  rewrite Hs. unfold ServerUser.usable. split.
  - intros (k & m & (Hk & _ & _ & Hc) & Hnm & ->). rewrite UserListToMap_lookup in Hk. pose proof (lastBy_Some _ _ _ _ Hk) as [Ek _]. exists m. subst k nm. done.
  - intros (m & Hl & Hc & ->). pose proof (lastBy_Some _ _ _ _ Hl) as [Hnm Hin].
    assert (0 < len nm <= MaxUserNameLen) as [Hl1 Hl2].
    { rewrite Forall_forall in Hv. specialize (Hv m Hin). unfold ValidateServerConfigSingleUser in Hv. rewrite !guard_spec in Hv.
      destruct Hv as (H1 & _ & H3 & _). rewrite Hnm in H1, H3. pose proof (len_nonneg nm). bool_to_prop. lia. }
    exists nm, m. rewrite Hnm, UserListToMap_lookup. split_and!; try done.
    intros k' m' Hk' Hn'. rewrite UserListToMap_lookup in Hk'. pose proof (lastBy_Some _ _ _ _ Hk') as [Ek' _]. congruence.
Qed.

(** ** Egress rules of a validated configuration *)

Lemma guard_any {A} (b : bool) e (r : result A) x : (if b then Err e else r) = Ok x ↔ b = false ∧ r = Ok x.
Proof. destruct b; [split; [done|by intros []]|]. split; [done|by intros []]. Qed.
Lemma validateProxies_names proxies used names :
  validateProxies proxies used = Ok names → ∀ n, n ∈ names ↔ n ∈ used ∨ ∃ p, p ∈ proxies ∧ GetProxyName p = n.
Proof.
  revert used. induction proxies as [|p proxies IH]; cbn; intros used; [intros [= <-] n; set_solver|].
  rewrite !guard_any. intros (_ & _ & _ & _ & _ & _ & _ & H) n. rewrite (IH _ H n). set_solver.
Qed.
(** A rule to proxies has some, and all of them are defined. *)
Lemma validateEgress_proxies c rule :
  validateEgress c = Ok tt → rule ∈ GetRules c → GetAction rule = EgressAction_PROXY →
  ProxyNames rule ≠ [] ∧ ∀ n, n ∈ ProxyNames rule → ∃ p, p ∈ GetProxies c ∧ GetProxyName p = n.
Proof.
  unfold validateEgress. destruct (validateProxies (GetProxies c) ∅) as [names|e|m] eqn:E; [|done..]. rewrite bind_Ok, each_spec, Forall_forall.
  intros H Hin Ha. specialize (H rule Hin). unfold validateRule in H. rewrite !bind_unit in H. destruct H as (_ & _ & H).
  rewrite Ha, Z.eqb_refl, guard_spec, each_spec, Forall_forall in H. destruct H as [Hne H]. split.
  - intros E0. by rewrite E0 in Hne.
  - intros n Hn. specialize (H n Hn). destruct (bool_decide_reflect (n ∈ names)) as [Hd|]; [|done].
    apply (validateProxies_names _ _ _ E) in Hd as [Hd|Hd]; [set_solver|done].
Qed.
Lemma find_first {A} (f : A → bool) l :
  match List.find f l with
  | Some x => ∃ i, l !! i = Some x ∧ f x = true ∧ ∀ j y, (j < i)%nat → l !! j = Some y → f y = false
  | None => ∀ x, x ∈ l → f x = false
  end.
Proof.
  induction l as [|x l IH]; cbn; [set_solver|]. destruct (f x) eqn:E.
  - exists 0%nat. split_and!; [done|done|lia].
  - destruct (List.find f l) as [y|].
    + destruct IH as (i & H1 & H2 & H3). exists (S i). split_and!; [done|done|]. intros [|j] z Hj Hz; [by injection Hz as <-|]. apply (H3 j z); [lia|done].
    + intros y [->|Hy]%elem_of_cons; auto.
Qed.
(** The only calls are those of the random source. *)
Definition intn_only X (e : ioE X) : Prop := match e with Intn _ => True | _ => False end.
(** ** Properties *)

(** A valid patch of a valid configuration gives a configuration that passes
    the validation of patches, and the full one if it has a port binding; its
    users are those of the patch and those of the configuration whose name is
    not in the patch (the last one of a name counts), one of each name, in the
    order of their names. *)
Theorem merge_valid `{F : GoFloat} (dst src : ServerConfig) :
  ValidateServerConfigPatch dst = Ok tt → ValidateServerConfigPatch src = Ok tt →
  let c := MergeServerConfig dst src in
  ValidateServerConfigPatch c = Ok tt ∧ (GetPortBindings c ≠ [] → ValidateFullServerConfig c = Ok tt) ∧
  StronglySorted (λ a b, bytesLtb (GetName a) (GetName b) = true) (sc_Users c) ∧
  (∀ u, u ∈ sc_Users c ↔ ofBoth GetName (sc_Users dst) (sc_Users src) (GetName u) = Some u).
Proof.
  rewrite !ValidateServerConfigPatch_spec. intros Hd Hs c. pose proof (merged_ok dst src Hd Hs) as Hc. split; [by apply ValidateServerConfigPatch_spec|].
  split; [intros Hp; by apply ValidateFullServerConfig_spec|]. apply mergeBy_spec.
Qed.

(** C21. Whatever commands the administrator gives (applying, replacing, deleting
    users) and whatever errors reading the file and opening it for writing meet,
    the stored configuration is valid or still the empty one, and holds no
    password in plain text.  A write that stops after the file was truncated can
    leave anything; but whatever is there, a patch or a replacement that succeeds
    leaves a valid configuration without plain passwords. *)
Theorem stored_config_good `{F : GoFloat} {B : Type} (Marshal : ServerConfig → option B) (Unmarshal : B → option ServerConfig)
    (cmds : list command) (d : disk B) :
  (∀ c b, Marshal c = Some b → Unmarshal b = Some (decoded c)) →
  (writes_whole (store_err d) → Forall command_whole cmds → disk_good Unmarshal d →
   disk_good Unmarshal (foldl (runCommand Marshal Unmarshal) d cmds)) ∧
  (∀ patch d', serverApplyConfig Marshal Unmarshal patch d = (d', Ok tt) → disk_good Unmarshal d') ∧
  (∀ config d', serverReplaceConfig Marshal Unmarshal config d = (d', Ok tt) → disk_good Unmarshal d').
Proof.
  intros Hcodec. split_and!.
  - revert d. induction cmds as [|cmd cmds IH]; intros d Hw Hc Hd; [done|]. cbn. apply Forall_cons in Hc as [Hc Hcs].
    destruct (runCommand_good Marshal Unmarshal Hcodec cmd d Hc Hw Hd) as [Hw' Hd']. by apply IH.
  - intros patch d' E. pose proof (apply_good Marshal Unmarshal Hcodec patch d) as H. rewrite E in H. apply H. right. by eexists.
  - intros config d' E. pose proof (replace_good Marshal Unmarshal Hcodec config d) as H. rewrite E in H. apply H. right. by eexists.
Qed.

(** C18. A server with a configuration that passes the full validation and has a
    user with a credential starts, whatever its order of reporting, if its
    addresses can be listened to: it listens at the configured ports and no
    others, its multiplexer knows exactly the configured users with a credential,
    each with the credential and quotas of the last user of that name, and its
    SOCKS5 server has the configured users and egress rules. *)
Theorem valid_config_starts `{F : GoFloat} `{BT : BTree} {U : Type} `{UL : !UnderlayOps U} (ver hostName : list Z) (e : startEnv) (config : ServerConfig)
    (s : server (U:=U)) :
  ValidateFullServerConfig config = Ok tt → hints_ok ver (srv_hints s) → socks5ServerRef s = None → len (sc_Users config) < 2 ^ 32 - 1 →
  (∃ nm cred p, configured (sc_Users config) nm cred p) → (∀ k ep, se_listen e k ep = None) →
  ∃ s' m, StartServerProxy ver hostName e config s = (s', Ok tt) ∧ appStatus s' = AppStatus_RUNNING ∧
    serverMuxRef s' = Some m ∧ socks5ServerRef s' = Some (egressSocks5Config config) ∧ hints_ok ver (srv_hints s') ∧
    (∀ ep, ep ∈ m_endpoints m ↔ ∃ protocol port, (protocol = TransportProtocol_TCP ∨ protocol = TransportProtocol_UDP) ∧
       bound (GetPortBindings config) protocol port ∧ ep = listenOn config protocol port) ∧
    (∀ nm cred p, registered (m_serverUsers m) nm cred p ↔ configured (sc_Users config) nm cred p).
Proof.
  intros Hv Hh Hs Hlen (nm & cred & p & Hc) Hl. pose proof Hv as [Hok Hne]%ValidateFullServerConfig_spec.
  assert (∀ nm cred p, registered (SetUsers (srv_generation s) (UserListToMap (sc_Users config)) (mkRegistry None false)) nm cred p ↔ configured (sc_Users config) nm cred p)
    as Hr by by apply SetUsers_registered, Hlen; apply ok_users.
  destruct (StartServerProxy_ok ver hostName e config s Hv Hh Hs) as (s' & m & E & H1 & H2 & H3 & H4 & _ & _ & _ & H5 & H6); [|done|].
  { apply HasUsers_registered. exists nm, cred, p. by apply Hr. }
  exists s', m. split_and!; [done..| |].
  - destruct (configEndpoints_spec config Hok Hne) as (eps & Ee & _ & Heps). rewrite H6 in Ee. by injection Ee as ->.
  - intros nm' cred' p'. rewrite H5, registered_mandatory. apply Hr.
Qed.

Lemma attempts_failed listen ps e : e ∈ omap snd (attempts listen ps) → ∃ k p, ps !! k = Some p ∧ startListening (listen k) p = Some e.
Proof.
  intros ([p o] & Hin & E)%list_elem_of_omap. cbn in E. subst o. apply list_elem_of_lookup in Hin as [k Hk].
  unfold attempts in Hk. rewrite list_lookup_imap in Hk. destruct (ps !! k) as [q|] eqn:Eq; [|done]. cbn in Hk. injection Hk as -> E. by exists k, p.
Qed.
(** C19. Reloading a valid configuration into a running server disturbs none of
    its underlays and sessions and stops no listener.  It fails only if a new
    endpoint can not be listened to, and then no user has changed; otherwise the
    server listens at every configured port, its multiplexer knows exactly the
    configured users with a credential, and the idle timeout is the configured
    one. *)
Theorem reload_spec `{F : GoFloat} `{BT : BTree} {U B : Type} (Unmarshal : B → option ServerConfig) (listen : nat → endpoint → option error)
    (d : disk B) (s : server (U:=U)) (m : Mux) (config : ServerConfig) :
  loadValidConfig Unmarshal d = Ok config → serverMuxRef s = Some m → m_isClient m = false → m_used m = true → m_done m = false →
  len (sc_Users config) < 2 ^ 32 - 1 →
  let '(s', r) := Reload_rpc Unmarshal listen d s in
  ∃ m' added, serverMuxRef s' = Some m' ∧ m_endpoints m' = m_endpoints m ++ added ∧
    m_underlays m' = m_underlays m ∧ m_heap m' = m_heap m ∧ m_chAccept m' = m_chAccept m ∧ m_done m' = false ∧
    match r with
    | Ok _ =>
      (∀ protocol port, protocol = TransportProtocol_TCP ∨ protocol = TransportProtocol_UDP → bound (GetPortBindings config) protocol port →
         listenOn config protocol port ∈ m_endpoints m') ∧
      (∀ nm cred p, registered (m_serverUsers m') nm cred p ↔ configured (sc_Users config) nm cred p) ∧
      ParseServerTCPIdleTimeout (GetTcpIdleTimeout config) = Ok (m_serverTCPIdleTimeout m')
    | Err _ => m_serverUsers m' = m_serverUsers m ∧
      ∃ k protocol port e, bound (GetPortBindings config) protocol port ∧ (listenOn config protocol port ∉ m_endpoints m) ∧
        startListening (listen k) (listenOn config protocol port) = Some e
    | Panic _ => False
    end.
Proof.
  intros Hd Hs Hc Hu Hdone Hlen. unfold Reload_rpc. rewrite Hd.
  assert (ValidateFullServerConfig config = Ok tt) as [Hok Hne]%ValidateFullServerConfig_spec.
  { unfold loadValidConfig in Hd. destruct (LoadServerConfig Unmarshal d) as [c|e|msg]; [|done..].
    destruct (ValidateFullServerConfig c) as [[]|e|msg] eqn:E; [|done..]. by injection Hd as <-. }
  destruct (setLogLevel_refs config s) as (_ & H2 & H3 & _). rewrite H2, H3, Hs.
  destruct (reloadMux_keeps listen (srv_generation s) config m Hc Hu) as (_ & _ & K1 & K2 & K3 & K4 & added & K5). rewrite Hdone in K3.
  destruct (configEndpoints_spec config Hok Hne) as (eps & Ee & _ & Heps).
  pose proof (update_endpoints_spec listen eps m Hdone Hc Hu) as Hup.
  destruct (UpdateEndpoints listen eps m) as [m1 r1] eqn:Eu. destruct Hup as (added' & errs & A1 & -> & _ & _ & A5).
  pose proof (updated_users _ _ _ _ _ Eu) as Hus. destruct errs as [|e errs].
  - destruct (ok_idle _ Hok) as [t Et]. pose proof (ParseServerTCPIdleTimeout_spec (GetTcpIdleTimeout config)) as Ht. rewrite Et in Ht.
    assert (0 <= t) as Ht0 by (unfold Minute, Second, Millisecond, Microsecond in Ht; lia).
    rewrite (reloadMux_updated listen (srv_generation s) config eps t m m1 Hc Ee Eu Et Ht0) in *. cbn [fst] in *.
    eexists _, added. split; [reflexivity|]. split_and!; try done.
    + intros pr po Hpr Hb. destruct (A5 (listenOn config pr po)) as [|(k & e & _ & Hin)]; [apply Heps; by exists pr, po|done|by apply not_elem_of_nil in Hin].
    + intros nm cred p. apply SetUsers_registered; [by apply ok_users|done].
  - assert (reloadMux listen (srv_generation s) config m = (m1, Err (Errorf "reload server listeners failed"))) as E by (unfold reloadMux; by rewrite Ee, Eu).
    rewrite E in *. cbn [fst] in *. eexists _, added. split; [reflexivity|]. split_and!; try done.
    unfold UpdateEndpoints in Eu. rewrite Hdone, Hc, Hu in Eu. cbn [orb negb] in Eu. injection Eu as _ Eerrs.
    destruct (attempts_failed listen (newEndpoints (m_endpoints m) eps) e) as (k & ep & Hk & He); [rewrite Eerrs; left|].
    apply list_elem_of_lookup_2, newEndpoints_elem in Hk as [Hin Hn]. apply Heps in Hin as (pr & po & _ & Hb & ->). by exists k, pr, po, e.
Qed.

(** C20. A permission that is revoked remains: when the user's request for a
    destination was allowed by the configuration that the server started with,
    it is allowed after every reload, though the configuration that was loaded
    forbids it; the server that is started again rejects it. *)
Theorem revoked_permission_remains `{F : GoFloat} `{BT : BTree} {U B : Type} `{UL : !UnderlayOps U} (Unmarshal : B → option ServerConfig)
    (ver hostName : list Z) (e : startEnv) (config config' : ServerConfig) (s s1 : server (U:=U)) (d : disk B) (u : list Z) (dst : AddrSpec) :
  socks5ServerRef s = None → StartServerProxy ver hostName e config s = (s1, Ok tt) → loadValidConfig Unmarshal d = Ok config' →
  allowed (egressSocks5Config config) u dst = true → allowed (egressSocks5Config config') u dst = false →
  (∀ listen, ∃ c, socks5ServerRef (Reload_rpc Unmarshal listen d s1).1 = Some c ∧ allowed c u dst = true) ∧
  ∀ e' s2, Start_rpc Unmarshal ver hostName e' d (Stop_rpc s1) = (s2, Ok tt) → ∃ c, socks5ServerRef s2 = Some c ∧ allowed c u dst = false.
Proof.
  intros Hs Hst Hd Ha Ha'.
  assert (∀ e config s s1, socks5ServerRef s = None → StartServerProxy ver hostName e config s = (s1, Ok tt) → socks5ServerRef s1 = Some (egressSocks5Config config)) as Hstart.
  { clear. intros e config s s1 Hs. unfold StartServerProxy. rewrite Hs. destruct (newServerProxy _ _ _ _ _) as [h p] eqn:Ep.
    destruct p as [p|err|msg]; [|done..]. destruct (Mux.Start _ _ _ _) as [mux [[]|err|msg]]; [|done..]. intros [= <-]. cbn. f_equal.
    by eapply newServerProxy_socks5. }
  split.
  - intros listen. rewrite Reload_socks. eexists. by split; [eapply Hstart|].
  - intros e' s2. unfold Start_rpc. rewrite Hd. intros E. apply Hstart in E; [by eexists|]. by destruct (setLogLevel_refs config' (Stop_rpc s1)) as [-> _].
Qed.

(** The action of the first rule that matches, or [DIRECT]. *)
Definition ruled (matches : EgressRule → bool) (rules : list EgressRule) (proxies : list EgressProxy) (a : Action) : Prop :=
  (a = DIRECT ∧ ∀ rule, rule ∈ rules → matches rule = false) ∨
  ∃ i rule, rules !! i = Some rule ∧ matches rule = true ∧ (∀ j r, (j < i)%nat → rules !! j = Some r → matches r = false) ∧
    ac_Action a = GetAction rule ∧
    if GetAction rule =? EgressAction_PROXY
    then ∃ p, ac_Proxy a = Some p ∧ p ∈ proxies ∧ GetProxyName p ∈ ProxyNames rule
    else ac_Proxy a = None.
(** C22. The egress rules of a valid configuration decide: the first rule that
    matches the address or the name of a request gives the action, with a defined
    proxy of that rule for the action PROXY; without such a rule the request
    goes directly.  Nothing but the random source is asked. *)
Theorem egress_rules_decide `{F : GoFloat} {S : Type} (h : handler S) (u : list Z) (config : ServerConfig) (req : Request) (st : S) :
  ValidateFullServerConfig config = Ok tt → Effects.obeys (SocksServer.answers u) h →
  let '(a, _, log) := run h (forwardToProxyAction (c_rules (egressSocks5Config config)) req) st in
  ruled (matchEgressRule (a_IP (DstAddr req)) (FQDN (DstAddr req))) (GetRules config) (GetProxies config) a ∧
  Forall (λ x, match x with Called e => intn_only _ e end) log.
Proof.
  intros [Hok _]%ValidateFullServerConfig_spec Hh. set (matches := matchEgressRule _ _).
  enough (calls_ok intn_only (SocksServer.answers u) (forwardToProxyAction (c_rules (egressSocks5Config config)) req)
    (ruled matches (GetRules config) (GetProxies config))) as H.
  { apply (run_calls_ok intn_only (SocksServer.answers u) h _ _ st Hh) in H as [H1 H2]. by destruct (run h _ st) as [[a st'] log]. }
  unfold forwardToProxyAction. change (Rules (c_Egress (c_rules (egressSocks5Config config)))) with (GetRules config).
  change (Proxies (c_Egress (c_rules (egressSocks5Config config)))) with (GetProxies config). fold matches.
  destruct ((len _ =? 0) && _) eqn:E0.
  { left. split; [done|]. intros rule _. apply andb_true_iff in E0 as [E1 E2]. unfold matches, matchEgressRule. by rewrite E1, E2. }
  pose proof (find_first matches (GetRules config)) as Hf. destruct (List.find matches (GetRules config)) as [rule|]; [|by left].
  destruct Hf as (i & H1 & H2 & H3). destruct (Z.eqb_spec (GetAction rule) EgressAction_PROXY) as [Ea|Na].
  2: { right. exists i, rule. by rewrite (proj2 (Z.eqb_neq _ _) Na). }
  destruct (validateEgress_proxies config rule (ok_egress _ Hok)) as [Hne Hdef]; [by eapply list_elem_of_lookup_2|done|].
  assert (0 < len (ProxyNames rule)) as Hpos by (destruct (ProxyNames rule); [done|unfold len; cbn; lia]).
  rewrite (proj2 (Z.ltb_lt _ _) Hpos). apply calls_ok_bind. split; [done|]. intros idx Hidx. specialize (Hidx Hpos).
  destruct (lookup_lt_is_Some_2 (ProxyNames rule) (Z.to_nat idx)) as [n En]; [unfold len in *; lia|].
  cbn [calls_ok mbind io_bind io_bind_]. rewrite En. cbn [default from_option id].
  assert (n ∈ ProxyNames rule) as Hn by by eapply list_elem_of_lookup_2. destruct (Hdef n Hn) as (p & Hp & Epn).
  pose proof (find_first (λ p, bool_decide (GetProxyName p = n)) (GetProxies config)) as Hfp. destruct (List.find _ (GetProxies config)) as [q|].
  - destruct Hfp as (j & J1 & J2 & _). apply bool_decide_eq_true in J2. right. exists i, rule. rewrite Ea. split_and!; try done.
    exists q. split_and!; [done|by eapply list_elem_of_lookup_2|by rewrite J2].
  - specialize (Hfp p Hp). by apply bool_decide_eq_false in Hfp.
Qed.

(** ** Examples *)

#[local] Existing Instance fractionFloat.
#[local] Existing Instance listTree.

Definition example_config : ServerConfig :=
  mkServerConfig None (Some [mkPortBinding (Some 443) (Some TransportProtocol_TCP) None]) [example_user] None (Some 1) None
    (Some (mkEgress [mkEgressProxy (Some [112]) (Some (bytes_of_string "192.0.2.9")) (Some 1080) None (Some SOCKS5_PROXY_PROTOCOL)]
             [mkEgressRule [bytes_of_string "10.0.0.0/8"] [] (Some EgressAction_REJECT) []; mkEgressRule [] [bytes_of_string "*"] None [[112]]]))
    None None.
Definition example_patch : ServerConfig := emptyServerConfig<|sc_Users := [Some (mkUserMsg (Some [99]) (Some [113]) None [] None None)]|>.
Lemma merge_valid_witness :
  let c := MergeServerConfig example_config example_patch in
  (GetName <$> sc_Users c) = [[98]; [99]] ∧
  ValidateServerConfigPatch c = Ok tt ∧ (GetPortBindings c ≠ [] → ValidateFullServerConfig c = Ok tt) ∧
  StronglySorted (λ a b, bytesLtb (GetName a) (GetName b) = true) (sc_Users c) ∧
  (∀ u, u ∈ sc_Users c ↔ ofBoth GetName (sc_Users example_config) (sc_Users example_patch) (GetName u) = Some u).
Proof. split; [by vm_compute|]. apply (merge_valid); by vm_compute. Defined.
(** The file is good after several commands and failures to open it; a write that
    stops leaves a broken one, and the next replacement repairs it. *)
Definition example_broken : ServerConfig := emptyServerConfig<|sc_Users := [None]|>.
Lemma stored_config_good_witness :
  let Marshal := @Some ServerConfig in let Unmarshal := Some ∘ decoded in
  let cmds := [CmdInit; CmdApply example_config; CmdDeleteUser [[98]]; CmdErrors None (Some (OpenFails (Errorf "permission denied"))); CmdReplace example_config] in
  let torn := (runCommand Marshal Unmarshal (mkDisk (Some example_config) None (Some (WriteStops (Errorf "disk full") example_broken))) (CmdReplace example_config))
                <|store_err := None|> in
  disk_good Unmarshal (foldl (runCommand Marshal Unmarshal) (mkDisk None None None) cmds) ∧
  stored torn = Some example_broken ∧
  ∃ d', serverReplaceConfig Marshal Unmarshal example_config torn = (d', Ok tt) ∧ disk_good Unmarshal d'.
Proof.
  intros Marshal Unmarshal cmds torn. assert (∀ c b, Marshal c = Some b → Unmarshal b = Some (decoded c)) as codec by (by intros c b [= <-]).
  split; [|split; [reflexivity|]].
  - apply (stored_config_good Marshal Unmarshal cmds (mkDisk None None None) codec); [done|by repeat constructor|by intros b].
  - destruct (serverReplaceConfig Marshal Unmarshal example_config torn) as [d' r] eqn:E. exists d'.
    assert ((serverReplaceConfig Marshal Unmarshal example_config torn).2 = Ok tt) as Hr by (vm_compute; reflexivity).
    rewrite E in Hr. cbn in Hr. subst r. split; [reflexivity|].
    exact (proj2 (proj2 (stored_config_good Marshal Unmarshal [] torn codec)) example_config d' E).
Defined.
Definition stopped : server (U:=PacketUnderlay.PacketUnderlay) := mkServer None None AppStatus_IDLE 0 (mkHints ∅ ∅) 1.
Definition example_start : startEnv := mkStartEnv (λ _ _, None) [0%nat] (λ _ _, Lifecycle.example_env).
Lemma valid_config_starts_witness :
  ∃ s' m, StartServerProxy [] [] example_start example_config stopped = (s', Ok tt) ∧ appStatus s' = AppStatus_RUNNING ∧
    serverMuxRef s' = Some m ∧ socks5ServerRef s' = Some (egressSocks5Config example_config) ∧ hints_ok [] (srv_hints s') ∧
    (∀ ep, ep ∈ m_endpoints m ↔ ∃ protocol port, (protocol = TransportProtocol_TCP ∨ protocol = TransportProtocol_UDP) ∧
       bound (GetPortBindings example_config) protocol port ∧ ep = listenOn example_config protocol port) ∧
    (∀ nm cred p, registered (m_serverUsers m) nm cred p ↔ configured (sc_Users example_config) nm cred p).
Proof.
  apply (valid_config_starts [] [] example_start example_config stopped); [by vm_compute|apply no_hints_ok|done..| |done].
  eexists [98], _, _, example_user. split_and!; reflexivity.
Defined.
Definition example_disk : disk ServerConfig := mkDisk (Some example_config) None None.
Definition example_mux : Mux (U:=PacketUnderlay.PacketUnderlay) := (NewMux false)<|m_used := true|>.
Lemma reload_spec_witness :
  let s := stopped<|serverMuxRef := Some example_mux|> in
  let listen k ep := if (k =? 0)%nat then None else Some (Errorf "address already in use") in
  let '(s', r) := Reload_rpc Some listen example_disk s in
  r = Ok tt ∧
  ∃ m' added, serverMuxRef s' = Some m' ∧ m_endpoints m' = m_endpoints example_mux ++ added ∧
    m_underlays m' = m_underlays example_mux ∧ m_heap m' = m_heap example_mux ∧ m_chAccept m' = m_chAccept example_mux ∧ m_done m' = false ∧
    match r with
    | Ok _ =>
      (∀ protocol port, protocol = TransportProtocol_TCP ∨ protocol = TransportProtocol_UDP → bound (GetPortBindings example_config) protocol port →
         listenOn example_config protocol port ∈ m_endpoints m') ∧
      (∀ nm cred p, registered (m_serverUsers m') nm cred p ↔ configured (sc_Users example_config) nm cred p) ∧
      ParseServerTCPIdleTimeout (GetTcpIdleTimeout example_config) = Ok (m_serverTCPIdleTimeout m')
    | Err _ => m_serverUsers m' = m_serverUsers example_mux ∧
      ∃ k protocol port e, bound (GetPortBindings example_config) protocol port ∧ (listenOn example_config protocol port ∉ m_endpoints example_mux) ∧
        startListening (listen k) (listenOn example_config protocol port) = Some e
    | Panic _ => False
    end.
Proof.
  intros s listen.
  assert (loadValidConfig Some example_disk = Ok example_config) as Hd by by vm_compute.
  pose proof (reload_spec Some listen example_disk s example_mux example_config Hd eq_refl eq_refl eq_refl eq_refl eq_refl) as H.
  destruct (Reload_rpc Some listen example_disk s) as [s' r] eqn:E. split; [|exact H].
  enough ((Reload_rpc Some listen example_disk s).2 = Ok tt) as H2 by by rewrite E in H2. by vm_compute.
Defined.
Definition example_private : ServerConfig := example_config<|sc_Users := [Some (mkUserMsg (Some [98]) (Some [113]) None [] (Some true) None)]|>.
Lemma revoked_permission_remains_witness :
  let dst := mkAddrSpec [] [192; 168; 0; 1] 443 in
  ∃ s1, StartServerProxy [] [] example_start example_private stopped = (s1, Ok tt) ∧
  (∀ listen, ∃ c, socks5ServerRef (Reload_rpc Some listen example_disk s1).1 = Some c ∧ allowed c [98] dst = true) ∧
  ∀ e' s2, Start_rpc Some [] [] e' example_disk (Stop_rpc s1) = (s2, Ok tt) → ∃ c, socks5ServerRef s2 = Some c ∧ allowed c [98] dst = false.
Proof.
  intros dst. assert ((StartServerProxy [] [] example_start example_private stopped).2 = Ok tt) as H by by vm_compute.
  destruct (StartServerProxy [] [] example_start example_private stopped) as [s1 r] eqn:E. cbn [snd] in H. subst r. exists s1. split; [done|].
  apply (revoked_permission_remains Some [] [] example_start example_private example_config stopped s1 example_disk [98] dst eq_refl E); by vm_compute.
Defined.
Lemma egress_rules_decide_witness :
  let req := mkRequest Socks5ConnectCmd (mkAddrSpec (bytes_of_string "example.com") [] 443) [] in
  let '(a, _, log) := run (SocksServer.idle []) (forwardToProxyAction (c_rules (egressSocks5Config example_config)) req) tt in
  ruled (matchEgressRule (a_IP (DstAddr req)) (FQDN (DstAddr req))) (GetRules example_config) (GetProxies example_config) a ∧
  Forall (λ x, match x with Called e => intn_only _ e end) log.
Proof. intros req. apply (egress_rules_decide (SocksServer.idle []) [] example_config req tt); [by vm_compute|apply SocksServer.idle_obeys]. Defined.
Example egress_example :
  (run (SocksServer.idle []) (forwardToProxyAction (c_rules (egressSocks5Config example_config))
     (mkRequest Socks5ConnectCmd (mkAddrSpec (bytes_of_string "example.com") [] 443) [])) tt).1.1 = mkAction EgressAction_PROXY (head (GetProxies example_config)) ∧
  (run (SocksServer.idle []) (forwardToProxyAction (c_rules (egressSocks5Config example_config))
     (mkRequest Socks5ConnectCmd (mkAddrSpec [] [10; 1; 2; 3] 443) [])) tt).1.1 = REJECT.
Proof. by vm_compute. Qed.
