(* ===== verification/ClientConfig.v ===== *)
(** * pkg/appctl/client.go: the client's configuration

    Patches, whole configurations and the deletion of parts change the stored
    configuration; the client runs with the active profile of it.  The file is
    the [disk] of ServerConfig.v, and the codec (proto or JSON, by the file's
    type) is an argument again.  The path of the file, the RPC transport, the
    listeners and the HTTP proxy are left out.

    Theorems: applying a patch gives the profiles of both by name, and changes
    nothing when it fails, unless the write stops after it has truncated the file
    ([apply_client_config]); every sequence of commands without such a write
    keeps the stored configuration valid or empty ([client_config_good]); what
    is stored can be run: the active profile is found, and with a password its
    multiplexer can dial with the user's credential ([stored_config_runs]). *)
From S2P Require Import Prelude MathExt Messages GoStd GoFloat GoNet GoIP Ascii Cipher Rng SourceCache ServerUser Underlay Segment Session SessionMap.
From S2P Require Import Scheduler UnderlayClass Mux TrafficConfig Effects Socks Egress SocksServer UDPRelay AppCommon ServerConfig.

(** ** Messages *)

Record ClientAdvancedSettings := mkClientAdvancedSettings { NoCheckUpdate : option bool; cas_MetricsLoggingInterval : option (list Z) }.
(** A nil slice of accounts is [None]: merging tells it from an empty one. *)
Record ClientConfig := mkClientConfig {
  Profiles : list ClientProfile;
  ActiveProfile : option (list Z);
  RpcPort : option Z;
  Socks5Port : option Z;
  cc_AdvancedSettings : option ClientAdvancedSettings;
  cc_LoggingLevel : option Z;
  Socks5ListenLAN : option bool;
  HttpProxyPort : option Z;
  HttpProxyListenLAN : option bool;
  Socks5Authentication : option (list AuthMsg)
}.
#[export] Instance ClientConfig_eta : Settable ClientConfig := λ c,
  mkClientConfig (Profiles c) (ActiveProfile c) (RpcPort c) (Socks5Port c) (cc_AdvancedSettings c) (cc_LoggingLevel c) (Socks5ListenLAN c)
    (HttpProxyPort c) (HttpProxyListenLAN c) (Socks5Authentication c).
Definition emptyClientConfig : ClientConfig := mkClientConfig [] None None None None None None None None None.
Definition GetActiveProfile (c : ClientConfig) : list Z := default [] (ActiveProfile c).
Definition GetRpcPort (c : ClientConfig) : Z := default 0 (RpcPort c).
Definition GetSocks5Port (c : ClientConfig) : Z := default 0 (Socks5Port c).
Definition GetHttpProxyPort (c : ClientConfig) : Z := default 0 (HttpProxyPort c).
Definition GetClientLoggingLevel (c : ClientConfig) : Z := default 0 (cc_LoggingLevel c).
Definition GetIngressAuthentication (c : ClientConfig) : list AuthMsg := default [] (Socks5Authentication c).
Definition GetClientMetricsInterval (c : ClientConfig) : list Z := default [] (cc_AdvancedSettings c ≫= cas_MetricsLoggingInterval).
Definition GetHandshakeMode (p : ClientProfile) : Z := default 0 (HandshakeMode p).
Definition HANDSHAKE_DEFAULT : Z := 0.
Definition HANDSHAKE_STANDARD : Z := 1.
Definition HANDSHAKE_NO_WAIT : Z := 2.

(** [proto.Equal(config, &pb.ClientConfig{})] *)
Definition isEmptyClientConfig (c : ClientConfig) : bool :=
  (len (Profiles c) =? 0) && bool_decide (ActiveProfile c = None) && bool_decide (RpcPort c = None) && bool_decide (Socks5Port c = None) &&
  (match cc_AdvancedSettings c with None => true | Some _ => false end) && bool_decide (cc_LoggingLevel c = None) &&
  bool_decide (Socks5ListenLAN c = None) && bool_decide (HttpProxyPort c = None) && bool_decide (HttpProxyListenLAN c = None) &&
  (len (GetIngressAuthentication c) =? 0).

(** ** Validation *)

Definition validateIngressAuth (auth : AuthMsg) : result unit :=
  if len (GetAuthUser (Some auth)) =? 0 then Err (Errorf "socks5 authentication user is not set") else
  if len (GetAuthPassword (Some auth)) =? 0 then Err (Errorf "socks5 authentication password is not set") else Ok tt.
Section duration.
Context `{F : GoFloat}.

Definition ValidateClientConfigPatch (patch : ClientConfig) : result unit :=
  _ ← each ValidateClientConfigSingleProfile (Profiles patch);
  _ ← each validateIngressAuth (GetIngressAuthentication patch);
  validateMetricsInterval (GetClientMetricsInterval patch).
Definition ValidateFullClientConfig (config : ClientConfig) : result unit :=
  _ ← ValidateClientConfigPatch config;
  if len (Profiles config) =? 0 then Err (Errorf "profiles are not set") else
  if len (GetActiveProfile config) =? 0 then Err (Errorf "active profile is not set") else
  let foundActiveProfile := existsb (λ p, bool_decide (GetProfileName p = GetActiveProfile config)) (Profiles config) in
  if negb foundActiveProfile then Err (Errorf "active profile is not found in the profile list") else
  if (GetRpcPort config <? 0) || (GetRpcPort config >? 65535) then Err (Errorf "RPC port number is invalid") else
  if (GetSocks5Port config <? 1) || (GetSocks5Port config >? 65535) then Err (Errorf "socks5 port number is invalid") else
  if GetRpcPort config =? GetSocks5Port config then Err (Errorf "RPC port number is the same as socks5 port number") else
  match HttpProxyPort config with
  | None => Ok tt
  | Some port =>
    if (port <? 1) || (port >? 65535) then Err (Errorf "HTTP proxy port number is invalid") else
    if port =? GetRpcPort config then Err (Errorf "HTTP proxy port number is the same as RPC port number") else
    if port =? GetSocks5Port config then Err (Errorf "HTTP proxy port number is the same as socks5 port number") else Ok tt
  end.
End duration.

Definition GetActiveProfileFromConfig (config : option ClientConfig) (name : list Z) : result ClientProfile :=
  match config with
  | None => Err (Errorf "client config is nil")
  | Some config =>
    match List.find (λ p, bool_decide (GetProfileName p = name)) (Profiles config) with
    | Some profile => Ok profile
    | None => Err (Errorf "profile is not found")
    end
  end.
Definition mergeClientConfigByProfile (dst src : ClientConfig) : ClientConfig :=
  mkClientConfig (mergeBy GetProfileName (Profiles dst) (Profiles src))
    (Some (default (GetActiveProfile dst) (ActiveProfile src)))
    (replaceNil (RpcPort dst) (RpcPort src))
    (Some (default (GetSocks5Port dst) (Socks5Port src)))
    (replaceNil (cc_AdvancedSettings dst) (cc_AdvancedSettings src))
    (Some (default (GetClientLoggingLevel dst) (cc_LoggingLevel src)))
    (replaceNil (Socks5ListenLAN dst) (Socks5ListenLAN src))
    (replaceNil (HttpProxyPort dst) (HttpProxyPort src))
    (replaceNil (HttpProxyListenLAN dst) (HttpProxyListenLAN src))
    (replaceNil (Socks5Authentication dst) (Socks5Authentication src)).

(** ** The stored configuration *)

Definition hashProfile (p : ClientProfile) : ClientProfile := p<|cp_User := HashUserPassword (cp_User p) true|>.
Section disk.
Context `{F : GoFloat} {B : Type} (Marshal : ClientConfig → option B) (Unmarshal : B → option ClientConfig).

Definition LoadClientConfig (d : disk B) : result ClientConfig :=
  match load_err d with
  | Some e => Err e
  | None =>
    match stored d with
    | None => Err ErrFileNotExist
    | Some b => match Unmarshal b with Some c => Ok c | None => Err (Errorf "Unmarshal() failed") end
    end
  end.
(** The passwords are hashed, and kept in plain text. *)
Definition StoreClientConfig (config : ClientConfig) (d : disk B) : disk B * result unit :=
  match Marshal (config<|Profiles := hashProfile <$> Profiles config|>) with
  | None => (d, Err (Errorf "Marshal() failed"))
  | Some b => WriteFile b d
  end.
(** [r] decides what is stored, or fails. *)
Definition storing (r : result ClientConfig) (d : disk B) : disk B * result unit :=
  match r with
  | Ok config => let '(d, r) := StoreClientConfig config d in (d, wrapped "StoreClientConfig() failed" r)
  | Err e => (d, Err e)
  | Panic m => (d, Panic m)
  end.
Definition applyClientConfig (c : ClientConfig) (d : disk B) : disk B * result unit :=
  storing (_ ← wrapped "ValidateClientConfigPatch() failed" (ValidateClientConfigPatch c);
           config ← wrapped "LoadClientConfig() failed" (LoadClientConfig d);
           let config := mergeClientConfigByProfile config c in
           _ ← wrapped "ValidateFullClientConfig() failed" (ValidateFullClientConfig config);
           Ok config) d.
(** [parsed]: the configuration in the file that the user names, or in the URL. *)
Definition ReplaceJSONClientConfig (parsed : result ClientConfig) (d : disk B) : disk B * result unit :=
  storing (config ← parsed; _ ← wrapped "ValidateFullClientConfig() failed" (ValidateFullClientConfig config); Ok config) d.
Definition DeleteClientConfigProfile (profileName : list Z) (d : disk B) : disk B * result unit :=
  storing (config ← wrapped "LoadClientConfig() failed" (LoadClientConfig d);
           if bool_decide (GetActiveProfile config = profileName) then Err (Errorf "activeProfile can't be deleted") else
           Ok (config<|Profiles := List.filter (λ p, negb (bool_decide (GetProfileName p = profileName))) (Profiles config)|>)) d.

(** The commands in pkg/cli: [apply config] and [import config] make an empty file first. *)
Definition createClientConfig (d : disk B) : disk B * result unit :=
  match LoadClientConfig d with
  | Err e => if bool_decide (e = ErrFileNotExist) then
      let '(d, r) := StoreClientConfig emptyClientConfig d in (d, wrapped "store mieru client config failed" r)
    else (d, Ok tt)
  | _ => (d, Ok tt)
  end.
Definition clientApplyConfig (parsed : result ClientConfig) (d : disk B) : disk B * result unit :=
  match createClientConfig d with
  | (d, Ok _) => match parsed with Ok c => applyClientConfig c d | Err e => (d, Err e) | Panic m => (d, Panic m) end
  | r => r
  end.
(** [None]: there is nothing to delete. *)
Definition storingOr (r : result (option ClientConfig)) (d : disk B) : disk B * result unit :=
  match wrapped "get mieru client config failed" r with
  | Ok (Some config) => let '(d, r) := StoreClientConfig config d in (d, wrapped "store mieru client config failed" r)
  | Ok None => (d, Ok tt)
  | Err e => (d, Err e)
  | Panic m => (d, Panic m)
  end.
Definition clientDeleteHTTPProxy (d : disk B) : disk B * result unit :=
  storingOr (config ← LoadClientConfig d;
             if bool_decide (HttpProxyPort config = None) && bool_decide (HttpProxyListenLAN config = None) then Ok None
             else Ok (Some (config<|HttpProxyPort := None|><|HttpProxyListenLAN := None|>))) d.
Definition clientDeleteSocks5Authentication (d : disk B) : disk B * result unit :=
  storingOr (config ← LoadClientConfig d;
             if len (GetIngressAuthentication config) =? 0 then Ok None else Ok (Some (config<|Socks5Authentication := None|>))) d.
End disk.

(** ** Running *)

(** The local SOCKS5 server, in front of the multiplexer. *)
Definition ingressSocks5Config (config : ClientConfig) (activeProfile : ClientProfile) : Config :=
  mkConfig true (SocksServer.mkAuth true ((λ auth, mkCredential (GetAuthUser (Some auth)) (GetAuthPassword (Some auth))) <$> GetIngressAuthentication config) None)
    (10 * Second) true UDPAssociateModePacketOverStream (mkRules ∅ (mkEgress [] []) false) 0
    (GetHandshakeMode activeProfile =? HANDSHAKE_NO_WAIT).
Section run.
Context `{F : GoFloat} `{BT : BTree} {U : Type} `{UL : !UnderlayOps U} {B : Type} (Unmarshal : B → option ClientConfig).
Context (appVersion hostName : list Z).

Definition configToRun (d : disk B) : result (ClientConfig * ClientProfile) :=
  config ← (match LoadClientConfig Unmarshal d with
            | Err e => Err (if bool_decide (e = ErrFileNotExist) then Errorf "mieru client config file doesn't exist"
                            else Wrapf "get mieru client config failed" e)
            | r => r
            end);
  if isEmptyClientConfig config then Err (Errorf "mieru client config is empty") else
  _ ← wrapped "validate full client config failed" (ValidateFullClientConfig config);
  activeProfile ← wrapped "mieru client get active profile failed" (GetActiveProfileFromConfig (Some config) (GetActiveProfile config));
  Ok (config, activeProfile).
(** The multiplexer with its dialers, and the SOCKS5 server. *)
Definition clientRun (d : disk B) : gen (result (Mux (U:=U) * (option (muxDialer unit) * option (muxDialer unit)) * Config)) :=
  match configToRun d with
  | Ok (config, activeProfile) =>
    mux ← NewClientMuxFromProfile appVersion hostName activeProfile None None;
    mret (mux ← mux; socks5Server ← wrapped "create socks5 server failed" (New (ingressSocks5Config config activeProfile)); Ok (mux, socks5Server))
  | Err e => mret (Err e)
  | Panic m => mret (Panic m)
  end.
End run.

(** ** What is valid *)

(** A validation ends: with nothing or an error. *)
Ltac totally :=
  repeat match goal with
         | |- (if ?b then _ else _) = Ok tt ∨ _ => destruct b
         | |- Ok tt = Ok tt ∨ _ => by left
         | |- _ ∨ is_Err (Err _) => right; by eexists
         end.
Lemma bind_total (r k : result unit) : r = Ok tt ∨ is_Err r → k = Ok tt ∨ is_Err k → (_ ← r; k) = Ok tt ∨ is_Err (_ ← r; k).
Proof. intros [->|[e ->]] Hk; [by rewrite bind_Ok|right; by eexists]. Qed.
Lemma validateServerEndpoint_total s : validateServerEndpoint s = Ok tt ∨ is_Err (validateServerEndpoint s).
Proof.
  unfold validateServerEndpoint. totally. pose proof (FlatPortBindings_spec (se_PortBindings s)) as H.
  destruct (FlatPortBindings _); [by left|right; by eexists|done].
Qed.
Lemma validateDialer_total p : validateClientProfileDialer p = Ok tt ∨ is_Err (validateClientProfileDialer p).
Proof. unfold validateClientProfileDialer. destruct (cp_Dialer p) as [d|]; [|by left]. cbv zeta. totally. destruct (cd_Auth d); totally. Qed.
Lemma ValidateSingleProfile_total p : ValidateClientConfigSingleProfile p = Ok tt ∨ is_Err (ValidateClientConfigSingleProfile p).
Proof.
  unfold ValidateClientConfigSingleProfile. cbv zeta. totally. apply bind_total; [by apply each_no_panic; apply validateServerEndpoint_total|]. totally.
  assert (TrafficConfig.Validate (cp_TrafficPattern p) = Ok tt ∨ is_Err (TrafficConfig.Validate (cp_TrafficPattern p))) as [->|[e ->]]
    by (destruct (cp_TrafficPattern p) as [o|]; [apply Validate_total|by left]); [apply validateDialer_total|right; by eexists].
Qed.

Section valid.
Context `{F : GoFloat}.

Definition ports_ok (c : ClientConfig) : Prop :=
  0 <= GetRpcPort c <= 65535 ∧ 1 <= GetSocks5Port c <= 65535 ∧ GetRpcPort c ≠ GetSocks5Port c ∧
  ∀ port, HttpProxyPort c = Some port → 1 <= port <= 65535 ∧ port ≠ GetRpcPort c ∧ port ≠ GetSocks5Port c.
Record client_ok (c : ClientConfig) : Prop := {
  co_profiles : Forall (λ p, ValidateClientConfigSingleProfile p = Ok tt) (Profiles c);
  co_auth : Forall (λ a, validateIngressAuth a = Ok tt) (GetIngressAuthentication c);
  co_metrics : validateMetricsInterval (GetClientMetricsInterval c) = Ok tt;
  co_active : ∃ p, p ∈ Profiles c ∧ GetProfileName p = GetActiveProfile c;
  co_name : len (GetActiveProfile c) ≠ 0;
  co_ports : ports_ok c
}.
Lemma found_spec (name : list Z) ps : existsb (λ p, bool_decide (GetProfileName p = name)) ps = true ↔ ∃ p, p ∈ ps ∧ GetProfileName p = name.
Proof using.
  rewrite existsb_exists. split; intros (p & H1 & H2); exists p; split; try (by apply list_elem_of_In); [by apply bool_decide_eq_true in H2|by apply bool_decide_eq_true].
Qed.
Lemma ports_spec c :
  (if (GetRpcPort c <? 0) || (GetRpcPort c >? 65535) then Err (Errorf "RPC port number is invalid") else
   if (GetSocks5Port c <? 1) || (GetSocks5Port c >? 65535) then Err (Errorf "socks5 port number is invalid") else
   if GetRpcPort c =? GetSocks5Port c then Err (Errorf "RPC port number is the same as socks5 port number") else
   match HttpProxyPort c with
   | None => Ok tt
   | Some port =>
     if (port <? 1) || (port >? 65535) then Err (Errorf "HTTP proxy port number is invalid") else
     if port =? GetRpcPort c then Err (Errorf "HTTP proxy port number is the same as RPC port number") else
     if port =? GetSocks5Port c then Err (Errorf "HTTP proxy port number is the same as socks5 port number") else Ok tt
   end) = Ok tt ↔ ports_ok c.
Proof using.
  rewrite !guard_spec, !orb_false_iff, Z.eqb_neq. unfold ports_ok. destruct (HttpProxyPort c) as [port|].
  - rewrite !guard_spec, !orb_false_iff, !Z.eqb_neq. rewrite !Z.gtb_ltb, !Z.ltb_ge. split.
    + intros (? & ? & ? & ? & ? & ? & _). split_and!; try lia. intros ? [= <-]. lia.
    + intros (? & ? & ? & H). specialize (H port eq_refl). split_and!; try lia. done.
  - rewrite !Z.gtb_ltb, !Z.ltb_ge. split; [|intros (? & ? & ? & _); split_and!; try lia; done].
    intros (? & ? & ? & _). split_and!; try lia. done.
Qed.
Lemma ValidateFullClientConfig_spec c : ValidateFullClientConfig c = Ok tt ↔ client_ok c.
Proof using.
  unfold ValidateFullClientConfig, ValidateClientConfigPatch. rewrite !bind_unit, !each_spec. cbv zeta.
  rewrite (guard_spec (len (Profiles c) =? 0)), (guard_spec (len (GetActiveProfile c) =? 0)), (guard_spec (negb _)), ports_spec.
  rewrite negb_false_iff, found_spec, !Z.eqb_neq. split.
  - intros ((H1 & H2 & H3) & _ & H5 & H6 & H7). by split.
  - intros [H1 H2 H3 H4 H5 H6]. split_and!; try done; try apply H6. destruct H4 as (p & Hp & _). rewrite len_zero. intros E. rewrite E in Hp. by apply not_elem_of_nil in Hp.
Qed.

Lemma ValidateClientConfigPatch_total c : ValidateClientConfigPatch c = Ok tt ∨ is_Err (ValidateClientConfigPatch c).
Proof using.
  unfold ValidateClientConfigPatch. apply bind_total; [by apply each_no_panic, ValidateSingleProfile_total|].
  apply bind_total; [by apply each_no_panic; intros a; unfold validateIngressAuth; totally|].
  unfold validateMetricsInterval. totally. destruct (ParseDuration_total (GetClientMetricsInterval c)) as [[d ->]|[e ->]]; totally.
Qed.
Lemma ValidateFullClientConfig_total c : ValidateFullClientConfig c = Ok tt ∨ is_Err (ValidateFullClientConfig c).
Proof using.
  unfold ValidateFullClientConfig. apply bind_total; [apply ValidateClientConfigPatch_total|]. cbv zeta. totally. destruct (HttpProxyPort c); totally.
Qed.

(** Storing: hashing the passwords, and decoding what was encoded. *)
Definition decodedClient (c : ClientConfig) : ClientConfig :=
  c<|Socks5Authentication := match Socks5Authentication c with Some [] => None | o => o end|>.
Lemma decoded_auth c : GetIngressAuthentication (decodedClient c) = GetIngressAuthentication c.
Proof using. unfold GetIngressAuthentication. cbn. by destruct (Socks5Authentication c) as [[|]|]. Qed.
Lemma decoded_client_ok c : client_ok c → client_ok (decodedClient c).
Proof using. intros [H1 H2 H3 H4 H5 H6]. split; try assumption. by rewrite decoded_auth. Qed.
Lemma decoded_client_empty c : isEmptyClientConfig (decodedClient c) = isEmptyClientConfig c.
Proof using. unfold isEmptyClientConfig. by rewrite decoded_auth. Qed.

Lemma hashProfile_name p : GetProfileName (hashProfile p) = GetProfileName p.
Proof using. done. Qed.
Lemma hashProfile_valid p : ValidateClientConfigSingleProfile p = Ok tt → ValidateClientConfigSingleProfile (hashProfile p) = Ok tt.
Proof using.
  destruct (Z.eq_dec (len (GetPassword (cp_User p))) 0) as [E|Hp].
  { unfold hashProfile. rewrite HashUserPassword_none by done. by destruct p. }
  destruct (HashUserPassword_getters (cp_User p) true Hp) as (H1 & H2 & H3 & H4 & _).
  unfold ValidateClientConfigSingleProfile. cbn [hashProfile cp_User Servers cp_TrafficPattern set_field ClientProfile_eta].
  change (GetProfileName (hashProfile p)) with (GetProfileName p). change (GetMtu (hashProfile p)) with (GetMtu p).
  change (validateClientProfileDialer (hashProfile p)) with (validateClientProfileDialer p).
  change (cp_User (hashProfile p)) with (HashUserPassword (cp_User p) true). rewrite H1, H2, H3, H4.
  rewrite (proj2 (Z.eqb_neq _ _) Hp). by destruct (len (GetHashedPassword (HashUserPassword (cp_User p) true)) =? 0).
Qed.
(** A profile with a password has its credential. *)
Definition profile_ready (p : ClientProfile) : Prop := len (GetPassword (cp_User p)) ≠ 0 → profilePassword p = Ok (credentialOf (cp_User p)).
Lemma hashProfile_ready p : profile_ready (hashProfile p).
Proof using.
  unfold profile_ready. change (cp_User (hashProfile p)) with (HashUserPassword (cp_User p) true). intros H.
  destruct (Z.eq_dec (len (GetPassword (cp_User p))) 0) as [E|Hp]; [by rewrite HashUserPassword_none in H|].
  destruct (HashUserPassword_getters (cp_User p) true Hp) as (H1 & _ & _ & H4 & _).
  unfold hashProfile. rewrite hashed_profilePassword by done. unfold credentialOf. by rewrite H1, H4.
Qed.
Lemma hashed_client_ok c : client_ok c → client_ok (c<|Profiles := hashProfile <$> Profiles c|>).
Proof using.
  intros [H1 H2 H3 H4 H5 H6]. split; try assumption.
  - cbn. rewrite Forall_fmap. eapply Forall_impl; [exact H1|]. intros p. apply hashProfile_valid.
  - destruct H4 as (p & Hp & E). exists (hashProfile p). split; [|done]. cbn. by apply list_elem_of_fmap_2.
Qed.
Lemma hashed_client_empty c : isEmptyClientConfig (c<|Profiles := hashProfile <$> Profiles c|>) = isEmptyClientConfig c.
Proof using. unfold isEmptyClientConfig, len. cbn. by rewrite length_fmap. Qed.
End valid.

(** ** The stored configuration *)

Section stored.
Context `{F : GoFloat} {B : Type} (Marshal : ClientConfig → option B) (Unmarshal : B → option ClientConfig).
Hypothesis codec : ∀ c b, Marshal c = Some b → Unmarshal b = Some (decodedClient c).

(** Stored is a valid configuration, or the empty one; its passwords are hashed. *)
Definition client_good (c : ClientConfig) : Prop := Forall profile_ready (Profiles c) ∧ (isEmptyClientConfig c = true ∨ client_ok c).
Definition client_disk_good (d : disk B) : Prop := ∀ b, stored d = Some b → ∃ c, Unmarshal b = Some c ∧ client_good c.

(** What a reader finds of what was stored. *)
Definition storedForm (c : ClientConfig) : ClientConfig := decodedClient (c<|Profiles := hashProfile <$> Profiles c|>).
Lemma storedForm_good c : isEmptyClientConfig c = true ∨ client_ok c → client_good (storedForm c).
Proof using.
  intros Hc. split.
  - unfold storedForm. cbn. rewrite Forall_fmap, Forall_forall. intros p _. apply hashProfile_ready.
  - unfold storedForm. rewrite decoded_client_empty, hashed_client_empty. destruct Hc as [Hc|Hc]; [by left|right]. by apply decoded_client_ok, hashed_client_ok.
Qed.
(** The write stopped after the file was truncated. *)
Definition torn (d d' : disk B) : Prop := ∃ e part, store_err d = Some (WriteStops e part) ∧ d' = d<|stored := Some part|>.
Lemma StoreClientConfig_spec c d :
  let '(d', r) := StoreClientConfig Marshal c d in
  store_err d' = store_err d ∧
  match r with
  | Ok _ => (∃ b, stored d' = Some b ∧ Unmarshal b = Some (storedForm c)) ∧ load_err d' = load_err d
  | Err _ => d' = d ∨ torn d d'
  | Panic _ => False
  end.
Proof using codec.
  unfold StoreClientConfig. destruct (Marshal _) as [b|] eqn:E; [|split; [done|by left]]. unfold WriteFile, torn.
  destruct (store_err d) as [[e|e part]|] eqn:Ee; cbn; (split; [by rewrite ?Ee|]); [by left|right; by exists e, part|].
  split; [|done]. exists b. split; [done|]. by apply codec.
Qed.
(** The file after a store: as whole as before. *)
Definition whole_good (d : disk B) : Prop := writes_whole (store_err d) ∧ client_disk_good d.
Lemma StoreClientConfig_good c d :
  isEmptyClientConfig c = true ∨ client_ok c → whole_good d → whole_good (StoreClientConfig Marshal c d).1.
Proof using codec.
  intros Hc [Hw Hd]. pose proof (StoreClientConfig_spec c d) as H. destruct (StoreClientConfig Marshal c d) as [d' [u|e|m]]; destruct H as [Es H]; cbn.
  - split; [by rewrite Es|]. destruct H as [(b & E1 & E2) _]. intros b' E. rewrite E1 in E. injection E as <-. eexists. split; [exact E2|].
    by apply storedForm_good.
  - destruct H as [->|(e' & part & E & _)]; [done|]. by rewrite E in Hw.
  - done.
Qed.
Lemma LoadClientConfig_good d c : client_disk_good d → LoadClientConfig Unmarshal d = Ok c → client_good c.
Proof using.
  intros Hd. unfold LoadClientConfig. destruct (load_err d); [done|]. destruct (stored d) as [b|] eqn:Eb; [|done].
  destruct (Hd b Eb) as (c' & -> & Hc). by intros [= <-].
Qed.
Lemma storing_good r d :
  (∀ c, r = Ok c → isEmptyClientConfig c = true ∨ client_ok c) → whole_good d → whole_good (storing Marshal r d).1.
Proof using codec.
  intros Hr Hd. unfold storing. destruct r as [c|e|m]; [|exact Hd..].
  pose proof (StoreClientConfig_good c d (Hr c eq_refl) Hd) as H. by destruct (StoreClientConfig Marshal c d).
Qed.
Lemma storingOr_good r d :
  (∀ c, r = Ok (Some c) → isEmptyClientConfig c = true ∨ client_ok c) → whole_good d → whole_good (storingOr Marshal r d).1.
Proof using codec.
  intros Hr Hd. unfold storingOr, wrapped. destruct r as [[c|]|e|m]; [|exact Hd..].
  pose proof (StoreClientConfig_good c d (Hr c eq_refl) Hd) as H. by destruct (StoreClientConfig Marshal c d).
Qed.
Lemma LoadClientConfig_total d : match LoadClientConfig Unmarshal d with Panic _ => False | _ => True end.
Proof using. unfold LoadClientConfig. destruct (load_err d); [done|]. destruct (stored d) as [b|]; [|done]. by destruct (Unmarshal b). Qed.
Lemma wrapped_Ok {A} msg (r : result A) a : wrapped msg r = Ok a ↔ r = Ok a.
Proof using. by destruct r. Qed.
Lemma apply_result c d config :
  (_ ← wrapped "ValidateClientConfigPatch() failed" (ValidateClientConfigPatch c);
   config ← wrapped "LoadClientConfig() failed" (LoadClientConfig Unmarshal d);
   let config := mergeClientConfigByProfile config c in
   _ ← wrapped "ValidateFullClientConfig() failed" (ValidateFullClientConfig config);
   Ok config) = Ok config →
  ∃ dst, LoadClientConfig Unmarshal d = Ok dst ∧ config = mergeClientConfigByProfile dst c ∧ client_ok config.
Proof using.
  destruct (ValidateClientConfigPatch c) as [[]|e|m]; [|done..]. cbn [wrapped]. rewrite bind_Ok.
  destruct (LoadClientConfig Unmarshal d) as [dst|e|m]; [|done..]. cbn [wrapped]. rewrite bind_Ok. cbv zeta.
  destruct (ValidateFullClientConfig _) as [[]|e|m] eqn:Ev; [|done..]. cbn [wrapped]. rewrite bind_Ok. intros [= <-].
  exists dst. split_and!; try done. by apply ValidateFullClientConfig_spec.
Qed.

Lemma apply_no_panic c d m :
  (_ ← wrapped "ValidateClientConfigPatch() failed" (ValidateClientConfigPatch c);
   config ← wrapped "LoadClientConfig() failed" (LoadClientConfig Unmarshal d);
   let config := mergeClientConfigByProfile config c in
   _ ← wrapped "ValidateFullClientConfig() failed" (ValidateFullClientConfig config);
   Ok config) ≠ Panic m.
Proof using.
  destruct (ValidateClientConfigPatch_total c) as [->|[e ->]]; [|done]. cbn [wrapped]. rewrite bind_Ok.
  pose proof (LoadClientConfig_total d) as H2. destruct (LoadClientConfig Unmarshal d) as [dst|e|m']; [|done..]. cbn [wrapped]. rewrite bind_Ok. cbv zeta.
  by destruct (ValidateFullClientConfig_total (mergeClientConfigByProfile dst c)) as [->|[e ->]].
Qed.
(** The active profile. *)
Lemma active_found c : client_ok c → ∃ p, p ∈ Profiles c ∧ GetProfileName p = GetActiveProfile c ∧ GetActiveProfileFromConfig (Some c) (GetActiveProfile c) = Ok p.
Proof using.
  intros [_ _ _ (q & Hq & E) _ _]. unfold GetActiveProfileFromConfig.
  pose proof (find_first (λ p, bool_decide (GetProfileName p = GetActiveProfile c)) (Profiles c)) as H.
  destruct (List.find _ _) as [p|].
  - destruct H as (i & Hi & Hn & _). apply bool_decide_eq_true in Hn. exists p. split_and!; try done. by eapply list_elem_of_lookup_2.
  - specialize (H q Hq). by apply bool_decide_eq_false in H.
Qed.

(** Deleting a profile that is not the active one, and deleting optional parts. *)
Lemma delete_profile_ok name c :
  GetActiveProfile c ≠ name → client_ok c →
  client_ok (c<|Profiles := List.filter (λ p, negb (bool_decide (GetProfileName p = name))) (Profiles c)|>).
Proof using.
  intros Hn [H1 H2 H3 (p & Hp & E) H5 H6]. split; try assumption.
  - cbn. rewrite Forall_forall in *. intros q Hq. apply H1. apply list_elem_of_In, filter_In in Hq as [Hq _]. by apply list_elem_of_In.
  - exists p. split; [|done]. cbn. apply list_elem_of_In, filter_In. split; [by apply list_elem_of_In|].
    rewrite bool_decide_eq_false_2; [done|congruence].
Qed.
Lemma delete_profile_empty name c :
  isEmptyClientConfig c = true →
  isEmptyClientConfig (c<|Profiles := List.filter (λ p, negb (bool_decide (GetProfileName p = name))) (Profiles c)|>) = true.
Proof using.
  unfold isEmptyClientConfig. cbn [Profiles set_field ClientConfig_eta]. intros H. bool_to_prop. assert (Profiles c = []) as E by by apply len_zero.
  cbn. rewrite E. cbn. rewrite !andb_true_iff. split_and!; try done; by apply bool_decide_eq_true || by apply Z.eqb_eq.
Qed.
Lemma delete_http_ok c : client_ok c → client_ok (c<|HttpProxyPort := None|><|HttpProxyListenLAN := None|>).
Proof using. intros [H1 H2 H3 H4 H5 (P1 & P2 & P3 & _)]. split; try assumption. split_and!; try done; apply P1 || apply P2. Qed.
Lemma delete_auth_ok c : client_ok c → client_ok (c<|Socks5Authentication := None|>).
Proof using. intros [H1 H2 H3 H4 H5 H6]. split; try assumption. constructor. Qed.

Inductive clientCommand :=
| ClientApply (parsed : result ClientConfig)
| ClientReplace (parsed : result ClientConfig)
| ClientDeleteProfile (name : list Z)
| ClientDeleteHTTPProxy
| ClientDeleteSocks5Authentication
| ClientErrors (load_err : option error) (store_err : option (writeFault B)).
Definition runClientCommand (d : disk B) (cmd : clientCommand) : disk B :=
  match cmd with
  | ClientApply parsed => (clientApplyConfig Marshal Unmarshal parsed d).1
  | ClientReplace parsed => (ReplaceJSONClientConfig Marshal parsed d).1
  | ClientDeleteProfile name => (DeleteClientConfigProfile Marshal Unmarshal name d).1
  | ClientDeleteHTTPProxy => (clientDeleteHTTPProxy Marshal Unmarshal d).1
  | ClientDeleteSocks5Authentication => (clientDeleteSocks5Authentication Marshal Unmarshal d).1
  | ClientErrors l s => d<|load_err := l|><|store_err := s|>
  end.
Lemma createClientConfig_good d : whole_good d → whole_good (createClientConfig Marshal Unmarshal d).1.
Proof using codec.
  intros Hd. unfold createClientConfig. destruct (LoadClientConfig Unmarshal d) as [c|e|m]; [exact Hd| |exact Hd]. destruct (bool_decide _); [|exact Hd].
  pose proof (StoreClientConfig_good emptyClientConfig d (or_introl eq_refl) Hd) as H. by destruct (StoreClientConfig Marshal emptyClientConfig d).
Qed.
(** The command lets no write stop in the middle. *)
Definition client_command_whole (cmd : clientCommand) : Prop := match cmd with ClientErrors _ s => writes_whole s | _ => True end.
Lemma runClientCommand_good cmd d : client_command_whole cmd → whole_good d → whole_good (runClientCommand d cmd).
Proof using codec.
  intros Hcmd Hd. destruct cmd as [parsed|parsed|name| | |l s]; cbn [runClientCommand]; [| | | | |by split; [exact Hcmd|apply Hd]].
  - unfold clientApplyConfig. pose proof (createClientConfig_good d Hd) as Hd'. destruct (createClientConfig Marshal Unmarshal d) as [d' [u|e|m]]; [|exact Hd'..].
    destruct parsed as [c|e|m]; [|exact Hd'..]. apply storing_good; [|exact Hd']. intros config (dst & _ & _ & Hok)%apply_result. by right.
  - apply storing_good; [|done]. intros c. destruct parsed as [config|e|m]; [|done..]. rewrite bind_Ok.
    destruct (ValidateFullClientConfig config) as [[]|e|m] eqn:Ev; [|done..]. cbn [wrapped]. rewrite bind_Ok. intros [= <-]. right. by apply ValidateFullClientConfig_spec.
  - apply storing_good; [|done]. intros c. destruct (LoadClientConfig Unmarshal d) as [config|e|m] eqn:El; [|done..]. cbn [wrapped]. rewrite bind_Ok.
    case_bool_decide as Hn; [done|]. intros [= <-]. destruct (LoadClientConfig_good _ _ (proj2 Hd) El) as [_ [He|Hok]];
      [left; by apply delete_profile_empty|right; by apply delete_profile_ok].
  - apply storingOr_good; [|done]. intros c. destruct (LoadClientConfig Unmarshal d) as [config|e|m] eqn:El; [|done..]. rewrite bind_Ok.
    destruct (_ && _) eqn:E0; [done|]. intros [= <-]. destruct (LoadClientConfig_good _ _ (proj2 Hd) El) as [_ [He|Hok]]; [|right; by apply delete_http_ok].
    exfalso. unfold isEmptyClientConfig in He. bool_to_prop. apply andb_false_iff in E0 as [E0|E0]; apply bool_decide_eq_false in E0; done.
  - apply storingOr_good; [|done]. intros c. destruct (LoadClientConfig Unmarshal d) as [config|e|m] eqn:El; [|done..]. rewrite bind_Ok.
    destruct (Z.eqb_spec (len (GetIngressAuthentication config)) 0) as [E0|N0]; [done|]. intros [= <-].
    destruct (LoadClientConfig_good _ _ (proj2 Hd) El) as [_ [He|Hok]]; [|right; by apply delete_auth_ok].
    exfalso. unfold isEmptyClientConfig in He. bool_to_prop. done.
Qed.
Lemma runClientCommands_good cmds d : Forall client_command_whole cmds → whole_good d → whole_good (foldl runClientCommand d cmds).
Proof using codec.
  intros Hc. revert d. induction Hc as [|cmd cmds H _ IH]; intros d Hd; [done|]. cbn. apply IH. by apply runClientCommand_good.
Qed.
End stored.

(** ** Properties *)

(** C23. Applying a patch succeeds or fails.  If it fails, the file is as it was,
    except when it could be opened, which truncates it, and the write stopped:
    then what was stored before is lost.  If it succeeds, it stores a valid
    configuration whose profiles are those of the patch and those of the old configuration
    whose name is not in the patch, one of each name, in the order of their
    names, with hashed passwords; the active profile and the ports are those of
    the patch if it has them. *)
Theorem apply_client_config `{F : GoFloat} {B : Type} (Marshal : ClientConfig → option B) (Unmarshal : B → option ClientConfig)
    (patch : ClientConfig) (d : disk B) :
  (∀ c b, Marshal c = Some b → Unmarshal b = Some (decodedClient c)) →
  let '(d', r) := applyClientConfig Marshal Unmarshal patch d in
  match r with
  | Ok _ => ∃ dst c, LoadClientConfig Unmarshal d = Ok dst ∧ LoadClientConfig Unmarshal d' = Ok c ∧ ValidateFullClientConfig c = Ok tt ∧
      StronglySorted (λ a b, bytesLtb (GetProfileName a) (GetProfileName b) = true) (Profiles c) ∧
      (∀ p, p ∈ Profiles c ↔ ∃ q, ofBoth GetProfileName (Profiles dst) (Profiles patch) (GetProfileName p) = Some q ∧ p = hashProfile q) ∧
      GetActiveProfile c = default (GetActiveProfile dst) (ActiveProfile patch) ∧ GetSocks5Port c = default (GetSocks5Port dst) (Socks5Port patch) ∧
      RpcPort c = replaceNil (RpcPort dst) (RpcPort patch) ∧ HttpProxyPort c = replaceNil (HttpProxyPort dst) (HttpProxyPort patch)
  | Err _ => d' = d ∨ torn d d'
  | Panic _ => False
  end.
Proof.
  intros codec. unfold applyClientConfig, storing.
  match goal with |- context [match ?r with Ok _ => _ | Err _ => _ | Panic _ => _ end] => destruct r as [config|e|m] eqn:Er end; [|by left|].
  - apply apply_result in Er as (dst & Hl & -> & Hok).
    pose proof (StoreClientConfig_spec Marshal Unmarshal codec (mergeClientConfigByProfile dst patch) d) as Hs.
    destruct (StoreClientConfig Marshal _ d) as [d' [[]|e|m]]; cbn [wrapped]; destruct Hs as [_ Hs]; [|done|done].
    destruct Hs as [(b & Eb & Ed) Hle]. exists dst, (storedForm (mergeClientConfigByProfile dst patch)). split; [done|]. split.
    { unfold LoadClientConfig in *. rewrite Hle, Eb, Ed. by destruct (load_err d). }
    split; [by apply ValidateFullClientConfig_spec, decoded_client_ok, hashed_client_ok|].
    destruct (mergeBy_spec GetProfileName (Profiles dst) (Profiles patch)) as [H1 H2]. split_and!; try done.
    + unfold storedForm. cbn. clear H2. induction H1 as [|p l Hs IH Hall]; [constructor|]. cbn. constructor; [exact IH|]. by rewrite Forall_fmap.
    + intros p. unfold storedForm. cbn. rewrite list_elem_of_fmap. split.
      * intros (q & -> & Hq). exists q. split; [|done]. change (GetProfileName (hashProfile q)) with (GetProfileName q). by apply H2.
      * intros (q & Hq & ->). exists q. split; [done|]. by apply H2.
  - exfalso. revert Er. apply apply_no_panic.
Qed.

(** Whatever commands the user gives (applying, importing and replacing
    configurations, deleting profiles and parts) and whatever errors reading the
    file and opening it for writing meet, the stored configuration is valid or the empty one, and a profile with
    a password has the credential that the server derives from it. *)
Theorem client_config_good `{F : GoFloat} {B : Type} (Marshal : ClientConfig → option B) (Unmarshal : B → option ClientConfig)
    (cmds : list clientCommand) (d : disk B) :
  (∀ c b, Marshal c = Some b → Unmarshal b = Some (decodedClient c)) →
  writes_whole (store_err d) → Forall client_command_whole cmds → client_disk_good Unmarshal d →
  client_disk_good Unmarshal (foldl (runClientCommand Marshal Unmarshal) d cmds).
Proof. intros codec Hw Hc Hd. by apply (runClientCommands_good Marshal Unmarshal codec cmds d). Qed.

(** C24. What the commands have stored can be run, if no write stopped after it
    had truncated the file: unless the file cannot be read
    or holds the empty configuration, the active profile is found; and if it has
    a password, the client gets a multiplexer that can dial, with the user's name
    and the credential of that password, and an endpoint for every port of every
    server of the profile and no other, behind a SOCKS5 server that asks for the
    configured accounts. *)
Theorem stored_config_runs `{F : GoFloat} `{BT : BTree} {U : Type} `{UL : !UnderlayOps U} {B : Type} (Marshal : ClientConfig → option B)
    (Unmarshal : B → option ClientConfig) (ver hostName : list Z) (cmds : list clientCommand) (d : disk B) (c : ClientConfig) (h : hints) :
  (∀ c b, Marshal c = Some b → Unmarshal b = Some (decodedClient c)) →
  writes_whole (store_err d) → Forall client_command_whole cmds → client_disk_good Unmarshal d → hints_ok ver h →
  let d' := foldl (runClientCommand Marshal Unmarshal) d cmds in
  LoadClientConfig Unmarshal d' = Ok c → isEmptyClientConfig c = false →
  ∃ p, p ∈ Profiles c ∧ GetProfileName p = GetActiveProfile c ∧ configToRun Unmarshal d' = Ok (c, p) ∧
    (len (GetPassword (cp_User p)) ≠ 0 →
     ∃ h' (m : Mux (U:=U)) dialers, clientRun Unmarshal ver hostName d' h = (h', Ok (m, dialers, ingressSocks5Config c p)) ∧
       dialCheck m = Ok tt ∧ m_username m = GetName (cp_User p) ∧ m_password m = credentialOf (cp_User p) ∧
       (∀ ep, ep ∈ m_endpoints m ↔ ∃ server protocol port, server ∈ Servers p ∧
          (protocol = TransportProtocol_TCP ∨ protocol = TransportProtocol_UDP) ∧ bound (se_PortBindings server) protocol port ∧
          ep = endpointOf (profileMtu p) server protocol port)).
Proof.
  intros codec Hw Hcmds Hd Hh d' Hl Hne.
  assert (client_disk_good Unmarshal d') as Hd'.
  { by apply (runClientCommands_good Marshal Unmarshal codec cmds d). }
  destruct (LoadClientConfig_good Unmarshal d' c Hd' Hl) as [Hready [He|Hok]]; [congruence|].
  assert (ValidateFullClientConfig c = Ok tt) as Hv by by apply ValidateFullClientConfig_spec.
  destruct (active_found c Hok) as (p & Hp & Hn & Ea). exists p.
  assert (configToRun Unmarshal d' = Ok (c, p)) as Ec.
  { unfold configToRun. rewrite Hl, bind_Ok, Hne, Hv. cbn [wrapped]. rewrite bind_Ok, Ea. reflexivity. }
  split_and!; try done. intros Hpw. rewrite Forall_forall in Hready. specialize (Hready p Hp Hpw).
  destruct Hok as [H1 _ _ _ _ _]. rewrite Forall_forall in H1.
  destruct (accepted_profile_dials (U:=U) ver hostName p (None : option unit) (None : option unit) h (H1 p Hp)) as (h' & m & Hh' & Em & M1 & M2 & M3 & _ & _ & M4);
    [rewrite Hready; by eexists|done|].
  exists h', m, (chooseDialers p None None). split_and!; [|done..|congruence|exact M4].
  unfold clientRun. rewrite Ec. unfold mbind at 1, gen_bind. rewrite Em. reflexivity.
Qed.

(** ** Examples *)

#[local] Existing Instance fractionFloat.
#[local] Existing Instance listTree.

Definition example_client : ClientConfig :=
  mkClientConfig [example_profile] (Some (bytes_of_string "default")) (Some 8964) (Some 1080) None None None (Some 8080) None
    (Some [mkAuthMsg (Some [117]) (Some [112])]).
Definition example_client_disk : disk ClientConfig := mkDisk (Some (storedForm example_client)) None None.
Definition example_client_patch : ClientConfig :=
  emptyClientConfig<|Profiles := [example_profile<|ProfileName := Some (bytes_of_string "another")|>]|><|Socks5Port := Some 1081|>.
Lemma example_disk_good : client_disk_good Some example_client_disk.
Proof.
  intros b [= <-]. eexists. split; [done|]. apply storedForm_good. right. apply ValidateFullClientConfig_spec. by vm_compute.
Qed.
Lemma apply_client_config_witness :
  let '(d', r) := applyClientConfig Some (Some ∘ decodedClient) example_client_patch example_client_disk in
  r = Ok tt ∧
  match r with
  | Ok _ => ∃ dst c, LoadClientConfig (Some ∘ decodedClient) example_client_disk = Ok dst ∧ LoadClientConfig (Some ∘ decodedClient) d' = Ok c ∧ ValidateFullClientConfig c = Ok tt ∧
      StronglySorted (λ a b, bytesLtb (GetProfileName a) (GetProfileName b) = true) (Profiles c) ∧
      (∀ p, p ∈ Profiles c ↔ ∃ q, ofBoth GetProfileName (Profiles dst) (Profiles example_client_patch) (GetProfileName p) = Some q ∧ p = hashProfile q) ∧
      GetActiveProfile c = default (GetActiveProfile dst) (ActiveProfile example_client_patch) ∧ GetSocks5Port c = default (GetSocks5Port dst) (Socks5Port example_client_patch) ∧
      RpcPort c = replaceNil (RpcPort dst) (RpcPort example_client_patch) ∧ HttpProxyPort c = replaceNil (HttpProxyPort dst) (HttpProxyPort example_client_patch)
  | Err _ => d' = example_client_disk ∨ torn example_client_disk d'
  | Panic _ => False
  end.
Proof.
  pose proof (apply_client_config Some (Some ∘ decodedClient) example_client_patch example_client_disk) as H.
  assert ((applyClientConfig Some (Some ∘ decodedClient) example_client_patch example_client_disk).2 = Ok tt) as E by by vm_compute.
  destruct (applyClientConfig _ _ _ _) as [d' r]. split; [exact E|]. apply H. by intros c b [= <-].
Defined.
Lemma client_config_good_witness :
  let cmds := [ClientApply (Ok example_client); ClientDeleteHTTPProxy; ClientErrors None (Some (OpenFails (Errorf "permission denied"))); ClientDeleteProfile (bytes_of_string "default");
               ClientDeleteSocks5Authentication; ClientReplace (Ok example_client)] in
  client_disk_good (Some ∘ decodedClient) (foldl (runClientCommand Some (Some ∘ decodedClient)) (mkDisk None None None) cmds).
Proof. intros cmds. apply (client_config_good Some (Some ∘ decodedClient) cmds); [by intros c b [= <-]|done|by repeat constructor|by intros b]. Defined.
Lemma stored_config_runs_witness :
  let c := storedForm (mergeClientConfigByProfile emptyClientConfig example_client) in
  let d' := foldl (runClientCommand Some (Some ∘ decodedClient)) (mkDisk None None None) [ClientApply (Ok example_client)] in
  ∃ p, p ∈ Profiles c ∧ GetProfileName p = GetActiveProfile c ∧ configToRun (Some ∘ decodedClient) d' = Ok (c, p) ∧
    (len (GetPassword (cp_User p)) ≠ 0 →
     ∃ h' (m : Mux (U:=PacketUnderlay.PacketUnderlay)) dialers, clientRun (Some ∘ decodedClient) [] [] d' (mkHints ∅ ∅) = (h', Ok (m, dialers, ingressSocks5Config c p)) ∧
       dialCheck m = Ok tt ∧ m_username m = GetName (cp_User p) ∧ m_password m = credentialOf (cp_User p) ∧
       (∀ ep, ep ∈ m_endpoints m ↔ ∃ server protocol port, server ∈ Servers p ∧
          (protocol = TransportProtocol_TCP ∨ protocol = TransportProtocol_UDP) ∧ bound (se_PortBindings server) protocol port ∧
          ep = endpointOf (profileMtu p) server protocol port)).
Proof.
  intros c d'.
  apply (stored_config_runs Some (Some ∘ decodedClient) [] [] [ClientApply (Ok example_client)] (mkDisk None None None) c (mkHints ∅ ∅));
    [by intros c' b [= <-]|done|by repeat constructor|by intros b|apply no_hints_ok|by vm_compute|by vm_compute].
Defined.
