(* ===== verification/NetURL.v ===== *)
(** * What the source uses of packages [net/url] and [encoding/base64]

    Escaping, the URL parser, query parameters and standard base64, as the
    standard library defines them.  A string is its bytes; a URL has the parts
    that the source looks at.

    Lemmas: unescaping is the inverse of escaping; the parser finds the parts
    of a URL that was put together from escaped parts; the parameters of a query
    are read back whatever bytes they have; decoding base64 is the inverse of
    encoding. *)
From S2P Require Import Prelude GoStd GoNet GoIP ServerUser AppCommon ServerConfig.

(** ** Escaping *)

Inductive encoding := encodePath | encodeHost | encodeZone | encodeUserPassword | encodeQueryComponent | encodeFragment.
Definition oneOf (c : Z) (s : string) : bool := existsb (Z.eqb c) (bytes_of_string s).
Definition isAlpha (c : Z) : bool := ((97 <=? c) && (c <=? 122)) || ((65 <=? c) && (c <=? 90)).
Definition isAlnum (c : Z) : bool := isAlpha c || isDigit c.
Definition isHostMode (mode : encoding) : bool := match mode with encodeHost | encodeZone => true | _ => false end.
Definition shouldEscape (c : Z) (mode : encoding) : bool :=
  if isAlnum c then false else
  if isHostMode mode && (oneOf c "!$&'()*+,;=:[]<>" || (c =? 34)) then false else
  if oneOf c "-_.~" then false else
  if oneOf c "$&+,/:;=?@" then
    match mode with
    | encodePath => c =? 63
    | encodeUserPassword => oneOf c "@/?:"
    | encodeQueryComponent => true
    | encodeFragment => false
    | encodeHost | encodeZone => true
    end
  else match mode with encodeFragment => negb (oneOf c "!()*") | _ => true end.
Definition upperhex (d : Z) : Z := if d <? 10 then 48 + d else 55 + d.
Definition escapeByte (mode : encoding) (c : Z) : list Z :=
  if shouldEscape c mode then
    match mode with
    | encodeQueryComponent => if c =? 32 then [43] else [37; upperhex (c / 16); upperhex (c mod 16)]
    | _ => [37; upperhex (c / 16); upperhex (c mod 16)]
    end
  else [c].
Definition escape (s : list Z) (mode : encoding) : list Z := mjoin (escapeByte mode <$> s).

Definition InvalidHostError : error := Errorf "invalid character in host name".
Definition EscapeError : error := Errorf "invalid URL escape".
(** A byte [v] given by its digits: what the mode allows. *)
Definition escapeAllowed (mode : encoding) (v : Z) : bool :=
  match mode with
  | encodeHost => (128 <=? v) || (v =? 37)
  | encodeZone => (v =? 37) || (v =? 32) || negb (shouldEscape v encodeHost)
  | _ => true
  end.
Fixpoint unescape (mode : encoding) (s : list Z) : result (list Z) :=
  match s with
  | [] => Ok []
  | c :: s =>
    if c =? 37 then
      match s with
      | a :: b :: s =>
        match fromHexChar a, fromHexChar b with
        | Some x, Some y =>
          if escapeAllowed mode (x * 16 + y) then l ← unescape mode s; Ok (x * 16 + y :: l) else Err EscapeError
        | _, _ => Err EscapeError
        end
      | _ => Err EscapeError
      end
    else if c =? 43 then l ← unescape mode s; Ok ((match mode with encodeQueryComponent => 32 | _ => 43 end) :: l)
    else if isHostMode mode && (c <? 128) && shouldEscape c mode then Err InvalidHostError
    else l ← unescape mode s; Ok (c :: l)
  end.

(** ** URLs *)

(** A user name, and a password if there is a colon. *)
Record Userinfo := mkUserinfo { Username : list Z; Password : option (list Z) }.
Record URL := mkURL { Scheme : list Z; Opaque : list Z; User_ : option Userinfo; Host : list Z; Path : list Z; RawQuery : list Z }.
Definition HasPrefix (s : list Z) (prefix : string) : bool :=
  bool_decide (take (length (bytes_of_string prefix)) s = bytes_of_string prefix).
(** [before, after, _ := strings.Cut(s, sep)] *)
Definition cut (c : Z) (s : list Z) : list Z * list Z := default (s, []) (Cut c s).

Definition Userinfo_String (ui : Userinfo) : list Z :=
  escape (Username ui) encodeUserPassword ++
  match Password ui with Some pw => 58 :: escape pw encodeUserPassword | None => [] end.
(** [URL.String] of a URL with a scheme and no path. *)
Definition URL_String (u : URL) : list Z :=
  Scheme u ++ [58] ++
  (if negb (len (Host u) =? 0) || (match User_ u with Some _ => true | None => false end) then
     [47; 47] ++ (match User_ u with Some ui => Userinfo_String ui ++ [64] | None => [] end) ++ escape (Host u) encodeHost
   else []) ++
  (if negb (len (RawQuery u) =? 0) then 63 :: RawQuery u else []).

(** [getScheme]: where the colon is. *)
Fixpoint schemeEnd (i : nat) (s : list Z) : result (option nat) :=
  match s with
  | [] => Ok None
  | c :: s =>
    if isAlpha c then schemeEnd (S i) s else
    if isDigit c || oneOf c "+-." then (if (i =? 0)%nat then Ok None else schemeEnd (S i) s) else
    if c =? 58 then (if (i =? 0)%nat then Err (Errorf "missing protocol scheme") else Ok (Some i)) else Ok None
  end.
Definition getScheme (rawURL : list Z) : result (list Z * list Z) :=
  i ← schemeEnd 0 rawURL;
  Ok (match i with Some i => (take i rawURL, drop (S i) rawURL) | None => ([], rawURL) end).
Definition validOptionalPort (port : list Z) : bool :=
  match port with [] => true | c :: s => (c =? 58) && forallb isDigit s end.
Definition validUserinfoByte (c : Z) : bool := isAlnum c || oneOf c "-._:~!$&'()*+,;=%@".
(** The first occurrence of [%25]. *)
Fixpoint zoneIndex (s : list Z) : option nat :=
  match s with
  | [] => None
  | _ :: t => if HasPrefix s "%25" then Some O else S <$> zoneIndex t
  end.
Definition parseHost (host : list Z) : result (list Z) :=
  if HasPrefix host "[" then
    match LastIndexByte 93 host with
    | None => Err (Errorf "missing ']' in host")
    | Some i =>
      if negb (validOptionalPort (drop (S i) host)) then Err (Errorf "invalid port after host") else
      match zoneIndex (take i host) with
      | Some zone =>
        host1 ← unescape encodeHost (take zone host);
        host2 ← unescape encodeZone (drop zone (take i host));
        host3 ← unescape encodeHost (drop i host);
        Ok (host1 ++ host2 ++ host3)
      | None => unescape encodeHost host
      end
    end
  else
    match LastIndexByte 58 host with
    | Some i => if negb (validOptionalPort (drop i host)) then Err (Errorf "invalid port after host") else unescape encodeHost host
    | None => unescape encodeHost host
    end.
Definition parseAuthority (authority : list Z) : result (option Userinfo * list Z) :=
  match LastIndexByte 64 authority with
  | None => host ← parseHost authority; Ok (None, host)
  | Some i =>
    host ← parseHost (drop (S i) authority);
    let userinfo := take i authority in
    if negb (forallb validUserinfoByte userinfo) then Err (Errorf "net/url: invalid userinfo") else
    match Cut 58 userinfo with
    | None => userinfo ← unescape encodeUserPassword userinfo; Ok (Some (mkUserinfo userinfo None), host)
    | Some (username, password) =>
      username ← unescape encodeUserPassword username;
      password ← unescape encodeUserPassword password;
      Ok (Some (mkUserinfo username (Some password)), host)
    end
  end.
Definition isCTL (c : Z) : bool := (c <? 32) || (c =? 127).
(** [parse], with the fragment cut off. *)
Definition parse (rawURL : list Z) : result URL :=
  if existsb isCTL rawURL then Err (Errorf "net/url: invalid control character in URL") else
  if bool_decide (rawURL = [42]) then Ok (mkURL [] [] None [] [42] []) else
  '(scheme, rest) ← getScheme rawURL;
  let scheme := ToLower scheme in
  let '(rest, query) :=
    if HasSuffix rest [63] && (len (filter (λ c, c = 63) rest) =? 1) then (take (length rest - 1) rest, []) else cut 63 rest in
  if negb (HasPrefix rest "/") && negb (len scheme =? 0) then Ok (mkURL scheme rest None [] [] query) else
  if negb (HasPrefix rest "/") && existsb (Z.eqb 58) (cut 47 rest).1 then Err (Errorf "first path segment in URL cannot contain colon") else
  if (negb (len scheme =? 0) || negb (HasPrefix rest "///")) && HasPrefix rest "//" then
    let authority := drop 2 rest in
    let i := IndexByte 47 authority in
    '(user, host) ← parseAuthority (match i with Some i => take i authority | None => authority end);
    path ← unescape encodePath (match i with Some i => drop i authority | None => [] end);
    Ok (mkURL scheme [] user host path query)
  else
    path ← unescape encodePath rest;
    Ok (mkURL scheme [] None [] path query).
Definition Parse (rawURL : list Z) : result URL :=
  let '(u, frag) := cut 35 rawURL in
  url ← parse u;
  _ ← unescape encodeFragment frag;
  Ok url.
Definition Hostname (u : URL) : list Z :=
  let host := match LastIndexByte 58 (Host u) with
              | Some i => if validOptionalPort (drop i (Host u)) then take i (Host u) else Host u
              | None => Host u
              end in
  if HasPrefix host "[" && HasSuffix host [93] then slice 1 (len host - 1) host else host.

(** ** Query parameters *)

Abbreviation Values := (gmap (list Z) (list (list Z))).
Definition Add (key value : list Z) (v : Values) : Values := <[key := default [] (v !! key) ++ [value]]> v.
Definition Get (v : Values) (key : list Z) : list Z := default [] (v !! key ≫= head).
Definition QueryEscape (s : list Z) : list Z := escape s encodeQueryComponent.
Definition QueryUnescape (s : list Z) : result (list Z) := unescape encodeQueryComponent s.
Fixpoint joinWith (sep : Z) (l : list (list Z)) : list Z :=
  match l with [] => [] | [x] => x | x :: l => x ++ sep :: joinWith sep l end.
Fixpoint splitOn (sep : Z) (s : list Z) : list (list Z) :=
  match s with
  | [] => [[]]
  | c :: s =>
    if c =? sep then [] :: splitOn sep s
    else match splitOn sep s with x :: l => (c :: x) :: l | [] => [[c]] end
  end.
Definition sortedKeys (v : Values) : list (list Z) := merge_sort bytesLe (map_to_list v).*1.
(** The pairs, in the order of the keys. *)
Definition pairsOf (v : Values) : list (list Z * list Z) :=
  sortedKeys v ≫= λ k, (λ x, (k, x)) <$> default [] (v !! k).
Definition Encode (v : Values) : list Z :=
  joinWith 38 ((λ '(k, x), QueryEscape k ++ 61 :: QueryEscape x) <$> pairsOf v).
(** The loop over the parts between ampersands; the first error is returned. *)
Fixpoint parseParts (parts : list (list Z)) (v : Values) : result Values :=
  match parts with
  | [] => Ok v
  | part :: parts =>
    if existsb (Z.eqb 59) part then Err (Errorf "invalid semicolon separator in query") else
    if len part =? 0 then parseParts parts v else
    let '(key, value) := cut 61 part in
    key ← QueryUnescape key;
    value ← QueryUnescape value;
    parseParts parts (Add key value v)
  end.
Definition ParseQuery (query : list Z) : result Values := parseParts (splitOn 38 query) ∅.

(** ** Base64 *)

Definition base64Alphabet : list Z := bytes_of_string "ABCDEFGHIJKLMNOPQRSTUVWXYZabcdefghijklmnopqrstuvwxyz0123456789+/".
Definition base64Char (d : Z) : Z := nth (Z.to_nat d) base64Alphabet 0.
Definition base64Digit (c : Z) : option Z := Z.of_nat <$> IndexByte c base64Alphabet.
Fixpoint base64Encode (s : list Z) : list Z :=
  match s with
  | a :: b :: c :: s =>
    base64Char (a / 4) :: base64Char (a mod 4 * 16 + b / 16) :: base64Char (b mod 16 * 4 + c / 64) :: base64Char (c mod 64) :: base64Encode s
  | [a; b] => [base64Char (a / 4); base64Char (a mod 4 * 16 + b / 16); base64Char (b mod 16 * 4); 61]
  | [a] => [base64Char (a / 4); base64Char (a mod 4 * 16); 61; 61]
  | [] => []
  end.
(** Groups of four characters; padding ends the text. *)
Fixpoint base64Groups (s : list Z) : result (list Z) :=
  match s with
  | [] => Ok []
  | w :: x :: y :: z :: s =>
    match base64Digit w, base64Digit x with
    | Some w, Some x =>
      if y =? 61 then
        if (z =? 61) && (match s with [] => true | _ => false end) then Ok [w * 4 + x / 16] else Err (Errorf "illegal base64 data") else
      match base64Digit y with
      | Some y =>
        if z =? 61 then
          match s with [] => Ok [w * 4 + x / 16; x mod 16 * 16 + y / 4] | _ => Err (Errorf "illegal base64 data") end
        else
        match base64Digit z with
        | Some z => l ← base64Groups s; Ok (w * 4 + x / 16 :: x mod 16 * 16 + y / 4 :: y mod 4 * 64 + z :: l)
        | None => Err (Errorf "illegal base64 data")
        end
      | None => Err (Errorf "illegal base64 data")
      end
    | _, _ => Err (Errorf "illegal base64 data")
    end
  | _ => Err (Errorf "illegal base64 data")
  end.
(** Line ends are ignored. *)
Definition base64Decode (s : list Z) : result (list Z) := base64Groups (filter (λ c, c ≠ 10 ∧ c ≠ 13) s).

Local Abbreviation str := bytes_of_string.
Example parse_example :
  Parse (str "mierus://bao%40zi:m%3An@[2001:db8::1]:443?port=1-2&profile=a+b%26#x") =
    Ok (mkURL (str "mierus") [] (Some (mkUserinfo (str "bao@zi") (Some (str "m:n")))) (str "[2001:db8::1]:443") [] (str "port=1-2&profile=a+b%26")) ∧
  Parse (str "mieru:abc") = Ok (mkURL (str "mieru") (str "abc") None [] [] []) ∧
  Parse (str "mierus://a b@c") = Err (Errorf "net/url: invalid userinfo") ∧
  Parse (str "mierus://a@b:c") = Err (Errorf "invalid port after host") ∧ Parse (str "mierus://a@b%2f") = Err EscapeError.
Proof. by vm_compute. Qed.
Example base64_example : base64Encode (str "any carnal pleas") = str "YW55IGNhcm5hbCBwbGVhcw==" ∧ base64Decode (str "YW55IGNhcm5hbCBwbGVhcw==") = Ok (str "any carnal pleas").
Proof. by vm_compute. Qed.

(** ** Bytes *)

Lemma IndexByte_None c s : IndexByte c s = None ↔ c ∉ s.
Proof.
  induction s as [|x s IH]; [split; [intros _; apply not_elem_of_nil|done]|]. cbn. rewrite not_elem_of_cons.
  destruct (Z.eqb_spec x c) as [->|N]; [split; [done|by intros []]|]. rewrite fmap_None, IH. split; [by split|by intros []].
Qed.
Lemma Cut_at c s t : c ∉ s → Cut c (s ++ c :: t) = Some (s, t).
Proof.
  intros H%IndexByte_None. unfold Cut. rewrite IndexByte_app by done. cbn.
  rewrite take_app_length, drop_app_ge by lia. by replace (S (length s) - length s)%nat with 1%nat by lia.
Qed.
Lemma Cut_none c s : c ∉ s → Cut c s = None.
Proof. intros H%IndexByte_None. unfold Cut. by rewrite H. Qed.
Lemma cut_at c s t : c ∉ s → cut c (s ++ c :: t) = (s, t).
Proof. intros H. unfold cut. by rewrite Cut_at. Qed.
Lemma cut_none c s : c ∉ s → cut c s = (s, []).
Proof. intros H. unfold cut. by rewrite Cut_none. Qed.
Lemma LastIndexByte_None c s : c ∉ s → LastIndexByte c s = None.
Proof. intros H. unfold LastIndexByte. assert (IndexByte c (rev s) = None) as ->; [|done]. apply IndexByte_None. by rewrite list_elem_of_In, <-in_rev, <-list_elem_of_In. Qed.
Lemma LastIndexByte_at c s t : c ∉ t → LastIndexByte c (s ++ c :: t) = Some (length s).
Proof.
  intros H. unfold LastIndexByte. rewrite rev_app_distr. cbn. rewrite <-app_assoc. cbn.
  rewrite IndexByte_app by (apply IndexByte_None; by rewrite list_elem_of_In, <-in_rev, <-list_elem_of_In).
  cbn. f_equal. rewrite length_app, length_rev. cbn. lia.
Qed.
Lemma existsb_byte c s : existsb (Z.eqb c) s = true ↔ c ∈ s.
Proof. rewrite existsb_exists. split; [intros (x & Hx & ->%Z.eqb_eq); by apply list_elem_of_In|intros H; exists c; split; [by apply list_elem_of_In|apply Z.eqb_refl]]. Qed.

(** ** Escaping *)

(** A claim on small numbers is checked on each of them. *)
Lemma all_below (n : Z) (f : Z → bool) : forallb f (seqZ 0 n) = true → ∀ c, 0 <= c < n → f c = true.
Proof. rewrite forallb_forall. intros H c Hc. apply H. apply list_elem_of_In, elem_of_seqZ. lia. Qed.
Lemma all_bytes (f : Z → bool) : forallb f (seqZ 0 256) = true → ∀ c, is_u8 c → f c = true.
Proof. intros H c Hc. apply (all_below 256 f H). unfold is_u8, in_width in Hc. lia. Qed.
Lemma upperhex_range d : 0 <= d < 16 → fromHexChar (upperhex d) = Some d.
Proof.
  intros H. assert (∀ d, 0 <= d < 16 → (λ d, bool_decide (fromHexChar (upperhex d) = Some d)) d = true) as Ha by (apply all_below; by vm_compute).
  specialize (Ha d H). by apply bool_decide_eq_true in Ha.
Qed.
Definition isUpperHex (c : Z) : bool := isDigit c || ((65 <=? c) && (c <=? 70)).
Lemma upperhex_isUpperHex d : 0 <= d < 16 → isUpperHex (upperhex d) = true.
Proof. apply (all_below 16 (λ d, isUpperHex (upperhex d))). by vm_compute. Qed.
(** The bytes of an escaped text. *)
Definition emitted (mode : encoding) (c : Z) : bool :=
  negb (shouldEscape c mode) || (c =? 37) || isUpperHex c || (match mode with encodeQueryComponent => c =? 43 | _ => false end).
Lemma byte_nibbles c : is_u8 c → 0 <= c / 16 < 16 ∧ 0 <= c mod 16 < 16 ∧ c / 16 * 16 + c mod 16 = c.
Proof.
  unfold is_u8, in_width. intros H. change (2 ^ 8) with 256 in H. pose proof (Z.div_mod c 16 ltac:(lia)). pose proof (Z.mod_pos_bound c 16 ltac:(lia)).
  assert (0 <= c / 16 < 16) by (split; [apply Z.div_pos; lia|apply Z.div_lt_upper_bound; lia]). lia.
Qed.
Lemma escapeByte_emitted mode c : is_u8 c → Forall (λ x, emitted mode x = true) (escapeByte mode c).
Proof.
  intros Hc. destruct (byte_nibbles c Hc) as (H1 & H2 & _). unfold escapeByte.
  assert (Forall (λ x, emitted mode x = true) [37; upperhex (c / 16); upperhex (c mod 16)]) as Hh.
  { unfold emitted. repeat constructor; rewrite ?(upperhex_isUpperHex _ H1), ?(upperhex_isUpperHex _ H2); by rewrite ?orb_true_r. }
  destruct (shouldEscape c mode) eqn:E.
  - destruct mode; try exact Hh. destruct (c =? 32); [|exact Hh]. by repeat constructor.
  - constructor; [|constructor]. unfold emitted. by rewrite E.
Qed.
Lemma escape_emitted mode s : bytes_ok s → Forall (λ x, emitted mode x = true) (escape s mode).
Proof.
  intros H. unfold escape. induction H as [|c s Hc _ IH]; [constructor|]. cbn. apply Forall_app. split; [by apply escapeByte_emitted|exact IH].
Qed.
Lemma escape_avoids mode s c : bytes_ok s → emitted mode c = false → c ∉ escape s mode.
Proof. intros H E Hin. pose proof (escape_emitted mode s H) as Hf. rewrite Forall_forall in Hf. specialize (Hf c Hin). congruence. Qed.
Lemma escape_nonempty mode s : s ≠ [] → escape s mode ≠ [].
Proof.
  destruct s as [|c s]; [done|]. intros _. unfold escape. cbn. unfold escapeByte. destruct (shouldEscape c mode); [|done]. destruct mode; try done. by destruct (c =? 32).
Qed.

(** Unescaping user information and parameters gives back the bytes. *)
Lemma unescape_escape mode s :
  mode = encodeUserPassword ∨ mode = encodeQueryComponent → bytes_ok s → unescape mode (escape s mode) = Ok s.
Proof.
  intros Hmode. assert (isHostMode mode = false ∧ (∀ v, escapeAllowed mode v = true) ∧ (∀ t, unescape mode t = unescape mode t)) as (Hh & Ha & _)
    by (by destruct Hmode as [-> | ->]).
  induction 1 as [|c s Hc _ IH]; [done|]. change (escape (c :: s) mode) with (escapeByte mode c ++ escape s mode).
  assert (unescape mode ([37; upperhex (c / 16); upperhex (c mod 16)] ++ escape s mode) = Ok (c :: s)) as Hhex.
  { destruct (byte_nibbles c Hc) as (H1 & H2 & H3). cbn [app unescape]. rewrite Z.eqb_refl.
    by rewrite (upperhex_range _ H1), (upperhex_range _ H2), Ha, IH, bind_Ok, H3. }
  unfold escapeByte. destruct (shouldEscape c mode) eqn:E.
  - destruct mode; try exact Hhex. destruct (Z.eqb_spec c 32) as [->|]; [|exact Hhex]. cbn [app unescape Z.eqb Pos.eqb]. by rewrite IH.
  - cbn [app unescape]. destruct (Z.eqb_spec c 37) as [->|_]; [by destruct Hmode as [-> | ->]|]. rewrite Hh, IH. cbn [andb].
    destruct (Z.eqb_spec c 43) as [->|_]; [|done]. by destruct Hmode as [-> | ->].
Qed.
(** A host without special bytes is its own escaped form. *)
Definition host_bytes (s : list Z) : Prop := Forall (λ c, shouldEscape c encodeHost = false) s.
Lemma escape_host s : host_bytes s → escape s encodeHost = s.
Proof.
  induction 1 as [|c s Hc _ IH]; [done|]. change (escape (c :: s) encodeHost) with (escapeByte encodeHost c ++ escape s encodeHost).
  unfold escapeByte. by rewrite Hc, IH.
Qed.
Lemma unescape_plain mode s : 37 ∉ s → (isHostMode mode = true → host_bytes s) → mode ≠ encodeQueryComponent → unescape mode s = Ok s.
Proof.
  intros Hp Hh Hm. induction s as [|c s IH]; [done|]. apply not_elem_of_cons in Hp as [Hc Hp].
  assert (unescape mode s = Ok s) as IH' by (apply IH; [done|]; intros Hmode; specialize (Hh Hmode); by apply Forall_cons in Hh as [_ ?]).
  cbn [unescape]. rewrite (proj2 (Z.eqb_neq _ _)) by done. rewrite IH', !bind_Ok. destruct (Z.eqb_spec c 43) as [->|]; [by destruct mode|].
  destruct (isHostMode mode) eqn:E; [|done]. specialize (Hh eq_refl). apply Forall_cons in Hh as [Hc' _].
  assert (shouldEscape c mode = false) as -> by by destruct mode. by rewrite andb_false_r.
Qed.
Lemma host_bytes_percent s : host_bytes s → 37 ∉ s.
Proof. intros H Hin. unfold host_bytes in H. rewrite Forall_forall in H. by specialize (H 37 Hin). Qed.

(** ** Queries *)

Lemma splitOn_plain sep x : sep ∉ x → splitOn sep x = [x].
Proof.
  induction x as [|c x IH]; [done|]. intros [Hc Hx]%not_elem_of_cons. cbn. rewrite (proj2 (Z.eqb_neq _ _)) by done. by rewrite IH.
Qed.
Lemma splitOn_at sep x s : sep ∉ x → splitOn sep (x ++ sep :: s) = x :: splitOn sep s.
Proof.
  induction x as [|c x IH]; [intros _; cbn; by rewrite Z.eqb_refl|]. intros [Hc Hx]%not_elem_of_cons. cbn. rewrite (proj2 (Z.eqb_neq _ _)) by done. by rewrite IH.
Qed.
Lemma splitOn_join sep l : l ≠ [] → Forall (λ x, sep ∉ x) l → splitOn sep (joinWith sep l) = l.
Proof.
  intros Hl H. induction H as [|x l Hx Hf IH]; [done|]. destruct l as [|y l]; [by apply splitOn_plain|].
  change (joinWith sep (x :: y :: l)) with (x ++ sep :: joinWith sep (y :: l)). rewrite splitOn_at by done. by rewrite IH.
Qed.
Definition encodePair (p : list Z * list Z) : list Z := QueryEscape p.1 ++ 61 :: QueryEscape p.2.
Definition pair_ok (p : list Z * list Z) : Prop := bytes_ok p.1 ∧ bytes_ok p.2.
Lemma encodePair_avoids c p : pair_ok p → emitted encodeQueryComponent c = false → c ≠ 61 → c ∉ encodePair p.
Proof.
  intros [H1 H2] E N. unfold encodePair, QueryEscape. rewrite not_elem_of_app, not_elem_of_cons. split_and!; [by apply escape_avoids|done|by apply escape_avoids].
Qed.
Definition adding (v : Values) (p : list Z * list Z) : Values := Add p.1 p.2 v.
Lemma parseParts_encoded ps v : Forall pair_ok ps → parseParts (encodePair <$> ps) v = Ok (foldl adding v ps).
Proof.
  intros H. revert v. induction H as [|p ps Hp _ IH]; intros v; [done|]. cbn [fmap list_fmap parseParts].
  assert (59 ∉ encodePair p) as H59 by (apply encodePair_avoids; done).
  destruct (existsb (Z.eqb 59) (encodePair p)) eqn:E; [by apply existsb_byte in E|].
  destruct (Z.eqb_spec (len (encodePair p)) 0) as [E0|_].
  { apply len_zero in E0. unfold encodePair in E0. by apply app_eq_nil in E0 as [_ E0]. }
  destruct Hp as [H1 H2]. unfold encodePair at 1, QueryEscape at 1. rewrite cut_at by by apply escape_avoids.
  unfold QueryUnescape, QueryEscape. rewrite !unescape_escape by auto. rewrite !bind_Ok. apply IH.
Qed.
Lemma ParseQuery_pairs ps : Forall pair_ok ps → ParseQuery (joinWith 38 (encodePair <$> ps)) = Ok (foldl adding ∅ ps).
Proof.
  intros H. unfold ParseQuery. destruct ps as [|p ps]; [done|]. rewrite splitOn_join; [by apply parseParts_encoded|done|].
  rewrite Forall_fmap. eapply Forall_impl; [exact H|]. intros q Hq. by apply encodePair_avoids.
Qed.

(** The values of a key. *)
Definition valuesOf (k : list Z) (ps : list (list Z * list Z)) : list (list Z) := (filter (λ p, p.1 = k) ps).*2.
Lemma valuesOf_app k ps qs : valuesOf k (ps ++ qs) = valuesOf k ps ++ valuesOf k qs.
Proof. unfold valuesOf. by rewrite filter_app, fmap_app. Qed.
Lemma valuesOf_one k k' x : valuesOf k [(k', x)] = if decide (k' = k) then [x] else [].
Proof. unfold valuesOf. rewrite filter_cons, filter_nil. cbn [fst]. by destruct (decide (k' = k)). Qed.
Lemma foldl_adding ps v k :
  foldl adding v ps !! k = match valuesOf k ps with [] => v !! k | l => Some (default [] (v !! k) ++ l) end.
Proof.
  induction ps as [|[k' x] ps IH] using rev_ind; [done|]. rewrite foldl_app, valuesOf_app, valuesOf_one. cbn [foldl]. unfold adding at 1, Add. cbn [fst snd].
  destruct (decide (k' = k)) as [->|Hne].
  - rewrite lookup_insert_eq, IH. destruct (valuesOf k ps) as [|y l]; [done|]. cbn. by rewrite <-app_assoc.
  - rewrite lookup_insert_ne, IH by done. by rewrite app_nil_r.
Qed.
Lemma valuesOf_keys (v : Values) k ks :
  NoDup ks → valuesOf k (ks ≫= λ k, (λ x, (k, x)) <$> default [] (v !! k)) = if decide (k ∈ ks) then default [] (v !! k) else [].
Proof.
  induction ks as [|k' ks IH]; [intros _; by rewrite decide_False by apply not_elem_of_nil|]. intros [Hn Hks]%NoDup_cons. rewrite bind_cons, valuesOf_app, (IH Hks).
  assert (∀ l : list (list Z), valuesOf k ((λ x, (k', x)) <$> l) = if decide (k' = k) then l else []) as ->.
  { induction l as [|x l IHl]; [by destruct (decide (k' = k))|]. change ((λ x, (k', x)) <$> x :: l) with ([(k', x)] ++ ((λ x, (k', x)) <$> l)).
    rewrite valuesOf_app, valuesOf_one, IHl. by destruct (decide (k' = k)). }
  destruct (decide (k' = k)) as [->|Hne].
  - rewrite (decide_False (P := k ∈ ks)), decide_True, app_nil_r by (done || left). done.
  - cbn. apply decide_ext. rewrite elem_of_cons. naive_solver.
Qed.
Lemma sortedKeys_perm (v : Values) : sortedKeys v ≡ₚ (map_to_list v).*1.
Proof. apply merge_sort_Permutation. Qed.
Lemma elem_of_sortedKeys v k : k ∈ sortedKeys v ↔ is_Some (v !! k).
Proof.
  rewrite sortedKeys_perm, list_elem_of_fmap. split.
  - intros ([k' l] & -> & H%elem_of_map_to_list). by exists l.
  - intros [l H]. exists (k, l). split; [done|]. by apply elem_of_map_to_list.
Qed.
Lemma valuesOf_pairsOf v k : valuesOf k (pairsOf v) = default [] (v !! k).
Proof.
  unfold pairsOf. rewrite valuesOf_keys by (rewrite sortedKeys_perm; apply NoDup_fst_map_to_list).
  destruct (decide _) as [|Hn]; [done|]. rewrite elem_of_sortedKeys in Hn. apply eq_None_not_Some in Hn. by rewrite Hn.
Qed.
Definition values_ok (v : Values) : Prop := ∀ k l, v !! k = Some l → l ≠ [] ∧ bytes_ok k ∧ Forall bytes_ok l.
Lemma pairsOf_ok v : values_ok v → Forall pair_ok (pairsOf v).
Proof.
  intros Hv. unfold pairsOf. apply Forall_forall. intros p Hp. apply list_elem_of_bind in Hp as (k & Hp & _). apply list_elem_of_fmap in Hp as (x & -> & Hx).
  destruct (v !! k) as [l|] eqn:E; [|by apply not_elem_of_nil in Hx]. destruct (Hv k l E) as (_ & H1 & H2). rewrite Forall_forall in H2. by split; [|apply H2].
Qed.
(** Parameters are read back from their encoding, whatever bytes they have. *)
Lemma query_roundtrip v : values_ok v → ParseQuery (Encode v) = Ok v.
Proof.
  intros Hv. assert (Encode v = joinWith 38 (encodePair <$> pairsOf v)) as ->.
  { unfold Encode. f_equal. apply list_fmap_ext. by intros i [k x]. }
  rewrite ParseQuery_pairs by by apply pairsOf_ok. f_equal. apply map_eq. intros k.
  rewrite foldl_adding, valuesOf_pairsOf, lookup_empty. destruct (v !! k) as [l|] eqn:E; [|done]. cbn. destruct (Hv k l E) as [Hl _]. by destruct l.
Qed.
Lemma Encode_avoids v c : values_ok v → emitted encodeQueryComponent c = false → c ≠ 61 → c ≠ 38 → c ∉ Encode v.
Proof.
  intros Hv E N1 N2. assert (Encode v = joinWith 38 (encodePair <$> pairsOf v)) as ->.
  { unfold Encode. f_equal. apply list_fmap_ext. by intros i [k x]. }
  pose proof (pairsOf_ok v Hv) as H. induction H as [|p ps Hp _ IH]; [apply not_elem_of_nil|]. cbn [fmap list_fmap].
  pose proof (encodePair_avoids c p Hp E N1) as Hc. destruct ps as [|q ps]; [done|].
  change (joinWith 38 (encodePair p :: (encodePair <$> q :: ps))) with (encodePair p ++ 38 :: joinWith 38 (encodePair <$> q :: ps)).
  rewrite not_elem_of_app, not_elem_of_cons. by split_and!.
Qed.
Lemma Encode_nonempty v k l : values_ok v → v !! k = Some l → Encode v ≠ [].
Proof.
  intros Hv E. assert (Encode v = joinWith 38 (encodePair <$> pairsOf v)) as ->.
  { unfold Encode. f_equal. apply list_fmap_ext. by intros i [k' x]. }
  destruct (pairsOf v) as [|p ps] eqn:Ep.
  - pose proof (valuesOf_pairsOf v k) as H. rewrite Ep, E in H. destruct (Hv k l E) as [Hl _]. cbn in H. by rewrite <-H in Hl.
  - cbn. assert (encodePair p ≠ []) as Hp by (unfold encodePair; intros H; by apply app_eq_nil in H as [_ H]).
    destruct (encodePair <$> ps); [done|]. by intros [? _]%app_eq_nil.
Qed.

(** ** Base64 *)

Lemma base64_char d : 0 <= d < 64 → base64Digit (base64Char d) = Some d ∧ base64Char d ≠ 61 ∧ base64Char d ≠ 10 ∧ base64Char d ≠ 13.
Proof.
  intros H.
  assert (∀ d, 0 <= d < 64 → (λ d, bool_decide (base64Digit (base64Char d) = Some d ∧ base64Char d ≠ 61 ∧ base64Char d ≠ 10 ∧ base64Char d ≠ 13)) d = true) as Ha
    by (apply all_below; by vm_compute).
  specialize (Ha d H). by apply bool_decide_eq_true in Ha.
Qed.
Lemma base64_groups_encode s : bytes_ok s → base64Groups (base64Encode s) = Ok s.
Proof.
  remember (length s) as n eqn:En. assert (length s <= n)%nat as Hle by lia. clear En. revert s Hle.
  induction n as [|n IH]; intros s Hle Hs; [destruct s; [done|cbn in Hle; lia]|].
  assert (∀ a, is_u8 a → 0 <= a < 256) as Hu by (unfold is_u8, in_width; change (2 ^ 8) with 256; lia).
  destruct s as [|a [|b [|c s]]]; [done|..].
  - apply Forall_cons in Hs as [Ha%Hu _]. cbn [base64Encode base64Groups].
    destruct (base64_char (a / 4)) as [-> _]; [Z.div_mod_to_equations; lia|]. destruct (base64_char (a mod 4 * 16)) as [-> _]; [Z.div_mod_to_equations; lia|].
    cbn [Z.eqb Pos.eqb andb]. do 2 f_equal. Z.div_mod_to_equations; lia.
  - apply Forall_cons in Hs as [Ha%Hu Hs]. apply Forall_cons in Hs as [Hb%Hu _]. cbn [base64Encode base64Groups].
    destruct (base64_char (a / 4)) as [-> _]; [Z.div_mod_to_equations; lia|].
    destruct (base64_char (a mod 4 * 16 + b / 16)) as [-> _]; [Z.div_mod_to_equations; lia|].
    destruct (base64_char (b mod 16 * 4)) as (-> & N & _); [Z.div_mod_to_equations; lia|]. rewrite (proj2 (Z.eqb_neq _ _) N).
    cbn [Z.eqb Pos.eqb]. do 2 f_equal; [|f_equal]; Z.div_mod_to_equations; lia.
  - apply Forall_cons in Hs as [Ha%Hu Hs]. apply Forall_cons in Hs as [Hb%Hu Hs]. apply Forall_cons in Hs as [Hc%Hu Hs]. cbn [base64Encode base64Groups].
    destruct (base64_char (a / 4)) as [-> _]; [Z.div_mod_to_equations; lia|].
    destruct (base64_char (a mod 4 * 16 + b / 16)) as [-> _]; [Z.div_mod_to_equations; lia|].
    destruct (base64_char (b mod 16 * 4 + c / 64)) as (-> & N & _); [Z.div_mod_to_equations; lia|]. rewrite (proj2 (Z.eqb_neq _ _) N).
    destruct (base64_char (c mod 64)) as (-> & N' & _); [Z.div_mod_to_equations; lia|]. rewrite (proj2 (Z.eqb_neq _ _) N').
    rewrite (IH s) by (done || (cbn in Hle; lia)). rewrite bind_Ok. f_equal. f_equal; [|f_equal; [|f_equal]]; Z.div_mod_to_equations; lia.
Qed.
(** The characters of an encoding. *)
Definition base64Text (c : Z) : bool := existsb (Z.eqb c) base64Alphabet || (c =? 61).
Lemma base64Char_text d : 0 <= d < 64 → base64Text (base64Char d) = true.
Proof. apply (all_below 64 (λ d, base64Text (base64Char d))). by vm_compute. Qed.
Lemma base64Encode_text s : bytes_ok s → Forall (λ c, base64Text c = true) (base64Encode s).
Proof.
  remember (length s) as n eqn:En. assert (length s <= n)%nat as Hle by lia. clear En. revert s Hle.
  induction n as [|n IH]; intros s Hle Hs; [destruct s; [constructor|cbn in Hle; lia]|].
  assert (∀ a, is_u8 a → 0 <= a < 256) as Hu by (unfold is_u8, in_width; change (2 ^ 8) with 256; lia).
  destruct s as [|a [|b [|c s]]]; [constructor|..]; cbn [base64Encode].
  all: unfold bytes_ok in Hs; repeat match goal with H : Forall is_u8 (_ :: _) |- _ => apply Forall_cons in H as [?%Hu H] end.
  all: repeat (apply Forall_cons; split; [first [done|apply base64Char_text; Z.div_mod_to_equations; lia]|]).
  all: try solve [apply Forall_nil_2].
  apply IH; [cbn in Hle; lia|done].
Qed.
Lemma base64Text_plain c : base64Text c = true → c ≠ 10 ∧ c ≠ 13.
Proof. intros H. split; intros ->; by vm_compute in H. Qed.
Lemma base64_roundtrip s : bytes_ok s → base64Decode (base64Encode s) = Ok s.
Proof.
  intros Hs. unfold base64Decode. rewrite filter_all; [by apply base64_groups_encode|]. intros c Hc.
  pose proof (base64Encode_text s Hs) as H. rewrite Forall_forall in H. by apply base64Text_plain, H.
Qed.

(** ** Parsing what was put together *)

Lemma upperhex_u8 d : 0 <= d < 16 → is_u8 (upperhex d).
Proof. unfold is_u8, in_width, upperhex. intros H. destruct (d <? 10); lia. Qed.
Lemma escape_bytes mode s : bytes_ok s → bytes_ok (escape s mode).
Proof.
  intros H. unfold escape. induction H as [|c s Hc _ IH]; [constructor|]. cbn. apply Forall_app. split; [|exact IH].
  destruct (byte_nibbles c Hc) as (H1 & H2 & _). assert (bytes_ok [37; upperhex (c / 16); upperhex (c mod 16)]) as Hh.
  { apply Forall_cons_2; [by split|]. apply Forall_cons_2; [by apply upperhex_u8|]. by apply Forall_singleton, upperhex_u8. }
  unfold escapeByte. destruct (shouldEscape c mode); [|by apply Forall_singleton]. destruct mode; try exact Hh.
  destruct (c =? 32); [by apply Forall_singleton|exact Hh].
Qed.
(** A claim on the bytes of escaped texts is checked on each byte. *)
Lemma escape_all mode (P : Z → bool) s :
  bytes_ok s → forallb (λ c, negb (emitted mode c) || P c) (seqZ 0 256) = true → Forall (λ c, P c = true) (escape s mode).
Proof.
  intros Hs HP. pose proof (escape_emitted mode s Hs) as He. pose proof (escape_bytes mode s Hs) as Hb.
  apply Forall_forall. intros c Hc. unfold bytes_ok in Hb. rewrite Forall_forall in He, Hb. pose proof (all_bytes _ HP c (Hb c Hc)) as H.
  cbn beta in H. by rewrite (He c Hc) in H.
Qed.
Lemma avoid_of (P : Z → bool) c s : Forall (λ x, P x = true) s → P c = false → c ∉ s.
Proof. intros H E Hin. rewrite Forall_forall in H. specialize (H c Hin). congruence. Qed.
Lemma none_of (P Q : Z → bool) s : Forall (λ x, P x = true) s → (∀ x, P x = true → Q x = false) → existsb Q s = false.
Proof.
  intros H HPQ. apply not_true_iff_false. rewrite existsb_exists. intros (x & Hx & E). rewrite Forall_forall in H.
  rewrite (HPQ x) in E; [done|]. apply H. by apply list_elem_of_In.
Qed.

(** Bytes that do not end a part of a URL. *)
Definition inAuthority (c : Z) : bool := negb (isCTL c) && negb (oneOf c "#?/").
Definition inQuery (c : Z) : bool := negb (isCTL c) && negb (oneOf c "#?").
Definition inUserinfo (c : Z) : bool := inAuthority c && validUserinfoByte c && negb (oneOf c "@:").
Lemma inAuthority_inQuery c : inAuthority c = true → inQuery c = true.
Proof. unfold inAuthority, inQuery. rewrite !andb_true_iff, !negb_true_iff. cbn. rewrite !orb_false_iff. tauto. Qed.
Lemma inUserinfo_parts c : inUserinfo c = true → inAuthority c = true ∧ validUserinfoByte c = true.
Proof. unfold inUserinfo. rewrite !andb_true_iff. tauto. Qed.

Lemma HasPrefix_app p s : HasPrefix (bytes_of_string p ++ s) p = true.
Proof. unfold HasPrefix. by rewrite take_app_length, bool_decide_eq_true_2. Qed.
Lemma schemeEnd_at sch i t : Forall (λ c, isAlpha c = true) sch → (i + length sch ≠ 0)%nat → schemeEnd i (sch ++ 58 :: t) = Ok (Some (i + length sch)%nat).
Proof.
  intros H. revert i. induction H as [|c sch Hc _ IH]; intros i Hi.
  - cbn. destruct (Nat.eqb_spec i 0) as [->|]; [done|]. by rewrite Nat.add_0_r.
  - cbn. rewrite Hc, IH by lia. do 2 f_equal. lia.
Qed.
Lemma getScheme_at sch t : sch ≠ [] → Forall (λ c, isAlpha c = true) sch → getScheme (sch ++ 58 :: t) = Ok (sch, t).
Proof.
  intros Hn H. unfold getScheme. rewrite schemeEnd_at by (done || (destruct sch; cbn; [done|lia])). rewrite bind_Ok. cbn [Nat.add].
  rewrite take_app_length, drop_app_ge by lia. by replace (S (length sch) - length sch)%nat with 1%nat by lia.
Qed.
Lemma HasSuffix_last s x c : HasSuffix (s ++ [x]) [c] = (x =? c).
Proof.
  unfold HasSuffix. rewrite len_app. rewrite (proj2 (Z.leb_le _ _)) by (unfold len; cbn [length]; lia).
  rewrite length_app. cbn [length andb]. replace (length s + 1 - 1)%nat with (length s) by lia. rewrite drop_app_length.
  destruct (Z.eqb_spec x c) as [->|N]; [by apply bool_decide_eq_true|apply bool_decide_eq_false; congruence].
Qed.
(** Cutting a query off that is there. *)
Lemma cut_query rest q :
  63 ∉ rest → q ≠ [] → 63 ∉ q →
  (if HasSuffix (rest ++ 63 :: q) [63] && (len (filter (λ c, c = 63) (rest ++ 63 :: q)) =? 1) then (take (length (rest ++ 63 :: q) - 1) (rest ++ 63 :: q), [])
   else cut 63 (rest ++ 63 :: q)) = (rest, q).
Proof.
  intros Hr Hq Hq'. destruct (exists_last Hq) as (q' & x & ->). replace (rest ++ 63 :: q' ++ [x]) with ((rest ++ 63 :: q') ++ [x]) at 1 by by rewrite <-app_assoc.
  rewrite HasSuffix_last. apply not_elem_of_app in Hq' as [Hq1 Hx]. rewrite (proj2 (Z.eqb_neq x 63)) by (intros ->; apply Hx; left). cbn [andb].
  apply cut_at. done.
Qed.

(** What the parser makes of an authority. *)
Definition host_ok (h : list Z) : Prop := host_bytes h ∧ bytes_ok h ∧ parseHost h = Ok h.
Lemma host_inAuthority h : host_bytes h → bytes_ok h → Forall (λ c, inAuthority c = true ∧ c ≠ 64) h.
Proof.
  intros H Hb. unfold host_bytes, bytes_ok in *. rewrite Forall_forall in *. intros c Hc.
  assert (∀ c, is_u8 c → (λ c, shouldEscape c encodeHost || (inAuthority c && negb (c =? 64))) c = true) as Ha by (apply all_bytes; by vm_compute).
  specialize (Ha c (Hb c Hc)). cbn beta in Ha. rewrite (H c Hc) in Ha. cbn [orb] in Ha. apply andb_true_iff in Ha as [H1 H2]. split; [done|]. by apply negb_true_iff, Z.eqb_neq in H2.
Qed.
Lemma userinfo_all name : bytes_ok name → Forall (λ c, inUserinfo c = true) (escape name encodeUserPassword).
Proof. intros H. apply escape_all; [done|]. by vm_compute. Qed.
Lemma parseAuthority_at name pw h :
  bytes_ok name → bytes_ok pw → host_ok h →
  parseAuthority (Userinfo_String (mkUserinfo name (Some pw)) ++ 64 :: h) = Ok (Some (mkUserinfo name (Some pw)), h).
Proof.
  intros Hn Hp (Hh & Hb & Eh). unfold parseAuthority. assert (64 ∉ h) as Hat.
  { intros Hin. pose proof (host_inAuthority h Hh Hb) as H. rewrite Forall_forall in H. by destruct (H 64 Hin). }
  rewrite LastIndexByte_at by done. rewrite drop_app_ge by lia. set (ui := Userinfo_String _).
  replace (S (length ui) - length ui)%nat with 1%nat by lia. cbn [drop]. rewrite drop_0, Eh, bind_Ok, take_app_length.
  pose proof (userinfo_all name Hn) as H1. pose proof (userinfo_all pw Hp) as H2. subst ui. unfold Userinfo_String. cbn [Username Password].
  assert (forallb validUserinfoByte (escape name encodeUserPassword ++ 58 :: escape pw encodeUserPassword) = true) as ->.
  { rewrite forallb_app. cbn [forallb]. rewrite !andb_true_iff. split_and!; [|done|]; apply forallb_forall; intros c Hc%list_elem_of_In.
    - rewrite Forall_forall in H1. by apply inUserinfo_parts, H1.
    - rewrite Forall_forall in H2. by apply inUserinfo_parts, H2. }
  cbn [negb]. rewrite Cut_at by (eapply avoid_of; [exact H1|done]). rewrite !unescape_escape by auto. reflexivity.
Qed.

(** The parser finds the parts of a URL that was put together from them. *)
Lemma Parse_String sch name pw h q :
  sch ≠ [] → Forall (λ c, isAlpha c = true ∧ inQuery c = true) sch → ToLower sch = sch → bytes_ok name → bytes_ok pw → host_ok h →
  q ≠ [] → Forall (λ c, inQuery c = true) q →
  let u := mkURL sch [] (Some (mkUserinfo name (Some pw))) h [] q in Parse (URL_String u) = Ok u.
Proof.
  intros Hs1 Hs2 Hs3 Hn Hp Hh Hq1 Hq2 u. pose proof Hh as (Hh1 & Hh2 & _).
  set (auth := Userinfo_String (mkUserinfo name (Some pw)) ++ 64 :: h).
  assert (URL_String u = sch ++ 58 :: ([47; 47] ++ auth) ++ 63 :: q) as ->.
  { unfold URL_String, u, auth. cbn [Scheme User_ Host RawQuery]. rewrite orb_true_r, escape_host by done.
    destruct (Z.eqb_spec (len q) 0) as [E|_]; [by apply len_zero in E|]. cbn [negb app]. by rewrite <-!app_assoc. }
  assert (Forall (λ c, inAuthority c = true) auth) as Ha.
  { unfold auth, Userinfo_String. cbn [Username Password]. rewrite !Forall_app, !Forall_cons. repeat split.
    - eapply Forall_impl; [apply (userinfo_all name Hn)|]. intros c Hc. by apply inUserinfo_parts.
    - eapply Forall_impl; [apply (userinfo_all pw Hp)|]. intros c Hc. by apply inUserinfo_parts.
    - eapply Forall_impl; [by apply host_inAuthority|]. by intros c []. }
  assert (35 ∉ sch ++ 58 :: ([47; 47] ++ auth) ++ 63 :: q) as H35.
  { rewrite not_elem_of_app, not_elem_of_cons, not_elem_of_app, not_elem_of_cons. split_and!; try done.
    - intros Hin. rewrite Forall_forall in Hs2. by destruct (Hs2 35 Hin).
    - rewrite !not_elem_of_app. split; [by repeat (apply not_elem_of_cons; split; [done|]); apply not_elem_of_nil|]. by eapply (avoid_of inAuthority).
    - by eapply (avoid_of inQuery). }
  unfold Parse. rewrite cut_none by done. unfold parse.
  assert (existsb isCTL (sch ++ 58 :: ([47; 47] ++ auth) ++ 63 :: q) = false) as ->.
  { rewrite existsb_app. cbn [existsb app]. rewrite existsb_app. cbn [existsb].
    rewrite (none_of (λ c, isAlpha c && inQuery c) isCTL sch), (none_of inAuthority isCTL auth Ha), (none_of inQuery isCTL q Hq2); try done.
    - intros c. unfold inQuery. rewrite andb_true_iff, negb_true_iff. tauto.
    - intros c. unfold inAuthority. rewrite andb_true_iff, negb_true_iff. tauto.
    - eapply Forall_impl; [exact Hs2|]. intros c [-> ->]. done.
    - intros c. unfold inQuery. rewrite !andb_true_iff, negb_true_iff. tauto. }
  rewrite bool_decide_eq_false_2 by (destruct sch as [|c [|c' s]]; cbn; [done|by intros [= _ ?]|by intros [= _ ?]]).
  rewrite getScheme_at by (done || (eapply Forall_impl; [exact Hs2|]; by intros c [])). rewrite bind_Ok. cbv zeta. rewrite Hs3.
  assert (63 ∉ [47; 47] ++ auth) as H63.
  { rewrite not_elem_of_app. split; [by repeat (apply not_elem_of_cons; split; [done|]); apply not_elem_of_nil|]. by eapply (avoid_of inAuthority). }
  rewrite cut_query by (done || by eapply (avoid_of inQuery)).
  assert ((len sch =? 0) = false) as -> by (apply Z.eqb_neq; by rewrite len_zero).
  change (HasPrefix ([47; 47] ++ auth) "/") with true. change (HasPrefix ([47; 47] ++ auth) "//") with true. cbn [negb andb orb].
  change (drop 2 ([47; 47] ++ auth)) with (drop 0 auth). rewrite drop_0.
  assert (IndexByte 47 auth = None) as -> by (apply IndexByte_None; by eapply (avoid_of inAuthority)).
  unfold auth. rewrite parseAuthority_at by done. reflexivity.
Qed.

(** Hosts: a name, or an IPv6 address in brackets. *)
Lemma plain_host_ok h : bytes_ok h → host_bytes h → 58 ∉ h → 91 ∉ h → host_ok h.
Proof.
  intros Hb Hh H58 H91. split_and!; [done..|]. unfold parseHost.
  assert (HasPrefix h "[" = false) as ->.
  { unfold HasPrefix. apply bool_decide_eq_false. destruct h as [|c h]; [done|]. cbn. intros [= ->]. apply H91. left. }
  rewrite LastIndexByte_None by done. apply unescape_plain; [by apply host_bytes_percent|done|done].
Qed.
Lemma zoneIndex_None s : 37 ∉ s → zoneIndex s = None.
Proof.
  induction s as [|c s IH]; [done|]. intros [Hc Hs]%not_elem_of_cons. cbn [zoneIndex].
  assert (HasPrefix (c :: s) "%25" = false) as ->; [|by rewrite IH]. unfold HasPrefix. apply bool_decide_eq_false. cbn. intros H. injection H. intros. subst c. by apply Hc.
Qed.
Lemma bracket_host_ok s : bytes_ok s → host_bytes s → host_ok (91 :: s ++ [93]).
Proof.
  intros Hb Hh. assert (host_bytes (91 :: s ++ [93])) as Hh' by (apply Forall_cons; split; [done|]; apply Forall_app; split; [done|by repeat constructor]).
  split_and!; [done|apply Forall_cons; split; [done|]; apply Forall_app; split; [done|by repeat constructor]|]. unfold parseHost.
  change (HasPrefix (91 :: s ++ [93]) "[") with true. cbv iota.
  change (91 :: s ++ [93]) with ((91 :: s) ++ 93 :: []). rewrite LastIndexByte_at by apply not_elem_of_nil.
  rewrite drop_app_ge by lia. replace (S (length (91%Z :: s)) - length (91%Z :: s))%nat with 1%nat by lia. cbn [drop validOptionalPort negb].
  rewrite take_app_length. assert (37 ∉ 91 :: s) as Hp by (apply not_elem_of_cons; split; [done|by apply host_bytes_percent]).
  rewrite zoneIndex_None by done. apply unescape_plain; [|done|done]. by apply host_bytes_percent.
Qed.
Lemma Hostname_plain u : 58 ∉ Host u → 91 ∉ Host u → Hostname u = Host u.
Proof.
  intros H58 H91. unfold Hostname. rewrite LastIndexByte_None by done.
  assert (HasPrefix (Host u) "[" = false) as ->; [|done]. unfold HasPrefix. apply bool_decide_eq_false. destruct (Host u) as [|c h]; [done|].
  cbn. intros [= ->]. apply H91. left.
Qed.
Lemma Hostname_bracket u s : Host u = 91 :: s ++ [93] → Hostname u = s.
Proof.
  intros E. unfold Hostname. rewrite E.
  assert (∀ t : list Z, HasPrefix (91 :: t) "[" = true) as Hp by done.
  assert (match LastIndexByte 58 (91 :: s ++ [93]) with
          | Some i => if validOptionalPort (drop i (91 :: s ++ [93])) then take i (91 :: s ++ [93]) else 91 :: s ++ [93]
          | None => 91 :: s ++ [93] end = 91 :: s ++ [93]) as ->.
  { destruct (LastIndexByte 58 (91 :: s ++ [93])) as [i|] eqn:Ei; [|done].
    assert (validOptionalPort (drop i (91 :: s ++ [93])) = false) as ->; [|done].
    assert (i <= length s)%nat as Hi.
    { unfold LastIndexByte in Ei. change (91 :: s ++ [93]) with ((91 :: s) ++ [93]) in Ei. rewrite rev_app_distr in Ei. cbn [rev app IndexByte] in Ei.
      destruct (IndexByte 58 _) as [j|]; [|done]. cbn in Ei. injection Ei as <-. rewrite length_app. cbn. lia. }
    change (91 :: s ++ [93]) with ((91 :: s) ++ [93]). rewrite drop_app_le by (cbn; lia). unfold validOptionalPort.
    destruct (drop i (91 :: s)) as [|c t] eqn:Ed; cbn [app].
    - assert (length (drop i (91 :: s)) = 0%nat) as Hl by by rewrite Ed. rewrite length_drop in Hl. cbn in Hl. lia.
    - rewrite forallb_app. cbn. by rewrite !andb_false_r. }
  rewrite Hp. change (91 :: s ++ [93]) with ((91 :: s) ++ [93]). rewrite HasSuffix_last. cbn [Z.eqb Pos.eqb andb].
  unfold slice. cbn [app]. rewrite len_cons, len_app. cbn [len length Z.of_nat].
  replace (Z.to_nat 1) with 1%nat by lia. cbn [drop]. unfold len. cbn.
  match goal with |- take ?n _ = _ => replace n with (length s) by lia end. by rewrite drop_0, take_app_length.
Qed.
