(* ===== verification/ShareURL.v ===== *)
(** * pkg/appctl/url.go: links that share a client's configuration

    A configuration is shared as [mieru://] and the base64 text of its encoding;
    a profile as one [mierus://] link for each of its servers, with the user in
    the user information, the server in the host, and the rest in the query.  The
    codec of the messages is an argument.

    Theorems: a shared configuration is imported as it was ([config_link]); the
    link of a server of an accepted profile that a link can express
    ([shareable]) is imported as a profile with the same user, credential and
    settings, its dialer apart, that dials the same endpoints
    ([profile_link]); a binding with both a port and a port range is exported
    with the range, though the client dials the port ([link_of_both]). *)
From S2P Require Import Prelude MathExt Messages GoStd GoFloat GoNet GoIP Ascii Cipher Rng SourceCache ServerUser Underlay Segment Session SessionMap.
From S2P Require Import Scheduler UnderlayClass Mux TrafficConfig Effects Socks Egress SocksServer UDPRelay AppCommon ServerConfig ClientConfig NetURL.

(** ** Names of enum values (generated) *)

Definition TransportProtocol_name : list (list Z) := bytes_of_string <$> ["UNKNOWN_TRANSPORT_PROTOCOL"; "UDP"; "TCP"]%string.
Definition MultiplexingLevel_name : list (list Z) :=
  bytes_of_string <$> ["MULTIPLEXING_DEFAULT"; "MULTIPLEXING_OFF"; "MULTIPLEXING_LOW"; "MULTIPLEXING_MIDDLE"; "MULTIPLEXING_HIGH"]%string.
Definition HandshakeMode_name : list (list Z) := bytes_of_string <$> ["HANDSHAKE_DEFAULT"; "HANDSHAKE_STANDARD"; "HANDSHAKE_NO_WAIT"]%string.
(** [String] gives the number of a value without a name; a map gives 0 for a
    name that it does not have. *)
Definition enumString (names : list (list Z)) (n : Z) : list Z :=
  if n <? 0 then Itoa n else default (Itoa n) (names !! Z.to_nat n).
Definition enumValue (names : list (list Z)) (s : list Z) : Z := from_option (λ x, Z.of_nat x.1) 0 (list_find (λ x, s = x) names).
(** [int32(x)] *)
Definition int32 (x : Z) : Z := (x + 2 ^ 31) mod 2 ^ 32 - 2 ^ 31.

Local Abbreviation str := bytes_of_string.

(** ** Whole configurations *)

Section config.
Context (Marshal : ClientConfig → option (list Z)) (Unmarshal : list Z → option ClientConfig).

Definition ClientConfigToURL (config : option ClientConfig) : result (list Z) :=
  match config with
  | None => Err (Errorf "null pointer")
  | Some config =>
    match Marshal config with
    | None => Err (Errorf "proto.Marshal() failed")
    | Some b => Ok (str "mieru://" ++ base64Encode b)
    end
  end.
Definition URLToClientConfig (s : list Z) : result ClientConfig :=
  u ← wrapped "url.Parse() failed" (Parse s);
  if negb (bool_decide (Scheme u = str "mieru")) then Err (Errorf "unrecognized URL scheme") else
  if negb (len (Opaque u) =? 0) then Err (Errorf "URL is opaque") else
  b ← wrapped "base64.StdEncoding.DecodeString() failed" (base64Decode (drop 8 s));
  match Unmarshal b with
  | None => Err (Errorf "proto.Unmarshal() failed")
  | Some c => Ok c
  end.
End config.

(** ** Profiles *)

Section profile.
Context (MarshalPattern : TrafficPattern → option (list Z)) (UnmarshalPattern : list Z → option TrafficPattern).

(** The parameters of a server's link, in the order in which they are added. *)
Definition bindingParameters (binding : PortBinding) : list (list Z * list Z) :=
  [(str "port", if negb (len (GetPortRange binding) =? 0) then GetPortRange binding else Itoa (GetBindingPort binding));
   (str "protocol", enumString TransportProtocol_name (GetBindingProtocol binding))].
Definition profileParameters (profile : ClientProfile) (pattern : option (list Z)) (server : ServerEndpoint) : list (list Z * list Z) :=
  [(str "profile", GetProfileName profile)] ++
  (match cp_Mtu profile with Some mtu => [(str "mtu", Itoa mtu)] | None => [] end) ++
  (match Multiplexing profile ≫= Level with Some level => [(str "multiplexing", enumString MultiplexingLevel_name level)] | None => [] end) ++
  (match HandshakeMode profile with Some mode => [(str "handshake-mode", enumString HandshakeMode_name mode)] | None => [] end) ++
  (match pattern with Some b => [(str "traffic-pattern", base64Encode b)] | None => [] end) ++
  (se_PortBindings server ≫= bindingParameters).
Definition serverURL (profile : ClientProfile) (server : ServerEndpoint) : result (list Z) :=
  host ← (if negb (len (GetDomainName server) =? 0) then Ok (GetDomainName server) else
          if negb (len (GetIpAddress server) =? 0) then Ok (MaybeDecorateIPv6 (GetIpAddress server)) else
          Err (Errorf "profile has a server with no domain name or IP address"));
  if len (se_PortBindings server) =? 0 then Err (Errorf "profile has a server with no port bindings") else
  pattern ← (match cp_TrafficPattern profile with
             | None => Ok None
             | Some tp =>
               match MarshalPattern tp with
               | None => Err (Errorf "proto.Marshal() failed to marshal traffic pattern")
               | Some b => Ok (Some b)
               end
             end);
  let q := foldl adding ∅ (profileParameters profile pattern server) in
  let user := mkUserinfo (GetName (cp_User profile)) (Some (GetPassword (cp_User profile))) in
  Ok (URL_String (mkURL (str "mierus") [] (Some user) host [] (Encode q))).
Definition ClientProfileToMultiURLs (profile : option ClientProfile) : result (list (list Z)) :=
  match profile with
  | None => Err (Errorf "null pointer")
  | Some profile =>
    if len (GetProfileName profile) =? 0 then Err (Errorf "profile name is empty") else
    if len (GetName (cp_User profile)) =? 0 then Err (Errorf "user name in profile is empty") else
    if len (GetPassword (cp_User profile)) =? 0 then Err (Errorf "password in profile is empty") else
    if len (Servers profile) =? 0 then Err (Errorf "profile has no server") else
    collect (λ server, u ← serverURL profile server; Ok [u]) (Servers profile)
  end.

(** One port of a link with its protocol. *)
Definition importBinding (port protocol : list Z) : result PortBinding :=
  let protocol := Some (enumValue TransportProtocol_name protocol) in
  match Atoi port with
  | Ok portNum =>
    if (portNum <? 1) || (portNum >? 65535) then Err (Errorf "URL has invalid port number") else
    Ok (mkPortBinding (Some (int32 portNum)) protocol None)
  | _ =>
    match splitOn 45 port with
    | [part0; part1] =>
      match Atoi part0 with
      | Ok beginPort =>
        match Atoi part1 with
        | Ok endPort =>
          if (beginPort <? 1) || (beginPort >? 65535) then Err (Errorf "URL has invalid begin port number") else
          if (endPort <? 1) || (endPort >? 65535) then Err (Errorf "URL has invalid end port number") else
          if beginPort >? endPort then Err (Errorf "URL's begin port number is greater than end port number") else
          Ok (mkPortBinding None protocol (Some (Itoa beginPort ++ [45] ++ Itoa endPort)))
        | _ => Err (Errorf "URL has invalid end of port range")
        end
      | _ => Err (Errorf "URL has invalid begin of port range")
      end
    | _ => Err (Errorf "URL has invalid port or port range")
    end
  end.
Fixpoint importBindings (portList protocolList : list (list Z)) : result (list PortBinding) :=
  match portList, protocolList with
  | port :: portList, protocol :: protocolList =>
    b ← importBinding port protocol;
    bs ← importBindings portList protocolList;
    Ok (b :: bs)
  | _, _ => Ok []
  end.
Definition importPattern (text : list Z) : result (option TrafficPattern) :=
  if len text =? 0 then Ok None else
  b ← wrapped "base64.StdEncoding.DecodeString() failed to decode traffic pattern" (base64Decode text);
  match UnmarshalPattern b with
  | None => Err (Errorf "proto.Unmarshal() failed to unmarshal traffic pattern")
  | Some tp => Ok (Some tp)
  end.
Definition importMtu (text : list Z) : result (option Z) :=
  if len text =? 0 then Ok None else
  match Atoi text with Ok mtu => Ok (Some (int32 mtu)) | _ => Err (Errorf "URL has invalid MTU") end.
Definition importEnum (names : list (list Z)) (text : list Z) : option Z := if len text =? 0 then None else Some (enumValue names text).

Definition URLToClientProfile (s : list Z) : result ClientProfile :=
  u ← wrapped "url.Parse() failed" (Parse s);
  if negb (bool_decide (Scheme u = str "mierus")) then Err (Errorf "unrecognized URL scheme") else
  if negb (len (Opaque u) =? 0) then Err (Errorf "URL is opaque") else
  match User_ u with
  | None => Err (Errorf "URL has no user info")
  | Some user =>
    if len (Username user) =? 0 then Err (Errorf "URL has no user name") else
    let pw := default [] (Password user) in
    if len pw =? 0 then Err (Errorf "URL has no password") else
    if len (Hostname u) =? 0 then Err (Errorf "URL has no host") else
    let '(ipAddress, domainName) :=
      match ParseIP (Hostname u) with Some _ => (Some (Hostname u), None) | None => (None, Some (Hostname u)) end in
    q ← wrapped "url.ParseQuery() failed" (ParseQuery (RawQuery u));
    if len (Get q (str "profile")) =? 0 then Err (Errorf "URL has no profile name") else
    mtu ← importMtu (Get q (str "mtu"));
    let level := importEnum MultiplexingLevel_name (Get q (str "multiplexing")) in
    let mode := importEnum HandshakeMode_name (Get q (str "handshake-mode")) in
    pattern ← importPattern (Get q (str "traffic-pattern"));
    let portList := default [] (q !! str "port") in
    let protocolList := default [] (q !! str "protocol") in
    if negb (len portList =? len protocolList) then Err (Errorf "URL has mismatched number of port and number of protocol") else
    bindings ← importBindings portList protocolList;
    Ok (mkClientProfile (Some (Get q (str "profile"))) (Some (mkUserMsg (Some (Username user)) (Some pw) None [] None None))
          [mkServerEndpoint ipAddress domainName bindings] mtu ((λ l, mkMultiplexingConfig (Some l)) <$> level) mode pattern None)
  end.
End profile.

(** ** Importing a link (client.go) *)

Definition ParseURLClientConfig (Unmarshal : list Z → option ClientConfig) (UnmarshalPattern : list Z → option TrafficPattern) (u : list Z)
    : result ClientConfig :=
  if HasPrefix u "mieru://" then wrapped "URLToClientConfig() failed" (URLToClientConfig Unmarshal u) else
  if HasPrefix u "mierus://" then
    p ← wrapped "URLToClientProfile() failed" (URLToClientProfile UnmarshalPattern u);
    Ok (emptyClientConfig<|Profiles := [p]|>)
  else Err (Errorf "unrecognized URL scheme").

Definition ApplyURLClientConfig `{F : GoFloat} {B : Type} (Marshal : ClientConfig → option B) (UnmarshalDisk : B → option ClientConfig)
    (Unmarshal : list Z → option ClientConfig) (UnmarshalPattern : list Z → option TrafficPattern) (u : list Z) (d : disk B) : disk B * result unit :=
  match ParseURLClientConfig Unmarshal UnmarshalPattern u with
  | Ok c => applyClientConfig Marshal UnmarshalDisk c d
  | Err e => (d, Err e)
  | Panic m => (d, Panic m)
  end.
(** [export config simple]: the links of each profile, or why there are none. *)
Definition clientExportConfigSimple {B : Type} (Unmarshal : B → option ClientConfig) (MarshalPattern : TrafficPattern → option (list Z)) (d : disk B)
    : result (list (result (list (list Z)))) :=
  match LoadClientConfig Unmarshal d with
  | Ok config => Ok ((λ p, ClientProfileToMultiURLs MarshalPattern (Some p)) <$> Profiles config)
  | Err e => Err (if bool_decide (e = ErrFileNotExist) then Errorf "mieru client config file doesn't exist" else Wrapf "get mieru client config failed" e)
  | Panic m => Panic m
  end.
Definition GetURLClientConfig {B : Type} (Unmarshal : B → option ClientConfig) (Marshal : ClientConfig → option (list Z)) (d : disk B) : result (list Z) :=
  config ← wrapped "LoadClientConfig() failed" (LoadClientConfig Unmarshal d);
  wrapped "ClientConfigToURL() failed" (ClientConfigToURL Marshal (Some config)).

(** ** Traffic patterns as text (apis/trafficpattern) *)

Module PatternText.
(** The codec takes a nil message too. *)
Definition Encode (Marshal : option TrafficPattern → option (list Z)) (pattern : option TrafficPattern) : list Z :=
  match Marshal pattern with Some b => base64Encode b | None => [] end.
Definition Decode (Unmarshal : list Z → option TrafficPattern) (encoded : list Z) : result TrafficPattern :=
  b ← wrapped "decode base64 string failed" (base64Decode encoded);
  match Unmarshal b with Some pattern => Ok pattern | None => Err (Errorf "proto.Unmarshal() failed") end.
End PatternText.

(** ** Links of whole configurations *)

Lemma not_in c s : existsb (Z.eqb c) s = false → c ∉ s.
Proof. intros E H%existsb_byte. congruence. Qed.
Lemma base64Text_cases (P : Z → bool) : forallb P (61 :: base64Alphabet) = true → ∀ c, base64Text c = true → P c = true.
Proof.
  intros H c Hc. rewrite forallb_forall in H. apply H, list_elem_of_In. unfold base64Text in Hc. apply orb_true_iff in Hc as [Hc|Hc].
  - right. by apply existsb_byte.
  - apply Z.eqb_eq in Hc as ->. left.
Qed.
(** The part of an encoded text before the first slash is a host. *)
Lemma base64_host s : Forall (λ c, base64Text c = true) s → 47 ∉ s → parseAuthority s = Ok (None, s).
Proof.
  intros Hs H47. assert (∀ c, base64Text c = false → c ∉ s) as Hav by (intros c; by apply avoid_of).
  unfold parseAuthority. rewrite LastIndexByte_None by by apply Hav. unfold parseHost.
  assert (HasPrefix s "[" = false) as ->.
  { unfold HasPrefix. apply bool_decide_eq_false. destruct s as [|c s']; [done|]. cbn. intros [= ->]. apply (Hav 91); [done|left]. }
  rewrite LastIndexByte_None by by apply Hav. rewrite unescape_plain; [done|by apply Hav| |done]. intros _. apply Forall_forall. intros c Hc.
  rewrite Forall_forall in Hs. pose proof (base64Text_cases (λ c, (c =? 47) || negb (shouldEscape c encodeHost)) eq_refl c (Hs c Hc)) as H.
  cbn beta in H. apply orb_true_iff in H as [->%Z.eqb_eq|H]; [done|]. by apply negb_true_iff in H.
Qed.
Lemma IndexByte_take c s i : IndexByte c s = Some i → c ∉ take i s.
Proof.
  revert i. induction s as [|x s IH]; [done|]. intros i. cbn. destruct (Z.eqb_spec x c) as [->|N]; [intros [= <-]; apply not_elem_of_nil|].
  destruct (IndexByte c s) as [j|]; [|done]. intros [= <-]. cbn. apply not_elem_of_cons. split; [done|by apply IH].
Qed.
Lemma base64_link b :
  bytes_ok b → ∃ host path, Parse (str "mieru://" ++ base64Encode b) = Ok (mkURL (str "mieru") [] None host path []).
Proof.
  intros Hb. set (t := base64Encode b). pose proof (base64Encode_text b Hb) as Ht. fold t in Ht. clearbody t.
  assert (∀ c, base64Text c = false → c ∉ t) as Hav by (intros c; by apply avoid_of).
  change (str "mieru://" ++ t) with (str "mieru" ++ 58 :: ([47; 47] ++ t)).
  assert (∀ c, base64Text c = false → existsb (Z.eqb c) (str "mieru" ++ [58; 47; 47]) = false → c ∉ str "mieru" ++ 58 :: [47; 47] ++ t) as Hall.
  { intros c H1 H2%not_in. replace (str "mieru" ++ 58 :: [47; 47] ++ t) with ((str "mieru" ++ [58; 47; 47]) ++ t) by by rewrite <-app_assoc.
    apply not_elem_of_app. split; [done|by apply Hav]. }
  unfold Parse. rewrite cut_none by by apply Hall. unfold parse.
  assert (existsb isCTL (str "mieru" ++ 58 :: [47; 47] ++ t) = false) as ->.
  { rewrite existsb_app. cbn [existsb app]. rewrite (none_of base64Text isCTL t Ht); [done|]. intros c Hc.
    pose proof (base64Text_cases (λ c, negb (isCTL c)) eq_refl c Hc) as H. by apply negb_true_iff in H. }
  rewrite bool_decide_eq_false_2 by done. rewrite getScheme_at by (done || by repeat constructor). rewrite bind_Ok. cbv zeta.
  assert (63 ∉ [47; 47] ++ t) as H63 by (apply not_elem_of_app; split; [by apply not_in|by apply Hav]).
  assert (len (filter (λ c, c = 63) ([47; 47] ++ t)) = 0) as -> by (rewrite filter_none; [done|]; by intros c Hc ->).
  rewrite andb_false_r, cut_none by done. change (ToLower (str "mieru")) with (str "mieru").
  change (HasPrefix ([47; 47] ++ t) "/") with true. change (HasPrefix ([47; 47] ++ t) "//") with true. change (len (str "mieru") =? 0) with false. cbn [negb andb orb].
  change (drop 2 ([47; 47] ++ t)) with (drop 0 t). rewrite drop_0.
  assert (37 ∉ t) as H37 by by apply Hav.
  destruct (IndexByte 47 t) as [i|] eqn:Ei.
  - rewrite base64_host; [|by apply Forall_take|by apply IndexByte_take]. rewrite bind_Ok.
    rewrite (unescape_plain encodePath); [|intros Hin; apply H37; exact (subseteq_drop i t 37 Hin)|done|done]. rewrite bind_Ok. by eexists _, _.
  - rewrite base64_host by (done || by apply IndexByte_None). rewrite bind_Ok. by eexists _, _.
Qed.

(** ** Links of profiles *)

(** What a profile may hold to be shared: texts of bytes, declared values, names
    of hosts, and bindings with a port or else a range. *)
Definition hostNameByte (c : Z) : bool := isAlnum c || oneOf c "-._".
Definition server_shareable (s : ServerEndpoint) : Prop :=
  (GetDomainName s = [] ∨ Forall (λ c, hostNameByte c = true) (GetDomainName s) ∧ ParseIP (GetDomainName s) = None) ∧
  ∀ b, b ∈ se_PortBindings s → GetBindingPort b = 0 ∨ GetPortRange b = [].
Record shareable (p : ClientProfile) : Prop := {
  sh_valid : ValidateClientConfigSingleProfile p = Ok tt;
  sh_password : GetPassword (cp_User p) ≠ [];
  sh_bytes : bytes_ok (GetProfileName p) ∧ bytes_ok (GetName (cp_User p)) ∧ bytes_ok (GetPassword (cp_User p));
  sh_level : ∀ l, Multiplexing p ≫= Level = Some l → 0 <= l < 5;
  sh_mode : ∀ m, HandshakeMode p = Some m → 0 <= m < 3;
  sh_servers : Forall server_shareable (Servers p)
}.
(** A binding and a server as they are imported. *)
Definition importedBinding (b : PortBinding) : PortBinding :=
  match validPortRange (GetPortRange b) with
  | Some (d1, d2) => mkPortBinding None (Some (GetBindingProtocol b)) (Some (Itoa (decimal d1) ++ [45] ++ Itoa (decimal d2)))
  | None => mkPortBinding (Some (GetBindingPort b)) (Some (GetBindingProtocol b)) None
  end.
Definition importedServer (s : ServerEndpoint) : ServerEndpoint :=
  if len (GetDomainName s) =? 0 then mkServerEndpoint (Some (GetIpAddress s)) None (importedBinding <$> se_PortBindings s)
  else mkServerEndpoint None (Some (GetDomainName s)) (importedBinding <$> se_PortBindings s).

Lemma digits_spec fuel n : 0 <= n < 10 ^ Z.of_nat fuel → fuel ≠ O → digits_only (digits fuel 10 n) ∧ decimal (digits fuel 10 n) = n.
Proof.
  assert (∀ d, 0 <= d < 10 → isDigit (digit d) = true ∧ digit d - 48 = d) as Hdig.
  { intros d Hd. unfold digit, isDigit. destruct (Z.ltb_spec d 10); [|lia]. rewrite (proj2 (Z.leb_le _ _)), (proj2 (Z.leb_le _ _)) by lia. split; [done|lia]. }
  revert n. induction fuel as [|fuel IH]; [done|]. intros n Hn _. cbn [digits]. destruct (Z.ltb_spec n 10) as [Hs|Hb].
  - destruct (Hdig n ltac:(lia)) as [H1 H2]. split; [split; [done|by apply Forall_singleton]|]. unfold decimal. cbn. lia.
  - rewrite Nat2Z.inj_succ, Z.pow_succ_r in Hn by lia. pose proof (Z.mod_pos_bound n 10 ltac:(lia)).
    destruct fuel as [|fuel]; [change (10 ^ Z.of_nat 0) with 1 in Hn; lia|].
    destruct (IH (n / 10)) as [[G1 G2] G3]; [split; [apply Z.div_pos; lia|apply Z.div_lt_upper_bound; lia]|done|].
    destruct (Hdig (n mod 10) ltac:(lia)) as [H1 H2]. split.
    + split; [by intros [_ ?]%app_eq_nil|]. apply Forall_app. split; [done|by apply Forall_singleton].
    + unfold decimal in *. rewrite foldl_app, G3. cbn. pose proof (Z.div_mod n 10). lia.
Qed.
Lemma Itoa_small n : 0 <= n < 65536 → digits_only (Itoa n) ∧ decimal (Itoa n) = n ∧ Atoi (Itoa n) = Ok n ∧ bytes_ok (Itoa n).
Proof.
  intros Hn. destruct (digits_spec 20 n) as [Hd Hv]; [change (10 ^ Z.of_nat 20) with 100000000000000000000; lia|done|].
  unfold Itoa. rewrite (proj2 (Z.ltb_ge n 0)) by lia. split_and!; [apply Hd..|done| |].
  - rewrite Atoi_digits, Hv by done. destruct (Z.ltb_spec n (2 ^ 63)); [done|lia].
  - destruct Hd as [_ Hd]. eapply Forall_impl; [exact Hd|]. intros c Hc. unfold isDigit in Hc. unfold is_u8, in_width. apply andb_true_iff in Hc as [Hc1 Hc2]. lia.
Qed.
Lemma enum_roundtrip names n :
  NoDup names → Forall (λ s, s ≠ []) names → 0 <= n < len names → enumValue names (enumString names n) = n ∧ enumString names n ≠ [] ∧ enumString names n ∈ names.
Proof.
  intros Hn Hne Hr. unfold enumString. rewrite (proj2 (Z.ltb_ge _ _)) by lia.
  destruct (lookup_lt_is_Some_2 names (Z.to_nat n)) as [s Es]; [unfold len in Hr; lia|]. rewrite Es. change (default (Itoa n) (Some s)) with s.
  rewrite Forall_forall in Hne. assert (s ∈ names) as Hin by by eapply list_elem_of_lookup_2. split_and!; [|by apply Hne|done].
  unfold enumValue. assert (list_find (λ x, s = x) names = Some (Z.to_nat n, s)) as E; [|rewrite E; cbn; lia]. apply list_find_Some. split_and!; [done|done|].
  intros j y Hj Hlt <-. pose proof (NoDup_lookup _ _ _ _ Hn Hj Es). lia.
Qed.

(** The host of a link. *)
Lemma hostName_u8 c : hostNameByte c = true → is_u8 c.
Proof.
  unfold hostNameByte, isAlnum, isAlpha, isDigit, is_u8, in_width. rewrite !orb_true_iff, !andb_true_iff. change (2 ^ 8) with 256.
  intros [[[H|H]|H]|H]; [lia..|]. apply existsb_byte in H. assert (Forall (λ c, 0 <= c < 256) (str "-._")) as Hf by by repeat constructor.
  rewrite Forall_forall in Hf. by apply Hf.
Qed.
Lemma v6Byte_u8 c : v6Byte c = true → is_u8 c.
Proof.
  unfold v6Byte, hexDigit, isDigit, is_u8, in_width. rewrite !orb_true_iff, bool_decide_eq_true, !Z.eqb_eq. change (2 ^ 8) with 256.
  intros [[H|H]|H]; [|lia..].
  destruct ((48 <=? c) && (c <=? 57)) eqn:E1; [lia|]. destruct ((97 <=? c) && (c <=? 102)) eqn:E2; [lia|]. destruct ((65 <=? c) && (c <=? 70)) eqn:E3; [lia|].
  by destruct H.
Qed.
Lemma host_text (P : Z → bool) (cs : list Z) s :
  (∀ c, P c = true → is_u8 c) → forallb (λ c, negb (P c) || (negb (shouldEscape c encodeHost) && negb (existsb (Z.eqb c) cs))) (seqZ 0 256) = true →
  Forall (λ c, P c = true) s → bytes_ok s ∧ host_bytes s ∧ ∀ c, c ∈ cs → c ∉ s.
Proof.
  intros Hu HP Hs. rewrite Forall_forall in Hs.
  assert (∀ c, c ∈ s → is_u8 c ∧ shouldEscape c encodeHost = false ∧ c ∉ cs) as Ha.
  { intros c Hc. pose proof (all_bytes _ HP c (Hu c (Hs c Hc))) as H. cbn beta in H. rewrite (Hs c Hc) in H. cbn [negb orb] in H.
    apply andb_true_iff in H as [H1 H2]. apply negb_true_iff in H1, H2. split_and!; [by apply Hu, Hs|done|by apply not_in]. }
  split_and!.
  - apply Forall_forall. intros c Hc. by apply Ha.
  - apply Forall_forall. intros c Hc. by apply Ha.
  - intros c Hc Hin. by apply Ha in Hin as (_ & _ & Hn).
Qed.
Definition hostText (s : ServerEndpoint) : list Z := if len (GetDomainName s) =? 0 then GetIpAddress s else GetDomainName s.
Lemma server_host s :
  validateServerEndpoint s = Ok tt → server_shareable s →
  ∃ host, (if negb (len (GetDomainName s) =? 0) then Ok (GetDomainName s) else
           if negb (len (GetIpAddress s) =? 0) then Ok (MaybeDecorateIPv6 (GetIpAddress s)) else
           Err (Errorf "profile has a server with no domain name or IP address")) = Ok host ∧ host_ok host ∧ hostText s ≠ [] ∧
    (∀ u, Host u = host → Hostname u = hostText s) ∧
    (match ParseIP (hostText s) with Some _ => (Some (hostText s), None) | None => (None, Some (hostText s)) end) =
      (IpAddress (importedServer s), DomainName (importedServer s)).
Proof.
  unfold validateServerEndpoint. rewrite !guard_spec. intros (H1 & H2 & _) [Hd _]. unfold hostText, importedServer.
  destruct (Z.eqb_spec (len (GetDomainName s)) 0) as [E|N]; cbn [negb].
  - rewrite len_zero in E. rewrite ?andb_true_r in H1. rewrite H1 in *. cbn [negb andb] in *. apply bool_decide_eq_false in H2.
    destruct (ParseIP (GetIpAddress s)) as [ip|] eqn:Ep; [|done]. apply Z.eqb_neq in H1. rewrite len_zero in H1.
    unfold ParseIP in Ep. destruct (ParseAddr (GetIpAddress s)) as [[a zone]|] eqn:Ea; [|done]. cbn in Ep.
    destruct (Z.eqb_spec (len zone) 0) as [Ez|]; [|done]. apply len_zero in Ez as ->. clear Ep.
    exists (MaybeDecorateIPv6 (GetIpAddress s)). split; [done|]. unfold MaybeDecorateIPv6. rewrite Ea.
    destruct (ParseAddr_spec _ _ _ Ea) as [(Hl & _ & Hv)|(Hl & t & Hv & [[_ Et]|[Hz _]])]; [| |done]; unfold len; rewrite Hl.
    + change (Z.of_nat 4 =? 16) with false. cbv iota.
      destruct (host_text v4Byte [58; 91] _ (λ c Hc, v6Byte_u8 c (v4Byte_v6Byte c Hc)) eq_refl Hv) as (G1 & G2 & G3).
      split; [apply plain_host_ok; [done..|apply G3; left|apply G3; right; left]|]. split; [done|]. split; [|done].
      intros u Eu. rewrite <-Eu in G3 |- *. apply Hostname_plain; [apply G3; left|apply G3; right; left].
    + rewrite Et in *. change (Z.of_nat 16 =? 16) with true. cbv iota.
      destruct (host_text v6Byte [] _ v6Byte_u8 eq_refl Hv) as (G1 & G2 & _).
      change (str "[" ++ t ++ str "]") with (91 :: t ++ [93]). split; [by apply bracket_host_ok|]. split; [done|]. split; [|done].
      intros u Eu. by apply Hostname_bracket.
  - destruct Hd as [Hd|[Hb Hp]]; [by rewrite Hd in N|]. exists (GetDomainName s). split; [done|].
    destruct (host_text hostNameByte [58; 91] _ hostName_u8 eq_refl Hb) as (G1 & G2 & G3). rewrite len_zero in N.
    split; [apply plain_host_ok; [done..|apply G3; left|apply G3; right; left]|]. split; [done|]. rewrite Hp. split; [|done].
    intros u Eu. rewrite <-Eu in G3 |- *. apply Hostname_plain; [apply G3; left|apply G3; right; left].
Qed.

(** The bindings of a link. *)
Definition portText (b : PortBinding) : list Z := if negb (len (GetPortRange b) =? 0) then GetPortRange b else Itoa (GetBindingPort b).
Lemma protocol_names : NoDup TransportProtocol_name ∧ Forall (λ s, s ≠ []) TransportProtocol_name ∧ Forall bytes_ok TransportProtocol_name.
Proof. split_and!; [by apply (bool_decide_unpack (NoDup TransportProtocol_name)); vm_compute|by repeat constructor|by repeat constructor]. Qed.
Lemma names_bound b lo hi : names b lo hi → (GetBindingPort b ≠ 0 ∧ lo = GetBindingPort b ∧ hi = GetBindingPort b) ∨
  (GetBindingPort b = 0 ∧ ∃ d1 d2, validPortRange (GetPortRange b) = Some (d1, d2) ∧ decimal d1 = lo ∧ decimal d2 = hi).
Proof.
  intros [H|(H & d1 & d2 & E & H1 & H2 & H3 & H4)]; [by left|right]. split; [done|]. exists d1, d2. split; [|done]. by apply validPortRange_spec.
Qed.
Lemma importBinding_ok b :
  binding_ok b → GetBindingPort b = 0 ∨ GetPortRange b = [] →
  importBinding (portText b) (enumString TransportProtocol_name (GetBindingProtocol b)) = Ok (importedBinding b) ∧ bytes_ok (portText b).
Proof.
  intros [Hp (lo & hi & Hn & H1 & H2 & H3)] Hone. destruct protocol_names as (P1 & P2 & _).
  destruct (enum_roundtrip TransportProtocol_name (GetBindingProtocol b) P1 P2) as (Ev & _); [by destruct Hp as [-> | ->]|].
  unfold importBinding, portText, importedBinding. cbv zeta. rewrite Ev.
  destruct (names_bound _ _ _ Hn) as [(N0 & -> & ->)|(E0 & d1 & d2 & Er & <- & <-)].
  - destruct Hone as [|Hone]; [done|]. rewrite Hone. change (len (@nil Z) =? 0) with true. cbn [negb]. change (validPortRange []) with (@None (list Z * list Z)).
    destruct (Itoa_small (GetBindingPort b)) as (_ & _ & -> & Hb); [lia|]. split; [|done].
    rewrite Z.gtb_ltb, (proj2 (Z.ltb_ge _ _)), (proj2 (Z.ltb_ge _ _)) by lia. cbn [orb]. do 3 f_equal.
    unfold int32. rewrite Z.mod_small by lia. lia.
  - rewrite Er. apply validPortRange_spec in Er as (Er & D1 & D2). rewrite Er.
    assert (len (d1 ++ [45] ++ d2) ≠ 0) as Hne by (rewrite len_zero; by intros [_ ?]%app_eq_nil).
    rewrite (proj2 (Z.eqb_neq _ _) Hne). cbn [negb].
    assert (is_Err (Atoi (d1 ++ [45] ++ d2))) as [e ->].
    { unfold Atoi. destruct D1 as [D1 D1']. destruct d1 as [|c d1]; [done|].
      assert (isDigit c = true) as Hc by by apply Forall_cons in D1' as [? _].
      assert (c ≠ 45 ∧ c ≠ 43) as [H45 H43] by (unfold isDigit in Hc; apply andb_true_iff in Hc as [? ?]; lia).
      assert (∀ A (x y z : A), (match c with 45 => x | 43 => y | _ => z end) = z) as Hm.
      { intros. destruct c as [|q|q]; try done. do 6 (try destruct q as [q|q|]); done. }
      cbn [app]. rewrite Hm. cbn [forallb]. rewrite forallb_app. cbn [forallb]. change (isDigit 45) with false. rewrite !andb_false_r. cbn [negb].
      rewrite orb_true_r. by eexists. }
    assert ((45 ∉ d1) ∧ (45 ∉ d2)) as [N1 N2] by (split; apply IndexByte_None, digit_not_dash; [apply D1|apply D2]).
    change (d1 ++ [45] ++ d2) with (d1 ++ 45 :: d2). rewrite splitOn_at, splitOn_plain by done.
    rewrite (Atoi_digits d1), (Atoi_digits d2) by done. rewrite !(proj2 (Z.ltb_lt _ _)) by lia.
    rewrite !Z.gtb_ltb, !(proj2 (Z.ltb_ge _ _)) by lia. cbn [orb]. split; [done|].
    assert (∀ d, digits_only d → bytes_ok d) as Hdb.
    { intros d [_ Hd]. eapply Forall_impl; [exact Hd|]. intros c Hc. unfold isDigit in Hc. unfold is_u8, in_width. apply andb_true_iff in Hc as [? ?]. lia. }
    apply Forall_app. split; [by apply Hdb|]. apply Forall_cons. split; [by split|by apply Hdb].
Qed.
Lemma importBindings_ok bs :
  Forall binding_ok bs → (∀ b, b ∈ bs → GetBindingPort b = 0 ∨ GetPortRange b = []) →
  importBindings (portText <$> bs) ((λ b, enumString TransportProtocol_name (GetBindingProtocol b)) <$> bs) = Ok (importedBinding <$> bs).
Proof.
  intros H Hone. induction H as [|b bs Hb _ IH]; [done|]. cbn [fmap list_fmap importBindings].
  destruct (importBinding_ok b Hb (Hone b ltac:(left))) as [-> _]. rewrite bind_Ok. rewrite IH by (intros b' Hb'; apply Hone; by right). done.
Qed.
(** Importing keeps the ports. *)
Lemma imported_names b lo hi :
  binding_ok b → GetBindingPort b = 0 ∨ GetPortRange b = [] → names (importedBinding b) lo hi ↔ names b lo hi.
Proof.
  intros [_ (l & h & Hn & H1 & H2 & H3)] Hone.
  assert (names (importedBinding b) l h) as Hi.
  { unfold importedBinding. destruct (names_bound _ _ _ Hn) as [(N0 & -> & ->)|(E0 & d1 & d2 & Er & <- & <-)].
    - destruct Hone as [|Hone]; [done|]. rewrite Hone. change (validPortRange []) with (@None (list Z * list Z)). by left.
    - rewrite Er. right. split; [done|]. exists (Itoa (decimal d1)), (Itoa (decimal d2)).
      destruct (Itoa_small (decimal d1)) as (A1 & A2 & _); [lia|]. destruct (Itoa_small (decimal d2)) as (B1 & B2 & _); [lia|]. by split_and!. }
  split; intros H; [destruct (names_functional _ _ _ _ _ H Hi) as [-> ->]; exact Hn|destruct (names_functional _ _ _ _ _ H Hn) as [-> ->]; exact Hi].
Qed.
Lemma imported_protocol b : GetBindingProtocol (importedBinding b) = GetBindingProtocol b.
Proof. unfold importedBinding. by destruct (validPortRange (GetPortRange b)) as [[d1 d2]|]. Qed.
Lemma imported_binding_ok b : binding_ok b → GetBindingPort b = 0 ∨ GetPortRange b = [] → binding_ok (importedBinding b).
Proof.
  intros Hb Hone. pose proof Hb as [Hp (lo & hi & Hn & H)]. split; [by rewrite imported_protocol|]. exists lo, hi. split; [by apply imported_names|done].
Qed.
Lemma imported_bound bs protocol port :
  Forall binding_ok bs → (∀ b, b ∈ bs → GetBindingPort b = 0 ∨ GetPortRange b = []) →
  bound (importedBinding <$> bs) protocol port ↔ bound bs protocol port.
Proof.
  intros Hok Hone. rewrite Forall_forall in Hok. unfold bound. split.
  - intros (b' & lo & hi & Hin & Hp & Hn & Hr). apply list_elem_of_fmap in Hin as (b & -> & Hin). rewrite imported_protocol in Hp.
    apply (imported_names b lo hi) in Hn; [|by apply Hok|by apply Hone]. exists b, lo, hi. by repeat split; try apply Hr.
  - intros (b & lo & hi & Hin & Hp & Hn & Hr). exists (importedBinding b), lo, hi. rewrite imported_protocol. split_and!; try done; try lia.
    + by apply list_elem_of_fmap_2.
    + apply imported_names; auto.
Qed.

(** The parameters of a link. *)
Definition optional {A} (key : list Z) (f : A → list Z) (o : option A) : list (list Z * list Z) :=
  match o with Some x => [(key, f x)] | None => [] end.
Lemma valuesOf_optional {A} k key (f : A → list Z) o :
  valuesOf k (optional key f o) = if decide (key = k) then from_option (λ x, [f x]) [] o else [].
Proof. destruct o as [x|]; cbn [optional from_option]; [apply valuesOf_one|]. by destruct (decide (key = k)). Qed.
Lemma valuesOf_bindings k bs :
  valuesOf k (bs ≫= bindingParameters) =
    if decide (str "port" = k) then portText <$> bs else
    if decide (str "protocol" = k) then (λ b, enumString TransportProtocol_name (GetBindingProtocol b)) <$> bs else [].
Proof.
  induction bs as [|b bs IH]; [by repeat destruct (decide _)|]. rewrite bind_cons, valuesOf_app, IH. unfold bindingParameters.
  change (?x :: [?y]) with ([x] ++ [y]). rewrite valuesOf_app, !valuesOf_one. fold (portText b).
  destruct (decide (str "port" = k)) as [<-|N1]; [by rewrite decide_False|]. by destruct (decide (str "protocol" = k)).
Qed.
Lemma profileParameters_optional p pattern s :
  profileParameters p pattern s =
    optional (str "profile") (λ x, x) (Some (GetProfileName p)) ++ optional (str "mtu") Itoa (cp_Mtu p) ++
    optional (str "multiplexing") (enumString MultiplexingLevel_name) (Multiplexing p ≫= Level) ++
    optional (str "handshake-mode") (enumString HandshakeMode_name) (HandshakeMode p) ++
    optional (str "traffic-pattern") base64Encode pattern ++ (se_PortBindings s ≫= bindingParameters).
Proof. reflexivity. Qed.
(** What the values of each key are. *)
Lemma profileParameters_values p pattern s k :
  valuesOf k (profileParameters p pattern s) =
    (if decide (str "profile" = k) then [GetProfileName p] else []) ++
    (if decide (str "mtu" = k) then from_option (λ x, [Itoa x]) [] (cp_Mtu p) else []) ++
    (if decide (str "multiplexing" = k) then from_option (λ x, [enumString MultiplexingLevel_name x]) [] (Multiplexing p ≫= Level) else []) ++
    (if decide (str "handshake-mode" = k) then from_option (λ x, [enumString HandshakeMode_name x]) [] (HandshakeMode p) else []) ++
    (if decide (str "traffic-pattern" = k) then from_option (λ x, [base64Encode x]) [] pattern else []) ++
    (if decide (str "port" = k) then portText <$> se_PortBindings s else
     if decide (str "protocol" = k) then (λ b, enumString TransportProtocol_name (GetBindingProtocol b)) <$> se_PortBindings s else []).
Proof. by rewrite profileParameters_optional, !valuesOf_app, !valuesOf_optional, valuesOf_bindings. Qed.
Definition linkValues (p : ClientProfile) (pattern : option (list Z)) (s : ServerEndpoint) : Values :=
  foldl adding ∅ (profileParameters p pattern s).
Lemma linkValues_lookup p pattern s k :
  linkValues p pattern s !! k = match valuesOf k (profileParameters p pattern s) with [] => None | l => Some l end.
Proof. unfold linkValues. rewrite foldl_adding, lookup_empty. by destruct (valuesOf k _). Qed.
Lemma linkValues_get p pattern s k : Get (linkValues p pattern s) k = default [] (head (valuesOf k (profileParameters p pattern s))).
Proof. unfold Get. rewrite linkValues_lookup. by destruct (valuesOf k _). Qed.
(** Decides equalities of literal keys. *)
Ltac keys := repeat match goal with |- context [decide (?a = ?b)] =>
  let E := fresh "E" in destruct (decide (a = b)) as [E|E]; [try (exfalso; vm_compute in E; discriminate E)|try (exfalso; by destruct E)] end.
Lemma linkValues_spec p pattern s :
  let q := linkValues p pattern s in
  Get q (str "profile") = GetProfileName p ∧ Get q (str "mtu") = from_option Itoa [] (cp_Mtu p) ∧
  Get q (str "multiplexing") = from_option (enumString MultiplexingLevel_name) [] (Multiplexing p ≫= Level) ∧
  Get q (str "handshake-mode") = from_option (enumString HandshakeMode_name) [] (HandshakeMode p) ∧
  Get q (str "traffic-pattern") = from_option base64Encode [] pattern ∧
  default [] (q !! str "port") = portText <$> se_PortBindings s ∧
  default [] (q !! str "protocol") = (λ b, enumString TransportProtocol_name (GetBindingProtocol b)) <$> se_PortBindings s.
Proof.
  intros q. unfold q. rewrite !linkValues_get, !linkValues_lookup, !profileParameters_values.
  split_and!; keys; rewrite ?app_nil_l, ?app_nil_r; try reflexivity.
  - by destruct (cp_Mtu p).
  - by destruct (Multiplexing p ≫= Level).
  - by destruct (HandshakeMode p).
  - by destruct pattern.
  - by destruct (portText <$> se_PortBindings s).
  - by destruct ((λ b, enumString TransportProtocol_name (GetBindingProtocol b)) <$> se_PortBindings s).
Qed.

Lemma Itoa_bytes n : 0 <= n < 65536 → bytes_ok (Itoa n).
Proof. intros H. by apply Itoa_small. Qed.
Lemma enum_bytes names n : NoDup names → Forall (λ s, s ≠ []) names → Forall bytes_ok names → 0 <= n < len names → bytes_ok (enumString names n).
Proof. intros H1 H2 H3 Hn. rewrite Forall_forall in H3. apply H3. by apply enum_roundtrip. Qed.
Lemma level_names : NoDup MultiplexingLevel_name ∧ Forall (λ s, s ≠ []) MultiplexingLevel_name ∧ Forall bytes_ok MultiplexingLevel_name.
Proof. split_and!; [by apply (bool_decide_unpack (NoDup MultiplexingLevel_name)); vm_compute|by repeat constructor|by repeat constructor]. Qed.
Lemma mode_names : NoDup HandshakeMode_name ∧ Forall (λ s, s ≠ []) HandshakeMode_name ∧ Forall bytes_ok HandshakeMode_name.
Proof. split_and!; [by apply (bool_decide_unpack (NoDup HandshakeMode_name)); vm_compute|by repeat constructor|by repeat constructor]. Qed.
Lemma base64Encode_bytes b : bytes_ok b → bytes_ok (base64Encode b).
Proof.
  intros Hb. eapply Forall_impl; [by apply base64Encode_text|]. intros c Hc.
  pose proof (base64Text_cases (λ c, (0 <=? c) && (c <? 256)) eq_refl c Hc) as H. cbn beta in H. apply andb_true_iff in H as [? ?].
  unfold is_u8, in_width. change (2 ^ 8) with 256. lia.
Qed.
Lemma base64Encode_empty b : bytes_ok b → base64Encode b = [] → b = [].
Proof. intros Hb E. pose proof (base64_roundtrip b Hb) as H. rewrite E in H. by injection H as <-. Qed.

(** The bindings of a server that is accepted. *)
Lemma server_bindings s : validateServerEndpoint s = Ok tt → se_PortBindings s ≠ [] ∧ Forall binding_ok (se_PortBindings s).
Proof.
  unfold validateServerEndpoint. rewrite !guard_spec. intros (_ & _ & H3 & H4). apply Z.eqb_neq in H3. rewrite len_zero in H3. split; [done|].
  pose proof (FlatPortBindings_spec (se_PortBindings s)) as H. destruct (FlatPortBindings (se_PortBindings s)); [|done..]. by destruct H.
Qed.

(** What an encoded query is made of. *)
Lemma emitted_inQuery c : emitted encodeQueryComponent c = true → inQuery c = true.
Proof.
  intros H. assert (is_u8 c) as Hc.
  { unfold is_u8, in_width. change (2 ^ 8) with 256.
    assert (isAlnum c = true ∨ oneOf c "-_.~" = true ∨ c = 37 ∨ isUpperHex c = true ∨ c = 43) as Hs.
    { unfold emitted, shouldEscape in H. cbn [isHostMode andb] in H. destruct (isAlnum c); [by left|]. destruct (oneOf c "-_.~"); [by right; left|].
      assert ((if oneOf c "$&+,/:;=?@" then true else true) = true) as E by by destruct (oneOf c _). rewrite E in H. cbn [negb orb] in H.
      rewrite !orb_true_iff, !Z.eqb_eq in H. tauto. }
    unfold isAlnum, isAlpha, isUpperHex, isDigit in Hs. destruct Hs as [Hs|[Hs|Hs]]; [lia| |lia].
    apply existsb_byte in Hs. assert (Forall (λ c, 0 <= c < 256) (str "-_.~")) as Hf by by repeat constructor.
    rewrite Forall_forall in Hf. by apply Hf. }
  revert c Hc H. assert (∀ c, is_u8 c → negb (emitted encodeQueryComponent c) || inQuery c = true) as Ha by (apply all_bytes; by vm_compute).
  intros c Hc H. specialize (Ha c Hc). by rewrite H in Ha.
Qed.

Section linked.
Context (p : ClientProfile) (Hp : shareable p) (pattern : option (list Z)) (Hpat : ∀ b, pattern = Some b → bytes_ok b).
Context (s : ServerEndpoint) (Hs : validateServerEndpoint s = Ok tt) (Hsh : server_shareable s).

Lemma mtu_range mtu : cp_Mtu p = Some mtu → 0 <= mtu <= 1500.
Proof using Hp.
  intros E. destruct Hp as [Hv _ _ _ _ _]. unfold ValidateClientConfigSingleProfile in Hv. rewrite !guard_spec, bind_unit, guard_spec in Hv.
  destruct Hv as (_ & _ & _ & _ & _ & _ & _ & _ & Hmtu & _). unfold GetMtu in Hmtu. rewrite E in Hmtu. change (default 0 (Some mtu)) with mtu in Hmtu.
  destruct (Z.eqb_spec mtu 0); [lia|]. cbn in Hmtu. apply orb_false_iff in Hmtu as [? ?]. lia.
Qed.
Lemma parameters_ok : Forall pair_ok (profileParameters p pattern s).
Proof using Hp Hpat Hs Hsh.
  pose proof mtu_range as Hmtu. destruct Hp as [Hv Hpw (Hb1 & _ & _) Hl Hm _]. destruct (server_bindings s Hs) as [_ Hok]. destruct Hsh as [_ Hone].
  assert (∀ A (k : list Z) (f : A → list Z) o, bytes_ok k → (∀ x, o = Some x → bytes_ok (f x)) → Forall pair_ok (optional k f o)) as Ho.
  { intros A k f [x|] Hk Hf; [|constructor]. apply Forall_singleton. split; [done|by apply Hf]. }
  rewrite profileParameters_optional. repeat (apply Forall_app; split); [apply Ho; [by repeat constructor|]..|].
  - by intros ? [= <-].
  - intros mtu E. apply Itoa_bytes. apply Hmtu in E. lia.
  - intros l E. destruct level_names as (? & ? & ?). by apply enum_bytes; [..|apply Hl].
  - intros m E. destruct mode_names as (? & ? & ?). by apply enum_bytes; [..|apply Hm].
  - intros b E. apply base64Encode_bytes. by apply Hpat.
  - apply Forall_forall. intros x Hx. apply list_elem_of_bind in Hx as (b & Hx & Hb). rewrite Forall_forall in Hok.
    destruct (importBinding_ok b (Hok b Hb) (Hone b Hb)) as [_ Ht]. destruct protocol_names as (P1 & P2 & P3). destruct (Hok b Hb) as [Hpr _].
    unfold bindingParameters in Hx. fold (portText b) in Hx. apply elem_of_cons in Hx as [-> |Hx%list_elem_of_singleton]; [|subst x].
    + split; [by repeat constructor|done].
    + split; [by repeat constructor|]. apply enum_bytes; [done..|]. by destruct Hpr as [-> | ->].
Qed.
Lemma values_of_pairs ps : Forall pair_ok ps → values_ok (foldl adding ∅ ps).
Proof using.
  intros H k l. rewrite foldl_adding, lookup_empty. assert (Forall (λ x, bytes_ok k ∧ bytes_ok x) (valuesOf k ps)) as Hv.
  { unfold valuesOf. rewrite Forall_fmap. apply Forall_forall. intros [k' x]. rewrite list_elem_of_filter. cbn. intros [<- Hin].
    rewrite Forall_forall in H. exact (H _ Hin). }
  destruct (valuesOf k ps) as [|y l0] eqn:E; [done|]. cbn. intros [= <-]. split; [done|]. split.
  - apply Forall_cons in Hv as [[? _] _]. done.
  - eapply Forall_impl; [exact Hv|]. by intros x [_ ?].
Qed.
Lemma linkValues_ok : values_ok (linkValues p pattern s).
Proof using Hp Hpat Hs Hsh. apply values_of_pairs, parameters_ok. Qed.
Lemma linkValues_query : Encode (linkValues p pattern s) ≠ [] ∧ Forall (λ c, inQuery c = true) (Encode (linkValues p pattern s)).
Proof using Hp Hpat Hs Hsh.
  pose proof linkValues_ok as Hv. split.
  - apply (Encode_nonempty _ (str "profile") [GetProfileName p]); [done|]. rewrite linkValues_lookup, profileParameters_values. keys. reflexivity.
  - apply Forall_forall. intros c Hc. apply not_false_is_true. intros E.
    apply (Encode_avoids _ c Hv); [|by intros ->|by intros ->|done].
    destruct (emitted encodeQueryComponent c) eqn:Ee; [|done]. apply emitted_inQuery in Ee. congruence.
Qed.
End linked.

Definition importedProfile (p : ClientProfile) (pattern : option TrafficPattern) (s : ServerEndpoint) : ClientProfile :=
  mkClientProfile (Some (GetProfileName p)) (Some (mkUserMsg (Some (GetName (cp_User p))) (Some (GetPassword (cp_User p))) None [] None None))
    [importedServer s] (cp_Mtu p) ((λ l, mkMultiplexingConfig (Some l)) <$> (Multiplexing p ≫= Level)) (HandshakeMode p) pattern None.

Lemma importMtu_ok mtu : (∀ x, mtu = Some x → 0 <= x <= 1500) → importMtu (from_option Itoa [] mtu) = Ok mtu.
Proof.
  intros H. destruct mtu as [x|]; [|done]. specialize (H x eq_refl). destruct (Itoa_small x) as ([Hne _] & _ & Ha & _); [lia|].
  cbn [from_option]. unfold importMtu. rewrite (proj2 (Z.eqb_neq _ _)) by by rewrite len_zero. rewrite Ha. do 2 f_equal. unfold int32. rewrite Z.mod_small; lia.
Qed.
Lemma importEnum_ok names o :
  NoDup names → Forall (λ s, s ≠ []) names → (∀ x, o = Some x → 0 <= x < len names) → importEnum names (from_option (enumString names) [] o) = o.
Proof.
  intros H1 H2 H. destruct o as [x|]; [|done]. destruct (enum_roundtrip names x H1 H2 (H x eq_refl)) as (E & Hne & _).
  cbn [from_option]. unfold importEnum. rewrite (proj2 (Z.eqb_neq _ _)) by by rewrite len_zero. by rewrite E.
Qed.
Lemma importPattern_ok Up pattern t :
  (∀ b, pattern = Some b → bytes_ok b ∧ Up b = Some t) →
  importPattern Up (from_option base64Encode [] pattern) = Ok (match pattern with Some (_ :: _) => Some t | _ => None end).
Proof.
  intros H. destruct pattern as [b|]; [|done]. destruct (H b eq_refl) as [Hb Hu]. cbn [from_option]. unfold importPattern.
  destruct b as [|x b]; [done|]. destruct (Z.eqb_spec (len (base64Encode (x :: b))) 0) as [E|_]; [by apply len_zero, base64Encode_empty in E|].
  rewrite base64_roundtrip by done. cbn [wrapped]. by rewrite bind_Ok, Hu.
Qed.

(** A server's link is imported as the profile with that server. *)
Lemma server_link Mp Up p s :
  shareable p → s ∈ Servers p → (∀ t, cp_TrafficPattern p = Some t → ∃ b, Mp t = Some b ∧ bytes_ok b ∧ Up b = Some t) →
  ∃ text pattern, serverURL Mp p s = Ok text ∧ HasPrefix text "mieru://" = false ∧ HasPrefix text "mierus://" = true ∧
    URLToClientProfile Up text = Ok (importedProfile p pattern s) ∧
    (pattern = cp_TrafficPattern p ∨ pattern = None ∧ ∃ t, cp_TrafficPattern p = Some t ∧ Mp t = Some []).
Proof.
  intros Hp Hin Hcodec. pose proof Hp as [Hv Hpw (Hb1 & Hb2 & Hb3) Hl Hm Hsrv]. rewrite Forall_forall in Hsrv. pose proof (Hsrv s Hin) as Hsh.
  pose proof (mtu_range p Hp) as Hmtu. unfold ValidateClientConfigSingleProfile in Hv. rewrite !guard_spec, bind_unit, each_spec, Forall_forall in Hv.
  destruct Hv as (Hname & Huser & _ & _ & _ & _ & _ & Hall & _). pose proof (Hall s Hin) as Hs. destruct (server_bindings s Hs) as [Hne Hok].
  destruct (server_host s Hs Hsh) as (host & Ehost & Hhost & Htext & Hh & Eip).
  set (tb := cp_TrafficPattern p ≫= Mp).
  assert (∀ b, tb = Some b → bytes_ok b ∧ Up b = cp_TrafficPattern p) as Htb.
  { intros b. subst tb. destruct (cp_TrafficPattern p) as [t|]; [|done]. cbn. destruct (Hcodec t eq_refl) as (b' & -> & Hb & Hu). by intros [= <-]. }
  assert (∀ b, tb = Some b → bytes_ok b) as Hpat by (intros b Hb; by apply Htb).
  destruct (linkValues_query p Hp tb Hpat s Hs Hsh) as [Hq1 Hq2]. pose proof (linkValues_ok p Hp tb Hpat s Hs Hsh) as Hq3.
  set (u := mkURL (str "mierus") [] (Some (mkUserinfo (GetName (cp_User p)) (Some (GetPassword (cp_User p))))) host [] (Encode (linkValues p tb s))).
  assert (Parse (URL_String u) = Ok u) as Hparse by (apply Parse_String; done || by repeat constructor).
  assert (serverURL Mp p s = Ok (URL_String u)) as Elink.
  { unfold serverURL. rewrite Ehost, bind_Ok. rewrite (proj2 (Z.eqb_neq _ _)) by by rewrite len_zero. subst u tb. unfold linkValues.
    destruct (cp_TrafficPattern p) as [t|]; [|done]. cbn. by destruct (Hcodec t eq_refl) as (b & -> & _). }
  exists (URL_String u), (match tb with Some (_ :: _) => cp_TrafficPattern p | _ => None end).
  split; [done|]. split; [by unfold URL_String; cbn [Scheme u]; vm_compute (str "mierus")|].
  split; [unfold URL_String; cbn [User_ u]; rewrite orb_true_r; by apply bool_decide_eq_true|]. split.
  - destruct (linkValues_spec p tb s) as (G1 & G2 & G3 & G4 & G5 & G6 & G7). unfold URLToClientProfile. rewrite Hparse. cbn [wrapped]. rewrite bind_Ok.
    rewrite (Hh u eq_refl). subst u. cbn [Scheme Opaque User_ RawQuery Username Password]. cbv zeta. rewrite bool_decide_eq_true_2 by done. cbn [negb len length Z.of_nat Z.eqb].
    change (default [] (Some (GetPassword (cp_User p)))) with (GetPassword (cp_User p)).
    rewrite Huser.
    assert (∀ x : list Z, x ≠ [] → (len x =? 0) = false) as Hz by (intros x Hx; by rewrite (proj2 (Z.eqb_neq _ _)) by by rewrite len_zero).
    rewrite (Hz _ Hpw), (Hz _ Htext). cbn [negb]. rewrite Eip. rewrite query_roundtrip by done. cbn [wrapped]. rewrite bind_Ok.
    rewrite G1, G2, G3, G4, G5, G6, G7, Hname. rewrite importMtu_ok by done. rewrite bind_Ok.
    destruct level_names as (L1 & L2 & _), mode_names as (M1 & M2 & _). rewrite !importEnum_ok by done.
    assert (importPattern Up (from_option base64Encode [] tb) = Ok (match tb with Some (_ :: _) => cp_TrafficPattern p | _ => None end)) as ->.
    { subst tb. destruct (cp_TrafficPattern p) as [t|]; [|done]. cbn [mbind option_bind]. apply importPattern_ok. intros b Hb.
      destruct (Hcodec t eq_refl) as (b' & E' & Hb' & Hu). rewrite E' in Hb. injection Hb as <-. done. }
    rewrite bind_Ok. unfold len. rewrite !length_fmap. destruct Hsh as [_ Hone]. rewrite importBindings_ok by done. rewrite bind_Ok.
    assert (importedServer s = mkServerEndpoint (IpAddress (importedServer s)) (DomainName (importedServer s)) (importedBinding <$> se_PortBindings s)) as Es
      by (unfold importedServer; by destruct (len (GetDomainName s) =? 0)).
    unfold importedProfile. by rewrite <-Es, !Z.eqb_refl.
  - subst tb. destruct (cp_TrafficPattern p) as [t|]; [|by left]. cbn. destruct (Hcodec t eq_refl) as ([|x b] & E & _); rewrite E; [right|by left].
    split; [done|]. by exists t.
Qed.

(** What an import keeps of a server: its endpoints. *)
Lemma imported_endpoint mtu s protocol port : endpointOf mtu (importedServer s) protocol port = endpointOf mtu s protocol port.
Proof.
  unfold importedServer. destruct (Z.eqb_spec (len (GetDomainName s)) 0) as [E|N].
  - apply len_zero in E. unfold endpointOf. rewrite E. reflexivity.
  - unfold endpointOf. change (GetDomainName (mkServerEndpoint None (Some (GetDomainName s)) (importedBinding <$> se_PortBindings s))) with (GetDomainName s).
    by rewrite (proj2 (Z.eqb_neq _ _) N).
Qed.
Lemma importedServer_valid s :
  validateServerEndpoint s = Ok tt → server_shareable s → validateServerEndpoint (importedServer s) = Ok tt.
Proof.
  intros Hs Hsh. destruct (server_bindings s Hs) as [Hne Hok]. destruct (server_host s Hs Hsh) as (_ & _ & _ & Ht & _ & _). pose proof Hsh as [_ Hone].
  unfold validateServerEndpoint in *. rewrite !guard_spec in *. destruct Hs as (H1 & H2 & H3 & H4).
  assert (is_Ok (FlatPortBindings (importedBinding <$> se_PortBindings s))) as [r Er].
  { pose proof (FlatPortBindings_spec (importedBinding <$> se_PortBindings s)) as Hf.
    assert (Forall binding_ok (importedBinding <$> se_PortBindings s)) as Hall.
    { rewrite Forall_fmap. rewrite Forall_forall in *. intros b Hb. apply imported_binding_ok; auto. }
    destruct (FlatPortBindings (importedBinding <$> se_PortBindings s)) as [r|e|m]; [by exists r|by destruct (Hf Hall)|by destruct Hf]. }
  assert ((len (importedBinding <$> se_PortBindings s) =? 0) = false) as Hl by (unfold len in *; by rewrite length_fmap).
  unfold importedServer, hostText in *. destruct (Z.eqb_spec (len (GetDomainName s)) 0) as [E|N].
  - cbn [GetIpAddress IpAddress GetDomainName DomainName se_PortBindings default]. split_and!; [|exact H2|exact Hl|by rewrite Er].
    rewrite <-len_zero in Ht. change (default [] (Some (GetIpAddress s))) with (GetIpAddress s). by rewrite (proj2 (Z.eqb_neq _ _)).
  - split_and!; [|done|exact Hl|cbn [se_PortBindings]; by rewrite Er]. change (GetDomainName (mkServerEndpoint None (Some (GetDomainName s)) _)) with (GetDomainName s).
    by rewrite (proj2 (Z.eqb_neq _ _) N).
Qed.
Lemma importedProfile_valid p pattern s :
  shareable p → s ∈ Servers p → pattern = cp_TrafficPattern p ∨ pattern = None → ValidateClientConfigSingleProfile (importedProfile p pattern s) = Ok tt.
Proof.
  intros [Hv Hpw _ _ _ Hsrv] Hin Hpat. rewrite Forall_forall in Hsrv. unfold ValidateClientConfigSingleProfile in *.
  rewrite !guard_spec, bind_unit, each_spec, !guard_spec, Forall_forall in Hv.
  destruct Hv as (Hname & Huser & _ & Hlen & Hplen & _ & _ & Hall & Hmtu & Htp).
  rewrite !guard_spec, bind_unit, each_spec, !guard_spec. change (GetProfileName (importedProfile p pattern s)) with (GetProfileName p).
  change (GetName (cp_User (importedProfile p pattern s))) with (GetName (cp_User p)).
  change (GetPassword (cp_User (importedProfile p pattern s))) with (GetPassword (cp_User p)).
  assert (len (GetPassword (cp_User p)) ≠ 0) as Hne by by rewrite len_zero. rewrite (proj2 (Z.eqb_neq _ _) Hne) in *. cbn [negb andb] in *. split_and!; try done.
  - apply Forall_singleton. apply importedServer_valid; auto.
  - change (cp_TrafficPattern (importedProfile p pattern s)) with pattern. destruct Hpat as [-> | ->]; [|done].
    destruct (TrafficConfig.Validate (cp_TrafficPattern p)); done.
Qed.

(** ** Sharing *)

Lemma collect_one {A B} (f : A → result B) (l : list A) (P : A → B → Prop) :
  (∀ x, x ∈ l → ∃ y, f x = Ok y ∧ P x y) → ∃ ys, collect (λ x, u ← f x; Ok [u]) l = Ok ys ∧ Forall2 P l ys.
Proof.
  induction l as [|x l IH]; intros H; [by exists []|]. destruct (H x) as (y & E & Hy); [left|].
  destruct IH as (ys & E' & Hys); [intros z Hz; apply H; by right|]. exists (y :: ys). split; [|by constructor].
  cbn. by rewrite E, !bind_Ok, E', bind_Ok.
Qed.

(** A shared configuration is imported as it was: whatever bytes the codec
    gives for it, their link is parsed as a link of this scheme, and the
    configuration that is decoded from it is the one that was encoded. *)
Theorem config_link (Marshal : ClientConfig → option (list Z)) (Unmarshal : list Z → option ClientConfig) (UnmarshalPattern : list Z → option TrafficPattern)
    (c : ClientConfig) (link : list Z) :
  (∀ b, Marshal c = Some b → bytes_ok b ∧ Unmarshal b = Some (decodedClient c)) →
  ClientConfigToURL Marshal (Some c) = Ok link →
  ParseURLClientConfig Unmarshal UnmarshalPattern link = Ok (decodedClient c).
Proof.
  intros codec. unfold ClientConfigToURL. destruct (Marshal c) as [b|]; [|done]. destruct (codec b eq_refl) as [Hb Hu]. intros Hlink.
  assert (link = str "mieru://" ++ base64Encode b) as -> by congruence. clear Hlink.
  unfold ParseURLClientConfig. assert (HasPrefix (str "mieru://" ++ base64Encode b) "mieru://" = true) as -> by by apply bool_decide_eq_true.
  unfold URLToClientConfig. destruct (base64_link b Hb) as (host & path & ->). cbn [wrapped]. rewrite bind_Ok. cbn [Scheme Opaque].
  rewrite bool_decide_eq_true_2 by done. change (negb (len (@nil Z) =? 0)) with false. cbn [negb].
  change (drop 8 (str "mieru://" ++ base64Encode b)) with (base64Encode b). rewrite base64_roundtrip by done. cbn [wrapped]. by rewrite bind_Ok, Hu.
Qed.

(** C25. The links of a profile that links can express: one that is accepted and
    has a plain password, texts of bytes, declared values of its enums, domain
    names that a link can have as its host, and bindings that name a port or a
    range of ports, not both ([shareable]; [link_of_both] shows what becomes of
    the others).  There is one link for each server, in their order, and each is
    imported as a configuration with one accepted profile, which has the name,
    the user, the credential, the MTU, the multiplexing level, the handshake mode
    and the traffic pattern (an empty one may be left out) of the shared one, and
    whose only server has the same endpoints.  The dialer of the profile is not
    shared: the imported one has none. *)
Theorem profile_link (Marshal : TrafficPattern → option (list Z)) (Unmarshal : list Z → option TrafficPattern)
    (UnmarshalConfig : list Z → option ClientConfig) (p : ClientProfile) :
  (∀ t, cp_TrafficPattern p = Some t → ∃ b, Marshal t = Some b ∧ bytes_ok b ∧ Unmarshal b = Some t) → shareable p →
  ∃ links, ClientProfileToMultiURLs Marshal (Some p) = Ok links ∧
  Forall2 (λ s link, ∃ q s', ParseURLClientConfig UnmarshalConfig Unmarshal link = Ok (emptyClientConfig<|Profiles := [q]|>) ∧
    ValidateClientConfigSingleProfile q = Ok tt ∧ GetProfileName q = GetProfileName p ∧
    GetName (cp_User q) = GetName (cp_User p) ∧ profilePassword q = Ok (credentialOf (cp_User p)) ∧
    cp_Mtu q = cp_Mtu p ∧ Multiplexing q ≫= Level = Multiplexing p ≫= Level ∧ HandshakeMode q = HandshakeMode p ∧ cp_Dialer q = None ∧
    (cp_TrafficPattern q = cp_TrafficPattern p ∨
     cp_TrafficPattern q = None ∧ ∃ t, cp_TrafficPattern p = Some t ∧ Marshal t = Some []) ∧
    Servers q = [s'] ∧ ∀ mtu protocol port, (bound (se_PortBindings s') protocol port ↔ bound (se_PortBindings s) protocol port) ∧
      endpointOf mtu s' protocol port = endpointOf mtu s protocol port) (Servers p) links.
Proof.
  intros codec Hp. pose proof Hp as [Hv Hpw _ _ _ Hsrv]. unfold ClientProfileToMultiURLs.
  pose proof Hv as Hv'. unfold ValidateClientConfigSingleProfile in Hv'. rewrite !guard_spec, bind_unit, each_spec, Forall_forall in Hv'.
  destruct Hv' as (-> & -> & _ & _ & _ & _ & -> & Hall & _). rewrite (proj2 (Z.eqb_neq _ _)) by by rewrite len_zero.
  apply collect_one. intros s Hs. rewrite Forall_forall in Hsrv. destruct (Hsrv s Hs) as [_ Hone]. destruct (server_bindings s (Hall s Hs)) as [_ Hok].
  destruct (server_link Marshal Unmarshal p s Hp Hs codec) as (link & pattern & El & H1 & H2 & Eq & Hpat).
  exists link. split; [done|]. exists (importedProfile p pattern s), (importedServer s). unfold ParseURLClientConfig. rewrite H1, H2, Eq. cbn [wrapped]. rewrite bind_Ok.
  split; [done|]. split; [apply importedProfile_valid; naive_solver|]. split_and!; try done.
  - by destruct (Multiplexing p ≫= Level) as [l|] eqn:E; cbn; rewrite E.
  - intros mtu protocol port. split; [|apply imported_endpoint].
    assert (se_PortBindings (importedServer s) = importedBinding <$> se_PortBindings s) as -> by (unfold importedServer; by destruct (len (GetDomainName s) =? 0)).
    by apply imported_bound.
Qed.

(** The text of a traffic pattern is decoded to the pattern; an error of the codec
    gives no text, which is decoded as the empty message. *)
Lemma pattern_text (Marshal : option TrafficPattern → option (list Z)) (Unmarshal : list Z → option TrafficPattern) (t : TrafficPattern) :
  (∀ b, Marshal (Some t) = Some b → bytes_ok b ∧ Unmarshal b = Some t) →
  PatternText.Decode Unmarshal (PatternText.Encode Marshal (Some t)) =
    match Marshal (Some t), Unmarshal [] with
    | Some _, _ => Ok t
    | None, Some e => Ok e
    | None, None => Err (Errorf "proto.Unmarshal() failed")
    end.
Proof.
  intros codec. unfold PatternText.Decode, PatternText.Encode. destruct (Marshal (Some t)) as [b|]; [|reflexivity].
  destruct (codec b eq_refl) as [Hb Hu]. rewrite base64_roundtrip by done. cbn [wrapped]. by rewrite bind_Ok, Hu.
Qed.

(** A binding that names a port and also a range: the client dials the port and
    nothing else, but the link has the range, so the importer dials that. *)
Definition both_profile : ClientProfile :=
  example_profile<|Servers := [mkServerEndpoint (Some (str "203.0.113.5")) None
    [mkPortBinding (Some 443) (Some TransportProtocol_TCP) (Some (str "8000-8001"))]]|>.
Lemma link_of_both :
  (ep_RemoteAddr <$> default [] (match clientEndpointsFromProfile both_profile with Ok l => Some l | _ => None end)) =
    [TCPAddr (Some (ipAddr (ParseIP (str "203.0.113.5")) 443))] ∧
  match ClientProfileToMultiURLs (λ _, None) (Some both_profile) with
  | Ok [link] =>
    match URLToClientProfile (λ _, None) link with
    | Ok q => (ep_RemoteAddr <$> default [] (match clientEndpointsFromProfile q with Ok l => Some l | _ => None end)) =
        [TCPAddr (Some (ipAddr (ParseIP (str "203.0.113.5")) 8000)); TCPAddr (Some (ipAddr (ParseIP (str "203.0.113.5")) 8001))]
    | _ => False
    end
  | _ => False
  end.
Proof. by vm_compute. Qed.

(** ** Examples *)

Lemma config_link_witness :
  ∃ link, ClientConfigToURL (λ _, Some [1; 2; 255]) (Some example_client) = Ok link ∧
  ParseURLClientConfig (λ _, Some (decodedClient example_client)) (λ _, None) link = Ok (decodedClient example_client).
Proof.
  exists (str "mieru://AQL/"). split; [reflexivity|].
  apply (config_link (λ _, Some [1; 2; 255]) (λ _, Some (decodedClient example_client)) (λ _, None) example_client); [|reflexivity].
  intros b [= <-]. split; [by repeat constructor|done].
Defined.

(** A profile with a space in its name, a colon in the password, an IPv6 server
    and another by name. *)
Definition shared_profile : ClientProfile :=
  mkClientProfile (Some (str "my profile")) (Some (mkUserMsg (Some [98]) (Some (str "p:w/d?")) None [] None None))
    [mkServerEndpoint (Some (str "2001:db8::1")) None
       [mkPortBinding (Some 443) (Some TransportProtocol_TCP) None; mkPortBinding None (Some TransportProtocol_UDP) (Some (str "8000-8001"))];
     mkServerEndpoint None (Some (str "example.com")) [mkPortBinding (Some 8443) (Some TransportProtocol_TCP) None]]
    (Some 1280) (Some (mkMultiplexingConfig (Some 3))) (Some 2) (Some example_pattern) None.
Lemma shared_profile_shareable : shareable shared_profile.
Proof.
  split; [by vm_compute|done|split_and!; by repeat constructor|by intros ? [= <-]|by intros ? [= <-]|].
  assert (∀ bs : list PortBinding, Forall (λ b, GetBindingPort b = 0 ∨ GetPortRange b = []) bs → ∀ b, b ∈ bs → GetBindingPort b = 0 ∨ GetPortRange b = []) as Hb
    by (intros bs H; by apply Forall_forall).
  apply Forall_cons. split; [split; [by left|]|apply Forall_singleton; split; [right; split; [by repeat constructor|by vm_compute]|]]; apply Hb.
  - constructor; [by right|]. constructor; [by left|constructor].
  - constructor; [by right|constructor].
Qed.
Definition sharedCodec : TrafficPattern → option (list Z) := λ _, Some [8; 1].
Lemma profile_link_witness :
  ∃ links, ClientProfileToMultiURLs sharedCodec (Some shared_profile) = Ok links ∧ length links = 2%nat.
Proof.
  destruct (profile_link sharedCodec (λ _, Some example_pattern) (λ _, None) shared_profile) as (links & E & H).
  - intros t [= <-]. exists [8; 1]. split; [done|]. split; [by repeat constructor|done].
  - exact shared_profile_shareable.
  - exists links. split; [exact E|]. symmetry. exact (Forall2_length _ _ _ H).
Defined.
